(* ===== verification/_CoqProject ===== *)
-Q . S2P
Prelude.v
JsText.v
ScopeKeys.v
RuntimeTypes.v
RuntimeStore.v
TurnQueue.v
RuntimeRefines.v
RuntimeLedger.v
Demo.v
RuntimeProps.v
BrowserProps.v
FairScheduler.v
PromiseLock.v
Admission.v
AdmissionProps.v
WorkerLeases.v
WorkerProps.v
Identifiers.v
BrowserBroker.v
BrokerProps.v
RuntimeLeases.v
RuntimeService.v
ServiceProps.v
CoordinatorOwnership.v
CoordinatorProps.v
SessionLeases.v
TemporaryGrants.v
PersistentGrants.v
PathTemplate.v
HttpPolicy.v
Dedup.v
RateLimiters.v
ApprovalPolicy.v
Regex.v
NodePath.v
RiskTypes.v
CommandRegistry.v
ArgParser.v
TrustRules.v
TrustRulesProps.v
ShellParser.v
ShellIdentity.v
BashRisk.v
BashScope.v
BashRiskProps.v
BashScopeProps.v
RegistryProps.v
ToolRisk.v
DirectoryScope.v
RiskHandlers.v
RiskDemo.v
RiskHandlersProps.v
SkillGraph.v
Async.v
Surroundings.v
AllowlistOptions.v
CheckerTypes.v
Thresholds.v
ThresholdProps.v
Checker.v
CheckerProps.v
CacheKeys.v
PermissionChecker.v
PermissionProps.v
PermissionSystem.v
PermissionDemo.v
PermissionClaims.v
SkillPinning.v
StreamState.v
StreamProps.v
EventHub.v
HubProps.v
Redaction.v
Interactions.v
Prompters.v
HostProxies.v
InteractionRoutes.v
InteractionProps.v
InteractionOrigins.v
InteractionClaims.v
