(* ===== verification/Prelude.v ===== *)
(** * Worklin: a verification of the concurrent runtime and its gatekeepers

    Worklin is a multi-tenant assistant platform written in TypeScript.  Chat
    turns are accepted by the concurrent runtime (src/assistant/src/
    concurrent-runtime), queued per conversation, and run by workers under
    leases; turns may drive a user's browser through a broker.  The control plane
    (src/control-plane) decides which tenant's requests are admitted and which
    worker stack serves which assistant.  The credential executor
    (src/credential-executor) runs credentialed commands only under an approval.
    The gateway (src/gateway) receives webhooks, must not handle a delivery twice,
    limits how often a caller may fail or be answered, and tells the assistant how
    risky a tool call is; the assistant's approval policy then decides whether to ask
    the user, whose clients receive its events and answer what it asks.  This library models the state these parts keep and every operation on
    it, and proves what each promises to the others.

    ** Files

    Prelude.v: effects, tables, arrays, insertion-ordered maps, and their lemmas.
    A method is a computation [M (World S) E A]: state passing with exceptions,
    where mutations before a [throw] stay.  JsText.v: case, [split], [join] and the
    URI component functions.

    ScopeKeys.v: [TenantExecutionContext] and the keys of the runtime's maps
    (src/packages/service-contracts/src/tenant-context.ts, in-memory-store.ts):
    [JSON.stringify] of arrays of strings, decodable, hence injective.

    RuntimeTypes.v, RuntimeStore.v: [InMemoryConcurrentRuntimeStore] of
    in-memory-store.ts with the records of types.ts, store.ts and
    browser-broker/types.ts: one definition per method, in the order of the
    source.  The store is one record of maps; each method reads and writes it as
    the source does.

    TurnQueue.v, RuntimeRefines.v: the abstract machine of numbered turns, and
    the proof that every method of the store is a sequence of its steps
    ([store_refines_turn_queue]).  From the machine follow, for every reachable
    state of the store: turns of a conversation run one at a time and in order,
    and an ended turn never changes.

    RuntimeLedger.v, RuntimeProps.v: the invariant tying runs to messages, run
    contexts, idempotency records, events and conversation owners; then leases
    (a live lease excludes every other worker, a stale worker is refused),
    idempotent retries, event pages, claims, completion, and isolation of actors.

    BrowserProps.v: browser actions only move forward, the outbox is ordered,
    superseded connections are refused, results are recorded once.

    BrowserBroker.v, BrokerProps.v: [BrowserBrokerService] of
    browser-broker/service.ts over the store: the pages a browser may be sent to
    (IPv4 hosts are blocked exactly in the private and reserved blocks), and the
    connection token handed out last as the only one that counts.

    RuntimeService.v, RuntimeLeases.v, ServiceProps.v: [ConcurrentRuntimeService] of
    service.ts over the store, the broker, the scheduler and the conversation lock.
    An [async] function runs to its next [await] and leaves the rest of itself as a
    process; the system interleaves the functions under way with clients, renewal
    timers, executor events, resolvers and other users of the store.  Every store
    call takes effect when it is made; its answer is looked at a step later.  In
    every reachable state a leased run has a function under way that will end its
    lease, and a run has at most one task.  RuntimeLeases.v proves that only a claim
    gives a lease; the logic of ServiceProps.v then follows the functions segment by
    segment: [co_ok] is what each guarantees to the others, [works] that it does not
    end before its lease does.

    FairScheduler.v: [FairTenantScheduler] of fair-scheduler.ts, its limits, work
    conservation, first-in first-out order per tenant, round robin, and
    termination of the drain loop.

    PromiseLock.v: the two per-key locks built from chains of promises (exclusive of
    runtime-worker-request-router.ts, withConversationLock of service.ts) behave as
    a first-in first-out lock under every interleaving, and cannot block for ever.

    Admission.v, AdmissionProps.v: tenant-runtime-admission.ts: concurrency, turn
    and rate limits hold along every time-ordered sequence of transactions; what
    an admission changes; the advised waiting time is sound.

    WorkerLeases.v, WorkerProps.v: runtime-worker-leases.ts: exclusive leases,
    binding until sanitized, fencing generations, capacity, and what a claim
    returns.

    Identifiers.v: identifiers and positive integers as the configuration reads them.
    CoordinatorOwnership.v, CoordinatorProps.v: which process owns the worker pool
    (runtime-worker-coordinator-ownership.ts): epochs grow, grants exclude each
    other, guards fail closed.  SessionLeases.v: held voice sessions, their paths,
    and the routing policy (runtime-worker-session-leases.ts,
    runtime-worker-routing-policy.ts).

    TemporaryGrants.v, PersistentGrants.v: the two grant stores of the credential
    executor, each with an abstract store it implements; single-use and timed
    approvals end; a damaged file fails closed.

    PathTemplate.v, HttpPolicy.v: the HTTP policy of the credential executor as a
    client of the two stores, through the interface [GrantStores] that both
    implement: an allowed request has a covering grant or an approval of its own
    proposal; path templates match exactly what they say.

    Dedup.v: the gateway's deduplication caches (dedup-cache.ts): a delivery is handled
    once, by one handler at a time, and can be retried.  RateLimiters.v: the sliding windows of the
    gateway and the assistant equal a full log, as long as no live key has to be
    evicted.

    ApprovalPolicy.v: [DefaultApprovalPolicy] of the assistant
    (src/assistant/src/permissions/approval-policy.ts): its chain of rules equals
    a compact reference, and is monotone in the user's threshold.

    Risk classification (src/gateway/src/risk, src/gateway/src/ipc/
    risk-classification-handlers.ts):
    Regex.v and NodePath.v are the parts of the language and of Node the code uses,
    the regular expressions with a denotation that the search agrees with, and the
    path functions on POSIX.  RiskTypes.v has the types of risk-types.ts,
    CommandRegistry.v the specification of every command, ArgParser.v parseArgs.
    ShellParser.v reads the syntax tree of a command into segments, dangerous
    patterns and opaque constructs; ShellIdentity.v has the action keys and the
    parse cache, sound under every interleaving of its calls.
    BashRisk.v classifies a segment, BashScope.v a command, and makes the scope
    options; BashRiskProps.v: the risk of a command is the maximum of its parts, a
    result below the base risk accounts for every argument, wrappers never lower it;
    BashScopeProps.v: the exact option, read as a regular expression, matches the
    command and nothing else.  RegistryProps.v: the registry is well formed.
    TrustRules.v, TrustRulesProps.v: the table of rules, its seeding from the
    registry, which keeps what the user changed, and the cache, which finds the most
    specific rule.
    ToolRisk.v, DirectoryScope.v, RiskHandlers.v, RiskHandlersProps.v: the other
    tools, the directory scopes, approval in the sandbox and [handleClassifyRisk]:
    what is approved stays inside the workspace as far as its paths are literal.
    RiskDemo.v: concrete commands; at the end of RiskHandlersProps.v, where the
    classification does not do what it means to.

    Permission for a tool call (src/assistant/src/permissions, src/assistant/src/tools/
    permission-checker.ts), a client of the gateway's classification:
    Async.v is what the parts share: a function that awaits answers, as the tree of the
    questions it asks; the weakest precondition of one, which gives the memory away at
    each question under an invariant; and the system that interleaves any number of
    them, with the theorem that functions verified on their own keep their promises in
    it.  CheckerTypes.v has the memory of the modules and the questions to the gateway
    and the user.  Surroundings.v has what a request looks up around it (directories of
    util/platform.ts, path-classifier.ts, workspace-policy.ts, selectors of skills,
    version-hash.ts and transitive-version-hash.ts on a file system given as functions),
    AllowlistOptions.v the rules offered to the user.
    Thresholds.v, ThresholdProps.v: gateway-threshold-reader.ts: a threshold is one the
    gateway gave, no older than its cache allows.  Checker.v, CheckerProps.v,
    CacheKeys.v: [classifyRisk] and [check] of checker.ts: the caches answer only what
    the gateway answered for the same key, and equal keys mean the same call;
    a prompt rests on a threshold that is read again for it.  PermissionChecker.v,
    PermissionProps.v: [checkPermission], with the promotions to a prompt, automatic
    approvals, sessions without a client, and errors.  PermissionSystem.v puts the calls
    together, PermissionClaims.v states what a call that has ended says, PermissionDemo.v
    has concrete answers to run it with.
    SkillGraph.v: include-graph.ts: the traversal ends on every catalog, with the right
    error or the right list.  SkillPinning.v: equal transitive hashes mean the same skills
    with the same files and bytes.

    Events to clients (src/assistant/src/runtime/assistant-stream-state.ts,
    assistant-event-hub.ts, routes/events-routes.ts): StreamState.v has the numbers of
    events, their reservation on disk, the ring of recent events and the replay window,
    StreamProps.v: numbers grow strictly across restarts, and what a replay leaves out.
    EventHub.v has subscribers, publication through the chain of promises, targeting and
    streams with replay, HubProps.v the hub as one step function: everything written to a
    stream was meant for its client, in order, and a replay holds what was meant for the
    client, but for what is addressed to it from another conversation.

    Asking the user and the user's machines: Redaction.v: what is taken out of a tool's
    input before it is shown (security/redaction.ts).  Interactions.v: the registry of
    pending-interactions.ts with promises, timers and abort listeners, in the record
    [World].  Prompters.v: the prompters for permissions, secrets and questions and the
    conversations that own them.  HostProxies.v: commands, files and computer use on the
    user's machines, and the routes their results come back on; the clients are those of
    the event hub.  InteractionRoutes.v: every way a request is answered, timers, signals,
    and the system [step] of all of it in any order.  InteractionProps.v looks at
    one request at a time and proves the invariant [world_ok] of every step;
    InteractionOrigins.v has what each step may settle a request with, and which batches of
    answers are accepted.  InteractionClaims.v: no request is lost, clients get one notice
    of its end, permission takes approval, results come from the user who asked (all but the
    third in runs without voice turns on the user's own device); and runs the program
    does not mean to have.

    Demo.v: the concrete clock and identifiers of the worked examples.

    ** Conventions

    [Date.now] and [randomUUID] are sequences of readings ([Env]); a component
    counts its readings.  Theorems that need it assume that identifiers do not
    repeat ([UuidOk]) and that the clock does not go back ([ClockOk]); Demo.v has
    an environment with both.  Where the source evaluates [Date.now()] only on one
    side of a short-circuiting operator the model may read it and not use it,
    which shifts later readings but not their order.  Where the source takes the
    time as an argument, so does the model.

    Timestamps kept as ISO strings are their milliseconds.  Numbers are integers
    ([Z]); the code's are far below 2^53.  Strings are sequences of code units up
    to 255.  A [Map] that is iterated over is an association list in insertion
    order; one that is only looked up is a [gmap].  Objects held by maps are
    mutated in place, and copies returned; no copy is mutated later.  An [async]
    method of the store runs as one step: the one [await] in the class is of another
    read of the store, when the input of a claimed turn is put together.  A SQL table
    is the list of its rows, with the schema's CHECK and UNIQUE clauses; a
    transaction is a function of the tables.  The URL parser ([new URL]) and SHA-256
    are parameters; what is assumed of the parser is a class ([UrlParserOk]) with an
    instance, or a hypothesis on the one URL.  Literal fields such as schema
    version tags, and log lines, are left out.

    The tree-sitter parser of shell commands is a parameter, a function from the text
    to the syntax tree; what exists on disk, and the home and current directories, are
    a class ([Host]).  Text in the registry outside ASCII is kept as its bytes.  A
    property that every object inherits is found where the code reads [obj\[key\]]
    ([js_member]), and a field of it is undefined.

    The permission checker's questions, to the gateway and to the user, are answered by
    the environment, in any order and with anything that has the type of an answer; only
    a call that waits for one of its own functions is left to continue at any later time
    (the question [turn]).  The registry of tools, the catalog of skills and the file
    system are a record of functions ([Surroundings]) that a call may change; the
    URL parser is a class without laws ([UrlApi]), and of SHA-256 a theorem assumes that
    it has no collisions ([Sha256Ok]).

    Loops that need fuel: the scheduler's drain ([drain_terminates]: fuel always
    suffices, whatever the tasks enqueue, and reachable states run it to the end), the
    descent into subcommands and wrappers ([resolve_fuel], [classify_fuel]: each takes
    an argument off), the walk to a project's root ([boundary_walk_terminates]), the
    include graph ([include_graph_validated]), the directories of a skill, which are
    finitely many ([collectSkillFiles_total]), and the way up a path to an entry that
    exists ([canonicalize_from_enough], [nearest_ancestor_enough]).

    ** Not modelled

    The PostgreSQL store, HTTP servers, cryptographic tokens, the model providers,
    the agent loop and its tools, provisioning through hosting APIs, the clients,
    skills and scripts: they are input and output, or their behaviour is that of
    an external system.  The permission checker's model has the prompter as an answer of
    its environment; Prompters.v is the prompter itself.  Reading the catalog of skills
    from disk is input.  Of the event hub: heartbeats, framing,
    the log of events on disk.  Of the user's machines: the proxies for browsers, app
    control and transfers, and the texts of results; a broadcast that throws.  The theorems
    on pending interactions leave out voice turns on the user's own device
    ([no_local_voice]), where they are false ([local_voice_is_never_answered]).

    Parts with logic of their own that this library does not reach: the turn executor's
    reading of a response, the request router's bookkeeping and the dispatcher over the
    worker leases with the state checkpoints, the stack table's transitions, the retention
    service, and the assistant's workflow engine, message queue and memory. *)
From Stdlib Require Export ZArith Lia Ascii.
From stdpp Require Export base gmap strings list sorting.
#[export] Set Default Goal Selector "!".
#[global] Open Scope Z_scope.

(** ** Effects: state, exceptions, the clock and the UUID source

    A JavaScript method body is a state transformer that ends with a value or
    a thrown exception.  Mutations made before a [throw] stay: the state is
    returned in both cases. *)

Definition M (W E A : Type) : Type := W → (E + A) * W.

#[global] Instance M_ret {W E} : MRet (M W E) := λ A a w, (inr a, w).
#[global] Instance M_bind {W E} : MBind (M W E) := λ A B k m w,
  match m w with
  | (inl e, w') => (inl e, w')
  | (inr a, w') => k a w'
  end.

Definition throw {W E A} (e : E) : M W E A := λ w, (inl e, w).

(** The two sources of nondeterminism the code reads: the n-th result of
    [Date.now()] and the n-th result of [randomUUID()]. *)
Class Env := {
  date_now : nat → Z;
  random_uuid : nat → string;
}.

(** What the code relies on of [node:crypto]'s [randomUUID]: it never returns
    the same identifier twice, nor the empty string. *)
Class UuidOk (env : Env) : Prop := {
  uuid_inj : Inj (=) (=) random_uuid;
  uuid_nonempty : ∀ n, random_uuid n ≠ "";
}.

(** What expiry reasoning needs of [Date.now]: it does not go backwards. *)
Class ClockOk (env : Env) : Prop := {
  clock_mono : ∀ i j, (i ≤ j)%nat → date_now i ≤ date_now j;
}.

(** A component's state together with the number of clock and UUID readings
    made so far. *)
Record World (S : Type) := mkWorld { w_clock : nat; w_uuid : nat; w_st : S }.
Arguments mkWorld {S} _ _ _.
Arguments w_clock {S} _.
Arguments w_uuid {S} _.
Arguments w_st {S} _.

Section effects.
Context {env : Env} {S E : Type}.

Definition now : M (World S) E Z := λ w,
  (inr (date_now (w_clock w)), mkWorld (Datatypes.S (w_clock w)) (w_uuid w) (w_st w)).

Definition randomUUID : M (World S) E string := λ w,
  (inr (random_uuid (w_uuid w)), mkWorld (w_clock w) (Datatypes.S (w_uuid w)) (w_st w)).

Definition gets {A} (f : S → A) : M (World S) E A := λ w, (inr (f (w_st w)), w).

Definition modify (f : S → S) : M (World S) E unit := λ w,
  (inr tt, mkWorld (w_clock w) (w_uuid w) (f (w_st w))).
End effects.

(** ** Frame reasoning

    [respects R m]: running [m] takes a state to an [R]-related one, whether it
    returns or throws.  For a preorder [R] this composes along the monad; the
    usual instance says that a projection of the state is left alone. *)

Definition respects {W E A} (R : W → W → Prop) (m : M W E A) : Prop := ∀ w, R w (m w).2.

(** The projection is unchanged and the counters have not gone back. *)
Definition same {S B} (f : S → B) (w w' : World S) : Prop :=
  f (w_st w') = f (w_st w) ∧ (w_uuid w ≤ w_uuid w')%nat ∧ (w_clock w ≤ w_clock w')%nat.

(** The computation leaves the projection [f] of the state alone. *)
Definition keeps {S E A B} (f : S → B) (m : M (World S) E A) : Prop := respects (same f) m.

#[global] Instance same_preorder {S B} (f : S → B) : PreOrder (same f).
Proof.
  split; [by intros w|]. intros x y z (H1&?&?) (H2&?&?). split_and!; [congruence|lia|lia].
Qed.

Section respects.
Context {W E : Type} (R : W → W → Prop) `{!PreOrder R}.

Lemma respects_ret {A} (a : A) : respects R (mret a : M W E A).
Proof. intros w. cbn. reflexivity. Qed.

Lemma respects_throw {A} (e : E) : respects R (throw e : M W E A).
Proof. intros w. cbn. reflexivity. Qed.

Lemma respects_bind {A B} (m : M W E A) (k : A → M W E B) :
  respects R m → (∀ a, respects R (k a)) → respects R (m ≫= k).
Proof.
  intros Hm Hk w. unfold mbind, M_bind. specialize (Hm w).
  destruct (m w) as [[e|a] w']; cbn in *; [done|]. etrans; [exact Hm|apply Hk].
Qed.
End respects.

Section keeps.
Context {env : Env} {S E B : Type} (f : S → B).

Lemma keeps_ret {A} (a : A) : keeps f (mret a : M (World S) E A).
Proof. apply respects_ret, _. Qed.
Lemma keeps_throw {A} (e : E) : keeps f (throw e : M (World S) E A).
Proof. apply respects_throw, _. Qed.
Lemma keeps_bind {A C} (m : M (World S) E A) (k : A → M (World S) E C) :
  keeps f m → (∀ a, keeps f (k a)) → keeps f (m ≫= k).
Proof. apply respects_bind, _. Qed.
Lemma keeps_gets {A} (g : S → A) : keeps f (gets g : M (World S) E A).
Proof. by intros w. Qed.
Lemma keeps_now : keeps f (now : M (World S) E Z).
Proof. intros w. split_and!; cbn; [done|lia|lia]. Qed.
Lemma keeps_randomUUID : keeps f (randomUUID : M (World S) E string).
Proof. intros w. split_and!; cbn; [done|lia|lia]. Qed.
Lemma keeps_modify g : (∀ s, f (g s) = f s) → keeps f (modify g : M (World S) E unit).
Proof. intros H w. split_and!; cbn; [apply H|lia|lia]. Qed.

(** The frame condition at a known result. *)
Lemma keeps_eq {A} (m : M (World S) E A) w r w' :
  keeps f m → m w = (r, w') → same f w w'.
Proof. intros Hm Heq. specialize (Hm w). by rewrite Heq in Hm. Qed.
End keeps.

Create HintDb keeps.
#[export] Hint Resolve keeps_gets keeps_now keeps_randomUUID : keeps.

(** Frame conditions, syntax directed: binds, branches, then the database. *)
Ltac solve_keeps_step :=
  match goal with
  | |- keeps _ (if ?b then _ else _) => destruct b
  | |- keeps _ (match ?x with _ => _ end) => destruct x
  | |- keeps _ (mret _) => apply keeps_ret
  | |- keeps _ (throw _) => apply keeps_throw
  | |- keeps _ (mbind _ _) => apply keeps_bind; [|intros ?]
  | |- keeps _ (modify _) => apply keeps_modify; intros ?; reflexivity
  | |- keeps _ _ => solve [auto with keeps]
  end.
Ltac solve_keeps := repeat solve_keeps_step.

(** Run a computation symbolically: unfold the monad in the goal. *)
Ltac mrun := unfold mbind, M_bind, mret, M_ret, gets, modify, now, randomUUID, throw; cbn.

(** Calls one after the other; an exception ends its own call only. *)
Fixpoint run_calls {S E C A} (run : C → M (World S) E A) (cs : list C) (w : World S)
    : list (E + A) * World S :=
  match cs with
  | [] => ([], w)
  | c :: cs' =>
      let '(a, w1) := run c w in
      let '(l, w2) := run_calls run cs' w1 in (a :: l, w2)
  end.

(** The value of a call that returned. *)
Definition ok_or {E A} (d : A) (r : E + A) : A := match r with inr a => a | inl _ => d end.
Definition returned {E A} (r : E + A) : bool := match r with inr _ => true | inl _ => false end.

Lemma returned_eq {W E A} (m : M W E A) (d : A) w :
  returned (m w).1 = true → m w = (inr (ok_or d (m w).1), (m w).2).
Proof. by destruct (m w) as [[e|a] w']. Qed.

(** ** JavaScript values the code tests for truth *)

(** [if (s)] on a string, and on a [string | undefined]. *)
Definition truthy (s : string) : bool := negb (String.eqb s "").
Definition truthy_opt (o : option string) : bool :=
  match o with Some s => truthy s | None => false end.

(** [a == null] *)
Definition is_null {A} (o : option A) : bool := match o with None => true | Some _ => false end.

Lemma truthy_true s : truthy s = true ↔ s ≠ "".
Proof. unfold truthy. by destruct (String.eqb_spec s ""). Qed.

Lemma is_null_true {A} (o : option A) : is_null o = true ↔ o = None.
Proof. by destruct o. Qed.

(** [a ?? b] *)
Definition nullish {A} (a b : option A) : option A :=
  match a with Some x => Some x | None => b end.

(** Strict equality of strings and of optional strings. *)
Definition eqs (a b : string) : bool := bool_decide (a = b).
Definition eqos (a b : option string) : bool := bool_decide (a = b).

(** [/\s/] on code units up to 255. *)
Definition is_space (ch : ascii) : bool :=
  let n := nat_of_ascii ch in ((9 <=? n) && (n <=? 13) || (n =? 32) || (n =? 160))%nat.

Fixpoint trim_start (s : string) : string :=
  match s with
  | String ch s' => if is_space ch then trim_start s' else s
  | "" => ""
  end.

Fixpoint trim_end (s : string) : string :=
  match s with
  | "" => ""
  | String ch s' =>
      match trim_end s' with
      | "" => if is_space ch then "" else String ch ""
      | t => String ch t
      end
  end.

Definition js_trim (s : string) : string := trim_end (trim_start s).

(** ** Tables

    A relational table is the list of its rows. *)

(** [SELECT COUNT( * ) FROM l WHERE p] *)
Definition count {A} (p : A → bool) (l : list A) : Z := Z.of_nat (length (List.filter p l)).

(** [UPDATE l SET f WHERE p] *)
Definition update_where {A} (p : A → bool) (f : A → A) (l : list A) : list A :=
  (λ x, if p x then f x else x) <$> l.

(** [DELETE FROM l WHERE p] *)
Definition delete_where {A} (p : A → bool) (l : list A) : list A := List.filter (λ x, negb (p x)) l.

Section tables.
Context {A : Type}.
Implicit Types (p q : A → bool) (l : list A).

Lemma count_nonneg p l : 0 ≤ count p l.
Proof. unfold count. lia. Qed.

Lemma count_cons p x l : count p (x :: l) = (if p x then 1 else 0) + count p l.
Proof. unfold count. cbn. destruct (p x); cbn [length]; lia. Qed.

Lemma count_app p l1 l2 : count p (l1 ++ l2) = count p l1 + count p l2.
Proof. unfold count. rewrite List.filter_app, length_app. lia. Qed.

(** Rows related one to one, each kept by [q] if kept by [p]. *)
Lemma count_Forall2 p q l l' :
  Forall2 (λ x y, p x = true → q y = true) l l' → count p l ≤ count q l'.
Proof.
  induction 1 as [|x y l l' Hxy _ IH]; [done|]. rewrite !count_cons.
  destruct (p x); [rewrite Hxy by done|destruct (q y)]; lia.
Qed.

Lemma count_le p q l : (∀ x, x ∈ l → p x = true → q x = true) → count p l ≤ count q l.
Proof.
  intros Hpq. apply count_Forall2, Forall_Forall2_diag, Forall_forall. auto.
Qed.

Lemma count_lt p q l x :
  (∀ y, y ∈ l → p y = true → q y = true) → x ∈ l → q x = true → p x = false → count p l < count q l.
Proof.
  intros Hpq. induction l as [|y l IH]; [set_solver|]. rewrite !count_cons.
  assert (Hle : count p l ≤ count q l) by (apply count_le; set_solver).
  intros [<-|Hx]%elem_of_cons Hq Hp; [rewrite Hq, Hp; lia|].
  specialize (IH ltac:(set_solver) Hx Hq Hp). specialize (Hpq y ltac:(set_solver)).
  destruct (p y); [rewrite Hpq by done|destruct (q y)]; lia.
Qed.

Lemma count_eq p q l : (∀ x, x ∈ l → p x = q x) → count p l = count q l.
Proof. intros Hpq. apply Z.le_antisymm; apply count_le; intros x Hx; by rewrite Hpq. Qed.

Lemma count_update p q f l :
  (∀ x, x ∈ l → q x = true → p (f x) = true → p x = true) → count p (update_where q f l) ≤ count p l.
Proof.
  intros H. unfold update_where. induction l as [|x l IH]; [done|]. cbn [fmap list_fmap]. rewrite !count_cons.
  assert (IH' : count p (update_where q f l) ≤ count p l) by (apply IH; intros; apply H; set_solver).
  unfold update_where in IH'. destruct (q x) eqn:Hq; [|lia].
  specialize (H x ltac:(set_solver) Hq). destruct (p (f x)); [rewrite H by done|destruct (p x)]; lia.
Qed.

Lemma count_delete p q l : count p (delete_where q l) ≤ count p l.
Proof.
  unfold delete_where. induction l as [|x l IH]; [done|]. cbn. destruct (q x); cbn; rewrite ?count_cons;
    pose proof (count_nonneg p l); destruct (p x); lia.
Qed.

Lemma count_zero p l : count p l = 0 ↔ ∀ x, x ∈ l → p x = false.
Proof.
  induction l as [|x l IH]; [split; [set_solver|done]|]. rewrite count_cons.
  pose proof (count_nonneg p l). destruct (p x) eqn:Hp.
  - split; [lia|]. intros H'. rewrite H' in Hp by set_solver. done.
  - rewrite Z.add_0_l, IH. split; intros H' y; [intros [->|]%elem_of_cons; auto|set_solver].
Qed.
End tables.

(** ** Arrays *)

Lemma elem_of_bool_filter {A} (p : A → bool) l x : x ∈ List.filter p l ↔ x ∈ l ∧ p x = true.
Proof. rewrite !list_elem_of_In. apply List.filter_In. Qed.
Lemma elem_of_delete_where {A} (p : A → bool) l x : x ∈ delete_where p l ↔ x ∈ l ∧ p x = false.
Proof. unfold delete_where. by rewrite elem_of_bool_filter, negb_true_iff. Qed.
Lemma NoDup_fmap_inj {A B} (g : A → B) l x y : NoDup (g <$> l) → x ∈ l → y ∈ l → g x = g y → x = y.
Proof.
  induction l as [|z l IH]; [set_solver|]. cbn. intros [Hn Hnd]%NoDup_cons.
  intros [->|Hx]%elem_of_cons [->|Hy]%elem_of_cons Heq; [done| | |by apply IH]; exfalso; apply Hn.
  - rewrite Heq. by apply list_elem_of_fmap_2.
  - rewrite <-Heq. by apply list_elem_of_fmap_2.
Qed.

Lemma omap_step {A B} (g : A → option B) x l :
  omap g (x :: l) = match g x with Some y => y :: omap g l | None => omap g l end.
Proof. done. Qed.
Lemma NoDup_omap_inj {A B} (g : A → option B) l x y v :
  NoDup (omap g l) → x ∈ l → y ∈ l → g x = Some v → g y = Some v → x = y.
Proof.
  induction l as [|z l IH]; [set_solver|]. rewrite omap_step. intros Hnd.
  assert (Hin : ∀ u, u ∈ l → g u = Some v → v ∈ omap g l) by (intros u ? ?; apply list_elem_of_omap; eauto).
  intros [->|Hx]%elem_of_cons [->|Hy]%elem_of_cons Hgx Hgy; [done| | |].
  - rewrite Hgx in Hnd. apply NoDup_cons in Hnd as [Hn _]. exfalso. eauto.
  - rewrite Hgy in Hnd. apply NoDup_cons in Hnd as [Hn _]. exfalso. eauto.
  - apply IH; [|done..]. destruct (g z); [exact (proj2 (proj1 (NoDup_cons _ _) Hnd))|done].
Qed.

Lemma NoDup_fmap_bool_filter {A B} (f : A → B) (p : A → bool) l : NoDup (f <$> l) → NoDup (f <$> List.filter p l).
Proof.
  induction l as [|x l IH]; [done|]. cbn. intros [Hx Hl]%NoDup_cons. destruct (p x); [|by apply IH]. cbn. constructor; [|by apply IH].
  intros (y & Hy & [Hi _]%elem_of_bool_filter)%list_elem_of_fmap. apply Hx, list_elem_of_fmap. by exists y.
Qed.
Lemma elem_of_update_where {A} (p : A → bool) f l x : x ∈ update_where p f l → ∃ y, y ∈ l ∧ x = if p y then f y else y.
Proof. unfold update_where. intros (y & -> & Hy)%list_elem_of_fmap. by exists y. Qed.


(** [l.find(p)] and [l.findIndex(p)] ([None] for -1). *)
Fixpoint js_find {A} (p : A → bool) (l : list A) : option A :=
  match l with
  | [] => None
  | x :: l' => if p x then Some x else js_find p l'
  end.

Lemma js_find_elem {A} (p : A → bool) l x : js_find p l = Some x → x ∈ l ∧ p x = true.
Proof.
  induction l as [|y l IH]; cbn; [done|]. destruct (p y) eqn:Hy; [intros [= ->]; set_solver|].
  intros [? ?]%IH. set_solver.
Qed.

Lemma js_find_none {A} (p : A → bool) l : js_find p l = None → ∀ x, x ∈ l → p x = false.
Proof.
  induction l as [|y l IH]; cbn; [set_solver|]. destruct (p y) eqn:Hy; [done|].
  intros Hn x [->|Hx]%elem_of_cons; auto.
Qed.

Lemma js_find_unique {A} (p : A → bool) l x :
  x ∈ l → p x = true → (∀ y, y ∈ l → p y = true → y = x) → js_find p l = Some x.
Proof.
  intros Hin Hp. induction l as [|y l IH]; [set_solver|]. cbn. intros Hu. destruct (p y) eqn:Hy.
  - f_equal. apply Hu; [set_solver|done].
  - apply elem_of_cons in Hin as [->|Hin]; [congruence|]. apply IH; [done|]. intros z Hz. apply Hu. set_solver.
Qed.

Lemma js_find_update {A} (p q : A → bool) (f : A → A) (l : list A) :
  (∀ x, q x = true → p (f x) = p x) → js_find p (update_where q f l) = (λ x, if q x then f x else x) <$> js_find p l.
Proof.
  intros Hp. induction l as [|x l IH]; [done|]. cbn. destruct (q x) eqn:Hq.
  - rewrite Hp by done. destruct (p x); cbn; [by rewrite Hq|done].
  - destruct (p x); cbn; [by rewrite Hq|done].
Qed.
Lemma js_find_delete {A} (p q : A → bool) (l : list A) :
  (∀ x, p x = true → q x = false) → js_find p (delete_where q l) = js_find p l.
Proof.
  intros Hp. induction l as [|x l IH]; [done|]. cbn. destruct (p x) eqn:Hx.
  - rewrite (Hp x Hx). cbn. by rewrite Hx.
  - destruct (q x); cbn; [done|by rewrite Hx].
Qed.
Lemma js_find_app {A} (p : A → bool) (l l' : list A) : js_find p (l ++ l') = match js_find p l with Some x => Some x | None => js_find p l' end.
Proof. induction l as [|x l IH]; [done|]. cbn. by destruct (p x). Qed.
Lemma js_find_ext {A} (p q : A → bool) (l : list A) : (∀ x, x ∈ l → p x = q x) → js_find p l = js_find q l.
Proof.
  induction l as [|x l IH]; intros H; [done|]. cbn. rewrite (H x) by constructor. rewrite IH; [done|].
  intros y Hy. apply H. by constructor.
Qed.

Fixpoint js_findIndex {A} (p : A → bool) (l : list A) : option nat :=
  match l with
  | [] => None
  | x :: l' => if p x then Some 0%nat else Datatypes.S <$> js_findIndex p l'
  end.

(** [l.some(p)], [l.filter(p)] *)
Definition js_some {A} (p : A → bool) (l : list A) : bool := existsb p l.
Definition js_filter {A} (p : A → bool) (l : list A) : list A := List.filter p l.

(** [l.slice(a, b)]: a negative index counts from the end. *)
Definition js_rel_index (len i : Z) : nat :=
  Z.to_nat (if i <? 0 then Z.max 0 (len + i) else Z.min i len).
Definition js_slice {A} (a b : Z) (l : list A) : list A :=
  let len := Z.of_nat (length l) in
  let i := js_rel_index len a in
  take (js_rel_index len b - i)%nat (drop i l).

(** [l.splice(i, 0, x)] *)
Definition js_insert_at {A} (i : nat) (x : A) (l : list A) : list A :=
  take i l ++ x :: drop i l.

(** [l.sort(cmp)] is a stable sort. *)
Fixpoint js_sort_insert {A} (cmp : A → A → Z) (x : A) (l : list A) : list A :=
  match l with
  | [] => [x]
  | y :: l' => if cmp x y <=? 0 then x :: l else y :: js_sort_insert cmp x l'
  end.
Fixpoint js_sort {A} (cmp : A → A → Z) (l : list A) : list A :=
  match l with
  | [] => []
  | x :: l' => js_sort_insert cmp x (js_sort cmp l')
  end.

Section js_sort.
Context {A : Type} (cmp : A → A → Z).

Lemma js_sort_insert_Permutation x l : js_sort_insert cmp x l ≡ₚ x :: l.
Proof.
  induction l as [|y l IH]; simpl; [done|]. case_match; [done|]. rewrite IH. constructor.
Qed.

Lemma js_sort_Permutation l : js_sort cmp l ≡ₚ l.
Proof. induction l as [|x l IH]; simpl; [done|]. by rewrite js_sort_insert_Permutation, IH. Qed.

(** With a comparator that is the difference of a key, the first element has
    the least key. *)
Lemma js_sort_head_min (key : A → Z) l x :
  (∀ a b, cmp a b = key a - key b) → head (js_sort cmp l) = Some x → ∀ y, y ∈ l → key x ≤ key y.
Proof.
  intros Hcmp. revert x. induction l as [|z l IH]; intros x; simpl; [done|].
  destruct (js_sort cmp l) as [|h t] eqn:Hs; simpl.
  - intros [= <-] y Hy. pose proof (js_sort_Permutation l) as Hp. rewrite Hs in Hp.
    apply Permutation_nil_l in Hp. subst l. apply list_elem_of_singleton in Hy as ->. lia.
  - destruct (cmp z h <=? 0) eqn:Hc; intros [= <-] y [->|Hy]%elem_of_cons; try lia.
    + apply Z.leb_le in Hc. rewrite Hcmp in Hc. specialize (IH h eq_refl y Hy). lia.
    + apply Z.leb_gt in Hc. rewrite Hcmp in Hc. lia.
    + by apply IH.
Qed.
End js_sort.

(** ** Insertion-ordered maps

    A JavaScript [Map] iterates over its entries in insertion order; setting a
    present key keeps its place.  A [Map] whose values are iterated over is an
    association list in that order; a [Map] that is only looked up is a
    [gmap]. *)

Definition jsmap (K V : Type) : Type := list (K * V).

Section jsmap.
Context {K V : Type} `{EqDecision K}.
Implicit Types (m : jsmap K V) (k : K) (v : V).

Fixpoint jget k m : option V :=
  match m with
  | [] => None
  | (k', v) :: m' => if decide (k = k') then Some v else jget k m'
  end.

Fixpoint jset k v m : jsmap K V :=
  match m with
  | [] => [(k, v)]
  | (k', v') :: m' => if decide (k = k') then (k, v) :: m' else (k', v') :: jset k v m'
  end.

Fixpoint jdel k m : jsmap K V :=
  match m with
  | [] => []
  | (k', v') :: m' => if decide (k = k') then jdel k m' else (k', v') :: jdel k m'
  end.

(** In-place mutation of the object stored at a key. *)
Fixpoint jalter (f : V → V) k m : jsmap K V :=
  match m with
  | [] => []
  | (k', v') :: m' => if decide (k = k') then (k', f v') :: m' else (k', v') :: jalter f k m'
  end.

Definition jvalues m : list V := m.*2.
Definition jkeys m : list K := m.*1.
Definition jhas k m : bool := match jget k m with Some _ => true | None => false end.

(** Mutation of every stored object, in iteration order. *)
Definition jmap (f : V → V) m : jsmap K V := (λ kv, (kv.1, f kv.2)) <$> m.
End jsmap.

Create HintDb jsmap.
Create Rewrite HintDb jsmap.

Section jsmap_facts.
Context {K V : Type} `{EqDecision K}.
Implicit Types (m : jsmap K V) (k : K) (v : V).

Lemma jget_jset_eq k v m : jget k (jset k v m) = Some v.
Proof. induction m as [|[k' v'] m IH]; simpl; repeat (case_decide; simpl); congruence. Qed.

Lemma jget_jset_ne k k' v m : k ≠ k' → jget k' (jset k v m) = jget k' m.
Proof.
  intros Hne. induction m as [|[k1 v1] m IH]; simpl; repeat (case_decide; simpl); congruence.
Qed.

Lemma jget_jset k k' v m :
  jget k' (jset k v m) = if decide (k = k') then Some v else jget k' m.
Proof. case_decide; subst; auto using jget_jset_eq, jget_jset_ne. Qed.

Lemma jget_jdel_eq k m : jget k (jdel k m) = None.
Proof. induction m as [|[k' v'] m IH]; simpl; repeat (case_decide; simpl); congruence. Qed.

Lemma jget_jdel_ne k k' m : k ≠ k' → jget k' (jdel k m) = jget k' m.
Proof.
  intros Hne. induction m as [|[k1 v1] m IH]; simpl; repeat (case_decide; simpl); congruence.
Qed.

Lemma jget_jdel k k' m :
  jget k' (jdel k m) = if decide (k = k') then None else jget k' m.
Proof. case_decide; subst; auto using jget_jdel_eq, jget_jdel_ne. Qed.

Lemma jget_jalter f k k' m :
  jget k' (jalter f k m) = if decide (k = k') then f <$> jget k' m else jget k' m.
Proof.
  induction m as [|[k1 v1] m IH]; simpl; repeat (case_decide; simpl); congruence.
Qed.

(** Mutating an absent object, or to its own value, changes nothing. *)
Lemma jalter_id f k m : (∀ v, jget k m = Some v → f v = v) → jalter f k m = m.
Proof.
  induction m as [|[k1 v1] m IH]; simpl; [done|]. case_decide; intros Hf.
  - by rewrite Hf.
  - by rewrite IH.
Qed.

Lemma jget_jmap f k m : jget k (jmap f m) = f <$> jget k m.
Proof. induction m as [|[k1 v1] m IH]; simpl; [done|]. case_decide; simpl; congruence. Qed.

Lemma jkeys_jalter f k m : jkeys (jalter f k m) = jkeys m.
Proof. induction m as [|[k1 v1] m IH]; simpl; [done|]. case_decide; simpl; [done|]. unfold jkeys in *. by rewrite <-IH. Qed.

Lemma jkeys_jmap f m : jkeys (jmap f m) = jkeys m.
Proof. unfold jkeys, jmap. rewrite <-list_fmap_compose. done. Qed.

Lemma jget_None k m : jget k m = None ↔ k ∉ jkeys m.
Proof.
  induction m as [|[k1 v1] m IH]; simpl.
  - split; [intros _; apply not_elem_of_nil|done].
  - rewrite not_elem_of_cons. case_decide; [naive_solver|]. rewrite IH. naive_solver.
Qed.

Lemma jget_Some_key k v m : jget k m = Some v → k ∈ jkeys m.
Proof. intros Hk. destruct (decide (k ∈ jkeys m)) as [|Hn]; [done|]. apply jget_None in Hn. congruence. Qed.

Lemma jkeys_jset_fresh k v m : jget k m = None → jset k v m = m ++ [(k, v)].
Proof.
  induction m as [|[k1 v1] m IH]; simpl; [done|].
  case_decide; [done|]. intros Hk. by rewrite IH.
Qed.

Lemma jkeys_jset_present k v v' m : jget k m = Some v' → jkeys (jset k v m) = jkeys m.
Proof.
  induction m as [|[k1 v1] m IH]; simpl; [done|].
  case_decide; simpl; subst; [done|]. intros Hk. by rewrite IH.
Qed.

Lemma jkeys_jset_NoDup k v m : NoDup (jkeys m) → NoDup (jkeys (jset k v m)).
Proof.
  intros Hnd. destruct (jget k m) as [v'|] eqn:Hk.
  - by rewrite (jkeys_jset_present _ _ v').
  - rewrite jkeys_jset_fresh by done. unfold jkeys. rewrite fmap_app. apply jget_None in Hk.
    apply NoDup_app. split_and!; [done|set_solver|apply NoDup_singleton].
Qed.

Lemma jkeys_jdel_subseteq k m k' : k' ∈ jkeys (jdel k m) → k' ∈ jkeys m ∧ k' ≠ k.
Proof.
  induction m as [|[k1 v1] m IH]; simpl; [set_solver|].
  case_decide; subst; simpl; set_solver.
Qed.

Lemma jkeys_jdel_NoDup k m : NoDup (jkeys m) → NoDup (jkeys (jdel k m)).
Proof.
  induction m as [|[k1 v1] m IH]; simpl; [done|]. rewrite NoDup_cons. intros [Hn Hnd].
  case_decide; [auto|]. simpl. apply NoDup_cons. split; [|auto].
  intros [? _]%jkeys_jdel_subseteq. done.
Qed.

Lemma elem_of_jvalues_get v m : NoDup (jkeys m) → v ∈ jvalues m → ∃ k, jget k m = Some v.
Proof.
  induction m as [|[k1 v1] m IH]; simpl; [set_solver|].
  rewrite NoDup_cons. intros [Hn Hnd] [->|Hv]%elem_of_cons.
  - exists k1. by rewrite decide_True.
  - destruct (IH Hnd Hv) as [k Hk]. exists k. rewrite decide_False; [done|].
    intros ->. apply Hn. by eapply jget_Some_key.
Qed.

Lemma jget_elem_of_jvalues k v m : jget k m = Some v → v ∈ jvalues m.
Proof.
  induction m as [|[k1 v1] m IH]; simpl; [done|].
  case_decide; [intros [= ->]|]; set_solver.
Qed.

Lemma jdel_length_absent k m : jget k m = None → jdel k m = m.
Proof. induction m as [|[k1 v1] m IH]; simpl; [done|]. case_decide; [done|]. intros ?. by rewrite IH. Qed.
(** Setting a key adds at most its own pair. *)
Lemma jset_elem k v m e : e ∈ jset k v m → e ∈ m ∨ e = (k, v).
Proof.
  induction m as [|[k' v'] m IH]; cbn; [intros ?%list_elem_of_singleton; by right|]. case_decide as Hd.
  - intros [->|?]%elem_of_cons; [by right|left; by right].
  - intros [->|H]%elem_of_cons; [left; by left|]. destruct (IH H) as [?|?]; [left; by right|by right].
Qed.
End jsmap_facts.

#[export] Hint Rewrite @jget_jset_eq @jget_jdel_eq @jget_jmap @jkeys_jalter @jkeys_jmap : jsmap.
#[export] Hint Resolve jkeys_jset_NoDup jkeys_jdel_NoDup jget_elem_of_jvalues jget_Some_key : jsmap.
