(* ===== verification/JsText.v ===== *)
(** * Strings of JavaScript: case, [split], [join], URI components

    The parts of the language's string library that the control plane and the
    credential executor use on paths and URLs.  A string is a sequence of code
    units up to 255; [decodeURIComponent] may yield any code unit, so its result is
    a list of numbers. *)
From S2P Require Import Prelude.

(** [toLowerCase] and [toUpperCase] on ASCII letters. *)
Definition lower_char (c : ascii) : ascii :=
  let n := nat_of_ascii c in if ((65 <=? n) && (n <=? 90))%nat then ascii_of_nat (n + 32) else c.
Definition upper_char (c : ascii) : ascii :=
  let n := nat_of_ascii c in if ((97 <=? n) && (n <=? 122))%nat then ascii_of_nat (n - 32) else c.
Fixpoint map_chars (f : ascii → ascii) (s : string) : string :=
  match s with "" => "" | String c s' => String (f c) (map_chars f s') end.
Definition toLowerCase : string → string := map_chars lower_char.
Definition toUpperCase : string → string := map_chars upper_char.

(** [s.includes(c)] for one code unit. *)
Fixpoint has_char (c : ascii) (s : string) : bool :=
  match s with "" => false | String d s' => bool_decide (d = c) || has_char c s' end.

(** [s.split(c)] and [l.join(c)] for one code unit. *)
Fixpoint js_split (c : ascii) (s : string) : list string :=
  match s with
  | "" => [""]
  | String d s' =>
      if bool_decide (d = c) then "" :: js_split c s'
      else match js_split c s' with
           | x :: l => String d x :: l
           | [] => [String d ""]
           end
  end.

Fixpoint js_join (c : ascii) (l : list string) : string :=
  match l with
  | [] => ""
  | [x] => x
  | x :: l' => x +:+ String c (js_join c l')
  end.

(** [s.startsWith(p)], [s.endsWith(p)], [s.slice(0, i)], [s.slice(i)] *)
Fixpoint startsWith (s p : string) {struct p} : bool :=
  match p, s with
  | "", _ => true
  | String c p', String d s' => bool_decide (d = c) && startsWith s' p'
  | String _ _, "" => false
  end.
Fixpoint str_drop (n : nat) (s : string) : string :=
  match n, s with
  | O, _ => s
  | Datatypes.S n', String _ s' => str_drop n' s'
  | Datatypes.S _, "" => ""
  end.
Fixpoint str_take (n : nat) (s : string) : string :=
  match n, s with
  | O, _ | _, "" => ""
  | Datatypes.S n', String c s' => String c (str_take n' s')
  end.
Definition endsWith (s p : string) : bool :=
  (String.length p <=? String.length s)%nat && eqs (str_drop (String.length s - String.length p) s) p.

(** [s.includes(p)] *)
Fixpoint str_includes (s p : string) : bool :=
  startsWith s p || match s with "" => false | String _ s' => str_includes s' p end.

(** [s.indexOf(c)], [None] for -1. *)
Fixpoint str_indexOf (c : ascii) (s : string) : option nat :=
  match s with
  | "" => None
  | String d s' => if bool_decide (d = c) then Some 0%nat else Datatypes.S <$> str_indexOf c s'
  end.

(** [l.join(sep)] *)
Fixpoint join_with (sep : string) (l : list string) : string :=
  match l with
  | [] => ""
  | [x] => x
  | x :: l' => x +:+ sep +:+ join_with sep l'
  end.

(** [s.split(/\s+/)] *)
Fixpoint split_spaces_from (in_separator : bool) (s : string) : list string :=
  match s with
  | "" => [""]
  | String c s' =>
      if is_space c then
        if in_separator then split_spaces_from true s' else "" :: split_spaces_from true s'
      else match split_spaces_from false s' with
           | x :: l => String c x :: l
           | [] => [String c ""]
           end
  end.
Definition split_spaces : string → list string := split_spaces_from false.

(** ** URI components *)

(** The code units of a string. *)
Fixpoint units (s : string) : list Z :=
  match s with "" => [] | String c s' => Z.of_nat (nat_of_ascii c) :: units s' end.

(** The string of code units, where they are at most 255. *)
Fixpoint of_units (l : list Z) : option string :=
  match l with
  | [] => Some ""
  | n :: l' =>
      if (0 <=? n) && (n <=? 255) then String (ascii_of_nat (Z.to_nat n)) <$> of_units l' else None
  end.

Definition hex_upper (n : Z) : ascii := ascii_of_nat (Z.to_nat (if n <? 10 then 48 + n else 55 + n)).
Definition hex_digit (c : ascii) : option Z :=
  let n := Z.of_nat (nat_of_ascii c) in
  if (48 <=? n) && (n <=? 57) then Some (n - 48)
  else if (65 <=? n) && (n <=? 70) then Some (n - 55)
  else if (97 <=? n) && (n <=? 102) then Some (n - 87)
  else None.

(** A-Z a-z 0-9 - _ . ! ~ * ' ( ) *)
Definition uri_unreserved (c : ascii) : bool :=
  let n := Z.of_nat (nat_of_ascii c) in
  (65 <=? n) && (n <=? 90) || (97 <=? n) && (n <=? 122) || (48 <=? n) && (n <=? 57)
  || bool_decide (n ∈ [45; 95; 46; 33; 126; 42; 39; 40; 41]).

Definition escape_byte (n : Z) (s : string) : string :=
  String "%" (String (hex_upper (n / 16)) (String (hex_upper (n mod 16)) s)).

(** Code units up to 255 take one or two bytes of UTF-8. *)
Fixpoint encodeURIComponent (s : string) : string :=
  match s with
  | "" => ""
  | String c s' =>
      let n := Z.of_nat (nat_of_ascii c) in
      if uri_unreserved c then String c (encodeURIComponent s')
      else if n <? 128 then escape_byte n (encodeURIComponent s')
      else escape_byte (192 + n / 64) (escape_byte (128 + n mod 64) (encodeURIComponent s'))
  end.

(** A code unit as it stands, or an escaped byte. *)
Inductive UriToken := raw_unit (n : Z) | uri_byte (n : Z).

Fixpoint uri_tokens (s : string) : option (list UriToken) :=
  match s with
  | "" => Some []
  | String "%" (String h (String l s')) =>
      match hex_digit h, hex_digit l with
      | Some a, Some b => cons (uri_byte (16 * a + b)) <$> uri_tokens s'
      | _, _ => None
      end
  | String "%" _ => None
  | String c s' => cons (raw_unit (Z.of_nat (nat_of_ascii c))) <$> uri_tokens s'
  end.

(** A continuation byte within bounds. *)
Definition cont (lo hi n : Z) : bool := (lo <=? n) && (n <=? hi).

(** A code point as UTF-16. *)
Definition utf16 (p : Z) : list Z :=
  if p <? 65536 then [p] else [55296 + (p - 65536) / 1024; 56320 + (p - 65536) mod 1024].

(** Well-formed UTF-8: no overlong forms, no surrogates, up to U+10FFFF. *)
Fixpoint utf8_units (l : list UriToken) : option (list Z) :=
  match l with
  | [] => Some []
  | raw_unit n :: l' => cons n <$> utf8_units l'
  | uri_byte a :: l' =>
      if a <? 128 then cons a <$> utf8_units l'
      else if cont 194 223 a then
        match l' with
        | uri_byte b :: l'' => if cont 128 191 b then cons ((a - 192) * 64 + (b - 128)) <$> utf8_units l'' else None
        | _ => None
        end
      else if cont 224 239 a then
        match l' with
        | uri_byte b :: uri_byte c :: l'' =>
            if cont (if a =? 224 then 160 else 128) (if a =? 237 then 159 else 191) b && cont 128 191 c
            then cons ((a - 224) * 4096 + (b - 128) * 64 + (c - 128)) <$> utf8_units l'' else None
        | _ => None
        end
      else if cont 240 244 a then
        match l' with
        | uri_byte b :: uri_byte c :: uri_byte d :: l'' =>
            if cont (if a =? 240 then 144 else 128) (if a =? 244 then 143 else 191) b && cont 128 191 c && cont 128 191 d
            then app (utf16 ((a - 240) * 262144 + (b - 128) * 4096 + (c - 128) * 64 + (d - 128))) <$> utf8_units l''
            else None
        | _ => None
        end
      else None
  end.

(** [None]: it throws a [URIError]. *)
Definition decodeURIComponent (s : string) : option (list Z) := uri_tokens s ≫= utf8_units.

(** ** Lemmas *)

Lemma append_nil_r s : s +:+ "" = s.
Proof. induction s as [|c s IH]; [done|]. change (String c s +:+ "") with (String c (s +:+ "")). by rewrite IH. Qed.

Lemma has_char_app c s t : has_char c (s +:+ t) = has_char c s || has_char c t.
Proof.
  induction s as [|d s IH]; [done|]. change (String d s +:+ t) with (String d (s +:+ t)). cbn.
  by rewrite IH, orb_assoc.
Qed.

Lemma js_split_none c s : has_char c s = false → js_split c s = [s].
Proof.
  induction s as [|d s IH]; [done|]. cbn. intros [H1 H2]%orb_false_iff. by rewrite H1, IH.
Qed.

Lemma js_split_app c x t : has_char c x = false → js_split c (x +:+ String c t) = x :: js_split c t.
Proof.
  induction x as [|d x IH]; intros H.
  - change (js_split c (String c t) = "" :: js_split c t). cbn. by rewrite bool_decide_true.
  - cbn in H. apply orb_false_iff in H as [H1 H2].
    change (String d x +:+ String c t) with (String d (x +:+ String c t)). cbn. by rewrite H1, IH.
Qed.

Lemma js_split_join c l : l ≠ [] → Forall (λ s, has_char c s = false) l → js_split c (js_join c l) = l.
Proof.
  intros Hne Hl. induction Hl as [|x l Hx Hl IH]; [done|]. destruct l as [|y l]; [by apply js_split_none|].
  change (js_join c (x :: y :: l)) with (x +:+ String c (js_join c (y :: l))).
  rewrite js_split_app by done. by rewrite IH.
Qed.

Lemma startsWith_app s t : startsWith (s +:+ t) s = true.
Proof. induction s as [|c s IH]; [done|]. change (String c s +:+ t) with (String c (s +:+ t)). cbn. by rewrite bool_decide_true. Qed.

Lemma startsWith_spec s p : startsWith s p = true ↔ ∃ t, s = p +:+ t.
Proof.
  split; [|intros [t ->]; apply startsWith_app].
  revert s. induction p as [|c p IH]; intros [|d s]; cbn; try done; [by exists ""|by eexists|].
  intros [->%bool_decide_eq_true [t ->]%IH]%andb_true_iff. by exists t.
Qed.

Lemma startsWith_refl s : startsWith s s = true.
Proof. apply startsWith_spec. exists "". by rewrite append_nil_r. Qed.

(** The pieces of a split have no separator. *)
Lemma js_split_pieces c s : Forall (λ x, has_char c x = false) (js_split c s).
Proof.
  induction s as [|d s IH]; cbn; [by repeat constructor|]. destruct (bool_decide (d = c)) eqn:Hd; [by constructor|].
  destruct (js_split c s) as [|x l]; [repeat constructor; cbn; by rewrite Hd|].
  apply Forall_cons in IH as [Hx Hl]. constructor; [|done]. cbn. by rewrite Hd.
Qed.

Lemma unit_range c : 0 ≤ Z.of_nat (nat_of_ascii c) ≤ 255.
Proof. pose proof (nat_ascii_bounded c). lia. Qed.

Lemma hex_digit_upper n : 0 ≤ n < 16 → hex_digit (hex_upper n) = Some n.
Proof.
  intros H. assert (n ∈ seqZ 0 16) as Hin by (apply elem_of_seqZ; lia).
  revert Hin. change (seqZ 0 16) with [0;1;2;3;4;5;6;7;8;9;10;11;12;13;14;15].
  repeat (rewrite elem_of_cons; intros [->|Hin]; [reflexivity|revert Hin]). by intros ?%elem_of_nil.
Qed.

Lemma uri_tokens_escape n s : 0 ≤ n < 256 → uri_tokens (escape_byte n s) = cons (uri_byte n) <$> uri_tokens s.
Proof.
  intros Hn. cbn. rewrite !hex_digit_upper; [|apply Z.mod_pos_bound; lia|split; [apply Z.div_pos; lia|apply Z.div_lt_upper_bound; lia]].
  by rewrite <- Z.div_mod by lia.
Qed.

Lemma uri_tokens_raw c s : uri_unreserved c = true → uri_tokens (String c s) = cons (raw_unit (Z.of_nat (nat_of_ascii c))) <$> uri_tokens s.
Proof. destruct c as [[] [] [] [] [] [] [] []]; cbn; try done; by vm_compute. Qed.

Lemma uri_tokens_cons (t : UriToken) (o : option (list UriToken)) : (cons t <$> o) ≫= utf8_units = o ≫= λ l, utf8_units (t :: l).
Proof. by destruct o. Qed.

Lemma bind_cons {A} (n : Z) (o : option A) (f : A → option (list Z)) : (o ≫= λ l, cons n <$> f l) = cons n <$> (o ≫= f).
Proof. by destruct o. Qed.

(** Decoding undoes encoding. *)
Lemma decode_encode s : decodeURIComponent (encodeURIComponent s) = Some (units s).
Proof.
  unfold decodeURIComponent. induction s as [|c s IH]; [done|]. cbn [encodeURIComponent units].
  pose proof (unit_range c) as Hr. set (n := Z.of_nat (nat_of_ascii c)) in *.
  destruct (uri_unreserved c) eqn:Hu.
  { rewrite uri_tokens_raw, uri_tokens_cons by done. cbn [utf8_units]. by rewrite bind_cons, IH. }
  destruct (n <? 128) eqn:H1.
  { apply Z.ltb_lt in H1. rewrite uri_tokens_escape, uri_tokens_cons by lia. cbn [utf8_units].
    rewrite (proj2 (Z.ltb_lt _ _)) by lia. by rewrite bind_cons, IH. }
  apply Z.ltb_ge in H1. assert (Hd : 2 ≤ n / 64 ≤ 3) by (split; [apply Z.div_le_lower_bound|apply Z.lt_succ_r, Z.div_lt_upper_bound]; lia).
  pose proof (Z.mod_pos_bound n 64). rewrite !uri_tokens_escape by lia.
  rewrite uri_tokens_cons. destruct (uri_tokens (encodeURIComponent s)) as [l|]; [|done]. cbn in IH.
  cbn [fmap option_fmap option_map mbind option_bind utf8_units]. unfold cont.
  rewrite (proj2 (Z.ltb_ge _ _)), !(proj2 (Z.leb_le _ _)) by lia. cbn [andb]. rewrite IH. cbn. do 2 f_equal.
  pose proof (Z.div_mod n 64). lia.
Qed.

Lemma of_units_units s : of_units (units s) = Some s.
Proof.
  induction s as [|c s IH]; [done|]. cbn. pose proof (unit_range c). rewrite !(proj2 (Z.leb_le _ _)) by lia. cbn.
  rewrite IH. cbn. by rewrite Nat2Z.id, ascii_nat_embedding.
Qed.

Lemma units_of_units l s : of_units l = Some s → units s = l.
Proof.
  revert s. induction l as [|n l IH]; intros s; cbn; [by intros [= <-]|].
  destruct ((0 <=? n) && (n <=? 255)) eqn:Hn; [|done]. apply andb_true_iff in Hn as [H1%Z.leb_le H2%Z.leb_le].
  destruct (of_units l) as [s'|]; [|done]. intros [= <-]. cbn. rewrite nat_ascii_embedding, (IH s') by (done || lia).
  f_equal. lia.
Qed.

(** An encoded component has no separator. *)
Lemma encode_no_char c s : uri_unreserved c = false → c ≠ "%"%char → hex_digit c = None → has_char c (encodeURIComponent s) = false.
Proof.
  intros Hu Hp Hh. assert (Hb : ∀ n t, has_char c t = false → 0 ≤ n < 256 → has_char c (escape_byte n t) = false).
  { intros n t Ht Hn. cbn. rewrite bool_decide_false by done. cbn.
    rewrite !bool_decide_false; [done| |]; intros <-; rewrite hex_digit_upper in Hh; try done.
    - apply Z.mod_pos_bound. lia.
    - split; [apply Z.div_pos; lia|apply Z.div_lt_upper_bound; lia]. }
  induction s as [|d s IH]; [done|]. cbn [encodeURIComponent]. pose proof (unit_range d) as Hr.
  destruct (uri_unreserved d) eqn:Hd; [cbn; rewrite bool_decide_false by congruence; done|].
  destruct (Z.of_nat (nat_of_ascii d) <? 128) eqn:H1; [apply Z.ltb_lt in H1; apply Hb; [done|lia]|].
  apply Z.ltb_ge in H1. set (n := Z.of_nat (nat_of_ascii d)) in *.
  assert (Hdv : 0 ≤ n / 64 < 4) by (split; [apply Z.div_pos|apply Z.div_lt_upper_bound]; lia).
  pose proof (Z.mod_pos_bound n 64). apply Hb; [apply Hb; [done|lia]|lia].
Qed.

Lemma length_append s t : String.length (s +:+ t) = (String.length s + String.length t)%nat.
Proof. induction s as [|c s IH]; [done|]. change (String c s +:+ t) with (String c (s +:+ t)). cbn. by rewrite IH. Qed.

(** Strings that are all different, by a check that is quick to run. *)
Fixpoint distinct (l : list string) : bool :=
  match l with [] => true | x :: l' => negb (existsb (String.eqb x) l') && distinct l' end.

Lemma distinct_NoDup l : distinct l = true → NoDup l.
Proof.
  induction l as [|x l IH]; [intros; constructor|]. cbn. intros [Hx%negb_true_iff Hl]%andb_true_iff. constructor; [|auto].
  intros Hin%list_elem_of_In. assert (He : existsb (String.eqb x) l = true); [|congruence].
  apply existsb_exists. exists x. by rewrite String.eqb_refl.
Qed.
