(* ===== verification/ScopeKeys.v ===== *)
(** * Scope keys

    The runtime keys its maps by [JSON.stringify] of an array of strings
    (src/packages/service-contracts/src/tenant-context.ts and
    src/assistant/src/concurrent-runtime/in-memory-store.ts).  This file models
    that encoding, proves that it can be decoded, and derives that distinct
    tenants, actors, conversations and runs never share a key.

    A string is a sequence of code units up to 255; the escapes of lone
    surrogates do not arise in that range. *)
From S2P Require Import Prelude.

(** ** JSON.stringify on arrays of strings *)

(** The two hexadecimal digits of a code unit below 32. *)
Definition hex_low (n : nat) : ascii :=
  ascii_of_nat (if (n <? 10)%nat then 48 + n else 87 + n)%nat.

(** QuoteJSONString, one code unit. *)
Definition json_escape (c : ascii) : string :=
  let n := nat_of_ascii c in
  if (n =? 8)%nat then "\b"
  else if (n =? 9)%nat then "\t"
  else if (n =? 10)%nat then "\n"
  else if (n =? 12)%nat then "\f"
  else if (n =? 13)%nat then "\r"
  else if (n =? 34)%nat then String "\" (String "034" "")
  else if (n =? 92)%nat then "\\"
  else if (n <? 32)%nat then
    String "\" (String "u" (String "0" (String "0"
      (String (hex_low (n / 16)) (String (hex_low (n mod 16)) "")))))
  else String c "".

Fixpoint json_body (s : string) : string :=
  match s with
  | "" => ""
  | String c s' => json_escape c +:+ json_body s'
  end.

Definition json_quote (s : string) : string :=
  String "034" (json_body s +:+ String "034" "").

Fixpoint json_items (l : list string) : string :=
  match l with
  | [] => "]"
  | s :: l' => "," +:+ json_quote s +:+ json_items l'
  end.

(** [JSON.stringify([s1, ..., sn])] *)
Definition json_array (l : list string) : string :=
  match l with
  | [] => "[]"
  | s :: l' => "[" +:+ json_quote s +:+ json_items l'
  end.

(** ** The decoder used in the proofs *)

Definition hex_val (c : ascii) : nat :=
  let n := nat_of_ascii c in if (n <? 58)%nat then (n - 48)%nat else (n - 87)%nat.

(** Reads a quoted string after its opening quote: its text and the rest. *)
Fixpoint json_unbody (s : string) : option (string * string) :=
  match s with
  | "" => None
  | String "034" r => Some ("", r)
  | String "\" (String "u" (String _ (String _ (String h (String l r))))) =>
      '(t, r') ← json_unbody r;
      Some (String (ascii_of_nat (16 * hex_val h + hex_val l)) t, r')
  | String "\" (String e r) =>
      '(t, r') ← json_unbody r;
      Some (String (match e with
                    | "b" => ascii_of_nat 8 | "t" => ascii_of_nat 9
                    | "n" => ascii_of_nat 10 | "f" => ascii_of_nat 12
                    | "r" => ascii_of_nat 13 | _ => e end)%char t, r')
  | String c r => '(t, r') ← json_unbody r; Some (String c t, r')
  end.

(** ** Keys of the concurrent runtime *)

(** TenantExecutionContext (the validated request identity). *)
Record TenantExecutionContext := {
  organizationId : string;
  userId : string;
  assistantId : string;
  actorId : string;
  requestId : string;
  ctxConversationId : option string;
  ctxIdempotencyKey : option string;
  authorizationVersion : Z;
  configVersion : Z;
  runtimeGeneration : Z;
}.

Definition tenantExecutionScopeKey (c : TenantExecutionContext) : string :=
  json_array [organizationId c; assistantId c].

Definition tenantConversationScopeKey (c : TenantExecutionContext) (conversationId : string) : string :=
  json_array [organizationId c; assistantId c; conversationId].

Definition actorScopeKey (c : TenantExecutionContext) : string :=
  json_array [organizationId c; assistantId c; userId c; actorId c].

(** Every per-actor key is [JSON.stringify([actorScopeKey, id])]. *)
Definition actorKey (c : TenantExecutionContext) (id : string) : string :=
  json_array [actorScopeKey c; id].

Definition browserToolActionKey (c : TenantExecutionContext) (runId toolUseId : string) : string :=
  json_array [actorScopeKey c; runId; toolUseId].

#[global] Arguments json_array : simpl never.
#[global] Arguments tenantExecutionScopeKey : simpl never.
#[global] Arguments tenantConversationScopeKey : simpl never.
#[global] Arguments actorScopeKey : simpl never.
#[global] Arguments actorKey : simpl never.
#[global] Arguments browserToolActionKey : simpl never.

(** ** Round trip and injectivity *)

Lemma string_app_assoc (a b c : string) : (a +:+ b) +:+ c = a +:+ (b +:+ c).
Proof. induction a as [|x a IH]; simpl; [done|]. change (String x ((a +:+ b) +:+ c) = String x (a +:+ (b +:+ c))). by rewrite IH. Qed.

Lemma json_unbody_escape c r :
  json_unbody (json_escape c +:+ r) =
    '(t, r') ← json_unbody r; Some (String c t, r').
Proof. destruct c as [[] [] [] [] [] [] [] []]; reflexivity. Qed.

Lemma json_unbody_body s r : json_unbody (json_body s +:+ String "034" r) = Some (s, r).
Proof.
  induction s as [|c s IH]; [done|]. simpl. rewrite string_app_assoc.
  rewrite json_unbody_escape, IH. done.
Qed.

(** The string after the opening quote. *)
Definition json_tail (s : string) : string := match s with "" => "" | String _ s' => s' end.

#[local] Arguments json_quote : simpl never.

Lemma json_quote_inj a b r1 r2 :
  json_quote a +:+ r1 = json_quote b +:+ r2 → a = b ∧ r1 = r2.
Proof.
  intros Heq. assert (Hq : ∀ s r, json_unbody (json_body s +:+ String "034" "" +:+ r) = Some (s, r))
    by (intros; apply json_unbody_body).
  unfold json_quote in Heq. apply (f_equal json_tail) in Heq. simpl in Heq.
  rewrite !string_app_assoc in Heq.
  pose proof (Hq a r1) as Ha. rewrite Heq, Hq in Ha. naive_solver.
Qed.

Lemma json_tail_inj c (s1 s2 : string) : String c s1 = String c s2 → s1 = s2.
Proof. congruence. Qed.

Lemma json_items_inj l1 l2 : json_items l1 = json_items l2 → l1 = l2.
Proof.
  revert l2. induction l1 as [|a l1 IH]; intros [|b l2]; simpl; try discriminate; [done|].
  intros Heq%json_tail_inj. apply json_quote_inj in Heq as [-> Heq]. f_equal. auto.
Qed.

(** The encoding loses nothing: two arrays of strings with the same JSON text
    are the same array. *)
Lemma json_array_inj l1 l2 : json_array l1 = json_array l2 → l1 = l2.
Proof.
  unfold json_array. destruct l1 as [|a l1], l2 as [|b l2]; simpl; try discriminate; [done|].
  intros Heq%json_tail_inj. apply json_quote_inj in Heq as [-> Heq]. f_equal. by apply json_items_inj.
Qed.

Lemma pair_list_inj (a b c d : string) : [a; b] = [c; d] → a = c ∧ b = d.
Proof. naive_solver. Qed.

Lemma triple_list_inj (a b c d e f : string) : [a; b; c] = [d; e; f] → a = d ∧ b = e ∧ c = f.
Proof. naive_solver. Qed.

Ltac unfold_keys :=
  unfold actorKey, actorScopeKey, tenantConversationScopeKey, browserToolActionKey.

Lemma actorScopeKey_inj c1 c2 :
  actorScopeKey c1 = actorScopeKey c2 →
  organizationId c1 = organizationId c2 ∧ assistantId c1 = assistantId c2 ∧
  userId c1 = userId c2 ∧ actorId c1 = actorId c2.
Proof. unfold_keys. intros Heq%json_array_inj. by simplify_eq. Qed.

Lemma actorKey_inj c1 c2 i1 i2 :
  actorKey c1 i1 = actorKey c2 i2 → actorScopeKey c1 = actorScopeKey c2 ∧ i1 = i2.
Proof. unfold actorKey. by intros Heq%json_array_inj%pair_list_inj. Qed.

Lemma tenantConversationScopeKey_inj c1 c2 v1 v2 :
  tenantConversationScopeKey c1 v1 = tenantConversationScopeKey c2 v2 →
  organizationId c1 = organizationId c2 ∧ assistantId c1 = assistantId c2 ∧ v1 = v2.
Proof. unfold_keys. intros Heq%json_array_inj. by simplify_eq. Qed.

(** Scope keys never collide: equal keys come from the same organization,
    assistant, user and actor and the same identifier, whatever characters the
    identifiers contain; likewise for conversations and tool uses. *)
Theorem scope_keys_injective c1 c2 i1 i2 t1 t2 :
  (actorKey c1 i1 = actorKey c2 i2 →
     organizationId c1 = organizationId c2 ∧ assistantId c1 = assistantId c2 ∧
     userId c1 = userId c2 ∧ actorId c1 = actorId c2 ∧ i1 = i2) ∧
  (tenantConversationScopeKey c1 i1 = tenantConversationScopeKey c2 i2 →
     organizationId c1 = organizationId c2 ∧ assistantId c1 = assistantId c2 ∧ i1 = i2) ∧
  (browserToolActionKey c1 i1 t1 = browserToolActionKey c2 i2 t2 →
     actorScopeKey c1 = actorScopeKey c2 ∧ i1 = i2 ∧ t1 = t2).
Proof.
  split_and!.
  - intros [H1 H2]%actorKey_inj. apply actorScopeKey_inj in H1 as (?&?&?&?). by split_and!.
  - apply tenantConversationScopeKey_inj.
  - unfold browserToolActionKey. intros Heq%json_array_inj. by apply triple_list_inj.
Qed.
