(* ===== verification/RuntimeTypes.v ===== *)
(** * Data of the concurrent runtime store

    The records and enumerations of
    src/assistant/src/concurrent-runtime/types.ts, store.ts and
    browser-broker/types.ts, the browser protocol's operations and results
    (src/packages/service-contracts/src/browser-broker.ts), and the fields of
    [InMemoryConcurrentRuntimeStore].

    Absent optional fields are [None]; deleting a property sets it to [None].
    A timestamp the code keeps as an ISO string is its millisecond value:
    [toISOString] and [Date.parse] are inverse on the values the code uses. *)
From stdpp Require Import pretty.
From S2P Require Import Prelude ScopeKeys.
#[local] Set Warnings "-register-all".

(** Values of [unknown] and [Record<string, unknown>]. *)
Inductive json :=
  | JNull | JBool (b : bool) | JNum (n : Z) | JStr (s : string)
  | JArr (l : list json) | JObj (l : list (string * json)).

(** [JSON.stringify] of a value; numbers here are integers. *)
Fixpoint json_stringify (v : json) : string :=
  match v with
  | JNull => "null"
  | JBool b => if b then "true" else "false"
  | JNum n => pretty n
  | JStr s => json_quote s
  | JArr l =>
      "[" +:+ (fix items (first : bool) (l : list json) : string :=
        match l with
        | [] => "]"
        | x :: l' => (if first then "" else ",") +:+ json_stringify x +:+ items false l'
        end) true l
  | JObj l =>
      "{" +:+ (fix props (first : bool) (l : list (string * json)) : string :=
        match l with
        | [] => "}"
        | (k, x) :: l' =>
            (if first then "" else ",") +:+ json_quote k +:+ ":" +:+ json_stringify x +:+ props false l'
        end) true l
  end.

(** [o.k] on a [Record<string, unknown>]. *)
Fixpoint field (k : string) (l : list (string * json)) : option json :=
  match l with
  | [] => None
  | (k', v) :: l' => if decide (k = k') then Some v else field k l'
  end.

(** [{ ...(s ? { k: s } : {}) }] *)
Definition optional_field (k : string) (s : option string) : list (string * json) :=
  match s with
  | Some v => if truthy v then [(k, JStr v)] else []
  | None => []
  end.

(** ** Runs, messages, events *)

Inductive ConcurrentMessageRole := role_user | role_assistant.

Inductive ConcurrentRunStatus :=
  | queued | processing | waiting_for_browser | completed | failed | cancelled.

#[global] Instance ConcurrentMessageRole_eq_dec : EqDecision ConcurrentMessageRole.
Proof. solve_decision. Defined.
#[global] Instance ConcurrentRunStatus_eq_dec : EqDecision ConcurrentRunStatus.
Proof. solve_decision. Defined.

Record ConcurrentMessage := mkMessage {
  msg_id : string;
  msg_organizationId : string;
  msg_assistantId : string;
  msg_conversationId : string;
  msg_role : ConcurrentMessageRole;
  msg_content : string;
  msg_clientMessageId : option string;
  msg_createdAt : Z;
}.


Record ConcurrentConversation := mkConversation {
  conv_id : string;
  conv_organizationId : string;
  conv_assistantId : string;
  conv_ownerUserId : option string;
  conv_ownerActorId : option string;
  conv_title : string;
  conv_createdAt : Z;
  conv_updatedAt : Z;
  conv_lastMessageAt : option Z;
  conv_isProcessing : bool;
}.


Record ConcurrentRun := mkRun {
  run_id : string;
  run_organizationId : string;
  run_assistantId : string;
  run_conversationId : string;
  run_requestId : string;
  run_idempotencyKey : string;
  run_userMessageId : string;
  run_turnSequence : Z;
  run_assistantMessageId : option string;
  run_status : ConcurrentRunStatus;
  run_errorCode : option string;
  run_errorMessage : option string;
  run_leaseOwner : option string;
  run_leaseExpiresAt : option Z;
  run_createdAt : Z;
  run_updatedAt : Z;
}.

Definition set_run_assistantMessageId (v : option string) (r : ConcurrentRun) : ConcurrentRun :=
  mkRun (run_id r) (run_organizationId r) (run_assistantId r) (run_conversationId r) (run_requestId r) (run_idempotencyKey r) (run_userMessageId r) (run_turnSequence r) v (run_status r) (run_errorCode r) (run_errorMessage r) (run_leaseOwner r) (run_leaseExpiresAt r) (run_createdAt r) (run_updatedAt r).
Definition set_run_status (v : ConcurrentRunStatus) (r : ConcurrentRun) : ConcurrentRun :=
  mkRun (run_id r) (run_organizationId r) (run_assistantId r) (run_conversationId r) (run_requestId r) (run_idempotencyKey r) (run_userMessageId r) (run_turnSequence r) (run_assistantMessageId r) v (run_errorCode r) (run_errorMessage r) (run_leaseOwner r) (run_leaseExpiresAt r) (run_createdAt r) (run_updatedAt r).
Definition set_run_errorCode (v : option string) (r : ConcurrentRun) : ConcurrentRun :=
  mkRun (run_id r) (run_organizationId r) (run_assistantId r) (run_conversationId r) (run_requestId r) (run_idempotencyKey r) (run_userMessageId r) (run_turnSequence r) (run_assistantMessageId r) (run_status r) v (run_errorMessage r) (run_leaseOwner r) (run_leaseExpiresAt r) (run_createdAt r) (run_updatedAt r).
Definition set_run_errorMessage (v : option string) (r : ConcurrentRun) : ConcurrentRun :=
  mkRun (run_id r) (run_organizationId r) (run_assistantId r) (run_conversationId r) (run_requestId r) (run_idempotencyKey r) (run_userMessageId r) (run_turnSequence r) (run_assistantMessageId r) (run_status r) (run_errorCode r) v (run_leaseOwner r) (run_leaseExpiresAt r) (run_createdAt r) (run_updatedAt r).
Definition set_run_leaseOwner (v : option string) (r : ConcurrentRun) : ConcurrentRun :=
  mkRun (run_id r) (run_organizationId r) (run_assistantId r) (run_conversationId r) (run_requestId r) (run_idempotencyKey r) (run_userMessageId r) (run_turnSequence r) (run_assistantMessageId r) (run_status r) (run_errorCode r) (run_errorMessage r) v (run_leaseExpiresAt r) (run_createdAt r) (run_updatedAt r).
Definition set_run_leaseExpiresAt (v : option Z) (r : ConcurrentRun) : ConcurrentRun :=
  mkRun (run_id r) (run_organizationId r) (run_assistantId r) (run_conversationId r) (run_requestId r) (run_idempotencyKey r) (run_userMessageId r) (run_turnSequence r) (run_assistantMessageId r) (run_status r) (run_errorCode r) (run_errorMessage r) (run_leaseOwner r) v (run_createdAt r) (run_updatedAt r).
Definition set_run_updatedAt (v : Z) (r : ConcurrentRun) : ConcurrentRun :=
  mkRun (run_id r) (run_organizationId r) (run_assistantId r) (run_conversationId r) (run_requestId r) (run_idempotencyKey r) (run_userMessageId r) (run_turnSequence r) (run_assistantMessageId r) (run_status r) (run_errorCode r) (run_errorMessage r) (run_leaseOwner r) (run_leaseExpiresAt r) (run_createdAt r) v.

Record ConcurrentEvent := mkEvent {
  ev_id : string;
  ev_organizationId : string;
  ev_assistantId : string;
  ev_conversationId : string;
  ev_seq : Z;
  ev_emittedAt : Z;
  ev_message : list (string * json);
}.


Record AcceptedConcurrentRun := mkAccepted {
  acc_created : bool;
  acc_conversationId : string;
  acc_userMessage : ConcurrentMessage;
  acc_run : ConcurrentRun;
  acc_event : ConcurrentEvent;
}.


Inductive StepKind := provider_response | tool_result.

Record ConcurrentRunStep := mkStep {
  step_runId : string;
  step_conversationId : string;
  step_stepIndex : Z;
  step_stepKind : StepKind;
  step_providerContent : json;
  step_toolUseId : option string;
  step_executionConfig : option (list (string * json));
  step_createdAt : Z;
}.


(** The onboarding context is stored and returned whole. *)
Definition ConcurrentOnboardingContext : Type := list (string * json).

Record ClaimedConcurrentRun := mkClaimed {
  cl_context : TenantExecutionContext;
  cl_run : ConcurrentRun;
  cl_messages : list ConcurrentMessage;
  cl_steps : list ConcurrentRunStep;
  cl_onboardingContext : option ConcurrentOnboardingContext;
}.


Record AcceptConcurrentMessageInput := mkAcceptInput {
  in_conversationId : option string;
  in_content : string;
  in_clientMessageId : option string;
  in_onboardingContext : option ConcurrentOnboardingContext;
}.


Record CompleteConcurrentRunInput := mkCompleteInput {
  co_assistantMessageId : string;
  co_content : string;
  co_leaseOwner : string;
}.


Record FailConcurrentRunInput := mkFailInput {
  fa_errorCode : string;
  fa_errorMessage : string;
  fa_leaseOwner : string;
}.


(** ConcurrentRuntimeStoreError *)
Inductive StoreErrorCode :=
  | tenant_mismatch | conversation_not_found | run_not_found | lease_lost
  | browser_access_denied | stale_connection | action_conflict | invalid_state.

(** What a method can throw: the store's own error class, or the engine's
    TypeError when a missing object is dereferenced. *)
Inductive StoreError :=
  | mkStoreError (message : string) (code : StoreErrorCode)
  | TypeError.

(** ** The browser broker *)

Inductive BrowserBrokerCapability :=
  | browser_broker_v1 | snapshot_v1 | screenshot_v1 | interaction_v1.
#[global] Instance BrowserBrokerCapability_eq_dec : EqDecision BrowserBrokerCapability.
Proof. solve_decision. Defined.

Inductive BrowserBrokerOperation :=
  | op_status
  | op_open_session (initialUrl : option string)
  | op_navigate (url : string)
  | op_snapshot (includeScreenshot : bool)
  | op_screenshot (format : string) (quality : option Z)
  | op_click (elementRef snapshotId : string)
  | op_type (elementRef snapshotId text : string)
  | op_press_key (key : string) (modifiers : list string)
  | op_scroll (direction : string) (amount : Z)
  | op_select_option (elementRef snapshotId value : string)
  | op_wait (durationMs : Z)
  | op_close_session.

Inductive BrowserBrokerReplayClass := recomputable | non_replayable.

Inductive BrowserBrokerSuccessOutput :=
  | out_status (available : bool)
  | out_session (browserSessionId tabLeaseId : string) (documentEpoch : Z)
  | out_observation (snapshotId : string) (documentEpoch : Z) (title url content : string) (elements : list json)
  | out_screenshot (documentEpoch : Z) (mediaType data : string) (width height : Z)
  | out_action (documentEpoch : Z) (snapshotId : option string)
  | out_session_closed.

(** The discriminated union on [state] of BrowserBrokerResultRequest. *)
Inductive BrowserResultBody :=
  | res_succeeded (output : BrowserBrokerSuccessOutput)
  | res_failed (code message : string)
  | res_cancelled (code message : string)
  | res_unknown_outcome (code message : string).

Record BrowserBrokerResultRequest := mkResult {
  res_actionId : string;
  res_operationHash : string;
  res_connectionId : string;
  res_connectionGeneration : Z;
  res_resultHash : string;
  res_documentEpoch : option Z;
  res_body : BrowserResultBody;
}.


Inductive BrowserConnectionState := conn_active | conn_superseded | conn_disconnected | conn_expired.
#[global] Instance BrowserConnectionState_eq_dec : EqDecision BrowserConnectionState.
Proof. solve_decision. Defined.

Inductive BrowserActionState :=
  | act_queued | act_delivered | act_received | act_executing | act_succeeded
  | act_failed | act_cancel_requested | act_cancelled | act_expired | act_unknown_outcome.
#[global] Instance BrowserActionState_eq_dec : EqDecision BrowserActionState.
Proof. solve_decision. Defined.

Inductive BrowserSessionOwner := owner_agent | owner_human.
#[global] Instance BrowserSessionOwner_eq_dec : EqDecision BrowserSessionOwner.
Proof. solve_decision. Defined.

Inductive BrowserSessionStatus :=
  | sess_opening | sess_active | sess_paused | sess_closed | sess_expired | sess_invalidated.
#[global] Instance BrowserSessionStatus_eq_dec : EqDecision BrowserSessionStatus.
Proof. solve_decision. Defined.

(** BrowserConnectionRecord & { resumeTokenHash: string } *)
Record BrowserConnectionRecord := mkConnection {
  conn_clientInstallationId : string;
  conn_connectionId : string;
  conn_connectionGeneration : Z;
  conn_capabilities : list BrowserBrokerCapability;
  conn_state : BrowserConnectionState;
  conn_cursor : Z;
  conn_leaseExpiresAt : Z;
  conn_lastSeenAt : Z;
  conn_resumeTokenHash : string;
}.

Definition set_conn_capabilities (v : list BrowserBrokerCapability) (r : BrowserConnectionRecord) : BrowserConnectionRecord :=
  mkConnection (conn_clientInstallationId r) (conn_connectionId r) (conn_connectionGeneration r) v (conn_state r) (conn_cursor r) (conn_leaseExpiresAt r) (conn_lastSeenAt r) (conn_resumeTokenHash r).
Definition set_conn_state (v : BrowserConnectionState) (r : BrowserConnectionRecord) : BrowserConnectionRecord :=
  mkConnection (conn_clientInstallationId r) (conn_connectionId r) (conn_connectionGeneration r) (conn_capabilities r) v (conn_cursor r) (conn_leaseExpiresAt r) (conn_lastSeenAt r) (conn_resumeTokenHash r).
Definition set_conn_cursor (v : Z) (r : BrowserConnectionRecord) : BrowserConnectionRecord :=
  mkConnection (conn_clientInstallationId r) (conn_connectionId r) (conn_connectionGeneration r) (conn_capabilities r) (conn_state r) v (conn_leaseExpiresAt r) (conn_lastSeenAt r) (conn_resumeTokenHash r).
Definition set_conn_leaseExpiresAt (v : Z) (r : BrowserConnectionRecord) : BrowserConnectionRecord :=
  mkConnection (conn_clientInstallationId r) (conn_connectionId r) (conn_connectionGeneration r) (conn_capabilities r) (conn_state r) (conn_cursor r) v (conn_lastSeenAt r) (conn_resumeTokenHash r).
Definition set_conn_lastSeenAt (v : Z) (r : BrowserConnectionRecord) : BrowserConnectionRecord :=
  mkConnection (conn_clientInstallationId r) (conn_connectionId r) (conn_connectionGeneration r) (conn_capabilities r) (conn_state r) (conn_cursor r) (conn_leaseExpiresAt r) v (conn_resumeTokenHash r).
Definition set_conn_resumeTokenHash (v : string) (r : BrowserConnectionRecord) : BrowserConnectionRecord :=
  mkConnection (conn_clientInstallationId r) (conn_connectionId r) (conn_connectionGeneration r) (conn_capabilities r) (conn_state r) (conn_cursor r) (conn_leaseExpiresAt r) (conn_lastSeenAt r) v.

(** What [cloneBrowserConnection] hands out: the record without the token hash. *)
Record BrowserConnectionView := mkConnectionView {
  view_clientInstallationId : string;
  view_connectionId : string;
  view_connectionGeneration : Z;
  view_capabilities : list BrowserBrokerCapability;
  view_state : BrowserConnectionState;
  view_cursor : Z;
  view_leaseExpiresAt : Z;
  view_lastSeenAt : Z;
}.


Record BrowserAccessGrantRecord := mkGrant {
  grant_conversationId : string;
  grant_clientInstallationId : string;
  grant_enabled : bool;
  grant_updatedAt : Z;
}.


Record BrowserSessionRecord := mkSession {
  sess_conversationId : string;
  sess_clientInstallationId : string;
  sess_connectionId : string;
  sess_connectionGeneration : Z;
  sess_browserSessionId : string;
  sess_tabLeaseId : string;
  sess_owner : BrowserSessionOwner;
  sess_status : BrowserSessionStatus;
  sess_documentEpoch : Z;
  sess_snapshotId : option string;
  sess_expiresAt : Z;
}.

Definition set_sess_status (v : BrowserSessionStatus) (r : BrowserSessionRecord) : BrowserSessionRecord :=
  mkSession (sess_conversationId r) (sess_clientInstallationId r) (sess_connectionId r) (sess_connectionGeneration r) (sess_browserSessionId r) (sess_tabLeaseId r) (sess_owner r) v (sess_documentEpoch r) (sess_snapshotId r) (sess_expiresAt r).
Definition set_sess_documentEpoch (v : Z) (r : BrowserSessionRecord) : BrowserSessionRecord :=
  mkSession (sess_conversationId r) (sess_clientInstallationId r) (sess_connectionId r) (sess_connectionGeneration r) (sess_browserSessionId r) (sess_tabLeaseId r) (sess_owner r) (sess_status r) v (sess_snapshotId r) (sess_expiresAt r).
Definition set_sess_snapshotId (v : option string) (r : BrowserSessionRecord) : BrowserSessionRecord :=
  mkSession (sess_conversationId r) (sess_clientInstallationId r) (sess_connectionId r) (sess_connectionGeneration r) (sess_browserSessionId r) (sess_tabLeaseId r) (sess_owner r) (sess_status r) (sess_documentEpoch r) v (sess_expiresAt r).

Record BrowserActionRecord := mkAction {
  act_conversationId : string;
  act_runId : string;
  act_toolUseId : string;
  act_actionId : string;
  act_actionSequence : Z;
  act_browserSessionId : option string;
  act_tabLeaseId : option string;
  act_clientInstallationId : string;
  act_connectionId : string;
  act_connectionGeneration : Z;
  act_operation : BrowserBrokerOperation;
  act_operationHash : string;
  act_replayClass : BrowserBrokerReplayClass;
  act_expectedDocumentEpoch : option Z;
  act_deadlineAt : Z;
  act_state : BrowserActionState;
  act_resultHash : option string;
  act_result : option BrowserBrokerResultRequest;
}.

Definition set_act_state (v : BrowserActionState) (r : BrowserActionRecord) : BrowserActionRecord :=
  mkAction (act_conversationId r) (act_runId r) (act_toolUseId r) (act_actionId r) (act_actionSequence r) (act_browserSessionId r) (act_tabLeaseId r) (act_clientInstallationId r) (act_connectionId r) (act_connectionGeneration r) (act_operation r) (act_operationHash r) (act_replayClass r) (act_expectedDocumentEpoch r) (act_deadlineAt r) v (act_resultHash r) (act_result r).
Definition set_act_resultHash (v : option string) (r : BrowserActionRecord) : BrowserActionRecord :=
  mkAction (act_conversationId r) (act_runId r) (act_toolUseId r) (act_actionId r) (act_actionSequence r) (act_browserSessionId r) (act_tabLeaseId r) (act_clientInstallationId r) (act_connectionId r) (act_connectionGeneration r) (act_operation r) (act_operationHash r) (act_replayClass r) (act_expectedDocumentEpoch r) (act_deadlineAt r) (act_state r) v (act_result r).
Definition set_act_result (v : option BrowserBrokerResultRequest) (r : BrowserActionRecord) : BrowserActionRecord :=
  mkAction (act_conversationId r) (act_runId r) (act_toolUseId r) (act_actionId r) (act_actionSequence r) (act_browserSessionId r) (act_tabLeaseId r) (act_clientInstallationId r) (act_connectionId r) (act_connectionGeneration r) (act_operation r) (act_operationHash r) (act_replayClass r) (act_expectedDocumentEpoch r) (act_deadlineAt r) (act_state r) (act_resultHash r) v.

Record BrowserBrokerCommand := mkCommand {
  cmd_organizationId : string;
  cmd_assistantId : string;
  cmd_userId : string;
  cmd_actorId : string;
  cmd_clientInstallationId : string;
  cmd_connectionId : string;
  cmd_connectionGeneration : Z;
  cmd_conversationId : string;
  cmd_browserSessionId : option string;
  cmd_tabLeaseId : option string;
  cmd_runId : string;
  cmd_toolUseId : string;
  cmd_actionId : string;
  cmd_sequence : Z;
  cmd_operationHash : string;
  cmd_replayClass : BrowserBrokerReplayClass;
  cmd_expectedDocumentEpoch : option Z;
  cmd_deadlineAt : Z;
  cmd_operation : BrowserBrokerOperation;
}.


Record BrowserOutboxRecord := mkOutbox {
  out_seq : Z;
  out_eventId : string;
  out_clientInstallationId : string;
  out_connectionId : string;
  out_connectionGeneration : Z;
  out_actionId : string;
  out_event : BrowserBrokerCommand;
  out_expiresAt : Z;
}.


Record ResumeInput := mkResume {
  rs_connectionId : string;
  rs_connectionGeneration : Z;
  rs_resumeTokenHash : string;
}.


Record ConnectBrowserClientInput := mkConnectInput {
  cn_clientInstallationId : string;
  cn_capabilities : list BrowserBrokerCapability;
  cn_leaseExpiresAt : Z;
  cn_newConnectionId : string;
  cn_newResumeTokenHash : string;
  cn_resume : option ResumeInput;
}.


(** The identity a connected client presents with each call (the shared fields of the heartbeat and event-listing inputs). *)
Record ConnectionProof := mkConnectionProof {
  cp_clientInstallationId : string;
  cp_connectionId : string;
  cp_connectionGeneration : Z;
  cp_connectionTokenHash : string;
}.


Record EnqueueBrowserActionInput := mkEnqueueInput {
  en_conversationId : string;
  en_runId : string;
  en_toolUseId : string;
  en_actionId : string;
  en_operation : BrowserBrokerOperation;
  en_operationHash : string;
  en_replayClass : BrowserBrokerReplayClass;
  en_expectedDocumentEpoch : option Z;
  en_deadlineAt : Z;
  en_leaseOwner : option string;
  en_providerContent : option json;
  en_executionConfig : option (list (string * json));
}.


Inductive ReceiptState := rcpt_received | rcpt_executing.

Record RecordBrowserReceiptInput := mkReceiptInput {
  rc_actionId : string;
  rc_operationHash : string;
  rc_connectionId : string;
  rc_connectionGeneration : Z;
  rc_receivedSequence : Z;
  rc_state : ReceiptState;
  rc_connectionTokenHash : string;
}.


Record BrowserActionAck := mkAck {
  ack_accepted : bool;
  ack_canonicalState : BrowserActionState;
  ack_runId : option string;
  ack_conversationId : option string;
}.


Record ConversationOwner := mkOwner {
  owner_userId : string;
  owner_actorId : string;
}.


(** ** The store's fields *)

Record Store := mkStore {
  st_messages : jsmap string (list ConcurrentMessage);
  st_runs : jsmap string ConcurrentRun;
  st_runContexts : gmap string TenantExecutionContext;
  st_idempotency : gmap string string;
  st_events : gmap string (list ConcurrentEvent);
  st_nextEventSequence : gmap string Z;
  st_conversationOwners : gmap string ConversationOwner;
  st_onboardingContexts : gmap string ConcurrentOnboardingContext;
  st_nextTurnSequence : gmap string Z;
  st_runSteps : gmap string (list ConcurrentRunStep);
  st_browserConnections : gmap string BrowserConnectionRecord;
  st_currentBrowserConnections : gmap string string;
  st_browserConnectionGenerations : gmap string Z;
  st_browserGrants : gmap string BrowserAccessGrantRecord;
  st_browserSessions : jsmap string BrowserSessionRecord;
  st_browserActions : jsmap string BrowserActionRecord;
  st_browserToolActions : gmap string string;
  st_browserOutbox : gmap string (list BrowserOutboxRecord);
  st_nextBrowserOutboxSequence : Z;
}.

Definition set_st_messages (v : jsmap string (list ConcurrentMessage)) (r : Store) : Store :=
  mkStore v (st_runs r) (st_runContexts r) (st_idempotency r) (st_events r) (st_nextEventSequence r) (st_conversationOwners r) (st_onboardingContexts r) (st_nextTurnSequence r) (st_runSteps r) (st_browserConnections r) (st_currentBrowserConnections r) (st_browserConnectionGenerations r) (st_browserGrants r) (st_browserSessions r) (st_browserActions r) (st_browserToolActions r) (st_browserOutbox r) (st_nextBrowserOutboxSequence r).
Definition set_st_runs (v : jsmap string ConcurrentRun) (r : Store) : Store :=
  mkStore (st_messages r) v (st_runContexts r) (st_idempotency r) (st_events r) (st_nextEventSequence r) (st_conversationOwners r) (st_onboardingContexts r) (st_nextTurnSequence r) (st_runSteps r) (st_browserConnections r) (st_currentBrowserConnections r) (st_browserConnectionGenerations r) (st_browserGrants r) (st_browserSessions r) (st_browserActions r) (st_browserToolActions r) (st_browserOutbox r) (st_nextBrowserOutboxSequence r).
Definition set_st_runContexts (v : gmap string TenantExecutionContext) (r : Store) : Store :=
  mkStore (st_messages r) (st_runs r) v (st_idempotency r) (st_events r) (st_nextEventSequence r) (st_conversationOwners r) (st_onboardingContexts r) (st_nextTurnSequence r) (st_runSteps r) (st_browserConnections r) (st_currentBrowserConnections r) (st_browserConnectionGenerations r) (st_browserGrants r) (st_browserSessions r) (st_browserActions r) (st_browserToolActions r) (st_browserOutbox r) (st_nextBrowserOutboxSequence r).
Definition set_st_idempotency (v : gmap string string) (r : Store) : Store :=
  mkStore (st_messages r) (st_runs r) (st_runContexts r) v (st_events r) (st_nextEventSequence r) (st_conversationOwners r) (st_onboardingContexts r) (st_nextTurnSequence r) (st_runSteps r) (st_browserConnections r) (st_currentBrowserConnections r) (st_browserConnectionGenerations r) (st_browserGrants r) (st_browserSessions r) (st_browserActions r) (st_browserToolActions r) (st_browserOutbox r) (st_nextBrowserOutboxSequence r).
Definition set_st_events (v : gmap string (list ConcurrentEvent)) (r : Store) : Store :=
  mkStore (st_messages r) (st_runs r) (st_runContexts r) (st_idempotency r) v (st_nextEventSequence r) (st_conversationOwners r) (st_onboardingContexts r) (st_nextTurnSequence r) (st_runSteps r) (st_browserConnections r) (st_currentBrowserConnections r) (st_browserConnectionGenerations r) (st_browserGrants r) (st_browserSessions r) (st_browserActions r) (st_browserToolActions r) (st_browserOutbox r) (st_nextBrowserOutboxSequence r).
Definition set_st_nextEventSequence (v : gmap string Z) (r : Store) : Store :=
  mkStore (st_messages r) (st_runs r) (st_runContexts r) (st_idempotency r) (st_events r) v (st_conversationOwners r) (st_onboardingContexts r) (st_nextTurnSequence r) (st_runSteps r) (st_browserConnections r) (st_currentBrowserConnections r) (st_browserConnectionGenerations r) (st_browserGrants r) (st_browserSessions r) (st_browserActions r) (st_browserToolActions r) (st_browserOutbox r) (st_nextBrowserOutboxSequence r).
Definition set_st_conversationOwners (v : gmap string ConversationOwner) (r : Store) : Store :=
  mkStore (st_messages r) (st_runs r) (st_runContexts r) (st_idempotency r) (st_events r) (st_nextEventSequence r) v (st_onboardingContexts r) (st_nextTurnSequence r) (st_runSteps r) (st_browserConnections r) (st_currentBrowserConnections r) (st_browserConnectionGenerations r) (st_browserGrants r) (st_browserSessions r) (st_browserActions r) (st_browserToolActions r) (st_browserOutbox r) (st_nextBrowserOutboxSequence r).
Definition set_st_onboardingContexts (v : gmap string ConcurrentOnboardingContext) (r : Store) : Store :=
  mkStore (st_messages r) (st_runs r) (st_runContexts r) (st_idempotency r) (st_events r) (st_nextEventSequence r) (st_conversationOwners r) v (st_nextTurnSequence r) (st_runSteps r) (st_browserConnections r) (st_currentBrowserConnections r) (st_browserConnectionGenerations r) (st_browserGrants r) (st_browserSessions r) (st_browserActions r) (st_browserToolActions r) (st_browserOutbox r) (st_nextBrowserOutboxSequence r).
Definition set_st_nextTurnSequence (v : gmap string Z) (r : Store) : Store :=
  mkStore (st_messages r) (st_runs r) (st_runContexts r) (st_idempotency r) (st_events r) (st_nextEventSequence r) (st_conversationOwners r) (st_onboardingContexts r) v (st_runSteps r) (st_browserConnections r) (st_currentBrowserConnections r) (st_browserConnectionGenerations r) (st_browserGrants r) (st_browserSessions r) (st_browserActions r) (st_browserToolActions r) (st_browserOutbox r) (st_nextBrowserOutboxSequence r).
Definition set_st_runSteps (v : gmap string (list ConcurrentRunStep)) (r : Store) : Store :=
  mkStore (st_messages r) (st_runs r) (st_runContexts r) (st_idempotency r) (st_events r) (st_nextEventSequence r) (st_conversationOwners r) (st_onboardingContexts r) (st_nextTurnSequence r) v (st_browserConnections r) (st_currentBrowserConnections r) (st_browserConnectionGenerations r) (st_browserGrants r) (st_browserSessions r) (st_browserActions r) (st_browserToolActions r) (st_browserOutbox r) (st_nextBrowserOutboxSequence r).
Definition set_st_browserConnections (v : gmap string BrowserConnectionRecord) (r : Store) : Store :=
  mkStore (st_messages r) (st_runs r) (st_runContexts r) (st_idempotency r) (st_events r) (st_nextEventSequence r) (st_conversationOwners r) (st_onboardingContexts r) (st_nextTurnSequence r) (st_runSteps r) v (st_currentBrowserConnections r) (st_browserConnectionGenerations r) (st_browserGrants r) (st_browserSessions r) (st_browserActions r) (st_browserToolActions r) (st_browserOutbox r) (st_nextBrowserOutboxSequence r).
Definition set_st_currentBrowserConnections (v : gmap string string) (r : Store) : Store :=
  mkStore (st_messages r) (st_runs r) (st_runContexts r) (st_idempotency r) (st_events r) (st_nextEventSequence r) (st_conversationOwners r) (st_onboardingContexts r) (st_nextTurnSequence r) (st_runSteps r) (st_browserConnections r) v (st_browserConnectionGenerations r) (st_browserGrants r) (st_browserSessions r) (st_browserActions r) (st_browserToolActions r) (st_browserOutbox r) (st_nextBrowserOutboxSequence r).
Definition set_st_browserConnectionGenerations (v : gmap string Z) (r : Store) : Store :=
  mkStore (st_messages r) (st_runs r) (st_runContexts r) (st_idempotency r) (st_events r) (st_nextEventSequence r) (st_conversationOwners r) (st_onboardingContexts r) (st_nextTurnSequence r) (st_runSteps r) (st_browserConnections r) (st_currentBrowserConnections r) v (st_browserGrants r) (st_browserSessions r) (st_browserActions r) (st_browserToolActions r) (st_browserOutbox r) (st_nextBrowserOutboxSequence r).
Definition set_st_browserGrants (v : gmap string BrowserAccessGrantRecord) (r : Store) : Store :=
  mkStore (st_messages r) (st_runs r) (st_runContexts r) (st_idempotency r) (st_events r) (st_nextEventSequence r) (st_conversationOwners r) (st_onboardingContexts r) (st_nextTurnSequence r) (st_runSteps r) (st_browserConnections r) (st_currentBrowserConnections r) (st_browserConnectionGenerations r) v (st_browserSessions r) (st_browserActions r) (st_browserToolActions r) (st_browserOutbox r) (st_nextBrowserOutboxSequence r).
Definition set_st_browserSessions (v : jsmap string BrowserSessionRecord) (r : Store) : Store :=
  mkStore (st_messages r) (st_runs r) (st_runContexts r) (st_idempotency r) (st_events r) (st_nextEventSequence r) (st_conversationOwners r) (st_onboardingContexts r) (st_nextTurnSequence r) (st_runSteps r) (st_browserConnections r) (st_currentBrowserConnections r) (st_browserConnectionGenerations r) (st_browserGrants r) v (st_browserActions r) (st_browserToolActions r) (st_browserOutbox r) (st_nextBrowserOutboxSequence r).
Definition set_st_browserActions (v : jsmap string BrowserActionRecord) (r : Store) : Store :=
  mkStore (st_messages r) (st_runs r) (st_runContexts r) (st_idempotency r) (st_events r) (st_nextEventSequence r) (st_conversationOwners r) (st_onboardingContexts r) (st_nextTurnSequence r) (st_runSteps r) (st_browserConnections r) (st_currentBrowserConnections r) (st_browserConnectionGenerations r) (st_browserGrants r) (st_browserSessions r) v (st_browserToolActions r) (st_browserOutbox r) (st_nextBrowserOutboxSequence r).
Definition set_st_browserToolActions (v : gmap string string) (r : Store) : Store :=
  mkStore (st_messages r) (st_runs r) (st_runContexts r) (st_idempotency r) (st_events r) (st_nextEventSequence r) (st_conversationOwners r) (st_onboardingContexts r) (st_nextTurnSequence r) (st_runSteps r) (st_browserConnections r) (st_currentBrowserConnections r) (st_browserConnectionGenerations r) (st_browserGrants r) (st_browserSessions r) (st_browserActions r) v (st_browserOutbox r) (st_nextBrowserOutboxSequence r).
Definition set_st_browserOutbox (v : gmap string (list BrowserOutboxRecord)) (r : Store) : Store :=
  mkStore (st_messages r) (st_runs r) (st_runContexts r) (st_idempotency r) (st_events r) (st_nextEventSequence r) (st_conversationOwners r) (st_onboardingContexts r) (st_nextTurnSequence r) (st_runSteps r) (st_browserConnections r) (st_currentBrowserConnections r) (st_browserConnectionGenerations r) (st_browserGrants r) (st_browserSessions r) (st_browserActions r) (st_browserToolActions r) v (st_nextBrowserOutboxSequence r).
Definition set_st_nextBrowserOutboxSequence (v : Z) (r : Store) : Store :=
  mkStore (st_messages r) (st_runs r) (st_runContexts r) (st_idempotency r) (st_events r) (st_nextEventSequence r) (st_conversationOwners r) (st_onboardingContexts r) (st_nextTurnSequence r) (st_runSteps r) (st_browserConnections r) (st_currentBrowserConnections r) (st_browserConnectionGenerations r) (st_browserGrants r) (st_browserSessions r) (st_browserActions r) (st_browserToolActions r) (st_browserOutbox r) v.

Definition empty_store : Store :=
  mkStore [] [] ∅ ∅ ∅ ∅ ∅ ∅ ∅ ∅ ∅ ∅ ∅ ∅ [] [] ∅ ∅ 1.
