(* ===== verification/TurnQueue.v ===== *)
(** * The turn queue: an abstract specification of runs

    What the runtime store promises about the runs of a conversation, without
    messages, events, clocks or identifiers: turns are numbered in the order
    they were accepted, a turn is started only when every earlier turn of its
    conversation has ended, and an ended turn never changes.  RuntimeRefines.v
    proves that every method of the store is a sequence of steps of this
    machine. *)
From S2P Require Import Prelude.

(** How a turn ended. *)
Inductive Outcome := Completed | Failed | Cancelled.

Inductive Phase :=
  | Queued
  | Leased (owner : string) (expiresAt : Z)
  | Parked
  | Ended (o : Outcome).

Record Turn := mkTurn { turn_conv : string; turn_seq : Z; turn_phase : Phase }.

Definition set_phase (p : Phase) (t : Turn) : Turn := mkTurn (turn_conv t) (turn_seq t) p.

(** Turns by run key, and the next sequence number of each conversation. *)
Record Queue := mkQueue { q_turns : gmap string Turn; q_next : gmap string Z }.

Definition q_set (k : string) (t : Turn) (q : Queue) : Queue := mkQueue (<[k := t]> (q_turns q)) (q_next q).

Definition ended (t : Turn) : Prop := ∃ o, turn_phase t = Ended o.

(** A turn some worker owns, or that waits for the browser on its behalf. *)
Definition started (t : Turn) : Prop :=
  turn_phase t = Parked ∨ ∃ o e, turn_phase t = Leased o e.

Definition earlier (t' t : Turn) : Prop := turn_conv t' = turn_conv t ∧ turn_seq t' < turn_seq t.

Inductive step : Queue → Queue → Prop :=
  | step_accept k conv q :
      q_turns q !! k = None →
      step q (mkQueue (<[k := mkTurn conv (default 0 (q_next q !! conv)) Queued]> (q_turns q))
                      (<[conv := default 0 (q_next q !! conv) + 1]> (q_next q)))
  | step_claim k t owner e q :
      q_turns q !! k = Some t →
      turn_phase t = Queued ∨ (∃ o' e', turn_phase t = Leased o' e') →
      (∀ k' t', q_turns q !! k' = Some t' → earlier t' t → ended t') →
      step q (q_set k (set_phase (Leased owner e) t) q)
  | step_renew k t owner e e' q :
      q_turns q !! k = Some t → turn_phase t = Leased owner e →
      step q (q_set k (set_phase (Leased owner e') t) q)
  | step_park k t owner e q :
      q_turns q !! k = Some t → turn_phase t = Leased owner e →
      step q (q_set k (set_phase Parked t) q)
  | step_resume k t q :
      q_turns q !! k = Some t → turn_phase t = Parked →
      step q (q_set k (set_phase Queued t) q)
  | step_finish k t owner e o q :
      q_turns q !! k = Some t → turn_phase t = Leased owner e →
      step q (q_set k (set_phase (Ended o) t) q)
  | step_cancel k t q :
      q_turns q !! k = Some t → ¬ ended t →
      step q (q_set k (set_phase (Ended Cancelled) t) q).

Definition steps : Queue → Queue → Prop := rtc step.

Definition empty_queue : Queue := mkQueue ∅ ∅.

(** The invariant: sequence numbers are below the counter and identify a turn
    within its conversation, and a started turn has only ended predecessors. *)
Record queue_inv (q : Queue) : Prop := {
  qi_bound k t : q_turns q !! k = Some t → turn_seq t < default 0 (q_next q !! turn_conv t);
  qi_unique k1 k2 t1 t2 :
    q_turns q !! k1 = Some t1 → q_turns q !! k2 = Some t2 →
    turn_conv t1 = turn_conv t2 → turn_seq t1 = turn_seq t2 → k1 = k2;
  qi_serial k1 k2 t1 t2 :
    q_turns q !! k1 = Some t1 → q_turns q !! k2 = Some t2 →
    started t2 → earlier t1 t2 → ended t1;
}.

Lemma queue_inv_empty : queue_inv empty_queue.
Proof. constructor; intros *; cbn; rewrite ?lookup_empty; discriminate. Qed.

(** A phase change that neither starts a turn nor reopens an ended one keeps
    the invariant; so does a claim, whose guard is the invariant itself. *)
Lemma queue_inv_set_phase k t p q :
  queue_inv q → q_turns q !! k = Some t →
  (ended t → ended (set_phase p t)) →
  (started (set_phase p t) → ∀ k' t', q_turns q !! k' = Some t' → earlier t' t → ended t') →
  queue_inv (q_set k (set_phase p t) q).
Proof.
  intros [Hb Hu Hs] Hk Hend Hst. constructor; cbn.
  - intros k' t'. rewrite lookup_insert. case_decide; subst; [|by apply Hb].
    intros [= <-]. cbn. by eapply Hb.
  - intros k1 k2 t1 t2. rewrite !lookup_insert.
    repeat case_decide; subst; [done|..]; intros; simplify_eq; cbn in *; eauto.
  - intros k1 k2 t1 t2. rewrite !lookup_insert. unfold earlier.
    repeat case_decide; subst; intros H1 H2 Hst2 [Hc Hlt]; simplify_eq; cbn in *.
    + lia.
    + apply Hend. eapply Hs; eauto. by split.
    + eapply Hst; eauto. by split.
    + eapply Hs; eauto. by split.
Qed.

Lemma not_ended_leased t o e : turn_phase t = Leased o e → ¬ ended t.
Proof. intros H [x Hx]. congruence. Qed.

Lemma step_queue_inv q q' : step q q' → queue_inv q → queue_inv q'.
Proof.
  intros Hstep Hinv.
  destruct Hstep as [k conv q Hk|k t o e q Hk Hp Hg|k t o e e' q Hk Hp|k t o e q Hk Hp
                    |k t q Hk Hp|k t o e x q Hk Hp|k t q Hk Hp].
  2-7: apply queue_inv_set_phase; try done.
  all: try (by intros [? ?]; congruence || by intros; eexists).
  all: try (by intros [H|(?&?&H)]; discriminate H).
  - destruct Hinv as [Hb Hu Hs]. constructor; cbn.
    + intros k' t'. rewrite !lookup_insert. intros Ht'. case_decide as Hkk; simplify_eq; cbn.
      * rewrite decide_True by done. cbn. lia.
      * specialize (Hb _ _ Ht'). case_decide as Hc; [rewrite <-Hc in Hb; cbn; lia|done].
    + intros k1 k2 t1 t2. rewrite !lookup_insert.
      repeat case_decide; subst; intros H1 H2 Hc He; simplify_eq; cbn in *; eauto.
      * specialize (Hb _ _ H2). rewrite <-Hc in Hb. lia.
      * specialize (Hb _ _ H1). rewrite Hc in Hb. lia.
    + intros k1 k2 t1 t2. rewrite !lookup_insert. unfold earlier.
      repeat case_decide; subst; intros H1 H2 Hst [Hc Hlt]; simplify_eq; cbn in *.
      * lia.
      * specialize (Hb _ _ H2). rewrite Hc in Hlt. lia.
      * destruct Hst as [Hq|(?&?&Hq)]; discriminate Hq.
      * eapply Hs; eauto. by split.
  - destruct Hp as [Hp|(?&?&Hp)]; intros [? ?]; congruence.
  - intros _ k' t' Hk' He. eapply (qi_serial _ Hinv k' k); eauto. right. eauto.
  - intros _ k' t' Hk' He. eapply (qi_serial _ Hinv k' k); eauto. right. eauto.
Qed.

Lemma steps_queue_inv q q' : steps q q' → queue_inv q → queue_inv q'.
Proof. induction 1; eauto using step_queue_inv. Qed.

(** At most one turn of a conversation is started at any time. *)
Lemma started_unique q k1 k2 t1 t2 :
  queue_inv q → q_turns q !! k1 = Some t1 → q_turns q !! k2 = Some t2 →
  turn_conv t1 = turn_conv t2 → started t1 → started t2 → k1 = k2.
Proof.
  intros Hinv H1 H2 Hc Hs1 Hs2.
  assert (Hne : ∀ t, started t → ¬ ended t).
  { intros t [Hp|(?&?&Hp)] [oc Hoc]; congruence. }
  destruct (Z.lt_trichotomy (turn_seq t1) (turn_seq t2)) as [Hlt|[Heq|Hgt]].
  - exfalso. apply (Hne t1 Hs1). eapply (qi_serial q Hinv k1 k2); eauto. by split.
  - by eapply (qi_unique q Hinv).
  - exfalso. apply (Hne t2 Hs2). eapply (qi_serial q Hinv k2 k1); eauto. by split.
Qed.

(** A step never changes a turn's place, and never changes an ended turn. *)
Definition turn_kept (t t' : Turn) : Prop :=
  turn_conv t' = turn_conv t ∧ turn_seq t' = turn_seq t ∧ (ended t → t' = t).

Lemma step_kept q q' k t :
  step q q' → q_turns q !! k = Some t → ∃ t', q_turns q' !! k = Some t' ∧ turn_kept t t'.
Proof.
  intros Hstep Hk. unfold turn_kept.
  destruct Hstep; cbn; rewrite lookup_insert; case_decide; simplify_eq; eauto 6; try congruence.
  all: eexists; split; [done|]; split_and!; [done..|]; intros [? ?].
  all: repeat match goal with H : _ ∨ _ |- _ => destruct H | H : ∃ _, _ |- _ => destruct H end; try congruence.
  exfalso. match goal with H : ¬ ended _ |- _ => apply H end. by eexists.
Qed.

Lemma turn_kept_trans t1 t2 t3 : turn_kept t1 t2 → turn_kept t2 t3 → turn_kept t1 t3.
Proof.
  intros (?&?&H1) (?&?&H2). split_and!; try congruence.
  intros He. specialize (H1 He). subst. auto.
Qed.

Lemma steps_kept q q' k t :
  steps q q' → q_turns q !! k = Some t → ∃ t', q_turns q' !! k = Some t' ∧ turn_kept t t'.
Proof.
  intros Hs. revert t. induction Hs as [|q1 q2 q3 Hst Hs IH]; intros t Ht.
  - exists t. split; [done|]. by split_and!.
  - destruct (step_kept _ _ _ _ Hst Ht) as (t2 & H2 & Hk2).
    destruct (IH _ H2) as (t3 & H3 & Hk3). eauto using turn_kept_trans.
Qed.
