(* ===== verification/RuntimeRefines.v ===== *)
(** * The store implements the turn queue

    Every public method of the in-memory store, run from a state satisfying the
    key invariant, is a sequence of steps of the abstract machine of
    TurnQueue.v.  The serialisation and finality properties of the machine
    therefore hold of every state the store can reach. *)
From S2P Require Import Prelude ScopeKeys RuntimeTypes RuntimeStore TurnQueue.

(** ** Abstraction *)

Definition conv_key (r : ConcurrentRun) : string :=
  json_array [run_organizationId r; run_assistantId r; run_conversationId r].

Definition phase_of (r : ConcurrentRun) : Phase :=
  match run_status r with
  | queued => Queued
  | processing => Leased (default "" (run_leaseOwner r)) (default 0 (run_leaseExpiresAt r))
  | waiting_for_browser => Parked
  | completed => Ended Completed
  | failed => Ended Failed
  | cancelled => Ended Cancelled
  end.

Definition abs_run (r : ConcurrentRun) : Turn := mkTurn (conv_key r) (run_turnSequence r) (phase_of r).

Definition abs_turns (m : jsmap string ConcurrentRun) : gmap string Turn :=
  list_to_map ((λ kv, (kv.1, abs_run kv.2)) <$> m).

Definition abs (s : Store) : Queue := mkQueue (abs_turns (st_runs s)) (st_nextTurnSequence s).

(** The part of the store the abstraction reads. *)
Definition core (s : Store) : jsmap string ConcurrentRun * gmap string Z :=
  (st_runs s, st_nextTurnSequence s).

(** The record of what was accepted: messages, run contexts, idempotency
    records, events and conversation owners. *)
Definition ledger (s : Store) :=
  (st_messages s, st_runContexts s, st_idempotency s, st_events s, st_nextEventSequence s,
   st_conversationOwners s).

(** Everything but the browser broker's state, steps and onboarding contexts. *)
Definition base (s : Store) := (core s, ledger s).

(** ** The public methods as one step function *)

Inductive Op :=
  | OpConnect (c : TenantExecutionContext) (input : ConnectBrowserClientInput)
  | OpHeartbeat (c : TenantExecutionContext) (p : ConnectionProof) (leaseExpiresAt : Z)
  | OpSetGrant (c : TenantExecutionContext) (conversationId clientInstallationId : string) (enabled : bool)
  | OpGetGrant (c : TenantExecutionContext) (conversationId : string)
  | OpEnqueue (c : TenantExecutionContext) (input : EnqueueBrowserActionInput)
  | OpListBrowserEvents (c : TenantExecutionContext) (p : ConnectionProof) (afterSeq limit : Z)
  | OpReceipt (c : TenantExecutionContext) (input : RecordBrowserReceiptInput)
  | OpResult (c : TenantExecutionContext) (result : BrowserBrokerResultRequest) (tokenHash : string)
  | OpListSteps (c : TenantExecutionContext) (runId : string)
  | OpAccept (c : TenantExecutionContext) (input : AcceptConcurrentMessageInput)
  | OpClaim (c : TenantExecutionContext) (runId leaseOwner : string) (leaseExpiresAt : Z)
  | OpRenew (c : TenantExecutionContext) (runId leaseOwner : string) (leaseExpiresAt : Z)
  | OpComplete (c : TenantExecutionContext) (runId : string) (input : CompleteConcurrentRunInput)
  | OpFail (c : TenantExecutionContext) (runId : string) (input : FailConcurrentRunInput)
  | OpCancel (c : TenantExecutionContext) (runId : string)
  | OpCancelConversation (c : TenantExecutionContext) (conversationId : string)
  | OpGetRun (c : TenantExecutionContext) (runId : string)
  | OpNextQueued (c : TenantExecutionContext) (conversationId : string)
  | OpListMessages (c : TenantExecutionContext) (conversationId : string)
  | OpListConversations (c : TenantExecutionContext) (limit offset : Z)
  | OpGetConversation (c : TenantExecutionContext) (conversationId : string)
  | OpHasActive (c : TenantExecutionContext) (conversationId : string)
  | OpAppendEvent (c : TenantExecutionContext) (conversationId : string) (message : list (string * json))
  | OpListEvents (c : TenantExecutionContext) (afterSeq : Z) (conversationId : option string) (limit : Z).

Create HintDb evolves.

Section refines.
Context {env : Env}.

(** The state after a method call, whether it returned or threw. *)
Definition exec (o : Op) (w : World Store) : World Store :=
  match o with
  | OpConnect c i => (connectBrowserClient c i w).2
  | OpHeartbeat c p z => (heartbeatBrowserConnection c p z w).2
  | OpSetGrant c v i b => (setBrowserAccessGrant c v i b w).2
  | OpGetGrant c v => (getBrowserAccessGrant c v w).2
  | OpEnqueue c i => (enqueueBrowserAction c i w).2
  | OpListBrowserEvents c p a l => (listBrowserEvents c p a l w).2
  | OpReceipt c i => (recordBrowserReceipt c i w).2
  | OpResult c r h => (recordBrowserResult c r h w).2
  | OpListSteps c r => (listRunSteps c r w).2
  | OpAccept c i => (acceptMessage c i w).2
  | OpClaim c r o e => (claimRun c r o e w).2
  | OpRenew c r o e => (renewRunLease c r o e w).2
  | OpComplete c r i => (completeRun c r i w).2
  | OpFail c r i => (failRun c r i w).2
  | OpCancel c r => (cancelRun c r w).2
  | OpCancelConversation c v => (cancelConversationRuns c v w).2
  | OpGetRun c r => (getRun c r w).2
  | OpNextQueued c v => (getNextQueuedRun c v w).2
  | OpListMessages c v => (listMessages c v w).2
  | OpListConversations c l o => (listConversations c l o w).2
  | OpGetConversation c v => (getConversation c v w).2
  | OpHasActive c v => (hasActiveRun c v w).2
  | OpAppendEvent c v m => (appendEvent c v m w).2
  | OpListEvents c a v l => (listEvents c a v l w).2
  end.

Definition init_world : World Store := mkWorld 0 0 empty_store.

Inductive reachable : World Store → Prop :=
  | reach_init : reachable init_world
  | reach_step w o : reachable w → reachable (exec o w).

(** ** Frame conditions of the methods' parts *)

Section frames.
Context {B : Type} (f : Store → B).

Lemma keeps_assertContext c : keeps f (assertContext c).
Proof. unfold assertContext. solve_keeps. Qed.
Lemma keeps_assertConversationOwner c k : keeps f (assertConversationOwner c k).
Proof. unfold assertConversationOwner. solve_keeps. Qed.
#[local] Hint Resolve keeps_assertContext keeps_assertConversationOwner : keeps.
Lemma keeps_scopedRun c r : keeps f (scopedRun c r).
Proof. unfold scopedRun. solve_keeps. Qed.
#[local] Hint Resolve keeps_scopedRun : keeps.
Lemma keeps_requireLeasedRun c r o : keeps f (requireLeasedRun c r o).
Proof. unfold requireLeasedRun. solve_keeps. Qed.
Lemma keeps_requireBrowserAction c a : keeps f (requireBrowserAction c a).
Proof. unfold requireBrowserAction. solve_keeps. Qed.
Lemma keeps_assertActionConnection a i g : keeps f (assertActionConnection a i g).
Proof. unfold assertActionConnection. solve_keeps. Qed.
Lemma keeps_assertBrowserConnectionToken c a h : keeps f (assertBrowserConnectionToken c a h).
Proof. unfold assertBrowserConnectionToken. solve_keeps. Qed.
Lemma keeps_listRunSteps c r : keeps f (listRunSteps c r).
Proof. unfold listRunSteps. solve_keeps. Qed.
#[local] Hint Resolve keeps_listRunSteps : keeps.
Lemma keeps_claimed_result c r x : keeps f (claimed_result c r x).
Proof. unfold claimed_result. solve_keeps. Qed.
Lemma keeps_result_replay c a r : keeps f (result_replay c a r).
Proof. unfold result_replay. solve_keeps. Qed.
Lemma keeps_enqueue_existing c i x : keeps f (enqueue_existing c i x).
Proof. unfold enqueue_existing. solve_keeps. Qed.
Lemma keeps_live_records p a l : keeps f (live_records p a l).
Proof. induction l as [|r l IH]; cbn; solve_keeps. Qed.
End frames.

#[local] Hint Resolve keeps_assertContext keeps_assertConversationOwner keeps_scopedRun
  keeps_requireLeasedRun keeps_requireBrowserAction keeps_assertActionConnection
  keeps_assertBrowserConnectionToken keeps_listRunSteps keeps_claimed_result
  keeps_result_replay keeps_enqueue_existing keeps_live_records : keeps.

(** Methods and parts that leave the base alone. *)

Lemma keeps_base_core {A} (m : RT A) : keeps base m → keeps core m.
Proof. intros Hm w. destruct (Hm w) as (Hb & ? & ?). split_and!; [exact (f_equal fst Hb)|done..]. Qed.
Lemma keeps_base_ledger {A} (m : RT A) : keeps base m → keeps ledger m.
Proof. intros Hm w. destruct (Hm w) as (Hb & ? & ?). split_and!; [exact (f_equal snd Hb)|done..]. Qed.
#[local] Hint Resolve keeps_base_core keeps_base_ledger : keeps.


Lemma base_alter_connection k g : keeps base (alter_connection k g).
Proof. unfold alter_connection. solve_keeps. Qed.
Lemma base_alter_action k g : keeps base (alter_action k g).
Proof. unfold alter_action. solve_keeps. Qed.
#[local] Hint Resolve base_alter_connection base_alter_action : keeps.
Lemma base_connect_fresh c i : keeps base (connect_fresh c i).
Proof. unfold connect_fresh. solve_keeps. Qed.
#[local] Hint Resolve base_connect_fresh : keeps.
Lemma base_connect c i : keeps base (connectBrowserClient c i).
Proof. unfold connectBrowserClient. solve_keeps. Qed.
Lemma base_heartbeat c p z : keeps base (heartbeatBrowserConnection c p z).
Proof. unfold heartbeatBrowserConnection. solve_keeps. Qed.
Lemma base_setGrant c v i b : keeps base (setBrowserAccessGrant c v i b).
Proof. unfold setBrowserAccessGrant. solve_keeps. Qed.
Lemma base_getGrant c v : keeps base (getBrowserAccessGrant c v).
Proof. unfold getBrowserAccessGrant. solve_keeps. Qed.
Lemma base_deliver_all c l : keeps base (deliver_all c l).
Proof. induction l as [|r l IH]; cbn; solve_keeps. Qed.
#[local] Hint Resolve base_deliver_all : keeps.
Lemma base_listBrowserEvents c p a l : keeps base (listBrowserEvents c p a l).
Proof. unfold listBrowserEvents. solve_keeps. Qed.
Lemma base_receipt c i : keeps base (recordBrowserReceipt c i).
Proof. unfold recordBrowserReceipt. solve_keeps. Qed.
Lemma base_push_step c r v k j t g : keeps base (push_step c r v k j t g).
Proof. unfold push_step. solve_keeps. Qed.
Lemma base_apply_output c a o : keeps base (apply_output c a o).
Proof. unfold apply_output. solve_keeps. Qed.
Lemma base_persist_action c i a : keeps base (persist_action c i a).
Proof. unfold persist_action. solve_keeps. Qed.
Lemma base_redact c r b : keeps base (redactBrowserRun c r b).
Proof. unfold redactBrowserRun. solve_keeps. Qed.
Lemma core_appendEventRecord c v m : keeps core (appendEventRecord c v m).
Proof. unfold appendEventRecord. solve_keeps. Qed.
Lemma base_remember k o : keeps base (remember_onboarding k o).
Proof. unfold remember_onboarding. solve_keeps. Qed.
Lemma core_assertOrSet c k : keeps core (assertOrSetConversationOwner c k).
Proof. unfold assertOrSetConversationOwner. solve_keeps. Qed.
#[local] Hint Resolve base_connect base_heartbeat base_setGrant base_getGrant base_listBrowserEvents
  base_receipt base_push_step base_apply_output base_persist_action base_redact
  core_appendEventRecord base_remember core_assertOrSet : keeps.
Lemma base_accept_existing c i r : keeps base (accept_existing c i r).
Proof. unfold accept_existing. solve_keeps. Qed.
Lemma core_appendEvent c v m : keeps core (appendEvent c v m).
Proof. unfold appendEvent. solve_keeps. Qed.
#[local] Hint Resolve base_accept_existing core_appendEvent : keeps.

(** ** The abstraction of a mutation *)

Lemma abs_turns_lookup m k : abs_turns m !! k = abs_run <$> jget k m.
Proof.
  induction m as [|[k' r] m IH]; cbn; [apply lookup_empty|].
  rewrite lookup_insert. repeat case_decide; subst; done.
Qed.

Lemma abs_turns_jalter g k r m :
  jget k m = Some r → abs_turns (jalter g k m) = <[k := abs_run (g r)]> (abs_turns m).
Proof.
  intros Hk. apply map_eq. intros k'. rewrite lookup_insert, !abs_turns_lookup, jget_jalter.
  case_decide; subst; [by rewrite Hk|done].
Qed.

Lemma abs_turns_jset k r m :
  abs_turns (jset k r m) = <[k := abs_run r]> (abs_turns m).
Proof.
  apply map_eq. intros k'. rewrite lookup_insert, !abs_turns_lookup, jget_jset.
  by case_decide.
Qed.

Lemma abs_core s s' : core s' = core s → abs s' = abs s.
Proof. unfold core, abs. by intros [= -> ->]. Qed.

(** A mutation of the run at [k] that keeps its place in its conversation. *)
Lemma abs_alter_run g k r s s' :
  jget k (st_runs s) = Some r →
  conv_key (g r) = conv_key r → run_turnSequence (g r) = run_turnSequence r →
  core s' = (jalter g k (st_runs s), st_nextTurnSequence s) →
  abs s' = q_set k (set_phase (phase_of (g r)) (abs_run r)) (abs s).
Proof.
  intros Hk Hc Hs [= Hr Hn]. unfold abs, q_set. cbn [q_turns q_next].
  rewrite Hr, Hn, (abs_turns_jalter g k r) by done.
  unfold abs_run at 1. by rewrite Hc, Hs.
Qed.

Lemma abs_lookup s k r : jget k (st_runs s) = Some r → q_turns (abs s) !! k = Some (abs_run r).
Proof. intros Hk. cbn. by rewrite abs_turns_lookup, Hk. Qed.

Lemma is_nonterminal_phase r : is_nonterminal (run_status r) = true → ¬ ended (abs_run r).
Proof. intros H [o Ho]. unfold abs_run, phase_of in Ho. cbn in Ho. by destruct (run_status r). Qed.

Lemma terminal_ended r : is_nonterminal (run_status r) = false → ended (abs_run r).
Proof. unfold ended, abs_run, phase_of. cbn. destruct (run_status r); cbn; eauto; discriminate. Qed.

Lemma processing_leased r : run_status r = processing → ∃ o e, turn_phase (abs_run r) = Leased o e.
Proof. intros H. unfold abs_run, phase_of. cbn. rewrite H. eauto. Qed.

(** ** Reading guards *)

Lemma assertContext_cases c w :
  assertContext c w = (inr tt, w) ∨ ∃ e, assertContext c w = (inl e, w).
Proof. unfold assertContext. case_match; [right|left]; cbn; eauto. Qed.

Lemma assertContext_any c w w1 : assertContext c w = (inr tt, w) → assertContext c w1 = (inr tt, w1).
Proof. unfold assertContext. by case_match. Qed.

Lemma assertConversationOwner_cases c k w :
  assertConversationOwner c k w = (inr tt, w) ∨ ∃ e, assertConversationOwner c k w = (inl e, w).
Proof. unfold assertConversationOwner. mrun. case_match; eauto. Qed.

(** A method that finds its run, and one that requires the caller's lease. *)
Lemma scopedRun_cases c r w :
  scopedRun c r w = (inr (jget (runKey c r) (st_runs (w_st w))), w) ∨ ∃ e, scopedRun c r w = (inl e, w).
Proof.
  unfold scopedRun. mrun. destruct (assertContext_cases c w) as [->|[e ->]]; eauto.
Qed.

(** ** Refinement and key preservation as one preorder *)

(** The fields of a run that never change once it is accepted. *)
Definition run_identity (r : ConcurrentRun) :=
  (run_id r, run_organizationId r, run_assistantId r, run_conversationId r, run_requestId r,
   run_idempotencyKey r, run_userMessageId r, run_turnSequence r, run_createdAt r).

(** A lease is held exactly while the run is processing. *)
Definition lease_ok (r : ConcurrentRun) : Prop :=
  match run_status r with
  | processing => is_Some (run_leaseOwner r) ∧ is_Some (run_leaseExpiresAt r)
  | _ => run_leaseOwner r = None ∧ run_leaseExpiresAt r = None
  end.

Definition run_evolves (r r' : ConcurrentRun) : Prop :=
  run_identity r' = run_identity r ∧ (lease_ok r → lease_ok r')
  ∧ (is_nonterminal (run_status r) = false → r' = r).

#[global] Instance run_evolves_preorder : PreOrder run_evolves.
Proof.
  split; [by intros r|]. intros x y z (H1&L1&T1) (H2&L2&T2). split_and!; [congruence|auto|].
  intros Ht. rewrite T2, T1; auto. by rewrite T1.
Qed.

(** Each field assignment of the methods keeps the identity. *)
Lemma identity_setters r :
  (∀ v, run_identity (set_run_status v r) = run_identity r)
  ∧ (∀ v, run_identity (set_run_leaseOwner v r) = run_identity r)
  ∧ (∀ v, run_identity (set_run_leaseExpiresAt v r) = run_identity r)
  ∧ (∀ v, run_identity (set_run_updatedAt v r) = run_identity r)
  ∧ (∀ v, run_identity (set_run_assistantMessageId v r) = run_identity r)
  ∧ (∀ v, run_identity (set_run_errorCode v r) = run_identity r)
  ∧ (∀ v, run_identity (set_run_errorMessage v r) = run_identity r).
Proof. done. Qed.

Ltac keep_identity :=
  repeat match goal with
  | |- run_identity (?f ?v ?x) = _ =>
      transitivity (run_identity x); [apply (identity_setters x)|]
  end; try reflexivity.

Lemma lease_ok_ended r :
  run_status r ≠ processing → run_leaseOwner r = None → run_leaseExpiresAt r = None → lease_ok r.
Proof. unfold lease_ok. by destruct (run_status r). Qed.

(** An assignment to a live run that leaves the lease invariant. *)
Lemma evolves_live r r' :
  is_nonterminal (run_status r) = true → run_identity r' = run_identity r →
  (lease_ok r → lease_ok r') → run_evolves r r'.
Proof. intros Hn Hid Hl. split_and!; [done..|]. intros Hf. congruence. Qed.

Lemma nonterminal_processing r : run_status r = processing → is_nonterminal (run_status r) = true.
Proof. by intros ->. Qed.
#[local] Hint Resolve nonterminal_processing : evolves.

Lemma evolves_renew r u e :
  run_status r = processing → run_evolves r (set_run_updatedAt u (set_run_leaseExpiresAt (Some e) r)).
Proof.
  intros Hp. apply evolves_live; [by rewrite Hp|keep_identity|].
  unfold lease_ok. cbn. rewrite Hp. intros [? _]. eauto.
Qed.

Section live.
Context (r : ConcurrentRun).
Hypothesis Hlive : is_nonterminal (run_status r) = true.

Lemma evolves_park u :
  run_evolves r (set_run_updatedAt u (clear_lease (set_run_status waiting_for_browser r))).
Proof. apply evolves_live; [done|keep_identity|by intros _; apply lease_ok_ended]. Qed.
Lemma evolves_claim o e u : run_evolves r (claim_update o e u r).
Proof. apply evolves_live; [done|unfold claim_update; keep_identity|]. cbn. eauto. Qed.
Lemma evolves_complete m u : run_evolves r (complete_update m u r).
Proof.
  apply evolves_live; [done|unfold complete_update, clear_lease; keep_identity|].
  by intros _; apply lease_ok_ended.
Qed.
Lemma evolves_fail c m u : run_evolves r (fail_update c m u r).
Proof.
  apply evolves_live; [done|unfold fail_update, clear_lease; keep_identity|].
  by intros _; apply lease_ok_ended.
Qed.
Lemma evolves_cancel u : run_evolves r (cancel_update u r).
Proof.
  apply evolves_live; [done|unfold cancel_update, clear_lease; keep_identity|].
  by intros _; apply lease_ok_ended.
Qed.
End live.

Lemma evolves_resume r : run_evolves r (resume_run r).
Proof.
  unfold resume_run. case_bool_decide as Hw; [|reflexivity].
  apply evolves_live; [by rewrite Hw|keep_identity|]. unfold lease_ok. cbn. by rewrite Hw.
Qed.
#[local] Hint Resolve evolves_renew evolves_park evolves_claim evolves_complete evolves_fail
  evolves_cancel evolves_resume : evolves.

Definition good (w w' : World Store) : Prop :=
  steps (abs (w_st w)) (abs (w_st w'))
  ∧ jkeys (st_runs (w_st w')) = jkeys (st_runs (w_st w))
  ∧ (∀ k, option_Forall2 run_evolves (jget k (st_runs (w_st w))) (jget k (st_runs (w_st w'))))
  ∧ (w_uuid w ≤ w_uuid w')%nat.

#[global] Instance good_preorder : PreOrder good.
Proof.
  split.
  - intros w. by split_and!.
  - intros x y z (S1&K1&I1&U1) (S2&K2&I2&U2). split_and!; [|congruence| |lia].
    + unfold steps in *. by etrans.
    + intros k. etrans; [apply I1|apply I2].
Qed.

Lemma same_core_good w w' : same core w w' → good w w'.
Proof.
  intros (Hc & Hu & _). split_and!; [|by injection Hc as -> _|by injection Hc as -> _|done].
  rewrite (abs_core _ _ Hc). constructor.
Qed.

Lemma keeps_core_good {A} (m : RT A) w : keeps core m → good w (m w).2.
Proof. intros H. apply same_core_good, H. Qed.

Lemma keeps_core_good_eq {A} (m : RT A) w r w' : keeps core m → m w = (r, w') → good w w'.
Proof. intros H Heq. apply same_core_good. by eapply keeps_eq. Qed.

(** A mutation that is one step of the machine. *)
Lemma good_alter g k r w w' :
  jget k (st_runs (w_st w)) = Some r →
  run_evolves r (g r) →
  step (abs (w_st w)) (q_set k (set_phase (phase_of (g r)) (abs_run r)) (abs (w_st w))) →
  core (w_st w') = (jalter g k (st_runs (w_st w)), st_nextTurnSequence (w_st w)) →
  (w_uuid w ≤ w_uuid w')%nat →
  good w w'.
Proof.
  intros Hk Hev Hstep Hcore Hu. split_and!; [| | |done].
  - destruct Hev as (Hid & _ & _). unfold run_identity in Hid. injection Hid as _ Ho Ha Hv _ _ _ Hs _.
    assert (Hc : conv_key (g r) = conv_key r) by (unfold conv_key; by rewrite Ho, Ha, Hv).
    rewrite (abs_alter_run g k r _ _ Hk Hc Hs Hcore). by apply rtc_once.
  - injection Hcore as -> _. apply jkeys_jalter.
  - injection Hcore as -> _. intros k'. rewrite jget_jalter. case_decide; subst; [|done].
    rewrite Hk. by constructor.
Qed.

(** [alter_run] followed by parts that keep the core. *)
Lemma good_alter_run g k r w :
  jget k (st_runs (w_st w)) = Some r →
  run_evolves r (g r) →
  step (abs (w_st w)) (q_set k (set_phase (phase_of (g r)) (abs_run r)) (abs (w_st w))) →
  good w (alter_run k g w).2.
Proof. intros. by eapply good_alter. Qed.

(** The steps of a leased run. *)
Section leased.
Context (k : string) (r : ConcurrentRun) (s : Store).
Hypothesis Hk : jget k (st_runs s) = Some r.
Hypothesis Hp : run_status r = processing.

Lemma step_renew_run e u :
  let g := λ x, set_run_updatedAt u (set_run_leaseExpiresAt (Some e) x) in
  step (abs s) (q_set k (set_phase (phase_of (g r)) (abs_run r)) (abs s)).
Proof.
  cbn. unfold phase_of. cbn. rewrite Hp. eapply step_renew; [by apply abs_lookup|].
  cbn. unfold phase_of. by rewrite Hp.
Qed.

Lemma step_park_run u :
  let g := λ x, set_run_updatedAt u (clear_lease (set_run_status waiting_for_browser x)) in
  step (abs s) (q_set k (set_phase (phase_of (g r)) (abs_run r)) (abs s)).
Proof.
  cbn. destruct (processing_leased r Hp) as (o & e & He).
  eapply step_park; [by apply abs_lookup|exact He].
Qed.

Lemma step_finish_run g o :
  phase_of (g r) = Ended o →
  step (abs s) (q_set k (set_phase (phase_of (g r)) (abs_run r)) (abs s)).
Proof.
  intros ->. destruct (processing_leased r Hp) as (o' & e & He).
  eapply step_finish; [by apply abs_lookup|exact He].
Qed.
End leased.

Lemma step_cancel_run k r u s :
  jget k (st_runs s) = Some r → is_nonterminal (run_status r) = true →
  step (abs s) (q_set k (set_phase (phase_of (cancel_update u r)) (abs_run r)) (abs s)).
Proof. intros Hk Hn. apply step_cancel; [by apply abs_lookup|by apply is_nonterminal_phase]. Qed.

(** Guards of the leased operations, as propositions. *)
Lemma lease_guard r o :
  negb (bool_decide (run_status r = processing)) || negb (eqos (run_leaseOwner r) (Some o)) = false →
  run_status r = processing ∧ run_leaseOwner r = Some o.
Proof.
  rewrite orb_false_iff, !negb_false_iff. unfold eqos. rewrite !bool_decide_eq_true. done.
Qed.

(** ** The methods that change runs *)

Ltac run_guards w :=
  repeat match goal with
  | |- context [assertContext ?c w] =>
      destruct (assertContext_cases c w) as [->|[? ->]]; cbn; [|reflexivity]
  | |- context [scopedRun ?c ?r w] =>
      destruct (scopedRun_cases c r w) as [->|[? ->]]; cbn; [|reflexivity]
  | |- context [assertConversationOwner ?c ?k w] =>
      destruct (assertConversationOwner_cases c k w) as [->|[? ->]]; cbn; [|reflexivity]
  end.

Lemma good_renew c r o e w : good w (renewRunLease c r o e w).2.
Proof.
  unfold renewRunLease. mrun. run_guards w.
  destruct (jget (runKey c r) (st_runs (w_st w))) as [x|] eqn:Hx; [|reflexivity].
  destruct (_ || _) eqn:Hg; [reflexivity|]. apply lease_guard in Hg as [Hp _].
  eapply good_alter; [exact Hx| | |reflexivity|cbn; lia].
  - by apply evolves_renew.
  - by apply step_renew_run.
Qed.

(** The tail shared by completion, failure and cancellation. *)
Lemma good_finish_then {A} g k x c r b (a : A) w :
  jget k (st_runs (w_st w)) = Some x →
  run_evolves x (g x) →
  step (abs (w_st w)) (q_set k (set_phase (phase_of (g x)) (abs_run x)) (abs (w_st w))) →
  good w ((_ ← alter_run k g; _ ← redactBrowserRun c r b; mret a) w : (StoreError + A) * World Store).2.
Proof.
  intros. etrans; [by eapply (good_alter_run g k x)|].
  unfold mbind at 1, M_bind at 1. cbn [alter_run modify].
  apply (keeps_core_good (_ ← redactBrowserRun c r b; mret a)). solve_keeps.
Qed.

Lemma good_fail c r i w : good w (failRun c r i w).2.
Proof.
  unfold failRun. mrun. run_guards w.
  destruct (jget (runKey c r) (st_runs (w_st w))) as [x|] eqn:Hx; [|reflexivity].
  destruct (_ || _) eqn:Hg; [reflexivity|]. apply lease_guard in Hg as [Hp _].
  refine (good_finish_then _ (runKey c r) x c r false true (mkWorld _ _ (w_st w)) Hx _ _); auto with evolves.
  by eapply step_finish_run.
Qed.

Lemma good_complete c r i w : good w (completeRun c r i w).2.
Proof.
  unfold completeRun, requireLeasedRun. mrun. run_guards w.
  destruct (jget (runKey c r) (st_runs (w_st w))) as [x|] eqn:Hx; [|reflexivity].
  destruct (_ || _) eqn:Hg; [reflexivity|]. cbn. apply lease_guard in Hg as [Hp _].
  case_match; [|by apply same_core_good; split_and!; cbn; [done|lia|lia]]. cbn.
  etrans; last first.
  - refine (good_finish_then (complete_update (co_assistantMessageId i) (date_now (S (w_clock w))))
      (runKey c r) x c r false _ (mkWorld (S (S (w_clock w))) (w_uuid w) (set_st_messages _ (w_st w)))
      Hx _ _); auto with evolves.
    by eapply step_finish_run.
  - apply same_core_good. split_and!; cbn; [done|lia|lia].
Qed.

Lemma good_cancel c r w : good w (cancelRun c r w).2.
Proof.
  unfold cancelRun. mrun. run_guards w.
  destruct (jget (runKey c r) (st_runs (w_st w))) as [x|] eqn:Hx; [|reflexivity].
  destruct (is_nonterminal (run_status x)) eqn:Hn; [|reflexivity]. cbn.
  refine (good_finish_then _ (runKey c r) x c r true true (mkWorld _ _ (w_st w)) Hx _ _); auto with evolves.
  by apply step_cancel_run.
Qed.

Lemma good_cancel_each c v entries w :
  NoDup entries.*1 → (∀ k r, (k, r) ∈ entries → jget k (st_runs (w_st w)) = Some r) →
  good w (cancel_each c v entries w).2.
Proof.
  revert w. induction entries as [|[k r] entries IH]; intros w Hnd Hin; [reflexivity|].
  apply NoDup_cons in Hnd as [Hk Hnd]. cbn. case_match eqn:Hc; [|apply IH; set_solver].
  apply andb_true_iff in Hc as [_ Hn].
  assert (Hr : jget k (st_runs (w_st w)) = Some r) by (apply Hin; set_solver).
  set (u := date_now (w_clock w)).
  set (w1 := (alter_run k (cancel_update u) (mkWorld (S (w_clock w)) (w_uuid w) (w_st w))).2).
  assert (H1 : good w w1).
  { eapply (good_alter (cancel_update u) k r); auto with evolves. by apply step_cancel_run. }
  mrun. fold u. change (mkWorld _ _ _) with w1.
  destruct (redactBrowserRun c (run_id r) true w1) as [[e|[]] w2] eqn:H2; cbn.
  all: assert (Hc2 : same core w1 w2) by (eapply keeps_eq, H2; auto with keeps).
  { etrans; [exact H1|by apply same_core_good]. }
  trans w2; [etrans; [exact H1|by apply same_core_good]|].
  assert (H3 : good w2 (cancel_each c v entries w2).2).
  { apply IH; [done|]. intros k' r' Hin'. destruct Hc2 as ([= Hc2 _] & _). rewrite Hc2. cbn.
    rewrite jget_jalter, decide_False; [apply Hin; set_solver|].
    intros <-. apply Hk. apply list_elem_of_fmap. by exists (k, r'). }
  by destruct (cancel_each c v entries w2) as [[?|?] ?].
Qed.

Lemma good_cancelConversation c v w :
  NoDup (jkeys (st_runs (w_st w))) → good w (cancelConversationRuns c v w).2.
Proof.
  intros Hnd. unfold cancelConversationRuns. mrun. run_guards w.
  apply good_cancel_each; [exact Hnd|]. intros k r. generalize dependent (st_runs (w_st w)).
  intros m Hnd. clear -Hnd. induction m as [|[k1 r1] m IH]; cbn; [set_solver|].
  apply NoDup_cons in Hnd as [Hk Hnd]. intros [[= -> ->]|Hin]%elem_of_cons; [by rewrite decide_True|].
  rewrite decide_False; [auto|]. intros ->. apply Hk. apply list_elem_of_fmap. by exists (k1, r).
Qed.

Lemma conv_key_inj r1 r2 : conv_key r1 = conv_key r2 → same_conversation r1 r2 = true.
Proof.
  unfold conv_key, same_conversation, eqs. intros Heq%json_array_inj. injection Heq as -> -> ->.
  by rewrite !bool_decide_eq_true_2.
Qed.

Lemma earlier_all_ended r s :
  earlier_nonterminal r s = false →
  ∀ k' t', q_turns (abs s) !! k' = Some t' → earlier t' (abs_run r) → ended t'.
Proof.
  intros Hno k' t'. cbn. rewrite abs_turns_lookup.
  destruct (jget k' (st_runs s)) as [r'|] eqn:Hr; cbn; [|done]. intros [= <-] [Hc Hlt].
  apply terminal_ended. destruct (is_nonterminal (run_status r')) eqn:Hn; [|done].
  rewrite <-not_true_iff_false in Hno. exfalso. apply Hno.
  apply existsb_exists. exists r'. split; [apply list_elem_of_In; eauto with jsmap|].
  rewrite (conv_key_inj r' r Hc), Hn. cbn in *. rewrite andb_true_r. by apply Z.ltb_lt.
Qed.

Lemma good_claim c r o e w : good w (claimRun c r o e w).2.
Proof.
  unfold claimRun. mrun. run_guards w.
  destruct (jget (runKey c r) (st_runs (w_st w))) as [x|] eqn:Hx; [|reflexivity].
  run_guards w. set (n := date_now (w_clock w)).
  assert (Htick : ∀ a : nat, (w_clock w ≤ a)%nat → good w (mkWorld a (w_uuid w) (w_st w))).
  { intros a Ha. apply same_core_good. by split_and!. }
  destruct (claimable n x) eqn:Hcl; cbn; [|apply Htick; lia].
  destruct (earlier_nonterminal x (w_st w)) eqn:He; cbn; [apply Htick; lia|].
  etrans; [|apply (keeps_core_good (claimed_result c r _)); auto with keeps].
  eapply (good_alter (λ _, claim_update o e (date_now (S (w_clock w))) x)); [exact Hx| | |done|cbn; lia].
  { apply evolves_claim. unfold claimable in Hcl. by destruct (run_status x). }
  apply step_claim; [by apply abs_lookup| |by apply earlier_all_ended].
  unfold claimable in Hcl. unfold abs_run, phase_of. cbn.
  destruct (run_status x); try discriminate Hcl; eauto.
Qed.

Lemma good_park c i x w :
  jget (runKey c (en_runId i)) (st_runs (w_st w)) = Some x → run_status x = processing →
  good w (park_run c i w).2.
Proof.
  intros Hx Hp. unfold park_run. mrun.
  destruct (push_step c _ _ _ _ _ _ w) as [[e|[]] w1] eqn:H1; cbn.
  all: assert (Hc : same core w w1) by (eapply keeps_eq, H1; auto with keeps).
  { by apply same_core_good. }
  trans w1; [by apply same_core_good|]. destruct Hc as ([= Hr _] & _).
  rewrite <-Hr in Hx. eapply good_alter; [exact Hx| | |reflexivity|cbn; lia].
  - apply evolves_park. by rewrite Hp.
  - by apply step_park_run.
Qed.

Lemma good_enqueue_commit c i x g cn se w :
  jget (runKey c (en_runId i)) (st_runs (w_st w)) = x →
  enqueue_lease_ok i x = true → good w (enqueue_commit c i x g cn se w).2.
Proof.
  intros Hx Hok. unfold enqueue_commit. mrun.
  destruct (persist_action c i _ w) as [[er|out] w1] eqn:H1; cbn.
  all: assert (Hc : same core w w1) by (eapply keeps_eq, H1; auto with keeps).
  all: pose proof (same_core_good _ _ Hc) as Hg.
  { exact Hg. }
  destruct (truthy_opt (en_leaseOwner i)) eqn:Hl; cbn; [|exact Hg].
  destruct x as [x|]; cbn; [|exact Hg].
  unfold enqueue_lease_ok in Hok. rewrite Hl in Hok. cbn in Hok.
  apply andb_true_iff in Hok as [Hp%bool_decide_eq_true _]. etrans; [exact Hg|].
  destruct Hc as ([= Hr _] & _). rewrite <-Hr in Hx.
  pose proof (good_park c i x w1 Hx Hp) as Hpk. by destruct (park_run c i w1) as [[?|?] ?].
Qed.

Lemma good_enqueue_new c i x w :
  jget (runKey c (en_runId i)) (st_runs (w_st w)) = x →
  enqueue_lease_ok i x = true → good w (enqueue_new c i x w).2.
Proof.
  intros Hx Hok. unfold enqueue_new. mrun.
  assert (Htick : good w (mkWorld (S (w_clock w)) (w_uuid w) (w_st w))).
  { apply same_core_good. split_and!; cbn; [done|lia|lia]. }
  destruct (st_browserGrants _ !! _) as [g|]; [|reflexivity].
  destruct (grant_enabled g); cbn; [|reflexivity].
  destruct (currentBrowserConnection _ _ _) as [cn|]; [|exact Htick].
  destruct (connection_usable _ _); [|exact Htick].
  destruct (_ && _); [exact Htick|]. etrans; [exact Htick|]. by apply good_enqueue_commit.
Qed.

Lemma good_enqueue c i w : good w (enqueueBrowserAction c i w).2.
Proof.
  unfold enqueueBrowserAction. mrun. run_guards w.
  destruct (enqueue_lease_ok _ _) eqn:Hok; [|reflexivity].
  pose proof (good_enqueue_new c i _ w eq_refl Hok) as Hn.
  destruct (st_browserToolActions _ !! _) as [id|]; [|exact Hn].
  destruct (truthy id); [|exact Hn]. apply keeps_core_good. auto with keeps.
Qed.

Lemma good_resume k w : good w (alter_run k resume_run w).2.
Proof.
  destruct (jget k (st_runs (w_st w))) as [x|] eqn:Hx; cbn; last first.
  { apply same_core_good. split_and!; cbn; [|done..]. unfold core; cbn. rewrite jalter_id; [done|].
    intros; congruence. }
  destruct (decide (run_status x = waiting_for_browser)) as [Hw|Hw].
  - assert (Hr : resume_run x = set_run_status queued x)
      by (unfold resume_run; by rewrite bool_decide_eq_true_2).
    eapply (good_alter resume_run k x); [done|auto with evolves| |done..]. rewrite Hr. cbn.
    apply step_resume; [by apply abs_lookup|]. unfold abs_run, phase_of. cbn. by rewrite Hw.
  - apply same_core_good. split_and!; cbn; [|done..]. unfold core; cbn. rewrite jalter_id; [done|].
    intros v Hv. simplify_eq. unfold resume_run. by rewrite bool_decide_eq_false_2.
Qed.

Lemma good_result c r h w : good w (recordBrowserResult c r h w).2.
Proof.
  revert w. unfold recordBrowserResult.
  repeat match goal with
  | |- ∀ w, good w ((?m ≫= ?k) w).2 => apply (respects_bind good m k); [|intros ?]
  | |- respects good (alter_run _ resume_run) => intros w; apply good_resume
  | |- respects good (if ?b then _ else _) => destruct b
  | |- respects good (?m ≫= ?k) => apply (respects_bind good m k); [|intros ?]
  | |- respects good _ => intros w; apply keeps_core_good; solve [solve_keeps]
  end.
Qed.

(** ** Accepting a message *)

(** The effect of a newly accepted turn on runs and counters. *)
Definition accepted_turn (w w' : World Store) : Prop :=
  ∃ c n run,
    (w_uuid w ≤ n < w_uuid w')%nat ∧ run_id run = random_uuid n ∧ run_status run = queued ∧
    lease_ok run ∧
    run_turnSequence run = default 0 (st_nextTurnSequence (w_st w) !! conv_key run) ∧
    core (w_st w') =
      (jset (runKey c (random_uuid n)) run (st_runs (w_st w)),
       <[conv_key run := run_turnSequence run + 1]> (st_nextTurnSequence (w_st w))).

Lemma accepted_turn_pre w w1 w2 : same core w w1 → accepted_turn w1 w2 → accepted_turn w w2.
Proof.
  intros (Hc & Hu & _) (c & n & run & Hlt & Hrest). injection Hc as Hr Hn. rewrite Hr, Hn in Hrest.
  exists c, n, run. split; [lia|exact Hrest].
Qed.

Lemma accepted_turn_post w w1 w2 : accepted_turn w w1 → same core w1 w2 → accepted_turn w w2.
Proof.
  intros (c & n & run & Hlt & Hid & Hst & Hl & Hseq & Hc) (Hc' & Hu & _).
  exists c, n, run. split_and!; try done; [lia..|]. by rewrite Hc'.
Qed.

Lemma accept_new_effect c i key v w :
  let w' := (accept_new c i key v w).2 in same core w w' ∨ accepted_turn w w'.
Proof.
  unfold accept_new, insert_turn. case_match; [by left|]. mrun.
  destruct (assertOrSetConversationOwner c _ w) as [[e|[]] w1] eqn:H1; cbn.
  all: assert (Hc1 : same core w w1) by (eapply keeps_eq, H1; auto with keeps).
  { by left. }
  destruct (remember_onboarding _ _ w1) as [[e|[]] w2] eqn:H2; cbn.
  all: assert (Hc2 : same core w w2) by (etrans; [exact Hc1|]; eapply keeps_eq, H2; auto with keeps).
  { by left. }
  right. apply (accepted_turn_pre w w2); [done|].
  match goal with |- accepted_turn w2 (match appendEventRecord ?c ?v ?m ?w3 with _ => _ end).2 =>
    set (w3' := w3); pose proof (core_appendEventRecord c v m w3') as Hap;
    assert (H3 : accepted_turn w2 w3')
  end.
  { exists c, (S (w_uuid w2)), (mkRun (random_uuid (S (w_uuid w2))) (organizationId c) (assistantId c) v
      (requestId c) key (random_uuid (w_uuid w2))
      (default 0 (st_nextTurnSequence (w_st w2) !! tenantConversationScopeKey c v))
      None queued None None None None (date_now (w_clock w2)) (date_now (w_clock w2))).
    split_and!; [cbn; lia..|reflexivity|reflexivity|done|reflexivity|reflexivity]. }
  eapply accepted_turn_post; [exact H3|].
  by destruct (appendEventRecord _ _ _ w3') as [[?|?] ?].
Qed.

Lemma accept_effect c i w :
  let w' := (acceptMessage c i w).2 in same core w w' ∨ accepted_turn w w'.
Proof.
  unfold acceptMessage. mrun.
  destruct (assertContext_cases c w) as [->|[? ->]]; cbn; [|by left].
  case_match; [left; apply (keeps_base_core _ (base_accept_existing _ _ _))|].
  case_match; [apply accept_new_effect|].
  set (w1 := mkWorld (w_clock w) (S (w_uuid w)) (w_st w)).
  assert (Hc : same core w w1) by (split_and!; cbn; [done|lia|lia]).
  destruct (accept_new_effect c i (idempotency_key c i) (random_uuid (w_uuid w)) w1) as [H1|H1].
  - left. by etrans.
  - right. by eapply accepted_turn_pre.
Qed.

(** ** The key invariant and the refinement theorem *)

(** Run keys are distinct and built from identifiers already handed out. *)
Definition key_inv (w : World Store) : Prop :=
  NoDup (jkeys (st_runs (w_st w))) ∧
  ∀ k, k ∈ jkeys (st_runs (w_st w)) → ∃ c n, k = runKey c (random_uuid n) ∧ (n < w_uuid w)%nat.

Lemma key_inv_good w w' : key_inv w → good w w' → key_inv w'.
Proof.
  intros [Hnd Hk] (_ & Hkeys & _ & Hu). split; rewrite Hkeys; [done|].
  intros k Hin. destruct (Hk k Hin) as (c & n & -> & Hn). exists c, n. split; [done|lia].
Qed.

Lemma accepted_turn_fresh `{!UuidOk env} c n w :
  key_inv w → (w_uuid w ≤ n)%nat → jget (runKey c (random_uuid n)) (st_runs (w_st w)) = None.
Proof.
  intros [_ Hk] Hn. apply jget_None. intros Hin. destruct (Hk _ Hin) as (c' & n' & Heq & Hn').
  apply actorKey_inj in Heq as [_ Heq]. apply uuid_inj in Heq. lia.
Qed.

Lemma key_inv_accepted `{!UuidOk env} w w' :
  key_inv w → accepted_turn w w' → key_inv w' ∧ steps (abs (w_st w)) (abs (w_st w')).
Proof.
  intros Hinv (c & n & run & Hlt & Hid & Hst & Hl & Hseq & [= Hr Hn]).
  pose proof (accepted_turn_fresh c n w Hinv (proj1 Hlt)) as Hfresh. destruct Hinv as [Hnd Hk].
  split; [split; rewrite Hr|].
  - by apply jkeys_jset_NoDup.
  - rewrite jkeys_jset_fresh by done. unfold jkeys. rewrite fmap_app. intros k [Hin|Hin]%elem_of_app.
    + destruct (Hk k Hin) as (c' & n' & -> & ?). exists c', n'. split; [done|lia].
    + apply list_elem_of_singleton in Hin as ->. exists c, n. split; [done|lia].
  - apply rtc_once. unfold abs. rewrite Hr, Hn, abs_turns_jset.
    assert (Habs : abs_run run = mkTurn (conv_key run)
      (default 0 (st_nextTurnSequence (w_st w) !! conv_key run)) Queued)
      by (unfold abs_run, phase_of; by rewrite Hst, Hseq).
    rewrite Habs, Hseq. apply (step_accept _ _ (abs (w_st w))). cbn. by rewrite abs_turns_lookup, Hfresh.
Qed.

Definition accepts (o : Op) : bool := match o with OpAccept _ _ => true | _ => false end.

(** The queries leave every projection alone. *)
Definition is_query (o : Op) : bool :=
  match o with
  | OpGetRun _ _ | OpNextQueued _ _ | OpListMessages _ _ | OpListConversations _ _ _
  | OpGetConversation _ _ | OpHasActive _ _ | OpListEvents _ _ _ _ | OpListSteps _ _
  | OpGetGrant _ _ => true
  | _ => false
  end.

Lemma query_same {B} (f : Store → B) o w : is_query o = true → same f w (exec o w).
Proof.
  destruct o; try discriminate 1; intros _; cbn [exec].
  all: lazymatch goal with |- same _ _ (?m _).2 => enough (Hk : keeps f m) by apply Hk end.
  all: unfold getRun, getNextQueuedRun, listMessages, listConversations, getConversation, hasActiveRun,
    listEvents, getBrowserAccessGrant; solve_keeps.
Qed.

Lemma exec_good o w : accepts o = false → NoDup (jkeys (st_runs (w_st w))) → good w (exec o w).
Proof.
  intros Ha Hnd. destruct (is_query o) eqn:Hq; [by apply same_core_good, query_same|].
  destruct o; try discriminate Ha; try discriminate Hq; cbn [exec].
  all: try (apply keeps_core_good; solve [auto with keeps]).
  all: auto using good_enqueue, good_result, good_claim, good_renew, good_complete, good_fail, good_cancel,
    good_cancelConversation.
Qed.

Lemma exec_effect o w : key_inv w → good w (exec o w) ∨ accepted_turn w (exec o w).
Proof.
  intros [Hnd _]. destruct (accepts o) eqn:Ha; [|left; by apply exec_good].
  destruct o; try discriminate Ha. cbn [exec].
  destruct (accept_effect c input w); [left; by apply same_core_good|by right].
Qed.

Lemma exec_refines `{!UuidOk env} o w :
  key_inv w → key_inv (exec o w) ∧ steps (abs (w_st w)) (abs (w_st (exec o w))).
Proof.
  intros Hinv. destruct (exec_effect o w Hinv) as [Hg|Ha]; [|by apply key_inv_accepted].
  split; [by eapply key_inv_good|apply Hg].
Qed.

Lemma key_inv_init : key_inv init_world.
Proof. split; cbn; [constructor|set_solver]. Qed.

Lemma reachable_refines `{!UuidOk env} w :
  reachable w → key_inv w ∧ steps empty_queue (abs (w_st w)).
Proof.
  induction 1 as [|w o Hw [Hinv Hs]].
  - split; [apply key_inv_init|constructor].
  - destruct (exec_refines o w Hinv) as [Hinv' Hs']. split; [done|]. unfold steps in *. by etrans.
Qed.

Lemma reachable_queue_inv `{!UuidOk env} w : reachable w → queue_inv (abs (w_st w)).
Proof.
  intros [_ Hs]%reachable_refines. eapply steps_queue_inv; [exact Hs|apply queue_inv_empty].
Qed.
End refines.

#[export] Hint Resolve keeps_assertContext keeps_assertConversationOwner keeps_scopedRun
  keeps_requireLeasedRun keeps_requireBrowserAction keeps_assertActionConnection
  keeps_assertBrowserConnectionToken keeps_listRunSteps keeps_claimed_result
  keeps_result_replay keeps_enqueue_existing keeps_live_records
  keeps_base_core keeps_base_ledger
  base_alter_connection base_alter_action base_connect base_heartbeat base_setGrant base_getGrant
  base_listBrowserEvents base_receipt base_push_step base_apply_output base_persist_action base_redact
  base_remember base_accept_existing core_appendEventRecord core_assertOrSet core_appendEvent : keeps.
