(* ===== verification/RuntimeLedger.v ===== *)
(** * The runtime store's ledger

    What the store remembers of accepted messages: messages, run contexts,
    idempotency records, events and conversation owners.  In every reachable
    state each run is backed by all of them, so a retried request finds the run
    it created, a claimed run finds its history, and the events of an actor are
    numbered without gaps. *)
From S2P Require Import Prelude ScopeKeys RuntimeTypes RuntimeStore TurnQueue RuntimeRefines.

#[local] Arguments isConversationOwnedBy : simpl never.
#[local] Arguments messages_of : simpl never.
#[local] Arguments echo_message : simpl never.
#[local] Arguments is_echo_of : simpl never.
#[local] Arguments events_of : simpl never.

Section ledger.
Context {env : Env}.

(** ** What a newly accepted turn stores *)

Definition with_owner (c : TenantExecutionContext) (key : string)
    (owners : gmap string ConversationOwner) : gmap string ConversationOwner :=
  match owners !! key with
  | None => <[key := mkOwner (userId c) (actorId c)]> owners
  | Some _ => owners
  end.

Record new_turn (c : TenantExecutionContext) (key v : string) (w w' : World Store)
    (m : ConcurrentMessage) (run : ConcurrentRun) (ev : ConcurrentEvent) : Prop := {
  nt_ids : ∃ n, (w_uuid w ≤ n)%nat ∧ (S n < w_uuid w')%nat ∧
           msg_id m = random_uuid n ∧ run_id run = random_uuid (S n);
  nt_run : run_userMessageId run = msg_id m ∧ run_idempotencyKey run = key ∧
           run_organizationId run = organizationId c ∧ run_assistantId run = assistantId c ∧
           run_conversationId run = v ∧ lease_ok run;
  nt_event : is_echo_of (msg_id m) ev = true ∧
             ev_seq ev = default 0 (st_nextEventSequence (w_st w) !! actorScopeKey c) + 1;
  nt_owned : isConversationOwnedBy c (tenantConversationScopeKey c v) (w_st w) = true;
  nt_messages : st_messages (w_st w') =
    jset (tenantConversationScopeKey c v)
      (messages_of (tenantConversationScopeKey c v) (w_st w) ++ [m]) (st_messages (w_st w));
  nt_runs : st_runs (w_st w') = jset (runKey c (run_id run)) run (st_runs (w_st w));
  nt_contexts : st_runContexts (w_st w') =
    <[runKey c (run_id run) := run_context c v key]> (st_runContexts (w_st w));
  nt_idempotency : st_idempotency (w_st w') =
    <[idempotency_scope c key := run_id run]> (st_idempotency (w_st w));
  nt_events : st_events (w_st w') =
    <[actorScopeKey c := events_of (actorScopeKey c) (w_st w) ++ [ev]]> (st_events (w_st w));
  nt_nextEvent : st_nextEventSequence (w_st w') =
    <[actorScopeKey c := ev_seq ev]> (st_nextEventSequence (w_st w));
  nt_owners : st_conversationOwners (w_st w') =
    with_owner c (tenantConversationScopeKey c v) (st_conversationOwners (w_st w));
}.

Lemma assertOrSet_cases c k w :
  (∃ e, assertOrSetConversationOwner c k w = (inl e, w)) ∨
  (isConversationOwnedBy c k (w_st w) = true ∧
   assertOrSetConversationOwner c k w =
     (inr tt, mkWorld (w_clock w) (w_uuid w)
        (set_st_conversationOwners (with_owner c k (st_conversationOwners (w_st w))) (w_st w)))).
Proof.
  unfold assertOrSetConversationOwner, assertConversationOwner, isConversationOwnedBy, with_owner. mrun.
  destruct (st_conversationOwners (w_st w) !! k) as [o|] eqn:Ho; [|by right].
  rewrite Ho. destruct (_ && _); [right|left; by eexists]. split; [done|]. by destruct w as [? ? []].
Qed.

Lemma owned_with_owner c k owners s :
  st_conversationOwners s = with_owner c k owners →
  match owners !! k with
  | None => true
  | Some o => eqs (owner_userId o) (userId c) && eqs (owner_actorId o) (actorId c)
  end = true →
  isConversationOwnedBy c k s = true.
Proof.
  unfold isConversationOwnedBy, with_owner. intros ->. destruct (owners !! k) as [o|] eqn:Ho.
  - by rewrite Ho.
  - intros _. rewrite lookup_insert, decide_True by done. cbn. unfold eqs.
    by rewrite !bool_decide_eq_true_2.
Qed.

Lemma remember_ok k o w : (remember_onboarding k o w).1 = inr tt.
Proof. unfold remember_onboarding. mrun. destruct o; [|done]. by case_match. Qed.

Lemma is_echo_of_echo id m r c t v o a n :
  id = msg_id m → is_echo_of id (mkEvent c o a v n t (echo_message m r)) = true.
Proof.
  intros ->. unfold is_echo_of, echo_message. cbn.
  repeat (case_decide; simplify_eq/=).
  unfold eqs. by rewrite !bool_decide_eq_true_2.
Qed.

Lemma accept_new_cases c i key v w :
  (∃ e, accept_new c i key v w = (inl e, w)) ∨
  ∃ m run ev w', accept_new c i key v w = (inr (mkAccepted true v m run ev), w') ∧
                 new_turn c key v w w' m run ev.
Proof.
  unfold accept_new. destruct (conversation_conflict c i); [left; by eexists|]. mrun.
  destruct (assertOrSet_cases c (tenantConversationScopeKey c v) w) as [[e ->]|[Hown ->]];
    [left; by eexists|right].
  match goal with |- context [remember_onboarding ?k ?o ?w1] =>
    pose proof (remember_ok k o w1) as Hret; pose proof (base_remember k o w1) as Hb;
    destruct (remember_onboarding k o w1) as [res w2]; cbn in Hret, Hb; subst res
  end.
  destruct Hb as (Hb & Hu & _). unfold base, core, ledger in Hb. cbn in Hb, Hu.
  injection Hb as Hr Hn Hm Hc Hi He Hs Ho.
  unfold insert_turn, appendEventRecord, assertConversationOwner. mrun.
  rewrite (owned_with_owner c _ (st_conversationOwners (w_st w))) by done.
  cbn. do 4 eexists. split; [reflexivity|]. constructor; cbn.
  all: unfold messages_of, events_of; cbn; rewrite ?Hr, ?Hn, ?Hm, ?Hc, ?Hi, ?He, ?Hs, ?Ho; try done.
  - exists (w_uuid w2). split_and!; [lia..|done|done].
  - split; [|done]. by apply is_echo_of_echo.
Qed.

(** ** Growth of the ledger *)

(** Messages are never lost, contexts, idempotency records and owners never
    overwritten, and events only appended. *)
Record ledger_le (s s' : Store) : Prop := {
  ll_messages : ∀ k m, m ∈ messages_of k s → m ∈ messages_of k s';
  ll_contexts : st_runContexts s ⊆ st_runContexts s';
  ll_idempotency : st_idempotency s ⊆ st_idempotency s';
  ll_events : ∀ t, events_of t s `prefix_of` events_of t s';
  ll_owners : st_conversationOwners s ⊆ st_conversationOwners s';
}.

#[local] Instance ledger_le_preorder : PreOrder ledger_le.
Proof.
  split.
  - intros s. by constructor.
  - intros x y z [A1 A2 A3 A4 A5] [B1 B2 B3 B4 B5]. constructor; [auto|by transitivity (st_runContexts y)|
      by transitivity (st_idempotency y)| |by transitivity (st_conversationOwners y)].
    intros t. by transitivity (events_of t y).
Qed.

Lemma ledger_le_eq s s' : ledger s' = ledger s → ledger_le s s'.
Proof.
  unfold ledger. intros [= Hm Hc Hi He Hn Ho]. constructor; unfold messages_of, events_of.
  all: by rewrite ?Hm, ?Hc, ?Hi, ?He, ?Ho.
Qed.

(** The events of an actor are numbered 1, 2, 3, ... *)
Definition seq_from (n : Z) (l : list ConcurrentEvent) : Prop :=
  ∀ i e, l !! i = Some e → ev_seq e = n + Z.of_nat i.

Definition events_numbered (s : Store) : Prop :=
  ∀ t, seq_from 1 (events_of t s) ∧
       default 0 (st_nextEventSequence s !! t) = Z.of_nat (length (events_of t s)).

Lemma seq_from_snoc n l e :
  seq_from n l → ev_seq e = n + Z.of_nat (length l) → seq_from n (l ++ [e]).
Proof.
  intros Hl He i x. rewrite lookup_app_Some. intros [Hx|[Hge Hx]]; [by apply Hl|].
  apply list_lookup_singleton_Some in Hx as [Hi <-]. rewrite He. lia.
Qed.

(** One event appended by its actor. *)
Lemma events_numbered_append t ev s s' :
  events_numbered s →
  ev_seq ev = default 0 (st_nextEventSequence s !! t) + 1 →
  st_events s' = <[t := events_of t s ++ [ev]]> (st_events s) →
  st_nextEventSequence s' = <[t := ev_seq ev]> (st_nextEventSequence s) →
  events_numbered s'.
Proof.
  intros Hs Hseq He Hn t'. unfold events_of at 1 2. rewrite He, Hn, !lookup_insert.
  destruct (Hs t) as [H1 H2]. case_decide; subst; cbn; [|apply Hs]. split.
  - apply seq_from_snoc; [done|]. lia.
  - rewrite length_app. cbn. lia.
Qed.

Lemma events_prefix_append t ev s s' :
  st_events s' = <[t := events_of t s ++ [ev]]> (st_events s) →
  ∀ t', events_of t' s `prefix_of` events_of t' s'.
Proof.
  intros He t'. unfold events_of at 2. rewrite He, lookup_insert.
  case_decide; subst; cbn; [by apply prefix_app_r|done].
Qed.

(** ** The invariant *)

(** A run with everything that was stored when it was accepted. *)
Definition backed (s : Store) (k : string) (r : ConcurrentRun) : Prop :=
  ∃ c, k = runKey c (run_id r) ∧
    run_organizationId r = organizationId c ∧ run_assistantId r = assistantId c ∧
    st_runContexts s !! k = Some (run_context c (run_conversationId r) (run_idempotencyKey r)) ∧
    (∃ m, m ∈ messages_of (conv_key r) s ∧ msg_id m = run_userMessageId r) ∧
    (∃ e, e ∈ events_of (actorScopeKey c) s ∧ is_echo_of (run_userMessageId r) e = true) ∧
    st_idempotency s !! idempotency_scope c (run_idempotencyKey r) = Some (run_id r) ∧
    st_conversationOwners s !! conv_key r = Some (mkOwner (userId c) (actorId c)).

Record ledger_inv (s : Store) : Prop := {
  li_runs : ∀ k r, jget k (st_runs s) = Some r → lease_ok r ∧ backed s k r;
  li_idempotency : ∀ c key id, st_idempotency s !! idempotency_scope c key = Some id →
    id ≠ "" ∧ ∃ r, jget (runKey c id) (st_runs s) = Some r ∧ run_id r = id ∧ run_idempotencyKey r = key;
  li_contexts : ∀ k, is_Some (st_runContexts s !! k) → is_Some (jget k (st_runs s));
  li_events : events_numbered s;
}.

Lemma backed_grows s s' k r r' :
  ledger_le s s' → run_identity r' = run_identity r → backed s k r → backed s' k r'.
Proof.
  intros [Hm Hc Hi He Ho] Hid (c & Hk & Horg & Has & Hctx & (m & Hin & Hmid) & (e & Hein & Hecho) & Hidem & Hown).
  unfold run_identity in Hid. injection Hid as H1 H2 H3 H4 H5 H6 H7 H8 H9.
  assert (Hck : conv_key r' = conv_key r) by (unfold conv_key; by rewrite H2, H3, H4).
  exists c. rewrite H1, H2, H3, H4, H6, H7, Hck. split_and!; [done..| | | | |].
  - by eapply lookup_weaken.
  - eauto.
  - exists e. split; [|done]. destruct (He (actorScopeKey c)) as [l ->]. apply elem_of_app. by left.
  - by eapply lookup_weaken.
  - by eapply lookup_weaken.
Qed.

(** Methods other than a new acceptance. *)
Definition calm (w w' : World Store) : Prop :=
  good w w' ∧ ledger_le (w_st w) (w_st w') ∧ st_idempotency (w_st w') = st_idempotency (w_st w)
  ∧ st_runContexts (w_st w') = st_runContexts (w_st w)
  ∧ (events_numbered (w_st w) → events_numbered (w_st w')).

Lemma ledger_inv_calm w w' : ledger_inv (w_st w) → calm w w' → ledger_inv (w_st w').
Proof.
  intros [Hr Hi Hc He] ((_ & _ & Hev & _) & Hle & Hidem & Hctx & Hnum). constructor; [| | |auto].
  - intros k r' Hk'. specialize (Hev k). rewrite Hk' in Hev.
    destruct (jget k (st_runs (w_st w))) as [r|] eqn:Hk; inversion Hev as [? ? (Hid & Hl & _)|]; subst.
    destruct (Hr k r Hk) as [Hlo Hb]. split; [auto|]. by eapply backed_grows.
  - intros c key id. rewrite Hidem. intros Hlook. destruct (Hi c key id Hlook) as (Hne & r & Hk & Hrid & Hkey).
    split; [done|]. specialize (Hev (runKey c id)). rewrite Hk in Hev.
    inversion Hev as [? r' (Hid & _ & _) Heq1 Heq2|]; subst. exists r'.
    unfold run_identity in Hid. injection Hid as H1 H2 H3 H4 H5 H6 H7 H8 H9.
    split_and!; congruence.
  - intros k. rewrite Hctx. intros [r Hk]%Hc. specialize (Hev k). rewrite Hk in Hev.
    inversion Hev. eauto.
Qed.

(** ** Methods that leave the ledger alone *)

Lemma ledger_park c i : keeps ledger (park_run c i).
Proof. unfold park_run, alter_run. solve_keeps. Qed.
#[local] Hint Resolve ledger_park : keeps.
Lemma ledger_enqueue_commit c i x g cn se : keeps ledger (enqueue_commit c i x g cn se).
Proof. unfold enqueue_commit. solve_keeps. Qed.
#[local] Hint Resolve ledger_enqueue_commit : keeps.
Lemma ledger_enqueue_new c i x : keeps ledger (enqueue_new c i x).
Proof. unfold enqueue_new. solve_keeps. Qed.
#[local] Hint Resolve ledger_enqueue_new : keeps.
Lemma ledger_enqueue c i : keeps ledger (enqueueBrowserAction c i).
Proof. unfold enqueueBrowserAction. solve_keeps. Qed.
Lemma ledger_result c r h : keeps ledger (recordBrowserResult c r h).
Proof. unfold recordBrowserResult, alter_run. solve_keeps. Qed.
Lemma ledger_claim c r o e : keeps ledger (claimRun c r o e).
Proof. unfold claimRun, alter_run. solve_keeps. Qed.
Lemma ledger_renew c r o e : keeps ledger (renewRunLease c r o e).
Proof. unfold renewRunLease, alter_run. solve_keeps. Qed.
Lemma ledger_fail c r i : keeps ledger (failRun c r i).
Proof. unfold failRun, alter_run. solve_keeps. Qed.
Lemma ledger_cancel c r : keeps ledger (cancelRun c r).
Proof. unfold cancelRun, alter_run. solve_keeps. Qed.
Lemma ledger_cancel_each c v l : keeps ledger (cancel_each c v l).
Proof. induction l as [|[k r] l IH]; cbn; unfold alter_run; solve_keeps. Qed.
#[local] Hint Resolve ledger_cancel_each : keeps.
Lemma ledger_cancelConversation c v : keeps ledger (cancelConversationRuns c v).
Proof. unfold cancelConversationRuns. solve_keeps. Qed.

Lemma same_ledger_calm w w' : good w w' → same ledger w w' → calm w w'.
Proof.
  intros Hg (Hl & _). assert (Hle := ledger_le_eq _ _ Hl).
  unfold ledger in Hl. injection Hl as Hm Hc Hi He Hn Ho. split_and!; [done..|].
  unfold events_numbered, events_of. by rewrite He, Hn.
Qed.

(** ** Methods that extend the ledger *)

Lemma ledger_le_messages k l s s' :
  (∀ m, m ∈ messages_of k s → m ∈ l) →
  ledger s' = ledger (set_st_messages (jset k l (st_messages s)) s) → ledger_le s s'.
Proof.
  intros Hl. unfold ledger. cbn. intros [= Hm Hc Hi He Hn Ho]. constructor; rewrite ?Hc, ?Hi, ?Ho; try done.
  - intros k' m. unfold messages_of at 2. rewrite Hm, jget_jset. case_decide; subst; cbn; [apply Hl|done].
  - intros t. unfold events_of. by rewrite He.
Qed.

Lemma elem_of_insert_at {A} i (x y : A) l : y ∈ l → y ∈ js_insert_at i x l.
Proof.
  intros Hy. unfold js_insert_at. rewrite elem_of_app, elem_of_cons.
  rewrite <-(take_drop i l), elem_of_app in Hy. tauto.
Qed.

Lemma calm_complete c r i w : calm w (completeRun c r i w).2.
Proof.
  pose proof (good_complete c r i w) as Hg. split; [exact Hg|]. clear Hg.
  unfold completeRun, requireLeasedRun. mrun.
  destruct (scopedRun_cases c r w) as [->|[? ->]]; cbn; [|by split_and!].
  destruct (jget (runKey c r) (st_runs (w_st w))) as [x|] eqn:Hx; [|by split_and!].
  destruct (_ || _) eqn:Hgd; [by split_and!|]. cbn.
  case_match; [|by split_and!]. cbn.
  split_and!; [|done..].
  eapply ledger_le_messages; [|reflexivity]. intros m. apply elem_of_insert_at.
Qed.

Lemma appendEventRecord_cases c v m w :
  (∃ e, appendEventRecord c v m w = (inl e, w)) ∨
  ∃ ev w', appendEventRecord c v m w = (inr ev, w') ∧
    ev_seq ev = default 0 (st_nextEventSequence (w_st w) !! actorScopeKey c) + 1 ∧
    ev_message ev = m ∧ ev_conversationId ev = v ∧
    w_st w' = set_st_events (<[actorScopeKey c := events_of (actorScopeKey c) (w_st w) ++ [ev]]> (st_events (w_st w)))
      (set_st_nextEventSequence (<[actorScopeKey c := ev_seq ev]> (st_nextEventSequence (w_st w))) (w_st w)).
Proof.
  unfold appendEventRecord. mrun.
  destruct (assertConversationOwner_cases c (tenantConversationScopeKey c v) w) as [->|[e ->]];
    [right|left; by eexists].
  do 2 eexists. split; [reflexivity|]. by split_and!.
Qed.

Lemma calm_appendEvent c v m w : calm w (appendEvent c v m w).2.
Proof.
  split; [apply keeps_core_good; auto with keeps|]. unfold appendEvent. mrun.
  destruct (assertContext_cases c w) as [->|[? ->]]; cbn; [|by split_and!].
  destruct (appendEventRecord_cases c v m w) as [[e ->]|(ev & w' & -> & Hseq & _ & _ & Hw)]; [by split_and!|].
  cbn. rewrite Hw. split_and!; [|done|done|].
  - constructor; try done. by apply (events_prefix_append (actorScopeKey c) ev).
  - intros Hn. by eapply events_numbered_append.
Qed.

Lemma exec_calm o w : accepts o = false → NoDup (jkeys (st_runs (w_st w))) → calm w (exec o w).
Proof.
  intros Ha Hnd. pose proof (exec_good o w Ha Hnd) as Hg. destruct (is_query o) eqn:Hq.
  { apply same_ledger_calm; [done|by apply query_same]. }
  destruct o; try discriminate Ha; try discriminate Hq; cbn [exec] in *;
    auto using calm_complete, calm_appendEvent.
  all: apply same_ledger_calm; [exact Hg|].
  all: lazymatch goal with |- same _ _ (?m _).2 => enough (Hk : keeps ledger m) by apply Hk end.
  all: auto using ledger_enqueue, ledger_result, ledger_claim, ledger_renew, ledger_fail, ledger_cancel,
    ledger_cancelConversation with keeps.
Qed.

(** ** New acceptances *)

(** The two ways [acceptMessage] ends: nothing new is stored, or one turn is. *)
Lemma acceptMessage_cases c i w :
  let key := idempotency_key c i in
  let '(res, w') := acceptMessage c i w in
  let existing := st_idempotency (w_st w) !! idempotency_scope c key in
  (same base w w' ∧
   ((∃ e, res = inl e) ∨ truthy_opt existing = true ∧ accept_existing c i (default "" existing) w = (res, w'))) ∨
  ∃ v m run ev w0, res = inr (mkAccepted true v m run ev) ∧ same base w w0 ∧
    truthy_opt (st_idempotency (w_st w) !! idempotency_scope c key) = false ∧
    new_turn c key v w0 w' m run ev.
Proof.
  unfold acceptMessage. mrun. destruct (assertContext_cases c w) as [->|[? ->]]; cbn; [|left; split; [done|eauto]].
  destruct (truthy_opt _) eqn:Hex.
  { pose proof (base_accept_existing c i (default "" (st_idempotency (w_st w)
      !! idempotency_scope c (idempotency_key c i))) w) as Hb.
    destruct (accept_existing _ _ _ w) as [res w']. left. split; [exact Hb|eauto]. }
  destruct (nullish _ _) as [v|].
  - destruct (accept_new_cases c i (idempotency_key c i) v w) as [[e ->]|(m & run & ev & w' & -> & Hn)];
      [left; split; [done|eauto]|right].
    exists v, m, run, ev, w. by split_and!.
  - set (w0 := mkWorld (w_clock w) (S (w_uuid w)) (w_st w)).
    assert (Hs : same base w w0) by (split_and!; cbn; [done|lia|lia]).
    destruct (accept_new_cases c i (idempotency_key c i) (random_uuid (w_uuid w)) w0)
      as [[e ->]|(m & run & ev & w' & -> & Hn)]; [left; split; [done|eauto]|right].
    exists (random_uuid (w_uuid w)), m, run, ev, w0. by split_and!.
Qed.

Lemma with_owner_subseteq c k owners : owners ⊆ with_owner c k owners.
Proof. unfold with_owner. destruct (owners !! k) eqn:Ho; [done|]. by apply insert_subseteq. Qed.

Lemma with_owner_lookup c k s :
  isConversationOwnedBy c k s = true →
  with_owner c k (st_conversationOwners s) !! k = Some (mkOwner (userId c) (actorId c)).
Proof.
  unfold isConversationOwnedBy, with_owner, eqs.
  destruct (st_conversationOwners s !! k) as [[u a]|] eqn:Ho; cbn.
  - rewrite Ho, andb_true_iff, !bool_decide_eq_true. by intros [-> ->].
  - intros _. by rewrite lookup_insert, decide_True.
Qed.

Section new_turn.
Context `{!UuidOk env} (c : TenantExecutionContext) (key v : string) (w w' : World Store)
  (m : ConcurrentMessage) (run : ConcurrentRun) (ev : ConcurrentEvent).
Hypothesis Hnew : new_turn c key v w w' m run ev.
Hypothesis Hkeys : key_inv w.
Hypothesis Hinv : ledger_inv (w_st w).
Hypothesis Hfirst : truthy_opt (st_idempotency (w_st w) !! idempotency_scope c key) = false.

Lemma new_turn_run_fresh : jget (runKey c (run_id run)) (st_runs (w_st w)) = None.
Proof.
  destruct (nt_ids _ _ _ _ _ _ _ _ Hnew) as (n & Hn & _ & _ & ->).
  apply accepted_turn_fresh; [done|lia].
Qed.

Lemma new_turn_context_fresh : st_runContexts (w_st w) !! runKey c (run_id run) = None.
Proof.
  destruct (st_runContexts _ !! _) eqn:Hc; [|done].
  destruct (li_contexts _ Hinv (runKey c (run_id run))) as [r Hr]; [by rewrite Hc|].
  rewrite new_turn_run_fresh in Hr. discriminate.
Qed.

Lemma new_turn_idempotency_fresh : st_idempotency (w_st w) !! idempotency_scope c key = None.
Proof.
  destruct (st_idempotency _ !! _) as [id|] eqn:Hi; [|done].
  apply (li_idempotency _ Hinv) in Hi as [Hne _]. cbn in Hfirst. unfold truthy in Hfirst.
  apply negb_false_iff, String.eqb_eq in Hfirst. done.
Qed.

Lemma new_turn_le : ledger_le (w_st w) (w_st w').
Proof.
  destruct Hnew as [_ _ _ _ Hm Hr Hc Hi He Hn Ho]. constructor.
  - intros k x Hx. unfold messages_of. rewrite Hm, jget_jset. case_decide; subst; [|done].
    cbn. apply elem_of_app. by left.
  - rewrite Hc. apply insert_subseteq, new_turn_context_fresh.
  - rewrite Hi. apply insert_subseteq, new_turn_idempotency_fresh.
  - by apply (events_prefix_append (actorScopeKey c) ev).
  - rewrite Ho. apply with_owner_subseteq.
Qed.

Lemma new_turn_conv_key : conv_key run = tenantConversationScopeKey c v.
Proof.
  destruct Hnew as [_ (_ & _ & Horg & Has & Hv & _) _ _ _ _ _ _ _ _ _].
  unfold conv_key, tenantConversationScopeKey. by rewrite Horg, Has, Hv.
Qed.

Lemma new_turn_backed : backed (w_st w') (runKey c (run_id run)) run.
Proof.
  pose proof new_turn_conv_key as Hck.
  destruct Hnew as [_ (Hum & Hkey & Horg & Has & Hv & _) [Hecho _] Hown Hm Hr Hc Hi He Hn Ho].
  exists c. rewrite Hck, Hkey, Hv, Hc, Hi, Ho, Hum. split_and!; try done.
  - by rewrite lookup_insert, decide_True.
  - exists m. split; [|done]. unfold messages_of at 1. rewrite Hm, jget_jset_eq. cbn. set_solver.
  - exists ev. split; [|done]. unfold events_of at 1. rewrite He, lookup_insert, decide_True by done.
    cbn. set_solver.
  - by rewrite lookup_insert, decide_True.
  - by apply with_owner_lookup.
Qed.

Lemma ledger_inv_new_turn : ledger_inv (w_st w').
Proof.
  pose proof new_turn_le as Hle. pose proof new_turn_backed as Hb.
  pose proof new_turn_run_fresh as Hfresh.
  destruct (nt_ids _ _ _ _ _ _ _ _ Hnew) as (n & _ & _ & _ & Hid).
  destruct (nt_run _ _ _ _ _ _ _ _ Hnew) as (_ & Hkey & _ & _ & _ & Hlease).
  pose proof (nt_runs _ _ _ _ _ _ _ _ Hnew) as Hr. constructor.
  - intros k r. rewrite Hr, jget_jset. case_decide; subst; [intros [= <-]; by split|].
    intros Hk. destruct (li_runs _ Hinv k r Hk) as [Hl Hbk]. split; [done|]. by eapply backed_grows.
  - intros c' key' id. rewrite (nt_idempotency _ _ _ _ _ _ _ _ Hnew), lookup_insert, Hr.
    case_decide as Hs.
    + intros [= <-]. apply actorKey_inj in Hs as [Hac Hkk]. split; [rewrite Hid; apply uuid_nonempty|].
      exists run. subst key'. split_and!; [|done..].
      replace (runKey c' (run_id run)) with (runKey c (run_id run)); [apply jget_jset_eq|].
      unfold runKey, actorKey. by rewrite Hac.
    + intros Hi. destruct (li_idempotency _ Hinv c' key' id Hi) as (Hne & r & Hk & Hrest).
      split; [done|]. exists r. rewrite jget_jset_ne; [done|]. intros Heq. congruence.
  - intros k. rewrite (nt_contexts _ _ _ _ _ _ _ _ Hnew), Hr, lookup_insert, jget_jset.
    case_decide; [done|]. apply (li_contexts _ Hinv).
  - destruct (nt_event _ _ _ _ _ _ _ _ Hnew) as [_ Hseq].
    eapply events_numbered_append; [apply (li_events _ Hinv)|exact Hseq|apply Hnew|apply Hnew].
Qed.
End new_turn.

(** ** Reachable states *)

Lemma key_inv_same w w' : same base w w' → key_inv w → key_inv w'.
Proof.
  intros (Hb & Hu & _) [Hnd Hk]. unfold base, core in Hb. injection Hb as Hr _ _ _ _ _ _ _.
  split; rewrite Hr; [done|]. intros k Hin. destruct (Hk k Hin) as (c & n & -> & Hn).
  exists c, n. split; [done|lia].
Qed.

Lemma same_base_good w w' : same base w w' → good w w'.
Proof. intros (Hb & ? & ?). apply same_core_good. split_and!; [exact (f_equal fst Hb)|done..]. Qed.

Lemma same_base_calm w w' : same base w w' → calm w w'.
Proof.
  intros Hb. apply same_ledger_calm; [by apply same_base_good|].
  destruct Hb as (Hb & ? & ?). split_and!; [exact (f_equal snd Hb)|done..].
Qed.

(** What every method does to the ledger. *)
Lemma exec_ledger `{!UuidOk env} o w :
  key_inv w → ledger_inv (w_st w) →
  ledger_inv (w_st (exec o w)) ∧ ledger_le (w_st w) (w_st (exec o w)).
Proof.
  intros Hkey Hinv. destruct (accepts o) eqn:Ha; last first.
  { assert (Hc : calm w (exec o w)) by (apply exec_calm; [done|apply Hkey]).
    split; [by eapply ledger_inv_calm|apply Hc]. }
  destruct o; try discriminate Ha. cbn [exec]. pose proof (acceptMessage_cases c input w) as Hcase.
  destruct (acceptMessage c input w) as [res w']. cbn.
  destruct Hcase as [[Hs _]|(v & m & run & ev & w0 & -> & Hs & Hex & Hnew)].
  { assert (Hc : calm w w') by by apply same_base_calm.
    split; [by eapply ledger_inv_calm|apply Hc]. }
  assert (Hc : calm w w0) by by apply same_base_calm.
  assert (Hinv0 : ledger_inv (w_st w0)) by by eapply ledger_inv_calm.
  assert (Hkey0 : key_inv w0) by by eapply key_inv_same.
  destruct Hc as (_ & Hle & Hi & _). rewrite <-Hi in Hex. split.
  - by eapply ledger_inv_new_turn.
  - etrans; [exact Hle|]. by eapply new_turn_le.
Qed.

Lemma ledger_inv_init : ledger_inv (w_st init_world).
Proof.
  constructor; [done|done|by intros k [? ?]|].
  intros t. split; [intros i e|]; unfold events_of; cbn; by rewrite ?lookup_empty.
Qed.

Lemma reachable_inv `{!UuidOk env} w : reachable w → key_inv w ∧ ledger_inv (w_st w).
Proof.
  induction 1 as [|w o Hw [Hk Hl]]; [split; [apply key_inv_init|apply ledger_inv_init]|].
  split; [by apply exec_refines|by apply exec_ledger].
Qed.

(** Method calls in sequence. *)
Definition exec_all (ops : list Op) (w : World Store) : World Store := fold_left (λ w o, exec o w) ops w.

Lemma reachable_all ops w : reachable w → reachable (exec_all ops w).
Proof. revert w. induction ops as [|o ops IH]; intros w Hw; [done|]. apply IH. by constructor. Qed.

Lemma exec_all_ledger `{!UuidOk env} ops w :
  reachable w → ledger_le (w_st w) (w_st (exec_all ops w)).
Proof.
  revert w. induction ops as [|o ops IH]; intros w Hw; [done|]. cbn.
  destruct (reachable_inv w Hw) as [Hk Hl].
  etrans; [by apply (exec_ledger o w Hk Hl)|]. apply IH. by constructor.
Qed.

(** A run evolves over any sequence of calls. *)
Lemma exec_run_evolves `{!UuidOk env} o w k r :
  key_inv w → jget k (st_runs (w_st w)) = Some r →
  ∃ r', jget k (st_runs (w_st (exec o w))) = Some r' ∧ run_evolves r r'.
Proof.
  intros Hkey Hk. destruct (exec_effect o w Hkey) as [(_ & _ & Hev & _)|Hacc].
  - specialize (Hev k). rewrite Hk in Hev. inversion Hev; subst. eauto.
  - destruct Hacc as (c & n & run & Hlt & _ & _ & _ & _ & [= Hr _]). exists r. split; [|done].
    rewrite Hr, jget_jset_ne; [done|]. intros <-.
    rewrite (accepted_turn_fresh c n w Hkey) in Hk; [done|lia].
Qed.

Lemma exec_all_run_evolves `{!UuidOk env} ops w k r :
  reachable w → jget k (st_runs (w_st w)) = Some r →
  ∃ r', jget k (st_runs (w_st (exec_all ops w))) = Some r' ∧ run_evolves r r'.
Proof.
  revert w r. induction ops as [|o ops IH]; intros w r Hw Hk; [by exists r|]. cbn.
  destruct (reachable_inv w Hw) as [Hkey _].
  destruct (exec_run_evolves o w k r Hkey Hk) as (r1 & Hk1 & Hev1).
  destruct (IH (exec o w) r1) as (r2 & Hk2 & Hev2); [by constructor|done|].
  exists r2. split; [done|]. by etrans.
Qed.
End ledger.
