(* ===== verification/Demo.v ===== *)
(** * A concrete environment

    A clock that ticks once per reading and identifiers u0, u1, u2, ...: the
    environment of the concrete runs that accompany the theorems. *)
From stdpp Require Import pretty.
From S2P Require Import Prelude ScopeKeys.

#[export] Instance demo_env : Env := {|
  date_now n := Z.of_nat n;
  random_uuid n := String "u" (pretty n);
|}.

#[export] Instance demo_uuid : UuidOk demo_env.
Proof. split; [|discriminate]. intros n m [= Heq]. by apply (inj pretty). Qed.

#[export] Instance demo_clock : ClockOk demo_env.
Proof. split. intros i j Hij. cbn. lia. Qed.

Definition demo_ctx : TenantExecutionContext :=
  Build_TenantExecutionContext "org" "user" "asst" "actor" "req1" None None 1 1 1.
