(* ===== verification/RuntimeProps.v ===== *)
(** * Properties of the concurrent runtime store

    The guarantees the workers and the HTTP layer rely on, for every state the
    store can reach from empty by any sequence of method calls. *)
From S2P Require Import Prelude ScopeKeys RuntimeTypes RuntimeStore TurnQueue RuntimeRefines RuntimeLedger Demo.

#[local] Arguments isConversationOwnedBy : simpl never.
#[local] Arguments messages_of : simpl never.
#[local] Arguments events_of : simpl never.
#[local] Arguments is_echo_of : simpl never.

(** A run some worker holds, or that waits for the browser. *)
Definition run_started (r : ConcurrentRun) : Prop :=
  run_status r = processing ∨ run_status r = waiting_for_browser.

Definition same_conv (r1 r2 : ConcurrentRun) : Prop :=
  run_organizationId r1 = run_organizationId r2 ∧ run_assistantId r1 = run_assistantId r2
  ∧ run_conversationId r1 = run_conversationId r2.

Section props.
Context {env : Env}.

(** ** Helper lemmas *)

Lemma same_conv_key r1 r2 : same_conv r1 r2 → conv_key r1 = conv_key r2.
Proof. intros (H1 & H2 & H3). unfold conv_key. by rewrite H1, H2, H3. Qed.

Lemma same_conv_sym r1 r2 : same_conv r1 r2 → same_conv r2 r1.
Proof. intros (H1 & H2 & H3). by split_and!. Qed.

Lemma same_conv_bool r1 r2 : same_conv r1 r2 → same_conversation r1 r2 = true.
Proof. intros (H1 & H2 & H3). unfold same_conversation, eqs. by rewrite !bool_decide_eq_true_2. Qed.

Lemma started_abs r : run_started r → started (abs_run r).
Proof.
  unfold run_started, started, abs_run, phase_of. cbn.
  intros [->| ->]; [right; eauto|by left].
Qed.

Lemma started_nonterminal r : run_started r → is_nonterminal (run_status r) = true.
Proof. by intros [-> | ->]. Qed.

(** The runs before a started one have ended. *)
Lemma started_first `{!UuidOk env} w k1 k2 r1 r2 :
  reachable w → jget k1 (st_runs (w_st w)) = Some r1 → jget k2 (st_runs (w_st w)) = Some r2 →
  same_conv r1 r2 → run_started r2 → run_turnSequence r1 < run_turnSequence r2 →
  is_nonterminal (run_status r1) = false.
Proof.
  intros Hw H1 H2 Hc Hs Hlt. destruct (is_nonterminal (run_status r1)) eqn:Hn; [|done].
  exfalso. apply (is_nonterminal_phase r1 Hn).
  eapply (qi_serial _ (reachable_queue_inv w Hw) k1 k2); [by apply abs_lookup..|by apply started_abs|].
  split; [by apply same_conv_key|done].
Qed.

Lemma started_same_key `{!UuidOk env} w k1 k2 r1 r2 :
  reachable w → jget k1 (st_runs (w_st w)) = Some r1 → jget k2 (st_runs (w_st w)) = Some r2 →
  same_conv r1 r2 → run_turnSequence r1 = run_turnSequence r2 → k1 = k2.
Proof.
  intros Hw H1 H2 Hc He. eapply (qi_unique _ (reachable_queue_inv w Hw)); [by apply abs_lookup..| |done].
  by apply same_conv_key.
Qed.

(** A call that has no effect on the store: it threw, or returned [a]. *)
Definition no_effect {A} (m : RT A) (a : A) (w : World Store) : Prop :=
  (∃ er, m w = (inl er, w)) ∨ ((m w).1 = inr a ∧ w_st (m w).2 = w_st w).

Lemma claim_refused c r o e w run :
  jget (runKey c r) (st_runs (w_st w)) = Some run →
  claimable (date_now (w_clock w)) run = false ∨ earlier_nonterminal run (w_st w) = true →
  no_effect (claimRun c r o e) None w.
Proof.
  intros Hr Hno. unfold claimRun, no_effect. mrun.
  destruct (assertContext_cases c w) as [->|[? ->]]; cbn; [|left; by eexists].
  rewrite Hr. destruct (assertConversationOwner_cases c (tenantConversationScopeKey c (run_conversationId run)) w)
    as [->|[? ->]]; cbn; [|left; by eexists].
  right. destruct (claimable _ run) eqn:Hc; cbn; [|done]. destruct Hno as [Hno|Hno]; [congruence|].
  by rewrite Hno.
Qed.

Lemma earlier_found r1 run k w :
  jget k (st_runs (w_st w)) = Some r1 → same_conv r1 run → run_turnSequence r1 < run_turnSequence run →
  is_nonterminal (run_status r1) = true → earlier_nonterminal run (w_st w) = true.
Proof.
  intros Hk Hc Hlt Hn. apply existsb_exists. exists r1. split; [apply list_elem_of_In; eauto with jsmap|].
  rewrite same_conv_bool, Hn, andb_true_r by done. by apply Z.ltb_lt.
Qed.

Lemma findIndex_Some {A} (p : A → bool) l x : x ∈ l → p x = true →
  ∃ i y, js_findIndex p l = Some i ∧ l !! i = Some y ∧ p y = true.
Proof.
  induction l as [|a l IH]; [set_solver|]. intros Hx Hp. cbn.
  destruct (p a) eqn:Ha; [by exists 0%nat, a|]. apply elem_of_cons in Hx as [->|Hx]; [congruence|].
  destruct (IH Hx Hp) as (i & y & -> & Hy & Hpy). by exists (S i), y.
Qed.

Lemma find_Some {A} (p : A → bool) l x : x ∈ l → p x = true →
  ∃ y, js_find p l = Some y ∧ y ∈ l ∧ p y = true.
Proof.
  induction l as [|a l IH]; [set_solver|]. intros Hx Hp. cbn.
  destruct (p a) eqn:Ha; [exists a; set_solver|]. apply elem_of_cons in Hx as [->|Hx]; [congruence|].
  destruct (IH Hx Hp) as (y & -> & Hy & Hpy). exists y. set_solver.
Qed.

(** A backed run, seen from a context that finds it. *)
Lemma backed_found w c id r :
  ledger_inv (w_st w) → jget (runKey c id) (st_runs (w_st w)) = Some r →
  run_id r = id ∧ conv_key r = tenantConversationScopeKey c (run_conversationId r) ∧
  ∃ c0, actorScopeKey c0 = actorScopeKey c ∧ backed (w_st w) (runKey c0 (run_id r)) r
    ∧ runKey c0 (run_id r) = runKey c id
    ∧ st_runContexts (w_st w) !! runKey c id = Some (run_context c0 (run_conversationId r) (run_idempotencyKey r)).
Proof.
  intros Hinv Hk. destruct (li_runs _ Hinv _ _ Hk) as [_ Hb]. pose proof Hb as (c0 & Heq & Ho & Ha & Hctx & _).
  pose proof Heq as Hac. apply actorKey_inj in Hac as [Hac Hid].
  pose proof (actorScopeKey_inj _ _ Hac) as Hsc. rewrite Heq in Hb. split_and!; [done|..].
  - unfold conv_key, tenantConversationScopeKey. rewrite Ho, Ha. by destruct Hsc as (-> & -> & _).
  - exists c0. split_and!; [done|done|done|]. done.
Qed.

(** What a successful claim returns. *)
Definition claim_granted (c : TenantExecutionContext) (runId leaseOwner : string) (leaseExpiresAt : Z)
    (w w' : World Store) (cl : ClaimedConcurrentRun) : Prop :=
  ∃ run i user,
    jget (runKey c runId) (st_runs (w_st w)) = Some run ∧
    claimable (date_now (w_clock w)) run = true ∧
    (∀ k r, jget k (st_runs (w_st w)) = Some r → same_conv r run →
       run_turnSequence r < run_turnSequence run → is_nonterminal (run_status r) = false) ∧
    cl_run cl = claim_update leaseOwner leaseExpiresAt (date_now (S (w_clock w))) run ∧
    st_runs (w_st w') = jalter (λ _, cl_run cl) (runKey c runId) (st_runs (w_st w)) ∧
    let history := messages_of (tenantConversationScopeKey c (run_conversationId run)) (w_st w) in
    history !! i = Some user ∧ msg_id user = run_userMessageId run ∧
    cl_messages cl = take (S i) history ∧
    st_runContexts (w_st w) !! runKey c runId = Some (cl_context cl).

Definition is_invalid_state (e : StoreError) : bool :=
  match e with mkStoreError _ invalid_state => true | _ => false end.

Lemma claimed_result_ok w c id r upd :
  ledger_inv (w_st w) → jget (runKey c id) (st_runs (w_st w)) = Some r →
  run_identity upd = run_identity r →
  let w1 := mkWorld (S (S (w_clock w))) (w_uuid w)
              (set_st_runs (jalter (λ _, upd) (runKey c id) (st_runs (w_st w))) (w_st w)) in
  assertContext c w = (inr tt, w) →
  assertConversationOwner c (tenantConversationScopeKey c (run_conversationId r)) w = (inr tt, w) →
  ∃ cl i user, claimed_result c id upd w1 = (inr (Some cl), w1) ∧
    let history := messages_of (tenantConversationScopeKey c (run_conversationId r)) (w_st w) in
    history !! i = Some user ∧ msg_id user = run_userMessageId r ∧
    cl_run cl = upd ∧ cl_messages cl = take (S i) history ∧
    st_runContexts (w_st w) !! runKey c id = Some (cl_context cl).
Proof.
  intros Hinv Hk Hid w1 Hctx0 Hown.
  destruct (backed_found w c id r Hinv Hk) as (Hrid & Hck & c0 & _ & Hb & _ & Hctx).
  destruct Hb as (c1 & _ & _ & _ & _ & (m & Hm & Hmid) & _).
  unfold run_identity in Hid. injection Hid as H1 H2 H3 H4 H5 H6 H7 H8 H9.
  rewrite Hck in Hm.
  destruct (findIndex_Some (λ m, eqs (msg_id m) (run_userMessageId r)) _ m Hm) as (i & user & Hfind & Hi & Huser).
  { unfold eqs. by apply bool_decide_eq_true_2. }
  apply bool_decide_eq_true in Huser.
  unfold claimed_result. mrun. rewrite Hctx, H4, H7.
  change (messages_of ?k (w_st w1)) with (messages_of k (w_st w)).
  rewrite Hfind. unfold listRunSteps. mrun. rewrite (assertContext_any c w w1) by done. cbn.
  do 3 eexists. split; [reflexivity|]. by split_and!.
Qed.

Lemma no_earlier run w :
  earlier_nonterminal run (w_st w) = false →
  ∀ k r, jget k (st_runs (w_st w)) = Some r → same_conv r run →
    run_turnSequence r < run_turnSequence run → is_nonterminal (run_status r) = false.
Proof.
  intros He k r Hk Hc Hlt. destruct (is_nonterminal (run_status r)) eqn:Hn; [|done].
  rewrite (earlier_found r run k w) in He by done. discriminate.
Qed.

Lemma assertContext_code c w er w' : assertContext c w = (inl er, w') → is_invalid_state er = false ∧ w' = w.
Proof. unfold assertContext. case_match; cbn; by intros [= <- <-]. Qed.

Lemma assertConversationOwner_code c k w er w' :
  assertConversationOwner c k w = (inl er, w') → is_invalid_state er = false ∧ w' = w.
Proof. unfold assertConversationOwner. mrun. case_match; cbn; by intros [= <- <-]. Qed.

(** Every outcome of a claim. *)
Lemma claimRun_cases c id o e w :
  ledger_inv (w_st w) →
  match claimRun c id o e w with
  | (inl er, w') => is_invalid_state er = false ∧ w' = w
  | (inr None, w') => w_st w' = w_st w
  | (inr (Some cl), w') => claim_granted c id o e w w' cl
  end.
Proof.
  intros Hinv. unfold claimRun. mrun.
  destruct (assertContext c w) as [[er|[]] w1] eqn:Hctx; [by eapply assertContext_code|].
  assert (w1 = w) as -> by (destruct (assertContext_cases c w) as [Hx|[? Hx]]; congruence).
  destruct (jget (runKey c id) (st_runs (w_st w))) as [run|] eqn:Hk; [|done].
  destruct (assertConversationOwner c _ w) as [[er|[]] w1] eqn:Hown; [by eapply assertConversationOwner_code|].
  assert (w1 = w) as ->.
  { destruct (assertConversationOwner_cases c (tenantConversationScopeKey c (run_conversationId run)) w)
      as [Hx|[? Hx]]; congruence. }
  cbn. destruct (claimable _ run) eqn:Hcl; cbn; [|done].
  destruct (earlier_nonterminal run (w_st w)) eqn:He; cbn; [done|].
  destruct (claimed_result_ok w c id run (claim_update o e (date_now (S (w_clock w))) run)) as
    (cl & i & user & -> & Hi & Hu & Hrun & Hmsgs & Hcx); try done.
  exists run, i, user. rewrite Hrun. split_and!; try done. by apply no_earlier.
Qed.

(** ** Retried requests *)

Lemma accept_existing_ok w c i id r :
  ledger_inv (w_st w) → jget (runKey c id) (st_runs (w_st w)) = Some r →
  ∃ m ev w', accept_existing c i id w = (inr (mkAccepted false (run_conversationId r) m r ev), w') ∧
    msg_id m = run_userMessageId r.
Proof.
  intros Hinv Hk. destruct (backed_found w c id r Hinv Hk) as (Hrid & Hck & c0 & Hac & Hb & Hkk & _).
  destruct Hb as (c1 & Hk1 & _ & _ & _ & (m & Hm & Hmid) & (e & He & Hecho) & _).
  apply actorKey_inj in Hk1 as [Hac1 _]. rewrite <-Hac1, Hac in He. rewrite Hck in Hm.
  unfold accept_existing. mrun. rewrite Hk.
  match goal with |- context [remember_onboarding ?k ?o w] =>
    pose proof (remember_ok k o w) as Hret; pose proof (base_remember k o w) as Hbase;
    destruct (remember_onboarding k o w) as [res w2]; cbn in Hret; subst res
  end.
  destruct Hbase as (Hb & _ & _). unfold base, ledger in Hb. injection Hb as _ _ Hm2 _ _ He2 _ _.
  cbn in Hm2, He2. unfold messages_of, events_of in *. cbn. rewrite Hm2.
  destruct (find_Some (λ x, eqs (msg_id x) (run_userMessageId r)) _ m Hm) as (m' & -> & _ & Hm').
  { by apply bool_decide_eq_true_2. }
  apply bool_decide_eq_true in Hm'.
  rewrite He2. destruct (find_Some (is_echo_of (msg_id m')) _ e He) as (e' & -> & _ & _); [by rewrite Hm'|].
  by do 3 eexists.
Qed.

(** What a successful acceptance leaves in the store. *)
Definition recorded (c : TenantExecutionContext) (key : string) (a : AcceptedConcurrentRun) (s : Store) : Prop :=
  st_idempotency s !! idempotency_scope c key = Some (run_id (acc_run a)) ∧
  jget (runKey c (run_id (acc_run a))) (st_runs s) = Some (acc_run a) ∧
  msg_id (acc_userMessage a) = run_userMessageId (acc_run a).

Lemma acceptMessage_recorded `{!UuidOk env} c i w a w' :
  ledger_inv (w_st w) → acceptMessage c i w = (inr a, w') → recorded c (idempotency_key c i) a (w_st w').
Proof.
  intros Hinv Hacc. pose proof (acceptMessage_cases c i w) as Hcase. rewrite Hacc in Hcase. cbn in Hcase.
  destruct Hcase as [[(Hb & _ & _) [[? ?]|[Ht Hex]]]|(v & m & run & ev & w0 & [= ->] & _ & _ & Hnew)]; [done| |].
  2:
  { destruct Hnew as [_ (Hum & _) _ _ _ Hr _ Hi _ _ _]. unfold recorded. cbn. rewrite Hi, Hr.
    split_and!; [by rewrite lookup_insert, decide_True|apply jget_jset_eq|done]. }
  unfold base, core, ledger in Hb. injection Hb as Hr _ _ _ Hi _ _ _.
  unfold recorded. rewrite Hr, Hi. clear Hr Hi.
  destruct (st_idempotency (w_st w) !! idempotency_scope c (idempotency_key c i)) as [id|] eqn:Hid; [|done].
  destruct (li_idempotency _ Hinv _ _ _ Hid) as (Hne & r & Hk & Hrid & _). cbn in Hex.
  destruct (accept_existing_ok w c i id r Hinv Hk) as (m & ev & w1 & Heq & Hm).
  rewrite Heq in Hex. injection Hex as <- _. cbn. by rewrite Hrid.
Qed.

(** ** Pages of events *)

Lemma filter_after l n a :
  seq_from n l → 0 ≤ a →
  js_filter (event_selected (n - 1 + a) None) l = drop (Z.to_nat a) l.
Proof.
  revert n a. induction l as [|e l IH]; intros n a Hs Ha; [by rewrite drop_nil|].
  assert (He : ev_seq e = n) by (rewrite (Hs 0%nat e); [lia|done]).
  assert (Hl : seq_from (n + 1) l).
  { intros i x Hx. rewrite (Hs (S i) x) by done. lia. }
  cbn [js_filter List.filter]. unfold event_selected at 1. cbn [truthy_opt negb orb]. rewrite andb_true_r, He.
  destruct (decide (a = 0)) as [->|Hne].
  - rewrite (proj2 (Z.ltb_lt _ _)) by lia. change (Z.to_nat 0) with 0%nat. cbn [drop]. f_equal.
    rewrite <-(drop_0 l) at 2. change 0%nat with (Z.to_nat 0). rewrite <-(IH (n + 1) 0) by done.
    unfold js_filter. apply List.filter_ext_in. intros x Hx. apply list_elem_of_In, list_elem_of_lookup in Hx as [i Hi].
    unfold event_selected. cbn. rewrite !andb_true_r, (Hl i x Hi).
    rewrite !(proj2 (Z.ltb_lt _ _)) by lia. done.
  - rewrite (proj2 (Z.ltb_ge _ _)) by lia.
    replace (Z.to_nat a) with (S (Z.to_nat (a - 1))) by lia. cbn [drop].
    rewrite <-(IH (n + 1) (a - 1)) by (done || lia).
    replace (n + 1 - 1 + (a - 1)) with (n - 1 + a) by lia. done.
Qed.

Lemma js_slice_take {A} n (l : list A) : 0 ≤ n → js_slice 0 n l = take (Z.to_nat n) l.
Proof.
  intros Hn. unfold js_slice, js_rel_index. cbn [Z.ltb Z.compare]. rewrite (proj2 (Z.ltb_ge _ _)) by lia.
  replace (Z.to_nat (Z.min 0 _)) with 0%nat by lia. rewrite Nat.sub_0_r, drop_0.
  destruct (decide (n ≤ Z.of_nat (length l))) as [Hle|Hgt]; [by rewrite Z.min_l by lia|].
  rewrite Z.min_r by lia. rewrite !take_ge by lia. done.
Qed.

(** * Claims *)

(** C1. The store refines the turn queue: from every reachable state, whatever
    method is called, the runs and turn counters change by a sequence of steps
    of the abstract machine. *)
Theorem store_refines_turn_queue `{!UuidOk env} o w :
  reachable w → steps (abs (w_st w)) (abs (w_st (exec o w))).
Proof. intros Hw. by apply exec_refines, reachable_inv. Qed.

(** C2. A conversation is served one turn at a time: two runs of one
    conversation that are both being processed or waiting for the browser are
    the same run, and every earlier turn of the conversation has ended. *)
Theorem conversation_serialised `{!UuidOk env} w k1 k2 r1 r2 :
  reachable w → jget k1 (st_runs (w_st w)) = Some r1 → jget k2 (st_runs (w_st w)) = Some r2 →
  same_conv r1 r2 → run_started r2 →
  (run_started r1 → k1 = k2) ∧
  (run_turnSequence r1 < run_turnSequence r2 → is_nonterminal (run_status r1) = false).
Proof.
  intros Hw H1 H2 Hc Hs2. split; [|by apply (started_first w k1 k2)]. intros Hs1.
  eapply (started_unique (abs (w_st w))); eauto using abs_lookup, same_conv_key, started_abs.
  - by apply reachable_queue_inv.
  - cbn. by apply same_conv_key.
Qed.

(** C3. A run that has completed, failed or been cancelled keeps its record
    through any later sequence of calls; any run keeps its identity. *)
Theorem terminal_run_immutable `{!UuidOk env} w k r ops :
  reachable w → jget k (st_runs (w_st w)) = Some r →
  ∃ r', jget k (st_runs (w_st (exec_all ops w))) = Some r' ∧ run_identity r' = run_identity r ∧
        (is_nonterminal (run_status r) = false → r' = r).
Proof.
  intros Hw Hk. destruct (exec_all_run_evolves ops w k r Hw Hk) as (r' & Hk' & Hid & _ & Ht). eauto.
Qed.

(** A run holds a lease owner and a lease expiry exactly while it is
    being processed. *)
Theorem lease_iff_processing `{!UuidOk env} w k r :
  reachable w → jget k (st_runs (w_st w)) = Some r →
  (run_status r = processing ↔ is_Some (run_leaseOwner r)) ∧
  (run_status r = processing ↔ is_Some (run_leaseExpiresAt r)).
Proof.
  intros Hw Hk. destruct (reachable_inv w Hw) as [_ Hl]. destruct (li_runs _ Hl k r Hk) as [Hlease _].
  unfold lease_ok in Hlease. destruct (run_status r); destruct Hlease as [H1 H2]; try done.
  all: rewrite H1, H2; split; split; try discriminate; by intros [? ?].
Qed.

(** Every outcome of claiming a run in a reachable state.  A claim is
    granted only for a queued run, or one whose lease has expired, with no
    unfinished earlier turn; it stores the new lease and returns the history
    that ends with the run's user message.  A refusal or an error leaves the
    store as it was, and the error is never an inconsistency of the store. *)
Theorem claimRun_outcome `{!UuidOk env} c id o e w :
  reachable w →
  match claimRun c id o e w with
  | (inl er, w') => is_invalid_state er = false ∧ w' = w
  | (inr None, w') => w_st w' = w_st w
  | (inr (Some cl), w') => claim_granted c id o e w w' cl
  end.
Proof. intros Hw. by apply claimRun_cases, reachable_inv. Qed.

(** C4. While one run of a conversation is held under a lease that has not
    expired, no run of that conversation can be claimed: the claim returns
    nothing or throws, and the store does not change. *)
Theorem live_lease_excludes `{!UuidOk env} w k1 r1 expires c id r o e :
  reachable w → jget k1 (st_runs (w_st w)) = Some r1 → run_status r1 = processing →
  run_leaseExpiresAt r1 = Some expires → date_now (w_clock w) < expires →
  jget (runKey c id) (st_runs (w_st w)) = Some r → same_conv r1 r →
  no_effect (claimRun c id o e) None w.
Proof.
  intros Hw H1 Hp Hx Hlt Hr Hc. assert (Hs : run_started r1) by by left.
  apply (claim_refused _ _ _ _ _ r Hr).
  destruct (Z.lt_trichotomy (run_turnSequence r1) (run_turnSequence r)) as [Hl|[He|Hg]].
  - right. by apply (earlier_found r1 r k1 w H1 Hc Hl), started_nonterminal.
  - left. assert (k1 = runKey c id) as -> by by apply (started_same_key w k1 (runKey c id) r1 r).
    rewrite H1 in Hr. injection Hr as <-. unfold claimable. rewrite Hp, Hx. cbn. by apply Z.leb_gt.
  - left. assert (Hn : is_nonterminal (run_status r) = false).
    { by apply (started_first w (runKey c id) k1 r r1); auto using same_conv_sym. }
    unfold claimable. by destruct (run_status r).
Qed.

(** A worker that no longer holds the lease of a run cannot complete it,
    fail it or renew the lease: completion throws (a lost lease, when the
    context is complete), the other two return [false] or throw, and the store
    does not change. *)
Theorem stale_worker_rejected c id o e w r ci fi :
  jget (runKey c id) (st_runs (w_st w)) = Some r →
  (run_status r ≠ processing ∨ run_leaseOwner r ≠ Some o) →
  co_leaseOwner ci = o → fa_leaseOwner fi = o →
  (∃ er, completeRun c id ci w = (inl er, w) ∧
     (assertContext c w = (inr tt, w) →
      er = mkStoreError "Run lease is no longer owned by this worker." lease_lost)) ∧
  no_effect (failRun c id fi) false w ∧ no_effect (renewRunLease c id o e) false w.
Proof.
  intros Hr Hno Hci Hfi.
  assert (Hg : negb (bool_decide (run_status r = processing)) || negb (eqos (run_leaseOwner r) (Some o)) = true).
  { destruct (_ || _) eqn:Hg; [done|]. apply lease_guard in Hg as [? ?]. tauto. }
  unfold completeRun, requireLeasedRun, failRun, renewRunLease, no_effect, scopedRun. mrun.
  destruct (assertContext_cases c w) as [Hc|[? Hc]]; rewrite Hc; cbn.
  - rewrite Hr, Hci, Hfi, Hg. cbn. split_and!; [by eexists|by right..].
  - split_and!; [eexists; split; [done|discriminate]|left; by eexists..].
Qed.

(** A retried request is answered from the record: once a message was
    accepted, the same actor sending the same idempotency key again, after any
    other calls, gets the same run and user message with [created = false],
    and no message, run, event or turn is added. *)
Theorem retry_returns_same_run `{!UuidOk env} c i w a w' ops c' i' :
  reachable w → acceptMessage c i w = (inr a, w') →
  actorScopeKey c' = actorScopeKey c → idempotency_key c' i' = idempotency_key c i →
  let w1 := exec_all ops w' in
  assertContext c' w1 = (inr tt, w1) →
  ∃ a' w2, acceptMessage c' i' w1 = (inr a', w2) ∧ acc_created a' = false ∧
    run_identity (acc_run a') = run_identity (acc_run a) ∧
    msg_id (acc_userMessage a') = msg_id (acc_userMessage a) ∧
    base (w_st w2) = base (w_st w1).
Proof.
  intros Hw Hacc Hactor Hkey w1 Hctx.
  assert (Hw' : reachable w').
  { replace w' with (exec (OpAccept c i) w); [by constructor|]. cbn. by rewrite Hacc. }
  destruct (acceptMessage_recorded c i w a w' (proj2 (reachable_inv w Hw)) Hacc) as (Hidem & Hrun & Hmsg).
  assert (Hw1 : reachable w1) by by apply reachable_all.
  destruct (reachable_inv w1 Hw1) as [_ Hinv1].
  destruct (exec_all_run_evolves ops w' _ _ Hw' Hrun) as (r1 & Hr1 & Hid & _).
  pose proof (ll_idempotency _ _ (exec_all_ledger ops w' Hw')) as Hsub.
  apply (lookup_weaken _ _ _ _ Hidem) in Hsub. fold w1 in Hsub, Hr1.
  assert (Hscope : idempotency_scope c' (idempotency_key c' i') = idempotency_scope c (idempotency_key c i))
    by (unfold idempotency_scope, actorKey; by rewrite Hactor, Hkey).
  assert (Hrk : ∀ id, runKey c' id = runKey c id) by (intros; unfold runKey, actorKey; by rewrite Hactor).
  rewrite <-Hrk in Hr1.
  destruct (li_idempotency _ Hinv1 _ _ _ Hsub) as (Hne & _).
  destruct (accept_existing_ok w1 c' i' _ r1 Hinv1 Hr1) as (m & ev & w2 & Hex & Hm).
  pose proof (base_accept_existing c' i' (run_id (acc_run a)) w1) as (Hb & _). rewrite Hex in Hb.
  exists (mkAccepted false (run_conversationId r1) m r1 ev), w2.
  assert (Hres : acceptMessage c' i' w1 = accept_existing c' i' (run_id (acc_run a)) w1).
  { unfold acceptMessage. mrun. rewrite Hctx. cbn. rewrite Hscope, Hsub. cbn.
    unfold truthy. by rewrite (proj2 (String.eqb_neq _ _) Hne). }
  rewrite Hres, Hex. split_and!; [done|done|done| |done].
  unfold run_identity in Hid. injection Hid as H1 H2 H3 H4 H5 H6 H7 H8 H9. cbn. congruence.
Qed.

(** The events of an actor are numbered 1, 2, 3, ... without a gap, and
    [listEvents] from a cursor returns exactly the next events in order: a
    client that resumes from the last number it saw misses nothing and sees
    nothing twice. *)
Theorem listEvents_page `{!UuidOk env} c after limit w :
  reachable w → 0 ≤ after → 0 ≤ limit → assertContext c w = (inr tt, w) →
  let all := events_of (actorScopeKey c) (w_st w) in
  (∀ i e, all !! i = Some e → ev_seq e = 1 + Z.of_nat i) ∧
  listEvents c after None limit w = (inr (take (Z.to_nat limit) (drop (Z.to_nat after) all)), w).
Proof.
  intros Hw Ha Hl Hc all. destruct (reachable_inv w Hw) as [_ Hinv].
  destruct (li_events _ Hinv (actorScopeKey c)) as [Hseq _]. split; [exact Hseq|].
  unfold listEvents. mrun. rewrite Hc. cbn. rewrite js_slice_take by done.
  pose proof (filter_after _ 1 after Hseq Ha) as Hf. cbn in Hf. rewrite Z.sub_diag, Z.add_0_l in Hf || idtac.
  by rewrite Hf.
Qed.

(** [getNextQueuedRun] picks the queued run of the conversation with the
    lowest turn number, and returns nothing only when none is queued. *)
Theorem next_queued_lowest c v s :
  match next_queued c v s with
  | Some r => r ∈ jvalues (st_runs s) ∧ run_in c v r = true ∧ run_status r = queued ∧
      ∀ r', r' ∈ jvalues (st_runs s) → run_in c v r' = true → run_status r' = queued →
            run_turnSequence r ≤ run_turnSequence r'
  | None => ∀ r', r' ∈ jvalues (st_runs s) → run_in c v r' = true → run_status r' ≠ queued
  end.
Proof.
  unfold next_queued. set (l := js_filter _ (jvalues (st_runs s))).
  assert (Hl : ∀ r, r ∈ l ↔ r ∈ jvalues (st_runs s) ∧ run_in c v r = true ∧ run_status r = queued).
  { intros r. unfold l, js_filter. rewrite list_elem_of_In, List.filter_In, <-list_elem_of_In.
    by rewrite andb_true_iff, bool_decide_eq_true. }
  pose proof (js_sort_Permutation (λ a b, run_turnSequence a - run_turnSequence b) l) as Hp.
  destruct (head (js_sort _ l)) as [r|] eqn:Hh.
  - assert (Hr : r ∈ l) by (rewrite <-Hp; by apply head_Some_elem_of).
    apply Hl in Hr as (H1 & H2 & H3). split_and!; [done..|]. intros r' H1' H2' H3'.
    eapply (js_sort_head_min _ run_turnSequence); [done|exact Hh|]. by apply Hl.
  - intros r' H1 H2 H3. assert (Hr : r' ∈ l) by by apply Hl.
    apply head_None in Hh. rewrite <-Hp, Hh in Hr. set_solver.
Qed.

(** In a reachable state the worker that holds a run's lease can always
    complete it: the run becomes completed with the answer's id and no lease,
    and the answer is inserted directly after the run's user message, leaving
    every other message in place. *)
Theorem completeRun_by_holder `{!UuidOk env} c id ci w r :
  reachable w → assertContext c w = (inr tt, w) →
  jget (runKey c id) (st_runs (w_st w)) = Some r →
  run_status r = processing → run_leaseOwner r = Some (co_leaseOwner ci) →
  let ck := tenantConversationScopeKey c (run_conversationId r) in
  ∃ m w' l1 user l2, completeRun c id ci w = (inr m, w') ∧
    msg_id m = co_assistantMessageId ci ∧ msg_role m = role_assistant ∧ msg_content m = co_content ci ∧
    messages_of ck (w_st w) = l1 ++ user :: l2 ∧ msg_id user = run_userMessageId r ∧
    messages_of ck (w_st w') = l1 ++ user :: m :: l2 ∧
    jget (runKey c id) (st_runs (w_st w')) =
      Some (complete_update (co_assistantMessageId ci) (date_now (S (w_clock w))) r).
Proof.
  intros Hw Hctx Hk Hst Hlo ck. destruct (reachable_inv w Hw) as [_ Hinv].
  destruct (backed_found w c id r Hinv Hk) as (_ & Hck & c0 & _ & (c1 & _ & _ & _ & _ & (m0 & Hm0 & Hmid) & _) & _).
  rewrite Hck in Hm0. fold ck in Hm0.
  destruct (findIndex_Some (λ m, eqs (msg_id m) (run_userMessageId r)) _ m0 Hm0) as (i & user & Hfind & Hi & Hu).
  { by apply bool_decide_eq_true_2. }
  apply bool_decide_eq_true in Hu.
  unfold completeRun, requireLeasedRun, scopedRun. mrun. rewrite Hctx. cbn. rewrite Hk.
  unfold eqos. rewrite !bool_decide_eq_true_2 by done. cbn. fold ck. rewrite Hfind. cbn.
  exists (mkMessage (co_assistantMessageId ci) (organizationId c) (assistantId c)
    (run_conversationId r) role_assistant (co_content ci) None (date_now (w_clock w))).
  eexists _, (take i (messages_of ck (w_st w))), user, (drop (S i) (messages_of ck (w_st w))).
  split_and!; [reflexivity|done..|by rewrite take_drop_middle|done| |].
  - unfold messages_of at 1. cbn. rewrite jget_jset_eq. cbn. unfold js_insert_at.
    rewrite (take_S_r _ _ user) by done. by rewrite <-app_assoc.
  - cbn. by rewrite jget_jalter, decide_True, Hk.
Qed.

(** Tenant isolation: in a reachable state a run is returned only to the
    organization, assistant, user and actor whose request created it. *)
Theorem getRun_isolated `{!UuidOk env} c id w r w' :
  reachable w → getRun c id w = (inr (Some r), w') →
  ∃ ctx, st_runContexts (w_st w) !! runKey c id = Some ctx ∧ run_id r = id ∧
    run_organizationId r = organizationId c ∧ run_assistantId r = assistantId c ∧
    organizationId ctx = organizationId c ∧ assistantId ctx = assistantId c ∧
    userId ctx = userId c ∧ actorId ctx = actorId c.
Proof.
  intros Hw. unfold getRun. destruct (scopedRun_cases c id w) as [->|[? ->]]; [|discriminate].
  intros [= Hk _]. destruct (backed_found w c id r (proj2 (reachable_inv w Hw)) Hk)
    as (Hid & _ & c0 & Hac & (c1 & Hk1 & Ho & Ha & _) & _ & Hctx).
  apply actorKey_inj in Hk1 as [Hac1 _]. rewrite Hac in Hac1.
  apply actorScopeKey_inj in Hac as (H1 & H2 & H3 & H4). apply actorScopeKey_inj in Hac1 as (H5 & H6 & _ & _).
  eexists. split; [exact Hctx|]. cbn. split_and!; congruence.
Qed.
End props.

(** ** Two turns of one conversation, the first one claimed and completed *)

Definition demo_retry_ctx : TenantExecutionContext :=
  Build_TenantExecutionContext "org" "user" "asst" "actor" "req2" None None 1 1 1.
Definition demo_in1 := mkAcceptInput None "hello" None None.
Definition demo_in2 := mkAcceptInput (Some "u0") "more" None None.
Definition demo_complete := mkCompleteInput "answer" "Hi." "worker".
Definition demo_fail := mkFailInput "E" "failed" "worker".

(** The first message creates conversation u0, message u1, run u2, event u3;
    the second one message u4, run u5, event u6. *)
Definition demo_accepted : World Store := exec_all [OpAccept demo_ctx demo_in1; OpAccept demo_retry_ctx demo_in2] init_world.
Definition demo_claimed : World Store := exec (OpClaim demo_ctx "u2" "worker" 1000) demo_accepted.
Definition demo_completed : World Store := exec (OpComplete demo_ctx "u2" demo_complete) demo_claimed.

Definition demo_run (id : string) (w : World Store) : ConcurrentRun :=
  default (mkRun "" "" "" "" "" "" "" 0 None queued None None None None 0 0)
    (jget (runKey demo_ctx id) (st_runs (w_st w))).

Lemma demo_accepted_reachable : reachable demo_accepted.
Proof. apply reachable_all. constructor. Qed.
Lemma demo_claimed_reachable : reachable demo_claimed.
Proof. constructor. apply demo_accepted_reachable. Qed.
Lemma demo_completed_reachable : reachable demo_completed.
Proof. constructor. apply demo_claimed_reachable. Qed.

(** Witness of C1 at the claim of the first run. *)
Lemma store_refines_turn_queue_witness :
  let w := demo_accepted in
  let w' := exec (OpClaim demo_ctx "u2" "worker" 1000) demo_accepted in
  steps (abs (w_st w)) (abs (w_st w')) ∧
  (turn_phase <$> q_turns (abs (w_st w)) !! runKey demo_ctx "u2") = Some Queued ∧
  (turn_phase <$> q_turns (abs (w_st w')) !! runKey demo_ctx "u2") = Some (Leased "worker" 1000).
Proof.
  split; [|split; vm_compute; reflexivity].
  exact (store_refines_turn_queue (OpClaim demo_ctx "u2" "worker" 1000) demo_accepted demo_accepted_reachable).
Defined.

(** Witness of C2: the claimed run and the later queued one. *)
Lemma conversation_serialised_witness :
  let w := exec (OpClaim demo_ctx "u5" "worker" 1000) demo_completed in
  run_turnSequence (demo_run "u2" w) = 0 ∧ run_turnSequence (demo_run "u5" w) = 1 ∧
  is_nonterminal (run_status (demo_run "u2" w)) = false.
Proof.
  split; [vm_compute; reflexivity|]. split; [vm_compute; reflexivity|].
  destruct (conversation_serialised (exec (OpClaim demo_ctx "u5" "worker" 1000) demo_completed)
    (runKey demo_ctx "u2") (runKey demo_ctx "u5")
    (demo_run "u2" (exec (OpClaim demo_ctx "u5" "worker" 1000) demo_completed))
    (demo_run "u5" (exec (OpClaim demo_ctx "u5" "worker" 1000) demo_completed))) as [_ Hearlier].
  - constructor. apply demo_completed_reachable.
  - vm_compute; reflexivity.
  - vm_compute; reflexivity.
  - split_and!; vm_compute; reflexivity.
  - left. vm_compute; reflexivity.
  - apply Hearlier. vm_compute; reflexivity.
Defined.

(** Witness of C3: the completed run after a claim attempt and a cancellation. *)
Lemma terminal_run_immutable_witness :
  ∃ r', jget (runKey demo_ctx "u2") (st_runs (w_st (exec_all
      [OpClaim demo_ctx "u2" "thief" 9; OpCancelConversation demo_ctx "u0"] demo_completed))) = Some r'
    ∧ run_identity r' = run_identity (demo_run "u2" demo_completed)
    ∧ (is_nonterminal (run_status (demo_run "u2" demo_completed)) = false → r' = demo_run "u2" demo_completed).
Proof.
  apply (terminal_run_immutable demo_completed); [apply demo_completed_reachable|].
  vm_compute; reflexivity.
Defined.

(** An instance at the claimed run. *)
Lemma lease_iff_processing_witness :
  run_status (demo_run "u2" demo_claimed) = processing ∧
  (run_status (demo_run "u2" demo_claimed) = processing ↔ is_Some (run_leaseOwner (demo_run "u2" demo_claimed))).
Proof.
  split; [vm_compute; reflexivity|].
  destruct (lease_iff_processing demo_claimed (runKey demo_ctx "u2") (demo_run "u2" demo_claimed)) as [Hiff _].
  - apply demo_claimed_reachable.
  - vm_compute; reflexivity.
  - exact Hiff.
Defined.

(** For example: the second run is refused while the first is queued. *)
Lemma claimRun_outcome_witness :
  (claimRun demo_ctx "u5" "worker" 1000 demo_accepted).1 = inr None ∧
  w_st (claimRun demo_ctx "u5" "worker" 1000 demo_accepted).2 = w_st demo_accepted.
Proof.
  pose proof (claimRun_outcome demo_ctx "u5" "worker" 1000 demo_accepted demo_accepted_reachable) as Ho.
  assert (Hr : (claimRun demo_ctx "u5" "worker" 1000 demo_accepted).1 = inr None) by (vm_compute; reflexivity).
  split; [exact Hr|].
  destruct (claimRun demo_ctx "u5" "worker" 1000 demo_accepted) as [res w']. cbn in Hr |- *.
  rewrite Hr in Ho. exact Ho.
Defined.

(** Witness of C4: neither run can be claimed while the first is leased. *)
Lemma live_lease_excludes_witness :
  no_effect (claimRun demo_ctx "u2" "thief" 5000) None demo_claimed ∧
  no_effect (claimRun demo_ctx "u5" "thief" 5000) None demo_claimed.
Proof.
  split; [apply (live_lease_excludes demo_claimed (runKey demo_ctx "u2") (demo_run "u2" demo_claimed) 1000
                   demo_ctx "u2" (demo_run "u2" demo_claimed))
         |apply (live_lease_excludes demo_claimed (runKey demo_ctx "u2") (demo_run "u2" demo_claimed) 1000
                   demo_ctx "u5" (demo_run "u5" demo_claimed))].
  1,8: apply demo_claimed_reachable.
  all: try (split_and!; vm_compute; reflexivity).
  all: vm_compute; reflexivity.
Defined.

(** For example: another worker's name. *)
Lemma stale_worker_rejected_witness :
  no_effect (failRun demo_ctx "u2" (mkFailInput "E" "stolen" "thief")) false demo_claimed.
Proof.
  destruct (stale_worker_rejected demo_ctx "u2" "thief" 5000 demo_claimed (demo_run "u2" demo_claimed)
    (mkCompleteInput "answer" "Hi." "thief") (mkFailInput "E" "stolen" "thief")) as (_ & Hfail & _).
  - vm_compute; reflexivity.
  - right. vm_compute. discriminate.
  - reflexivity.
  - reflexivity.
  - exact Hfail.
Defined.

(** For example: the first request repeated after its run completed. *)
Lemma retry_returns_same_run_witness :
  let w := demo_completed in
  ∃ a' w2, acceptMessage demo_ctx demo_in1 w = (inr a', w2) ∧ acc_created a' = false ∧
    base (w_st w2) = base (w_st w).
Proof.
  set (a := acceptMessage demo_ctx demo_in1 init_world).
  destruct (retry_returns_same_run demo_ctx demo_in1 init_world
    (match a.1 with inr x => x | inl _ => mkAccepted true "" (mkMessage "" "" "" "" role_user "" None 0)
       (demo_run "" init_world) (mkEvent "" "" "" "" 0 0 []) end) a.2
    [OpAccept demo_retry_ctx demo_in2; OpClaim demo_ctx "u2" "worker" 1000; OpComplete demo_ctx "u2" demo_complete]
    demo_ctx demo_in1) as (a' & w2 & H1 & H2 & _ & _ & H3).
  - constructor.
  - vm_compute; reflexivity.
  - reflexivity.
  - reflexivity.
  - vm_compute; reflexivity.
  - exists a', w2. split_and!; assumption.
Defined.

(** For example: the second event of the two. *)
Lemma listEvents_page_witness :
  listEvents demo_ctx 1 None 10 demo_accepted
  = (inr (take 10 (drop 1 (events_of (actorScopeKey demo_ctx) (w_st demo_accepted)))), demo_accepted)
  ∧ length (events_of (actorScopeKey demo_ctx) (w_st demo_accepted)) = 2%nat.
Proof.
  split; [|vm_compute; reflexivity].
  destruct (listEvents_page demo_ctx 1 10 demo_accepted) as [_ Hpage].
  - apply demo_accepted_reachable.
  - lia.
  - lia.
  - vm_compute; reflexivity.
  - exact Hpage.
Defined.

(** For example: the first run. *)
Lemma completeRun_by_holder_witness :
  ∃ m w', completeRun demo_ctx "u2" demo_complete demo_claimed = (inr m, w') ∧ msg_content m = "Hi.".
Proof.
  destruct (completeRun_by_holder demo_ctx "u2" demo_complete demo_claimed (demo_run "u2" demo_claimed))
    as (m & w' & l1 & user & l2 & H1 & _ & _ & H2 & _).
  - apply demo_claimed_reachable.
  - vm_compute; reflexivity.
  - vm_compute; reflexivity.
  - vm_compute; reflexivity.
  - vm_compute; reflexivity.
  - exists m, w'. split; assumption.
Defined.

(** For example: the owner reads its run. *)
Lemma getRun_isolated_witness :
  ∃ ctx, st_runContexts (w_st demo_accepted) !! runKey demo_ctx "u2" = Some ctx ∧ userId ctx = "user".
Proof.
  destruct (getRun_isolated demo_ctx "u2" demo_accepted (demo_run "u2" demo_accepted) demo_accepted)
    as (ctx & Hc & _ & _ & _ & _ & _ & Hu & _).
  - apply demo_accepted_reachable.
  - vm_compute; reflexivity.
  - exists ctx. split; [exact Hc|exact Hu].
Defined.
