(* ===== verification/BrowserProps.v ===== *)
(** * Properties of the browser broker's part of the store

    Browser actions only move forward and keep their first terminal state; the
    outbox is ordered; a connection that was superseded is refused; a repeated
    result changes nothing. *)
From S2P Require Import Prelude ScopeKeys RuntimeTypes RuntimeStore TurnQueue RuntimeRefines RuntimeLedger Demo.

Create HintDb acts.

#[local] Arguments jmap : simpl never.
#[local] Arguments events_of : simpl never.
#[local] Arguments outbox_of : simpl never.

(** ** Progress of an action *)

Definition action_rank (st : BrowserActionState) : Z :=
  match st with
  | act_queued => 0
  | act_delivered => 1
  | act_received => 2
  | act_executing | act_cancel_requested => 3
  | act_succeeded | act_failed | act_cancelled | act_expired | act_unknown_outcome => 4
  end.

(** The fields an action is created with. *)
Definition action_identity (a : BrowserActionRecord) :=
  (act_conversationId a, act_runId a, act_toolUseId a, act_actionId a, act_actionSequence a,
   act_clientInstallationId a, act_connectionId a, act_connectionGeneration a, act_operation a,
   act_operationHash a).

Definition act_evolves (a a' : BrowserActionRecord) : Prop :=
  action_identity a' = action_identity a
  ∧ action_rank (act_state a) ≤ action_rank (act_state a')
  ∧ (isTerminalBrowserAction (act_state a) = true →
     act_state a' = act_state a ∧ act_resultHash a' = act_resultHash a).

#[global] Instance act_evolves_preorder : PreOrder act_evolves.
Proof.
  split; [intros a; by split_and!|]. intros x y z (I1&R1&T1) (I2&R2&T2).
  split_and!; [congruence|lia|]. intros Ht. destruct (T1 Ht) as [E1 H1].
  rewrite <-E1 in Ht. destruct (T2 Ht) as [E2 H2]. split; congruence.
Qed.

Lemma evolves_delivered a : act_evolves a (mark_delivered a).
Proof.
  unfold mark_delivered. case_bool_decide as Hq; [|reflexivity].
  split_and!; [done|cbn; rewrite Hq; cbn; lia|]. by rewrite Hq.
Qed.

Lemma evolves_redact r b a : act_evolves a (redact_action r b a).
Proof.
  unfold redact_action. destruct (eqs _ _); [|reflexivity].
  destruct b; split_and!; try done; cbn; destruct (act_state a); cbn; (lia || done).
Qed.

Lemma evolves_receipt a r :
  isTerminalBrowserAction (act_state a) = false →
  act_evolves a (set_act_state (receipt_state (act_state a) r) a).
Proof.
  intros Hn. split_and!; [done| |by rewrite Hn]. cbn.
  destruct (act_state a), r; cbn in *; try discriminate Hn; lia.
Qed.

Lemma evolves_result a r :
  isTerminalBrowserAction (act_state a) = false → act_evolves a (result_update r a).
Proof.
  intros Hn. split_and!; [done| |by rewrite Hn]. cbn.
  destruct (res_body r); cbn; destruct (act_state a); cbn in *; try discriminate Hn; lia.
Qed.

Lemma assertActionConnection_cases a i g w :
  assertActionConnection a i g w = (inr tt, w) ∨ ∃ e, assertActionConnection a i g w = (inl e, w).
Proof. unfold assertActionConnection. case_match; cbn; eauto. Qed.

Lemma assertBrowserConnectionToken_cases c a h w :
  assertBrowserConnectionToken c a h w = (inr tt, w) ∨ ∃ e, assertBrowserConnectionToken c a h w = (inl e, w).
Proof. unfold assertBrowserConnectionToken. mrun. repeat case_match; eauto. Qed.

(** ** Order of the outbox *)

(** Strictly increasing sequence numbers, all below [n]. *)
Definition seqs_below (n : Z) (l : list BrowserOutboxRecord) : Prop :=
  StronglySorted (λ a b, out_seq a < out_seq b) l ∧ Forall (λ r, out_seq r < n) l.

Definition outbox_ok (s : Store) : Prop :=
  ∀ t l, st_browserOutbox s !! t = Some l → seqs_below (st_nextBrowserOutboxSequence s) l.

Lemma StronglySorted_sublist {A} (R : A → A → Prop) l1 l2 :
  sublist l1 l2 → StronglySorted R l2 → StronglySorted R l1.
Proof.
  induction 1 as [|x l1 l2 Hs IH|x l1 l2 Hs IH]; [done|..]; intros [Hl Hx]%StronglySorted_inv; [|auto].
  constructor; [auto|]. rewrite Forall_forall in Hx |- *. intros y Hy.
  apply Hx. by eapply elem_of_sublist.
Qed.

Lemma js_filter_sublist {A} (p : A → bool) l : sublist (js_filter p l) l.
Proof. induction l as [|x l IH]; cbn; [done|]. case_match; by constructor. Qed.

Lemma seqs_below_sublist n l1 l2 : sublist l1 l2 → seqs_below n l2 → seqs_below n l1.
Proof.
  intros Hs [H1 H2]. split; [by eapply StronglySorted_sublist|].
  rewrite Forall_forall in H2 |- *. intros x Hx. apply H2. by eapply elem_of_sublist.
Qed.

Lemma seqs_below_snoc n l r :
  seqs_below n l → out_seq r = n → seqs_below (n + 1) (l ++ [r]).
Proof.
  intros [H1 H2] Hr. split.
  - induction H1 as [|x l H1 IH Hx]; cbn; [by repeat constructor|].
    apply Forall_cons in H2 as [Hn H2]. constructor; [auto|].
    apply Forall_app. split; [done|]. constructor; [lia|constructor].
  - apply Forall_app. split; [|constructor; [lia|constructor]].
    eapply Forall_impl; [exact H2|]. cbn. lia.
Qed.

Lemma seqs_below_mono n n' l : n ≤ n' → seqs_below n l → seqs_below n' l.
Proof. intros Hn [H1 H2]. split; [done|]. eapply Forall_impl; [exact H2|]. cbn. lia. Qed.

(** The fields of the store this part is about. *)
Definition broker (s : Store) := (st_browserActions s, st_browserOutbox s, st_nextBrowserOutboxSequence s).

Section progress.
Context {env : Env} (K : string).

(** The action at key [K], if there is one, only evolves, and the outbox stays
    in order. *)
Definition acts_le (w w' : World Store) : Prop :=
  (∀ a, jget K (st_browserActions (w_st w)) = Some a →
   ∃ a', jget K (st_browserActions (w_st w')) = Some a' ∧ act_evolves a a')
  ∧ (outbox_ok (w_st w) → outbox_ok (w_st w')).

#[local] Instance acts_le_preorder : PreOrder acts_le.
Proof.
  split; [intros w; split; [intros a Ha; by exists a|done]|].
  intros x y z [H1 B1] [H2 B2]. split; [|auto]. intros a Ha.
  destruct (H1 a Ha) as (a1 & Ha1 & E1). destruct (H2 a1 Ha1) as (a2 & Ha2 & E2).
  exists a2. split; [done|by etrans].
Qed.

Lemma acts_same w w' : broker (w_st w') = broker (w_st w) → acts_le w w'.
Proof.
  unfold broker. intros [= Ha Ho Hn]. split; unfold outbox_ok; rewrite ?Ha, ?Ho, ?Hn; [|done].
  intros a Hk. by exists a.
Qed.

Lemma acts_keeps {A} (m : RT A) : keeps broker m → respects acts_le m.
Proof. intros Hm w. apply acts_same, Hm. Qed.

Lemma acts_modify f : (∀ s, broker (f s) = broker s) → respects acts_le (modify f : RT unit).
Proof. intros Hf w. apply acts_same, Hf. Qed.

Lemma acts_alter k f : (∀ a, act_evolves a (f a)) → respects acts_le (alter_action k f).
Proof.
  intros Hf w. split; [|done]. intros a Ha. cbn. rewrite jget_jalter.
  case_decide; subst; rewrite Ha; cbn; eauto. by exists a.
Qed.

Lemma acts_redact c r b : respects acts_le (redactBrowserRun c r b).
Proof.
  intros w. unfold redactBrowserRun. mrun. split.
  - intros a Ha. cbn. rewrite jget_jmap, Ha. cbn. eexists. split; [done|]. apply evolves_redact.
  - intros Hok t l. cbn. rewrite lookup_alter. case_decide; subst; [|apply Hok].
    destruct (st_browserOutbox (w_st w) !! actorScopeKey c) as [l0|] eqn:Hl; cbn; [|done].
    intros [= <-]. eapply seqs_below_sublist; [apply js_filter_sublist|]. by eapply Hok.
Qed.

Ltac acts_step :=
  match goal with
  | |- respects _ (if ?b then _ else _) => destruct b
  | |- respects _ (match ?x with _ => _ end) => destruct x
  | |- respects _ (mret _) => apply respects_ret, _
  | |- respects _ (throw _) => apply respects_throw, _
  | |- respects _ (mbind _ _) => apply respects_bind; [apply _| |intros ?]
  | |- respects _ (modify _) => apply acts_modify; intros ?; reflexivity
  | |- respects _ (alter_run _ _) => apply acts_modify; intros ?; reflexivity
  | |- respects _ (alter_connection _ _) => apply acts_modify; intros ?; reflexivity
  | |- respects _ (redactBrowserRun _ _ _) => apply acts_redact
  | |- respects _ _ => solve [auto with acts]
  | |- respects _ _ => apply acts_keeps; solve [auto with keeps]
  end.
Ltac solve_acts := repeat acts_step.

Lemma acts_remember k o : respects acts_le (remember_onboarding k o).
Proof. unfold remember_onboarding. solve_acts. Qed.
#[local] Hint Resolve acts_remember : acts.
Lemma acts_accept_existing c i r : respects acts_le (accept_existing c i r).
Proof. unfold accept_existing. solve_acts. Qed.
Lemma acts_appendEventRecord c v m : respects acts_le (appendEventRecord c v m).
Proof. unfold appendEventRecord. solve_acts. Qed.
#[local] Hint Resolve acts_accept_existing acts_appendEventRecord : acts.
Lemma acts_accept_new c i k v : respects acts_le (accept_new c i k v).
Proof. unfold accept_new, assertOrSetConversationOwner, insert_turn. solve_acts. Qed.
#[local] Hint Resolve acts_accept_new : acts.
Lemma acts_accept c i : respects acts_le (acceptMessage c i).
Proof. unfold acceptMessage. solve_acts. Qed.
Lemma acts_connect_fresh c i : respects acts_le (connect_fresh c i).
Proof. unfold connect_fresh. solve_acts. Qed.
#[local] Hint Resolve acts_connect_fresh : acts.
Lemma acts_connect c i : respects acts_le (connectBrowserClient c i).
Proof. unfold connectBrowserClient. solve_acts. Qed.
Lemma acts_cancel_each c v l : respects acts_le (cancel_each c v l).
Proof. induction l as [|[k r] l IH]; cbn; solve_acts. Qed.
#[local] Hint Resolve acts_cancel_each : acts.
Lemma acts_deliver c l : respects acts_le (deliver_all c l).
Proof.
  induction l as [|r l IH]; cbn; [solve_acts|].
  apply respects_bind; [apply _|apply acts_alter, evolves_delivered|done].
Qed.
#[local] Hint Resolve acts_deliver : acts.
Lemma acts_push c r v k j t g : respects acts_le (push_step c r v k j t g).
Proof. unfold push_step. solve_acts. Qed.
#[local] Hint Resolve acts_push : acts.
Lemma acts_apply_output c a o : respects acts_le (apply_output c a o).
Proof. unfold apply_output. solve_acts. Qed.
#[local] Hint Resolve acts_apply_output : acts.

(** A mutation of a live action that was looked up. *)
Lemma acts_alter_at k f a w :
  jget k (st_browserActions (w_st w)) = Some a → act_evolves a (f a) → acts_le w (alter_action k f w).2.
Proof.
  intros Hk Hf. split; [|done]. intros x Hx. cbn. rewrite jget_jalter. case_decide; subst; [|by exists x].
  rewrite Hx. cbn. eexists. split; [done|]. congruence.
Qed.

Lemma acts_receipt c i : respects acts_le (recordBrowserReceipt c i).
Proof.
  intros w. unfold recordBrowserReceipt, requireBrowserAction. mrun.
  destruct (jget _ (st_browserActions (w_st w))) as [a|] eqn:Ha; [|reflexivity].
  destruct (assertActionConnection_cases a (rc_connectionId i) (rc_connectionGeneration i) w) as [->|[? ->]];
    [|reflexivity].
  destruct (assertBrowserConnectionToken_cases c a (rc_connectionTokenHash i) w) as [->|[? ->]]; [|reflexivity].
  destruct (negb _); [reflexivity|]. destruct (isTerminalBrowserAction (act_state a)) eqn:Ht; [reflexivity|].
  etrans; [apply (acts_alter_at _ (set_act_state (receipt_state (act_state a) (rc_state i))) a w Ha)|].
  - by apply evolves_receipt.
  - by apply acts_same.
Qed.

Lemma acts_result c r h : respects acts_le (recordBrowserResult c r h).
Proof.
  intros w. unfold recordBrowserResult, requireBrowserAction. mrun.
  destruct (jget _ (st_browserActions (w_st w))) as [a|] eqn:Ha; [|reflexivity].
  destruct (assertActionConnection_cases a (res_connectionId r) (res_connectionGeneration r) w) as [->|[? ->]];
    [|reflexivity].
  destruct (assertBrowserConnectionToken_cases c a h w) as [->|[? ->]]; [|reflexivity].
  destruct (negb _); [reflexivity|]. destruct (isTerminalBrowserAction (act_state a)) eqn:Ht.
  { enough (respects acts_le (result_replay c a r)) as Hr by apply Hr. solve_acts. }
  etrans; [by apply (acts_alter_at _ (result_update r) a w Ha), evolves_result|].
  enough (Hrest : respects acts_le (
      _ ← push_step c (act_runId a) (act_conversationId a) tool_result
            (result_content (act_toolUseId a) (res_body r)) (act_toolUseId a) None;
      _ ← match res_body r with res_succeeded o => apply_output c a o | _ => mret tt end;
      _ ← scopedRun c (act_runId a);
      _ ← alter_run (runKey c (act_runId a)) resume_run;
      mret (mkAck true (result_state (res_body r)) (Some (act_runId a)) (Some (act_conversationId a))) : RT BrowserActionAck))
    by apply Hrest.
  solve_acts.
Qed.

Lemma acts_persist c i a :
  K ≠ browserActionKey c (act_actionId a) → respects acts_le (persist_action c i a).
Proof.
  intros Hne w. unfold persist_action. mrun. split; cbn.
  - intros x Hx. rewrite jget_jset_ne by done. by exists x.
  - intros Hok t l. cbn. rewrite lookup_insert. case_decide; subst.
    + intros [= <-]. apply seqs_below_snoc; [|done]. unfold outbox_of. cbn.
      destruct (st_browserOutbox (w_st w) !! actorScopeKey c) as [l0|] eqn:Hl; cbn; [by eapply Hok|].
      split; constructor.
    + intros Hl. eapply seqs_below_mono; [|by eapply Hok]. lia.
Qed.

Lemma acts_enqueue c i :
  K ≠ browserActionKey c (en_actionId i) → respects acts_le (enqueueBrowserAction c i).
Proof.
  intros Hne.
  assert (Hp : ∀ g cn se ep sq, respects acts_le (persist_action c i (make_action i g cn se ep sq)))
    by (intros; by apply acts_persist).
  unfold enqueueBrowserAction, enqueue_new, enqueue_commit, park_run. solve_acts.
Qed.

(** Every method, except an enqueue that reuses the action's identifier. *)
Lemma exec_action_le o w :
  (∀ c i, o = OpEnqueue c i → K ≠ browserActionKey c (en_actionId i)) → acts_le w (exec o w).
Proof.
  intros Hne. destruct (is_query o) eqn:Hq.
  { apply acts_same. by apply (query_same broker). }
  destruct o; try discriminate Hq; cbn [exec].
  all: lazymatch goal with |- acts_le _ (?m _).2 => enough (Hm : respects acts_le m) by apply Hm end.
  all: auto using acts_connect, acts_accept, acts_receipt, acts_result.
  all: try (apply acts_enqueue; by eapply Hne).
  all: unfold heartbeatBrowserConnection, setBrowserAccessGrant, listBrowserEvents, claimRun, renewRunLease,
    completeRun, failRun, cancelRun, cancelConversationRuns, appendEvent; clear Hne Hq; solve_acts.
Qed.
End progress.

Section claims.
Context {env : Env}.

(** ** Helper lemmas *)

Lemma browserActionKey_nonempty c id : browserActionKey c id ≠ "".
Proof. unfold browserActionKey, actorKey, json_array. discriminate. Qed.

Lemma exec_outbox_ok o w : outbox_ok (w_st w) → outbox_ok (w_st (exec o w)).
Proof.
  intros Hok. destruct (exec_action_le "" o w) as [_ Hb]; [|auto].
  intros c i _ Heq. symmetry in Heq. by apply browserActionKey_nonempty in Heq.
Qed.

Lemma reachable_outbox_ok w : reachable w → outbox_ok (w_st w).
Proof.
  induction 1 as [|w o _ IH]; [|by apply exec_outbox_ok]. intros t l. cbn. by rewrite lookup_empty.
Qed.

Definition record_for (p : ConnectionProof) (afterSeq : Z) (r : BrowserOutboxRecord) : Prop :=
  afterSeq < out_seq r ∧ out_clientInstallationId r = cp_clientInstallationId p
  ∧ out_connectionId r = cp_connectionId p ∧ out_connectionGeneration r = cp_connectionGeneration p.

Lemma live_records_ok p a l w :
  ∃ rs w', live_records p a l w = (inr rs, w') ∧ sublist rs l ∧ Forall (record_for p a) rs.
Proof.
  revert w. induction l as [|r l IH]; intros w; cbn [live_records]; mrun; [by do 2 eexists; split_and!|].
  destruct (_ && _) eqn:Hg.
  - destruct (IH (mkWorld (S (w_clock w)) (w_uuid w) (w_st w))) as (rs & w' & -> & Hs & Hf).
    unfold eqs in Hg. rewrite !andb_true_iff, !bool_decide_eq_true, Z.ltb_lt, Z.eqb_eq in Hg.
    destruct Hg as [[[H1 H2] H3] H4].
    do 2 eexists. split; [reflexivity|]. case_match; (split; [by constructor|]); [|done].
    constructor; [|done]. by split_and!.
  - destruct (IH w) as (rs & w' & -> & Hs & Hf). do 2 eexists. split_and!; [done|by constructor|done].
Qed.

Lemma js_slice_sublist {A} n (l : list A) : 0 ≤ n →
  sublist (js_slice 0 n l) l ∧ Z.of_nat (length (js_slice 0 n l)) ≤ n.
Proof.
  intros Hn. unfold js_slice, js_rel_index. cbn [Z.ltb Z.compare]. rewrite (proj2 (Z.ltb_ge _ _)) by lia.
  replace (Z.to_nat (Z.min 0 _)) with 0%nat by lia. rewrite Nat.sub_0_r, drop_0. split.
  - apply sublist_take.
  - rewrite length_take. lia.
Qed.

Lemma outbox_of_ok c w :
  reachable w → seqs_below (st_nextBrowserOutboxSequence (w_st w)) (outbox_of c (w_st w)).
Proof.
  intros Hw. unfold outbox_of. destruct (st_browserOutbox (w_st w) !! actorScopeKey c) as [l|] eqn:Hl.
  - by eapply reachable_outbox_ok.
  - split; constructor.
Qed.

Lemma sublist_Forall {A} (P : A → Prop) l1 l2 : sublist l1 l2 → Forall P l2 → Forall P l1.
Proof.
  intros Hs. rewrite !Forall_forall. intros HP x Hx. apply HP. by eapply elem_of_sublist.
Qed.

(** A connect that did not resume registered a fresh connection. *)
Lemma connect_not_resumed c input w view w' :
  connectBrowserClient c input w = (inr (view, false), w') →
  ∃ w0, w_st w0 = w_st w ∧ connect_fresh c input w0 = (inr (view, false), w').
Proof.
  unfold connectBrowserClient. mrun. destruct (assertContext_cases c w) as [->|[? ->]]; [|discriminate].
  destruct (cn_resume input) as [r|]; [|by exists w].
  destruct (st_browserConnections (w_st w) !! _) as [x|]; [|by exists w]. cbn.
  destruct (can_resume _ _ _ _ _ _ _); [discriminate|]. cbn. intros Heq.
  by exists (mkWorld (S (w_clock w)) (w_uuid w) (w_st w)).
Qed.

Lemma connect_fresh_state c input w :
  let key := browserClientKey c (cn_clientInstallationId input) in
  let g := default 0 (st_browserConnectionGenerations (w_st w) !! key) + 1 in
  ∃ view w' x, connect_fresh c input w = (inr (view, false), w') ∧ view_connectionGeneration view = g ∧
    st_browserConnectionGenerations (w_st w') !! key = Some g ∧
    currentBrowserConnection c (cn_clientInstallationId input) (w_st w') = Some x ∧
    conn_connectionGeneration x = g.
Proof.
  unfold connect_fresh, alter_connection. mrun.
  set (key := browserClientKey c (cn_clientInstallationId input)).
  destruct (st_currentBrowserConnections (w_st w) !! key) as [ck|] eqn:Hck;
    [destruct (currentBrowserConnection c _ (w_st w)) as [cur|]|]; cbn.
  all: do 3 eexists; split; [reflexivity|]; cbn; fold key.
  all: unfold currentBrowserConnection; cbn; fold key; rewrite !lookup_insert, !decide_True by done.
  all: split; [reflexivity|]; split; [reflexivity|].
  all: unfold truthy, browserConnectionKey, actorKey, json_array; cbn; split; [by rewrite lookup_insert, decide_True|done].
Qed.

(** The part of [recordBrowserResult] after the action was updated. *)
Definition acts_conns (s : Store) := (st_browserActions s, st_browserConnections s).

Definition result_tail (c : TenantExecutionContext) (r : BrowserBrokerResultRequest) (a : BrowserActionRecord)
    : RT BrowserActionAck :=
  _ ← push_step c (act_runId a) (act_conversationId a) tool_result
        (result_content (act_toolUseId a) (res_body r)) (act_toolUseId a) None;
  _ ← match res_body r with res_succeeded o => apply_output c a o | _ => mret tt end;
  _ ← scopedRun c (act_runId a);
  _ ← alter_run (runKey c (act_runId a)) resume_run;
  mret (mkAck true (result_state (res_body r)) (Some (act_runId a)) (Some (act_conversationId a))).

Lemma result_tail_ok c r a w ack w' :
  result_tail c r a w = (inr ack, w') →
  ack = mkAck true (result_state (res_body r)) (Some (act_runId a)) (Some (act_conversationId a)) ∧
  acts_conns (w_st w') = acts_conns (w_st w) ∧
  st_runs (w_st w') = jalter resume_run (runKey c (act_runId a)) (st_runs (w_st w)) ∧
  (∀ w0, assertContext c w0 = (inr tt, w0)).
Proof.
  unfold result_tail. intros Heq.
  assert (Hac : acts_conns (w_st w') = acts_conns (w_st w)).
  { enough (Hk : keeps acts_conns (result_tail c r a)) by (specialize (Hk w); unfold result_tail in Hk;
      rewrite Heq in Hk; apply Hk).
    unfold result_tail, push_step, apply_output, alter_run. solve_keeps. }
  revert Heq. unfold mbind, M_bind.
  destruct (push_step c _ _ _ _ _ _ w) as [[e|[]] w1] eqn:H1; [discriminate|].
  assert (Hb1 : same base w w1) by (eapply keeps_eq, H1; auto with keeps).
  destruct (match res_body r with res_succeeded o => apply_output c a o | _ => mret tt end w1)
    as [[e|[]] w2] eqn:H2; [discriminate|].
  assert (Hb2 : same base w1 w2).
  { eapply (keeps_eq base), H2. destruct (res_body r); [auto with keeps|apply keeps_ret..]. }
  unfold scopedRun. mrun.
  destruct (assertContext_cases c w2) as [Hc|[? Hc]]; rewrite Hc; [|discriminate]. cbn.
  intros [= <- <-]. split_and!; [done|done| |].
  - destruct Hb1 as (Hb1 & _). destruct Hb2 as (Hb2 & _). unfold base, core in Hb1, Hb2.
    injection Hb1 as Hr1 _ _ _ _ _ _ _. injection Hb2 as Hr2 _ _ _ _ _ _ _. cbn. by rewrite Hr2, Hr1.
  - intros w0. by eapply assertContext_any.
Qed.

(** ** Claims *)

(** C5. A browser action only moves forward: over any sequence of calls that
    does not enqueue a new action under the same key, the stored action keeps
    the fields it was created with, its state never goes back, and once it is
    terminal its state and result hash are final. *)
Theorem browser_action_progress K ops w a :
  Forall (λ o, ∀ c i, o = OpEnqueue c i → K ≠ browserActionKey c (en_actionId i)) ops →
  jget K (st_browserActions (w_st w)) = Some a →
  ∃ a', jget K (st_browserActions (w_st (exec_all ops w))) = Some a' ∧ action_identity a' = action_identity a
    ∧ action_rank (act_state a) ≤ action_rank (act_state a')
    ∧ (isTerminalBrowserAction (act_state a) = true →
       act_state a' = act_state a ∧ act_resultHash a' = act_resultHash a).
Proof.
  intros Hops. revert w a. induction Hops as [|o ops Ho Hops IH]; intros w a Ha; cbn.
  { exists a. by split_and!. }
  destruct (exec_action_le K o w Ho) as [Hstep _]. destruct (Hstep a Ha) as (a1 & Ha1 & Hev1).
  destruct (IH _ a1 Ha1) as (a2 & Ha2 & Hev2). exists a2. split; [done|].
  apply (transitivity (R := act_evolves) Hev1 Hev2).
Qed.

(** Polling delivers in order: in a reachable state the records a client
    gets are those of its own connection and generation with a sequence number
    above its cursor, in strictly increasing order, at most [limit] of them. *)
Theorem listBrowserEvents_ordered c p after limit w rs w' :
  reachable w → 0 ≤ limit → listBrowserEvents c p after limit w = (inr rs, w') →
  StronglySorted (λ a b, out_seq a < out_seq b) rs ∧ Forall (record_for p after) rs
  ∧ sublist rs (outbox_of c (w_st w)) ∧ Z.of_nat (length rs) ≤ limit.
Proof.
  intros Hw Hlim. unfold listBrowserEvents. mrun.
  destruct (currentBrowserConnection _ _ _) as [x|]; [|discriminate].
  destruct (connection_proved _ _ _); [|discriminate].
  destruct (live_records_ok p after (outbox_of c (w_st w)) (mkWorld (S (w_clock w)) (w_uuid w) (w_st w)))
    as (live & w1 & Hlive & Hs & Hf).
  mrun. rewrite Hlive. cbn.
  destruct (deliver_all _ _ _) as [[e|[]] w2]; [discriminate|]. intros [= <- _].
  destruct (js_slice_sublist limit live Hlim) as [Hsl Hlen].
  assert (Hsub : sublist (js_slice 0 limit live) (outbox_of c (w_st w))) by by etrans.
  destruct (outbox_of_ok c w Hw) as [Hso _].
  split_and!; [by eapply StronglySorted_sublist|by eapply (sublist_Forall _ _ live)|done|done].
Qed.

(** A new connection supersedes the one before it: the generation is one
    higher than any the client had, and a client that presents another
    generation is refused, by heartbeats with no answer and by polling with an
    error, without any change. *)
Theorem connect_supersedes c input w view w' p e after limit :
  connectBrowserClient c input w = (inr (view, false), w') →
  cp_clientInstallationId p = cn_clientInstallationId input →
  let g := default 0 (st_browserConnectionGenerations (w_st w)
             !! browserClientKey c (cn_clientInstallationId input)) + 1 in
  view_connectionGeneration view = g ∧
  st_browserConnectionGenerations (w_st w') !! browserClientKey c (cn_clientInstallationId input) = Some g ∧
  (cp_connectionGeneration p ≠ g →
   (heartbeatBrowserConnection c p e w').1 = inr None ∧
   w_st (heartbeatBrowserConnection c p e w').2 = w_st w' ∧
   (listBrowserEvents c p after limit w').1 = inl (mkStoreError "Browser connection is stale." stale_connection) ∧
   w_st (listBrowserEvents c p after limit w').2 = w_st w').
Proof.
  intros Hconn Hp g. apply connect_not_resumed in Hconn as (w0 & Hst & Hfresh).
  destruct (connect_fresh_state c input w0) as (view1 & w1 & x & Heq & Hv & Hgen & Hcur & Hxg).
  rewrite Hfresh in Heq. injection Heq as <- <-. rewrite Hst in Hv, Hgen, Hxg. fold g in Hv, Hgen, Hxg.
  split_and!; [done..|]. intros Hne.
  assert (Hno : ∀ n, connection_proved p n x = false).
  { intros n. unfold connection_proved. rewrite Hxg, (proj2 (Z.eqb_neq _ _)) by done.
    by rewrite andb_false_r. }
  unfold heartbeatBrowserConnection, listBrowserEvents. mrun. rewrite Hp, Hcur. cbn. rewrite !Hno. by split_and!.
Qed.

(** A result is recorded once.  The first result of a live action ends
    the action with the reported state, and a run that waited for the browser
    becomes runnable; sending the same result again is acknowledged with the
    same state and changes nothing; another result is a conflict and changes
    nothing. *)
Theorem recordBrowserResult_once c r h w ack w' r2 :
  recordBrowserResult c r h w = (inr ack, w') →
  (∀ a, jget (browserActionKey c (res_actionId r)) (st_browserActions (w_st w)) = Some a →
        isTerminalBrowserAction (act_state a) = false) →
  res_actionId r2 = res_actionId r → res_operationHash r2 = res_operationHash r →
  res_connectionId r2 = res_connectionId r → res_connectionGeneration r2 = res_connectionGeneration r →
  ack_canonicalState ack = result_state (res_body r) ∧
  (∃ runId, ack_runId ack = Some runId ∧
     ∀ x, jget (runKey c runId) (st_runs (w_st w)) = Some x → run_status x = waiting_for_browser →
       run_status <$> jget (runKey c runId) (st_runs (w_st w')) = Some queued) ∧
  (res_resultHash r2 = res_resultHash r →
     ∃ ack2, recordBrowserResult c r2 h w' = (inr ack2, w') ∧ ack_canonicalState ack2 = result_state (res_body r)) ∧
  (res_resultHash r2 ≠ res_resultHash r →
     recordBrowserResult c r2 h w' =
       (inl (mkStoreError "Browser action has conflicting terminal evidence." action_conflict), w')).
Proof.
  intros Hrec Hlive Ha2 Ho2 Hc2 Hg2. revert Hrec. unfold recordBrowserResult at 1, requireBrowserAction at 1. mrun.
  destruct (jget _ (st_browserActions (w_st w))) as [a|] eqn:Ha; [|discriminate]. specialize (Hlive a eq_refl).
  destruct (assertActionConnection_cases a (res_connectionId r) (res_connectionGeneration r) w) as [Hac|[? Hac]];
    rewrite Hac; [|discriminate].
  destruct (assertBrowserConnectionToken_cases c a h w) as [Htok|[? Htok]]; rewrite Htok; [|discriminate].
  destruct (eqs (act_operationHash a) (res_operationHash r)) eqn:Hop; [|discriminate]. cbn. rewrite Hlive.
  intros Htail. apply (result_tail_ok c r a) in Htail as (-> & Hacts & Hruns & Hctx).
  unfold acts_conns in Hacts. injection Hacts as Hacts Hconns. cbn in Hacts, Hconns, Hruns.
  split; [done|]. split.
  { exists (act_runId a). split; [done|]. intros x Hx Hw. rewrite Hruns, jget_jalter, decide_True, Hx by done.
    cbn. unfold resume_run. by rewrite bool_decide_eq_true_2. }
  assert (Hk' : jget (browserActionKey c (res_actionId r)) (st_browserActions (w_st w')) = Some (result_update r a))
    by by rewrite Hacts, jget_jalter, decide_True, Ha.
  assert (Hrep : recordBrowserResult c r2 h w' = result_replay c (result_update r a) r2 w').
  { unfold recordBrowserResult, requireBrowserAction. mrun. rewrite Ha2, Hk'.
    revert Hac Htok. unfold assertActionConnection, assertBrowserConnectionToken. mrun. rewrite Hc2, Hg2, Ho2. cbn.
    destruct (_ || _); [discriminate|]. intros _. cbn. rewrite Hconns.
    destruct (st_browserConnections (w_st w) !! _) as [x|]; [|discriminate].
    destruct (eqs (conn_resumeTokenHash x) h); [|discriminate]. intros _. cbn. rewrite Hop. cbn. by destruct (res_body r). }
  rewrite Hrep. unfold result_replay, scopedRun. cbn. split; intros Hh.
  - rewrite Hh. unfold eqos. rewrite bool_decide_eq_true_2 by done. mrun. rewrite Hctx. cbn. by eexists.
  - unfold eqos. rewrite bool_decide_eq_false_2 by congruence. done.
Qed.
End claims.

(** ** A browser action from enqueue to result *)

Definition demo_connect (id token : string) :=
  mkConnectInput "client" [browser_broker_v1] 1000 id token None.
Definition demo_enqueue :=
  mkEnqueueInput "u0" "u2" "tool" "action" op_status "hash" recomputable None 1000 (Some "worker") None None.
Definition demo_proof := mkConnectionProof "client" "conn" 1 "token".
Definition demo_result (resultHash : string) :=
  mkResult "action" "hash" "conn" 1 resultHash None (res_succeeded (out_status true)).

(** Conversation u0, run u2, claimed; one client; the action enqueued. *)
Definition demo_browser : World Store := exec_all
  [OpAccept demo_ctx (mkAcceptInput None "open the page" None None); OpClaim demo_ctx "u2" "worker" 1000;
   OpConnect demo_ctx (demo_connect "conn" "token"); OpSetGrant demo_ctx "u0" "client" true;
   OpEnqueue demo_ctx demo_enqueue] init_world.

Definition demo_action (w : World Store) : BrowserActionRecord :=
  default (make_action demo_enqueue (mkGrant "" "" false 0) (mkConnection "" "" 0 [] conn_active 0 0 0 "") None None 0)
    (jget (browserActionKey demo_ctx "action") (st_browserActions (w_st w))).

Lemma demo_browser_reachable : reachable demo_browser.
Proof. apply reachable_all. constructor. Qed.

(** Witness of C5: the enqueued action after delivery, a receipt and a result. *)
Lemma browser_action_progress_witness :
  ∃ a', jget (browserActionKey demo_ctx "action") (st_browserActions (w_st (exec_all
      [OpListBrowserEvents demo_ctx demo_proof 0 10; OpResult demo_ctx (demo_result "r") "token"] demo_browser))) = Some a'
    ∧ action_identity a' = action_identity (demo_action demo_browser).
Proof.
  destruct (browser_action_progress (browserActionKey demo_ctx "action")
    [OpListBrowserEvents demo_ctx demo_proof 0 10; OpResult demo_ctx (demo_result "r") "token"]
    demo_browser (demo_action demo_browser)) as (a' & Ha & Hid & _).
  - repeat constructor; intros; discriminate.
  - vm_compute; reflexivity.
  - exists a'. split; [exact Ha|exact Hid].
Defined.

(** For example: the one record of the outbox. *)
Lemma listBrowserEvents_ordered_witness :
  ∃ rs w', listBrowserEvents demo_ctx demo_proof 0 10 demo_browser = (inr rs, w') ∧ length rs = 1%nat ∧
    StronglySorted (λ a b, out_seq a < out_seq b) rs.
Proof.
  assert (Heq := returned_eq (listBrowserEvents demo_ctx demo_proof 0 10) [] demo_browser).
  eexists _, _. split; [apply Heq; vm_compute; reflexivity|]. split; [vm_compute; reflexivity|].
  destruct (listBrowserEvents_ordered demo_ctx demo_proof 0 10 demo_browser _ _ demo_browser_reachable ltac:(lia)
    (Heq ltac:(vm_compute; reflexivity))) as (Hsorted & _). exact Hsorted.
Defined.

Definition demo_view : BrowserConnectionView :=
  (ok_or (mkConnectionView "" "" 0 [] conn_active 0 0 0, true)
    (connectBrowserClient demo_ctx (demo_connect "conn2" "token2") demo_browser).1).1.
Definition demo_reconnected : World Store := exec (OpConnect demo_ctx (demo_connect "conn2" "token2")) demo_browser.

(** For example: the client connects again and the first connection is refused. *)
Lemma connect_supersedes_witness :
  ∃ view w', connectBrowserClient demo_ctx (demo_connect "conn2" "token2") demo_browser = (inr (view, false), w') ∧
    view_connectionGeneration view = 2 ∧ (heartbeatBrowserConnection demo_ctx demo_proof 2000 w').1 = inr None.
Proof.
  assert (Heq : connectBrowserClient demo_ctx (demo_connect "conn2" "token2") demo_browser
                = (inr (demo_view, false), demo_reconnected)) by (vm_compute; reflexivity).
  destruct (connect_supersedes demo_ctx (demo_connect "conn2" "token2") demo_browser demo_view demo_reconnected
    demo_proof 2000 0 10 Heq eq_refl) as (_ & _ & Hrefused).
  exists demo_view, demo_reconnected. split; [exact Heq|]. split; [vm_compute; reflexivity|].
  destruct Hrefused as (Hhb & _); [vm_compute; discriminate|exact Hhb].
Defined.

(** For example: the result sent twice. *)
Lemma recordBrowserResult_once_witness :
  ∃ ack w' ack2, recordBrowserResult demo_ctx (demo_result "r") "token" demo_browser = (inr ack, w') ∧
    recordBrowserResult demo_ctx (demo_result "r") "token" w' = (inr ack2, w') ∧ ack_canonicalState ack2 = act_succeeded.
Proof.
  assert (Heq := returned_eq (recordBrowserResult demo_ctx (demo_result "r") "token")
    (mkAck false act_queued None None) demo_browser ltac:(vm_compute; reflexivity)).
  remember (ok_or (mkAck false act_queued None None) (recordBrowserResult demo_ctx (demo_result "r") "token" demo_browser).1)
    as ack eqn:Hack.
  remember (recordBrowserResult demo_ctx (demo_result "r") "token" demo_browser).2 as w' eqn:Hw'. clear Hack Hw'.
  destruct (recordBrowserResult_once demo_ctx (demo_result "r") "token" demo_browser ack w' (demo_result "r") Heq)
    as (_ & _ & Hsame & _).
  - assert (Hl : option_map (λ a, isTerminalBrowserAction (act_state a))
        (jget (browserActionKey demo_ctx (res_actionId (demo_result "r"))) (st_browserActions (w_st demo_browser))) = Some false)
      by (vm_compute; reflexivity).
    intros a Ha. rewrite Ha in Hl. injection Hl as Hl. exact Hl.
  - reflexivity.
  - reflexivity.
  - reflexivity.
  - reflexivity.
  - destruct (Hsame eq_refl) as (ack2 & H2 & H3). exists ack, w', ack2. split; [exact Heq|]. split; [exact H2|exact H3].
Defined.
