(* ===== verification/FairScheduler.v ===== *)
(** * The fair tenant scheduler

    [FairTenantScheduler] of
    src/assistant/src/concurrent-runtime/fair-scheduler.ts: per-tenant queues
    served round robin under a global and a per-tenant concurrency limit.

    A task is known by its tenant key and a number.  Running a task is code the
    scheduler is given: what the scheduler sees of it is the enqueues it makes
    before its first [await] ([sync_enqueues]) and, later, its settlement
    ([finish]).  The tasks whose promise is pending are the list [sc_running];
    [sc_trace] records what can be observed, in order.  The [while] loop of
    [drain] runs on fuel; [drain_terminates] shows that some fuel is always
    enough, whatever the tasks enqueue. *)
From S2P Require Import Prelude.

#[local] Arguments jkeys : simpl never.
#[local] Arguments jset : simpl never.
#[local] Arguments jdel : simpl never.

(** [tenantKey], and a number that stands for [execute] *)
Record ScheduledTask := mkTask { task_tenantKey : string; task_execute : nat }.

#[global] Instance ScheduledTask_eq_dec : EqDecision ScheduledTask.
Proof. solve_decision. Defined.

Inductive Observation :=
  | Accepted (t : ScheduledTask)
  | Started (t : ScheduledTask)
  | IdleResolved (waiter : nat).

Record Sched := mkSched {
  sc_queues : jsmap string (list ScheduledTask);
  sc_tenantOrder : list string;
  sc_activeByTenant : gmap string Z;
  sc_idleWaiters : list nat;
  sc_active : Z;
  sc_draining : bool;
  sc_running : list ScheduledTask;
  sc_trace : list Observation;
}.

Section scheduler.
(** The options, and the enqueues each task makes synchronously. *)
Context (maxConcurrent maxConcurrentPerTenant : Z).
Context (sync_enqueues : nat → list (string * nat)).

(** [positiveInteger] on both options; [None] when the constructor throws. *)
Definition new_scheduler : option Sched :=
  if (maxConcurrent <? 1) || (maxConcurrentPerTenant <? 1) then None
  else Some (mkSched [] [] ∅ [] 0 false [] []).

Definition isIdle (s : Sched) : bool :=
  (sc_active s =? 0) && (length (sc_queues s) =? 0)%nat.

Definition notifyIdle (s : Sched) : Sched :=
  if isIdle s then
    mkSched (sc_queues s) (sc_tenantOrder s) (sc_activeByTenant s) [] (sc_active s) (sc_draining s)
      (sc_running s) (sc_trace s ++ (IdleResolved <$> sc_idleWaiters s))
  else s.

(** The part of [enqueue] before [this.drain()]. *)
Definition push_task (t : ScheduledTask) (s : Sched) : Sched :=
  match jget (task_tenantKey t) (sc_queues s) with
  | Some queue =>
      mkSched (jalter (λ q, q ++ [t]) (task_tenantKey t) (sc_queues s)) (sc_tenantOrder s)
        (sc_activeByTenant s) (sc_idleWaiters s) (sc_active s) (sc_draining s)
        (sc_running s) (sc_trace s ++ [Accepted t])
  | None =>
      mkSched (jset (task_tenantKey t) [t] (sc_queues s)) (sc_tenantOrder s ++ [task_tenantKey t])
        (sc_activeByTenant s) (sc_idleWaiters s) (sc_active s) (sc_draining s)
        (sc_running s) (sc_trace s ++ [Accepted t])
  end.

(** Enqueues made while [draining] is set: the nested [drain] returns at once.
    An empty tenant key throws inside the task and ends its synchronous part. *)
Fixpoint reenter (l : list (string * nat)) (s : Sched) : Sched :=
  match l with
  | [] => s
  | (key, n) :: l' => if truthy key then reenter l' (push_task (mkTask key n) s) else s
  end.

(** Take the first task of the tenant's queue and start it. *)
Definition dispatch (tenantKey : string) (order : list string) (task : ScheduledTask)
    (rest : list ScheduledTask) (tenantActive : Z) (s : Sched) : Sched :=
  let queues := match rest with
                | [] => jdel tenantKey (sc_queues s)
                | _ => jset tenantKey rest (sc_queues s)
                end in
  let order' := match rest with [] => order | _ => order ++ [tenantKey] end in
  reenter (sync_enqueues (task_execute task))
    (mkSched queues order' (<[tenantKey := tenantActive + 1]> (sc_activeByTenant s)) (sc_idleWaiters s)
      (sc_active s + 1) (sc_draining s) (sc_running s ++ [task]) (sc_trace s ++ [Started task])).

(** One iteration of the loop; [None] when its condition is false. *)
Definition drain_step (s : Sched) (scanned : nat) : option (Sched * nat) :=
  if (sc_active s <? maxConcurrent) && (0 <? length (sc_tenantOrder s))%nat
     && (scanned <? length (sc_tenantOrder s))%nat
  then
    match sc_tenantOrder s with
    | [] => None
    | tenantKey :: order =>
        match jget tenantKey (sc_queues s) with
        | None | Some [] =>
            Some (mkSched (jdel tenantKey (sc_queues s)) order (sc_activeByTenant s) (sc_idleWaiters s)
                    (sc_active s) (sc_draining s) (sc_running s) (sc_trace s), scanned)
        | Some (task :: rest) =>
            let tenantActive := default 0 (sc_activeByTenant s !! tenantKey) in
            if maxConcurrentPerTenant <=? tenantActive
            then Some (mkSched (sc_queues s) (order ++ [tenantKey]) (sc_activeByTenant s) (sc_idleWaiters s)
                         (sc_active s) (sc_draining s) (sc_running s) (sc_trace s), S scanned)
            else Some (dispatch tenantKey order task rest tenantActive s, 0%nat)
        end
    end
  else None.

Fixpoint drain_loop (fuel : nat) (s : Sched) (scanned : nat) : option Sched :=
  match fuel with
  | O => None
  | S fuel' =>
      match drain_step s scanned with
      | None => Some s
      | Some (s', scanned') => drain_loop fuel' s' scanned'
      end
  end.

Definition set_draining (b : bool) (s : Sched) : Sched :=
  mkSched (sc_queues s) (sc_tenantOrder s) (sc_activeByTenant s) (sc_idleWaiters s) (sc_active s) b
    (sc_running s) (sc_trace s).

(** [drain]; [None] only for want of fuel. *)
Definition drain (fuel : nat) (s : Sched) : option Sched :=
  if sc_draining s then Some s
  else notifyIdle ∘ set_draining false <$> drain_loop fuel (set_draining true s) 0.

(** The outer option is for want of fuel, the inner error for an empty key. *)
Definition enqueue (fuel : nat) (tenantKey : string) (execute : nat) (s : Sched) : option (string + Sched) :=
  if truthy tenantKey then inr <$> drain fuel (push_task (mkTask tenantKey execute) s)
  else Some (inl "Scheduler tenant key is required.").

(** The [finally] handler of the [i]-th running task. *)
Definition settle (i : nat) (task : ScheduledTask) (s : Sched) : Sched :=
  let remaining := default 1 (sc_activeByTenant s !! task_tenantKey task) - 1 in
  mkSched (sc_queues s) (sc_tenantOrder s)
    (if 0 <? remaining then <[task_tenantKey task := remaining]> (sc_activeByTenant s)
     else delete (task_tenantKey task) (sc_activeByTenant s))
    (sc_idleWaiters s) (sc_active s - 1) (sc_draining s)
    (take i (sc_running s) ++ drop (S i) (sc_running s)) (sc_trace s).

Definition finish (fuel : nat) (i : nat) (s : Sched) : option Sched :=
  match sc_running s !! i with
  | Some task => notifyIdle <$> drain fuel (settle i task s)
  | None => Some s
  end.

Definition onIdle (waiter : nat) (s : Sched) : Sched :=
  if isIdle s then
    mkSched (sc_queues s) (sc_tenantOrder s) (sc_activeByTenant s) (sc_idleWaiters s) (sc_active s)
      (sc_draining s) (sc_running s) (sc_trace s ++ [IdleResolved waiter])
  else
    mkSched (sc_queues s) (sc_tenantOrder s) (sc_activeByTenant s) (sc_idleWaiters s ++ [waiter]) (sc_active s)
      (sc_draining s) (sc_running s) (sc_trace s).

(** [snapshot()]: active, pending, tenants *)
Definition snapshot (s : Sched) : Z * nat * nat :=
  (sc_active s, foldl (λ n q, n + length q)%nat 0%nat (jvalues (sc_queues s)), length (sc_queues s)).

(** ** Termination *)

Lemma reenter_active l s : sc_active (reenter l s) = sc_active s.
Proof.
  revert s. induction l as [|[k n] l IH]; intros s; cbn; [done|]. case_match; [|done].
  rewrite IH. unfold push_task. by case_match.
Qed.

(** Each iteration starts a task, or leaves fewer tenants to scan. *)
Lemma drain_step_decreases s n s' n' :
  drain_step s n = Some (s', n') →
  sc_active s < maxConcurrent ∧
  (sc_active s' = sc_active s + 1 ∨
   sc_active s' = sc_active s ∧ (length (sc_tenantOrder s') - n' < length (sc_tenantOrder s) - n)%nat).
Proof.
  unfold drain_step. destruct (_ && _) eqn:Hc; [|done].
  rewrite !andb_true_iff, Z.ltb_lt, !Nat.ltb_lt in Hc. destruct Hc as [[Ha _] Hn]. intros Hs. split; [done|].
  destruct (sc_tenantOrder s) as [|t order] eqn:Ho; [done|]. cbn in Hn.
  destruct (jget t (sc_queues s)) as [[|task rest]|]; [| |].
  - injection Hs as <- <-. right. cbn. lia.
  - case_match; injection Hs as <- <-; [right|left].
    + cbn. rewrite length_app. cbn. lia.
    + unfold dispatch. by rewrite reenter_active.
  - injection Hs as <- <-. right. cbn. lia.
Qed.

Lemma drain_loop_terminates s n : ∃ fuel s', drain_loop fuel s n = Some s'.
Proof.
  remember (Z.to_nat (maxConcurrent - sc_active s)) as a eqn:Ha.
  remember (length (sc_tenantOrder s) - n)%nat as b eqn:Hb. revert b s n Ha Hb.
  induction (lt_wf a) as [a _ IHa]. intros b. induction (lt_wf b) as [b _ IHb]. intros s n Ha Hb.
  destruct (drain_step s n) as [[s1 n1]|] eqn:Hs; [|by exists 1%nat, s; cbn; rewrite Hs].
  destruct (drain_step_decreases _ _ _ _ Hs) as [Hlt [Hact|[Hact Hlen]]].
  - destruct (IHa (Z.to_nat (maxConcurrent - sc_active s1))) with
      (b := (length (sc_tenantOrder s1) - n1)%nat) (s := s1) (n := n1) as (f & s' & Hf); [lia|done|done|].
    exists (S f), s'. cbn. by rewrite Hs.
  - destruct (IHb (length (sc_tenantOrder s1) - n1)%nat) with (s := s1) (n := n1) as (f & s' & Hf);
      [lia|lia|done|].
    exists (S f), s'. cbn. by rewrite Hs.
Qed.

Lemma drain_loop_mono fuel fuel' s n s' :
  drain_loop fuel s n = Some s' → (fuel ≤ fuel')%nat → drain_loop fuel' s n = Some s'.
Proof.
  revert fuel' s n. induction fuel as [|fuel IH]; intros [|fuel'] s n; cbn; try done; [lia|].
  destruct (drain_step s n) as [[s1 n1]|]; [|done]. intros Hf Hle. apply IH; [done|lia].
Qed.

(** ** The invariant *)

Definition of_tenant (t : string) (l : list ScheduledTask) : list ScheduledTask :=
  filter (λ x, task_tenantKey x = t) l.
Definition running_of (t : string) (s : Sched) : Z := Z.of_nat (length (of_tenant t (sc_running s))).

Definition accepted (tr : list Observation) : list ScheduledTask :=
  omap (λ o, match o with Accepted t => Some t | _ => None end) tr.
Definition started (tr : list Observation) : list ScheduledTask :=
  omap (λ o, match o with Started t => Some t | _ => None end) tr.

#[local] Arguments of_tenant : simpl never.
#[local] Arguments accepted : simpl never.
#[local] Arguments started : simpl never.

Record sched_inv (s : Sched) : Prop := {
  si_active : sc_active s = Z.of_nat (length (sc_running s));
  si_max : sc_active s ≤ maxConcurrent;
  si_count : ∀ t, default 0 (sc_activeByTenant s !! t) = running_of t s;
  si_live : ∀ t n, sc_activeByTenant s !! t = Some n → 0 < n;
  si_cap : ∀ t, running_of t s ≤ maxConcurrentPerTenant;
  si_order : NoDup (sc_tenantOrder s);
  si_keys : ∀ t, t ∈ sc_tenantOrder s ↔ is_Some (jget t (sc_queues s));
  si_nodup : NoDup (jkeys (sc_queues s));
  si_queues : ∀ t q, jget t (sc_queues s) = Some q → q ≠ [] ∧ Forall (λ x, task_tenantKey x = t) q;
  si_fifo : ∀ t, of_tenant t (accepted (sc_trace s)) =
    of_tenant t (started (sc_trace s)) ++ default [] (jget t (sc_queues s));
}.

Lemma of_tenant_app t l1 l2 : of_tenant t (l1 ++ l2) = of_tenant t l1 ++ of_tenant t l2.
Proof. apply filter_app. Qed.
Lemma of_tenant_cons t x l :
  of_tenant t (x :: l) = if decide (task_tenantKey x = t) then x :: of_tenant t l else of_tenant t l.
Proof. unfold of_tenant. rewrite filter_cons. by case_decide. Qed.
Lemma of_tenant_one t x : of_tenant t [x] = if decide (task_tenantKey x = t) then [x] else [].
Proof. unfold of_tenant. cbn. by case_decide. Qed.
Lemma accepted_app l1 l2 : accepted (l1 ++ l2) = accepted l1 ++ accepted l2.
Proof. apply omap_app. Qed.
Lemma started_app l1 l2 : started (l1 ++ l2) = started l1 ++ started l2.
Proof. apply omap_app. Qed.

Lemma push_task_inv t s : sched_inv s → sched_inv (push_task t s).
Proof.
  intros [Ha Hm Hc Hlive Hcap Ho Hk Hn Hq Hf]. unfold push_task.
  set (key := task_tenantKey t). destruct (jget key (sc_queues s)) as [q0|] eqn:Hget.
  - constructor; try done; cbn.
    + intros t'. rewrite Hk, jget_jalter. case_decide; subst; [|done]. by rewrite fmap_is_Some.
    + by rewrite jkeys_jalter.
    + intros t' q. rewrite jget_jalter. case_decide; subst; [|apply Hq]. rewrite Hget. intros [= <-].
      split; [by destruct q0|]. apply Forall_app. split; [by apply Hq|]. by repeat constructor.
    + intros t'. rewrite accepted_app, started_app, !of_tenant_app, Hf, jget_jalter.
      change (accepted [Accepted t]) with [t]. change (of_tenant t' (started [Accepted t])) with (@nil ScheduledTask).
      rewrite of_tenant_one, (app_nil_r (of_tenant t' (started _))). fold key. case_decide; [subst t'|].
      * rewrite Hget. cbn. by rewrite app_assoc.
      * by rewrite app_nil_r.
  - assert (Hnin : key ∉ sc_tenantOrder s) by (rewrite Hk, Hget; by intros [? ?]).
    constructor; try done; cbn.
    + apply NoDup_app. split_and!; [done| |apply NoDup_singleton]. set_solver.
    + intros t'. rewrite elem_of_app, list_elem_of_singleton, Hk, jget_jset. case_decide; naive_solver.
    + by apply jkeys_jset_NoDup.
    + intros t' q. rewrite jget_jset. case_decide; subst; [|apply Hq]. intros [= <-].
      split; [done|]. by repeat constructor.
    + intros t'. rewrite accepted_app, started_app, !of_tenant_app, Hf, jget_jset.
      change (accepted [Accepted t]) with [t]. change (of_tenant t' (started [Accepted t])) with (@nil ScheduledTask).
      rewrite of_tenant_one, (app_nil_r (of_tenant t' (started _))). fold key. case_decide; [subst t'|].
      * by rewrite Hget, app_nil_r.
      * by rewrite app_nil_r.
Qed.

Lemma reenter_inv l s : sched_inv s → sched_inv (reenter l s).
Proof.
  revert s. induction l as [|[k n] l IH]; intros s Hs; cbn; [done|].
  case_match; [|done]. by apply IH, push_task_inv.
Qed.

Lemma running_of_snoc t x r :
  Z.of_nat (length (of_tenant t (r ++ [x]))) =
  (if decide (task_tenantKey x = t) then Z.of_nat (length (of_tenant t r)) + 1 else Z.of_nat (length (of_tenant t r))).
Proof. rewrite of_tenant_app, length_app, of_tenant_one. case_decide; cbn; lia. Qed.

(** What [dispatch] does to the queues, for a tenant [t] whose queue was
    [task :: rest]. *)
Lemma dispatch_queues t task rest (q q' : jsmap string (list ScheduledTask)) :
  jget t q = Some (task :: rest) →
  q' = match rest with [] => jdel t q | _ => jset t rest q end →
  ∀ t', jget t' q' = if decide (t = t') then match rest with [] => None | _ => Some rest end else jget t' q.
Proof.
  intros Hget -> t'. destruct rest; [rewrite jget_jdel|rewrite jget_jset]; by case_decide.
Qed.

Lemma dispatch_inv t order task rest s :
  sched_inv s → sc_active s < maxConcurrent → sc_tenantOrder s = t :: order →
  jget t (sc_queues s) = Some (task :: rest) → running_of t s < maxConcurrentPerTenant →
  sched_inv (dispatch t order task rest (running_of t s) s).
Proof.
  intros [Ha Hm Hc Hlive Hcap Ho Hk Hn Hq Hf] Hlt Hord Hget Hfree. unfold dispatch. apply reenter_inv.
  destruct (Hq _ _ Hget) as [_ Hten]. apply Forall_cons in Hten as [Htask Hrest].
  rewrite Hord in Ho, Hk. apply NoDup_cons in Ho as [Hnin Ho].
  pose proof (dispatch_queues t task rest (sc_queues s) (match rest with [] => jdel t (sc_queues s) | _ => jset t rest (sc_queues s) end) Hget eq_refl) as Hqs.
  assert (Hcount : ∀ t', Z.of_nat (length (of_tenant t' (sc_running s ++ [task]))) =
    (if decide (t = t') then running_of t' s + 1 else running_of t' s)).
  { intros t'. rewrite running_of_snoc, Htask. done. }
  constructor; cbn.
  - rewrite length_app. cbn. lia.
  - lia.
  - intros t'. unfold running_of at 2. cbn [sc_running]. rewrite lookup_insert, Hcount.
    case_decide; subst; [done|apply Hc].
  - intros t' n. rewrite lookup_insert. case_decide; [|apply Hlive]. intros [= <-]. unfold running_of. lia.
  - intros t'. unfold running_of. cbn. rewrite Hcount. specialize (Hcap t'). case_decide; subst; lia.
  - destruct rest; [done|]. apply NoDup_app. split_and!; [done|set_solver|apply NoDup_singleton].
  - intros t'. rewrite Hqs. destruct (decide (t = t')) as [<-|Hne].
    + destruct rest; [|set_solver]. split; [done|]. by intros [? ?].
    + rewrite <-Hk, elem_of_cons. destruct rest; [naive_solver|].
      rewrite elem_of_app, list_elem_of_singleton. naive_solver.
  - destruct rest; [by apply jkeys_jdel_NoDup|by apply jkeys_jset_NoDup].
  - intros t' q. rewrite Hqs. case_decide; subst; [|apply Hq]. destruct rest; [done|]. by intros [= <-].
  - intros t'. rewrite accepted_app, started_app, !of_tenant_app, Hf, Hqs.
    change (of_tenant t' (accepted [Started task])) with (@nil ScheduledTask).
    change (started [Started task]) with [task]. rewrite app_nil_r, of_tenant_one, Htask.
    destruct (decide (t = t')) as [<-|Hne]; [|by rewrite app_nil_r].
    rewrite Hget. cbn. rewrite <-app_assoc. by destruct rest.
Qed.

Lemma rotate_inv t order s :
  sched_inv s → sc_tenantOrder s = t :: order →
  sched_inv (mkSched (sc_queues s) (order ++ [t]) (sc_activeByTenant s) (sc_idleWaiters s)
               (sc_active s) (sc_draining s) (sc_running s) (sc_trace s)).
Proof.
  intros [Ha Hm Hc Hlive Hcap Ho Hk Hn Hq Hf] Hord. rewrite Hord in Ho, Hk. constructor; cbn; try done.
  - apply NoDup_cons in Ho as [Hnin Ho]. apply NoDup_app. split_and!; [done|set_solver|apply NoDup_singleton].
  - intros t'. rewrite <-Hk. set_solver.
Qed.

(** ** The loop *)

(** The last [n] tenants scanned are at their limit. *)
Definition at_cap (s : Sched) (t : string) : Prop := maxConcurrentPerTenant ≤ running_of t s.

Definition loop_inv (s : Sched) (n : nat) : Prop :=
  sched_inv s ∧ ∃ l1 l2, sc_tenantOrder s = l1 ++ l2 ∧ length l2 = n ∧ Forall (at_cap s) l2.

(** Nothing more can be started: every slot is taken, or every waiting tenant
    is at its limit. *)
Definition saturated (s : Sched) : Prop :=
  sc_active s = maxConcurrent ∨ Forall (at_cap s) (sc_tenantOrder s).

Lemma drain_step_inv s n s' n' : loop_inv s n → drain_step s n = Some (s', n') → loop_inv s' n'.
Proof.
  intros [Hi (l1 & l2 & Hord & Hlen & Hcap)]. unfold drain_step.
  destruct (_ && _) eqn:Hg; [|done]. rewrite !andb_true_iff, Z.ltb_lt, !Nat.ltb_lt in Hg.
  destruct Hg as [[Hlt _] Hn]. rewrite Hord, length_app in Hn.
  destruct l1 as [|t l1]; [cbn in Hn; lia|]. cbn in Hord. rewrite Hord. cbn.
  destruct (jget t (sc_queues s)) as [q|] eqn:Hget; last first.
  { assert (Hin : t ∈ sc_tenantOrder s) by (rewrite Hord; set_solver).
    apply (si_keys s Hi) in Hin as [? ?]. congruence. }
  destruct q as [|task rest]; [by destruct (si_queues s Hi _ _ Hget)|].
  rewrite (si_count s Hi). destruct (_ <=? _) eqn:Hle; intros [= <- <-].
  - apply Z.leb_le in Hle. split; [by apply rotate_inv|]. exists l1, (l2 ++ [t]). cbn.
    rewrite app_assoc, length_app. split_and!; [done|cbn; lia|]. apply Forall_app.
    split; [exact Hcap|]. constructor; [exact Hle|constructor].
  - apply Z.leb_gt in Hle. split; [by apply dispatch_inv|]. eexists _, []. rewrite app_nil_r. by split_and!.
Qed.

Lemma drain_step_none s n : loop_inv s n → drain_step s n = None → saturated s.
Proof.
  intros [Hi (l1 & l2 & Hord & Hlen & Hcap)]. unfold drain_step, saturated.
  destruct (_ && _) eqn:Hg.
  - destruct (sc_tenantOrder s) as [|t o] eqn:Ho; [by right|].
    destruct (jget t _) as [[|]|]; try discriminate. case_match; discriminate.
  - intros _. pose proof (si_max s Hi). destruct (Z.lt_ge_cases (sc_active s) maxConcurrent) as [Hlt|Hge];
      [right|left; lia].
    rewrite (proj2 (Z.ltb_lt _ _)) in Hg by done. cbn [andb] in Hg.
    assert (Hz : l1 = []).
    { destruct l1 as [|x l1]; [done|]. apply (f_equal length) in Hord. rewrite length_app in Hord. cbn in Hord.
      apply andb_false_iff in Hg as [Hg|Hg]; apply Nat.ltb_ge in Hg; lia. }
    by rewrite Hord, Hz.
Qed.

Lemma drain_loop_inv fuel s n s' :
  loop_inv s n → drain_loop fuel s n = Some s' → sched_inv s' ∧ saturated s'.
Proof.
  revert s n. induction fuel as [|fuel IH]; intros s n Hi; cbn; [done|].
  destruct (drain_step s n) as [[s1 n1]|] eqn:Hs.
  - apply IH. by eapply drain_step_inv.
  - intros [= <-]. split; [apply Hi|by eapply drain_step_none].
Qed.
(** ** Events *)

Lemma set_draining_inv b s : sched_inv s → sched_inv (set_draining b s).
Proof. intros []. by constructor. Qed.

Lemma idle_trace (l : list nat) :
  accepted (IdleResolved <$> l) = [] ∧ started (IdleResolved <$> l) = [].
Proof. induction l as [|x l [IH1 IH2]]; [done|]. split; [exact IH1|exact IH2]. Qed.

(** A state that differs in waiters and resolved waiters only. *)
Lemma waiters_inv s ws l :
  sched_inv s →
  sched_inv (mkSched (sc_queues s) (sc_tenantOrder s) (sc_activeByTenant s) ws (sc_active s) (sc_draining s)
               (sc_running s) (sc_trace s ++ (IdleResolved <$> l))).
Proof.
  intros [Ha Hm Hc Hlive Hcap Ho Hk Hn Hq Hf]. constructor; try done. cbn. intros t.
  destruct (idle_trace l) as [H1 H2]. by rewrite accepted_app, started_app, H1, H2, !app_nil_r.
Qed.

Lemma notifyIdle_inv s : sched_inv s → sched_inv (notifyIdle s).
Proof. intros Hs. unfold notifyIdle. case_match; [|done]. by apply waiters_inv. Qed.

Lemma notifyIdle_saturated s : saturated s → saturated (notifyIdle s).
Proof. unfold notifyIdle. by case_match. Qed.

Lemma drain_ok fuel s s' :
  sched_inv s → sc_draining s = false → drain fuel s = Some s' →
  sched_inv s' ∧ saturated s' ∧ sc_draining s' = false ∧ (isIdle s' = true → sc_idleWaiters s' = []).
Proof.
  intros Hs Hd. unfold drain. rewrite Hd.
  destruct (drain_loop fuel (set_draining true s) 0) as [s1|] eqn:Hl; [|done]. cbn. intros [= <-].
  destruct (drain_loop_inv fuel (set_draining true s) 0 s1) as [Hi Hsat]; [|done|].
  { split; [by apply set_draining_inv|]. eexists _, []. rewrite app_nil_r. by split_and!. }
  split_and!.
  - by apply notifyIdle_inv, set_draining_inv.
  - by apply notifyIdle_saturated.
  - unfold notifyIdle. by case_match.
  - unfold notifyIdle. case_match; [done|]. congruence.
Qed.

Lemma running_of_remove t i task l :
  l !! i = Some task →
  Z.of_nat (length (of_tenant t (take i l ++ drop (S i) l))) =
  Z.of_nat (length (of_tenant t l)) - (if decide (task_tenantKey task = t) then 1 else 0).
Proof.
  intros Hi. rewrite <-(take_drop_middle l i task Hi) at 3. rewrite !of_tenant_app, !length_app.
  rewrite of_tenant_cons. case_decide; cbn [length]; lia.
Qed.

Lemma settle_inv i task s :
  sched_inv s → sc_running s !! i = Some task → sched_inv (settle i task s).
Proof.
  intros [Ha Hm Hc Hlive Hcap Ho Hk Hn Hq Hf] Hi.
  assert (Hrem : ∀ t, Z.of_nat (length (of_tenant t (take i (sc_running s) ++ drop (S i) (sc_running s)))) =
    running_of t s - (if decide (task_tenantKey task = t) then 1 else 0)).
  { intros t. by apply running_of_remove. }
  assert (Hpos : 0 < running_of (task_tenantKey task) s).
  { specialize (Hrem (task_tenantKey task)). rewrite decide_True in Hrem by done. lia. }
  assert (Hdef : default 1 (sc_activeByTenant s !! task_tenantKey task) = running_of (task_tenantKey task) s).
  { rewrite <-Hc in Hpos |- *. destruct (sc_activeByTenant s !! _); [done|]. cbn in Hpos. lia. }
  pose proof (lookup_lt_Some _ _ _ Hi) as Hlen.
  unfold settle. rewrite Hdef. constructor; cbn; try done.
  - rewrite length_app, length_take, length_drop. lia.
  - lia.
  - intros t. unfold running_of at 3. cbn [sc_running]. rewrite Hrem.
    destruct (0 <? _) eqn:Hz; [rewrite lookup_insert|rewrite lookup_delete]; case_decide; subst; cbn.
    all: rewrite ?Hc; try lia.
  - intros t n. destruct (0 <? _) eqn:Hz; [rewrite lookup_insert|rewrite lookup_delete]; case_decide; subst.
    + intros [= <-]. by apply Z.ltb_lt in Hz.
    + apply Hlive.
    + done.
    + apply Hlive.
  - intros t. unfold running_of. cbn [sc_running]. rewrite Hrem. specialize (Hcap t). case_decide; lia.
Qed.

(** The scheduler's life: tasks arrive, tasks settle, callers wait for idle. *)
Inductive sched_step (s : Sched) : Sched → Prop :=
  | step_enqueue fuel key n s' : enqueue fuel key n s = Some (inr s') → sched_step s s'
  | step_finish fuel i s' : finish fuel i s = Some s' → sched_step s s'
  | step_onIdle w : sched_step s (onIdle w s).

Inductive sched_reachable : Sched → Prop :=
  | sreach_init s : new_scheduler = Some s → sched_reachable s
  | sreach_step s s' : sched_reachable s → sched_step s s' → sched_reachable s'.

Definition settled (s : Sched) : Prop :=
  sched_inv s ∧ saturated s ∧ sc_draining s = false ∧ (isIdle s = true → sc_idleWaiters s = []).

Lemma new_scheduler_settled s : new_scheduler = Some s → settled s ∧ 0 < maxConcurrent ∧ 0 < maxConcurrentPerTenant.
Proof.
  unfold new_scheduler. destruct (_ || _) eqn:Hg; [done|]. rewrite orb_false_iff, !Z.ltb_ge in Hg.
  destruct Hg as [Hg1 Hg2]. intros [= <-]. split; [|lia].
  split_and!; [|by right|done|done]. constructor; cbn; try done; try lia.
  - intros t. change (0 ≤ maxConcurrentPerTenant). lia.
  - constructor.
  - intros t. rewrite elem_of_nil. split; [done|]. by intros [? ?].
  - constructor.
Qed.

Lemma sched_step_settled s s' : settled s → sched_step s s' → settled s'.
Proof.
  intros (Hi & Hsat & Hd & Hidle) [fuel key n s1 He|fuel i s1 Hf|w].
  - unfold enqueue in He. destruct (truthy key); [|done].
    destruct (drain fuel _) as [s2|] eqn:Hdr; [|done]. injection He as <-.
    eapply drain_ok; [| |exact Hdr]; [by apply push_task_inv|]. unfold push_task. by case_match.
  - unfold finish in Hf. destruct (sc_running s !! i) as [task|] eqn:Ht; [|by injection Hf as <-].
    destruct (drain fuel _) as [s2|] eqn:Hdr; [|done]. injection Hf as <-.
    destruct (drain_ok fuel (settle i task s) s2) as (H1 & H2 & H3 & H4); [by apply settle_inv|done|done|].
    split_and!; [by apply notifyIdle_inv|by apply notifyIdle_saturated|unfold notifyIdle; by case_match|].
    unfold notifyIdle. case_match; [done|]. congruence.
  - unfold onIdle. destruct (isIdle s) eqn:Hz.
    + split_and!; [by apply (waiters_inv s (sc_idleWaiters s) [w])|done|done|by intros _; apply Hidle].
    + split_and!; [|done|done|unfold isIdle in *; cbn; congruence].
      pose proof (waiters_inv s (sc_idleWaiters s ++ [w]) [] Hi) as Hw. by rewrite app_nil_r in Hw.
Qed.

Lemma sched_reachable_settled s :
  sched_reachable s → settled s ∧ 0 < maxConcurrent ∧ 0 < maxConcurrentPerTenant.
Proof.
  induction 1 as [s Hs|s s' _ [IH Hpos] Hst]; [by apply new_scheduler_settled|].
  split; [by eapply sched_step_settled|done].
Qed.

(** ** Round robin *)

(** A tenant at its limit is moved to the back and counted. *)
Lemma drain_step_skip s n t order :
  sched_inv s → sc_active s < maxConcurrent → sc_tenantOrder s = t :: order → (n < length (t :: order))%nat →
  at_cap s t →
  drain_step s n = Some (mkSched (sc_queues s) (order ++ [t]) (sc_activeByTenant s) (sc_idleWaiters s)
    (sc_active s) (sc_draining s) (sc_running s) (sc_trace s), S n).
Proof.
  intros Hi Hlt Hord Hn Hcap. unfold drain_step. rewrite Hord, (proj2 (Z.ltb_lt _ _)) by done.
  rewrite !(proj2 (Nat.ltb_lt _ _)) by (cbn in *; lia). cbn [andb].
  destruct (proj1 (si_keys s Hi t)) as [q Hq]; [rewrite Hord; set_solver|]. rewrite Hq.
  destruct q as [|task rest]; [by destruct (si_queues s Hi _ _ Hq)|].
  rewrite (si_count s Hi). unfold at_cap in Hcap. by rewrite (proj2 (Z.leb_le _ _)).
Qed.

Lemma drain_step_start s n t order task rest :
  sched_inv s → sc_active s < maxConcurrent → sc_tenantOrder s = t :: order → (n < length (t :: order))%nat →
  jget t (sc_queues s) = Some (task :: rest) → ¬ at_cap s t →
  drain_step s n = Some (dispatch t order task rest (running_of t s) s, 0%nat).
Proof.
  intros Hi Hlt Hord Hn Hq Hcap. unfold drain_step. rewrite Hord, (proj2 (Z.ltb_lt _ _)) by done.
  rewrite !(proj2 (Nat.ltb_lt _ _)) by (cbn in *; lia). cbn [andb]. rewrite Hq, (si_count s Hi).
  unfold at_cap in Hcap. by rewrite (proj2 (Z.leb_gt _ _)) by lia.
Qed.

(** The tenants before the first one below its limit are skipped, in order. *)
Lemma skip_all pre : ∀ s n t post fuel,
  sched_inv s → sc_active s < maxConcurrent → sc_tenantOrder s = pre ++ t :: post →
  (n + length pre < length (pre ++ t :: post))%nat → Forall (at_cap s) pre →
  ∃ s1, sched_inv s1 ∧ drain_loop (length pre + fuel) s n = drain_loop fuel s1 (n + length pre) ∧
    s1 = mkSched (sc_queues s) (t :: post ++ pre) (sc_activeByTenant s) (sc_idleWaiters s)
           (sc_active s) (sc_draining s) (sc_running s) (sc_trace s).
Proof.
  induction pre as [|x pre IH]; intros s n t post fuel Hi Hlt Hord Hn Hcap.
  { exists s. rewrite Nat.add_0_r, app_nil_r. split_and!; [done|done|]. destruct s. cbn in *. by rewrite Hord. }
  apply Forall_cons in Hcap as [Hx Hcap].
  pose proof (drain_step_skip s n x (pre ++ t :: post) Hi Hlt Hord) as Hstep.
  rewrite length_app in Hn. cbn [length app] in Hn, Hstep. rewrite length_app in Hstep. cbn [length] in Hstep.
  destruct (IH (mkSched (sc_queues s) (pre ++ t :: post ++ [x]) (sc_activeByTenant s) (sc_idleWaiters s)
      (sc_active s) (sc_draining s) (sc_running s) (sc_trace s)) (S n) t (post ++ [x]) fuel) as (s1 & Hi1 & Hd & Hs1).
  - pose proof (rotate_inv x (pre ++ t :: post) s Hi Hord) as Hr. by rewrite <-app_assoc in Hr.
  - done.
  - done.
  - rewrite !length_app. cbn [length]. rewrite length_app. cbn. lia.
  - exact Hcap.
  - exists s1. split; [done|]. rewrite <-app_assoc in Hs1. split; [|exact Hs1].
    cbn [length Nat.add drain_loop]. rewrite Hstep by (done || lia). rewrite <-app_assoc. cbn [app].
    rewrite Hd. f_equal. lia.
Qed.

(** A caller that waits for the scheduler to be idle, or was told. *)
Definition minds (w : nat) (s : Sched) : Prop := w ∈ sc_idleWaiters s ∨ IdleResolved w ∈ sc_trace s.
Definition keeps_waiters (s s' : Sched) : Prop := ∀ w, minds w s → minds w s'.
#[local] Instance keeps_waiters_preorder : PreOrder keeps_waiters.
Proof. split; [by intros s w|]. intros s1 s2 s3 H1 H2 w Hw. by apply H2, H1. Qed.
Lemma keeps_longer s s' l : sc_idleWaiters s' = sc_idleWaiters s → sc_trace s' = sc_trace s ++ l → keeps_waiters s s'.
Proof. intros H1 H2 w [Hw|Hw]; [left; by rewrite H1|right; rewrite H2; apply elem_of_app; by left]. Qed.
Lemma push_task_keeps t s : keeps_waiters s (push_task t s).
Proof. unfold push_task. destruct (jget _ _); by eapply keeps_longer. Qed.
Lemma reenter_keeps l s : keeps_waiters s (reenter l s).
Proof.
  revert s. induction l as [|[key n] l IH]; intros s; [done|]. cbn. destruct (truthy key); [|done].
  etrans; [apply push_task_keeps|apply IH].
Qed.
Lemma notifyIdle_keeps s : keeps_waiters s (notifyIdle s).
Proof.
  unfold notifyIdle. destruct (isIdle s); [|done]. intros w [Hw|Hw]; right; cbn; apply elem_of_app; [right|by left].
  by apply list_elem_of_fmap_2.
Qed.
Lemma drain_step_keeps s n s' n' : drain_step s n = Some (s', n') → keeps_waiters s s'.
Proof.
  unfold drain_step. destruct (_ && _); [|done]. destruct (sc_tenantOrder s) as [|t o]; [done|].
  destruct (jget t (sc_queues s)) as [[|task rest]|]; [intros [= <- _]; by intros w| |intros [= <- _]; by intros w].
  destruct (_ <=? _); intros [= <- _]; [by intros w|]. unfold dispatch. etrans; [|apply reenter_keeps]. by eapply keeps_longer.
Qed.
Lemma drain_keeps fuel s s' : drain fuel s = Some s' → keeps_waiters s s'.
Proof.
  unfold drain. destruct (sc_draining s); [by intros [= <-]|].
  assert (Hloop : ∀ s0 n s1, drain_loop fuel s0 n = Some s1 → keeps_waiters s0 s1).
  { induction fuel as [|fuel IH]; intros s0 n s1; [done|]. cbn. destruct (drain_step s0 n) as [[s2 n2]|] eqn:E; [|by intros [= <-]].
    intros H. etrans; [by eapply drain_step_keeps|by eapply IH]. }
  destruct (drain_loop _ _ _) as [s1|] eqn:E; [|done]. cbn. intros [= <-]. etrans; [|apply notifyIdle_keeps].
  exact (Hloop _ _ _ E).
Qed.
Lemma onIdle_minds w s : minds w (onIdle w s).
Proof. unfold onIdle. destruct (isIdle s); [right|left]; cbn; apply elem_of_app; right; by left. Qed.
Lemma sched_step_keeps s s' : sched_step s s' → keeps_waiters s s'.
Proof.
  intros [fuel key n s1 He|fuel i s1 Hf|w].
  - unfold enqueue in He. destruct (truthy key); [|done]. destruct (drain fuel _) as [s2|] eqn:Hd; [|done]. injection He as <-.
    etrans; [apply push_task_keeps|by eapply drain_keeps].
  - unfold finish in Hf. destruct (sc_running s !! i) as [task|]; [|by injection Hf as <-].
    destruct (drain fuel _) as [s2|] eqn:Hd; [|done]. injection Hf as <-. etrans; [|apply notifyIdle_keeps].
    intros w Hw. by eapply drain_keeps.
  - intros w' [Hw|Hw]; unfold onIdle; destruct (isIdle s); [by left|left; cbn; apply elem_of_app; by left|right; cbn; apply elem_of_app; by left|by right].
Qed.
Lemma rtc_minds s s' : rtc sched_step s s' → keeps_waiters s s'.
Proof. induction 1 as [|s1 s2 s3 H _ IH]; [done|]. etrans; [by apply sched_step_keeps|done]. Qed.
Lemma reachable_rtc s s' : sched_reachable s → rtc sched_step s s' → sched_reachable s'.
Proof. intros H Hs. induction Hs; [done|]. by eauto using sreach_step. Qed.

Lemma held_back s t q : sched_reachable s → jget t (sc_queues s) = Some q →
  sc_active s = maxConcurrent ∨ running_of t s = maxConcurrentPerTenant.
Proof.
  intros [(Hi & Hsat & _) _]%sched_reachable_settled Hq. assert (Ht : t ∈ sc_tenantOrder s) by (apply (si_keys s Hi); by rewrite Hq).
  destruct Hsat as [Hs|Hs]; [by left|right]. rewrite Forall_forall in Hs.
  specialize (Hs t Ht). pose proof (si_cap s Hi t). unfold at_cap in Hs. lia.
Qed.
Lemma nothing_left s : sched_reachable s → sc_active s = 0 → sc_queues s = [] ∧ sc_tenantOrder s = [] ∧ sc_idleWaiters s = [].
Proof.
  intros Hr Hz. pose proof Hr as [(Hi & Hsat & _ & Hidle) [Hm Hp]]%sched_reachable_settled.
  assert (Hrun : ∀ t, running_of t s = 0).
  { intros t. pose proof (si_active s Hi) as Ha. destruct (sc_running s) as [|x r] eqn:Hrn; [|cbn in Ha; lia].
    unfold running_of. by rewrite Hrn. }
  assert (Hq : sc_queues s = []).
  { destruct (sc_queues s) as [|[t q] m] eqn:Hq; [done|].
    destruct (held_back s t q Hr) as [H|H]; [rewrite Hq; cbn; by rewrite decide_True|lia|]. rewrite Hrun in H. lia. }
  assert (Ho : sc_tenantOrder s = []).
  { destruct (sc_tenantOrder s) as [|t o] eqn:Ho; [done|].
    destruct (proj1 (si_keys s Hi t)) as [q Hqt]; [rewrite Ho; by left|]. by rewrite Hq in Hqt. }
  split_and!; [done|done|]. apply Hidle. unfold isIdle. by rewrite Hz, Hq.
Qed.

(** * Claims *)

(** C7. The concurrency limits hold at all times: the counter is the number of
    running tasks, which never exceeds [maxConcurrent], and no tenant ever has
    more than [maxConcurrentPerTenant] running; the per-tenant counters agree
    with the running tasks. *)
Theorem scheduler_limits s :
  sched_reachable s →
  sc_active s = Z.of_nat (length (sc_running s)) ∧ sc_active s ≤ maxConcurrent ∧
  ∀ t, default 0 (sc_activeByTenant s !! t) = running_of t s ∧ running_of t s ≤ maxConcurrentPerTenant.
Proof.
  intros [[Hi _] _]%sched_reachable_settled. split_and!; [apply Hi|apply Hi|]. intros t. split; apply Hi.
Qed.

(** C8. The scheduler is work conserving and never deadlocks: a tenant with a
    waiting task is held back only while all slots are taken or the tenant is
    at its own limit, and when nothing runs nothing waits, no tenant is left in
    the rotation and nobody waits for that; whoever has asked to be told when the
    scheduler is idle has been told by the time that nothing runs. *)
Theorem scheduler_work_conserving s :
  sched_reachable s →
  (∀ t q, jget t (sc_queues s) = Some q →
     sc_active s = maxConcurrent ∨ running_of t s = maxConcurrentPerTenant) ∧
  (sc_active s = 0 → sc_queues s = [] ∧ sc_tenantOrder s = [] ∧ sc_idleWaiters s = []) ∧
  (∀ w s', rtc sched_step (onIdle w s) s' → sc_active s' = 0 → IdleResolved w ∈ sc_trace s').
Proof.
  intros Hr. split_and!; [intros t q; by apply held_back|by apply nothing_left|]. intros w s' Hsteps Hz.
  assert (Hs' : sched_reachable s') by (eapply reachable_rtc; [|exact Hsteps]; by eapply sreach_step, step_onIdle).
  destruct (rtc_minds _ _ Hsteps w (onIdle_minds w s)) as [Hw|?]; [|done].
  destruct (nothing_left s' Hs' Hz) as (_ & _ & Hn). rewrite Hn in Hw. by apply elem_of_nil in Hw.
Qed.


(** Tasks of one tenant start in the order they were enqueued: what has
    started, followed by what waits in its queue, is what was accepted. *)
Theorem scheduler_fifo s t :
  sched_reachable s →
  of_tenant t (accepted (sc_trace s)) = of_tenant t (started (sc_trace s)) ++ default [] (jget t (sc_queues s)).
Proof. intros [[Hi _] _]%sched_reachable_settled. apply Hi. Qed.

(** C9. Draining always terminates, whatever the started tasks enqueue while
    it runs: from some amount of fuel on the result exists and is the same. *)
Theorem drain_terminates s :
  ∃ fuel0 s', ∀ fuel, (fuel0 ≤ fuel)%nat → drain fuel s = Some s'.
Proof.
  unfold drain. destruct (sc_draining s); [by exists 0%nat, s|].
  destruct (drain_loop_terminates (set_draining true s) 0) as (f & s1 & Hf).
  exists f, (notifyIdle (set_draining false s1)). intros fuel Hle. by rewrite (drain_loop_mono f fuel _ _ s1).
Qed.

(** Dispatch is round robin: with a free slot, the next task to start is
    the oldest one of the first tenant in the rotation that is below its limit;
    the tenants skipped before it and then the tenant itself, if it has more
    tasks, go to the back in that order. *)
Theorem drain_round_robin s pre t post task rest fuel :
  sched_inv s → sc_tenantOrder s = pre ++ t :: post → sc_active s < maxConcurrent →
  Forall (at_cap s) pre → ¬ at_cap s t → jget t (sc_queues s) = Some (task :: rest) →
  let s1 := mkSched (sc_queues s) (t :: post ++ pre) (sc_activeByTenant s) (sc_idleWaiters s) (sc_active s)
              (sc_draining s) (sc_running s) (sc_trace s) in
  drain_loop (length pre + S fuel) s 0 =
    drain_loop fuel (dispatch t (post ++ pre) task rest (running_of t s) s1) 0.
Proof.
  intros Hi Hord Hlt Hpre Ht Hq s1.
  destruct (skip_all pre s 0 t post (S fuel) Hi Hlt Hord) as (s2 & Hi2 & Hd & Hs2); [|done|].
  { rewrite length_app. cbn. lia. }
  fold s1 in Hs2. subst s2. rewrite Hd. cbn [drain_loop].
  rewrite (drain_step_start s1 _ t (post ++ pre) task rest) by (done || (cbn; rewrite length_app; lia)).
  done.
Qed.
End scheduler.

(** ** Two slots, one per tenant

    Task 1 of tenant a enqueues task 3 of tenant b before it first waits. *)

Definition demo_sync (n : nat) : list (string * nat) := if (n =? 1)%nat then [("b", 3%nat)] else [].

Definition demo_sched0 : Sched := mkSched [] [] ∅ [] 0 false [] [].
Definition demo_enqueue_task (key : string) (n : nat) (s : Sched) : Sched :=
  match enqueue 2 1 demo_sync 50 key n s with Some (inr s') => s' | _ => s end.
(** Task 1 of a and task 3 of b run; task 2 of a and task 4 of c wait. *)
Definition demo_sched : Sched :=
  demo_enqueue_task "c" 4 (demo_enqueue_task "a" 2 (demo_enqueue_task "a" 1 demo_sched0)).

Lemma demo_sched_reachable : sched_reachable 2 1 demo_sync demo_sched.
Proof.
  assert (H0 : sched_reachable 2 1 demo_sync demo_sched0) by by constructor.
  assert (H1 : sched_reachable 2 1 demo_sync (demo_enqueue_task "a" 1 demo_sched0)).
  { eapply sreach_step; [exact H0|]. apply (step_enqueue _ _ _ _ 50 "a" 1). vm_compute. reflexivity. }
  assert (H2 : sched_reachable 2 1 demo_sync (demo_enqueue_task "a" 2 (demo_enqueue_task "a" 1 demo_sched0))).
  { eapply sreach_step; [exact H1|]. apply (step_enqueue _ _ _ _ 50 "a" 2). vm_compute. reflexivity. }
  eapply sreach_step; [exact H2|]. apply (step_enqueue _ _ _ _ 50 "c" 4). vm_compute. reflexivity.
Qed.

(** Witness of C7. *)
Lemma scheduler_limits_witness : sc_active demo_sched = 2 ∧ running_of "a" demo_sched ≤ 1.
Proof.
  destruct (scheduler_limits 2 1 demo_sync demo_sched demo_sched_reachable) as (_ & _ & Hcap).
  split; [vm_compute; reflexivity|]. apply (Hcap "a").
Defined.

(** Witness of C8: tenant c waits for a slot. *)
Lemma scheduler_work_conserving_witness :
  sc_active demo_sched = 2 ∨ running_of "c" demo_sched = 1.
Proof.
  destruct (scheduler_work_conserving 2 1 demo_sync demo_sched demo_sched_reachable) as [Hheld _].
  apply (Hheld "c" [mkTask "c" 4]). vm_compute. reflexivity.
Defined.

(** For example: tenant a has started task 1 and waits with task 2. *)
Lemma scheduler_fifo_witness :
  of_tenant "a" (accepted (sc_trace demo_sched)) = [mkTask "a" 1; mkTask "a" 2] ∧
  of_tenant "a" (accepted (sc_trace demo_sched)) =
    of_tenant "a" (started (sc_trace demo_sched)) ++ default [] (jget "a" (sc_queues demo_sched)).
Proof.
  split; [vm_compute; reflexivity|]. apply (scheduler_fifo 2 1 demo_sync), demo_sched_reachable.
Defined.

(** For example: task 3 of b settles; tenant a is at its limit and c starts. *)
Lemma drain_round_robin_witness :
  let s := settle 1 (mkTask "b" 3) demo_sched in
  ∃ s', drain_loop 2 1 demo_sync 10 s 0 = Some s' ∧ mkTask "c" 4 ∈ sc_running s'.
Proof.
  cbn zeta.
  pose proof (drain_round_robin 2 1 demo_sync (settle 1 (mkTask "b" 3) demo_sched) ["a"] "c" [] (mkTask "c" 4) [] 8) as Hrr.
  eexists. split.
  - change 10%nat with (length ["a"] + S 8)%nat. rewrite Hrr; [vm_compute; reflexivity|..].
    + apply settle_inv; [|vm_compute; reflexivity].
      apply (sched_reachable_settled 2 1 demo_sync demo_sched demo_sched_reachable).
    + vm_compute; reflexivity.
    + vm_compute; reflexivity.
    + constructor; [vm_compute; discriminate|constructor].
    + intros Hc. vm_compute in Hc. by apply Hc.
    + vm_compute; reflexivity.
  - apply (bool_decide_unpack _). vm_compute. exact I.
Defined.
