(* ===== verification/PromiseLock.v ===== *)
(** * Locks made of promises

    Two classes serialise asynchronous operations per key with a map of promises:
    [exclusive] of src/control-plane/src/runtime-worker-request-router.ts and
    [withConversationLock] of src/assistant/src/concurrent-runtime/service.ts.
    A caller takes the map's promise as its predecessor, puts its own in, waits for
    the predecessor, runs, and resolves its own.

    A caller is numbered by the order in which it entered.  Its code is four atomic
    parts: entering (up to [await previous]), starting (after it), and exiting (the
    [finally] block, also after an exception); in the second class the promise in
    the map is [previous.then(() => current)], which settles in a step of its own.
    The steps of different callers interleave in any way the promises allow. *)
From S2P Require Import Prelude.

Inductive LockVariant := Exclusive | WithConversationLock.
#[global] Instance LockVariant_eq_dec : EqDecision LockVariant.
Proof. solve_decision. Defined.

Record LockState := mkLock {
  lk_next : nat;
  lk_tails : gmap string nat;          (* the promise of which caller is in the map *)
  lk_key : gmap nat string;            (* callers that have not exited *)
  lk_running : gset nat;
  lk_previous : gmap nat (option nat); (* whose promise each caller waits for *)
  lk_current : gset nat;               (* callers whose own promise is resolved *)
  lk_tail : gset nat;                  (* settled [previous.then(() => current)] *)
}.

Definition lock_init : LockState := mkLock 0 ∅ ∅ ∅ ∅ ∅ ∅.

Inductive LockEvent :=
  | Enter (key : string)
  | Start (caller : nat)
  | Exit (caller : nat)
  | Settle (caller : nat).

Section lock.
Context (variant : LockVariant).

(** The promise that [caller] put into the map is resolved. *)
Definition tail_done (s : LockState) (caller : nat) : Prop :=
  caller ∈ match variant with Exclusive => lk_current s | WithConversationLock => lk_tail s end.
#[global] Instance tail_done_dec s caller : Decision (tail_done s caller).
Proof. unfold tail_done. apply _. Defined.

(** [await previous] goes on. *)
Definition previous_done (s : LockState) (previous : option nat) : Prop :=
  match previous with None => True | Some p => tail_done s p end.
#[global] Instance previous_done_dec s o : Decision (previous_done s o).
Proof. destruct o; cbn; apply _. Defined.

Definition enter (key : string) (s : LockState) : LockState :=
  mkLock (S (lk_next s)) (<[key := lk_next s]> (lk_tails s)) (<[lk_next s := key]> (lk_key s)) (lk_running s)
    (<[lk_next s := lk_tails s !! key]> (lk_previous s)) (lk_current s) (lk_tail s).

Definition start (caller : nat) (s : LockState) : option LockState :=
  match lk_key s !! caller, lk_previous s !! caller with
  | Some _, Some previous =>
      if bool_decide (caller ∉ lk_running s) && bool_decide (previous_done s previous)
      then Some (mkLock (lk_next s) (lk_tails s) (lk_key s) ({[caller]} ∪ lk_running s) (lk_previous s)
                   (lk_current s) (lk_tail s))
      else None
  | _, _ => None
  end.

(** The [finally] block. *)
Definition exited (key : string) (caller : nat) (s : LockState) : LockState :=
  mkLock (lk_next s)
    (if bool_decide (lk_tails s !! key = Some caller) then delete key (lk_tails s) else lk_tails s)
    (delete caller (lk_key s)) (lk_running s ∖ {[caller]}) (lk_previous s)
    ({[caller]} ∪ lk_current s) (lk_tail s).

Definition exit (caller : nat) (s : LockState) : option LockState :=
  match lk_key s !! caller with
  | Some key => if bool_decide (caller ∈ lk_running s) then Some (exited key caller s) else None
  | None => None
  end.

(** [previous.then(() => current)] settles once both are resolved. *)
Definition settle_tail (caller : nat) (s : LockState) : option LockState :=
  match lk_previous s !! caller with
  | Some previous =>
      if bool_decide (variant = WithConversationLock) && bool_decide (caller ∈ lk_current s)
         && bool_decide (previous_done s previous)
      then Some (mkLock (lk_next s) (lk_tails s) (lk_key s) (lk_running s) (lk_previous s) (lk_current s)
                   ({[caller]} ∪ lk_tail s))
      else None
  | None => None
  end.

Definition lock_step (s : LockState) (e : LockEvent) : option LockState :=
  match e with
  | Enter key => Some (enter key s)
  | Start caller => start caller s
  | Exit caller => exit caller s
  | Settle caller => settle_tail caller s
  end.

Definition lock_run (es : list LockEvent) (s : LockState) : option LockState :=
  foldl (λ o e, o ≫= λ s, lock_step s e) (Some s) es.
End lock.

(** ** The specification: one line, in order of entering

    A caller may start when it is the first of its key in the line. *)

Record FifoLock := mkFifo {
  ff_next : nat;
  ff_line : list (nat * string);
  ff_running : gset nat;
}.

Definition of_key (key : string) (line : list (nat * string)) : list nat :=
  (filter (λ c, c.2 = key) line).*1.

Definition fifo_first (caller : nat) (f : FifoLock) : Prop :=
  ∃ key, (caller, key) ∈ ff_line f ∧ head (of_key key (ff_line f)) = Some caller.

Inductive fifo_step (f : FifoLock) : LockEvent → FifoLock → Prop :=
  | fifo_enter key :
      fifo_step f (Enter key) (mkFifo (S (ff_next f)) (ff_line f ++ [(ff_next f, key)]) (ff_running f))
  | fifo_start caller :
      fifo_first caller f → caller ∉ ff_running f →
      fifo_step f (Start caller) (mkFifo (ff_next f) (ff_line f) ({[caller]} ∪ ff_running f))
  | fifo_exit caller :
      fifo_first caller f → caller ∈ ff_running f →
      fifo_step f (Exit caller)
        (mkFifo (ff_next f) (filter (λ c, c.1 ≠ caller) (ff_line f)) (ff_running f ∖ {[caller]}))
  | fifo_settle caller : fifo_step f (Settle caller) f.

Inductive fifo_run (f : FifoLock) : list LockEvent → FifoLock → Prop :=
  | fifo_nil : fifo_run f [] f
  | fifo_snoc es f1 e f2 : fifo_run f es f1 → fifo_step f1 e f2 → fifo_run f (es ++ [e]) f2.

Definition fifo_init : FifoLock := mkFifo 0 [] ∅.

(** ** The lock implements it *)

Section refines.
Context (variant : LockVariant).

(** The last caller of a key in a part of the line. *)
Definition last_of (key : string) (line : list (nat * string)) : option nat := last (of_key key line).

(** A caller that is through: its promise in the map can settle. *)
Definition through (s : LockState) (p : nat) : Prop :=
  p ∈ lk_current s ∧ ∃ previous, lk_previous s !! p = Some previous ∧ previous_done variant s previous.

Record lock_inv (s : LockState) (line : list (nat * string)) : Prop := {
  li_line : ∀ t k, lk_key s !! t = Some k ↔ (t, k) ∈ line;
  li_nodup : NoDup line.*1;
  li_next : ∀ t k, (t, k) ∈ line → (t < lk_next s)%nat;
  li_current : ∀ t, t ∈ lk_current s → (t < lk_next s)%nat ∧ t ∉ line.*1;
  li_previous : ∀ t p, lk_previous s !! t = Some (Some p) → (p < t)%nat;
  li_tail : ∀ t, t ∈ lk_tail s → t ∈ lk_current s;
  li_tails : ∀ k, lk_tails s !! k = last_of k line;
  li_running : ∀ t, t ∈ lk_running s → ∃ l1 k l2 previous, line = l1 ++ (t, k) :: l2 ∧ last_of k l1 = None ∧
    lk_previous s !! t = Some previous ∧ previous_done variant s previous;
  li_linked : ∀ l1 t k l2, line = l1 ++ (t, k) :: l2 →
    ∃ previous, lk_previous s !! t = Some previous ∧
    match last_of k l1 with
    | Some p => previous = Some p
    | None => match previous with None => True | Some p => through s p end
    end;
}.

Lemma of_key_app k l1 l2 : of_key k (l1 ++ l2) = of_key k l1 ++ of_key k l2.
Proof. unfold of_key. by rewrite filter_app, fmap_app. Qed.

Lemma of_key_cons k t k' l : of_key k ((t, k') :: l) = if decide (k' = k) then t :: of_key k l else of_key k l.
Proof. unfold of_key. rewrite filter_cons. cbn. by destruct (decide (k' = k)). Qed.

Lemma last_of_None k l : last_of k l = None ↔ of_key k l = [].
Proof. unfold last_of. apply last_None. Qed.

Lemma elem_of_of_key k l t : t ∈ of_key k l ↔ (t, k) ∈ l.
Proof.
  unfold of_key. rewrite list_elem_of_fmap. setoid_rewrite list_elem_of_filter. split.
  - intros ([t' k']&->&[<- ?]). done.
  - intros ?. by exists (t, k).
Qed.

Lemma last_of_elem k l t : last_of k l = Some t → (t, k) ∈ l.
Proof. intros H%last_Some_elem_of. by apply elem_of_of_key. Qed.

Lemma first_of_key l1 t k l2 : last_of k l1 = None → head (of_key k (l1 ++ (t, k) :: l2)) = Some t.
Proof. intros H%last_of_None. by rewrite of_key_app, H, of_key_cons, decide_True by done. Qed.

Lemma tail_done_current s line p : lock_inv s line → tail_done variant s p → p ∈ lk_current s.
Proof. intros Hinv. unfold tail_done. destruct variant; [done|]. apply (li_tail _ _ Hinv). Qed.

(** A caller whose predecessor is done is the first of its key. *)
Lemma linked_first s l1 t k l2 previous :
  lock_inv s (l1 ++ (t, k) :: l2) → lk_previous s !! t = Some previous → previous_done variant s previous →
  last_of k l1 = None.
Proof.
  intros Hinv Hp Hd. destruct (li_linked _ _ Hinv _ _ _ _ eq_refl) as (o&Ho&Hl).
  destruct (last_of k l1) as [p|] eqn:Hlast; [|done]. simplify_eq. cbn in Hd.
  eapply tail_done_current in Hd; [|done]. apply (li_current _ _ Hinv) in Hd as [_ []].
  apply last_of_elem in Hlast. apply list_elem_of_fmap. exists (p, k). set_solver.
Qed.

Lemma lock_inv_init : lock_inv lock_init [].
Proof.
  split; cbn; try set_solver; try (intros; by destruct l1).
  - constructor.
Qed.

(** Entering: the new caller waits for the last of its key. *)
Lemma enter_inv s line key :
  lock_inv s line → lock_inv (enter key s) (line ++ [(lk_next s, key)]).
Proof.
  intros Hinv. set (n := lk_next s).
  assert (Hfresh : ∀ t k, (t, k) ∈ line → t ≠ n) by (intros t k H%(li_next _ _ Hinv); subst n; lia).
  split; cbn.
  - intros t k. rewrite lookup_insert_Some, elem_of_app, list_elem_of_singleton, (li_line _ _ Hinv).
    split; [naive_solver|]. intros [H|[= -> ->]]; [right|by left]. split; [|done]. eapply not_eq_sym, Hfresh, H.
  - rewrite fmap_app. apply NoDup_app. split_and!; [apply Hinv| |apply NoDup_singleton].
    intros ? ([t k]&->&Hc)%list_elem_of_fmap Heq%list_elem_of_singleton. by eapply Hfresh.
  - intros t k [H|[= -> ->]%list_elem_of_singleton]%elem_of_app; [|lia]. apply (li_next _ _ Hinv) in H. lia.
  - intros t [H1 H2]%(li_current _ _ Hinv). rewrite fmap_app. split; [lia|]. cbn.
    intros Hin. apply elem_of_app in Hin as [?|Heq]; [done|]. apply list_elem_of_singleton in Heq. subst. lia.
  - intros t p [[<- Hp]|[_ Hp]]%lookup_insert_Some; [|by eapply (li_previous _ _ Hinv)].
    rewrite (li_tails _ _ Hinv) in Hp. apply last_of_elem in Hp. by eapply (li_next _ _ Hinv).
  - apply Hinv.
  - intros k. unfold last_of. rewrite of_key_app, of_key_cons. destruct (decide (key = k)) as [->|Hk].
    + rewrite lookup_insert_eq. symmetry. apply last_snoc.
    + rewrite lookup_insert_ne by done. cbn. rewrite app_nil_r. apply (li_tails _ _ Hinv).
  - intros t (l1&k&l2&o&->&Hl&Ho&Hd)%(li_running _ _ Hinv). exists l1, k, (l2 ++ [(n, key)]), o.
    split_and!; [by rewrite <- app_assoc|done| |done].
    rewrite lookup_insert_ne; [done|]. eapply not_eq_sym, (Hfresh _ k). set_solver.
  - intros l1 t k l2 Heq. destruct (decide (t = n)) as [->|Htn].
    + exists (lk_tails s !! key). rewrite lookup_insert_eq. split; [done|].
      assert (line = l1 ∧ key = k) as [-> ->].
      { destruct l2 as [|x l2 _] using rev_ind; [by apply app_inj_tail in Heq as [? [= ?]]|].
        rewrite app_comm_cons, app_assoc in Heq. apply app_inj_tail in Heq as [-> _].
        exfalso. apply (Hfresh n k); [set_solver|done]. }
      rewrite (li_tails _ _ Hinv). by destruct (last_of k l1).
    + destruct l2 as [|x l2 _] using rev_ind; [apply app_inj_tail in Heq as [_ [= ? ?]]; congruence|].
      rewrite app_comm_cons, app_assoc in Heq. apply app_inj_tail in Heq as [-> _].
      rewrite lookup_insert_ne by done. destruct (li_linked _ _ Hinv _ _ _ _ eq_refl) as (o&Ho&Hl).
      exists o. split; [done|]. destruct (last_of k l1); [done|]. destruct o as [p|]; [|done].
      destruct Hl as (Hc&o'&Ho'&Hd). split; [done|]. exists o'. split; [|done]. cbn.
      rewrite lookup_insert_ne; [done|]. apply (li_current _ _ Hinv) in Hc as [? _]. subst n. lia.
Qed.

(** A caller that stays through when promises are resolved. *)
Lemma previous_done_mono s s' o :
  lk_current s ⊆ lk_current s' → lk_tail s ⊆ lk_tail s' → previous_done variant s o → previous_done variant s' o.
Proof. destruct o; cbn; [|done]. unfold tail_done. destruct variant; set_solver. Qed.

Lemma through_mono s s' p :
  lk_current s ⊆ lk_current s' → lk_tail s ⊆ lk_tail s' → lk_previous s' = lk_previous s →
  through s p → through s' p.
Proof.
  intros Hc Ht Hp (H&o&Ho&Hd). split; [set_solver|]. exists o. rewrite Hp. split; [done|].
  by eapply previous_done_mono.
Qed.

Lemma start_inv s line t s' :
  lock_inv s line → start variant t s = Some s' →
  lock_inv s' line ∧ fifo_first t (mkFifo (lk_next s) line (lk_running s)) ∧ (t ∉ lk_running s) ∧
  lk_running s' = ({[t]} ∪ lk_running s) ∧ lk_next s' = lk_next s.
Proof.
  intros Hinv. unfold start. destruct (lk_key s !! t) as [k|] eqn:Hk; [|done].
  destruct (lk_previous s !! t) as [o|] eqn:Ho; [|done].
  destruct (bool_decide (t ∉ lk_running s) && _) eqn:Hb; [|done]. intros [= <-].
  apply andb_true_iff in Hb as [Hr%bool_decide_eq_true Hd%bool_decide_eq_true].
  pose proof Hk as Hin. apply (li_line _ _ Hinv) in Hin. pose proof Hin as Hin'.
  apply list_elem_of_split in Hin' as (l1&l2&->).
  pose proof (linked_first _ _ _ _ _ _ Hinv Ho Hd) as Hl. split_and!; try done.
  - split; cbn; try apply Hinv. intros u [->%elem_of_singleton|Hu]%elem_of_union.
    + exists l1, k, l2, o. done.
    + by apply (li_running _ _ Hinv).
  - exists k. split; [done|]. by apply first_of_key.
Qed.

Lemma settle_tail_inv s line t s' :
  lock_inv s line → settle_tail variant t s = Some s' →
  lock_inv s' line ∧ lk_running s' = lk_running s ∧ lk_next s' = lk_next s.
Proof.
  intros Hinv. unfold settle_tail. destruct (lk_previous s !! t) as [o|] eqn:Ho; [|done].
  destruct (_ && _ && _) eqn:Hb; [|done]. intros [= <-].
  rewrite !andb_true_iff, !bool_decide_eq_true in Hb. destruct Hb as [[_ Hc] _].
  split_and!; [|done|done]. split; cbn; try apply Hinv.
  - intros u [->%elem_of_singleton|Hu]%elem_of_union; [done|by apply (li_tail _ _ Hinv)].
  - intros u (l1&k&l2&o'&?&?&?&?)%(li_running _ _ Hinv). exists l1, k, l2, o'. split_and!; try done.
    eapply previous_done_mono; [| |done]; set_solver.
  - intros l1 u k l2 Heq. destruct (li_linked _ _ Hinv _ _ _ _ Heq) as (o'&?&Hl). exists o'. split; [done|].
    destruct (last_of k l1); [done|]. destruct o'; [|done]. eapply through_mono; [| | |done]; set_solver.
Qed.

Abbreviation without t := (filter (λ c : nat * string, c.1 ≠ t)).

Lemma of_key_without k t line : of_key k (without t line) = filter (.≠ t) (of_key k line).
Proof.
  induction line as [|[u k'] line IH]; [done|]. rewrite filter_cons, (of_key_cons k u). cbn.
  destruct (decide (u = t)) as [->|Hu].
  - rewrite decide_False by tauto. rewrite IH. destruct (decide (k' = k)); [|done].
    by rewrite filter_cons_False by tauto.
  - rewrite decide_True, of_key_cons, IH by done. destruct (decide (k' = k)); [|done].
    by rewrite filter_cons_True by done.
Qed.

Lemma without_split t line l1 c l2 :
  without t line = l1 ++ c :: l2 → ∃ m1 m2, line = m1 ++ c :: m2 ∧ l1 = without t m1.
Proof.
  revert l1. induction line as [|d line IH]; intros l1; [by destruct l1|]. rewrite filter_cons.
  destruct (decide (d.1 ≠ t)) as [Hd|Hd].
  - destruct l1 as [|d' l1]; intros [= <- H]; [by exists [], line|].
    destruct (IH _ H) as (m1&m2&->&->). exists (d :: m1), m2. split; [done|]. by rewrite filter_cons_True.
  - intros H. destruct (IH _ H) as (m1&m2&->&->). exists (d :: m1), m2. split; [done|].
    by rewrite filter_cons_False.
Qed.

Lemma last_filter_ne (l : list nat) p t : last l = Some p → p ≠ t → last (filter (.≠ t) l) = Some p.
Proof.
  intros [l' ->]%last_Some Hp. rewrite filter_app, filter_cons_True by done. apply last_snoc.
Qed.

(** The first of its key, if it is the last too, is alone. *)
Lemma first_last_alone t (l l' : list nat) :
  NoDup (l ++ l') → head (l ++ l') = Some t → last l = Some t → l = [t].
Proof.
  destruct l as [|x l]; [done|]. intros Hnd [= ->]. destruct l as [|y l _] using rev_ind; [done|].
  rewrite app_comm_cons, last_snoc. intros [= ->]. exfalso. apply NoDup_cons in Hnd as [Hx _]. set_solver.
Qed.

Lemma NoDup_of_key k line : NoDup line.*1 → NoDup (of_key k line).
Proof. intros H. eapply sublist_NoDup; [exact H|]. apply fmap_sublist, sublist_filter. Qed.

Lemma filter_ne_id (l : list nat) t : t ∉ l → filter (.≠ t) l = l.
Proof.
  induction l as [|x l IH]; [done|]. intros H. apply not_elem_of_cons in H as [H1 H2].
  by rewrite filter_cons_True, IH.
Qed.

(** The map after the caller [t] has left. *)
Lemma exit_tails (tails : gmap string nat) line t k k' :
  (∀ k, tails !! k = last_of k line) → head (of_key k line) = Some t → NoDup (of_key k line) →
  (∀ k', (t, k') ∈ line → k' = k) →
  (if bool_decide (tails !! k = Some t) then delete k tails else tails) !! k' = last_of k' (without t line).
Proof.
  intros Ht Hh Hnd Hk. unfold last_of at 1. rewrite of_key_without. destruct (decide (k' = k)) as [->|Hne].
  - destruct (of_key k line) as [|x q] eqn:Hq; [done|]. injection Hh as ->. apply NoDup_cons in Hnd as [Htq Hnd].
    rewrite filter_cons_False, filter_ne_id by tauto. specialize (Ht k). unfold last_of in Ht. rewrite Hq in Ht.
    destruct q as [|y q]; [rewrite bool_decide_true by done; by rewrite lookup_delete_eq|].
    rewrite bool_decide_false; [done|]. rewrite Ht. intros Hl. apply Htq.
    by apply last_Some_elem_of.
  - rewrite filter_ne_id by (rewrite elem_of_of_key; naive_solver).
    destruct (bool_decide _); [rewrite lookup_delete_ne by done|]; apply Ht.
Qed.

(** Who waits for whom after the caller [t] has left. *)
Lemma exit_linked s s' line t k l1 u k' l2 :
  lock_inv s line → head (of_key k line) = Some t → (∀ k', (t, k') ∈ line → k' = k) → through s' t →
  lk_current s ⊆ lk_current s' → lk_tail s ⊆ lk_tail s' → lk_previous s' = lk_previous s →
  without t line = l1 ++ (u, k') :: l2 →
  ∃ previous, lk_previous s' !! u = Some previous ∧
    match last_of k' l1 with
    | Some p => previous = Some p
    | None => match previous with None => True | Some p => through s' p end
    end.
Proof.
  intros Hinv Hh Hk Hthrough Hc Htl Hp (m1&m2&->&->)%without_split.
  destruct (li_linked _ _ Hinv _ _ _ _ eq_refl) as (o&Ho&Hl). exists o. rewrite Hp. split; [done|].
  unfold last_of at 1. rewrite of_key_without. destruct (last_of k' m1) as [p|] eqn:Hm.
  - subst o. destruct (decide (p = t)) as [->|Hpt]; [|by rewrite (last_filter_ne _ p)].
    assert (k' = k) as -> by (apply Hk; apply last_of_elem in Hm; set_solver).
    rewrite of_key_app in Hh. erewrite (first_last_alone t (of_key k m1)); [|idtac|exact Hh|exact Hm].
    + by rewrite filter_cons_False by tauto.
    + rewrite <- of_key_app. apply NoDup_of_key, Hinv.
  - apply last_of_None in Hm. rewrite Hm. cbn. destruct o as [p|]; [|done]. by eapply through_mono.
Qed.

Lemma exit_inv s line t s' :
  lock_inv s line → exit t s = Some s' →
  lock_inv s' (without t line) ∧ fifo_first t (mkFifo (lk_next s) line (lk_running s)) ∧ t ∈ lk_running s ∧
  lk_running s' = (lk_running s ∖ {[t]}) ∧ lk_next s' = lk_next s.
Proof.
  intros Hinv. unfold exit. destruct (lk_key s !! t) as [k|] eqn:Hk; [|done].
  destruct (bool_decide (t ∈ lk_running s)) eqn:Hr; [|done]. apply bool_decide_eq_true in Hr. intros [= <-].
  destruct (li_running _ _ Hinv t Hr) as (l1&k'&l2&o&Hline&Hl&Ho&Hd).
  assert (k' = k) as ->. { apply (inj Some). rewrite <- Hk. symmetry. apply (li_line _ _ Hinv). set_solver. }
  pose proof (first_of_key l1 t k l2 Hl) as Hfirst. rewrite <- Hline in Hfirst.
  pose proof (NoDup_of_key k line (li_nodup _ _ Hinv)) as Hnd.
  assert (Hkey : ∀ k', (t, k') ∈ line → k' = k) by (intros k' ?%(li_line _ _ Hinv); congruence).
  split_and!; [|exists k; split; [subst line; set_solver|done]|done|done|done]. split; cbn.
  - intros u k'. rewrite lookup_delete_Some, list_elem_of_filter, (li_line _ _ Hinv). cbn. naive_solver.
  - eapply sublist_NoDup; [apply Hinv|]. apply fmap_sublist, sublist_filter.
  - intros u k' [_ H]%list_elem_of_filter. by eapply (li_next _ _ Hinv).
  - intros u [->%elem_of_singleton|Hu]%elem_of_union.
    + split; [eapply (li_next _ _ Hinv t k); subst line; set_solver|].
      intros (c&->&[Hc _]%list_elem_of_filter)%list_elem_of_fmap. done.
    + apply (li_current _ _ Hinv) in Hu as [? Hu]. split; [done|]. contradict Hu.
      apply list_elem_of_fmap in Hu as (c&->&[_ Hc]%list_elem_of_filter). by apply list_elem_of_fmap_2.
  - apply Hinv.
  - intros u Hu%(li_tail _ _ Hinv). set_solver.
  - intros k'. by apply exit_tails; [apply Hinv| | |].
  - intros u [Hu Hne]%elem_of_difference. destruct (li_running _ _ Hinv u Hu) as (m1&k'&m2&o'&->&Hm&Ho'&Hd').
    exists (without t m1), k', (without t m2), o'. rewrite filter_app, filter_cons_True by set_solver.
    split_and!; [done| |done|eapply previous_done_mono; [| |done]; set_solver].
    apply last_of_None. rewrite of_key_without. apply last_of_None in Hm. by rewrite Hm.
  - intros m1 u k' m2. apply (exit_linked s (exited k t s) line t k); try done; [|set_solver].
    split; cbn; [set_solver|]. exists o. split; [done|]. eapply previous_done_mono; [| |done]; set_solver.
Qed.

Lemma lock_step_refines s line e s' :
  lock_inv s line → lock_step variant s e = Some s' →
  ∃ line', lock_inv s' line' ∧
    fifo_step (mkFifo (lk_next s) line (lk_running s)) e (mkFifo (lk_next s') line' (lk_running s')).
Proof.
  intros Hinv. destruct e as [k|t|t|t]; cbn.
  - intros [= <-]. eexists. split; [by apply enter_inv|]. constructor.
  - intros (?&?&?&->&->)%(start_inv _ line); [|done]. exists line. split; [done|]. by apply (fifo_start (mkFifo _ _ _)).
  - intros (?&?&?&->&->)%(exit_inv _ line); [|done]. eexists. split; [done|]. by apply (fifo_exit (mkFifo _ _ _)).
  - intros (?&->&->)%(settle_tail_inv _ line); [|done]. exists line. split; [done|]. constructor.
Qed.

Lemma lock_run_snoc es e s : lock_run variant (es ++ [e]) s = lock_run variant es s ≫= λ s, lock_step variant s e.
Proof. unfold lock_run. by rewrite foldl_app. Qed.

Lemma lock_run_refines es s :
  lock_run variant es lock_init = Some s →
  ∃ line, lock_inv s line ∧ fifo_run fifo_init es (mkFifo (lk_next s) line (lk_running s)).
Proof.
  revert s. induction es as [|e es IH] using rev_ind; intros s.
  - intros [= <-]. exists []. split; [apply lock_inv_init|constructor].
  - rewrite lock_run_snoc, bind_Some. intros (s1&Hs1&Hstep). destruct (IH _ Hs1) as (line&Hinv&Hrun).
    destruct (lock_step_refines _ _ _ _ Hinv Hstep) as (line'&Hinv'&Hf).
    exists line'. split; [done|]. by econstructor.
Qed.

(** In the line, the caller that runs is the first of its key. *)
Lemma running_first s line t k :
  lock_inv s line → t ∈ lk_running s → lk_key s !! t = Some k → head (of_key k line) = Some t.
Proof.
  intros Hinv Hr Hk. destruct (li_running _ _ Hinv t Hr) as (l1&k'&l2&o&->&Hl&_).
  assert (k' = k) as ->; [|by apply first_of_key].
  apply (inj Some). rewrite <- Hk. symmetry. apply (li_line _ _ Hinv). set_solver.
Qed.
End refines.

(** C10. Whatever the interleaving, both promise locks behave as a first-in
    first-out lock: every sequence of steps is a run of the specification, in
    which a caller starts only when it is the first of its key; two callers that
    run with the same key are one; and the map holds the promise of the last
    caller of each key and nothing else, so it is empty when all have left. *)
Theorem promise_lock_fifo variant es s :
  lock_run variant es lock_init = Some s →
  ∃ f, fifo_run fifo_init es f ∧ ff_running f = lk_running s ∧
    (∀ t k, (t, k) ∈ ff_line f ↔ lk_key s !! t = Some k) ∧
    (∀ t u k, t ∈ lk_running s → u ∈ lk_running s → lk_key s !! t = Some k → lk_key s !! u = Some k → t = u) ∧
    (∀ k, lk_tails s !! k = last (of_key k (ff_line f))).
Proof.
  intros (line&Hinv&Hrun)%lock_run_refines. eexists. split; [exact Hrun|]. split_and!; cbn.
  - done.
  - intros t k. symmetry. apply (li_line _ _ _ Hinv).
  - intros t u k Ht Hu Hkt Hku. pose proof (running_first _ _ _ _ _ Hinv Ht Hkt).
    pose proof (running_first _ _ _ _ _ Hinv Hu Hku). congruence.
  - apply (li_tails _ _ _ Hinv).
Qed.

(** Three callers, two of one key: the second of them waits. *)
Definition demo_events : list LockEvent :=
  [Enter "a"; Enter "a"; Enter "b"; Start 0; Start 2; Exit 0; Settle 0; Start 1].

Definition demo_lock : LockState := default lock_init (lock_run WithConversationLock demo_events lock_init).

(** Witness of C10: three callers and two keys. *)
Lemma promise_lock_fifo_witness :
  ∃ f, fifo_run fifo_init demo_events f ∧ ff_running f = lk_running demo_lock ∧
    (∀ t k, (t, k) ∈ ff_line f ↔ lk_key demo_lock !! t = Some k) ∧
    (∀ t u k, t ∈ lk_running demo_lock → u ∈ lk_running demo_lock →
       lk_key demo_lock !! t = Some k → lk_key demo_lock !! u = Some k → t = u) ∧
    (∀ k, lk_tails demo_lock !! k = last (of_key k (ff_line f))).
Proof. apply (promise_lock_fifo WithConversationLock). vm_compute. reflexivity. Defined.

Example demo_lock_waits :
  lock_run WithConversationLock [Enter "a"; Enter "a"; Start 0; Start 1] lock_init = None.
Proof. vm_compute. reflexivity. Qed.

(** Neither lock deadlocks: when a key has callers waiting and none
    running, the first of them can start, at most after its predecessor's
    promise in the map has settled. *)
Theorem promise_lock_progress variant es s t k :
  lock_run variant es lock_init = Some s → lk_key s !! t = Some k →
  (∀ u, lk_key s !! u = Some k → u ∉ lk_running s) → (∀ u, lk_key s !! u = Some k → (t ≤ u)%nat) →
  ∃ settles, Forall (λ e, ∃ p, e = Settle p) settles ∧ is_Some (lock_run variant (settles ++ [Start t]) s).
Proof.
  intros (line&Hinv&_)%lock_run_refines Hk Hnr Hfirst.
  pose proof Hk as Hin. apply (li_line _ _ _ Hinv) in Hin. apply list_elem_of_split in Hin as (l1&l2&->).
  destruct (li_linked _ _ _ Hinv _ _ _ _ eq_refl) as (o&Ho&Hl).
  assert (Hnone : last_of k l1 = None).
  { destruct (last_of k l1) as [p|] eqn:Hp; [|done]. subst o. apply last_of_elem in Hp.
    apply (li_previous _ _ _ Hinv) in Ho. specialize (Hfirst p).
    rewrite (li_line _ _ _ Hinv) in Hfirst. specialize (Hfirst ltac:(set_solver)). lia. }
  rewrite Hnone in Hl. specialize (Hnr t Hk).
  assert (Hstart : ∀ s', lk_key s' = lk_key s → lk_previous s' = lk_previous s → lk_running s' = lk_running s →
                   previous_done variant s' o → is_Some (start variant t s')).
  { intros s' H1 H2 H3 Hd. unfold start. rewrite H1, H2, H3, Hk, Ho, !bool_decide_true by done. by eexists. }
  destruct (decide (previous_done variant s o)) as [Hd|Hd]; [exists []; split; [constructor|by apply Hstart]|].
  destruct o as [p|]; [|by destruct Hd]. destruct Hl as (Hc&o'&Ho'&Hd').
  destruct variant; [done|]. exists [Settle p]. split; [repeat econstructor|]. cbn. unfold settle_tail.
  rewrite Ho', !bool_decide_true by done. apply Hstart; try done. cbn. set_solver.
Qed.

(** For example: the first caller has left, the second can start. *)
Lemma promise_lock_progress_witness :
  ∃ settles, Forall (λ e, ∃ p, e = Settle p) settles ∧
    is_Some (lock_run WithConversationLock (settles ++ [Start 1])
      (default lock_init (lock_run WithConversationLock [Enter "a"; Enter "a"; Start 0; Exit 0] lock_init))).
Proof.
  apply (promise_lock_progress WithConversationLock [Enter "a"; Enter "a"; Start 0; Exit 0] _ 1 "a").
  - vm_compute. reflexivity.
  - vm_compute. reflexivity.
  - intros u _. apply (bool_decide_unpack _). vm_compute. exact I.
  - intros u H. destruct u as [|u]; [|lia]. vm_compute in H. discriminate H.
Defined.
