(* ===== verification/Admission.v ===== *)
(** * Tenant runtime admission

    src/control-plane/src/tenant-runtime-admission.ts: per-tenant admission
    tokens with a concurrency limit, a turn limit and a fixed-window rate
    limit, kept in SQLite tables.  A table is the list of its rows; a
    transaction is a function of the tables.  The current time is an argument,
    as in the source. *)
From S2P Require Import Prelude JsText.

Inductive TenantRuntimeTrafficMode := mode_active | mode_read_only | mode_suspended.
#[global] Instance TenantRuntimeTrafficMode_eq_dec : EqDecision TenantRuntimeTrafficMode.
Proof. solve_decision. Defined.

Inductive TenantRuntimeRequestClass := class_request | class_turn | class_stream.
#[global] Instance TenantRuntimeRequestClass_eq_dec : EqDecision TenantRuntimeRequestClass.
Proof. solve_decision. Defined.

Record TenantRuntimeIdentity := mkIdentity {
  ti_organizationId : string;
  ti_userId : string;
  ti_assistantId : string;
}.
#[global] Instance TenantRuntimeIdentity_eq_dec : EqDecision TenantRuntimeIdentity.
Proof. solve_decision. Defined.

Record TenantRuntimeRequestKind := mkKind {
  kind_requestClass : TenantRuntimeRequestClass;
  kind_mutation : bool;
}.

Record TenantRuntimeAdmissionConfig := mkAdmissionConfig {
  ac_enabled : bool;
  ac_trafficMode : TenantRuntimeTrafficMode;
  ac_maxConcurrentRequests : Z;
  ac_maxConcurrentTurns : Z;
  ac_requestsPerWindow : Z;
  ac_rateWindowMs : Z;
  ac_admissionTtlMs : Z;
}.

Inductive PolicyStatus := policy_active | policy_suspended.
#[global] Instance PolicyStatus_eq_dec : EqDecision PolicyStatus.
Proof. solve_decision. Defined.

Record TenantRuntimePolicy := mkPolicy {
  po_organization_id : string;
  po_assistant_id : string;
  po_status : PolicyStatus;
  po_max_concurrent_requests : option Z;
  po_max_concurrent_turns : option Z;
  po_requests_per_window : option Z;
  po_operator_note : option string;
  po_updated_by : string;
  po_updated_at : string;
}.

Inductive AdmissionRejection :=
  | invalid_tenant | global_suspension | global_read_only | tenant_suspended | token_replay
  | rate_limited | request_concurrency_exhausted | turn_concurrency_exhausted.

Inductive TenantRuntimeAdmissionResult :=
  | bypassed
  | admitted (token : string) (expiresAt : Z) (requestClass : TenantRuntimeRequestClass)
  | rejected (reason : AdmissionRejection) (retryAfterMs : option Z).

Inductive TenantRuntimeAdmissionMutationResult :=
  | adm_updated (expiresAt : option Z)
  | adm_not_found
  | adm_identity_mismatch.

Record TenantRuntimeAdmissionRow := mkAdmissionRow {
  ad_token : string;
  ad_organization_id : string;
  ad_user_id : string;
  ad_assistant_id : string;
  ad_request_class : TenantRuntimeRequestClass;
  ad_acquired_at : Z;
  ad_expires_at : Z;
  ad_released_at : option Z;
}.

Record RateBucket := mkBucket {
  rb_organization_id : string;
  rb_user_id : string;
  rb_assistant_id : string;
  rb_window_started_at : Z;
  rb_request_count : Z;
  rb_updated_at : string;
}.

(** The tables the functions read and write. *)
Record AdmissionDb := mkAdmissionDb {
  db_assistants : list (string * string * string);   (* id, org_id, user_id *)
  db_organizations : list (string * string);         (* id, user_id *)
  db_policies : list TenantRuntimePolicy;
  db_admissions : list TenantRuntimeAdmissionRow;
  db_buckets : list RateBucket;
}.

Record EffectiveLimits := mkLimits {
  lim_maxConcurrentRequests : Z;
  lim_maxConcurrentTurns : Z;
  lim_requestsPerWindow : Z;
}.

(** ** Environment values *)

Definition booleanEnv (value : option string) (fallback : bool) : string + bool :=
  match value with
  | None => inr fallback
  | Some v =>
      let normalized := toLowerCase (js_trim v) in
      if bool_decide (normalized ∈ ["1"; "true"; "yes"; "on"]) then inr true
      else if bool_decide (normalized ∈ ["0"; "false"; "no"; "off"]) then inr false
      else inl "Boolean environment values must use true or false."
  end.

Definition trafficModeEnv (value : option string) : string + TenantRuntimeTrafficMode :=
  let trimmed := match value with Some v => toLowerCase (js_trim v) | None => "" end in
  let normalized := if truthy trimmed then trimmed else "active" in
  if eqs normalized "active" then inr mode_active
  else if eqs normalized "read_only" then inr mode_read_only
  else if eqs normalized "suspended" then inr mode_suspended
  else inl "WORKLIN_TENANT_RUNTIME_TRAFFIC_MODE must be active, read_only, or suspended.".

(** ** Queries *)

Definition isTenantIdentity (i : TenantRuntimeIdentity) : bool :=
  truthy (js_trim (ti_organizationId i)) && truthy (js_trim (ti_userId i)) && truthy (js_trim (ti_assistantId i)).

(** The join of [assistants] and [organizations]. *)
Definition tenantExists (db : AdmissionDb) (i : TenantRuntimeIdentity) : bool :=
  js_some (λ a, let '(id, org, user) := a in
    eqs id (ti_assistantId i) && eqs org (ti_organizationId i) && eqs user (ti_userId i)
    && js_some (λ o, let '(oid, ouser) := o in eqs oid org && eqs ouser user && eqs ouser (ti_userId i))
         (db_organizations db)) (db_assistants db).

Definition policy_key (i : TenantRuntimeIdentity) (p : TenantRuntimePolicy) : bool :=
  eqs (po_organization_id p) (ti_organizationId i) && eqs (po_assistant_id p) (ti_assistantId i).

Definition getPolicy (db : AdmissionDb) (i : TenantRuntimeIdentity) : option TenantRuntimePolicy :=
  js_find (policy_key i) (db_policies db).

Definition readTenantRuntimePolicy (db : AdmissionDb) (i : TenantRuntimeIdentity) : option TenantRuntimePolicy :=
  if negb (isTenantIdentity i) || negb (tenantExists db i) then None else getPolicy db i.

Definition effectiveLimits (cfg : TenantRuntimeAdmissionConfig) (policy : option TenantRuntimePolicy) : EffectiveLimits :=
  mkLimits (default (ac_maxConcurrentRequests cfg) (policy ≫= po_max_concurrent_requests))
    (default (ac_maxConcurrentTurns cfg) (policy ≫= po_max_concurrent_turns))
    (default (ac_requestsPerWindow cfg) (policy ≫= po_requests_per_window)).

Definition admissionMatches (row : TenantRuntimeAdmissionRow) (i : TenantRuntimeIdentity) : bool :=
  eqs (ad_organization_id row) (ti_organizationId i) && eqs (ad_user_id row) (ti_userId i)
  && eqs (ad_assistant_id row) (ti_assistantId i).

(** The WHERE clause of the counting queries; [None] when no class is given. *)
Definition active_row (i : TenantRuntimeIdentity) (nowMs : Z) (cls : option TenantRuntimeRequestClass)
    (row : TenantRuntimeAdmissionRow) : bool :=
  admissionMatches row i
  && (match ad_released_at row with None => true | Some _ => false end)
  && (nowMs <? ad_expires_at row)
  && (match cls with None => true | Some c => bool_decide (ad_request_class row = c) end).

Definition activeAdmissionCount (db : AdmissionDb) (i : TenantRuntimeIdentity) (nowMs : Z)
    (cls : option TenantRuntimeRequestClass) : Z :=
  count (active_row i nowMs cls) (db_admissions db).

(** [MIN(expires_at)] *)
Definition min_expiry (l : list TenantRuntimeAdmissionRow) : option Z :=
  foldr (λ r m, Some (match m with None => ad_expires_at r | Some e => Z.min (ad_expires_at r) e end)) None l.

Definition nextAdmissionExpiry (db : AdmissionDb) (i : TenantRuntimeIdentity) (nowMs : Z)
    (cls : option TenantRuntimeRequestClass) : option Z :=
  min_expiry (js_filter (active_row i nowMs cls) (db_admissions db)).

Definition retryAfterExpiry (expiresAt : option Z) (nowMs : Z) : Z :=
  Z.max 1 (default (nowMs + 1000) expiresAt - nowMs).

(** ** Classification *)

Fixpoint ends_with (suffix s : string) : bool :=
  eqs s suffix || match s with "" => false | String _ s' => ends_with suffix s' end.

(** [/<suffix>\/?$/] *)
Definition path_ends (suffix s : string) : bool := ends_with suffix s || ends_with (suffix +:+ "/") s.

Definition turn_paths : list string :=
  ["/messages"; "/btw"; "/inference/send"; "/tasks/run"; "/tasks/queue/run"; "/workflows/runs";
   "/live-voice/providers/chat/completions"].

Definition classifyTenantRuntimeRequest (method pathname : string) : TenantRuntimeRequestKind :=
  let m := toUpperCase method in
  let mutation := negb (eqs m "GET") && negb (eqs m "HEAD") && negb (eqs m "OPTIONS") in
  if eqs m "GET" && path_ends "/events" pathname then mkKind class_stream false
  else if eqs m "POST" && js_some (λ p, path_ends p pathname) turn_paths then mkKind class_turn true
  else mkKind class_request mutation.

(** ** Transactions *)

Definition getAdmission (db : AdmissionDb) (token : string) : option TenantRuntimeAdmissionRow :=
  js_find (λ r, eqs (ad_token r) token) (db_admissions db).

Definition set_admissions (l : list TenantRuntimeAdmissionRow) (db : AdmissionDb) : AdmissionDb :=
  mkAdmissionDb (db_assistants db) (db_organizations db) (db_policies db) l (db_buckets db).
Definition set_buckets (l : list RateBucket) (db : AdmissionDb) : AdmissionDb :=
  mkAdmissionDb (db_assistants db) (db_organizations db) (db_policies db) (db_admissions db) l.
Definition set_policies (l : list TenantRuntimePolicy) (db : AdmissionDb) : AdmissionDb :=
  mkAdmissionDb (db_assistants db) (db_organizations db) l (db_admissions db) (db_buckets db).

Definition bucket_key (i : TenantRuntimeIdentity) (window : Z) (b : RateBucket) : bool :=
  eqs (rb_organization_id b) (ti_organizationId i) && eqs (rb_user_id b) (ti_userId i)
  && eqs (rb_assistant_id b) (ti_assistantId i) && (rb_window_started_at b =? window).

Definition window_of (cfg : TenantRuntimeAdmissionConfig) (nowMs : Z) : Z :=
  (nowMs / ac_rateWindowMs cfg) * ac_rateWindowMs cfg.

Definition window_count (db : AdmissionDb) (i : TenantRuntimeIdentity) (window : Z) : Z :=
  match js_find (bucket_key i window) (db_buckets db) with Some b => rb_request_count b | None => 0 end.

(** [INSERT ... ON CONFLICT ... DO UPDATE SET request_count = request_count + 1] *)
Definition bump_bucket (i : TenantRuntimeIdentity) (window : Z) (nowIso : string) (l : list RateBucket) : list RateBucket :=
  match js_find (bucket_key i window) l with
  | Some _ => update_where (bucket_key i window)
      (λ b, mkBucket (rb_organization_id b) (rb_user_id b) (rb_assistant_id b) (rb_window_started_at b)
              (rb_request_count b + 1) nowIso) l
  | None => l ++ [mkBucket (ti_organizationId i) (ti_userId i) (ti_assistantId i) window 1 nowIso]
  end.

(** The writes of an admitted request. *)
Definition record_admission (cfg : TenantRuntimeAdmissionConfig) (i : TenantRuntimeIdentity) (kind : TenantRuntimeRequestKind)
    (token : string) (nowMs : Z) (nowIso : string) (db : AdmissionDb) : AdmissionDb :=
  set_buckets (bump_bucket i (window_of cfg nowMs) nowIso (db_buckets db))
    (set_admissions (db_admissions db ++
      [mkAdmissionRow token (ti_organizationId i) (ti_userId i) (ti_assistantId i) (kind_requestClass kind)
         nowMs (nowMs + ac_admissionTtlMs cfg) None]) db).

Definition acquireTenantRuntimeAdmission (cfg : TenantRuntimeAdmissionConfig) (i : TenantRuntimeIdentity)
    (kind : TenantRuntimeRequestKind) (token : string) (nowMs : Z) (nowIso : string) (db : AdmissionDb)
    : TenantRuntimeAdmissionResult * AdmissionDb :=
  let reject reason retry := (rejected reason retry, db) in
  if negb (ac_enabled cfg) then (bypassed, db)
  else if negb (isTenantIdentity i) || negb (truthy (js_trim token)) then reject invalid_tenant None
  else if negb (tenantExists db i) then reject invalid_tenant None
  else if bool_decide (ac_trafficMode cfg = mode_suspended) then reject global_suspension None
  else if bool_decide (ac_trafficMode cfg = mode_read_only) && kind_mutation kind then reject global_read_only None
  else
    let policy := getPolicy db i in
    if bool_decide (po_status <$> policy = Some policy_suspended) then reject tenant_suspended None
    else match getAdmission db token with
    | Some _ => reject token_replay None
    | None =>
        let limits := effectiveLimits cfg policy in
        let window := window_of cfg nowMs in
        if lim_requestsPerWindow limits <=? window_count db i window
        then reject rate_limited (Some (window + ac_rateWindowMs cfg - nowMs))
        else if lim_maxConcurrentRequests limits <=? activeAdmissionCount db i nowMs None
        then reject request_concurrency_exhausted
               (Some (retryAfterExpiry (nextAdmissionExpiry db i nowMs None) nowMs))
        else if bool_decide (kind_requestClass kind = class_turn)
                && (lim_maxConcurrentTurns limits <=? activeAdmissionCount db i nowMs (Some class_turn))
        then reject turn_concurrency_exhausted
               (Some (retryAfterExpiry (nextAdmissionExpiry db i nowMs (Some class_turn)) nowMs))
        else (admitted token (nowMs + ac_admissionTtlMs cfg) (kind_requestClass kind),
              record_admission cfg i kind token nowMs nowIso db)
    end.

(** The WHERE clause [token = ? AND released_at IS NULL]. *)
Definition live_token (token : string) (r : TenantRuntimeAdmissionRow) : bool :=
  eqs (ad_token r) token && (match ad_released_at r with None => true | Some _ => false end).

Definition set_expiry (e : Z) (r : TenantRuntimeAdmissionRow) : TenantRuntimeAdmissionRow :=
  mkAdmissionRow (ad_token r) (ad_organization_id r) (ad_user_id r) (ad_assistant_id r) (ad_request_class r)
    (ad_acquired_at r) e (ad_released_at r).
Definition set_released (t : Z) (r : TenantRuntimeAdmissionRow) : TenantRuntimeAdmissionRow :=
  mkAdmissionRow (ad_token r) (ad_organization_id r) (ad_user_id r) (ad_assistant_id r) (ad_request_class r)
    (ad_acquired_at r) (ad_expires_at r) (Some t).

Definition renewTenantRuntimeAdmission (cfg : TenantRuntimeAdmissionConfig) (i : TenantRuntimeIdentity)
    (token : string) (nowMs : Z) (db : AdmissionDb) : TenantRuntimeAdmissionMutationResult * AdmissionDb :=
  if negb (ac_enabled cfg) then (adm_not_found, db)
  else match getAdmission db token with
  | None => (adm_not_found, db)
  | Some row =>
      if (match ad_released_at row with Some _ => true | None => false end) || (ad_expires_at row <=? nowMs)
      then (adm_not_found, db)
      else if negb (admissionMatches row i) then (adm_identity_mismatch, db)
      else
        let expiresAt := nowMs + ac_admissionTtlMs cfg in
        (adm_updated (Some expiresAt),
         set_admissions (update_where (live_token token) (set_expiry expiresAt) (db_admissions db)) db)
  end.

Definition releaseTenantRuntimeAdmission (cfg : TenantRuntimeAdmissionConfig) (i : TenantRuntimeIdentity)
    (token : string) (nowMs : Z) (db : AdmissionDb) : TenantRuntimeAdmissionMutationResult * AdmissionDb :=
  if negb (ac_enabled cfg) then (adm_not_found, db)
  else match getAdmission db token with
  | None => (adm_not_found, db)
  | Some row =>
      if match ad_released_at row with Some _ => true | None => false end then (adm_not_found, db)
      else if negb (admissionMatches row i) then (adm_identity_mismatch, db)
      else (adm_updated None,
            set_admissions (update_where (live_token token) (set_released nowMs) (db_admissions db)) db)
  end.

(** [undefined] is [None], [null] is [Some None]. *)
Record PolicyInput := mkPolicyInput {
  pi_status : PolicyStatus;
  pi_maxConcurrentRequests : option (option Z);
  pi_maxConcurrentTurns : option (option Z);
  pi_requestsPerWindow : option (option Z);
  pi_operatorNote : option (option string);
  pi_updatedBy : string;
}.

(** [value !== undefined && value !== null && value < 0] *)
Definition bad_limit (v : option (option Z)) : bool :=
  match v with Some (Some n) => n <? 0 | _ => false end.

Definition setTenantRuntimePolicy (i : TenantRuntimeIdentity) (p : PolicyInput) (nowIso : string)
    (db : AdmissionDb) : (string + TenantRuntimePolicy) * AdmissionDb :=
  if negb (isTenantIdentity i) || negb (tenantExists db i)
  then (inl "Tenant runtime policy identity is invalid.", db)
  else if negb (truthy (js_trim (pi_updatedBy p)))
  then (inl "Tenant runtime policy requires an operator identity.", db)
  else if bad_limit (pi_maxConcurrentRequests p)
  then (inl "maxConcurrentRequests must be a non-negative integer or null.", db)
  else if bad_limit (pi_maxConcurrentTurns p)
  then (inl "maxConcurrentTurns must be a non-negative integer or null.", db)
  else if bad_limit (pi_requestsPerWindow p)
  then (inl "requestsPerWindow must be a non-negative integer or null.", db)
  else
    let current := getPolicy db i in
    let row := mkPolicy (ti_organizationId i) (ti_assistantId i) (pi_status p)
          (default (current ≫= po_max_concurrent_requests) (pi_maxConcurrentRequests p))
          (default (current ≫= po_max_concurrent_turns) (pi_maxConcurrentTurns p))
          (default (current ≫= po_requests_per_window) (pi_requestsPerWindow p))
          (default (current ≫= po_operator_note) (pi_operatorNote p)) (pi_updatedBy p) nowIso in
    let policies := match current with
                    | Some _ => update_where (policy_key i) (λ _, row) (db_policies db)
                    | None => db_policies db ++ [row]
                    end in
    let db' := set_policies policies db in
    (inr (default row (getPolicy db' i)), db').

Definition prunable_admission (beforeMs : Z) (r : TenantRuntimeAdmissionRow) : bool :=
  (match ad_released_at r with Some t => t <? beforeMs | None => false end) || (ad_expires_at r <? beforeMs).

Definition pruneTenantRuntimeAdmissionHistory (beforeMs : Z) (db : AdmissionDb) : (Z * Z) * AdmissionDb :=
  ((count (prunable_admission beforeMs) (db_admissions db),
    count (λ b, rb_window_started_at b <? beforeMs) (db_buckets db)),
   set_buckets (delete_where (λ b, rb_window_started_at b <? beforeMs) (db_buckets db))
     (set_admissions (delete_where (prunable_admission beforeMs) (db_admissions db)) db)).
