(* ===== verification/AdmissionProps.v ===== *)
(** * Properties of tenant runtime admission

    Limits hold along every sequence of transactions whose times do not go
    back: the number of live admissions of a tenant, of its live turns, and of
    its admissions per rate window. *)
From S2P Require Import Prelude Admission.

(** The transactions, each run at a time. *)
Inductive AdmOp :=
  | OpAcquire (i : TenantRuntimeIdentity) (kind : TenantRuntimeRequestKind) (token nowIso : string)
  | OpRenewAdmission (i : TenantRuntimeIdentity) (token : string)
  | OpReleaseAdmission (i : TenantRuntimeIdentity) (token : string)
  | OpSetPolicy (i : TenantRuntimeIdentity) (p : PolicyInput) (nowIso : string)
  | OpPrune (beforeMs : Z).

Section admission.
Context (cfg : TenantRuntimeAdmissionConfig).

(** The tables, and the identity and time of every admission granted so far. *)
Definition adm_state : Type := AdmissionDb * list (TenantRuntimeIdentity * Z).

Definition run_adm (o : AdmOp) (t : Z) (s : adm_state) : adm_state :=
  let '(db, log) := s in
  match o with
  | OpAcquire i kind token nowIso =>
      let '(res, db') := acquireTenantRuntimeAdmission cfg i kind token t nowIso db in
      (db', match res with admitted _ _ _ => log ++ [(i, t)] | _ => log end)
  | OpRenewAdmission i token => ((renewTenantRuntimeAdmission cfg i token t db).2, log)
  | OpReleaseAdmission i token => ((releaseTenantRuntimeAdmission cfg i token t db).2, log)
  | OpSetPolicy i p nowIso => ((setTenantRuntimePolicy i p nowIso db).2, log)
  | OpPrune beforeMs => ((pruneTenantRuntimeAdmissionHistory beforeMs db).2, log)
  end.

(** The limits a tenant has: each column of its policy, where it is set, counts instead of the
    configured limit, be it stricter or wider. *)
Definition own (configured : Z) (column : option Z) : Z := match column with Some n => n | None => configured end.
Definition own_requests (db : AdmissionDb) (i : TenantRuntimeIdentity) : Z :=
  own (ac_maxConcurrentRequests cfg) (getPolicy db i ≫= po_max_concurrent_requests).
Definition own_turns (db : AdmissionDb) (i : TenantRuntimeIdentity) : Z :=
  own (ac_maxConcurrentTurns cfg) (getPolicy db i ≫= po_max_concurrent_turns).
Definition own_rate (db : AdmissionDb) (i : TenantRuntimeIdentity) : Z :=
  own (ac_requestsPerWindow cfg) (getPolicy db i ≫= po_requests_per_window).

(** For every tenant, what its own limits never exceed. *)
Context (M MT R : TenantRuntimeIdentity → Z).
Definition limits_bounded (db : AdmissionDb) : Prop := ∀ i, own_requests db i ≤ M i ∧ own_turns db i ≤ MT i ∧ own_rate db i ≤ R i.

(** History is pruned only up to the start of the current rate window. *)
Definition op_ok (o : AdmOp) (t : Z) : Prop :=
  match o with OpPrune beforeMs => beforeMs ≤ window_of cfg t | _ => True end.

(** Sequences of transactions in order of time, the limits of every tenant bounded as they go. *)
Inductive adm_trace (s0 : adm_state) (t0 : Z) : adm_state → Z → Prop :=
  | trace_start : adm_trace s0 t0 s0 t0
  | trace_step s t o t' :
      adm_trace s0 t0 s t → t ≤ t' → limits_bounded s.1 → op_ok o t' → adm_trace s0 t0 (run_adm o t' s) t'.

Definition log_count (i : TenantRuntimeIdentity) (w : Z) (log : list (TenantRuntimeIdentity * Z)) : Z :=
  count (λ e, bool_decide (e.1 = i) && (window_of cfg e.2 =? w)) log.

(** The configuration the service starts with. *)
Record config_ok : Prop := {
  co_window : 0 < ac_rateWindowMs cfg;
  co_ttl : 0 < ac_admissionTtlMs cfg;
  co_bounds : ∀ i, 0 ≤ M i ∧ 0 ≤ MT i ∧ 0 ≤ R i;
}.

Record adm_inv (s : adm_state) (t : Z) : Prop := {
  ai_tokens : NoDup (ad_token <$> db_admissions s.1);
  ai_requests : ∀ i, activeAdmissionCount s.1 i t None ≤ M i;
  ai_turns : ∀ i, activeAdmissionCount s.1 i t (Some class_turn) ≤ MT i;
  ai_buckets : ∀ i w, window_of cfg t ≤ w → window_count s.1 i w = log_count i w s.2;
  ai_rate : ∀ i w, log_count i w s.2 ≤ R i;
  ai_past : ∀ e, e ∈ s.2 → e.2 ≤ t;
}.

(** ** Time passes *)

Lemma active_row_later i t t' cls r : t ≤ t' → active_row i t' cls r = true → active_row i t cls r = true.
Proof.
  unfold active_row. rewrite !andb_true_iff, !Z.ltb_lt. intros Ht [[[? ?] ?] ?]. split_and!; try done. lia.
Qed.

Lemma active_count_later db i t t' cls : t ≤ t' → activeAdmissionCount db i t' cls ≤ activeAdmissionCount db i t cls.
Proof. intros Ht. apply count_le. intros r _. by apply active_row_later. Qed.

Lemma window_mono t t' : 0 < ac_rateWindowMs cfg → t ≤ t' → window_of cfg t ≤ window_of cfg t'.
Proof. intros Hw Ht. unfold window_of. pose proof (Z.div_le_mono t t' (ac_rateWindowMs cfg) Hw Ht). nia. Qed.

Lemma adm_inv_later s t t' : config_ok → t ≤ t' → adm_inv s t → adm_inv s t'.
Proof.
  intros Hc Ht [Hk Hr Htn Hb Hrate Hpast]. constructor; try done.
  - intros i. etrans; [by apply active_count_later|done].
  - intros i. etrans; [by apply active_count_later|done].
  - intros i w Hw. apply Hb. pose proof (window_mono t t' (co_window Hc) Ht). lia.
  - intros e He. specialize (Hpast e He). lia.
Qed.

(** ** Transactions *)

Lemma find_update {A} (p q : A → bool) f l :
  (∀ x, q x = true → p (f x) = p x) →
  js_find p (update_where q f l) = (λ x, if q x then f x else x) <$> js_find p l.
Proof.
  intros Hp. induction l as [|x l IH]; [done|]. cbn [update_where fmap list_fmap js_find].
  destruct (q x) eqn:Hq; [rewrite (Hp x Hq)|]; (destruct (p x); [cbn; by rewrite Hq|exact IH]).
Qed.

Lemma find_app {A} (p : A → bool) l x :
  js_find p (l ++ [x]) = match js_find p l with Some y => Some y | None => if p x then Some x else None end.
Proof. induction l as [|y l IH]; cbn; [done|]. by destruct (p y). Qed.

Lemma token_unique l r1 r2 :
  NoDup (ad_token <$> l) → r1 ∈ l → r2 ∈ l → ad_token r1 = ad_token r2 → r1 = r2.
Proof.
  induction l as [|r l IH]; [set_solver|]. cbn. intros [Hn Hnd]%NoDup_cons.
  intros [->|H1]%elem_of_cons [->|H2]%elem_of_cons Heq; [done| | |auto]; exfalso; apply Hn.
  - rewrite Heq. by apply list_elem_of_fmap_2.
  - rewrite <-Heq. by apply list_elem_of_fmap_2.
Qed.

Lemma update_tokens q f l :
  (∀ r, ad_token (f r) = ad_token r) → ad_token <$> update_where q f l = ad_token <$> l.
Proof.
  intros Hf. unfold update_where. rewrite <-list_fmap_compose. apply list_fmap_ext. intros i x _. cbn.
  destruct (q x); [apply Hf|done].
Qed.

Lemma effective_own db i : effectiveLimits cfg (getPolicy db i) = mkLimits (own_requests db i) (own_turns db i) (own_rate db i).
Proof. done. Qed.

(** The guards an admitted request passed. *)
Definition acquire_guards (i : TenantRuntimeIdentity) (kind : TenantRuntimeRequestKind) (token : string)
    (t : Z) (db : AdmissionDb) : Prop :=
  let l := effectiveLimits cfg (getPolicy db i) in
  tenantExists db i = true ∧ getAdmission db token = None ∧
  window_count db i (window_of cfg t) < lim_requestsPerWindow l ∧
  activeAdmissionCount db i t None < lim_maxConcurrentRequests l ∧
  (kind_requestClass kind = class_turn →
   activeAdmissionCount db i t (Some class_turn) < lim_maxConcurrentTurns l).

Lemma acquire_cases i kind token t iso db :
  let '(res, db') := acquireTenantRuntimeAdmission cfg i kind token t iso db in
  (db' = db ∧ (res = bypassed ∨ ∃ reason retry, res = rejected reason retry)) ∨
  (res = admitted token (t + ac_admissionTtlMs cfg) (kind_requestClass kind) ∧
   db' = record_admission cfg i kind token t iso db ∧ acquire_guards i kind token t db).
Proof.
  unfold acquireTenantRuntimeAdmission, acquire_guards.
  destruct (negb (ac_enabled cfg)); [left; eauto|].
  destruct (_ || _); [left; eauto|]. destruct (tenantExists db i) eqn:Hex; cbn [negb]; [|left; eauto].
  destruct (bool_decide (ac_trafficMode cfg = mode_suspended)); [left; eauto|].
  destruct (_ && _); [left; eauto|]. destruct (bool_decide _); [left; eauto|].
  destruct (getAdmission db token) eqn:Htok; [left; eauto|].
  destruct (lim_requestsPerWindow _ <=? _) eqn:H1; [left; eauto|].
  destruct (lim_maxConcurrentRequests _ <=? _) eqn:H2; [left; eauto|].
  destruct (bool_decide (kind_requestClass kind = class_turn) && _) eqn:H3; [left; eauto|].
  right. apply Z.leb_gt in H1, H2. split_and!; try done. intros Hk.
  rewrite bool_decide_eq_true_2 in H3 by done. by apply Z.leb_gt in H3.
Qed.

Lemma window_count_bump db i w iso j w' :
  window_count (set_buckets (bump_bucket i w iso (db_buckets db)) db) j w' =
  window_count db j w' + (if decide (j = i ∧ w' = w) then 1 else 0).
Proof.
  unfold window_count, bump_bucket. cbn.
  assert (Hkey : ∀ b, bucket_key i w b = true → bucket_key j w' b = bool_decide (j = i ∧ w' = w)).
  { intros b. unfold bucket_key, eqs. rewrite !andb_true_iff, !bool_decide_eq_true, Z.eqb_eq.
    intros [[[H1 H2] H3] H4]. rewrite H1, H2, H3, H4. destruct i as [i1 i2 i3], j as [j1 j2 j3]. cbn.
    apply eq_bool_prop_intro. rewrite !andb_True, !bool_decide_spec.
    rewrite (Is_true_true (w =? w')), Z.eqb_eq. naive_solver. }
  destruct (js_find (bucket_key i w) (db_buckets db)) as [b0|] eqn:Hb.
  - rewrite find_update by done. destruct (js_find (bucket_key j w') (db_buckets db)) as [b|] eqn:Hj; cbn.
    + destruct (bucket_key i w b) eqn:Hk; cbn.
      * apply js_find_elem in Hj as [_ Hj]. rewrite (Hkey b Hk) in Hj.
        apply bool_decide_eq_true in Hj. by rewrite decide_True.
      * rewrite decide_False; [lia|]. intros [-> ->]. apply js_find_elem in Hj as [_ Hj]. congruence.
    + rewrite decide_False; [lia|]. intros [-> ->]. congruence.
  - rewrite find_app. destruct (js_find (bucket_key j w') (db_buckets db)) as [b|] eqn:Hj; cbn.
    + rewrite decide_False; [lia|]. intros [-> ->]. congruence.
    + set (b := mkBucket _ _ _ _ _ _). rewrite (Hkey b).
      * case_bool_decide; [by rewrite decide_True|by rewrite decide_False].
      * unfold bucket_key, eqs. cbn. by rewrite !bool_decide_eq_true_2, Z.eqb_refl.
Qed.

Lemma log_count_snoc i w log j t :
  log_count i w (log ++ [(j, t)]) = log_count i w log + (if decide (i = j ∧ w = window_of cfg t) then 1 else 0).
Proof.
  unfold log_count. rewrite count_app. f_equal. unfold count. cbn.
  case_decide as Hd.
  - destruct Hd as [-> ->]. by rewrite bool_decide_eq_true_2, Z.eqb_refl.
  - destruct (_ && _) eqn:Hg; [|done]. rewrite andb_true_iff, bool_decide_eq_true, Z.eqb_eq in Hg. naive_solver.
Qed.

Lemma active_admit i kind token t iso db j cls :
  0 < ac_admissionTtlMs cfg →
  activeAdmissionCount (record_admission cfg i kind token t iso db) j t cls =
  activeAdmissionCount db j t cls +
    (if decide (j = i ∧ (cls = None ∨ cls = Some (kind_requestClass kind))) then 1 else 0).
Proof.
  intros Httl. unfold activeAdmissionCount, record_admission. cbn. rewrite count_app. f_equal. unfold count, active_row, admissionMatches, eqs. cbn.
  rewrite (proj2 (Z.ltb_lt _ _)) by lia. case_decide as Hd.
  - destruct Hd as [-> Hd]. rewrite !bool_decide_eq_true_2 by done. cbn.
    destruct Hd as [->| ->]; [done|]. by rewrite bool_decide_eq_true_2.
  - destruct (_ && _) eqn:Hg; [|done]. exfalso. apply Hd.
    rewrite !andb_true_iff, !bool_decide_eq_true in Hg. destruct Hg as [[[[[H1 H2] H3] _] _] H4].
    split; [destruct i, j; naive_solver|]. destruct cls as [c|]; [|by left]. right.
    apply bool_decide_eq_true in H4. congruence.
Qed.

(** ** Preservation *)

Hypothesis Hcfg : config_ok.

Lemma acquire_inv i kind token iso db log t :
  limits_bounded db → adm_inv (db, log) t → adm_inv (run_adm (OpAcquire i kind token iso) t (db, log)) t.
Proof.
  intros Hb0 Hinv. cbn. pose proof (acquire_cases i kind token t iso db) as Hcase.
  destruct (acquireTenantRuntimeAdmission cfg i kind token t iso db) as [res db'].
  destruct Hcase as [[-> [->|(reason & retry & ->)]]|(-> & -> & _ & Htok & Hrate & Hreq & Hturn)]; [done..|].
  rewrite effective_own in Hrate, Hreq, Hturn. destruct (Hb0 i) as (L1 & L2 & L3).
  destruct Hinv as [Hk Hr Htn Hb Hlog Hpast]. cbn in *.
  constructor; cbn [fst snd].
  - cbn. rewrite fmap_app. cbn. apply NoDup_app. split_and!; [done| |apply NoDup_singleton].
    intros x Hx Hin%list_elem_of_singleton. subst x. apply list_elem_of_fmap in Hx as (r & Hr' & Hin).
    pose proof (js_find_none _ _ Htok r Hin) as Hno. cbn in Hno. unfold eqs in Hno.
    apply bool_decide_eq_false in Hno. done.
  - intros j. rewrite active_admit by apply Hcfg. specialize (Hr j). case_decide as Hd; [|lia].
    destruct Hd as [-> _]. lia.
  - intros j. rewrite active_admit by apply Hcfg. specialize (Htn j). case_decide as Hd; [|lia].
    destruct Hd as [-> [Hd|[= Hd]]]; [done|]. specialize (Hturn (eq_sym Hd)). lia.
  - intros j w Hw. rewrite log_count_snoc, <-Hb by done.
    pose proof (window_count_bump (set_admissions (db_admissions (record_admission cfg i kind token t iso db)) db) i
      (window_of cfg t) iso j w) as Hbump. exact Hbump.
  - intros j w. rewrite log_count_snoc. specialize (Hlog j w). case_decide as Hd; [|lia].
    destruct Hd as [-> ->]. rewrite <-Hb by lia. lia.
  - intros e [He|He%list_elem_of_singleton]%elem_of_app; [auto|]. subst e. cbn. lia.
Qed.

(** Renewal and release touch one live row. *)
Lemma rows_inv db log t l :
  adm_inv (db, log) t → ad_token <$> l = ad_token <$> db_admissions db →
  (∀ i cls, count (active_row i t cls) l ≤ activeAdmissionCount db i t cls) →
  adm_inv (set_admissions l db, log) t.
Proof.
  intros [Hk Hr Htn Hb Hlog Hpast] Htok Hle. constructor; cbn in *; try done.
  - by rewrite Htok.
  - intros i. etrans; [apply Hle|apply Hr].
  - intros i. etrans; [apply Hle|apply Htn].
Qed.

Lemma renew_inv i token db log t :
  adm_inv (db, log) t → adm_inv (run_adm (OpRenewAdmission i token) t (db, log)) t.
Proof.
  intros Hinv. cbn. unfold renewTenantRuntimeAdmission. destruct (negb _); [done|].
  destruct (getAdmission db token) as [row|] eqn:Hrow; [|done].
  destruct (_ || _) eqn:Hg; [done|]. destruct (negb _); [done|]. cbn.
  apply orb_false_iff in Hg as [_ Hexp]. apply Z.leb_gt in Hexp.
  apply js_find_elem in Hrow as [Hin Htok]. apply bool_decide_eq_true in Htok.
  apply rows_inv; [done|by apply update_tokens|].
  intros j cls. apply count_update. intros r Hr Hlive.
  unfold live_token, eqs in Hlive. apply andb_true_iff in Hlive as [Ht _]. apply bool_decide_eq_true in Ht.
  assert (r = row) as -> by (eapply token_unique; [apply (ai_tokens _ _ Hinv)|done|done|congruence]).
  unfold active_row, admissionMatches. cbn. rewrite !andb_true_iff. intros [[? _] ?].
  split_and!; try tauto. by apply Z.ltb_lt.
Qed.

Lemma release_inv i token db log t :
  adm_inv (db, log) t → adm_inv (run_adm (OpReleaseAdmission i token) t (db, log)) t.
Proof.
  intros Hinv. cbn. unfold releaseTenantRuntimeAdmission. destruct (negb _); [done|].
  destruct (getAdmission db token) as [row|]; [|done].
  destruct (ad_released_at row); [done|]. destruct (negb _); [done|]. cbn.
  apply rows_inv; [done|by apply update_tokens|].
  intros j cls. apply count_update. intros r _ _. unfold active_row. cbn. by rewrite andb_false_r.
Qed.

Lemma policy_inv i p iso db log t : adm_inv (db, log) t → adm_inv (run_adm (OpSetPolicy i p iso) t (db, log)) t.
Proof.
  intros [Hk Hr Htn Hb Hlog Hpast]. cbn in *. unfold setTenantRuntimePolicy.
  destruct (_ || _); [done|]. destruct (negb _); [done|].
  destruct (bad_limit _); [done|]. destruct (bad_limit _); [done|]. destruct (bad_limit _); [done|]. by constructor.
Qed.

Lemma delete_tokens q l : NoDup (ad_token <$> l) → NoDup (ad_token <$> delete_where q l).
Proof.
  unfold delete_where. induction l as [|r l IH]; [done|]. cbn. intros [Hn Hnd]%NoDup_cons.
  destruct (q r); cbn; [auto|]. apply NoDup_cons. split; [|auto].
  intros Hin. apply Hn. apply list_elem_of_fmap in Hin as (x & -> & Hx). apply list_elem_of_fmap. exists x.
  split; [done|]. rewrite list_elem_of_In, List.filter_In, <-list_elem_of_In in Hx. tauto.
Qed.

Lemma find_delete {A} (p q : A → bool) l :
  (∀ x, p x = true → q x = false) → js_find p (delete_where q l) = js_find p l.
Proof.
  intros Hpq. unfold delete_where. induction l as [|x l IH]; [done|]. cbn.
  destruct (q x) eqn:Hq; cbn; [|by rewrite IH]. destruct (p x) eqn:Hp; [|exact IH].
  rewrite Hpq in Hq; done.
Qed.

Lemma prune_inv before db log t :
  before ≤ window_of cfg t → adm_inv (db, log) t → adm_inv (run_adm (OpPrune before) t (db, log)) t.
Proof.
  intros Hbf [Hk Hr Htn Hb Hlog Hpast]. cbn in *. constructor; cbn; try done.
  - by apply delete_tokens.
  - intros i. etrans; [apply count_delete|apply Hr].
  - intros i. etrans; [apply count_delete|apply Htn].
  - intros i w Hw. rewrite <-Hb by done. unfold window_count. cbn. rewrite find_delete; [done|].
    intros b. unfold bucket_key. rewrite andb_true_iff, Z.eqb_eq. intros [_ ->]. apply Z.ltb_ge. lia.
Qed.

Lemma run_adm_inv o t s : limits_bounded s.1 → op_ok o t → adm_inv s t → adm_inv (run_adm o t s) t.
Proof.
  destruct s as [db log]. destruct o; intros Hb Hok Hinv.
  - by apply acquire_inv.
  - by apply renew_inv.
  - by apply release_inv.
  - by apply policy_inv.
  - by apply prune_inv.
Qed.

(** The tables before any admission. *)
Definition fresh_db (db : AdmissionDb) : Prop := db_admissions db = [] ∧ db_buckets db = [].

Lemma fresh_inv db t : fresh_db db → adm_inv (db, []) t.
Proof.
  intros [Ha Hb]. pose proof (co_bounds Hcfg) as Hpos.
  constructor; cbn [fst snd]; unfold activeAdmissionCount, window_count; rewrite ?Ha, ?Hb; try done.
  - constructor.
  - intros i. change (0 ≤ M i). by destruct (Hpos i).
  - intros i. change (0 ≤ MT i). by destruct (Hpos i) as (_ & ? & _).
  - intros i w. change (0 ≤ R i). by destruct (Hpos i) as (_ & _ & ?).
  - set_solver.
Qed.

Lemma trace_inv db t0 s t : fresh_db db → adm_trace (db, []) t0 s t → adm_inv s t.
Proof.
  intros Hf. induction 1 as [|s t o t' _ IH Ht Hb Hok]; [by apply fresh_inv|].
  apply run_adm_inv; [done|done|]. by apply (adm_inv_later s t t').
Qed.

(** ** Waiting *)

Lemma min_expiry_spec l e :
  min_expiry l = Some e → ∃ r, r ∈ l ∧ ad_expires_at r = e.
Proof.
  revert e. induction l as [|r l IH]; [done|]. cbn. intros e [= He]. fold (min_expiry l) in He.
  destruct (min_expiry l) as [m|]; [|exists r; split; [apply list_elem_of_here|done]].
  destruct (Z.le_ge_cases (ad_expires_at r) m).
  - exists r. split; [set_solver|lia].
  - destruct (IH m eq_refl) as (x & Hx & Hm). exists x. split; [set_solver|lia].
Qed.

Lemma next_expiry_frees db i t cls :
  0 < activeAdmissionCount db i t cls →
  let d := retryAfterExpiry (nextAdmissionExpiry db i t cls) t in
  1 ≤ d ∧ activeAdmissionCount db i (t + d) cls < activeAdmissionCount db i t cls.
Proof.
  intros Hpos d. unfold d, retryAfterExpiry, nextAdmissionExpiry. split; [lia|].
  destruct (min_expiry (js_filter (active_row i t cls) (db_admissions db))) as [e|] eqn:He; last first.
  { exfalso. unfold activeAdmissionCount, count in Hpos. unfold js_filter in He.
    destruct (List.filter (active_row i t cls) (db_admissions db)); [cbn in Hpos; lia|discriminate]. }
  apply min_expiry_spec in He as (r & Hr & Hre).
  unfold js_filter in Hr. rewrite list_elem_of_In, List.filter_In, <-list_elem_of_In in Hr. destruct Hr as [Hin Hact].
  assert (Hlt : t < e).
  { unfold active_row in Hact. rewrite !andb_true_iff, Z.ltb_lt in Hact. destruct Hact as [[_ ?] _]. lia. }
  change (default _ (Some e)) with e. replace (t + Z.max 1 (e - t)) with e by lia.
  apply (count_lt _ _ _ r); [|done|done|].
  - intros x _. apply active_row_later. lia.
  - unfold active_row. rewrite (proj2 (Z.ltb_ge e _)) by lia. by rewrite andb_false_r.
Qed.

Lemma next_window t : window_of cfg (window_of cfg t + ac_rateWindowMs cfg) = window_of cfg t + ac_rateWindowMs cfg.
Proof.
  pose proof (co_window Hcfg) as Hw. unfold window_of.
  replace (t / ac_rateWindowMs cfg * ac_rateWindowMs cfg + ac_rateWindowMs cfg)
    with ((t / ac_rateWindowMs cfg + 1) * ac_rateWindowMs cfg) by lia.
  by rewrite Z.div_mul by lia.
Qed.

Lemma window_contains t : window_of cfg t ≤ t < window_of cfg t + ac_rateWindowMs cfg.
Proof.
  pose proof (co_window Hcfg) as Hw. unfold window_of.
  pose proof (Z.div_mod t (ac_rateWindowMs cfg)). pose proof (Z.mod_pos_bound t (ac_rateWindowMs cfg) Hw). lia.
Qed.

(** * Claims *)

(** C11. Every tenant is held to its own limits, along every sequence of transactions in order
    of time that starts without admissions and prunes no rate window that is not over: if the
    limits of a tenant (its policy's, or the configured ones where the policy has none) never
    exceed [M i], [MT i] and [R i] while the policies are edited, it never has more than [M i] live
    admissions or [MT i] live turns, and is never admitted more than [R i] times in a window.
    Windows and admissions last for a positive time. *)
Theorem admission_limits_hold db t0 s t :
  fresh_db db → adm_trace (db, []) t0 s t →
  ∀ i, activeAdmissionCount s.1 i t None ≤ M i ∧ activeAdmissionCount s.1 i t (Some class_turn) ≤ MT i
       ∧ ∀ w, log_count i w s.2 ≤ R i.
Proof.
  intros Hf Htr i. pose proof (trace_inv db t0 s t Hf Htr) as [_ Hr Ht _ Hl _]. by split_and!.
Qed.

(** The effect of [acquireTenantRuntimeAdmission]: a request that is not
    admitted leaves the tables alone; an admitted one passed every limit, adds
    exactly one live admission of its class and one request to its rate window,
    and leaves every other tenant's counts as they were. *)
Theorem acquire_effect i kind token t iso db res db' :
  acquireTenantRuntimeAdmission cfg i kind token t iso db = (res, db') →
  match res with
  | admitted tok e cls =>
      tok = token ∧ e = t + ac_admissionTtlMs cfg ∧ cls = kind_requestClass kind ∧
      acquire_guards i kind token t db ∧
      (∀ j c, activeAdmissionCount db' j t c = activeAdmissionCount db j t c +
         (if decide (j = i ∧ (c = None ∨ c = Some cls)) then 1 else 0)) ∧
      (∀ j w, window_count db' j w = window_count db j w +
         (if decide (j = i ∧ w = window_of cfg t) then 1 else 0))
  | _ => db' = db
  end.
Proof.
  intros Heq. pose proof (acquire_cases i kind token t iso db) as Hcase. rewrite Heq in Hcase.
  destruct Hcase as [[-> [->|(reason & retry & ->)]]|(-> & -> & Hg)]; [done..|].
  split_and!; [done..| |].
  - intros j c. apply active_admit, Hcfg.
  - intros j w. apply (window_count_bump (set_admissions (db_admissions (record_admission cfg i kind token t iso db)) db)).
Qed.

(** The advised waiting time is right: after it, a tenant refused for
    concurrency has strictly fewer live admissions (of the class counted) even
    if none is released, and a tenant refused for its rate is exactly at the
    start of the next window. *)
Theorem retry_after_sound i kind token t iso db reason d db' :
  acquireTenantRuntimeAdmission cfg i kind token t iso db = (rejected reason (Some d), db') →
  match reason with
  | rate_limited => 0 < d ≤ ac_rateWindowMs cfg ∧ t + d = window_of cfg t + ac_rateWindowMs cfg
      ∧ window_of cfg (t + d) = t + d
  | request_concurrency_exhausted => 1 ≤ d ∧
      (0 < activeAdmissionCount db i t None →
       activeAdmissionCount db i (t + d) None < activeAdmissionCount db i t None)
  | turn_concurrency_exhausted => 1 ≤ d ∧
      (0 < activeAdmissionCount db i t (Some class_turn) →
       activeAdmissionCount db i (t + d) (Some class_turn) < activeAdmissionCount db i t (Some class_turn))
  | _ => False
  end.
Proof.
  unfold acquireTenantRuntimeAdmission.
  destruct (negb (ac_enabled cfg)); [done|]. destruct (_ || _); [done|]. destruct (negb _); [done|].
  destruct (bool_decide _); [done|]. destruct (_ && _); [done|]. destruct (bool_decide _); [done|].
  destruct (getAdmission _ _); [done|]. destruct (_ <=? _).
  { intros [= <- <- _]. pose proof (window_contains t). pose proof (next_window t) as Hn.
    replace (t + (window_of cfg t + ac_rateWindowMs cfg - t)) with (window_of cfg t + ac_rateWindowMs cfg) by lia.
    split_and!; lia || done. }
  destruct (_ <=? _).
  { intros [= <- <- _]. split; [unfold retryAfterExpiry; lia|]. apply next_expiry_frees. }
  destruct (_ && _); [|done].
  intros [= <- <- _]. split; [unfold retryAfterExpiry; lia|]. apply next_expiry_frees.
Qed.
End admission.

(** ** Two tenants *)

(** One has a policy of its own: stricter for its requests and their rate, wider for its turns. *)
Definition demo_cfg := mkAdmissionConfig true mode_active 2 1 10 1000 500.
Definition demo_id := mkIdentity "org" "user" "asst".
Definition demo_strict := mkIdentity "org" "user" "asst2".
Definition demo_db := mkAdmissionDb [("asst", "org", "user"); ("asst2", "org", "user")] [("org", "user")]
  [mkPolicy "org" "asst2" policy_active (Some 1) (Some 3) (Some 4) None "iso" "operator"] [] [].
Definition demo_turn := mkKind class_turn true.

Definition per_tenant (strict others : Z) (i : TenantRuntimeIdentity) : Z :=
  if eqs (ti_organizationId i) "org" && eqs (ti_assistantId i) "asst2" then strict else others.
Lemma demo_config_ok : config_ok (demo_cfg) (per_tenant 1 2) (per_tenant 3 1) (per_tenant 4 10).
Proof. constructor; [done|done|]. intros i. unfold per_tenant. case_match; lia. Qed.
Lemma demo_bounded : limits_bounded demo_cfg (per_tenant 1 2) (per_tenant 3 1) (per_tenant 4 10) demo_db.
Proof.
  intros [o u a]. unfold own_requests, own_turns, own_rate, getPolicy, policy_key, per_tenant, eqs. cbn.
  rewrite (bool_decide_ext ("org" = o) (o = "org")), (bool_decide_ext ("asst2" = a) (a = "asst2")) by (split; congruence).
  destruct (_ && _); cbn; lia.
Qed.

Definition demo_adm : adm_state := run_adm demo_cfg (OpAcquire demo_id demo_turn "token" "iso") 7 (demo_db, []).
Definition demo_both : adm_state := run_adm demo_cfg (OpAcquire demo_strict demo_turn "token2" "iso") 7 demo_adm.

(** Witness of C11: the stricter tenant is at its own limit, below the configured one. *)
Lemma admission_limits_hold_witness :
  activeAdmissionCount demo_both.1 demo_strict 7 None = 1 ∧ activeAdmissionCount demo_both.1 demo_strict 7 None ≤ 1
  ∧ (acquireTenantRuntimeAdmission demo_cfg demo_strict demo_turn "token3" 8 "iso" demo_both.1).1
    = rejected request_concurrency_exhausted (Some 499).
Proof.
  split; [vm_compute; reflexivity|]. split; [|vm_compute; reflexivity].
  apply (admission_limits_hold demo_cfg (per_tenant 1 2) (per_tenant 3 1) (per_tenant 4 10) demo_config_ok demo_db 0 demo_both 7).
  - split; reflexivity.
  - apply (trace_step demo_cfg _ _ _ (demo_db, []) 0 demo_adm 7); [|lia|exact demo_bounded|exact I].
    apply (trace_step demo_cfg _ _ _ (demo_db, []) 0 (demo_db, []) 0); [constructor|lia|exact demo_bounded|exact I].
Defined.

(** For example: the admitted turn. *)
Lemma acquire_effect_witness :
  ∃ e db', acquireTenantRuntimeAdmission demo_cfg demo_id demo_turn "token" 7 "iso" demo_db
             = (admitted "token" e class_turn, db') ∧ activeAdmissionCount db' demo_id 7 None = 1.
Proof.
  exists 507, demo_adm.1. split; [vm_compute; reflexivity|].
  destruct (acquire_effect demo_cfg _ _ _ demo_config_ok demo_id demo_turn "token" 7 "iso" demo_db
    (admitted "token" 507 class_turn) demo_adm.1) as (_ & _ & _ & _ & Hcount & _); [vm_compute; reflexivity|].
  rewrite Hcount, decide_True; [vm_compute; reflexivity|]. split; [reflexivity|left; reflexivity].
Defined.

(** For example: a second turn must wait for the first to expire. *)
Lemma retry_after_sound_witness :
  acquireTenantRuntimeAdmission demo_cfg demo_id demo_turn "token2" 10 "iso" demo_adm.1
    = (rejected turn_concurrency_exhausted (Some 497), demo_adm.1) ∧
  activeAdmissionCount demo_adm.1 demo_id 507 (Some class_turn) < activeAdmissionCount demo_adm.1 demo_id 10 (Some class_turn).
Proof.
  split; [vm_compute; reflexivity|].
  destruct (retry_after_sound demo_cfg _ _ _ demo_config_ok demo_id demo_turn "token2" 10 "iso" demo_adm.1
    turn_concurrency_exhausted 497 demo_adm.1) as [_ Hfree]; [vm_compute; reflexivity|].
  apply Hfree. vm_compute. reflexivity.
Defined.
