(* ===== verification/WorkerLeases.v ===== *)
(** * Runtime worker leases

    src/control-plane/src/runtime-worker-leases.ts: a pool of worker stacks
    leased to assistants, kept in SQLite.  A table is the list of its rows.
    The unique indexes and CHECK clauses of the schema are part of the model: a
    write that would break one throws and is rolled back. *)
From S2P Require Import Prelude.

Definition RUNTIME_WORKER_POOL_PROVIDER : string := "pooled_worker".

Record RuntimeWorkerLeaseAssistant := mkLeaseAssistant { la_id : string; la_org_id : string }.
#[global] Instance RuntimeWorkerLeaseAssistant_eq_dec : EqDecision RuntimeWorkerLeaseAssistant.
Proof. solve_decision. Defined.

Record RuntimeWorkerStackRow := mkStack {
  sk_id : string;
  sk_status : string;
  sk_provider : string;
  sk_gateway_url : option string;
  sk_public_ingress_url : option string;
  sk_workspace_volume_ref : option string;
  sk_service_ref : option string;
  sk_actor_signing_key_scope : string;
}.

Record RuntimeWorkerLeaseRow := mkLease {
  le_runtime_stack_id : string;
  le_assistant_id : option string;
  le_org_id : option string;
  le_lease_token : option string;
  le_lease_generation : Z;
  le_lease_expires_at : option Z;
  le_acquired_at : option Z;
  le_released_at : option Z;
  le_sanitized_at : option Z;
  le_updated_at : string;
}.

Record RuntimeWorkerLease := mkWorkerLease { wl_stack : RuntimeWorkerStackRow; wl_lease : RuntimeWorkerLeaseRow }.

Inductive ClaimReason := acquired | assistant_not_found | assistant_busy | capacity_exhausted.

Record RuntimeWorkerLeaseClaim := mkClaim {
  cm_assignment : option RuntimeWorkerLease;
  cm_leaseAcquired : bool;
  cm_reason : ClaimReason;
  cm_retryAfterMs : option Z;
}.

Record WorkerDb := mkWorkerDb {
  wd_assistants : list (string * string);   (* id, org_id *)
  wd_stacks : list RuntimeWorkerStackRow;
  wd_leases : list RuntimeWorkerLeaseRow;
}.
Definition set_leases (l : list RuntimeWorkerLeaseRow) (db : WorkerDb) : WorkerDb :=
  mkWorkerDb (wd_assistants db) (wd_stacks db) l.

(** ** The schema's constraints *)

(** The CHECK clauses. *)
Definition row_checks (r : RuntimeWorkerLeaseRow) : bool :=
  Bool.eqb (is_null (le_assistant_id r)) (is_null (le_org_id r))
  && Bool.eqb (is_null (le_lease_token r)) (is_null (le_lease_expires_at r))
  && (is_null (le_lease_token r) || negb (is_null (le_assistant_id r)))
  && (0 <=? le_lease_generation r).

(** Two non-null values of a UNIQUE column collide. *)
Definition collide (a b : option string) : bool :=
  match a, b with Some x, Some y => eqs x y | _, _ => false end.

(** The row may stand beside the others. *)
Definition fits (r : RuntimeWorkerLeaseRow) (others : list RuntimeWorkerLeaseRow) : bool :=
  row_checks r
  && negb (js_some (λ x, eqs (le_runtime_stack_id x) (le_runtime_stack_id r)
                         || collide (le_lease_token x) (le_lease_token r)
                         || collide (le_assistant_id x) (le_assistant_id r)) others).

Definition other_stack (stackId : string) (x : RuntimeWorkerLeaseRow) : bool :=
  negb (eqs (le_runtime_stack_id x) stackId).

Definition constraint_failed : string := "SQLITE_CONSTRAINT".

(** ** Queries *)

Definition getWorkerStack (db : WorkerDb) (stackId : string) : option RuntimeWorkerStackRow :=
  js_find (λ s, eqs (sk_id s) stackId && eqs (sk_provider s) RUNTIME_WORKER_POOL_PROVIDER
                && eqs (sk_status s) "active" && negb (is_null (sk_gateway_url s))
                && negb (is_null (sk_service_ref s))) (wd_stacks db).

Definition getLeaseForStack (db : WorkerDb) (stackId : string) : option RuntimeWorkerLeaseRow :=
  js_find (λ r, eqs (le_runtime_stack_id r) stackId) (wd_leases db).

(** [assistant_id = ? AND org_id = ?]; a comparison with NULL is not true. *)
Definition held_by (a : RuntimeWorkerLeaseAssistant) (r : RuntimeWorkerLeaseRow) : bool :=
  eqos (le_assistant_id r) (Some (la_id a)) && eqos (le_org_id r) (Some (la_org_id a)).

Definition getLeaseForAssistant (db : WorkerDb) (a : RuntimeWorkerLeaseAssistant) : option RuntimeWorkerLeaseRow :=
  js_find (held_by a) (wd_leases db).

Definition assignmentFor (db : WorkerDb) (lease : RuntimeWorkerLeaseRow) : option RuntimeWorkerLease :=
  match getWorkerStack db (le_runtime_stack_id lease) with
  | Some stack => Some (mkWorkerLease stack lease)
  | None => None
  end.

(** [lease_token IS NOT NULL AND lease_expires_at > ?] *)
Definition live_lease (nowMs : Z) (r : RuntimeWorkerLeaseRow) : bool :=
  negb (is_null (le_lease_token r))
  && match le_lease_expires_at r with Some e => nowMs <? e | None => false end.

(** [lease_token IS NULL OR lease_expires_at <= ?] *)
Definition free_lease (nowMs : Z) (r : RuntimeWorkerLeaseRow) : bool :=
  is_null (le_lease_token r)
  || match le_lease_expires_at r with Some e => e <=? nowMs | None => false end.

Fixpoint min_lease_expiry (l : list RuntimeWorkerLeaseRow) : option Z :=
  match l with
  | [] => None
  | r :: l' =>
      match le_lease_expires_at r, min_lease_expiry l' with
      | Some e, Some m => Some (Z.min e m)
      | Some e, None => Some e
      | None, m => m
      end
  end.

(** ** Claiming *)

(** [[...new Set(l)]] *)
Fixpoint dedup (seen l : list string) : list string :=
  match l with
  | [] => []
  | x :: l' => if bool_decide (x ∈ seen) then dedup seen l' else x :: dedup (x :: seen) l'
  end.

Definition assertClaimInputs (candidateStackIds : list string) (maxConcurrentLeases : Z)
    (leaseToken : string) (leaseTtlMs : Z) : string + list string :=
  if negb (truthy (js_trim leaseToken)) then inl "Worker lease token is required."
  else if maxConcurrentLeases <? 1 then inl "Worker lease capacity must be a positive integer."
  else if leaseTtlMs <? 1 then inl "Worker lease TTL must be a positive integer."
  else inr (dedup [] (js_filter truthy (js_trim <$> candidateStackIds))).

Definition refused (reason : ClaimReason) (retryAfterMs : option Z) : RuntimeWorkerLeaseClaim :=
  mkClaim None false reason retryAfterMs.

(** The row an INSERT would add, and what DO UPDATE makes of an existing row. *)
Definition inserted_lease (stackId : string) (a : RuntimeWorkerLeaseAssistant) (leaseToken : string)
    (nowMs leaseTtlMs : Z) (iso : string) : RuntimeWorkerLeaseRow :=
  mkLease stackId (Some (la_id a)) (Some (la_org_id a)) (Some leaseToken) 1 (Some (nowMs + leaseTtlMs))
    (Some nowMs) None None iso.
Definition reclaimed_lease (a : RuntimeWorkerLeaseAssistant) (leaseToken : string)
    (nowMs leaseTtlMs : Z) (iso : string) (r : RuntimeWorkerLeaseRow) : RuntimeWorkerLeaseRow :=
  mkLease (le_runtime_stack_id r) (Some (la_id a)) (Some (la_org_id a)) (Some leaseToken)
    (le_lease_generation r + 1) (Some (nowMs + leaseTtlMs)) (Some nowMs) None (le_sanitized_at r) iso.

(** The WHERE clause of DO UPDATE. *)
Definition reclaimable (a : RuntimeWorkerLeaseAssistant) (nowMs : Z) (r : RuntimeWorkerLeaseRow) : bool :=
  ((is_null (le_assistant_id r) && is_null (le_org_id r)) || held_by a r) && free_lease nowMs r.

(** INSERT ... ON CONFLICT(runtime_stack_id) DO UPDATE ... WHERE ... *)
Definition upsert_lease (stackId : string) (a : RuntimeWorkerLeaseAssistant) (leaseToken : string)
    (nowMs leaseTtlMs : Z) (iso : string) (leases : list RuntimeWorkerLeaseRow)
    : string + list RuntimeWorkerLeaseRow :=
  let others := js_filter (other_stack stackId) leases in
  match js_find (λ r, eqs (le_runtime_stack_id r) stackId) leases with
  | Some r =>
      if reclaimable a nowMs r then
        let r' := reclaimed_lease a leaseToken nowMs leaseTtlMs iso r in
        if fits r' others
        then inr (update_where (λ x, eqs (le_runtime_stack_id x) stackId) (λ _, r') leases)
        else inl constraint_failed
      else inr leases
  | None =>
      let r' := inserted_lease stackId a leaseToken nowMs leaseTtlMs iso in
      if fits r' others then inr (leases ++ [r']) else inl constraint_failed
  end.

(** The stack the claim will use: the one bound to the assistant, or the first
    candidate that is up and not bound to anyone. *)
Definition available_stack (db : WorkerDb) (candidates : list string) (existing : option RuntimeWorkerLeaseRow)
    : option string :=
  match existing with
  | Some e => Some (le_runtime_stack_id e)
  | None =>
      js_find (λ stackId,
        negb (is_null (getWorkerStack db stackId))
        && match getLeaseForStack db stackId with
           | None => true
           | Some r => is_null (le_assistant_id r)
           end) candidates
  end.

(** The tail of the claim: write the lease and read it back. *)
Definition claim_stack (a : RuntimeWorkerLeaseAssistant) (stackId leaseToken : string)
    (nowMs leaseTtlMs : Z) (iso : string) (db : WorkerDb)
    : (string + RuntimeWorkerLeaseClaim) * WorkerDb :=
  match upsert_lease stackId a leaseToken nowMs leaseTtlMs iso (wd_leases db) with
  | inl e => (inl e, db)
  | inr leases =>
      let db' := set_leases leases db in
      let assignment :=
        match getLeaseForStack db' stackId with
        | Some claimed =>
            if held_by a claimed && eqos (le_lease_token claimed) (Some leaseToken)
            then assignmentFor db' claimed else None
        | None => None
        end in
      (inr (mkClaim assignment (negb (is_null assignment))
              (if is_null assignment then capacity_exhausted else acquired) None), db')
  end.

(** The claim of an assistant without a live lease, from the capacity check on. *)
Definition claim_free (a : RuntimeWorkerLeaseAssistant) (candidates : list string)
    (maxConcurrentLeases : Z) (leaseToken : string) (nowMs leaseTtlMs : Z) (iso : string) (db : WorkerDb)
    : (string + RuntimeWorkerLeaseClaim) * WorkerDb :=
  if maxConcurrentLeases <=? count (live_lease nowMs) (wd_leases db) then
    (inr (refused capacity_exhausted
            ((λ e, Z.max 1 (e - nowMs)) <$> min_lease_expiry (js_filter (live_lease nowMs) (wd_leases db)))), db)
  else
    match available_stack db candidates (getLeaseForAssistant db a) with
    | Some stackId =>
        if truthy stackId && negb (is_null (getWorkerStack db stackId))
        then claim_stack a stackId leaseToken nowMs leaseTtlMs iso db
        else (inr (refused capacity_exhausted None), db)
    | None => (inr (refused capacity_exhausted None), db)
    end.

Definition claimRuntimeWorkerLease (a : RuntimeWorkerLeaseAssistant) (candidateStackIds : list string)
    (maxConcurrentLeases : Z) (leaseToken : string) (nowMs leaseTtlMs : Z) (iso : string) (db : WorkerDb)
    : (string + RuntimeWorkerLeaseClaim) * WorkerDb :=
  match assertClaimInputs candidateStackIds maxConcurrentLeases leaseToken leaseTtlMs with
  | inl e => (inl e, db)
  | inr candidates =>
      if negb (js_some (λ x, eqs x.1 (la_id a) && eqs x.2 (la_org_id a)) (wd_assistants db))
      then (inr (refused assistant_not_found None), db)
      else
        let existing := getLeaseForAssistant db a in
        let live := match existing with
                    | Some e => truthy_opt (le_lease_token e) && (nowMs <? default 0 (le_lease_expires_at e))
                    | None => false
                    end in
        match existing with
        | Some e =>
            if live then
              if eqos (le_lease_token e) (Some leaseToken) then
                let assignment := assignmentFor db e in
                (inr (mkClaim assignment (negb (is_null assignment))
                        (if is_null assignment then capacity_exhausted else acquired) None), db)
              else (inr (refused assistant_busy
                           (Some (Z.max 1 (default nowMs (le_lease_expires_at e) - nowMs)))), db)
            else if negb (bool_decide (le_runtime_stack_id e ∈ candidates))
            then (inr (refused capacity_exhausted None), db)
            else claim_free a candidates maxConcurrentLeases leaseToken nowMs leaseTtlMs iso db
        | None => claim_free a candidates maxConcurrentLeases leaseToken nowMs leaseTtlMs iso db
        end
  end.

(** ** Holding, renewing, releasing, sanitizing *)

Definition getActiveRuntimeWorkerLease (a : RuntimeWorkerLeaseAssistant) (leaseToken : string) (nowMs : Z)
    (db : WorkerDb) : option RuntimeWorkerLease :=
  match getLeaseForAssistant db a with
  | None => None
  | Some lease =>
      if negb (eqos (le_lease_token lease) (Some leaseToken)) || (default 0 (le_lease_expires_at lease) <=? nowMs)
      then None else assignmentFor db lease
  end.

(** [assistant_id = ? AND org_id = ? AND lease_token = ?] *)
Definition holds_token (a : RuntimeWorkerLeaseAssistant) (leaseToken : string) (r : RuntimeWorkerLeaseRow) : bool :=
  held_by a r && eqos (le_lease_token r) (Some leaseToken).

Definition renewed_lease (expiresAt : Z) (iso : string) (r : RuntimeWorkerLeaseRow) : RuntimeWorkerLeaseRow :=
  mkLease (le_runtime_stack_id r) (le_assistant_id r) (le_org_id r) (le_lease_token r) (le_lease_generation r)
    (Some expiresAt) (le_acquired_at r) (le_released_at r) (le_sanitized_at r) iso.

(** The UPDATE commits before its effect is checked. *)
Definition renewRuntimeWorkerLease (a : RuntimeWorkerLeaseAssistant) (leaseToken : string)
    (nowMs leaseTtlMs : Z) (iso : string) (db : WorkerDb) : (string + RuntimeWorkerLease) * WorkerDb :=
  if leaseTtlMs <? 1 then (inl "Worker lease TTL must be a positive integer.", db)
  else
    let p := λ r, holds_token a leaseToken r
                  && match le_lease_expires_at r with Some e => nowMs <? e | None => false end in
    let db' := set_leases (update_where p (renewed_lease (nowMs + leaseTtlMs) iso) (wd_leases db)) db in
    if negb (count p (wd_leases db) =? 1) then (inl "Runtime worker lease was lost.", db')
    else match getLeaseForAssistant db' a with
    | None => (inl "Runtime worker is unavailable.", db')
    | Some lease =>
        match assignmentFor db' lease with
        | None => (inl "Runtime worker is unavailable.", db')
        | Some assignment => (inr assignment, db')
        end
    end.

Definition released_lease (nowMs : Z) (iso : string) (r : RuntimeWorkerLeaseRow) : RuntimeWorkerLeaseRow :=
  mkLease (le_runtime_stack_id r) (le_assistant_id r) (le_org_id r) None (le_lease_generation r)
    None (le_acquired_at r) (Some nowMs) (le_sanitized_at r) iso.

Definition releaseRuntimeWorkerLease (a : RuntimeWorkerLeaseAssistant) (leaseToken : string)
    (nowMs : Z) (iso : string) (db : WorkerDb) : (string + unit) * WorkerDb :=
  let p := holds_token a leaseToken in
  let db' := set_leases (update_where p (released_lease nowMs iso) (wd_leases db)) db in
  if negb (count p (wd_leases db) =? 1) then (inl "Runtime worker lease was lost.", db') else (inr tt, db').

Definition sanitized_lease (nowMs : Z) (iso : string) (r : RuntimeWorkerLeaseRow) : RuntimeWorkerLeaseRow :=
  mkLease (le_runtime_stack_id r) None None None (le_lease_generation r)
    None (le_acquired_at r) (le_released_at r) (Some nowMs) iso.

Definition markRuntimeWorkerSanitized (stackId : string) (a : RuntimeWorkerLeaseAssistant)
    (nowMs : Z) (iso : string) (db : WorkerDb) : (string + unit) * WorkerDb :=
  let p := λ r, eqs (le_runtime_stack_id r) stackId && held_by a r && free_lease nowMs r in
  let db' := set_leases (update_where p (sanitized_lease nowMs iso) (wd_leases db)) db in
  if negb (count p (wd_leases db) =? 1) then (inl "Runtime worker cannot be sanitized while leased.", db')
  else (inr tt, db').
