(* ===== verification/WorkerProps.v ===== *)
(** * Properties of runtime worker leases

    Exclusive leases, binding until sanitized, generations that fence off
    former holders, and the pool's capacity, along every sequence of calls. *)
From S2P Require Import Prelude WorkerLeases.

(** ** The table's invariant *)

Record table_ok (l : list RuntimeWorkerLeaseRow) : Prop := {
  tk_checks : Forall (λ r, row_checks r = true) l;
  tk_stacks : NoDup (le_runtime_stack_id <$> l);
  tk_assistants : NoDup (omap le_assistant_id l);
  tk_tokens : NoDup (omap le_lease_token l);
}.

Lemma table_ok_perm l l' : l ≡ₚ l' → table_ok l → table_ok l'.
Proof. intros Hp [H1 H2 H3 H4]. constructor; by rewrite <-Hp. Qed.

(** A NULL never collides; otherwise the new value must be new. *)
Lemma NoDup_omap_cons {A} (g : A → option string) r l :
  js_some (λ x, collide (g x) (g r)) l = false → NoDup (omap g l) → NoDup (omap g (r :: l)).
Proof.
  intros Hno Hnd. rewrite omap_step. destruct (g r) as [v|] eqn:Hg; [|done]. apply NoDup_cons. split; [|done].
  intros Hin. apply list_elem_of_omap in Hin as (x & Hx & Hv).
  rewrite <-not_true_iff_false in Hno. apply Hno, existsb_exists. exists x.
  split; [by apply list_elem_of_In|]. rewrite Hv. cbn. by apply bool_decide_eq_true_2.
Qed.

Lemma js_some_or {A} (p q : A → bool) l : js_some (λ x, p x || q x) l = js_some p l || js_some q l.
Proof.
  unfold js_some. induction l as [|x l IH]; [done|]. cbn. rewrite IH. by destruct (p x), (q x), (existsb p l).
Qed.

Lemma fits_ok r l : fits r l = true → table_ok l → table_ok (r :: l).
Proof.
  unfold fits. rewrite andb_true_iff, negb_true_iff, !js_some_or, !orb_false_iff.
  intros [Hc [[Hs Ht] Ha]] [H1 H2 H3 H4]. constructor.
  - by constructor.
  - cbn. apply NoDup_cons. split; [|done]. intros Hin. apply list_elem_of_fmap in Hin as (x & Hx & Hin).
    rewrite <-not_true_iff_false in Hs. apply Hs, existsb_exists. exists x.
    split; [by apply list_elem_of_In|]. by apply bool_decide_eq_true_2.
  - by apply NoDup_omap_cons.
  - by apply NoDup_omap_cons.
Qed.

Lemma table_ok_tail r l : table_ok (r :: l) → table_ok l.
Proof.
  intros [H1 H2 H3 H4]. apply Forall_cons in H1 as [_ H1]. cbn in H2. apply NoDup_cons in H2 as [_ H2].
  constructor; [done..| |].
  - revert H3. rewrite omap_step. destruct (le_assistant_id r); [by intros [_ ?]%NoDup_cons|done].
  - revert H4. rewrite omap_step. destruct (le_lease_token r); [by intros [_ ?]%NoDup_cons|done].
Qed.

(** The row of a stack, and the others. *)
Lemma split_by_stack l stackId r :
  NoDup (le_runtime_stack_id <$> l) →
  js_find (λ x, eqs (le_runtime_stack_id x) stackId) l = Some r →
  ∃ l1 l2, l = l1 ++ r :: l2 ∧ le_runtime_stack_id r = stackId ∧
    js_filter (other_stack stackId) l = l1 ++ l2 ∧
    ∀ f, update_where (λ x, eqs (le_runtime_stack_id x) stackId) f l = l1 ++ f r :: l2.
Proof.
  induction l as [|x l IH]; [done|]. cbn [fmap list_fmap]. intros [Hn Hnd]%NoDup_cons. cbn.
  unfold other_stack, update_where, js_filter in *. cbn.
  destruct (eqs (le_runtime_stack_id x) stackId) eqn:Hx; cbn.
  - intros [= ->]. apply bool_decide_eq_true in Hx. exists [], l. cbn.
    assert (Hno : ∀ y, y ∈ l → eqs (le_runtime_stack_id y) stackId = false).
    { intros y Hy. apply bool_decide_eq_false. intros Heq. apply Hn. rewrite Hx, <-Heq. by apply list_elem_of_fmap_2. }
    split_and!; [done|done| |].
    + clear -Hno. induction l as [|y l IH]; [done|]. cbn. rewrite Hno by set_solver. cbn.
      by rewrite IH by set_solver.
    + intros f. f_equal. clear -Hno. induction l as [|y l IH]; [done|]. cbn. rewrite Hno by set_solver.
      by rewrite IH by set_solver.
  - intros Hf. destruct (IH Hnd Hf) as (l1 & l2 & -> & Hr & Hfil & Hup). exists (x :: l1), l2.
    split_and!; [done|done|cbn; by rewrite Hfil|]. intros f. cbn. by rewrite Hup.
Qed.

Lemma others_absent l stackId :
  js_find (λ x, eqs (le_runtime_stack_id x) stackId) l = None → js_filter (other_stack stackId) l = l.
Proof.
  unfold other_stack, js_filter. induction l as [|x l IH]; [done|]. cbn.
  destruct (eqs (le_runtime_stack_id x) stackId); cbn; [done|]. intros Hf. by rewrite IH.
Qed.

(** UPDATEs that keep or clear the unique columns. *)
Lemma omap_update_sublist {A B} (g : A → option B) p f l :
  (∀ x, g (f x) = g x ∨ g (f x) = None) → sublist (omap g (update_where p f l)) (omap g l).
Proof.
  intros Hf. induction l as [|x l IH]; [done|]. unfold update_where. cbn [fmap list_fmap]. rewrite !omap_step.
  destruct (p x); [destruct (Hf x) as [->| ->]|]; (destruct (g x); first [exact IH|constructor; exact IH]).
Qed.

Lemma upsert_ok stackId a token now ttl iso l l' :
  table_ok l → upsert_lease stackId a token now ttl iso l = inr l' → table_ok l'.
Proof.
  intros Hok. unfold upsert_lease.
  destruct (js_find _ l) as [r|] eqn:Hf.
  - destruct (reclaimable a now r); [|by intros [= <-]].
    destruct (fits _ _) eqn:Hfit; [|done]. intros [= <-].
    destruct (split_by_stack l stackId r (tk_stacks l Hok) Hf) as (l1 & l2 & Hl & _ & Hoth & Hup).
    rewrite Hup. rewrite Hoth in Hfit.
    apply (table_ok_perm (reclaimed_lease a token now ttl iso r :: l1 ++ l2)); [by rewrite Permutation_middle|].
    apply fits_ok; [done|]. apply (table_ok_tail r).
    apply (table_ok_perm l); [rewrite Hl; by rewrite Permutation_middle|done].
  - destruct (fits _ _) eqn:Hfit; [|done]. intros [= <-]. rewrite others_absent in Hfit by done.
    apply (table_ok_perm (inserted_lease stackId a token now ttl iso :: l)); [by rewrite Permutation_cons_append|].
    by apply fits_ok.
Qed.

(** ** Calls *)

Inductive WorkerOp :=
  | WClaim (a : RuntimeWorkerLeaseAssistant) (candidates : list string) (max : Z) (token : string) (ttl : Z) (iso : string)
  | WRenew (a : RuntimeWorkerLeaseAssistant) (token : string) (ttl : Z) (iso : string)
  | WRelease (a : RuntimeWorkerLeaseAssistant) (token : string) (iso : string)
  | WSanitize (stackId : string) (a : RuntimeWorkerLeaseAssistant) (iso : string).

Definition run_worker (o : WorkerOp) (t : Z) (db : WorkerDb) : WorkerDb :=
  match o with
  | WClaim a cands max token ttl iso => (claimRuntimeWorkerLease a cands max token t ttl iso db).2
  | WRenew a token ttl iso => (renewRuntimeWorkerLease a token t ttl iso db).2
  | WRelease a token iso => (releaseRuntimeWorkerLease a token t iso db).2
  | WSanitize stackId a iso => (markRuntimeWorkerSanitized stackId a t iso db).2
  end.

Definition registered (db : WorkerDb) (a : RuntimeWorkerLeaseAssistant) : Prop :=
  (la_id a, la_org_id a) ∈ wd_assistants db.

Lemma registered_spec db a :
  js_some (λ x, eqs x.1 (la_id a) && eqs x.2 (la_org_id a)) (wd_assistants db) = true ↔ registered db a.
Proof.
  unfold js_some, registered. rewrite existsb_exists. split.
  - intros ([x y] & Hin%list_elem_of_In & Heq). apply andb_true_iff in Heq as [Hx Hy].
    apply bool_decide_eq_true in Hx, Hy. cbn in *. by subst.
  - intros Hin. eexists. split; [apply list_elem_of_In, Hin|]. cbn. unfold eqs. by rewrite !bool_decide_true.
Qed.

(** What the checked inputs of a claim satisfy. *)
Lemma assertClaimInputs_spec cands max token ttl c :
  assertClaimInputs cands max token ttl = inr c →
  token ≠ "" ∧ 1 ≤ max ∧ 1 ≤ ttl ∧ ∀ s, s ∈ c → truthy s = true.
Proof.
  unfold assertClaimInputs. destruct (truthy (js_trim token)) eqn:Htok; cbn; [|done].
  destruct (max <? 1) eqn:Hm; [done|]. destruct (ttl <? 1) eqn:Ht; [done|]. intros [= <-].
  apply Z.ltb_ge in Hm, Ht. split_and!; [by intros ->|done|done|]. intros s.
  assert (Hd : ∀ l seen, s ∈ dedup seen l → s ∈ l).
  { induction l as [|x l IH]; intros seen; cbn; [done|]. case_bool_decide; [set_solver|].
    intros [->|Hin]%elem_of_cons; [set_solver|]. apply IH in Hin. set_solver. }
  intros Hin%Hd. unfold js_filter in Hin. apply list_elem_of_In, filter_In in Hin as [_ Hs]. done.
Qed.

(** A claim writes at most one row, and only below the pool's capacity. *)
Definition claim_writes (a : RuntimeWorkerLeaseAssistant) (max : Z) (token : string) (t ttl : Z) (iso : string)
    (db db' : WorkerDb) : Prop :=
  db' = db ∨ ∃ stackId l', upsert_lease stackId a token t ttl iso (wd_leases db) = inr l' ∧
    db' = set_leases l' db ∧ count (live_lease t) (wd_leases db) < max ∧ registered db a ∧ token ≠ "".

Lemma claim_free_effect a c max token t ttl iso db :
  registered db a → token ≠ "" → claim_writes a max token t ttl iso db (claim_free a c max token t ttl iso db).2.
Proof.
  intros Hreg Htok. unfold claim_free, claim_stack, claim_writes.
  destruct (_ <=? _) eqn:Hcap; [by left|]. apply Z.leb_gt in Hcap.
  destruct (available_stack _ _ _) as [stackId|]; [|by left]. destruct (_ && _); [|by left].
  destruct (upsert_lease stackId a token t ttl iso (wd_leases db)) as [e|l'] eqn:Hu; [by left|].
  right. exists stackId, l'. by split_and!.
Qed.

Lemma claim_effect a cands max token t ttl iso db :
  claim_writes a max token t ttl iso db (claimRuntimeWorkerLease a cands max token t ttl iso db).2.
Proof.
  unfold claimRuntimeWorkerLease. destruct (assertClaimInputs _ _ _ _) as [e|c] eqn:Hin; [by left|].
  apply assertClaimInputs_spec in Hin as (Htok & _).
  destruct (negb _) eqn:Hreg; [by left|]. apply negb_false_iff, registered_spec in Hreg.
  destruct (getLeaseForAssistant db a) as [e|]; [|by apply claim_free_effect].
  destruct (_ && _); [destruct (eqos _ _); by left|]. destruct (negb _); [by left|by apply claim_free_effect].
Qed.

Lemma renew_leases a token t ttl iso db :
  wd_leases (renewRuntimeWorkerLease a token t ttl iso db).2 = wd_leases db ∨
  wd_leases (renewRuntimeWorkerLease a token t ttl iso db).2 =
    update_where (λ r, holds_token a token r
                  && match le_lease_expires_at r with Some e => t <? e | None => false end)
      (renewed_lease (t + ttl) iso) (wd_leases db).
Proof.
  unfold renewRuntimeWorkerLease. destruct (ttl <? 1); [by left|]. destruct (negb _); [by right|].
  destruct (getLeaseForAssistant _ a); [|by right]. destruct (assignmentFor _ _); by right.
Qed.

Lemma release_leases a token t iso db :
  wd_leases (releaseRuntimeWorkerLease a token t iso db).2 =
    update_where (holds_token a token) (released_lease t iso) (wd_leases db).
Proof. unfold releaseRuntimeWorkerLease. by destruct (negb _). Qed.

Lemma sanitize_leases stackId a t iso db :
  wd_leases (markRuntimeWorkerSanitized stackId a t iso db).2 =
    update_where (λ r, eqs (le_runtime_stack_id r) stackId && held_by a r && free_lease t r)
      (sanitized_lease t iso) (wd_leases db).
Proof. unfold markRuntimeWorkerSanitized. by destruct (negb _). Qed.

Lemma row_checks_cases r :
  row_checks r = true ↔
  (is_null (le_assistant_id r) = is_null (le_org_id r) ∧
   is_null (le_lease_token r) = is_null (le_lease_expires_at r) ∧
   (is_null (le_lease_token r) = true ∨ is_null (le_assistant_id r) = false) ∧ 0 ≤ le_lease_generation r).
Proof.
  unfold row_checks. rewrite !andb_true_iff, !eqb_true_iff, orb_true_iff, negb_true_iff, Z.leb_le. tauto.
Qed.

(** [renewed_lease] keeps the checks of a row that has a token. *)
Lemma update_ok_where p f l :
  (∀ r, r ∈ l → p r = true → row_checks r = true → row_checks (f r) = true) →
  (∀ r, le_runtime_stack_id (f r) = le_runtime_stack_id r) →
  (∀ r, le_assistant_id (f r) = le_assistant_id r ∨ le_assistant_id (f r) = None) →
  (∀ r, le_lease_token (f r) = le_lease_token r ∨ le_lease_token (f r) = None) →
  table_ok l → table_ok (update_where p f l).
Proof.
  intros Hc Hs Ha Ht [H1 H2 H3 H4]. constructor.
  - unfold update_where. apply Forall_fmap. rewrite Forall_forall in H1 |- *. intros r Hr. cbn.
    destruct (p r) eqn:Hp; auto.
  - replace (le_runtime_stack_id <$> update_where p f l) with (le_runtime_stack_id <$> l); [done|]. symmetry.
    unfold update_where. rewrite <-list_fmap_compose. apply list_fmap_ext. intros i x _. cbn. by destruct (p x).
  - eapply sublist_NoDup; [exact H3|]. by apply omap_update_sublist.
  - eapply sublist_NoDup; [exact H4|]. by apply omap_update_sublist.
Qed.

Lemma run_worker_ok o t db : table_ok (wd_leases db) → table_ok (wd_leases (run_worker o t db)).
Proof.
  intros Hok. destruct o; cbn [run_worker].
  - destruct (claim_effect a candidates max token t ttl iso db) as [->|(st & l' & Hu & -> & _)]; [done|].
    by eapply upsert_ok.
  - destruct (renew_leases a token t ttl iso db) as [->| ->]; [done|].
    apply update_ok_where; auto. intros r _ Hp. rewrite !row_checks_cases. cbn.
    unfold holds_token in Hp. apply andb_true_iff in Hp as [Hp He].
    intros (H1 & H2 & H3 & H4). split_and!; [done| |done|done].
    rewrite H2. by destruct (le_lease_expires_at r).
  - rewrite release_leases. apply update_ok_where; auto. intros r _ _. rewrite !row_checks_cases. cbn.
    intros (H1 & H2 & H3 & H4). split_and!; auto.
  - rewrite sanitize_leases. apply update_ok_where; auto. intros r _ _. rewrite !row_checks_cases. cbn.
    intros (H1 & H2 & H3 & H4). split_and!; auto.
Qed.

(** ** How one row changes *)

(** The holder gives its lease back. *)
Definition releases (o : WorkerOp) (r : RuntimeWorkerLeaseRow) : bool :=
  match o with WRelease a token _ => holds_token a token r | _ => false end.
(** The stack is marked as sanitized. *)
Definition sanitizes (o : WorkerOp) (r : RuntimeWorkerLeaseRow) : bool :=
  match o with WSanitize stackId _ _ => eqs (le_runtime_stack_id r) stackId | _ => false end.

Record row_evolves (o : WorkerOp) (t : Z) (r r' : RuntimeWorkerLeaseRow) : Prop := {
  re_stack : le_runtime_stack_id r' = le_runtime_stack_id r;
  re_generation : le_lease_generation r ≤ le_lease_generation r';
  re_bound : sanitizes o r = false → is_Some (le_assistant_id r) →
    le_assistant_id r' = le_assistant_id r ∧ le_org_id r' = le_org_id r;
  re_live : releases o r = false → live_lease t r = true →
    le_lease_token r' = le_lease_token r ∧ le_assistant_id r' = le_assistant_id r ∧
    le_lease_generation r' = le_lease_generation r;
  re_fence : is_Some (le_lease_token r') → le_lease_token r' ≠ le_lease_token r →
    le_lease_generation r < le_lease_generation r';
}.

Lemma row_evolves_refl o t r : row_evolves o t r r.
Proof. constructor; done || lia. Qed.

Lemma live_not_free t r : live_lease t r = true → free_lease t r = false.
Proof.
  unfold live_lease, free_lease. destruct (is_null (le_lease_token r)); [done|]. cbn.
  destruct (le_lease_expires_at r); [|done]. rewrite Z.ltb_lt, Z.leb_gt. done.
Qed.

Lemma held_by_spec a r : held_by a r = true → le_assistant_id r = Some (la_id a) ∧ le_org_id r = Some (la_org_id a).
Proof. unfold held_by, eqos. by rewrite andb_true_iff, !bool_decide_eq_true. Qed.

Lemma reclaimed_evolves o a token t ttl iso r :
  reclaimable a t r = true → row_evolves o t r (reclaimed_lease a token t ttl iso r).
Proof.
  unfold reclaimable. rewrite andb_true_iff, orb_true_iff. intros [Hb Hf]. constructor; cbn.
  - done.
  - lia.
  - intros _ [x Hx]. destruct Hb as [Hb|Hb]; [by rewrite Hx in Hb|].
    apply held_by_spec in Hb as [-> ->]. done.
  - intros _ Hl%live_not_free. congruence.
  - lia.
Qed.

Lemma update_row (p : RuntimeWorkerLeaseRow → bool) (f : RuntimeWorkerLeaseRow → RuntimeWorkerLeaseRow) l r :
  r ∈ l → (if p r then f r else r) ∈ update_where p f l.
Proof. intros Hr. unfold update_where. apply (list_elem_of_fmap_2 (λ x, if p x then f x else x)), Hr. Qed.

Lemma run_worker_row o t db r :
  table_ok (wd_leases db) → r ∈ wd_leases db →
  ∃ r', r' ∈ wd_leases (run_worker o t db) ∧ row_evolves o t r r'.
Proof.
  intros Hok Hr. destruct o; cbn [run_worker].
  - destruct (claim_effect a candidates max token t ttl iso db) as [->|(st & l' & Hu & -> & _)];
      [exists r; eauto using row_evolves_refl|].
    unfold upsert_lease in Hu. destruct (js_find _ (wd_leases db)) as [r0|] eqn:Hf.
    + destruct (reclaimable a t r0) eqn:Hrec; [|injection Hu as <-; exists r; eauto using row_evolves_refl].
      destruct (fits _ _); [|done]. injection Hu as <-. cbn.
      destruct (split_by_stack _ _ _ (tk_stacks _ Hok) Hf) as (l1 & l2 & Hl & _ & _ & Hup).
      rewrite Hup. rewrite Hl in Hr.
      apply elem_of_app in Hr as [Hr|[->|Hr]%elem_of_cons].
      * exists r. split; [set_solver|apply row_evolves_refl].
      * exists (reclaimed_lease a token t ttl iso r0). split; [set_solver|by apply reclaimed_evolves].
      * exists r. split; [set_solver|apply row_evolves_refl].
    + destruct (fits _ _); [|done]. injection Hu as <-. exists r. split; [cbn; set_solver|apply row_evolves_refl].
  - destruct (renew_leases a token t ttl iso db) as [->| ->]; [exists r; eauto using row_evolves_refl|].
    eexists. split; [apply update_row, Hr|]. case_match; [|apply row_evolves_refl]. by constructor.
  - rewrite release_leases. eexists. split; [apply update_row, Hr|].
    destruct (holds_token a token r) eqn:Hh; [|apply row_evolves_refl].
    constructor; cbn [releases] in *; try done; try congruence; cbn; try lia; by intros [? ?].
  - rewrite sanitize_leases. eexists. split; [apply update_row, Hr|].
    destruct (_ && _) eqn:Hp; [|apply row_evolves_refl]. rewrite !andb_true_iff in Hp. destruct Hp as [[Hs _] Hf].
    constructor; cbn; try done; try congruence; try lia.
    all: first [by intros [? ?] | intros _ Hl%live_not_free; congruence].
Qed.

(** ** Capacity *)

Lemma upsert_live stackId a token t ttl iso l l' :
  table_ok l → upsert_lease stackId a token t ttl iso l = inr l' →
  count (live_lease t) l' ≤ count (live_lease t) l + 1.
Proof.
  intros Hok. unfold upsert_lease. destruct (js_find _ l) as [r|] eqn:Hf.
  - destruct (reclaimable a t r); [|intros [= <-]; lia]. destruct (fits _ _); [|done]. intros [= <-].
    destruct (split_by_stack l stackId r (tk_stacks l Hok) Hf) as (l1 & l2 & -> & _ & _ & ->).
    rewrite !count_app, !count_cons. destruct (live_lease t r), (live_lease t (reclaimed_lease _ _ _ _ _ _)); lia.
  - destruct (fits _ _); [|done]. intros [= <-]. rewrite count_app, count_cons.
    change (count (live_lease t) []) with 0. destruct (live_lease t _); lia.
Qed.

Lemma live_later l t t' : t ≤ t' → count (live_lease t') l ≤ count (live_lease t) l.
Proof.
  intros Ht. apply count_le. intros r _. unfold live_lease. rewrite !andb_true_iff.
  destruct (le_lease_expires_at r); [|tauto]. rewrite !Z.ltb_lt. intros [? ?]. split; [done|lia].
Qed.

Definition within_capacity (cap : Z) (o : WorkerOp) : Prop :=
  match o with WClaim _ _ max _ _ _ => max ≤ cap | _ => True end.

Lemma run_worker_live cap o t db :
  table_ok (wd_leases db) → within_capacity cap o →
  count (live_lease t) (wd_leases db) ≤ cap → count (live_lease t) (wd_leases (run_worker o t db)) ≤ cap.
Proof.
  intros Hok Hcap Hle. destruct o; cbn [run_worker within_capacity] in *.
  - destruct (claim_effect a candidates max token t ttl iso db) as [->|(st & l' & Hu & -> & Hlt & _)]; [done|].
    pose proof (upsert_live _ _ _ _ _ _ _ _ Hok Hu). cbn. lia.
  - destruct (renew_leases a token t ttl iso db) as [->| ->]; [done|]. etrans; [|exact Hle].
    apply count_update. intros r _ Hp _. unfold holds_token in Hp. rewrite !andb_true_iff in Hp.
    destruct Hp as [[_ Hp] He]. unfold live_lease. unfold eqos in Hp. apply bool_decide_eq_true in Hp.
    by rewrite Hp, He.
  - rewrite release_leases. etrans; [|exact Hle]. by apply count_update.
  - rewrite sanitize_leases. etrans; [|exact Hle]. by apply count_update.
Qed.

(** Sequences of calls in order of time, from a table without leases. *)
Inductive worker_trace (cap : Z) (db0 : WorkerDb) (t0 : Z) : WorkerDb → Z → Prop :=
  | wtrace_start : wd_leases db0 = [] → 0 ≤ cap → worker_trace cap db0 t0 db0 t0
  | wtrace_step db t o t' :
      worker_trace cap db0 t0 db t → t ≤ t' → within_capacity cap o →
      worker_trace cap db0 t0 (run_worker o t' db) t'.

Lemma worker_trace_inv cap db0 t0 db t :
  worker_trace cap db0 t0 db t → table_ok (wd_leases db) ∧ count (live_lease t) (wd_leases db) ≤ cap.
Proof.
  induction 1 as [Hl Hc|db t o t' _ [IH1 IH2] Ht Hw].
  - rewrite Hl. split; [repeat constructor|exact Hc].
  - split; [by apply run_worker_ok|]. apply run_worker_live; [done|done|].
    etrans; [by apply live_later|done].
Qed.

(** ** What a claim returns *)

(** Bound rows belong to registered assistants, and tokens are not empty. *)
Definition row_registered (db : WorkerDb) (r : RuntimeWorkerLeaseRow) : Prop :=
  (∀ x y, le_assistant_id r = Some x → le_org_id r = Some y → (x, y) ∈ wd_assistants db) ∧
  le_lease_token r ≠ Some "".

Lemma upsert_rows stackId a token t ttl iso l l' r :
  upsert_lease stackId a token t ttl iso l = inr l' → r ∈ l' →
  r ∈ l ∨ (le_assistant_id r = Some (la_id a) ∧ le_org_id r = Some (la_org_id a) ∧ le_lease_token r = Some token).
Proof.
  unfold upsert_lease. destruct (js_find _ l) as [r0|].
  - destruct (reclaimable a t r0); [|intros [= <-]; by left]. destruct (fits _ _); [|done]. intros [= <-].
    unfold update_where. intros (x & -> & Hx)%list_elem_of_fmap. destruct (eqs _ _); [by right|by left].
  - destruct (fits _ _); [|done]. intros [= <-]. rewrite elem_of_app, list_elem_of_singleton.
    intros [?| ->]; [by left|by right].
Qed.

Lemma update_registered db p f :
  (∀ r, row_registered db r → row_registered db (f r)) →
  Forall (row_registered db) (wd_leases db) → Forall (row_registered db) (update_where p f (wd_leases db)).
Proof.
  intros Hf H. unfold update_where. apply Forall_fmap. eapply Forall_impl; [exact H|]. intros r Hr. cbn.
  destruct (p r); auto.
Qed.

Lemma run_worker_assistants o t db : wd_assistants (run_worker o t db) = wd_assistants db.
Proof.
  destruct o; cbn [run_worker].
  - by destruct (claim_effect a candidates max token t ttl iso db) as [->|(? & ? & _ & -> & _)].
  - unfold renewRuntimeWorkerLease. by repeat case_match.
  - unfold releaseRuntimeWorkerLease. by case_match.
  - unfold markRuntimeWorkerSanitized. by case_match.
Qed.

Lemma run_worker_registered o t db :
  Forall (row_registered db) (wd_leases db) →
  Forall (row_registered (run_worker o t db)) (wd_leases (run_worker o t db)).
Proof.
  intros H. apply (Forall_impl (row_registered db));
    [|intros r [Hr ?]; split; [by rewrite run_worker_assistants|done]].
  destruct o; cbn [run_worker].
  - destruct (claim_effect a candidates max token t ttl iso db) as [->|(st & l' & Hu & -> & _ & Hreg & Htok)]; [done|].
    rewrite Forall_forall in H |- *. intros r Hr. apply (upsert_rows _ _ _ _ _ _ _ _ _ Hu) in Hr as [Hr|(Ha & Ho & Ht)].
    + by apply H.
    + split; [|congruence]. intros x y Hx Hy. replace (x, y) with (la_id a, la_org_id a) by congruence. exact Hreg.
  - destruct (renew_leases a token t ttl iso db) as [->| ->]; [done|]. by apply update_registered.
  - rewrite release_leases. apply update_registered; [|done]. intros r [Hr _]. by split.
  - rewrite sanitize_leases. apply update_registered; [|done]. intros r [Hr _]. by split.
Qed.

Lemma worker_trace_registered cap db0 t0 db t :
  worker_trace cap db0 t0 db t →
  Forall (row_registered db) (wd_leases db) ∧ wd_assistants db = wd_assistants db0.
Proof.
  induction 1 as [Hl _|db t o t' _ [IH1 IH2] _ _]; [rewrite Hl; by split; [constructor|]|].
  split; [by apply run_worker_registered|]. by rewrite run_worker_assistants.
Qed.

(** A row of the table whose lease the claim does not see as live is free. *)
Lemma not_live_free db t e :
  e ∈ wd_leases db → table_ok (wd_leases db) → Forall (row_registered db) (wd_leases db) →
  truthy_opt (le_lease_token e) && (t <? default 0 (le_lease_expires_at e)) = false → free_lease t e = true.
Proof.
  intros He Hok Hrows Hlive. pose proof (tk_checks _ Hok) as Hc. rewrite Forall_forall in Hc, Hrows.
  specialize (Hc e He). apply row_checks_cases in Hc as (_ & Hc & _). destruct (Hrows e He) as [_ Hne].
  unfold free_lease. destruct (le_lease_token e) as [k|]; [|done]. cbn in *.
  destruct (le_lease_expires_at e) as [x|]; [|done]. unfold truthy in Hlive.
  destruct (String.eqb_spec k ""); [congruence|]. cbn in Hlive. by rewrite Z.leb_antisym, Hlive.
Qed.

Section claim_outcome.
Context (db : WorkerDb) (a : RuntimeWorkerLeaseAssistant) (token : string) (now ttl : Z) (iso : string).
Hypothesis Hok : table_ok (wd_leases db).
Hypothesis Hrows : Forall (row_registered db) (wd_leases db).
Hypothesis Hids : NoDup (wd_assistants db).*1.
Hypothesis Hreg : registered db a.
Hypothesis Htoken : ∀ r, r ∈ wd_leases db → le_lease_token r = Some token → held_by a r = true.
Hypothesis Httl : 1 ≤ ttl.

Lemma bound_held r : r ∈ wd_leases db → le_assistant_id r = Some (la_id a) → held_by a r = true.
Proof.
  intros Hr Ha. destruct Hok as [Hc _ _ _]. rewrite Forall_forall in Hc, Hrows.
  specialize (Hc r Hr). apply row_checks_cases in Hc as (Hc & _). rewrite Ha in Hc.
  destruct (le_org_id r) as [o|] eqn:Ho; [|done]. destruct (Hrows r Hr) as [Hin _].
  specialize (Hin _ _ Ha Ho).
  assert (Heq : (la_id a, o) = (la_id a, la_org_id a)).
  { destruct (proj1 (list_elem_of_lookup _ _) Hin) as [i Hi], (proj1 (list_elem_of_lookup _ _) Hreg) as [j Hj].
    assert (i = j); [|congruence]. eapply (NoDup_lookup _ i j (la_id a)); [exact Hids| |];
      rewrite list_lookup_fmap; [by rewrite Hi|by rewrite Hj]. }
  unfold held_by, eqos. rewrite Ha, Ho. injection Heq as ->. by rewrite !bool_decide_true.
Qed.

Lemma claimed_row_fits r' stackId :
  le_runtime_stack_id r' = stackId → le_assistant_id r' = Some (la_id a) → le_lease_token r' = Some token →
  row_checks r' = true →
  (∀ x, x ∈ wd_leases db → held_by a x = true → le_runtime_stack_id x = stackId) →
  fits r' (js_filter (other_stack stackId) (wd_leases db)) = true.
Proof.
  intros Hs Ha Ht Hc Hheld. unfold fits. rewrite Hc. cbn. apply negb_true_iff, not_true_iff_false.
  unfold js_some. rewrite existsb_exists. intros (x & Hx & Hp). unfold js_filter in Hx.
  apply filter_In in Hx as [Hx%list_elem_of_In Hother]. unfold other_stack in Hother.
  apply negb_true_iff, bool_decide_eq_false in Hother.
  rewrite !orb_true_iff in Hp. destruct Hp as [[Hp|Hp]|Hp].
  - apply bool_decide_eq_true in Hp. congruence.
  - rewrite Ht in Hp. destruct (le_lease_token x) as [k|] eqn:Hk; [|done].
    apply bool_decide_eq_true in Hp. subst k. auto.
  - rewrite Ha in Hp. destruct (le_assistant_id x) as [k|] eqn:Hk; [|done].
    apply bool_decide_eq_true in Hp. subst k. apply Hother, Hheld; [done|]. by apply bound_held.
Qed.

Lemma upsert_claims stackId :
  (∀ x, x ∈ wd_leases db → held_by a x = true → le_runtime_stack_id x = stackId) →
  (∀ x, x ∈ wd_leases db → le_runtime_stack_id x = stackId → reclaimable a now x = true) →
  ∃ r' l', upsert_lease stackId a token now ttl iso (wd_leases db) = inr l' ∧ r' ∈ l' ∧
    le_runtime_stack_id r' = stackId ∧ le_assistant_id r' = Some (la_id a) ∧ le_org_id r' = Some (la_org_id a) ∧
    le_lease_token r' = Some token ∧ le_lease_expires_at r' = Some (now + ttl).
Proof.
  intros Hheld Hfree. unfold upsert_lease.
  destruct (js_find _ (wd_leases db)) as [r|] eqn:Hf.
  - destruct (split_by_stack _ _ _ (tk_stacks _ Hok) Hf) as (l1 & l2 & Hl & Hs & _ & Hup).
    assert (Hr : r ∈ wd_leases db) by (rewrite Hl; set_solver). rewrite Hfree by done.
    rewrite claimed_row_fits; [|done..| |done].
    + exists (reclaimed_lease a token now ttl iso r). eexists. split; [done|]. rewrite Hup. split_and!; [set_solver|done..].
    + pose proof (tk_checks _ Hok) as Hc. rewrite Forall_forall in Hc. specialize (Hc r Hr).
      rewrite row_checks_cases in Hc |- *. cbn. destruct Hc as (_ & _ & _ & Hg). split_and!; auto; lia.
  - rewrite claimed_row_fits by done. exists (inserted_lease stackId a token now ttl iso). eexists.
    split; [done|]. split_and!; [set_solver|done..].
Qed.

Lemma claim_stack_acquires stackId k :
  (∀ x, x ∈ wd_leases db → held_by a x = true → le_runtime_stack_id x = stackId) →
  (∀ x, x ∈ wd_leases db → le_runtime_stack_id x = stackId → reclaimable a now x = true) →
  getWorkerStack db stackId = Some k →
  ∃ w db', claim_stack a stackId token now ttl iso db = (inr (mkClaim (Some w) true acquired None), db') ∧
    getActiveRuntimeWorkerLease a token now db' = Some w.
Proof.
  intros Hheld Hfree Hk. destruct (upsert_claims stackId Hheld Hfree) as (r' & l' & Hu & Hin & Hs & Ha & Ho & Ht & He).
  pose proof (upsert_ok _ _ _ _ _ _ _ _ Hok Hu) as [_ Hnd1 Hnd2 _].
  assert (Hh : held_by a r' = true) by (unfold held_by, eqos; rewrite Ha, Ho; by rewrite !bool_decide_true).
  set (db' := set_leases l' db).
  assert (H1 : getLeaseForStack db' stackId = Some r').
  { apply js_find_unique; [done|by apply bool_decide_eq_true_2|]. intros y Hy Hp%bool_decide_eq_true.
    apply (NoDup_fmap_inj le_runtime_stack_id l'); [done..|congruence]. }
  assert (H2 : getLeaseForAssistant db' a = Some r').
  { apply js_find_unique; [done..|]. intros y Hy [Hp _]%held_by_spec.
    by apply (NoDup_omap_inj le_assistant_id l' _ _ (la_id a)). }
  assert (H3 : assignmentFor db' r' = Some (mkWorkerLease k r')).
  { unfold assignmentFor. rewrite Hs. change (getWorkerStack db' stackId) with (getWorkerStack db stackId).
    by rewrite Hk. }
  exists (mkWorkerLease k r'), db'. unfold claim_stack, getActiveRuntimeWorkerLease. rewrite Hu. fold db'.
  rewrite H1, H2, Hh, Ht, He, H3. unfold eqos. rewrite bool_decide_true by done. cbn.
  destruct (now + ttl <=? now) eqn:Hle; [apply Z.leb_le in Hle; lia|]. done.
Qed.

Definition claim_answers (res : RuntimeWorkerLeaseClaim) (db' : WorkerDb) : Prop :=
  (cm_leaseAcquired res = true ↔ is_Some (cm_assignment res)) ∧
  (cm_reason res = acquired ↔ is_Some (cm_assignment res)) ∧
  ∀ w, cm_assignment res = Some w → getActiveRuntimeWorkerLease a token now db' = Some w.

(** Some candidate is up and not bound to anyone. *)
Definition unbound_candidate (c : list string) : Prop :=
  ∃ s, s ∈ c ∧ is_Some (getWorkerStack db s) ∧
    ∀ r, r ∈ wd_leases db → le_runtime_stack_id r = s → le_assistant_id r = None.

Lemma refused_answers reason retry db' : reason ≠ acquired → claim_answers (refused reason retry) db'.
Proof. intros Hr. unfold claim_answers. cbn. split_and!; [by split; [|intros []]|by split; [|intros []]|done]. Qed.

Lemma unbound_reclaimable r : r ∈ wd_leases db → le_assistant_id r = None → reclaimable a now r = true.
Proof.
  intros Hr Hn. pose proof (tk_checks _ Hok) as Hc. rewrite Forall_forall in Hc.
  specialize (Hc r Hr). apply row_checks_cases in Hc as (Hc1 & _ & Hc3 & _). rewrite Hn in Hc1, Hc3.
  unfold reclaimable, free_lease. rewrite Hn, <-Hc1. cbn. by destruct Hc3 as [->|?].
Qed.

Lemma available_stack_found c :
  getLeaseForAssistant db a = None → unbound_candidate c →
  is_Some (available_stack db c (getLeaseForAssistant db a)).
Proof.
  intros -> (s & Hs & [k Hk] & Hun). cbn. destruct (js_find _ c) eqn:Hf; [done|].
  pose proof (js_find_none _ _ Hf s Hs) as Hp. cbn in Hp. rewrite Hk in Hp. cbn in Hp.
  destruct (getLeaseForStack db s) as [r|] eqn:Hr; [|done].
  apply js_find_elem in Hr as [Hr Heq%bool_decide_eq_true]. by rewrite (Hun r) in Hp.
Qed.

(** The stack that [available_stack] picks can be claimed. *)
Lemma available_stack_claimable c s :
  (∀ e, getLeaseForAssistant db a = Some e → free_lease now e = true) →
  available_stack db c (getLeaseForAssistant db a) = Some s →
  (∀ x, x ∈ wd_leases db → held_by a x = true → le_runtime_stack_id x = s) ∧
  (∀ x, x ∈ wd_leases db → le_runtime_stack_id x = s → reclaimable a now x = true).
Proof.
  intros Hfree. destruct (getLeaseForAssistant db a) as [e|] eqn:He; cbn.
  - intros [= <-]. apply js_find_elem in He as [Hin Hh]. split.
    + intros x Hx [Hxa _]%held_by_spec. f_equal. apply held_by_spec in Hh as [Hea _].
      by apply (NoDup_omap_inj le_assistant_id (wd_leases db) _ _ (la_id a)); [apply Hok|..].
    + intros x Hx Heq. assert (x = e) as -> by (apply (NoDup_fmap_inj le_runtime_stack_id (wd_leases db)); [apply Hok|done..]).
      unfold reclaimable. by rewrite Hh, Hfree, orb_true_r.
  - intros [_ Hp]%js_find_elem. apply andb_true_iff in Hp as [_ Hp]. split.
    + intros x Hx Hh. by rewrite (js_find_none _ _ He x Hx) in Hh.
    + intros x Hx Heq. apply unbound_reclaimable; [done|].
      destruct (getLeaseForStack db s) as [r|] eqn:Hr.
      * apply js_find_elem in Hr as [Hr Hrs%bool_decide_eq_true].
        assert (x = r) as -> by (apply (NoDup_fmap_inj le_runtime_stack_id (wd_leases db)); [apply Hok|done|done|congruence]).
        by destruct (le_assistant_id r).
      * pose proof (js_find_none _ _ Hr x Hx) as Hno. unfold eqs in Hno. by rewrite bool_decide_true in Hno.
Qed.

Lemma claim_free_outcome c max :
  (∀ s, s ∈ c → truthy s = true) →
  (∀ e, getLeaseForAssistant db a = Some e → free_lease now e = true ∧ le_runtime_stack_id e ∈ c) →
  ∃ res db', claim_free a c max token now ttl iso db = (inr res, db') ∧ claim_answers res db' ∧
    (getLeaseForAssistant db a = None → count (live_lease now) (wd_leases db) < max → unbound_candidate c →
     cm_reason res = acquired).
Proof.
  intros Hc He. unfold claim_free. destruct (max <=? _) eqn:Hcap.
  { apply Z.leb_le in Hcap. eexists _, _. split; [done|]. split; [by apply refused_answers|lia]. }
  destruct (available_stack db c (getLeaseForAssistant db a)) as [s|] eqn:Hs.
  - assert (Hin : s ∈ c ∧ (getLeaseForAssistant db a = None → is_Some (getWorkerStack db s))).
    { destruct (getLeaseForAssistant db a) as [e|]; cbn in Hs; [injection Hs as <-; split; [by apply He|done]|].
      apply js_find_elem in Hs as [? Hp]. split; [done|]. intros _. apply andb_true_iff in Hp as [Hp _].
      by destruct (getWorkerStack db s). }
    destruct Hin as [Hin Hup]. rewrite (Hc s Hin). cbn [andb].
    destruct (getWorkerStack db s) as [k|] eqn:Hk; cbn [is_null negb].
    + destruct (available_stack_claimable c s) as [H1 H2]; [apply He|done|].
      destruct (claim_stack_acquires s k H1 H2 Hk) as (w & db' & -> & Hact). eexists _, _. split; [done|].
      split; [|done]. unfold claim_answers. cbn. split_and!; [by split|by split|]. by intros w' [= <-].
    + eexists _, _. split; [done|]. split; [by apply refused_answers|]. intros Hn. by destruct (Hup Hn).
  - eexists _, _. split; [done|]. split; [by apply refused_answers|]. intros Hn _ Hun.
    destruct (available_stack_found c Hn Hun) as [? ?]. congruence.
Qed.
End claim_outcome.

(** * Claims *)

(** Leases are exclusive: at any time a stack has one row, an assistant is
    bound to at most one stack, a token belongs to at most one lease, and a
    leased stack is bound to an assistant. *)
Theorem worker_lease_exclusive cap db0 t0 db t r1 r2 :
  worker_trace cap db0 t0 db t → r1 ∈ wd_leases db → r2 ∈ wd_leases db →
  (le_runtime_stack_id r1 = le_runtime_stack_id r2 → r1 = r2) ∧
  (∀ a, le_assistant_id r1 = Some a → le_assistant_id r2 = Some a → r1 = r2) ∧
  (∀ k, le_lease_token r1 = Some k → le_lease_token r2 = Some k → r1 = r2) ∧
  (is_Some (le_lease_token r1) → is_Some (le_assistant_id r1)).
Proof.
  intros [[H1 H2 H3 H4] _]%worker_trace_inv Hr1 Hr2. split_and!.
  - intros Heq; by apply (NoDup_fmap_inj _ _ _ _ H2).
  - intros a; by apply (NoDup_omap_inj _ _ _ _ _ H3).
  - intros k; by apply (NoDup_omap_inj _ _ _ _ _ H4).
  - rewrite Forall_forall in H1. specialize (H1 r1 Hr1). apply row_checks_cases in H1 as (_ & _ & Hc & _).
    intros [k Hk]. rewrite Hk in Hc. destruct (le_assistant_id r1); [done|]. cbn in Hc. destruct Hc; discriminate.
Qed.

(** C12. A stack stays with its assistant until it is sanitized, whatever is
    called; while its lease is live only the holder's release ends it; a stack's
    generation never goes down, and goes up whenever it gets another token. *)
Theorem worker_binding cap db0 t0 db t o t' r :
  worker_trace cap db0 t0 db t → r ∈ wd_leases db →
  ∃ r', r' ∈ wd_leases (run_worker o t' db) ∧ row_evolves o t' r r'.
Proof. intros [Hok _]%worker_trace_inv Hr. by apply run_worker_row. Qed.

(** The pool's capacity is never exceeded: along calls in order of time
    whose claims ask for a capacity of at most [cap], at most [cap] leases are
    live. *)
Theorem worker_capacity cap db0 t0 db t :
  worker_trace cap db0 t0 db t → count (live_lease t) (wd_leases db) ≤ cap.
Proof. intros [_ Hc]%worker_trace_inv. exact Hc. Qed.

(** A claim with valid inputs and a token of its own never breaks a
    constraint of the table: it returns an answer.  Its answer is a lease exactly
    when its reason is "acquired", and then the lease is active at once.  A
    registered assistant without a stack gets one whenever the pool is below
    capacity and some candidate is up and unbound. *)
Theorem worker_claim_outcome cap db0 t0 db t a cands c max token now ttl iso :
  worker_trace cap db0 t0 db t → NoDup (wd_assistants db0).*1 →
  assertClaimInputs cands max token ttl = inr c →
  (∀ r, r ∈ wd_leases db → le_lease_token r = Some token → held_by a r = true) →
  ∃ res db', claimRuntimeWorkerLease a cands max token now ttl iso db = (inr res, db') ∧
    claim_answers a token now res db' ∧
    (registered db a → getLeaseForAssistant db a = None → count (live_lease now) (wd_leases db) < max →
     unbound_candidate db c → cm_reason res = acquired).
Proof.
  intros Htr Hids Hin Htok. pose proof (worker_trace_inv _ _ _ _ _ Htr) as [Hok _].
  destruct (worker_trace_registered _ _ _ _ _ Htr) as [Hrows Heq]. rewrite <-Heq in Hids.
  unfold claimRuntimeWorkerLease. rewrite Hin. apply assertClaimInputs_spec in Hin as (Hne & _ & Httl & Hc).
  destruct (js_some _ (wd_assistants db)) eqn:Hreg; cbn [negb].
  2:{ eexists _, _. split; [done|]. split; [by apply refused_answers|]. intros Hr%registered_spec. congruence. }
  apply registered_spec in Hreg.
  destruct (getLeaseForAssistant db a) as [e|] eqn:He.
  - destruct (_ && _) eqn:Hlive.
    + apply andb_true_iff in Hlive as [_ Hlive]. destruct (eqos (le_lease_token e) (Some token)) eqn:Hk.
      * eexists _, _. split; [done|]. split; [|done]. unfold claim_answers, getActiveRuntimeWorkerLease. cbn.
        rewrite He, Hk, Z.leb_antisym, Hlive. cbn. by destruct (assignmentFor db e); cbn;
          split_and!; try (split; [|intros []]).
      * eexists _, _. split; [done|]. split; [by apply refused_answers|done].
    + destruct (bool_decide (le_runtime_stack_id e ∈ c)) eqn:Hin; cbn [negb].
      2:{ eexists _, _. split; [done|]. split; [by apply refused_answers|done]. }
      apply bool_decide_eq_true in Hin.
      destruct (claim_free_outcome db a token now ttl iso Hok Hrows Hids Hreg Htok Httl c max Hc) as (res & db' & H1 & H2 & H3).
      { intros e' He'. rewrite He in He'. injection He' as <-. split; [|done].
        apply (not_live_free db); [|done..]. by apply js_find_elem in He as [? _]. }
      exists res, db'. rewrite He in H3. by split_and!.
  - destruct (claim_free_outcome db a token now ttl iso Hok Hrows Hids Hreg Htok Httl c max Hc) as (res & db' & H1 & H2 & H3).
    { intros e'. by rewrite He. }
    exists res, db'. rewrite He in H3. split_and!; [done|done|]. auto.
Qed.

(** ** One stack, two assistants *)

Definition demo_stack := mkStack "s1" "active" "pooled_worker" (Some "http://w") None None (Some "svc") "scope".
Definition demo_wdb := mkWorkerDb [("a1", "o1"); ("a2", "o2")] [demo_stack] [].
Definition demo_a1 := mkLeaseAssistant "a1" "o1".
Definition demo_a2 := mkLeaseAssistant "a2" "o2".
Definition demo_claim1 := WClaim demo_a1 ["s1"] 2 "k1" 100 "iso".
Definition demo_leased : WorkerDb := run_worker demo_claim1 10 demo_wdb.

Lemma demo_leased_trace : worker_trace 2 demo_wdb 0 demo_leased 10.
Proof. apply (wtrace_step 2 demo_wdb 0 demo_wdb 0); [by constructor|lia|cbn; lia]. Qed.

Definition demo_lease : RuntimeWorkerLeaseRow := inserted_lease "s1" demo_a1 "k1" 10 100 "iso".

(** An instance. *)
Lemma worker_lease_exclusive_witness :
  wd_leases demo_leased = [demo_lease] ∧ is_Some (le_assistant_id demo_lease).
Proof.
  split; [vm_compute; reflexivity|].
  destruct (worker_lease_exclusive 2 demo_wdb 0 demo_leased 10 demo_lease demo_lease demo_leased_trace)
    as (_ & _ & _ & Hbound).
  - vm_compute. left.
  - vm_compute. left.
  - apply Hbound. eexists. reflexivity.
Defined.

(** Witness of C12: another assistant's claim leaves the stack with the first,
    even after the lease has expired. *)
Lemma worker_binding_witness :
  ∃ r', r' ∈ wd_leases (run_worker (WClaim demo_a2 ["s1"] 2 "k2" 100 "iso") 500 demo_leased) ∧
    le_assistant_id r' = Some "a1".
Proof.
  destruct (worker_binding 2 demo_wdb 0 demo_leased 10 (WClaim demo_a2 ["s1"] 2 "k2" 100 "iso") 500 demo_lease
    demo_leased_trace) as (r' & Hin & Hev).
  - vm_compute. left.
  - exists r'. split; [exact Hin|]. destruct (re_bound _ _ _ _ Hev eq_refl) as [Ha _]; [eexists; reflexivity|exact Ha].
Defined.

(** An instance. *)
Lemma worker_capacity_witness :
  count (live_lease 10) (wd_leases demo_leased) = 1 ∧ count (live_lease 10) (wd_leases demo_leased) ≤ 2.
Proof.
  split; [vm_compute; reflexivity|]. apply (worker_capacity 2 demo_wdb 0 demo_leased 10), demo_leased_trace.
Defined.

(** A pool of two stacks: the first is leased. *)
Definition demo_stack2 := mkStack "s2" "active" "pooled_worker" (Some "http://x") None None (Some "svc") "scope".
Definition demo_wdb2 := mkWorkerDb [("a1", "o1"); ("a2", "o2")] [demo_stack; demo_stack2] [].
Definition demo_leased2 : WorkerDb := run_worker demo_claim1 10 demo_wdb2.

Lemma demo_leased2_trace : worker_trace 2 demo_wdb2 0 demo_leased2 10.
Proof. apply (wtrace_step 2 demo_wdb2 0 demo_wdb2 0); [by constructor|lia|cbn; lia]. Qed.

(** For example: the second assistant gets the second stack. *)
Lemma worker_claim_outcome_witness :
  ∃ res, (claimRuntimeWorkerLease demo_a2 ["s1"; "s2"] 2 "k2" 20 100 "iso" demo_leased2).1 = inr res ∧
    cm_reason res = acquired.
Proof.
  destruct (worker_claim_outcome 2 demo_wdb2 0 demo_leased2 10 demo_a2 ["s1"; "s2"] ["s1"; "s2"] 2 "k2" 20 100 "iso"
    demo_leased2_trace) as (res & db' & Hres & _ & Hacq).
  - vm_compute. apply (bool_decide_unpack _). vm_compute. exact I.
  - vm_compute. reflexivity.
  - assert (Hl : wd_leases demo_leased2 = [demo_lease]) by (vm_compute; reflexivity). rewrite Hl.
    intros r Hr. apply list_elem_of_singleton in Hr as ->. discriminate.
  - exists res. split; [by rewrite Hres|]. apply Hacq.
    + apply registered_spec. vm_compute. reflexivity.
    + vm_compute. reflexivity.
    + vm_compute. reflexivity.
    + exists "s2". split; [right; left|]. split; [eexists; vm_compute; reflexivity|].
      assert (Hl : wd_leases demo_leased2 = [demo_lease]) by (vm_compute; reflexivity). rewrite Hl.
      intros r Hr. apply list_elem_of_singleton in Hr as ->. discriminate.
Defined.
