(* ===== verification/Identifiers.v ===== *)
(** * Identifiers and integers of the control plane

    The checks on opaque identifiers and on integers that the control plane's
    modules share (src/control-plane/src/runtime-worker-coordinator-ownership.ts
    and its neighbours).  A number is safe if it is an integer of at most 53 bits:
    sums of two safe numbers that are safe themselves are exact. *)
From stdpp Require Import pretty.
From S2P Require Import Prelude JsText.

Definition MAX_SAFE_INTEGER : Z := 2 ^ 53 - 1.
Definition isSafeInteger (n : Z) : bool := (- MAX_SAFE_INTEGER <=? n) && (n <=? MAX_SAFE_INTEGER).

(** [/[\u0000-\u001f\u007f]/u] *)
Definition is_control (ch : ascii) : bool :=
  let n := nat_of_ascii ch in ((n <=? 31) || (n =? 127))%nat.

Fixpoint has_control (s : string) : bool :=
  match s with "" => false | String ch s' => is_control ch || has_control s' end.

Definition validOpaqueId (value : string) : bool :=
  (0 <? String.length value)%nat && (String.length value <=? 256)%nat
  && eqs value (js_trim value) && negb (has_control value).

(** ** Decimal integers from the environment *)

Definition digit_value (ch : ascii) : option Z :=
  let n := nat_of_ascii ch in
  if ((48 <=? n) && (n <=? 57))%nat then Some (Z.of_nat n - 48) else None.

(** [[0-9]*] to the end, as a number. *)
Fixpoint digits_value (acc : Z) (s : string) : option Z :=
  match s with
  | "" => Some acc
  | String ch s' =>
      match digit_value ch with
      | Some d => digits_value (10 * acc + d) s'
      | None => None
      end
  end.

(** [/^[1-9][0-9]*$/u] and the number it denotes. *)
Definition positive_decimal (s : string) : option Z :=
  match s with
  | "" => None
  | String ch s' =>
      match digit_value ch with
      | Some d => if d =? 0 then None else digits_value d s'
      | None => None
      end
  end.

Definition strictPositiveIntegerEnv (name : string) (value : option string) : string + Z :=
  match positive_decimal (default "" value) with
  | None => inl (name +:+ " must be a positive integer.")
  | Some parsed =>
      if isSafeInteger parsed then inr parsed else inl (name +:+ " must be a safe integer.")
  end.

Definition optionalPositiveIntegerEnv (name : string) (value : option string) (fallback : Z) : string + Z :=
  match value with
  | None | Some "" => inr fallback
  | Some v => strictPositiveIntegerEnv name (Some v)
  end.

Definition requiredOpaqueEnv (name : string) (value : option string) : string + string :=
  match value with
  | Some v => if truthy v && validOpaqueId v then inr v else inl (name +:+ " must be a non-empty opaque identifier.")
  | None => inl (name +:+ " must be a non-empty opaque identifier.")
  end.

(** ** Printing and parsing are inverse *)

#[local] Arguments pretty_N_go : simpl never.

Lemma digit_char x : (x < 10)%N → digit_value (pretty_N_char x) = Some (Z.of_N x).
Proof.
  intros Hx. assert (x = 0 ∨ x = 1 ∨ x = 2 ∨ x = 3 ∨ x = 4 ∨ x = 5 ∨ x = 6 ∨ x = 7 ∨ x = 8 ∨ x = 9)%N
    as Hc by lia.
  repeat destruct Hc as [->|Hc]; [reflexivity..|]. subst x. reflexivity.
Qed.

Lemma char_digit ch d : digit_value ch = Some d → 0 ≤ d < 10 ∧ pretty_N_char (Z.to_N d) = ch.
Proof.
  unfold digit_value. destruct (_ && _) eqn:Hb; [|done].
  apply andb_true_iff in Hb as [H1%Nat.leb_le H2%Nat.leb_le]. intros [= Heq].
  assert (Hr : 0 ≤ d < 10) by lia. split; [done|].
  assert (Hch : ch = ascii_of_nat (Z.to_nat d + 48)).
  { rewrite <-(ascii_nat_embedding ch) at 1. f_equal. lia. }
  rewrite Hch. clear -Hr.
  assert (d = 0 ∨ d = 1 ∨ d = 2 ∨ d = 3 ∨ d = 4 ∨ d = 5 ∨ d = 6 ∨ d = 7 ∨ d = 8 ∨ d = 9) as Hc by lia.
  repeat destruct Hc as [->|Hc]; [reflexivity..|]. subst d. reflexivity.
Qed.

(** Parsing what was printed. *)
Lemma parse_print x t : (0 < x)%N → positive_decimal (pretty_N_go x t) = digits_value (Z.of_N x) t.
Proof.
  revert t. induction (N.lt_wf_0 x) as [x _ IH]. intros t Hx. rewrite pretty_N_go_step by done.
  destruct (decide (x < 10)%N) as [Hlt|Hge].
  - rewrite N.div_small, N.mod_small, pretty_N_go_0 by done. cbn. rewrite digit_char by done.
    destruct (Z.of_N x =? 0) eqn:H0; [apply Z.eqb_eq in H0; lia|done].
  - assert (Hd : (0 < x `div` 10)%N) by (apply N.div_str_pos; lia).
    rewrite IH; [|apply N.div_lt; lia|done]. cbn.
    assert (Hm : (x `mod` 10 < 10)%N) by (apply N.mod_lt; lia). rewrite digit_char by done.
    f_equal. pose proof (N.div_mod x 10 ltac:(lia)). lia.
Qed.

(** Printing what was parsed. *)
Lemma print_parse a s n t :
  digits_value a s = Some n → 0 < a → 0 < n ∧ pretty_N_go (Z.to_N n) t = pretty_N_go (Z.to_N a) (s +:+ t).
Proof.
  revert a. induction s as [|ch s IH]; intros a; cbn [digits_value String.append]; [by intros [= ->]|].
  destruct (digit_value ch) as [d|] eqn:Hd; [|done]. apply char_digit in Hd as [Hr Hch]. intros Hv Ha.
  destruct (IH _ Hv ltac:(lia)) as [Hn ->]. split; [done|]. rewrite pretty_N_go_step by lia.
  replace (Z.to_N (10 * a + d) `div` 10)%N with (Z.to_N a);
    [replace (Z.to_N (10 * a + d) `mod` 10)%N with (Z.to_N d)|].
  - by rewrite Hch.
  - rewrite Z2N.inj_add, Z2N.inj_mul by lia. change (Z.to_N 10) with 10%N.
    rewrite N.mul_comm, N.add_comm, N.Div0.mod_add. symmetry. apply N.mod_small. lia.
  - rewrite Z2N.inj_add, Z2N.inj_mul by lia. change (Z.to_N 10) with 10%N.
    rewrite N.mul_comm, N.div_add_l by lia. rewrite N.div_small by lia. lia.
Qed.

Lemma positive_decimal_pretty s n : positive_decimal s = Some n ↔ 0 < n ∧ s = pretty (Z.to_N n).
Proof.
  assert (Hp : ∀ x, (0 < x)%N → pretty x = pretty_N_go x "").
  { intros x Hx. unfold pretty, pretty_N. by rewrite decide_False by lia. }
  split.
  - destruct s as [|ch s]; cbn; [done|]. destruct (digit_value ch) as [d|] eqn:Hd; [|done].
    apply char_digit in Hd as [Hr Hch]. destruct (d =? 0) eqn:H0; [done|]. apply Z.eqb_neq in H0.
    intros Hv. destruct (print_parse _ _ _ "" Hv ltac:(lia)) as [Hn Hgo]. split; [done|].
    rewrite Hp, Hgo by lia. rewrite pretty_N_go_step, N.div_small, N.mod_small, pretty_N_go_0, Hch by lia.
    by rewrite append_nil_r.
  - intros [Hn ->]. rewrite Hp, parse_print by lia. cbn. f_equal. lia.
Qed.

Lemma isSafeInteger_spec n : isSafeInteger n = true ↔ - MAX_SAFE_INTEGER ≤ n ≤ MAX_SAFE_INTEGER.
Proof. unfold isSafeInteger. rewrite andb_true_iff, !Z.leb_le. done. Qed.

(** The check of a timestamp. *)
Lemma bad_timestamp n : negb (isSafeInteger n) || (n <? 0) = false ↔ 0 ≤ n ≤ MAX_SAFE_INTEGER.
Proof.
  rewrite orb_false_iff, negb_false_iff, Z.ltb_ge, isSafeInteger_spec. unfold MAX_SAFE_INTEGER. lia.
Qed.

(** A required integer of the environment is accepted exactly when it is the
    decimal form of a positive safe integer, and then it is that integer: no
    signs, spaces, leading zeros, exponents or fractions. *)
Theorem positive_integer_roundtrip name s n :
  strictPositiveIntegerEnv name (Some s) = inr n ↔
  1 ≤ n ≤ MAX_SAFE_INTEGER ∧ s = pretty (Z.to_N n).
Proof.
  unfold strictPositiveIntegerEnv. change (default "" (Some s)) with s. split.
  - destruct (positive_decimal s) as [m|] eqn:Hp; [|done]. apply positive_decimal_pretty in Hp as [Hm ->].
    destruct (isSafeInteger m) eqn:Hb; [|done]. apply isSafeInteger_spec in Hb. intros [= <-]. split; [lia|done].
  - intros [Hn ->]. rewrite (proj2 (positive_decimal_pretty (pretty (Z.to_N n)) n)) by (split; [lia|done]).
    by rewrite (proj2 (isSafeInteger_spec n)) by (unfold MAX_SAFE_INTEGER in *; lia).
Qed.
