(* ===== verification/BrowserBroker.v ===== *)
(** * The browser broker service

    src/assistant/src/concurrent-runtime/browser-broker/service.ts: which pages the
    browser of a user may be sent to, and the calls on the store that connect a
    client, dispatch an action and record its result.

    The URL parser ([new URL]) and SHA-256 are parameters.  The random bytes of a
    resume token are an argument.  [now] is [Date.now]. *)
From stdpp Require Import pretty.
From S2P Require Import Prelude JsText Identifiers ScopeKeys RuntimeTypes RuntimeStore.

Definition DEFAULT_CONNECTION_LEASE_MS : Z := 45000.
Definition DEFAULT_ACTION_DEADLINE_MS : Z := 30000.

(** ** [JSON.stringify] with the keys in order *)

(** Insertion into a list sorted by key. *)
Fixpoint insert_key (kv : string * string) (l : list (string * string)) : list (string * string) :=
  match l with
  | [] => [kv]
  | kv' :: l' => if String.leb kv.1 kv'.1 then kv :: l else kv' :: insert_key kv l'
  end.

Definition sort_keys (l : list (string * string)) : list (string * string) := foldr insert_key [] l.

Definition join_comma (l : list string) : string := js_join "," l.

Fixpoint stableJson (value : json) : string :=
  match value with
  | JArr l => "[" +:+ join_comma ((fix items l := match l with [] => [] | x :: l' => stableJson x :: items l' end) l) +:+ "]"
  | JObj l =>
      "{" +:+ join_comma ((λ kv, json_quote kv.1 +:+ ":" +:+ kv.2) <$>
        sort_keys ((fix props l := match l with [] => [] | (k, x) :: l' => (k, stableJson x) :: props l' end) l)) +:+ "}"
  | JNull => "null"
  | JBool b => if b then "true" else "false"
  | JNum n => pretty n
  | JStr s => json_quote s
  end.

(** An operation as the object the schema parses. *)
Definition operation_json (op : BrowserBrokerOperation) : json :=
  match op with
  | op_status => JObj [("kind", JStr "status")]
  | op_open_session url => JObj (("kind", JStr "open_session") :: match url with Some u => [("initialUrl", JStr u)] | None => [] end)
  | op_navigate url => JObj [("kind", JStr "navigate"); ("url", JStr url)]
  | op_snapshot b => JObj [("kind", JStr "snapshot"); ("includeScreenshot", JBool b)]
  | op_screenshot f q =>
      JObj ([("kind", JStr "screenshot"); ("format", JStr f)] ++ match q with Some n => [("quality", JNum n)] | None => [] end)
  | op_click r s => JObj [("elementRef", JStr r); ("snapshotId", JStr s); ("kind", JStr "click")]
  | op_type r s t =>
      JObj [("elementRef", JStr r); ("snapshotId", JStr s); ("kind", JStr "type"); ("text", JStr t); ("replace", JBool true)]
  | op_press_key k m => JObj [("kind", JStr "press_key"); ("key", JStr k); ("modifiers", JArr (JStr <$> m))]
  | op_scroll d a => JObj [("kind", JStr "scroll"); ("direction", JStr d); ("amount", JNum a)]
  | op_select_option r s v => JObj [("elementRef", JStr r); ("snapshotId", JStr s); ("kind", JStr "select_option"); ("value", JStr v)]
  | op_wait d => JObj [("kind", JStr "wait"); ("durationMs", JNum d)]
  | op_close_session => JObj [("kind", JStr "close_session")]
  end.

(** ** Which hosts are private *)

(** [Number(s)] where it is an integer, for a string without blanks, as a label of
    a host is: nothing at all is 0, then the literals with a radix, then decimal
    digits with a sign and an exponent.  The value is exact: the rounding of
    literals of more than fifteen digits to a double is left out. *)
Fixpoint radix_value (radix acc : Z) (s : string) : option Z :=
  match s with
  | "" => Some acc
  | String c s' => d ← hex_digit c; if d <? radix then radix_value radix (radix * acc + d) s' else None
  end.

Definition nonempty_radix (radix : Z) (s : string) : option Z :=
  if truthy s then radix_value radix 0 s else None.

Definition signed_value (s : string) : option Z :=
  match s with
  | String "-" s' => Z.opp <$> nonempty_radix 10 s'
  | String "+" s' => nonempty_radix 10 s'
  | _ => nonempty_radix 10 s
  end.

(** The integer [m * 10 ^ e], if it is one. *)
Definition scaled (m e : Z) : option Z :=
  if 0 <=? e then Some (m * 10 ^ e)
  else if m mod 10 ^ (- e) =? 0 then Some (m / 10 ^ (- e)) else None.

Definition js_integer (s : string) : option Z :=
  match toLowerCase s with
  | "" => Some 0
  | String "0" (String "x" s') => nonempty_radix 16 s'
  | String "0" (String "o" s') => nonempty_radix 8 s'
  | String "0" (String "b" s') => nonempty_radix 2 s'
  | s' =>
      match js_split "e" s' with
      | [m] => signed_value m
      | [m; e] => m ← signed_value m; e ← signed_value e; scaled m e
      | _ => None
      end
  end.

Definition private_octets (a b : Z) : bool :=
  (a =? 0) || (a =? 10) || (a =? 127)
  || (a =? 100) && (64 <=? b) && (b <=? 127)
  || (a =? 169) && (b =? 254)
  || (a =? 172) && (16 <=? b) && (b <=? 31)
  || (a =? 192) && ((b =? 0) || (b =? 168))
  || (a =? 198) && ((b =? 18) || (b =? 19))
  || (224 <=? a).

Definition isPrivateIpv4 (hostname : string) : bool :=
  match mapM js_integer (js_split "." hostname) with
  | Some [a; b; _; _] => private_octets a b
  | _ => false
  end.

(** What [new URL] gives. *)
Record BrowserUrl := mkBrowserUrl {
  bu_protocol : string;
  bu_username : string;
  bu_password : string;
  bu_hostname : string;
  bu_pathname : string;
  bu_origin : string;
}.

Definition js_startsWith (prefix s : string) : bool := String.prefix prefix s.
Fixpoint drop_chars (n : nat) (s : string) : string :=
  match n, s with
  | O, _ => s
  | S n', String _ s' => drop_chars n' s'
  | S _, "" => ""
  end.
Definition js_endsWith (suffix s : string) : bool :=
  (String.length suffix <=? String.length s)%nat && eqs (drop_chars (String.length s - String.length suffix) s) suffix.

(** [s.slice(1, -1)] *)
Definition strip_ends (s : string) : string :=
  match s with "" => "" | String _ s' => String.substring 0 (String.length s' - 1) s' end.

(** [replace(/\.$/, "")] *)
Definition strip_dot (s : string) : string :=
  if js_endsWith "." s then String.substring 0 (String.length s - 1) s else s.

Definition normalized_hostname (hostname : string) : string :=
  let rawHostname := strip_dot (toLowerCase hostname) in
  if js_startsWith "[" rawHostname && js_endsWith "]" rawHostname then strip_ends rawHostname else rawHostname.

Definition blockedHostname (hostname : string) : bool :=
  let mappedIpv4 := if js_startsWith "::ffff:" hostname then drop_chars 7 hostname else "" in
  eqs hostname "localhost" || js_endsWith ".localhost" hostname || js_endsWith ".local" hostname
  || js_endsWith ".internal" hostname || isPrivateIpv4 hostname
  || truthy mappedIpv4 && isPrivateIpv4 mappedIpv4
  || eqs hostname "::" || eqs hostname "::1" || js_startsWith "fe80:" hostname
  || js_startsWith "fc" hostname || js_startsWith "fd" hostname.

Definition navigation_invalid : StoreError := mkStoreError "Browser navigation target is invalid." browser_access_denied.
Definition navigation_blocked : StoreError :=
  mkStoreError "Browser navigation target is blocked by policy." browser_access_denied.
Definition origin_not_allowed : StoreError :=
  mkStoreError "Browser navigation origin is not in the deployment allowlist." browser_access_denied.

(** ** The service *)

Section broker.
Context {env : Env} (parse_browser_url : string → option BrowserUrl) (sha256 : string → string).

Definition hashBrowserConnectionToken (value : string) : string := sha256 value.

(** The exception, if any. *)
Definition assertBrowserNavigationAllowed (rawUrl : string) : option StoreError :=
  match parse_browser_url rawUrl with
  | None => Some navigation_invalid
  | Some url =>
      let hostname := normalized_hostname (bu_hostname url) in
      if negb (eqs (bu_protocol url) "https:") || truthy (bu_username url) || truthy (bu_password url)
         || negb (truthy hostname) || blockedHostname hostname
      then Some navigation_blocked else None
  end.

Definition validateUrl (allowedOrigins : list string) (rawUrl : string) : option StoreError :=
  match assertBrowserNavigationAllowed rawUrl with
  | Some e => Some e
  | None =>
      match parse_browser_url rawUrl with
      | Some url => if bool_decide (bu_origin url ∈ allowedOrigins) then None else Some origin_not_allowed
      | None => Some navigation_invalid
      end
  end.

Definition validateOperation (operation : BrowserBrokerOperation) (allowedOrigins : list string) : option StoreError :=
  match operation with
  | op_navigate url => validateUrl allowedOrigins url
  | op_open_session (Some initialUrl) => if truthy initialUrl then validateUrl allowedOrigins initialUrl else None
  | _ => None
  end.

Definition replayClassForOperation (operation : BrowserBrokerOperation) : BrowserBrokerReplayClass :=
  match operation with
  | op_status | op_snapshot _ | op_screenshot _ _ | op_wait _ => recomputable
  | _ => non_replayable
  end.

Definition error_message (e : StoreError) : string :=
  match e with mkStoreError message _ => message | TypeError => "TypeError" end.

Record BrowserBrokerService := mkBroker {
  bk_connectionLeaseMs : Z;
  bk_actionDeadlineMs : Z;
  bk_allowedOrigins : list string;
}.

(** One allowed origin of the constructor. *)
Definition canonical_origin (origin : string) : string + string :=
  match assertBrowserNavigationAllowed origin with
  | Some e => inl (error_message e)
  | None =>
      match parse_browser_url origin with
      | Some parsed =>
          if negb (eqs (bu_origin parsed) origin) || negb (eqs (bu_pathname parsed) "/")
          then inl "Concurrent browser allowed origins must be canonical HTTPS origins."
          else inr (bu_origin parsed)
      | None => inl "Invalid URL"
      end
  end.

Fixpoint canonical_origins (l : list string) : string + list string :=
  match l with
  | [] => inr []
  | origin :: l' =>
      match canonical_origin origin with
      | inl e => inl e
      | inr o => match canonical_origins l' with inl e => inl e | inr os => inr (o :: os) end
      end
  end.

Definition new_broker (connectionLeaseMs actionDeadlineMs : option Z) (allowedOrigins : option (list string))
    : string + BrowserBrokerService :=
  match canonical_origins (default [] allowedOrigins) with
  | inl e => inl e
  | inr os => inr (mkBroker (default DEFAULT_CONNECTION_LEASE_MS connectionLeaseMs)
                     (default DEFAULT_ACTION_DEADLINE_MS actionDeadlineMs) os)
  end.

Record BrowserBrokerConnectRequest := mkConnectRequest {
  cr_clientInstallationId : string;
  cr_capabilities : list BrowserBrokerCapability;
  cr_resume : option (string * Z * string);   (* connection, generation, token *)
}.

Record BrowserBrokerConnectResponse := mkConnectResponse {
  cs_connectionId : string;
  cs_connectionGeneration : Z;
  cs_resumeToken : string;
  cs_resumed : bool;
  cs_cursor : Z;
  cs_leaseExpiresAt : Z;
}.

Definition broker_connect (b : BrowserBrokerService) (c : TenantExecutionContext) (request : BrowserBrokerConnectRequest)
    (resumeToken : string) : RT BrowserBrokerConnectResponse :=
  t ← now;
  newConnectionId ← randomUUID;
  '(connection, resumed) ← connectBrowserClient c
    (mkConnectInput (cr_clientInstallationId request) (cr_capabilities request) (t + bk_connectionLeaseMs b)
       newConnectionId (hashBrowserConnectionToken resumeToken)
       ((λ '(id, generation, token), mkResume id generation (hashBrowserConnectionToken token)) <$> cr_resume request));
  mret (mkConnectResponse (view_connectionId connection) (view_connectionGeneration connection) resumeToken resumed
          (view_cursor connection) (view_leaseExpiresAt connection)).

Definition broker_heartbeat (b : BrowserBrokerService) (c : TenantExecutionContext)
    (clientInstallationId connectionId : string) (connectionGeneration : Z) (connectionToken : string)
    : RT BrowserConnectionView :=
  t ← now;
  connection ← heartbeatBrowserConnection c
    (mkConnectionProof clientInstallationId connectionId connectionGeneration (hashBrowserConnectionToken connectionToken))
    (t + bk_connectionLeaseMs b);
  match connection with
  | Some connection => mret connection
  | None => throw (mkStoreError "Browser connection is stale." stale_connection)
  end.

Definition broker_dispatch (b : BrowserBrokerService) (c : TenantExecutionContext)
    (conversationId runId toolUseId : string) (operation : BrowserBrokerOperation) (leaseOwner : option string)
    (providerContent : option json) (executionConfig : option (list (string * json)))
    : RT (BrowserActionRecord * BrowserOutboxRecord) :=
  match validateOperation operation (bk_allowedOrigins b) with
  | Some e => throw e
  | None =>
      actionId ← randomUUID;
      t ← now;
      enqueueBrowserAction c
        (mkEnqueueInput conversationId runId toolUseId actionId operation
           (hashBrowserConnectionToken (stableJson (operation_json operation))) (replayClassForOperation operation)
           None (t + bk_actionDeadlineMs b) leaseOwner providerContent executionConfig)
  end.

(** The acknowledgement, and the run to resume through [onRunRunnable]. *)
Definition broker_recordResult (c : TenantExecutionContext) (result : BrowserBrokerResultRequest)
    (connectionToken : string) : RT (BrowserActionAck * option string) :=
  ack ← recordBrowserResult c result (hashBrowserConnectionToken connectionToken);
  mret (ack, if ack_accepted ack && truthy_opt (ack_runId ack) then ack_runId ack else None).
End broker.

(** ** The private ranges as blocks of addresses *)

(** A block of IPv4 addresses: the first address and the length of the prefix. *)
Definition in_block (address : Z) (block : Z * Z) : bool :=
  (block.1 <=? address) && (address <? block.1 + 2 ^ (32 - block.2)).

Definition ipv4_address (a b c d : Z) : Z := ((a * 256 + b) * 256 + c) * 256 + d.

(** Written by hand from the registry of special addresses. *)
Definition private_blocks : list (Z * Z) :=
  [(ipv4_address 0 0 0 0, 8); (ipv4_address 10 0 0 0, 8); (ipv4_address 100 64 0 0, 10);
   (ipv4_address 127 0 0 0, 8); (ipv4_address 169 254 0 0, 16); (ipv4_address 172 16 0 0, 12);
   (ipv4_address 192 0 0 0, 16); (ipv4_address 192 168 0 0, 16); (ipv4_address 198 18 0 0, 15);
   (ipv4_address 224 0 0 0, 3)].

Definition private_address (address : Z) : bool := existsb (in_block address) private_blocks.

(** The dotted form of an address. *)
Definition dotted (a b c d : Z) : string := js_join "." [pretty a; pretty b; pretty c; pretty d].

Definition octet (n : Z) : Prop := 0 ≤ n < 256.

(** A fact about every octet, by evaluation. *)
Lemma octet_facts (P : Z → bool) : forallb P (seqZ 0 256) = true → ∀ n, octet n → P n = true.
Proof. intros H n Hn. rewrite forallb_forall in H. apply H, list_elem_of_In, elem_of_seqZ. unfold octet in Hn. lia. Qed.

Lemma private_octets_blocks a b c d :
  octet a → octet b → octet c → octet d → private_octets a b = private_address (ipv4_address a b c d).
Proof.
  unfold octet. intros Ha Hb Hc Hd. unfold private_address, private_octets, private_blocks, in_block, ipv4_address.
  cbn [existsb fst snd]. apply Bool.eq_iff_eq_true.
  repeat rewrite ?orb_true_iff, ?andb_true_iff, ?Z.leb_le, ?Z.ltb_lt, ?Z.eqb_eq.
  cbn. lia.
Qed.

(** ** Addresses as host names *)

(** Digits and dots. *)
Definition ipv4_char (c : ascii) : bool := bool_decide (c ∈ String.list_ascii_of_string "0123456789.").
Fixpoint all_chars (P : ascii → bool) (s : string) : bool :=
  match s with "" => true | String c s' => P c && all_chars P s' end.

Lemma all_chars_app P s t : all_chars P (s +:+ t) = all_chars P s && all_chars P t.
Proof.
  induction s as [|c s IH]; [done|]. change (String c s +:+ t) with (String c (s +:+ t)). cbn. by rewrite IH, andb_assoc.
Qed.

Lemma all_chars_drop P n s : all_chars P s = true → all_chars P (drop_chars n s) = true.
Proof.
  revert s. induction n as [|n IH]; intros [|c s]; [done..|]. cbn. intros [_ H]%andb_true_iff. by apply IH.
Qed.

Lemma endsWith_foreign P suffix s :
  all_chars P s = true → all_chars P suffix = false → js_endsWith suffix s = false.
Proof.
  intros Hs Hsuf. unfold js_endsWith. destruct (_ <=? _)%nat; [|done]. cbn. unfold eqs. apply bool_decide_false.
  intros E. assert (H := all_chars_drop P (String.length s - String.length suffix) s Hs). congruence.
Qed.

Lemma startsWith_foreign P prefix s :
  all_chars P s = true → all_chars P prefix = false → js_startsWith prefix s = false.
Proof.
  revert s. unfold js_startsWith. induction prefix as [|c p IH]; intros [|d s]; cbn; [done..|].
  intros [Hd Hs]%andb_true_iff. destruct (ascii_dec c d) as [->|]; [|done]. rewrite Hd. cbn. by apply IH.
Qed.

Lemma drop_chars_app s t : drop_chars (String.length s) (s +:+ t) = t.
Proof. induction s as [|c s IH]; [done|exact IH]. Qed.

Lemma drop_chars_app_more s t n : drop_chars (String.length s + n) (s +:+ t) = drop_chars n t.
Proof. induction s as [|c s IH]; [done|exact IH]. Qed.

Lemma endsWith_app suffix s t :
  (String.length suffix ≤ String.length t)%nat → js_endsWith suffix (s +:+ t) = js_endsWith suffix t.
Proof.
  intros Hl. unfold js_endsWith. rewrite length_append.
  replace (String.length s + String.length t - String.length suffix)%nat
    with (String.length s + (String.length t - String.length suffix))%nat by lia.
  rewrite drop_chars_app_more. f_equal. apply Bool.eq_iff_eq_true. rewrite !Nat.leb_le. lia.
Qed.

(** What evaluation says of the decimal form of an octet. *)
Definition octet_text_ok (n : Z) : bool :=
  all_chars ipv4_char (pretty n) && negb (has_char "." (pretty n)) && truthy (pretty n)
  && negb (js_endsWith "." (pretty n)) && bool_decide (js_integer (pretty n) = Some n).

Lemma octet_text n : octet n → octet_text_ok n = true.
Proof. apply octet_facts. vm_compute. reflexivity. Qed.

Lemma octet_text_facts n :
  octet n →
  all_chars ipv4_char (pretty n) = true ∧ has_char "." (pretty n) = false ∧ pretty n ≠ ""
  ∧ js_endsWith "." (pretty n) = false ∧ js_integer (pretty n) = Some n.
Proof.
  intros H%octet_text. unfold octet_text_ok in H.
  apply andb_true_iff in H as [H H5]. apply andb_true_iff in H as [H H4].
  apply andb_true_iff in H as [H H3]. apply andb_true_iff in H as [H1 H2].
  apply negb_true_iff in H2, H4. apply truthy_true in H3. by apply bool_decide_eq_true in H5.
Qed.

Lemma dotted_app a b c d :
  dotted a b c d = (pretty a +:+ "." +:+ pretty b +:+ "." +:+ pretty c +:+ ".") +:+ pretty d.
Proof. unfold dotted. by rewrite !string_app_assoc. Qed.

Section dotted.
Context (a b c d : Z) (Ha : octet a) (Hb : octet b) (Hc : octet c) (Hd : octet d).

Lemma dotted_chars : all_chars ipv4_char (dotted a b c d) = true.
Proof.
  rewrite dotted_app, !all_chars_app.
  by rewrite (proj1 (octet_text_facts a Ha)), (proj1 (octet_text_facts b Hb)), (proj1 (octet_text_facts c Hc)),
    (proj1 (octet_text_facts d Hd)).
Qed.

Lemma dotted_lower : toLowerCase (dotted a b c d) = dotted a b c d.
Proof.
  generalize dotted_chars. generalize (dotted a b c d). unfold toLowerCase.
  induction s as [|ch s IH]; [done|]. cbn. intros [Hch Hs]%andb_true_iff. rewrite IH by done. f_equal.
  apply bool_decide_eq_true in Hch. set_unfold in Hch. by destruct_or! Hch; subst.
Qed.

Lemma dotted_nonempty : dotted a b c d ≠ "".
Proof.
  rewrite dotted_app. destruct (octet_text_facts a Ha) as (_&_&Hne&_). by destruct (pretty a).
Qed.

Lemma dotted_no_dot : js_endsWith "." (dotted a b c d) = false.
Proof.
  rewrite dotted_app. destruct (octet_text_facts d Hd) as (_&_&Hne&He&_).
  rewrite endsWith_app; [done|]. destruct (pretty d); [done|]. cbn. lia.
Qed.

Lemma normalized_dotted : normalized_hostname (dotted a b c d) = dotted a b c d.
Proof.
  unfold normalized_hostname, strip_dot. rewrite dotted_lower, dotted_no_dot.
  by rewrite (startsWith_foreign ipv4_char "[") by (done || apply dotted_chars).
Qed.

Lemma isPrivateIpv4_dotted : isPrivateIpv4 (dotted a b c d) = private_octets a b.
Proof.
  unfold isPrivateIpv4, dotted.
  destruct (octet_text_facts a Ha) as (_&Da&_&_&Na), (octet_text_facts b Hb) as (_&Db&_&_&Nb),
    (octet_text_facts c Hc) as (_&Dc&_&_&Nc), (octet_text_facts d Hd) as (_&Dd&_&_&Nd).
  rewrite js_split_join by (done || by repeat constructor). cbn [mapM]. by rewrite Na, Nb, Nc, Nd.
Qed.

Lemma blocked_dotted : blockedHostname (dotted a b c d) = private_address (ipv4_address a b c d).
Proof.
  rewrite <-private_octets_blocks by done. rewrite <-isPrivateIpv4_dotted. unfold blockedHostname.
  assert (Hne : ∀ s, all_chars ipv4_char s = false → eqs (dotted a b c d) s = false).
  { intros s Hs. unfold eqs. apply bool_decide_false. intros <-. rewrite dotted_chars in Hs. discriminate. }
  rewrite !(startsWith_foreign ipv4_char) by (done || apply dotted_chars).
  rewrite !(endsWith_foreign ipv4_char) by (done || apply dotted_chars).
  rewrite !Hne by done. cbn. by rewrite !orb_false_r.
Qed.
End dotted.
