(* ===== verification/BrokerProps.v ===== *)
(** * Properties of the browser broker service

    Where a browser may be sent, and that the connection token handed out last is
    the one that counts. *)
From stdpp Require Import pretty.
From S2P Require Import Prelude JsText Identifiers ScopeKeys RuntimeTypes RuntimeStore TurnQueue RuntimeRefines Demo BrowserProps BrowserBroker.

(** The page an operation sends the browser to. *)
Definition navigation_target (op : BrowserBrokerOperation) : option string :=
  match op with
  | op_navigate url => Some url
  | op_open_session (Some url) => if truthy url then Some url else None
  | _ => None
  end.

(** What a deployment promises about a page its browsers open. *)
Definition safe_page (origins : list string) (url : BrowserUrl) : Prop :=
  bu_protocol url = "https:" ∧ bu_username url = "" ∧ bu_password url = ""
  ∧ blockedHostname (normalized_hostname (bu_hostname url)) = false ∧ bu_origin url ∈ origins.

Section broker_props.
Context {env : Env} (parse_browser_url : string → option BrowserUrl) (sha256 : string → string).

Abbreviation allowed := (assertBrowserNavigationAllowed parse_browser_url).

Lemma truthy_false s : truthy s = false ↔ s = "".
Proof. unfold truthy. by destruct (String.eqb_spec s ""). Qed.

Lemma assert_allowed_inv raw :
  (∃ m, allowed raw = Some (mkStoreError m browser_access_denied)) ∨
  allowed raw = None ∧ ∃ url, parse_browser_url raw = Some url ∧
    bu_protocol url = "https:" ∧ bu_username url = "" ∧ bu_password url = ""
    ∧ blockedHostname (normalized_hostname (bu_hostname url)) = false.
Proof.
  unfold assertBrowserNavigationAllowed. destruct (parse_browser_url raw) as [url|]; [|left; by eexists].
  case_match eqn:Hg; [left; by eexists|]. right. split; [done|]. exists url.
  repeat (apply orb_false_iff in Hg as [Hg ?]). apply negb_false_iff, bool_decide_eq_true in Hg.
  rewrite !truthy_false in *. by split_and!.
Qed.

Lemma validateUrl_inv origins raw :
  (∃ m, validateUrl parse_browser_url origins raw = Some (mkStoreError m browser_access_denied)) ∨
  validateUrl parse_browser_url origins raw = None ∧
  ∃ url, parse_browser_url raw = Some url ∧ safe_page origins url.
Proof.
  unfold validateUrl. destruct (assert_allowed_inv raw) as [[m ->]|(-> & url & Hu & H)]; [left; by eexists|].
  rewrite Hu. case_bool_decide; [|left; by eexists]. right. split; [done|]. exists url. unfold safe_page. naive_solver.
Qed.

Lemma validateOperation_target origins op raw :
  navigation_target op = Some raw → validateOperation parse_browser_url op origins = validateUrl parse_browser_url origins raw.
Proof. destruct op as [|[u|]|u| | | | | | | | |]; cbn; try done; [destruct (truthy u); [|done]|]; by intros [= ->]. Qed.

(** The origins a broker works with are those it was configured with. *)
Lemma canonical_origins_eq l os : canonical_origins parse_browser_url l = inr os → os = l.
Proof.
  revert os. induction l as [|o l IH]; intros os; cbn; [congruence|].
  unfold canonical_origin. destruct (allowed o); [done|]. destruct (parse_browser_url o) as [url|]; [|done].
  destruct (_ || _) eqn:Hg; [done|]. apply orb_false_iff in Hg as [Hg _].
  apply negb_false_iff, bool_decide_eq_true in Hg.
  destruct (canonical_origins _ l) as [|os']; [done|]. intros [= <-]. by rewrite Hg, (IH os').
Qed.

Lemma new_broker_origins lease deadline origins b :
  new_broker parse_browser_url lease deadline origins = inr b → bk_allowedOrigins b = default [] origins.
Proof.
  unfold new_broker. destruct (canonical_origins _ _) as [|os] eqn:Ho; [done|]. intros [= <-].
  by apply canonical_origins_eq in Ho.
Qed.

(** ** Connecting *)

(** What a connect call leaves behind. *)
Definition connected (c : TenantExecutionContext) (input : ConnectBrowserClientInput) (view : BrowserConnectionView)
    (s : Store) : Prop :=
  ∃ x, currentBrowserConnection c (cn_clientInstallationId input) s = Some x
    ∧ view = cloneBrowserConnection x ∧ conn_state x = conn_active
    ∧ conn_resumeTokenHash x = cn_newResumeTokenHash input ∧ conn_leaseExpiresAt x = cn_leaseExpiresAt input.

Lemma connection_key_truthy c id : truthy (browserConnectionKey c id) = true.
Proof. done. Qed.

Lemma connect_fresh_connected c input w :
  ∃ view w', connect_fresh c input w = (inr (view, false), w') ∧ connected c input view (w_st w').
Proof.
  unfold connect_fresh, alter_connection. mrun.
  set (key := browserClientKey c (cn_clientInstallationId input)).
  destruct (st_currentBrowserConnections (w_st w) !! key) as [ck|] eqn:Hck;
    [destruct (currentBrowserConnection c _ (w_st w)) as [cur|]|]; cbn.
  all: do 2 eexists; split; [reflexivity|]; unfold connected, currentBrowserConnection; cbn; fold key.
  all: rewrite !lookup_insert, decide_True, connection_key_truthy by done.
  all: rewrite lookup_insert, decide_True by done; eexists; by split_and!.
Qed.

Lemma can_resume_inv ck k input r n s x :
  can_resume ck k input r n s x = true → conn_state x = conn_active ∧ st_currentBrowserConnections s !! ck = Some k.
Proof.
  unfold can_resume. intros H. repeat (apply andb_true_iff in H as [H ?]).
  split; by eapply bool_decide_eq_true.
Qed.

Lemma connect_connected c input w view resumed w' :
  connectBrowserClient c input w = (inr (view, resumed), w') → connected c input view (w_st w').
Proof.
  unfold connectBrowserClient. mrun. destruct (assertContext_cases c w) as [->|[? ->]]; [|discriminate].
  assert (Hfresh : ∀ w0, connect_fresh c input w0 = (inr (view, resumed), w') → connected c input view (w_st w')).
  { intros w0. destruct (connect_fresh_connected c input w0) as (v & w1 & -> & H). by intros [= <- _ <-]. }
  destruct (cn_resume input) as [r|]; [|by apply Hfresh].
  destruct (st_browserConnections (w_st w) !! _) as [x|] eqn:Hx; [|by apply Hfresh]. cbn.
  destruct (can_resume _ _ _ _ _ _ _) eqn:Hr; [|by apply Hfresh]. cbn. intros [= <- _ <-].
  apply can_resume_inv in Hr as [Hst Hcur]. unfold connected, currentBrowserConnection. cbn.
  rewrite Hcur, connection_key_truthy, lookup_alter, decide_True, Hx by done. cbn. eexists. by split_and!.
Qed.

(** A client shows what the response of its connect call said, before the lease ran out. *)
Definition presents (response : BrowserBrokerConnectResponse) (nowMs : Z) (id : string) (generation : Z) (token : string) : Prop :=
  id = cs_connectionId response ∧ generation = cs_connectionGeneration response
  ∧ sha256 token = sha256 (cs_resumeToken response) ∧ nowMs < cs_leaseExpiresAt response.

Lemma connection_proved_iff p n x :
  connection_proved p n x = true ↔
  cp_connectionId p = conn_connectionId x ∧ cp_connectionGeneration p = conn_connectionGeneration x
  ∧ cp_connectionTokenHash p = conn_resumeTokenHash x ∧ conn_state x = conn_active ∧ n < conn_leaseExpiresAt x.
Proof.
  unfold connection_proved, eqs.
  rewrite !andb_true_iff, !bool_decide_eq_true, Z.eqb_eq, Z.ltb_lt. naive_solver.
Qed.

(** ** Claims *)

(** The browser of a user is sent only to allowed pages: a dispatched
    operation that names a page is refused as access denied without any effect, or
    the page is an HTTPS page without credentials, on a host that is not blocked,
    of one of the origins the deployment was configured with. *)
Theorem dispatch_navigation_safe lease deadline origins b c conversationId runId toolUseId op owner content config w raw :
  new_broker parse_browser_url lease deadline origins = inr b →
  navigation_target op = Some raw →
  (∃ m, broker_dispatch parse_browser_url sha256 b c conversationId runId toolUseId op owner content config w
        = (inl (mkStoreError m browser_access_denied), w)) ∨
  (∃ url, parse_browser_url raw = Some url ∧ safe_page (default [] origins) url).
Proof.
  intros Hb Hop. unfold broker_dispatch. rewrite (validateOperation_target _ _ raw Hop).
  rewrite (new_broker_origins _ _ _ _ Hb).
  destruct (validateUrl_inv (default [] origins) raw) as [[m ->]|[_ H]]; [left; by exists m|by right].
Qed.

(** After a connect call, resumed or not, the client that presents the
    connection, generation and token of the response while the lease lasts gets its
    lease extended; with anything else, such as the token it connected with
    before, it is refused as stale and the store does not change. *)
Theorem broker_token_current b c request token w response w1 id generation token' :
  broker_connect sha256 b c request token w = (inr response, w1) →
  let heartbeat := broker_heartbeat sha256 b c (cr_clientInstallationId request) id generation token' w1 in
  (presents response (date_now (S (w_clock w1))) id generation token' →
   ∃ view, heartbeat.1 = inr view ∧ view_connectionId view = id
     ∧ view_leaseExpiresAt view = date_now (w_clock w1) + bk_connectionLeaseMs b) ∧
  (¬ presents response (date_now (S (w_clock w1))) id generation token' →
   heartbeat.1 = inl (mkStoreError "Browser connection is stale." stale_connection) ∧ w_st heartbeat.2 = w_st w1).
Proof.
  unfold broker_connect. mrun.
  destruct (connectBrowserClient _ _ _) as [[e|[view resumed]] w'] eqn:Hc; [discriminate|].
  intros [= <- <-]. apply connect_connected in Hc as (x & Hx & -> & Hst & Hh & Hl). cbn in *.
  unfold broker_heartbeat, heartbeatBrowserConnection. mrun. rewrite Hx. cbn.
  destruct (connection_proved _ _ _) eqn:Hp; unfold presents; cbn; unfold hashBrowserConnectionToken in *.
  - apply connection_proved_iff in Hp as (?&?&?&?&?). cbn in *.
    split; [|intros []; by split_and!; try congruence]. intros _. eexists. by split_and!.
  - assert (Hn := Hp). apply not_true_iff_false in Hn. rewrite connection_proved_iff in Hn. cbn in Hn.
    split; [|done]. intros (?&?&?&?). destruct Hn. by split_and!; try congruence.
Qed.

(** Hosts that are IPv4 addresses, which the URL parser puts into dotted
    form, are blocked exactly when the address lies in one of the private or
    reserved blocks. *)
Theorem ipv4_navigation raw url a b c d :
  octet a → octet b → octet c → octet d →
  parse_browser_url raw = Some url → bu_hostname url = dotted a b c d →
  bu_protocol url = "https:" → bu_username url = "" → bu_password url = "" →
  assertBrowserNavigationAllowed parse_browser_url raw = if private_address (ipv4_address a b c d) then Some navigation_blocked else None.
Proof.
  intros Ha Hb Hc Hd Hu Hh Hp Hn Hw. unfold assertBrowserNavigationAllowed.
  rewrite Hu, Hh, Hp, Hn, Hw, normalized_dotted, blocked_dotted by done.
  assert (Ht := proj2 (truthy_true _) (dotted_nonempty a b c d Ha)). by rewrite Ht.
Qed.

(** The loopback address in its IPv4-mapped IPv6 form is let through: the URL
    parser writes [::ffff:127.0.0.1] with hexadecimal groups, where the
    test for a mapped address expects the dotted form. *)
Theorem mapped_ipv4_passes raw url :
  parse_browser_url raw = Some url → bu_hostname url = "[::ffff:7f00:1]" →
  bu_protocol url = "https:" → bu_username url = "" → bu_password url = "" →
  assertBrowserNavigationAllowed parse_browser_url raw = None.
Proof.
  intros Hu Hh Hp Hn Hw. unfold assertBrowserNavigationAllowed. by rewrite Hu, Hh, Hp, Hn, Hw.
Qed.
End broker_props.

(** ** Witnesses *)

(** A parser that knows three pages. *)
Definition demo_parse (raw : string) : option BrowserUrl :=
  if eqs raw "https://shop.example" then Some (mkBrowserUrl "https:" "" "" "shop.example" "/" "https://shop.example")
  else if eqs raw "https://shop.example/a" then Some (mkBrowserUrl "https:" "" "" "shop.example" "/a" "https://shop.example")
  else if eqs raw "https://10.0.0.8/" then Some (mkBrowserUrl "https:" "" "" "10.0.0.8" "/" "https://10.0.0.8")
  else None.

Definition demo_broker : BrowserBrokerService := mkBroker 45000 30000 ["https://shop.example"].

(** For example: the private address is refused. *)
Lemma dispatch_navigation_safe_witness :
  new_broker demo_parse None None (Some ["https://shop.example"]) = inr demo_broker ∧
  navigation_target (op_navigate "https://10.0.0.8/") = Some "https://10.0.0.8/" ∧
  ∃ m, (broker_dispatch demo_parse (λ s, s) demo_broker demo_ctx "c" "r" "t" (op_navigate "https://10.0.0.8/") None None None demo_browser).1
       = inl (mkStoreError m browser_access_denied).
Proof.
  assert (Hb : new_broker demo_parse None None (Some ["https://shop.example"]) = inr demo_broker) by reflexivity.
  split; [exact Hb|]. split; [reflexivity|].
  destruct (dispatch_navigation_safe demo_parse (λ s, s) None None (Some ["https://shop.example"]) demo_broker demo_ctx
    "c" "r" "t" (op_navigate "https://10.0.0.8/") None None None demo_browser "https://10.0.0.8/" Hb eq_refl)
    as [[m Hm]|(url & Hu & _ & _ & _ & Hblocked & _)].
  - exists m. exact (f_equal fst Hm).
  - injection Hu as <-. discriminate Hblocked.
Defined.

(** For example: the same address. *)
Lemma ipv4_navigation_witness :
  private_address (ipv4_address 10 0 0 8) = true ∧
  assertBrowserNavigationAllowed demo_parse "https://10.0.0.8/" = Some navigation_blocked.
Proof.
  split; [reflexivity|].
  assert (Ho : octet 10 ∧ octet 0 ∧ octet 8) by (unfold octet; lia).
  exact (ipv4_navigation demo_parse "https://10.0.0.8/" _ 10 0 0 8 (proj1 Ho) (proj1 (proj2 Ho)) (proj1 (proj2 Ho))
    (proj2 (proj2 Ho)) eq_refl eq_refl eq_refl eq_refl eq_refl).
Defined.

Definition demo_request : BrowserBrokerConnectRequest := mkConnectRequest "client" [] None.
Definition demo_response : BrowserBrokerConnectResponse :=
  match (broker_connect (λ s, s) demo_broker demo_ctx demo_request "secret" demo_browser).1 with
  | inr r => r | inl _ => mkConnectResponse "" 0 "" false 0 0
  end.
Definition demo_broker_world : World Store := (broker_connect (λ s, s) demo_broker demo_ctx demo_request "secret" demo_browser).2.

(** For example: the new token is taken, an old one is not. *)
Lemma broker_token_current_witness :
  broker_connect (λ s, s) demo_broker demo_ctx demo_request "secret" demo_browser = (inr demo_response, demo_broker_world) ∧
  (∃ view, (broker_heartbeat (λ s, s) demo_broker demo_ctx "client" (cs_connectionId demo_response)
              (cs_connectionGeneration demo_response) "secret" demo_broker_world).1 = inr view) ∧
  (broker_heartbeat (λ s, s) demo_broker demo_ctx "client" (cs_connectionId demo_response)
     (cs_connectionGeneration demo_response) "token" demo_broker_world).1
    = inl (mkStoreError "Browser connection is stale." stale_connection).
Proof.
  assert (Hc : broker_connect (λ s, s) demo_broker demo_ctx demo_request "secret" demo_browser
               = (inr demo_response, demo_broker_world)) by (vm_compute; reflexivity).
  split; [exact Hc|]. split.
  - destruct (broker_token_current (λ s, s) demo_broker demo_ctx demo_request "secret" demo_browser demo_response demo_broker_world
      (cs_connectionId demo_response) (cs_connectionGeneration demo_response) "secret" Hc) as [Hok _].
    destruct Hok as (view & Hv & _); [|exists view; exact Hv].
    vm_compute. split_and!; reflexivity.
  - destruct (broker_token_current (λ s, s) demo_broker demo_ctx demo_request "secret" demo_browser demo_response demo_broker_world
      (cs_connectionId demo_response) (cs_connectionGeneration demo_response) "token" Hc) as [_ Hno].
    apply Hno. intros (_ & _ & H & _). vm_compute in H. discriminate H.
Defined.
