(* ===== verification/RuntimeLeases.v ===== *)
(** * Who holds the lease of a run

    Only a claim gives a lease, to the owner it names: every other call of the
    store keeps the runs an owner holds, or makes them fewer.  The contexts stored
    with runs are complete.  Used by the properties of the runtime service. *)
From S2P Require Import Prelude ScopeKeys RuntimeTypes RuntimeStore RuntimeRefines RuntimeLedger RuntimeProps.

(** The run is processing under the owner's lease. *)
Definition holds (owner : string) (r : ConcurrentRun) : Prop :=
  run_status r = processing ∧ run_leaseOwner r = Some owner.

Definition leased_to (owner : string) (K : string) (s : Store) : Prop :=
  ∃ r, jget K (st_runs s) = Some r ∧ holds owner r.

(** The owner has no lease it did not have before. *)
Definition lease_le (owner : string) (w w' : World Store) : Prop :=
  (∀ K, leased_to owner K (w_st w') → leased_to owner K (w_st w)) ∧ (w_uuid w ≤ w_uuid w')%nat.

#[global] Instance lease_le_preorder owner : PreOrder (lease_le owner).
Proof. split; [by intros w|]. intros x y z [H1 U1] [H2 U2]. split; [auto|lia]. Qed.

Create HintDb leases.

Section leases.
Context {env : Env} (owner : string).

Lemma lease_same w w' : same core w w' → lease_le owner w w'.
Proof.
  intros (Hc & Hu & _). injection Hc as Hr _. split; [|done]. unfold leased_to. by rewrite Hr.
Qed.

Lemma lease_keeps {A} (m : RT A) : keeps core m → respects (lease_le owner) m.
Proof. intros Hm w. apply lease_same, Hm. Qed.

Lemma lease_keeps_base {A} (m : RT A) : keeps base m → respects (lease_le owner) m.
Proof. intros Hm. by apply lease_keeps, keeps_base_core. Qed.

(** Assignments to a run that give the owner no lease. *)
Definition no_lease_to (f : ConcurrentRun → ConcurrentRun) : Prop := ∀ r, holds owner (f r) → holds owner r.

Lemma lease_alter k f : no_lease_to f → respects (lease_le owner) (alter_run k f).
Proof.
  intros Hf w. split; [|done]. intros K (r & Hr & Hh). cbn in Hr. rewrite jget_jalter in Hr.
  case_decide; subst; [|by exists r]. destruct (jget K (st_runs (w_st w))) as [r0|] eqn:Hk; [|done].
  injection Hr as <-. exists r0. auto.
Qed.

Lemma no_lease_park u : no_lease_to (λ r, set_run_updatedAt u (clear_lease (set_run_status waiting_for_browser r))).
Proof. by intros r [? ?]. Qed.
Lemma no_lease_renew u e : no_lease_to (λ r, set_run_updatedAt u (set_run_leaseExpiresAt (Some e) r)).
Proof. by intros r [? ?]. Qed.
Lemma no_lease_complete m u : no_lease_to (complete_update m u).
Proof. by intros r [? ?]. Qed.
Lemma no_lease_fail x m u : no_lease_to (fail_update x m u).
Proof. by intros r [? ?]. Qed.
Lemma no_lease_cancel u : no_lease_to (cancel_update u).
Proof. by intros r [? ?]. Qed.
Lemma no_lease_resume : no_lease_to resume_run.
Proof. intros r. unfold resume_run. case_match; [by intros [? ?]|done]. Qed.
Lemma no_lease_claim o e u r : o ≠ owner → no_lease_to (λ _, claim_update o e u r).
Proof. intros Hne r0 [_ Ho]. cbn in Ho. congruence. Qed.
#[local] Hint Resolve no_lease_park no_lease_renew no_lease_complete no_lease_fail no_lease_cancel no_lease_resume
  no_lease_claim : leases.

Ltac lease_step :=
  match goal with
  | |- respects _ (if ?b then _ else _) => destruct b
  | |- respects _ (match ?x with _ => _ end) => destruct x
  | |- respects _ (mret _) => apply respects_ret, _
  | |- respects _ (throw _) => apply respects_throw, _
  | |- respects _ (mbind _ _) => apply respects_bind; [apply _| |intros ?]
  | |- respects _ (alter_run _ _) => apply lease_alter; solve [auto with leases]
  | |- respects _ _ => apply lease_keeps_base; solve [auto with keeps]
  | |- respects _ _ => apply lease_keeps; solve [auto with keeps | apply keeps_modify; intros ?; reflexivity]
  | |- respects _ _ => solve [auto with leases]
  end.
Ltac solve_lease := repeat lease_step.

#[local] Hint Resolve keeps_assertContext keeps_assertConversationOwner keeps_scopedRun
  keeps_requireLeasedRun keeps_requireBrowserAction keeps_assertActionConnection
  keeps_assertBrowserConnectionToken keeps_listRunSteps keeps_claimed_result
  keeps_result_replay keeps_enqueue_existing keeps_live_records : keeps.
#[local] Hint Resolve base_redact base_push_step base_apply_output base_persist_action base_connect base_heartbeat
  base_setGrant base_listBrowserEvents base_receipt core_appendEvent base_alter_action : keeps.

Lemma lease_enqueue c i : respects (lease_le owner) (enqueueBrowserAction c i).
Proof. unfold enqueueBrowserAction, enqueue_new, enqueue_commit, park_run. solve_lease. Qed.
Lemma lease_result c r h : respects (lease_le owner) (recordBrowserResult c r h).
Proof. unfold recordBrowserResult. solve_lease. Qed.
Lemma lease_renew c r o e : respects (lease_le owner) (renewRunLease c r o e).
Proof. unfold renewRunLease. solve_lease. Qed.
Lemma lease_complete c r i : respects (lease_le owner) (completeRun c r i).
Proof. unfold completeRun. solve_lease. Qed.
Lemma lease_fail c r i : respects (lease_le owner) (failRun c r i).
Proof. unfold failRun. solve_lease. Qed.
Lemma lease_cancel c r : respects (lease_le owner) (cancelRun c r).
Proof. unfold cancelRun. solve_lease. Qed.
Lemma lease_cancel_each c v l : respects (lease_le owner) (cancel_each c v l).
Proof. induction l as [|[k r] l IH]; cbn; solve_lease. Qed.
#[local] Hint Resolve lease_cancel_each : leases.
Lemma lease_cancelConversation c v : respects (lease_le owner) (cancelConversationRuns c v).
Proof. unfold cancelConversationRuns. solve_lease. Qed.
Lemma lease_claim c r o e : o ≠ owner → respects (lease_le owner) (claimRun c r o e).
Proof. intros Hne. unfold claimRun. solve_lease. Qed.

Lemma lease_accept c i : respects (lease_le owner) (acceptMessage c i).
Proof.
  intros w. destruct (accept_effect c i w) as [Hs|(v & n & run & Hn & _ & Hq & _ & _ & Hc)]; [by apply lease_same|].
  injection Hc as Hr _. split; [|lia]. intros K (r & HK & Hst & Ho). rewrite Hr, jget_jset in HK.
  case_decide; [|by exists r]. injection HK as <-. congruence.
Qed.

(** Every call but the owner's own claims. *)
Lemma exec_lease o w :
  (∀ c r e, o ≠ OpClaim c r owner e) → lease_le owner w (exec o w).
Proof.
  intros Hne. destruct (is_query o) eqn:Hq; [by apply lease_same, query_same|].
  destruct o; try discriminate Hq; cbn [exec].
  all: lazymatch goal with |- lease_le _ _ (?m _).2 => enough (Hm : respects (lease_le owner) m) by apply Hm end.
  all: auto using lease_enqueue, lease_result, lease_renew, lease_complete, lease_fail, lease_cancel,
    lease_cancelConversation, lease_accept.
  all: try (apply lease_claim; intros ->; by eapply Hne).
  all: clear Hne Hq; solve_lease.
Qed.
End leases.

(** ** Complete contexts *)

(** The check of [assertContext]. *)
Definition complete_context (c : TenantExecutionContext) : Prop := ∀ w, assertContext c w = (inr tt, w).

Definition contexts_complete (s : Store) : Prop :=
  ∀ K c, st_runContexts s !! K = Some c → complete_context c.

Section contexts.
Context {env : Env}.

Lemma run_context_complete c v k w : assertContext c w = (inr tt, w) → complete_context (run_context c v k).
Proof. unfold complete_context, assertContext. cbn. by case_match. Qed.

Lemma accept_complete c i w : contexts_complete (w_st w) → contexts_complete (w_st (acceptMessage c i w).2).
Proof.
  intros Hc. pose proof (acceptMessage_cases c i w) as Hcase.
  assert (Hctx : assertContext c w = (inr tt, w) ∨ ∃ e, acceptMessage c i w = (inl e, w)).
  { unfold acceptMessage. mrun. destruct (assertContext_cases c w) as [->|[e ->]]; eauto. }
  destruct (acceptMessage c i w) as [res w']. cbn.
  assert (Hsame : ∀ w1, same base w w1 → st_runContexts (w_st w1) = st_runContexts (w_st w)).
  { intros w1 (Hb & _). unfold base, ledger in Hb. by injection Hb. }
  destruct Hcase as [[Hs _]|(v & m & run & ev & w0 & -> & Hs & _ & Hnew)].
  - unfold contexts_complete. by rewrite (Hsame _ Hs).
  - destruct Hctx as [Hctx|[e He]]; [|discriminate He].
    intros K c0. rewrite (nt_contexts _ _ _ _ _ _ _ _ Hnew), lookup_insert, (Hsame _ Hs).
    case_decide; [|apply Hc]. intros [= <-]. by eapply run_context_complete.
Qed.

Lemma exec_complete_contexts o w :
  NoDup (jkeys (st_runs (w_st w))) → contexts_complete (w_st w) → contexts_complete (w_st (exec o w)).
Proof.
  intros Hnd Hc. destruct (accepts o) eqn:Ha.
  - destruct o; try discriminate Ha. by apply accept_complete.
  - destruct (exec_calm o w Ha Hnd) as (_ & _ & _ & Hctx & _). unfold contexts_complete. by rewrite Hctx.
Qed.
End contexts.
