(* ===== verification/RuntimeService.v ===== *)
(** * The concurrent runtime service

    [ConcurrentRuntimeService] of src/assistant/src/concurrent-runtime/service.ts:
    it accepts messages, schedules their runs, claims each run under a lease that
    a timer renews, lets the executor produce the turn, and completes, fails or
    parks it.

    An [async] function is a [Co]: it runs to its next [await], where it leaves
    the rest of itself as a [proc]; other functions run in between.  A call of the
    store takes effect at once and its answer is looked at one step later.  The
    executor, the clients, the timers and the other processes that use the store
    are the events of the system at the end of the file; every interleaving of
    them is an execution.

    The scheduler is used through what FairScheduler.v proves of it (a task that
    was enqueued is started once), the conversation lock through the queue
    PromiseLock.v proves it to be.  Log lines are left out. *)
From S2P Require Import Prelude ScopeKeys RuntimeTypes RuntimeStore RuntimeRefines BrowserBroker.

(** ** Data *)

(** A provider configuration; the fields besides the key are not looked at. *)
Record ProviderRequestConfig := mkProviderConfig { pc_key : string; pc_rest : list (string * json) }.

(** The second argument of [submitMessage]. *)
Inductive ProviderArgument :=
  | no_provider
  | provider_value (config : ProviderRequestConfig)
  | provider_resolver.

(** The promise of a resolver: pending, settled with its [then] handler run, and
    with its [finally] handler run. *)
Inductive Resolution :=
  | resolution_pending
  | resolution_settled (r : string + ProviderRequestConfig)
  | resolution_final (r : string + ProviderRequestConfig).

(** What an executor returns. *)
Inductive ConcurrentTurnExecution :=
  | turn_text (content : string)
  | turn_complete (content : string)
  | turn_browser_action (toolUseId : string) (operation : BrowserBrokerOperation) (providerContent : json)
      (executionConfig : list (string * json)).

(** What an executor is called with, besides the context, the signal and the callback. *)
Record TurnInput := mkTurnInput {
  ti_messages : list ConcurrentMessage;
  ti_steps : list ConcurrentRunStep;
  ti_providerConfig : option nat;   (* the object *)
  ti_onboardingContext : option ConcurrentOnboardingContext;
  ti_browserEnabled : bool;
}.

(** The constants an invocation of [processRun] closes over. *)
Record Closure := mkClosure {
  cx_context : TenantExecutionContext;
  cx_runId : string;
  cx_leaseOwner : string;
  cx_conversationId : string;
  cx_requestId : string;
  cx_assistantMessageId : string;
}.

(** ... and the variables it shares with its timer and callback. *)
Record Invocation := mkInvocation {
  inv_cx : Closure;
  inv_activityVersion : Z;
  inv_renewFailed : bool;
  inv_parkedForBrowser : bool;
  inv_terminal : bool;
  inv_receivedTextDelta : bool;
  inv_aborted : bool;   (* the abort controller *)
  inv_input : option TurnInput;   (* what the executor was called with *)
  inv_execution : option (string + ConcurrentTurnExecution);   (* how the executor ended *)
}.

Definition set_inv_activityVersion (v : Z) (i : Invocation) : Invocation :=
  mkInvocation (inv_cx i) v (inv_renewFailed i) (inv_parkedForBrowser i) (inv_terminal i) (inv_receivedTextDelta i) (inv_aborted i) (inv_input i) (inv_execution i).
Definition set_inv_renewFailed (v : bool) (i : Invocation) : Invocation :=
  mkInvocation (inv_cx i) (inv_activityVersion i) v (inv_parkedForBrowser i) (inv_terminal i) (inv_receivedTextDelta i) (inv_aborted i) (inv_input i) (inv_execution i).
Definition set_inv_parkedForBrowser (v : bool) (i : Invocation) : Invocation :=
  mkInvocation (inv_cx i) (inv_activityVersion i) (inv_renewFailed i) v (inv_terminal i) (inv_receivedTextDelta i) (inv_aborted i) (inv_input i) (inv_execution i).
Definition set_inv_terminal (v : bool) (i : Invocation) : Invocation :=
  mkInvocation (inv_cx i) (inv_activityVersion i) (inv_renewFailed i) (inv_parkedForBrowser i) v (inv_receivedTextDelta i) (inv_aborted i) (inv_input i) (inv_execution i).
Definition set_inv_receivedTextDelta (v : bool) (i : Invocation) : Invocation :=
  mkInvocation (inv_cx i) (inv_activityVersion i) (inv_renewFailed i) (inv_parkedForBrowser i) (inv_terminal i) v (inv_aborted i) (inv_input i) (inv_execution i).
Definition set_inv_aborted (v : bool) (i : Invocation) : Invocation :=
  mkInvocation (inv_cx i) (inv_activityVersion i) (inv_renewFailed i) (inv_parkedForBrowser i) (inv_terminal i) (inv_receivedTextDelta i) v (inv_input i) (inv_execution i).
Definition set_inv_input (v : option TurnInput) (i : Invocation) : Invocation :=
  mkInvocation (inv_cx i) (inv_activityVersion i) (inv_renewFailed i) (inv_parkedForBrowser i) (inv_terminal i) (inv_receivedTextDelta i) (inv_aborted i) v (inv_execution i).
Definition set_inv_execution (v : option (string + ConcurrentTurnExecution)) (i : Invocation) : Invocation :=
  mkInvocation (inv_cx i) (inv_activityVersion i) (inv_renewFailed i) (inv_parkedForBrowser i) (inv_terminal i) (inv_receivedTextDelta i) (inv_aborted i) (inv_input i) v.

(** The state of the service. *)
Record Svc := mkSvc {
  sv_store : World Store;   (* the store, with the clock and UUID readings *)
  sv_activeAbortControllers : gmap string nat;   (* run key to invocation *)
  sv_providerConfigs : gmap string nat;   (* run key to configuration object *)
  sv_configObjects : list ProviderRequestConfig;   (* the configuration objects *)
  sv_providerConfigResolutions : gmap string nat;   (* run key to promise *)
  sv_promises : list (string * Resolution);   (* those promises, with their run key *)
  sv_scheduledRuns : gset string;
  sv_pending : list (TenantExecutionContext * string);   (* tasks given to the scheduler and not started *)
  sv_line : list (nat * string);   (* callers of withConversationLock, oldest first *)
  sv_nextCaller : nat;
  sv_invocations : list Invocation;   (* one per claimed run, in order *)
  sv_timers : gset nat;   (* invocations whose renewal interval is set *)
}.

Definition set_store (v : World Store) (s : Svc) : Svc :=
  mkSvc v (sv_activeAbortControllers s) (sv_providerConfigs s) (sv_configObjects s) (sv_providerConfigResolutions s) (sv_promises s) (sv_scheduledRuns s) (sv_pending s) (sv_line s) (sv_nextCaller s) (sv_invocations s) (sv_timers s).
Definition set_activeAbortControllers (v : gmap string nat) (s : Svc) : Svc :=
  mkSvc (sv_store s) v (sv_providerConfigs s) (sv_configObjects s) (sv_providerConfigResolutions s) (sv_promises s) (sv_scheduledRuns s) (sv_pending s) (sv_line s) (sv_nextCaller s) (sv_invocations s) (sv_timers s).
Definition set_providerConfigs (v : gmap string nat) (s : Svc) : Svc :=
  mkSvc (sv_store s) (sv_activeAbortControllers s) v (sv_configObjects s) (sv_providerConfigResolutions s) (sv_promises s) (sv_scheduledRuns s) (sv_pending s) (sv_line s) (sv_nextCaller s) (sv_invocations s) (sv_timers s).
Definition set_configObjects (v : list ProviderRequestConfig) (s : Svc) : Svc :=
  mkSvc (sv_store s) (sv_activeAbortControllers s) (sv_providerConfigs s) v (sv_providerConfigResolutions s) (sv_promises s) (sv_scheduledRuns s) (sv_pending s) (sv_line s) (sv_nextCaller s) (sv_invocations s) (sv_timers s).
Definition set_providerConfigResolutions (v : gmap string nat) (s : Svc) : Svc :=
  mkSvc (sv_store s) (sv_activeAbortControllers s) (sv_providerConfigs s) (sv_configObjects s) v (sv_promises s) (sv_scheduledRuns s) (sv_pending s) (sv_line s) (sv_nextCaller s) (sv_invocations s) (sv_timers s).
Definition set_promises (v : list (string * Resolution)) (s : Svc) : Svc :=
  mkSvc (sv_store s) (sv_activeAbortControllers s) (sv_providerConfigs s) (sv_configObjects s) (sv_providerConfigResolutions s) v (sv_scheduledRuns s) (sv_pending s) (sv_line s) (sv_nextCaller s) (sv_invocations s) (sv_timers s).
Definition set_scheduledRuns (v : gset string) (s : Svc) : Svc :=
  mkSvc (sv_store s) (sv_activeAbortControllers s) (sv_providerConfigs s) (sv_configObjects s) (sv_providerConfigResolutions s) (sv_promises s) v (sv_pending s) (sv_line s) (sv_nextCaller s) (sv_invocations s) (sv_timers s).
Definition set_pending (v : list (TenantExecutionContext * string)) (s : Svc) : Svc :=
  mkSvc (sv_store s) (sv_activeAbortControllers s) (sv_providerConfigs s) (sv_configObjects s) (sv_providerConfigResolutions s) (sv_promises s) (sv_scheduledRuns s) v (sv_line s) (sv_nextCaller s) (sv_invocations s) (sv_timers s).
Definition set_line (v : list (nat * string)) (s : Svc) : Svc :=
  mkSvc (sv_store s) (sv_activeAbortControllers s) (sv_providerConfigs s) (sv_configObjects s) (sv_providerConfigResolutions s) (sv_promises s) (sv_scheduledRuns s) (sv_pending s) v (sv_nextCaller s) (sv_invocations s) (sv_timers s).
Definition set_nextCaller (v : nat) (s : Svc) : Svc :=
  mkSvc (sv_store s) (sv_activeAbortControllers s) (sv_providerConfigs s) (sv_configObjects s) (sv_providerConfigResolutions s) (sv_promises s) (sv_scheduledRuns s) (sv_pending s) (sv_line s) v (sv_invocations s) (sv_timers s).
Definition set_invocations (v : list Invocation) (s : Svc) : Svc :=
  mkSvc (sv_store s) (sv_activeAbortControllers s) (sv_providerConfigs s) (sv_configObjects s) (sv_providerConfigResolutions s) (sv_promises s) (sv_scheduledRuns s) (sv_pending s) (sv_line s) (sv_nextCaller s) v (sv_timers s).
Definition set_timers (v : gset nat) (s : Svc) : Svc :=
  mkSvc (sv_store s) (sv_activeAbortControllers s) (sv_providerConfigs s) (sv_configObjects s) (sv_providerConfigResolutions s) (sv_promises s) (sv_scheduledRuns s) (sv_pending s) (sv_line s) (sv_nextCaller s) (sv_invocations s) v.

(** ** Functions that await *)

#[warnings="-register-all"]
Inductive proc :=
  | Done
  | Step (f : Svc → option (Svc * proc)).   (* [None] while it has to wait *)

Definition Seg : Type := Svc → Svc * proc.
Definition Co (A : Type) : Type := (string + A → Seg) → Seg.

#[global] Instance Co_ret : MRet Co := λ A a k, k (inr a).
#[global] Instance Co_bind : MBind Co := λ A B f m k,
  m (λ r, match r with inl e => k (inl e) | inr a => f a k end).

Definition co_throw {A} (e : string) : Co A := λ k, k (inl e).

(** Code between two awaits. *)
Definition sync {A} (f : Svc → A * Svc) : Co A := λ k s, let '(a, s') := f s in k (inr a) s'.

Definition co_result {A} (r : StoreError + A) : string + A :=
  match r with inl e => inl (error_message e) | inr a => inr a end.

(** [Date.now()] and [randomUUID()] are computations of the store's world too. *)
Definition local_rt {A} (m : RT A) : Co A := λ k s,
  let '(r, w) := m (sv_store s) in k (co_result r) (set_store w s).

(** [await this.store.m()] *)
Definition call {A} (m : RT A) : Co A := λ k s,
  let '(r, w) := m (sv_store s) in (set_store w s, Step (λ s', Some (k (co_result r) s'))).

(** [await] of something that others settle. *)
Definition wait_for {A} (cond : Svc → option (string + A)) : Co A := λ k s,
  (s, Step (λ s', match cond s' with Some r => Some (k r s') | None => None end)).

Definition try_catch {A} (body : Co A) (handler : string → Co A) : Co A := λ k,
  body (λ r, match r with inl e => handler e k | inr a => k (inr a) end).

Definition try_finally {A} (body : Co A) (fin : Co unit) : Co A := λ k,
  body (λ r, fin (λ r', match r' with inl e => k (inl e) | inr _ => k r end)).

(** A call whose promise nobody looks at. *)
Definition start_co {A} (m : Co A) : Seg := m (λ _ s, (s, Done)).

Definition new_invocation (cx : Closure) : Invocation := mkInvocation cx 1 false false false false false None None.

Definition read_inv {A} (d : A) (f : Invocation → A) (n : nat) (s : Svc) : A :=
  match sv_invocations s !! n with Some i => f i | None => d end.

Definition update_inv (n : nat) (f : Invocation → Invocation) (s : Svc) : Svc :=
  set_invocations (alter f n (sv_invocations s)) s.

Definition runScopeKey (c : TenantExecutionContext) (runId : string) : string :=
  json_array [tenantConversationScopeKey c (default "unassigned" (ctxConversationId c)); runId].

(** [{ ...context, conversationId, idempotencyKey }] *)
Definition with_run (c : TenantExecutionContext) (conversationId idempotencyKey : string) : TenantExecutionContext :=
  run_context c conversationId idempotencyKey.

(** [controller.abort()] for the controller of the run, if there is one *)
Definition abort_run (key : string) (s : Svc) : Svc :=
  match sv_activeAbortControllers s !! key with
  | Some n => update_inv n (set_inv_aborted true) s
  | None => s
  end.

(** [this.providerConfigs.set(key, { ...config })] *)
Definition store_config (key : string) (config : ProviderRequestConfig) (s : Svc) : Svc :=
  set_providerConfigs (<[key := length (sv_configObjects s)]> (sv_providerConfigs s))
    (set_configObjects (sv_configObjects s ++ [config]) s).

Definition clearProviderConfig (key : string) (s : Svc) : Svc :=
  match sv_providerConfigs s !! key with
  | Some object =>
      set_providerConfigs (delete key (sv_providerConfigs s))
        (set_configObjects (alter (λ c, mkProviderConfig "" (pc_rest c)) object (sv_configObjects s)) s)
  | None => s
  end.

(** [schedule]; the scheduler's [enqueue] throws only for an empty tenant key. *)
Definition schedule (c : TenantExecutionContext) (runId : string) (s : Svc) : Svc :=
  let key := runScopeKey c runId in
  if bool_decide (key ∈ sv_scheduledRuns s) then s
  else set_pending (sv_pending s ++ [(c, runId)]) (set_scheduledRuns ({[key]} ∪ sv_scheduledRuns s) s).

(** A part of the state, or a change of it. *)
Definition do_ (f : Svc → Svc) : Co unit := sync (λ s, (tt, f s)).
Definition ask {A} (f : Svc → A) : Co A := sync (λ s, (f s, s)).

(** *** The conversation lock *)

Definition enter_line (key : string) (s : Svc) : nat * Svc :=
  (sv_nextCaller s, set_nextCaller (S (sv_nextCaller s)) (set_line (sv_line s ++ [(sv_nextCaller s, key)]) s)).

Definition first_in_line (caller : nat) (key : string) (s : Svc) : bool :=
  match filter (λ e, e.2 = key) (sv_line s) with
  | e :: _ => (e.1 =? caller)%nat
  | [] => false
  end.

Definition leave_line (caller : nat) (s : Svc) : Svc :=
  set_line (filter (λ e, e.1 ≠ caller) (sv_line s)) s.

Definition withConversationLock (c : TenantExecutionContext) (execute : Co unit) : Co unit :=
  let key := tenantConversationScopeKey c (default "unassigned" (ctxConversationId c)) in
  caller ← sync (enter_line key);
  _ ← wait_for (λ s, if first_in_line caller key s then Some (inr tt) else None);
  try_finally execute (do_ (leave_line caller)).

(** ** The service *)

Section service.
Context {env : Env} (parse_browser_url : string → option BrowserUrl) (sha256 : string → string).
Context (workerId : string) (leaseDurationMs : Z) (browserBrokerService : option BrowserBrokerService).

(** The constructor: the lease duration and the interval of the renewals. *)
Definition new_service (leaseDuration : Z) (leaseRenewIntervalMs : option Z) : string + (Z * Z) :=
  if leaseDuration <? 1000 then inl "Concurrent runtime lease duration must be at least 1s."
  else inr (leaseDuration, default (Z.max 1000 (leaseDuration / 3)) leaseRenewIntervalMs).

Definition activity_event (cx : Closure) (activityVersion : Z) (phase reason : string) (more : list (string * json))
    : list (string * json) :=
  [("type", JStr "assistant_activity_state"); ("conversationId", JStr (cx_conversationId cx));
   ("activityVersion", JNum activityVersion); ("phase", JStr phase); ("anchor", JStr "assistant_turn");
   ("reason", JStr reason); ("requestId", JStr (cx_requestId cx))] ++ more.

Definition append_event (cx : Closure) (message : list (string * json)) : Co unit :=
  _ ← call (appendEvent (cx_context cx) (cx_conversationId cx) message); mret tt.

(** [activityVersion += 1] *)
Definition next_version (n : nat) : Co Z :=
  _ ← do_ (update_inv n (λ i, set_inv_activityVersion (inv_activityVersion i + 1) i));
  ask (read_inv 0 inv_activityVersion n).

(** *** The renewal timer and the text callback *)

Definition renewal_failed (n : nat) (s : Svc) : Svc :=
  if read_inv false inv_parkedForBrowser n s then s
  else update_inv n (λ i, set_inv_aborted true (set_inv_renewFailed true i)) s.

Definition renew (n : nat) (cx : Closure) : Co unit :=
  t ← local_rt now;
  try_catch
    (renewed ← call (renewRunLease (cx_context cx) (cx_runId cx) (cx_leaseOwner cx) (t + leaseDurationMs));
     if (renewed : bool) then mret tt else do_ (renewal_failed n))
    (λ _, do_ (renewal_failed n)).

Definition onTextDelta (n : nat) (cx : Closure) (text : string) : Co unit :=
  received ← ask (read_inv true inv_receivedTextDelta n);
  _ ← (if (received : bool) then mret tt
       else
         _ ← do_ (update_inv n (set_inv_receivedTextDelta true));
         version ← next_version n;
         append_event cx (activity_event cx version "streaming" "first_text_delta" []));
  append_event cx [("type", JStr "assistant_text_delta"); ("text", JStr text);
                   ("messageId", JStr (cx_assistantMessageId cx)); ("conversationId", JStr (cx_conversationId cx))].

(** *** A turn *)

Definition browser_step_count (steps : list ConcurrentRunStep) : nat :=
  length (js_filter (λ s, match step_stepKind s with provider_response => true | _ => false end) steps).

(** The executor asked for a browser action. *)
Definition park_turn (n : nat) (cx : Closure) (steps : list ConcurrentRunStep) (toolUseId : string)
    (operation : BrowserBrokerOperation) (providerContent : json) (executionConfig : list (string * json)) : Co unit :=
  match browserBrokerService with
  | None => co_throw "Browser broker is unavailable for this runtime."
  | Some broker =>
      if (12 <=? browser_step_count steps)%nat
      then co_throw "Browser action budget was exhausted for this turn."
      else
        dispatched ← call (broker_dispatch parse_browser_url sha256 broker (cx_context cx) (cx_conversationId cx)
                             (cx_runId cx) toolUseId operation (Some (cx_leaseOwner cx)) (Some providerContent)
                             (Some executionConfig));
        _ ← do_ (update_inv n (set_inv_parkedForBrowser true));
        version ← next_version n;
        append_event cx (activity_event cx version "waiting" "browser_action_dispatched"
                           [("actionId", JStr (act_actionId dispatched.1))])
  end.

(** The executor ended with an answer. *)
Definition complete_turn (n : nat) (cx : Closure) (content : string) : Co unit :=
  _ ← call (completeRun (cx_context cx) (cx_runId cx)
              (mkCompleteInput (cx_assistantMessageId cx) content (cx_leaseOwner cx)));
  _ ← do_ (update_inv n (set_inv_terminal true));
  _ ← append_event cx [("type", JStr "message_complete"); ("messageId", JStr (cx_assistantMessageId cx));
                       ("conversationId", JStr (cx_conversationId cx)); ("source", JStr "main")];
  version ← next_version n;
  append_event cx (activity_event cx version "idle" "message_complete" []).

(** The [try] block. *)
Definition turn (n : nat) (cx : Closure) (claimed : ClaimedConcurrentRun) : Co unit :=
  _ ← append_event cx [("type", JStr "assistant_turn_start"); ("messageId", JStr (cx_assistantMessageId cx));
                       ("conversationId", JStr (cx_conversationId cx))];
  version ← ask (read_inv 0 inv_activityVersion n);
  _ ← append_event cx (activity_event cx version "thinking" "message_dequeued" []);
  grant ← match browserBrokerService with
          | Some _ => call (getBrowserAccessGrant (cx_context cx) (cx_conversationId cx))
          | None => mret None
          end;
  providerConfig ← ask (λ s, sv_providerConfigs s !! runScopeKey (cx_context cx) (cx_runId cx));
  _ ← do_ (update_inv n (set_inv_input (Some (mkTurnInput (cl_messages claimed) (cl_steps claimed) providerConfig
             (if run_turnSequence (cl_run claimed) =? 0 then cl_onboardingContext claimed else None)
             (match grant with Some g => grant_enabled g | None => false end)))));
  execution ← wait_for (λ s, read_inv None inv_execution n s);
  renewFailed ← ask (read_inv false inv_renewFailed n);
  if (renewFailed : bool) then co_throw "Concurrent runtime lease was lost."
  else match execution with
       | turn_browser_action toolUseId operation providerContent executionConfig =>
           park_turn n cx (cl_steps claimed) toolUseId operation providerContent executionConfig
       | turn_complete content | turn_text content => complete_turn n cx content
       end.

(** [renewFailed ? "lease_lost" : "turn_failed"] *)
Definition failure_code (n : nat) : Co string :=
  renewFailed ← ask (read_inv false inv_renewFailed n);
  mret (if (renewFailed : bool) then "lease_lost" else "turn_failed").

(** The [catch] block. *)
Definition turn_failed (n : nat) (cx : Closure) (message : string) : Co unit :=
  current ← call (getRun (cx_context cx) (cx_runId cx));
  match run_status <$> current with
  | Some cancelled | Some waiting_for_browser => mret tt
  | _ =>
      code ← failure_code n;
      terminal ← call (failRun (cx_context cx) (cx_runId cx) (mkFailInput code message (cx_leaseOwner cx)));
      _ ← do_ (update_inv n (set_inv_terminal terminal));
      code ← failure_code n;
      append_event cx [("type", JStr "error"); ("message", JStr message); ("code", JStr code);
                       ("requestId", JStr (cx_requestId cx)); ("conversationId", JStr (cx_conversationId cx))]
  end.

(** The [finally] block. *)
Definition turn_ended (n : nat) (cx : Closure) : Co unit :=
  let key := runScopeKey (cx_context cx) (cx_runId cx) in
  _ ← do_ (λ s, set_timers (sv_timers s ∖ {[n]}) s);
  _ ← do_ (λ s, set_activeAbortControllers (delete key (sv_activeAbortControllers s)) s);
  _ ← do_ (clearProviderConfig key);
  terminal ← ask (read_inv false inv_terminal n);
  if (terminal : bool) then
    next ← call (getNextQueuedRun (cx_context cx) (cx_conversationId cx));
    match next with
    | Some next => do_ (schedule (with_run (cx_context cx) (cx_conversationId cx) (run_idempotencyKey next)) (run_id next))
    | None => mret tt
    end
  else mret tt.

(** From [new AbortController()] to [setInterval]. *)
Definition begin_invocation (cx : Closure) (s : Svc) : nat * Svc :=
  let n := length (sv_invocations s) in
  (n, set_timers ({[n]} ∪ sv_timers s)
        (set_activeAbortControllers (<[runScopeKey (cx_context cx) (cx_runId cx) := n]> (sv_activeAbortControllers s))
          (set_invocations (sv_invocations s ++ [new_invocation cx]) s))).

Definition run_claimed (runId leaseOwner : string) (claimed : ClaimedConcurrentRun) : Co unit :=
  assistantMessageId ← local_rt randomUUID;
  let cx := mkClosure (cl_context claimed) runId leaseOwner (run_conversationId (cl_run claimed))
              (run_requestId (cl_run claimed)) assistantMessageId in
  n ← sync (begin_invocation cx);
  try_finally (try_catch (turn n cx claimed) (turn_failed n cx)) (turn_ended n cx).

Definition lease_owner (uuid : string) : string := workerId +:+ ":" +:+ uuid.

Definition processRun (c : TenantExecutionContext) (runId : string) : Co unit :=
  uuid ← local_rt randomUUID;
  t ← local_rt now;
  claimed ← call (claimRun c runId (lease_owner uuid) (t + leaseDurationMs));
  match claimed with
  | None => do_ (clearProviderConfig (runScopeKey c runId))
  | Some claimed => run_claimed runId (lease_owner uuid) claimed
  end.

(** The task handed to the scheduler. *)
Definition run_task (c : TenantExecutionContext) (runId : string) : Co unit :=
  try_finally (withConversationLock c (processRun c runId))
    (do_ (λ s, set_scheduledRuns (sv_scheduledRuns s ∖ {[runScopeKey c runId]}) s)).

(** *** What clients call *)

(** Start the resolver unless one is under way, and await it. *)
Definition resolveProviderConfig (c : TenantExecutionContext) (runId : string) : Co unit :=
  let key := runScopeKey c runId in
  cached ← ask (λ s, sv_providerConfigs s !! key);
  match cached with
  | Some _ => mret tt
  | None =>
      promise ← sync (λ s,
        match sv_providerConfigResolutions s !! key with
        | Some p => (p, s)
        | None =>
            let p := length (sv_promises s) in
            (p, set_providerConfigResolutions (<[key := p]> (sv_providerConfigResolutions s))
                  (set_promises (sv_promises s ++ [(key, resolution_pending)]) s))
        end);
      _ ← wait_for (λ s, match sv_promises s !! promise with Some (_, resolution_final r) => Some r | _ => None end);
      mret tt
  end.

Definition should_schedule (accepted : AcceptedConcurrentRun) : Co bool :=
  if acc_created accepted || bool_decide (run_status (acc_run accepted) = queued) then mret true
  else if bool_decide (run_status (acc_run accepted) = processing) then
    t ← local_rt now;
    mret (match run_leaseExpiresAt (acc_run accepted) with Some e => e <=? t | None => false end)
  else mret false.

Definition submitMessage (c : TenantExecutionContext) (input : AcceptConcurrentMessageInput) (provider : ProviderArgument)
    : Co AcceptedConcurrentRun :=
  accepted ← call (acceptMessage c input);
  shouldSchedule ← should_schedule accepted;
  _ ← (if (shouldSchedule : bool) then
         let runContext := with_run c (acc_conversationId accepted) (run_idempotencyKey (acc_run accepted)) in
         let runId := run_id (acc_run accepted) in
         _ ← match provider with
             | provider_resolver => resolveProviderConfig runContext runId
             | provider_value config => do_ (store_config (runScopeKey runContext runId) config)
             | no_provider => mret tt
             end;
         do_ (schedule runContext runId)
       else mret tt);
  mret accepted.

Definition service_cancelRun (c : TenantExecutionContext) (runId : string) : Co bool :=
  let key := runScopeKey c runId in
  _ ← do_ (abort_run key);
  cancelled ← call (RuntimeStore.cancelRun c runId);
  _ ← (if (cancelled : bool) then do_ (λ s, set_providerConfigs (delete key (sv_providerConfigs s)) s) else mret tt);
  mret cancelled.

(** The body of the loop over the cancelled runs. *)
Definition forget_run (c : TenantExecutionContext) (s : Svc) (run : ConcurrentRun) : Svc :=
  let key := runScopeKey c (run_id run) in
  let s := abort_run key s in
  set_providerConfigs (delete key (sv_providerConfigs s)) s.

Definition cancelConversation (c : TenantExecutionContext) (conversationId : string) : Co bool :=
  runs ← call (cancelConversationRuns c conversationId);
  _ ← do_ (λ s, fold_left (forget_run c) runs s);
  mret (0 <? length runs)%nat.

Definition resumeRun (c : TenantExecutionContext) (runId : string) (resolver : bool) : Co unit :=
  run ← call (getRun c runId);
  match run with
  | Some run =>
      if bool_decide (run_status run = queued) then
        let runContext := with_run c (run_conversationId run) (run_idempotencyKey run) in
        let key := runScopeKey runContext runId in
        scheduled ← ask (λ s, bool_decide (key ∈ sv_scheduledRuns s));
        if (scheduled : bool) then mret tt
        else
          cached ← ask (λ s, bool_decide (is_Some (sv_providerConfigs s !! key)));
          _ ← (if resolver && negb cached then resolveProviderConfig runContext runId else mret tt);
          do_ (schedule runContext runId)
      else mret tt
  | None => mret tt
  end.

(** [BrowserBrokerService.recordResult] with [onRunRunnable] set to [resumeRun]. *)
Definition browser_result (c : TenantExecutionContext) (result : BrowserBrokerResultRequest) (token : string) (resolver : bool)
    : Co BrowserActionAck :=
  '(ack, runnable) ← call (broker_recordResult sha256 c result token);
  _ ← match runnable with Some runId => resumeRun c runId resolver | None => mret tt end;
  mret ack.

(** ** The system *)

(** A function under way; a task of the scheduler carries the key of its run. *)
Record Thread := mkThread { th_task : option string; th_proc : proc }.
Record Sys := mkSys { sys_svc : Svc; sys_threads : list Thread }.

Inductive ApiCall :=
  | api_submit (c : TenantExecutionContext) (input : AcceptConcurrentMessageInput) (provider : ProviderArgument)
  | api_cancel (c : TenantExecutionContext) (runId : string)
  | api_cancel_conversation (c : TenantExecutionContext) (conversationId : string)
  | api_resume (c : TenantExecutionContext) (runId : string) (resolver : bool)
  | api_browser_result (c : TenantExecutionContext) (result : BrowserBrokerResultRequest) (token : string) (resolver : bool).

Definition api_start (a : ApiCall) : Seg :=
  match a with
  | api_submit c input provider => start_co (submitMessage c input provider)
  | api_cancel c runId => start_co (service_cancelRun c runId)
  | api_cancel_conversation c v => start_co (cancelConversation c v)
  | api_resume c runId r => start_co (resumeRun c runId r)
  | api_browser_result c result token r => start_co (browser_result c result token r)
  end.

Inductive SysEvent :=
  | ev_thread (i : nat)                                        (* a function goes on to its next await *)
  | ev_start (i : nat)                                         (* the scheduler starts a pending task *)
  | ev_api (a : ApiCall)                                       (* a client calls *)
  | ev_tick (n : nat)                                          (* the renewal interval of an invocation *)
  | ev_delta (n : nat) (text : string)                         (* the executor calls back *)
  | ev_executed (n : nat) (r : string + ConcurrentTurnExecution)   (* the executor ends *)
  | ev_resolve (p : nat) (r : string + ProviderRequestConfig)  (* a resolver settles *)
  | ev_resolve_finally (p : nat)
  | ev_store (o : Op).                                         (* another user of the store *)

(** A finished function is dropped. *)
Definition keep_thread (tag : option string) (p : proc) : list Thread :=
  match p with Done => [] | _ => [mkThread tag p] end.

Definition spawn (tag : option string) (seg : Seg) (threads : list Thread) (s : Svc) : Sys :=
  let '(s', p) := seg s in mkSys s' (threads ++ keep_thread tag p).

Definition resolver_settled (p : nat) (key : string) (r : string + ProviderRequestConfig) (s : Svc) : Svc :=
  let s := set_promises (<[p := (key, resolution_settled r)]> (sv_promises s)) s in
  match r with inr config => store_config key config s | inl _ => s end.

Definition resolver_final (p : nat) (key : string) (r : string + ProviderRequestConfig) (s : Svc) : Svc :=
  set_providerConfigResolutions (delete key (sv_providerConfigResolutions s))
    (set_promises (<[p := (key, resolution_final r)]> (sv_promises s)) s).

(** The state after an event, if it can happen. *)
Definition sys_step (e : SysEvent) (y : Sys) : option Sys :=
  let s := sys_svc y in
  let ts := sys_threads y in
  match e with
  | ev_thread i =>
      match ts !! i with
      | Some (mkThread tag (Step f)) =>
          '(s', p) ← f s; Some (mkSys s' (take i ts ++ keep_thread tag p ++ drop (S i) ts))
      | _ => None
      end
  | ev_start i =>
      match sv_pending s !! i with
      | Some (c, runId) =>
          Some (spawn (Some (runScopeKey c runId)) (start_co (run_task c runId)) ts
                  (set_pending (take i (sv_pending s) ++ drop (S i) (sv_pending s)) s))
      | None => None
      end
  | ev_api a => Some (spawn None (api_start a) ts s)
  | ev_tick n =>
      match sv_invocations s !! n with
      | Some i => if bool_decide (n ∈ sv_timers s) then Some (spawn None (start_co (renew n (inv_cx i))) ts s) else None
      | None => None
      end
  | ev_delta n text =>
      match sv_invocations s !! n with
      | Some i => if bool_decide (is_Some (inv_input i)) then Some (spawn None (start_co (onTextDelta n (inv_cx i) text)) ts s)
                  else None
      | None => None
      end
  | ev_executed n r =>
      match sv_invocations s !! n with
      | Some i => if bool_decide (is_Some (inv_input i)) && bool_decide (inv_execution i = None)
                  then Some (mkSys (update_inv n (set_inv_execution (Some r)) s) ts) else None
      | None => None
      end
  | ev_resolve p r =>
      match sv_promises s !! p with
      | Some (key, resolution_pending) => Some (mkSys (resolver_settled p key r s) ts)
      | _ => None
      end
  | ev_resolve_finally p =>
      match sv_promises s !! p with
      | Some (key, resolution_settled r) => Some (mkSys (resolver_final p key r s) ts)
      | _ => None
      end
  | ev_store o => Some (mkSys (set_store (exec o (sv_store s)) s) ts)
  end.

Definition init_svc (w : World Store) : Svc := mkSvc w ∅ ∅ [] ∅ [] ∅ [] [] 0 [] ∅.
Definition init_sys : Sys := mkSys (init_svc init_world) [].

(** The other users of the store claim runs under owners of their own. *)
Definition foreign_claim (o : Op) : Prop :=
  match o with OpClaim _ _ owner _ => ∀ uuid, owner ≠ lease_owner uuid | _ => True end.
Definition event_ok (e : SysEvent) : Prop := match e with ev_store o => foreign_claim o | _ => True end.

Inductive sys_reachable : Sys → Prop :=
  | sys_init : sys_reachable init_sys
  | sys_next e y y' : sys_reachable y → event_ok e → sys_step e y = Some y' → sys_reachable y'.

Definition sys_run (es : list SysEvent) (y : Sys) : option Sys :=
  fold_left (λ o e, match o with Some y => sys_step e y | None => None end) es (Some y).
End service.
