(* ===== verification/ServiceProps.v ===== *)
(** * Properties of the concurrent runtime service

    Whatever the interleaving of clients, timers, executors and other users of the
    store: a run is in the hands of at most one task of the service, and a run
    leased by the service has a function under way that will end its lease. *)
From S2P Require Import Prelude ScopeKeys RuntimeTypes RuntimeStore TurnQueue RuntimeRefines RuntimeLedger RuntimeProps.
From S2P Require Import RuntimeLeases Demo BrowserBroker RuntimeService.

#[local] Arguments runScopeKey : simpl never.

Section props.
Context {env : Env} `{!UuidOk env} (parse_browser_url : string → option BrowserUrl) (sha256 : string → string).
Context (workerId : string) (leaseDurationMs : Z) (browserBrokerService : option BrowserBrokerService).

(** ** The store under the service *)

(** The owner made from the [n]-th UUID. *)
Definition owner (n : nat) : string := lease_owner workerId (random_uuid n).

Lemma owner_inj n m : owner n = owner m → n = m.
Proof.
  unfold owner, lease_owner. intros H. apply uuid_inj.
  induction workerId as [|c s IH]; [by injection H|]. apply IH. by injection H.
Qed.

Record winv (w : World Store) : Prop := {
  wi_keys : key_inv w;
  wi_ledger : ledger_inv (w_st w);
  wi_contexts : contexts_complete (w_st w);
  wi_fresh : ∀ n K, (w_uuid w ≤ n)%nat → ¬ leased_to (owner n) K (w_st w);
}.

(** The invariant is kept and no owner gets a lease. *)
Definition wstep (w w' : World Store) : Prop := winv w' ∧ ∀ n, lease_le (owner n) w w'.

Definition safe_rt {A} (m : RT A) : Prop := ∀ w, winv w → wstep w (m w).2.

Lemma wstep_refl w : winv w → wstep w w.
Proof. intros H. split; [done|]. intros n. reflexivity. Qed.

Lemma wstep_trans w1 w2 w3 : wstep w1 w2 → wstep w2 w3 → wstep w1 w3.
Proof. intros [_ H1] [Hw H2]. split; [done|]. intros n. etrans; [apply H1|apply H2]. Qed.

Lemma winv_init : winv init_world.
Proof.
  split; [apply key_inv_init|apply ledger_inv_init|by intros K c|]. intros n K _ (r & Hr & _). discriminate Hr.
Qed.

(** A call of the store; a claim needs an owner that is not one of the fresh. *)
Lemma exec_winv o w :
  winv w → (∀ n K, (w_uuid (exec o w) ≤ n)%nat → ¬ leased_to (owner n) K (w_st (exec o w))) → winv (exec o w).
Proof.
  intros [Hk Hl Hc _] Hf. split; [by apply exec_refines|by apply exec_ledger| |done].
  by apply exec_complete_contexts; [apply Hk|].
Qed.

Lemma exec_safe o w : (∀ n c r e, o ≠ OpClaim c r (owner n) e) → winv w → wstep w (exec o w).
Proof.
  intros Hne Hw. assert (Hle : ∀ n, lease_le (owner n) w (exec o w)) by (intros n; by apply exec_lease).
  split; [|done]. apply exec_winv; [done|]. intros n K Hn Hl. destruct (Hle n) as [Hle1 Hu].
  apply (wi_fresh w Hw n K); [lia|auto].
Qed.

Lemma safe_op {A} (m : RT A) o : (∀ w, (m w).2 = exec o w) → (∀ n c r e, o ≠ OpClaim c r (owner n) e) → safe_rt m.
Proof. intros Hm Hne w Hw. rewrite Hm. by apply exec_safe. Qed.

(** Reading the clock or drawing a UUID. *)
Lemma safe_counters w c u : winv w → wstep w (mkWorld c (w_uuid w + u) (w_st w)).
Proof.
  intros Hw. pose proof Hw as [[Hnd Hk] Hl Hc Hf]. split; [|intros n; split; [done|cbn; lia]]. split; [|done..|].
  - split; [done|]. intros k Hin. destruct (Hk k Hin) as (c0 & n & -> & Hn). exists c0, n. split; [done|cbn; lia].
  - intros n K Hn. apply Hf. cbn in Hn. lia.
Qed.

Lemma safe_now : safe_rt (now : RT Z).
Proof.
  intros w Hw. pose proof (safe_counters w (S (w_clock w)) 0 Hw) as H. by rewrite Nat.add_0_r in H.
Qed.
Lemma safe_randomUUID : safe_rt (randomUUID : RT string).
Proof.
  intros w Hw. pose proof (safe_counters w (w_clock w) 1 Hw) as H. by rewrite Nat.add_1_r in H.
Qed.
Lemma safe_ret {A} (a : A) : safe_rt (mret a).
Proof. intros w Hw. by apply wstep_refl. Qed.
Lemma safe_throw {A} e : safe_rt (throw e : RT A).
Proof. intros w Hw. by apply wstep_refl. Qed.
Lemma safe_bind {A B} (m : RT A) (k : A → RT B) : safe_rt m → (∀ a, safe_rt (k a)) → safe_rt (m ≫= k).
Proof.
  intros Hm Hk w Hw. unfold mbind, M_bind. specialize (Hm w Hw). destruct (m w) as [[e|a] w1]; [done|].
  eapply wstep_trans; [exact Hm|]. apply Hk, Hm.
Qed.

Lemma safe_accept c i : safe_rt (acceptMessage c i).
Proof. by apply (safe_op _ (OpAccept c i)). Qed.
Lemma safe_append c v m : safe_rt (appendEvent c v m).
Proof. by apply (safe_op _ (OpAppendEvent c v m)). Qed.
Lemma safe_renew c r o e : safe_rt (renewRunLease c r o e).
Proof. by apply (safe_op _ (OpRenew c r o e)). Qed.
Lemma safe_complete c r i : safe_rt (completeRun c r i).
Proof. by apply (safe_op _ (OpComplete c r i)). Qed.
Lemma safe_fail c r i : safe_rt (failRun c r i).
Proof. by apply (safe_op _ (OpFail c r i)). Qed.
Lemma safe_cancel c r : safe_rt (RuntimeStore.cancelRun c r).
Proof. by apply (safe_op _ (OpCancel c r)). Qed.
Lemma safe_cancel_conversation c v : safe_rt (cancelConversationRuns c v).
Proof. by apply (safe_op _ (OpCancelConversation c v)). Qed.
Lemma safe_getRun c r : safe_rt (getRun c r).
Proof. by apply (safe_op _ (OpGetRun c r)). Qed.
Lemma safe_next c v : safe_rt (getNextQueuedRun c v).
Proof. by apply (safe_op _ (OpNextQueued c v)). Qed.
Lemma safe_grant c v : safe_rt (getBrowserAccessGrant c v).
Proof. by apply (safe_op _ (OpGetGrant c v)). Qed.

Lemma safe_dispatch b c v r t op o p x : safe_rt (broker_dispatch parse_browser_url sha256 b c v r t op o p x).
Proof.
  unfold broker_dispatch. case_match; [apply safe_throw|].
  apply safe_bind; [apply safe_randomUUID|intros id]. apply safe_bind; [apply safe_now|intros t0].
  eapply (safe_op _ (OpEnqueue c _)); [reflexivity|done].
Qed.

Lemma safe_result c r t : safe_rt (broker_recordResult sha256 c r t).
Proof.
  unfold broker_recordResult. apply safe_bind; [|intros a; apply safe_ret]. by apply (safe_op _ (OpResult c r (sha256 t))).
Qed.

(** ** What every function guarantees to the others *)

Abbreviation store_of s := (w_st (sv_store s)).

Definition run_keys (l : list (TenantExecutionContext * string)) : list string := (λ '(c, r), runScopeKey c r) <$> l.

(** Invocations stay, with their constants, and once parked stay parked. *)
Definition inv_mono (s s' : Svc) : Prop :=
  ∀ n i, sv_invocations s !! n = Some i → ∃ i', sv_invocations s' !! n = Some i' ∧ inv_cx i' = inv_cx i
    ∧ (inv_parkedForBrowser i = true → inv_parkedForBrowser i' = true).

(** Tasks are only added, each for a run that has none. *)
Definition sched_ext (s s' : Svc) : Prop :=
  ∃ l, sv_pending s' = sv_pending s ++ l ∧ NoDup (run_keys l)
    ∧ (∀ k, k ∈ run_keys l → k ∉ sv_scheduledRuns s)
    ∧ sv_scheduledRuns s' = sv_scheduledRuns s ∪ list_to_set (run_keys l).

Record G (s s' : Svc) : Prop := {
  g_store : wstep (sv_store s) (sv_store s');
  g_inv : inv_mono s s';
  g_sched : sched_ext s s';
}.

Lemma inv_mono_refl s : inv_mono s s.
Proof. intros n i Hi. by exists i. Qed.
Lemma inv_mono_trans s1 s2 s3 : inv_mono s1 s2 → inv_mono s2 s3 → inv_mono s1 s3.
Proof.
  intros H1 H2 n i Hi. destruct (H1 n i Hi) as (i1 & Hi1 & C1 & P1). destruct (H2 n i1 Hi1) as (i2 & Hi2 & C2 & P2).
  exists i2. split_and!; [done|congruence|auto].
Qed.
Lemma inv_mono_eq s s' : sv_invocations s' = sv_invocations s → inv_mono s s'.
Proof. intros H n i Hi. exists i. by rewrite H. Qed.

Lemma sched_ext_eq s s' :
  sv_pending s' = sv_pending s → sv_scheduledRuns s' = sv_scheduledRuns s → sched_ext s s'.
Proof.
  intros Hp Hs. exists []. cbn. rewrite app_nil_r, Hs. split_and!; [done|constructor|set_solver|set_solver].
Qed.
Lemma sched_ext_trans s1 s2 s3 : sched_ext s1 s2 → sched_ext s2 s3 → sched_ext s1 s3.
Proof.
  intros (l1 & P1 & N1 & F1 & S1) (l2 & P2 & N2 & F2 & S2). exists (l1 ++ l2).
  unfold run_keys in *. rewrite fmap_app, P2, P1, S2, S1, app_assoc. split_and!; [done|apply NoDup_app|..].
  - split_and!; [done| |done]. intros k Hk Hk2. apply (F2 k Hk2). rewrite S1. set_solver.
  - intros k [Hk|Hk]%elem_of_app; [by apply F1|]. specialize (F2 k Hk). set_solver.
  - rewrite list_to_set_app_L. set_solver.
Qed.

Lemma G_refl s : winv (sv_store s) → G s s.
Proof. intros H. split; [by apply wstep_refl|apply inv_mono_refl|by apply sched_ext_eq]. Qed.
Lemma G_trans s1 s2 s3 : G s1 s2 → G s2 s3 → G s1 s3.
Proof.
  intros [A1 B1 C1] [A2 B2 C2]. split; [by eapply wstep_trans|by eapply inv_mono_trans|by eapply sched_ext_trans].
Qed.
Lemma G_winv s s' : G s s' → winv (sv_store s').
Proof. intros [[H _] _ _]. exact H. Qed.

(** A change of the service's own maps. *)
Lemma G_local s s' :
  winv (sv_store s) → sv_store s' = sv_store s → inv_mono s s' → sv_pending s' = sv_pending s →
  sv_scheduledRuns s' = sv_scheduledRuns s → G s s'.
Proof. intros Hw Hs Hi Hp Hr. split; [rewrite Hs; by apply wstep_refl|done|by apply sched_ext_eq]. Qed.

Lemma G_set_store w s : wstep (sv_store s) w → G s (set_store w s).
Proof. intros Hw. split; [done|by apply inv_mono_eq|by apply sched_ext_eq]. Qed.

Lemma G_schedule c r s : winv (sv_store s) → G s (schedule c r s).
Proof.
  intros Hw. unfold schedule. case_bool_decide as Hin; [by apply G_refl|].
  split; [by apply wstep_refl|by apply inv_mono_eq|]. exists [(c, r)].
  split_and!; [done|apply NoDup_singleton|set_solver|set_solver].
Qed.

(** Assignments to the variables of an invocation. *)
Definition keeps_inv (f : Invocation → Invocation) : Prop :=
  ∀ i, inv_cx (f i) = inv_cx i ∧ (inv_parkedForBrowser i = true → inv_parkedForBrowser (f i) = true).

Lemma G_update_inv n f s : winv (sv_store s) → keeps_inv f → G s (update_inv n f s).
Proof.
  intros Hw Hf. apply G_local; try done. intros m i Hi. cbn. destruct (decide (m = n)) as [->|Hne].
  - exists (f i). rewrite list_lookup_alter_eq, Hi. split; [done|apply Hf].
  - exists i. by rewrite list_lookup_alter_ne.
Qed.

(** ** Functions that keep the guarantee *)

(** After a segment that began in [s]: the function has ended, or the rest keeps the guarantee. *)
Definition held (n : nat) (K : string) (s : Svc) : Prop :=
  (n < w_uuid (sv_store s))%nat ∧ ∀ K', leased_to (owner n) K' (store_of s) → K' = K.

(** The [n]-th owner has no lease, or its invocation took the turn for parked. *)
Definition settled (n : nat) (s : Svc) : Prop :=
  (∀ K, ¬ leased_to (owner n) K (store_of s)) ∨
  ∃ m i, sv_invocations s !! m = Some i ∧ cx_leaseOwner (inv_cx i) = owner n ∧ inv_parkedForBrowser i = true.

(** What a function that works for an owner knows: the one run the owner can
    have a lease of, and its invocation. *)
Definition knows (n : nat) (K : string) (o : option (nat * Closure)) (s : Svc) : Prop :=
  held n K s ∧ match o with
               | Some (m, cx) => ∃ i, sv_invocations s !! m = Some i ∧ inv_cx i = cx
               | None => True
               end.

(** The function does not end before the owner's lease is settled. *)
#[warnings="-register-all"]
Inductive works (n : nat) (K : string) (o : option (nat * Closure)) : proc → Prop :=
  | works_step f :
      (∀ s s' p, winv (sv_store s) → knows n K o s → f s = Some (s', p) →
         settled n s' ∨ ∃ o', knows n K o' s' ∧ works n K o' p) →
      works n K o (Step f).

(** A segment that claims a run for a fresh owner, and then works for it. *)
Definition claims (s s' : Svc) (p : proc) : Prop :=
  winv (sv_store s') ∧ (w_uuid (sv_store s) ≤ w_uuid (sv_store s'))%nat ∧ inv_mono s s' ∧ sched_ext s s' ∧
  ∃ n K, (w_uuid (sv_store s) ≤ n)%nat ∧ (∀ m, m ≠ n → lease_le (owner m) (sv_store s) (sv_store s'))
    ∧ knows n K None s' ∧ works n K None p.

#[warnings="-register-all"]
Inductive proc_ok (E : Svc → Svc → Prop) : proc → Prop :=
  | ok_step f :
      (∀ s s' p, winv (sv_store s) → f s = Some (s', p) →
         p = Done ∧ E s s' ∨ (G s s' ∨ claims s s' p) ∧ proc_ok E p) →
      proc_ok E (Step f).

Definition res_ok (E : Svc → Svc → Prop) (s : Svc) (r : Svc * proc) : Prop :=
  r.2 = Done ∧ E s r.1 ∨ (G s r.1 ∨ claims s r.1 r.2) ∧ proc_ok E r.2.

Definition seg_ok (E : Svc → Svc → Prop) (g : Seg) : Prop := ∀ s, winv (sv_store s) → res_ok E s (g s).

Definition absorbs (E : Svc → Svc → Prop) : Prop := ∀ s s1 s2, G s s1 → E s1 s2 → E s s2.

Definition co_ok {A} (m : Co A) : Prop :=
  ∀ E k, absorbs E → (∀ r, seg_ok E (k r)) → seg_ok E (m k).

Lemma claims_pre s s1 s2 p : G s s1 → claims s1 s2 p → claims s s2 p.
Proof.
  intros [[Hw1 Hl] Hi Hs] (Hw & Hu & Hi2 & Hs2 & n & K & Hn & Hle & Hk & Hp).
  assert (Hu1 : (w_uuid (sv_store s) ≤ w_uuid (sv_store s1))%nat) by apply (Hl 0%nat).
  split_and!; [done|lia|by eapply inv_mono_trans|by eapply sched_ext_trans|].
  exists n, K. split_and!; [lia| |done|done]. intros m Hm. etrans; [apply Hl|by apply Hle].
Qed.

Lemma res_ok_pre E s s1 r : absorbs E → G s s1 → res_ok E s1 r → res_ok E s r.
Proof.
  intros HE HG [[Hd He]|[[Hg|Hc] Hp]]; [left; by eauto|right..]; (split; [|done]).
  - left. by eapply G_trans.
  - right. by eapply claims_pre.
Qed.

Lemma co_ok_ret {A} (a : A) : co_ok (mret a).
Proof. intros E k HE Hk. apply Hk. Qed.
Lemma co_ok_throw {A} e : co_ok (co_throw e : Co A).
Proof. intros E k HE Hk. apply Hk. Qed.
Lemma co_ok_bind {A B} (m : Co A) (f : A → Co B) : co_ok m → (∀ a, co_ok (f a)) → co_ok (m ≫= f).
Proof. intros Hm Hf E k HE Hk. apply Hm; [done|]. intros [e|a]; [apply Hk|by apply Hf]. Qed.

Lemma co_ok_sync {A} (f : Svc → A * Svc) : (∀ s, winv (sv_store s) → G s (f s).2) → co_ok (sync f).
Proof.
  intros Hf E k HE Hk s Hw. unfold sync. specialize (Hf s Hw). destruct (f s) as [a s1]. cbn in Hf.
  eapply res_ok_pre; [done|exact Hf|]. apply Hk. by eapply G_winv.
Qed.
Lemma co_ok_do f : (∀ s, winv (sv_store s) → G s (f s)) → co_ok (do_ f).
Proof. intros Hf. by apply (co_ok_sync (λ s, (tt, f s))). Qed.
Lemma co_ok_ask {A} (f : Svc → A) : co_ok (ask f).
Proof. apply (co_ok_sync (λ s, (f s, s))). intros s. apply G_refl. Qed.

Lemma co_ok_local {A} (m : RT A) : safe_rt m → co_ok (local_rt m).
Proof.
  intros Hm E k HE Hk s Hw. unfold local_rt. specialize (Hm _ Hw). destruct (m (sv_store s)) as [r w].
  pose proof (G_set_store w s Hm) as HG. eapply res_ok_pre; [done|exact HG|]. apply Hk, Hm.
Qed.

Lemma proc_ok_cont E g : seg_ok E g → proc_ok E (Step (λ s, Some (g s))).
Proof. intros Hg. constructor. intros s s' p Hw [= Heq]. specialize (Hg s Hw). by rewrite Heq in Hg. Qed.

Lemma co_ok_call {A} (m : RT A) : safe_rt m → co_ok (call m).
Proof.
  intros Hm E k HE Hk s Hw. unfold call. specialize (Hm _ Hw). destruct (m (sv_store s)) as [r w].
  right. split; [left; by apply G_set_store|]. cbn. apply proc_ok_cont, Hk.
Qed.

Lemma co_ok_wait {A} (cond : Svc → option (string + A)) : co_ok (wait_for cond).
Proof.
  intros E k HE Hk s Hw. right. split; [left; by apply G_refl|]. cbn. constructor. intros s1 s' p Hw1.
  destruct (cond s1) as [r|]; [|done]. intros [= Heq]. specialize (Hk r s1 Hw1). by rewrite Heq in Hk.
Qed.

Lemma co_ok_catch {A} (body : Co A) h : co_ok body → (∀ e, co_ok (h e)) → co_ok (try_catch body h).
Proof. intros Hb Hh E k HE Hk. apply Hb; [done|]. intros [e|a]; [by apply Hh|apply Hk]. Qed.
Lemma co_ok_finally {A} (body : Co A) fin : co_ok body → co_ok fin → co_ok (try_finally body fin).
Proof. intros Hb Hf E k HE Hk. apply Hb; [done|]. intros r. apply Hf; [done|]. intros [e|a]; apply Hk. Qed.

(** *** The functions of the service *)

Lemma G_abort key s : winv (sv_store s) → G s (abort_run key s).
Proof. intros Hw. unfold abort_run. case_match; [by apply G_update_inv|by apply G_refl]. Qed.
Lemma G_clear key s : winv (sv_store s) → G s (clearProviderConfig key s).
Proof. intros Hw. unfold clearProviderConfig. case_match; [|by apply G_refl]. by apply G_local; [..|apply inv_mono_eq| |]. Qed.
Lemma G_begin cx s : winv (sv_store s) → G s (begin_invocation cx s).2.
Proof.
  intros Hw. apply G_local; try done. intros n i Hi. exists i. split_and!; [|done..]. cbn. by apply lookup_app_l_Some.
Qed.
Lemma G_forget c s r : winv (sv_store s) → G s (forget_run c s r).
Proof.
  intros Hw. unfold forget_run. pose proof (G_abort (runScopeKey c (run_id r)) s Hw) as HG.
  eapply G_trans; [exact HG|]. apply G_local; try done; [by eapply G_winv|by apply inv_mono_eq].
Qed.
Lemma G_forget_all c rs s : winv (sv_store s) → G s (fold_left (forget_run c) rs s).
Proof.
  revert s. induction rs as [|r rs IH]; intros s Hw; [by apply G_refl|]. cbn.
  pose proof (G_forget c s r Hw) as HG. eapply G_trans; [exact HG|]. apply IH. by eapply G_winv.
Qed.
Lemma G_renewal_failed n s : winv (sv_store s) → G s (renewal_failed n s).
Proof. intros Hw. unfold renewal_failed. case_match; [by apply G_refl|by apply G_update_inv]. Qed.

Ltac own_maps := intros; apply G_local; [done|done|by apply inv_mono_eq|done|done].

Create HintDb service.
#[local] Hint Resolve safe_accept safe_append safe_renew safe_complete safe_fail safe_cancel safe_cancel_conversation
  safe_getRun safe_next safe_grant safe_dispatch safe_result safe_now safe_randomUUID
  G_abort G_clear G_begin G_forget_all G_renewal_failed G_schedule : service.

(** Syntax directed, then the database. *)
Ltac co_step :=
  match goal with
  | |- co_ok (if ?b then _ else _) => destruct b
  | |- co_ok (match ?x with _ => _ end) => destruct x
  | |- co_ok (mret _) => apply co_ok_ret
  | |- co_ok (co_throw _) => apply co_ok_throw
  | |- co_ok (mbind _ _) => apply co_ok_bind; [|intros ?]
  | |- co_ok (try_catch _ _) => apply co_ok_catch; [|intros ?]
  | |- co_ok (try_finally _ _) => apply co_ok_finally
  | |- co_ok (ask _) => apply co_ok_ask
  | |- co_ok (wait_for _) => apply co_ok_wait
  | |- co_ok (call _) => apply co_ok_call; solve [auto with service]
  | |- co_ok (local_rt _) => apply co_ok_local; solve [auto with service]
  | |- co_ok (do_ (update_inv _ _)) => apply co_ok_do; intros; apply G_update_inv; [done|by intros ?]
  | |- co_ok (do_ _) => apply co_ok_do; solve [auto with service | own_maps]
  | |- co_ok (sync (begin_invocation _)) => apply co_ok_sync; solve [auto with service]
  | |- co_ok _ => solve [auto with service]
  end.
Ltac solve_co := repeat co_step.

Lemma ok_append cx m : co_ok (append_event cx m).
Proof. unfold append_event. solve_co. Qed.
Lemma ok_version n : co_ok (next_version n).
Proof. unfold next_version. solve_co. Qed.
#[local] Hint Resolve ok_append ok_version : service.
Lemma ok_renew n cx : co_ok (renew leaseDurationMs n cx).
Proof. unfold renew. solve_co. Qed.
Lemma ok_delta n cx t : co_ok (onTextDelta n cx t).
Proof. unfold onTextDelta. solve_co. Qed.
Lemma ok_park n cx st t op p x : co_ok (park_turn parse_browser_url sha256 browserBrokerService n cx st t op p x).
Proof. unfold park_turn. solve_co. Qed.
Lemma ok_complete n cx t : co_ok (complete_turn n cx t).
Proof. unfold complete_turn. solve_co. Qed.
#[local] Hint Resolve ok_park ok_complete : service.
Lemma ok_turn n cx cl : co_ok (turn parse_browser_url sha256 browserBrokerService n cx cl).
Proof. unfold turn. solve_co. Qed.
Lemma ok_code n : co_ok (failure_code n).
Proof. unfold failure_code. solve_co. Qed.
#[local] Hint Resolve ok_turn ok_code : service.
Lemma ok_failed n cx m : co_ok (turn_failed n cx m).
Proof. unfold turn_failed. solve_co. Qed.
Lemma ok_ended n cx : co_ok (turn_ended n cx).
Proof. unfold turn_ended. solve_co. Qed.
#[local] Hint Resolve ok_failed ok_ended : service.
Lemma ok_claimed r o cl : co_ok (run_claimed parse_browser_url sha256 browserBrokerService r o cl).
Proof. unfold run_claimed. solve_co. Qed.
Lemma ok_resolve c r : co_ok (resolveProviderConfig c r).
Proof.
  unfold resolveProviderConfig. solve_co. apply co_ok_sync. intros s Hw.
  destruct (_ !! _); cbn; [by apply G_refl|own_maps].
Qed.
#[local] Hint Resolve ok_resolve : service.
Lemma ok_submit c i p : co_ok (submitMessage c i p).
Proof. unfold submitMessage, should_schedule. solve_co. Qed.
Lemma ok_cancel c r : co_ok (service_cancelRun c r).
Proof. unfold service_cancelRun. solve_co. Qed.
Lemma ok_cancel_conversation c v : co_ok (cancelConversation c v).
Proof. unfold cancelConversation. solve_co. Qed.
Lemma ok_resume c r b : co_ok (resumeRun c r b).
Proof. unfold resumeRun. solve_co. Qed.
#[local] Hint Resolve ok_resume : service.
Lemma ok_browser_result c r t b : co_ok (browser_result sha256 c r t b).
Proof. unfold browser_result. solve_co. Qed.

(** ** Working for a lease *)

Definition seg_works (n : nat) (K : string) (o : option (nat * Closure)) (g : Seg) : Prop :=
  ∀ s, winv (sv_store s) → knows n K o s → settled n (g s).1 ∨ ∃ o', knows n K o' (g s).1 ∧ works n K o' (g s).2.

Lemma held_wstep n K s s' : wstep (sv_store s) (sv_store s') → held n K s → held n K s'.
Proof. intros [_ Hl] [Hn Hh]. destruct (Hl n) as [Hl1 Hu]. split; [lia|]. intros K' HK. auto. Qed.

Lemma knows_G n K o s s' : G s s' → knows n K o s → knows n K o s'.
Proof.
  intros [Hw Hi _] [Hh Ho]. split; [by eapply held_wstep|]. destruct o as [[m cx]|]; [|done].
  destruct Ho as (i & Hm & Hcx). destruct (Hi m i Hm) as (i' & Hm' & Hcx' & _). exists i'. split; [done|congruence].
Qed.

Lemma works_cont n K o g : seg_works n K o g → works n K o (Step (λ s, Some (g s))).
Proof. intros Hg. constructor. intros s s' p Hw Hk [= Heq]. specialize (Hg s Hw Hk). by rewrite Heq in Hg. Qed.

Section lease.
Context (n : nat) (K : string) (o : option (nat * Closure)).

Lemma sw_do f k : (∀ s, winv (sv_store s) → G s (f s)) → seg_works n K o (k (inr tt)) → seg_works n K o (do_ f k).
Proof.
  intros Hf Hk s Hw Hs. specialize (Hf s Hw). apply (Hk (f s)); [by eapply G_winv|by eapply knows_G].
Qed.

Lemma sw_ask {A} (f : Svc → A) k : (∀ a, seg_works n K o (k (inr a))) → seg_works n K o (ask f k).
Proof. intros Hk s Hw Hs. by apply Hk. Qed.

Lemma sw_wait {A} (cond : Svc → option (string + A)) k :
  (∀ r, seg_works n K o (k r)) → seg_works n K o (wait_for cond k).
Proof.
  intros Hk s Hw Hs. right. exists o. split; [done|]. cbn. constructor. intros s1 s' p Hw1 Hk1.
  destruct (cond s1) as [r|]; [|done]. intros [= Heq]. specialize (Hk r s1 Hw1 Hk1). by rewrite Heq in Hk.
Qed.

(** A call that settles the lease with some of its answers. *)
Lemma sw_call_post {A} (m : RT A) k :
  safe_rt m →
  (∀ s, winv (sv_store s) → knows n K o s →
     (∀ K', ¬ leased_to (owner n) K' (w_st (m (sv_store s)).2)) ∨ seg_works n K o (k (co_result (m (sv_store s)).1))) →
  seg_works n K o (call m k).
Proof.
  intros Hm Hpost s Hw Hs. specialize (Hm _ Hw). specialize (Hpost s Hw Hs). unfold call.
  destruct (m (sv_store s)) as [r w]. cbn in *. destruct Hpost as [Hno|Hk]; [left; by left|right].
  exists o. split; [|by apply works_cont]. eapply knows_G; [|exact Hs]. by apply G_set_store.
Qed.

Lemma sw_call {A} (m : RT A) k : safe_rt m → (∀ r, seg_works n K o (k r)) → seg_works n K o (call m k).
Proof. intros Hm Hk. apply sw_call_post; [done|]. intros s Hw Hs. right. apply Hk. Qed.

(** Functions whose errors are left to others; when they return, the lease is settled. *)
Definition settles_or_throws {A} (m : Co A) : Prop :=
  ∀ k, (∀ e, seg_works n K o (k (inl e))) → seg_works n K o (m k).

Lemma st_throw {A} e : settles_or_throws (co_throw e : Co A).
Proof. intros k Hk. apply Hk. Qed.
Lemma st_call_bind {A B} (m : RT A) (f : A → Co B) :
  safe_rt m → (∀ a, settles_or_throws (f a)) → settles_or_throws (call m ≫= f).
Proof. intros Hm Hf k Hk. apply sw_call; [done|]. intros [e|a]; [apply Hk|by apply Hf]. Qed.
Lemma st_append_bind {B} cx m (f : unit → Co B) :
  settles_or_throws (f tt) → settles_or_throws (append_event cx m ≫= f).
Proof. intros Hf k Hk. apply sw_call; [apply safe_append|]. intros [e|a]; [apply Hk|by apply Hf]. Qed.
Lemma st_ask_bind {A B} (g : Svc → A) (f : A → Co B) :
  (∀ a, settles_or_throws (f a)) → settles_or_throws (ask g ≫= f).
Proof. intros Hf k Hk. apply sw_ask. intros a. by apply Hf. Qed.
Lemma st_do_bind {B} g (f : unit → Co B) :
  (∀ s, winv (sv_store s) → G s (g s)) → settles_or_throws (f tt) → settles_or_throws (do_ g ≫= f).
Proof. intros Hg Hf k Hk. apply sw_do; [done|]. by apply Hf. Qed.
Lemma st_wait_bind {A B} (cond : Svc → option (string + A)) (f : A → Co B) :
  (∀ a, settles_or_throws (f a)) → settles_or_throws (wait_for cond ≫= f).
Proof. intros Hf k Hk. apply sw_wait. intros [e|a]; [apply Hk|by apply Hf]. Qed.
End lease.

(** ** The answers that settle a lease *)

Lemma not_leased_at n K s : held n K s → ¬ leased_to (owner n) K (store_of s) → ∀ K', ¬ leased_to (owner n) K' (store_of s).
Proof. intros [_ Hh] Hno K' HK'. specialize (Hh K' HK') as ->. done. Qed.

Lemma held_after {A} (m : RT A) n K s :
  safe_rt m → winv (sv_store s) → held n K s → ¬ leased_to (owner n) K (w_st (m (sv_store s)).2) →
  ∀ K', ¬ leased_to (owner n) K' (w_st (m (sv_store s)).2).
Proof.
  intros Hm Hw Hh Hno K' HK'. destruct (Hm _ Hw) as [_ Hl]. destruct (Hl n) as [Hl1 _].
  assert (K' = K) as -> by (apply Hh; auto). done.
Qed.

Lemma failRun_settles c r i w :
  complete_context c → ¬ leased_to (fa_leaseOwner i) (runKey c r) (w_st (failRun c r i w).2).
Proof.
  intros Hc. unfold failRun, scopedRun, alter_run, redactBrowserRun. mrun. rewrite Hc. cbn.
  destruct (jget (runKey c r) (st_runs (w_st w))) as [x|] eqn:Hx; cbn.
  2:{ intros (y & Hy & _). congruence. }
  destruct (_ || _) eqn:Hg; cbn.
  - intros (y & Hy & Hst & Ho). rewrite Hx in Hy. injection Hy as <-. rewrite Hst, Ho in Hg. unfold eqos in Hg.
    rewrite !bool_decide_true in Hg by done. discriminate Hg.
  - intros (y & Hy & Hst & _). cbn in Hy. rewrite jget_jalter, decide_True, Hx in Hy by done. injection Hy as <-. discriminate Hst.
Qed.

Lemma completeRun_settles c r i w a o :
  (completeRun c r i w).1 = inr a → ¬ leased_to o (runKey c r) (w_st (completeRun c r i w).2).
Proof.
  unfold completeRun, requireLeasedRun, alter_run, redactBrowserRun. mrun.
  destruct (scopedRun_cases c r w) as [->|[e ->]]; [|discriminate].
  destruct (jget (runKey c r) (st_runs (w_st w))) as [x|] eqn:Hx; [|discriminate].
  destruct (_ || _); [discriminate|]. destruct (js_findIndex _ _); [|discriminate]. cbn.
  intros _ (y & Hy & Hst & _). cbn in Hy. rewrite jget_jalter, decide_True, Hx in Hy by done. injection Hy as <-. discriminate Hst.
Qed.

(** ** A turn settles its lease *)

Section turn.
Context (n m : nat) (K : string) (cx : Closure).
Hypothesis Hctx : complete_context (cx_context cx).
Hypothesis Hkey : runKey (cx_context cx) (cx_runId cx) = K.
Hypothesis Howner : cx_leaseOwner cx = owner n.
Abbreviation o := (Some (m, cx)).

Lemma complete_turn_settles content : settles_or_throws n K o (complete_turn m cx content).
Proof.
  intros k Hk. unfold complete_turn. apply sw_call_post; [apply safe_complete|]. intros s Hw [Hh _].
  destruct (completeRun _ _ _ (sv_store s)).1 as [e|a] eqn:Hr; [right; apply Hk|left].
  apply (held_after _ n K s); [apply safe_complete|done|done|]. rewrite <-Hkey. by eapply completeRun_settles.
Qed.

(** Once the invocation takes the turn for parked, the rest of the segment does not matter. *)
Lemma parked_settles {B} (g : Co B) (k : string + B → Seg) :
  (∀ s, (∃ i, sv_invocations s !! m = Some i ∧ inv_cx i = cx ∧ inv_parkedForBrowser i = true) →
    ∃ i, sv_invocations (g k s).1 !! m = Some i ∧ inv_cx i = cx ∧ inv_parkedForBrowser i = true) →
  seg_works n K o ((do_ (update_inv m (set_inv_parkedForBrowser true)) ≫= λ _, g) k).
Proof.
  intros Hg s Hw [_ (i & Hi & Hcx)]. left. right. exists m.
  destruct (Hg (update_inv m (set_inv_parkedForBrowser true) s)) as (i' & Hi' & Hcx' & Hp').
  - exists (set_inv_parkedForBrowser true i). cbn. by rewrite list_lookup_alter_eq, Hi.
  - exists i'. split_and!; [exact Hi'|by rewrite Hcx'|done].
Qed.

Lemma parked_rest cx' phase reason more k s :
  (∃ i, sv_invocations s !! m = Some i ∧ inv_cx i = cx ∧ inv_parkedForBrowser i = true) →
  ∃ i, sv_invocations ((version ← next_version m; append_event cx' (activity_event cx' version phase reason more)) k s).1 !! m
    = Some i ∧ inv_cx i = cx ∧ inv_parkedForBrowser i = true.
Proof.
  intros (i & Hi & Hcx & Hp). unfold next_version, append_event, ask, do_, sync, call, mbind, Co_bind, mret, Co_ret.
  destruct (appendEvent _ _ _ _) as [r w]. cbn. rewrite list_lookup_alter_eq, Hi. by eexists.
Qed.

Lemma park_turn_settles st t op p x :
  settles_or_throws n K o (park_turn parse_browser_url sha256 browserBrokerService m cx st t op p x).
Proof.
  unfold park_turn. destruct browserBrokerService as [b|]; [|apply st_throw]. destruct (_ <=? _)%nat; [apply st_throw|].
  apply st_call_bind; [apply safe_dispatch|]. intros d k Hk. apply parked_settles. intros s. apply parked_rest.
Qed.

Lemma turn_settles cl : settles_or_throws n K o (turn parse_browser_url sha256 browserBrokerService m cx cl).
Proof.
  unfold turn. apply st_append_bind, st_ask_bind. intros v. apply st_append_bind.
  assert (Hrest : ∀ grant, settles_or_throws n K o (
    providerConfig ← ask (λ s, sv_providerConfigs s !! runScopeKey (cx_context cx) (cx_runId cx));
    _ ← do_ (update_inv m (set_inv_input (Some (mkTurnInput (cl_messages cl) (cl_steps cl) providerConfig
               (if run_turnSequence (cl_run cl) =? 0 then cl_onboardingContext cl else None)
               (match grant with Some g => grant_enabled g | None => false end)))));
    execution ← wait_for (λ s, read_inv None inv_execution m s);
    renewFailed ← ask (read_inv false inv_renewFailed m);
    if (renewFailed : bool) then co_throw "Concurrent runtime lease was lost."
    else match execution with
         | turn_browser_action t op p x =>
             park_turn parse_browser_url sha256 browserBrokerService m cx (cl_steps cl) t op p x
         | turn_complete content | turn_text content => complete_turn m cx content
         end)).
  { intros grant. apply st_ask_bind. intros pc. apply st_do_bind; [intros; by apply G_update_inv|].
    apply st_wait_bind. intros ex. apply st_ask_bind. intros [|]; [apply st_throw|].
    destruct ex; [apply complete_turn_settles..|apply park_turn_settles]. }
  destruct browserBrokerService; [|exact (Hrest None)]. apply st_call_bind; [apply safe_grant|exact Hrest].
Qed.

Lemma turn_failed_settles message k : seg_works n K o (turn_failed m cx message k).
Proof.
  unfold turn_failed. apply sw_call_post; [apply safe_getRun|]. intros s Hw Hs. pose proof Hs as [Hh _].
  unfold getRun, scopedRun. mrun. rewrite Hctx. cbn. rewrite Hkey.
  assert (Hrest : seg_works n K o ((
      code ← failure_code m;
      terminal ← call (failRun (cx_context cx) (cx_runId cx) (mkFailInput code message (cx_leaseOwner cx)));
      _ ← do_ (update_inv m (set_inv_terminal terminal));
      code ← failure_code m;
      append_event cx [("type", JStr "error"); ("message", JStr message); ("code", JStr code);
                       ("requestId", JStr (cx_requestId cx)); ("conversationId", JStr (cx_conversationId cx))]) k)).
  { unfold failure_code. apply sw_ask. intros f. apply sw_call_post; [apply safe_fail|]. intros s1 Hw1 [Hh1 _].
    left. apply (held_after _ n K s1); [apply safe_fail|done|done|].
    rewrite <-Hkey, <-Howner. by apply failRun_settles. }
  assert (Hnot : ∀ r, jget K (st_runs (store_of s)) = Some r → run_status r ≠ processing →
    ∀ K', ¬ leased_to (owner n) K' (store_of s)).
  { intros r Hr Hst. eapply not_leased_at; [done|]. intros (r' & Hr' & Hst' & _). congruence. }
  destruct (jget K (st_runs (store_of s))) as [r|] eqn:Hr; cbn; [|right; exact Hrest].
  destruct (run_status r) eqn:Hst; try (right; exact Hrest); left; apply (Hnot r); congruence.
Qed.

Lemma turn_all_settles cl fin k :
  seg_works n K o (try_finally (try_catch (turn parse_browser_url sha256 browserBrokerService m cx cl) (turn_failed m cx)) fin k).
Proof. unfold try_finally, try_catch. apply turn_settles. intros e. apply turn_failed_settles. Qed.
End turn.

Lemma sw_uuid n K o k : (∀ u, seg_works n K o (k (inr u))) → seg_works n K o (local_rt randomUUID k).
Proof.
  intros Hk s Hw Hs. pose proof (G_set_store _ s (safe_randomUUID _ Hw)) as HG.
  apply (Hk (random_uuid (w_uuid (sv_store s))) (set_store ((randomUUID : RT string) (sv_store s)).2 s));
    [by eapply G_winv|by eapply knows_G].
Qed.

Lemma sw_begin n K cx k :
  (∀ m, seg_works n K (Some (m, cx)) (k (inr m))) → seg_works n K None (sync (begin_invocation cx) k).
Proof.
  intros Hk s Hw [Hh _]. unfold sync. pose proof (G_begin cx s Hw) as HG.
  destruct (begin_invocation cx s) as [m s2] eqn:Hb. cbn in HG. apply Hk; [by eapply G_winv|].
  split; [eapply held_wstep; [apply HG|done]|]. exists (new_invocation cx).
  unfold begin_invocation in Hb. injection Hb as <- <-. cbn. by rewrite lookup_app_r, Nat.sub_diag.
Qed.

Lemma run_claimed_works n K r cl k :
  complete_context (cl_context cl) → runKey (cl_context cl) r = K →
  seg_works n K None (run_claimed parse_browser_url sha256 browserBrokerService r (owner n) cl k).
Proof.
  intros Hctx Hkey. unfold run_claimed. apply sw_uuid. intros u. apply sw_begin. intros m.
  by apply turn_all_settles.
Qed.

(** ** Claiming *)

Lemma claim_winv c r n e w :
  winv w → (n < w_uuid w)%nat → winv (claimRun c r (owner n) e w).2 ∧ (w_uuid w ≤ w_uuid (claimRun c r (owner n) e w).2)%nat
    ∧ ∀ m, m ≠ n → lease_le (owner m) w (claimRun c r (owner n) e w).2.
Proof.
  intros Hw Hn. set (w' := (claimRun c r (owner n) e w).2).
  assert (Hle : ∀ m, m ≠ n → lease_le (owner m) w w').
  { intros m Hm. apply lease_claim. intros Heq%owner_inj. done. }
  assert (Hu : (w_uuid w ≤ w_uuid w')%nat) by apply (Hle (S n)), Nat.neq_succ_diag_l.
  split_and!; [|done|done]. apply (exec_winv (OpClaim c r (owner n) e)); [done|]. intros m K Hm Hl.
  change (w_uuid w' ≤ m)%nat in Hm. assert (Hmn : m ≠ n) by lia.
  destruct (Hle m Hmn) as [Hle1 _]. apply (wi_fresh w Hw m K); [lia|by apply Hle1].
Qed.

(** A successful claim by an owner that has no lease. *)
Lemma claim_facts c r n e w cl w' :
  winv w → (∀ K, ¬ leased_to (owner n) K (w_st w)) → claimRun c r (owner n) e w = (inr (Some cl), w') →
  (∀ K, leased_to (owner n) K (w_st w') → K = runKey c r) ∧
  complete_context (cl_context cl) ∧ runKey (cl_context cl) r = runKey c r.
Proof.
  intros Hw Hno Heq. pose proof (claimRun_cases c r (owner n) e w (wi_ledger w Hw)) as Hcase. rewrite Heq in Hcase.
  destruct Hcase as (run & i & user & Hrun & _ & _ & Hcl & Hruns & _ & _ & _ & Hctx).
  split_and!.
  - intros K (x & Hx & Hh). rewrite Hruns, jget_jalter in Hx. case_decide; [done|].
    destruct (Hno K). by exists x.
  - by eapply (wi_contexts w Hw).
  - destruct (backed_found w c r run (wi_ledger w Hw) Hrun) as (_ & _ & c0 & Hsc & _ & _ & Hctx0).
    rewrite Hctx in Hctx0. injection Hctx0 as ->. unfold runKey, actorKey.
    change (actorScopeKey (run_context c0 (run_conversationId run) (run_idempotencyKey run))) with (actorScopeKey c0).
    by rewrite Hsc.
Qed.

(** Any outcome of the claim that [processRun] makes for a fresh owner. *)
Lemma claim_outcome c r e s w1 :
  winv (sv_store s) → wstep (sv_store s) w1 → (w_uuid (sv_store s) < w_uuid w1)%nat →
  let n := w_uuid (sv_store s) in
  let '(res, w2) := claimRun c r (owner n) e w1 in
  G s (set_store w2 s) ∨
  ∃ cl, res = inr (Some cl) ∧ winv w2 ∧ (n ≤ w_uuid w2)%nat
    ∧ (∀ m, m ≠ n → lease_le (owner m) (sv_store s) w2)
    ∧ held n (runKey c r) (set_store w2 s)
    ∧ complete_context (cl_context cl) ∧ runKey (cl_context cl) r = runKey c r.
Proof.
  intros Hw [Hw1 Hl1] Hlt n.
  assert (Hno : ∀ K, ¬ leased_to (owner n) K (w_st w1)).
  { intros K HK. apply (wi_fresh _ Hw n K); [done|]. by apply Hl1. }
  pose proof (claim_winv c r n e w1 Hw1 Hlt) as (Hw2 & Hu & Hle).
  pose proof (claimRun_cases c r (owner n) e w1 (wi_ledger _ Hw1)) as Hcase.
  pose proof (claim_facts c r n e w1) as Hfacts.
  destruct (claimRun c r (owner n) e w1) as [res w2]. cbn in Hw2, Hu, Hle.
  assert (Hsame : w_st w2 = w_st w1 → G s (set_store w2 s)).
  { intros Hst. apply G_set_store. split; [done|]. intros m. etrans; [apply Hl1|]. split; [by rewrite Hst|done]. }
  destruct res as [er|[cl|]].
  - left. apply Hsame. by destruct Hcase as [_ ->].
  - right. exists cl. destruct (Hfacts cl w2 Hw1 Hno eq_refl) as (Hheld & Hc & Hk).
    split_and!; try done; [lia|..].
    + intros m Hm. etrans; [apply Hl1|by apply Hle].
    + split; [cbn; lia|done].
  - left. by apply Hsame.
Qed.

Lemma ok_process c r : co_ok (processRun parse_browser_url sha256 workerId leaseDurationMs browserBrokerService c r).
Proof.
  intros E k HE Hk s Hw. unfold processRun, local_rt, call, mbind, Co_bind. mrun.
  set (w1 := mkWorld (S _) (S _) _).
  assert (Hw1 : wstep (sv_store s) w1).
  { pose proof (safe_counters _ (S (w_clock (sv_store s))) 1 Hw) as H. by rewrite Nat.add_1_r in H. }
  pose proof (claim_outcome c r (date_now (w_clock (sv_store s)) + leaseDurationMs) s w1 Hw Hw1 ltac:(cbn; lia)) as Hout.
  cbv zeta in Hout. fold (owner (w_uuid (sv_store s))).
  destruct (claimRun _ _ _ _ w1) as [res w2]. change (set_store w2 (set_store w1 _)) with (set_store w2 s).
  right. split.
  - destruct Hout as [HG|(cl & -> & Hw2 & Hu & Hle & Hh & Hc & Hkey)]; [by left|right]. cbn.
    split_and!; [done|done|by apply inv_mono_eq|by apply sched_ext_eq|].
    exists (w_uuid (sv_store s)), (runKey c r). split_and!; [lia|done|exact (conj Hh I)|].
    apply works_cont. by apply run_claimed_works.
  - cbn. apply proc_ok_cont. destruct res as [er|[cl|]]; cbn; [apply Hk|by apply ok_claimed|].
    intros s2 Hs2. apply co_ok_do; [intros; by apply G_clear|done|apply Hk|done].
Qed.

(** ** The system *)

(** The last segment of a function; a task's also takes its run off the scheduled ones. *)
Definition ended (tag : option string) (s s' : Svc) : Prop :=
  match tag with
  | None => G s s'
  | Some key => ∃ mid, G s mid ∧ sv_store s' = sv_store mid ∧ sv_invocations s' = sv_invocations mid
      ∧ sv_pending s' = sv_pending mid ∧ sv_scheduledRuns s' = sv_scheduledRuns mid ∖ {[key]}
  end.

Lemma ended_absorbs tag : absorbs (ended tag).
Proof.
  destruct tag as [key|]; intros s s1 s2 HG; [|by apply G_trans].
  intros (mid & Hm & Hrest). exists mid. split; [by eapply G_trans|done].
Qed.

Lemma start_ok {A} (m : Co A) : co_ok m → seg_ok (ended None) (start_co m).
Proof. intros Hm. apply Hm; [apply ended_absorbs|]. intros r s Hw. left. split; [done|by apply G_refl]. Qed.

Lemma task_ok c r :
  seg_ok (ended (Some (runScopeKey c r)))
    (start_co (run_task parse_browser_url sha256 workerId leaseDurationMs browserBrokerService c r)).
Proof.
  assert (Hlock : co_ok (withConversationLock c
    (processRun parse_browser_url sha256 workerId leaseDurationMs browserBrokerService c r))).
  { unfold withConversationLock. apply co_ok_bind.
    - apply co_ok_sync. own_maps.
    - intros caller. apply co_ok_bind; [apply co_ok_wait|]. intros _. apply co_ok_finally; [apply ok_process|].
      apply co_ok_do. own_maps. }
  unfold start_co, run_task, try_finally. apply Hlock; [apply ended_absorbs|].
  intros e s Hw. left. split; [by destruct e|]. exists s. split; [by apply G_refl|]. by destruct e.
Qed.

(** The runs the scheduler has a task for, pending or under way. *)
Definition tasks (s : Svc) (ts : list Thread) : list string := run_keys (sv_pending s) ++ omap th_task ts.

(** The tasks are for distinct runs, and [scheduledRuns] holds just those. *)
Definition sched_ok (s : Svc) (l : list string) : Prop := NoDup l ∧ sv_scheduledRuns s = list_to_set l.

Lemma sched_ok_perm s l l' : l ≡ₚ l' → sched_ok s l → sched_ok s l'.
Proof.
  intros Hp [Hn Hs]. split; [by rewrite <-Hp|]. rewrite Hs. apply set_eq. intros k. by rewrite !elem_of_list_to_set, Hp.
Qed.

Lemma sched_ok_ext s s' l :
  sched_ext s s' → sched_ok s (run_keys (sv_pending s) ++ l) → sched_ok s' (run_keys (sv_pending s') ++ l).
Proof.
  intros (l1 & Hp & Hn1 & Hf & Hs1) [Hn Hs]. unfold run_keys in *. rewrite Hp, fmap_app.
  apply (sched_ok_perm _ (((λ '(c, r), runScopeKey c r) <$> l1) ++ ((λ '(c, r), runScopeKey c r) <$> sv_pending s) ++ l)).
  { by rewrite app_assoc, (Permutation_app_comm (_ <$> l1) (_ <$> sv_pending s)). }
  split.
  - apply NoDup_app. split_and!; [done| |done]. intros k Hk Hk2. apply (Hf k Hk). rewrite Hs. set_solver.
  - rewrite Hs1, Hs, !list_to_set_app_L. set_solver.
Qed.

Lemma sched_ok_remove s s' k l :
  sv_scheduledRuns s' = sv_scheduledRuns s ∖ {[k]} → sched_ok s (k :: l) → sched_ok s' l.
Proof.
  intros Hs' [[Hk Hn]%NoDup_cons Hs]. split; [done|]. rewrite Hs', Hs. cbn. set_solver.
Qed.

Definition lease_covered (n : nat) (s : Svc) (ts : list Thread) : Prop :=
  settled n s ∨ ∃ th K o, th ∈ ts ∧ knows n K o s ∧ works n K o (th_proc th).

Record sys_inv (s : Svc) (ts : list Thread) : Prop := {
  yi_store : winv (sv_store s);
  yi_threads : ∀ th, th ∈ ts → proc_ok (ended (th_task th)) (th_proc th);
  yi_tasks : sched_ok s (tasks s ts);
  yi_leases : ∀ n, lease_covered n s ts;
}.

Lemma sys_inv_perm s ts ts' : ts ≡ₚ ts' → sys_inv s ts → sys_inv s ts'.
Proof.
  intros Hp [Hw Ht Hs Hl]. split; [done| | |].
  - intros th. rewrite <-Hp. apply Ht.
  - eapply sched_ok_perm; [|exact Hs]. unfold tasks. by rewrite Hp.
  - intros n. destruct (Hl n) as [H|(th & K & o & Hin & H)]; [by left|right]. exists th, K, o. by rewrite <-Hp.
Qed.

Lemma settled_step n s s' : lease_le (owner n) (sv_store s) (sv_store s') → inv_mono s s' → settled n s → settled n s'.
Proof.
  intros [Hl _] Hi [Hno|(m & i & Hm & Ho & Hp)]; [left|right].
  - intros K HK. apply (Hno K). auto.
  - destruct (Hi m i Hm) as (i' & Hm' & Hc & Hp'). exists m, i'. split_and!; [done|congruence|auto].
Qed.

Lemma knows_step n K o s s' : lease_le (owner n) (sv_store s) (sv_store s') → inv_mono s s' → knows n K o s → knows n K o s'.
Proof.
  intros [Hl Hu] Hi [[Hn Hh] Ho]. split; [split; [lia|intros K' HK; auto]|]. destruct o as [[m cx]|]; [|done].
  destruct Ho as (i & Hm & Hcx). destruct (Hi m i Hm) as (i' & Hm' & Hcx' & _). exists i'. split; [done|congruence].
Qed.

Lemma covered_step n s s' ts :
  lease_le (owner n) (sv_store s) (sv_store s') → inv_mono s s' → lease_covered n s ts → lease_covered n s' ts.
Proof.
  intros Hl Hi [H|(th & K & o & Hin & Hk & Hw)]; [left; by eapply settled_step|right].
  exists th, K, o. split_and!; [done|by eapply knows_step|done].
Qed.

Lemma covered_more n s ts ts' : lease_covered n s ts → lease_covered n s (ts ++ ts').
Proof. intros [H|(th & K & o & Hin & H)]; [by left|right]. exists th, K, o. split; [set_solver|done]. Qed.

Lemma works_not_done n K o : ¬ works n K o Done.
Proof. inversion 1. Qed.
Lemma proc_ok_not_done E : ¬ proc_ok E Done.
Proof. inversion 1. Qed.
Lemma keep_step tag p : p ≠ Done → keep_thread tag p = [mkThread tag p].
Proof. by destruct p. Qed.

(** What a segment of the thread [tag] leaves of the leases it may work for. *)
Definition leases_after (s s' : Svc) (p : proc) (others : list Thread) : Prop :=
  ∀ n, lease_covered n s others ∨ settled n s' ∨ ∃ K o, knows n K o s' ∧ works n K o p.

Lemma segment_inv s s' p tag others :
  (∀ th, th ∈ others → proc_ok (ended (th_task th)) (th_proc th)) →
  sched_ok s (run_keys (sv_pending s) ++ option_list tag ++ omap th_task others) →
  leases_after s s' p others → winv (sv_store s) → res_ok (ended tag) s (s', p) →
  sys_inv s' (others ++ keep_thread tag p).
Proof.
  intros Hth Hs Hl Hw [[Hp Hend]|[Hgc Hok]]; cbn in *.
  - subst p. cbn. rewrite app_nil_r.
    assert (Hmid : ∃ mid, G s mid ∧ sv_store s' = sv_store mid ∧ sv_invocations s' = sv_invocations mid
              ∧ sched_ok s' (run_keys (sv_pending s') ++ omap th_task others)).
    { destruct tag as [key|].
      - destruct Hend as (mid & HG & Hst & Hi & Hp & Hsch). exists mid. split_and!; [done..|].
        apply (sched_ok_ext s mid) in Hs; [|apply HG]. rewrite Hp. eapply sched_ok_remove; [exact Hsch|].
        eapply sched_ok_perm; [|exact Hs]. cbn. by rewrite Permutation_middle.
      - exists s'. split_and!; try done. apply (sched_ok_ext s s'); [apply Hend|exact Hs]. }
    destruct Hmid as (mid & HG & Hst & Hi & Hs'). split; [rewrite Hst; by eapply G_winv|done|done|].
    intros n. destruct (Hl n) as [Hc|[Hset|(K & o & _ & Hwk)]]; [|by left|by apply works_not_done in Hwk].
    eapply covered_step; [..|exact Hc]; [rewrite Hst; apply HG|].
    eapply inv_mono_trans; [apply HG|by apply inv_mono_eq].
  - rewrite keep_step by (intros ->; by eapply proc_ok_not_done).
    assert (Hgl : winv (sv_store s') ∧ sched_ext s s' ∧ inv_mono s s').
    { destruct Hgc as [[[? ?] ? ?]|(? & ? & ? & ? & _)]; by split_and!. }
    destruct Hgl as (Hw' & Hse & Him). split; [done| | |].
    + intros th [Hin|Hin%list_elem_of_singleton]%elem_of_app; [by apply Hth|]. subst th. exact Hok.
    + eapply sched_ok_perm; [|exact (sched_ok_ext s s' _ Hse Hs)]. unfold tasks. apply Permutation_app_head.
      rewrite omap_app, Permutation_app_comm. apply Permutation_app_head. by destruct tag.
    + intros n.
      assert (Hthis : ∀ K o, knows n K o s' → works n K o p → lease_covered n s' (others ++ [mkThread tag p])).
      { intros K o Hk Hwk. right. exists (mkThread tag p), K, o. split; [set_solver|done]. }
      destruct (Hl n) as [Hc|[Hset|(K & o & Hk & Hwk)]]; [|by left|by eapply Hthis].
      destruct Hgc as [[[_ Hle] _ _]|(_ & _ & _ & _ & n0 & K0 & _ & Hle & Hk & Hwk)].
      * apply covered_more. eapply covered_step; [apply Hle|done|done].
      * destruct (decide (n = n0)) as [->|Hne]; [by eapply Hthis|].
        apply covered_more. eapply covered_step; [by apply Hle|done|done].
Qed.

Abbreviation step := (sys_step parse_browser_url sha256 workerId leaseDurationMs browserBrokerService).
Abbreviation reached := (sys_reachable parse_browser_url sha256 workerId leaseDurationMs browserBrokerService).
Abbreviation invariant y := (sys_inv (sys_svc y) (sys_threads y)).

Lemma spawn_inv tag seg s ts :
  seg_ok (ended tag) seg → (∀ th, th ∈ ts → proc_ok (ended (th_task th)) (th_proc th)) →
  sched_ok s (run_keys (sv_pending s) ++ option_list tag ++ omap th_task ts) → (∀ n, lease_covered n s ts) →
  winv (sv_store s) → invariant (spawn tag seg ts s).
Proof.
  intros Hseg Hth Hs Hl Hw. specialize (Hseg s Hw). unfold spawn. destruct (seg s) as [s' p]. cbn.
  eapply segment_inv; [done|exact Hs| |done|exact Hseg]. intros n. by left.
Qed.

Lemma spawn_free seg s ts : seg_ok (ended None) seg → sys_inv s ts → invariant (spawn None seg ts s).
Proof. intros Hseg [Hw Hth Hs Hl]. by apply spawn_inv. Qed.

Lemma inv_G s s' ts : sys_inv s ts → G s s' → sys_inv s' ts.
Proof.
  intros [Hw Hth Hs Hl] HG. split; [by eapply G_winv|done|eapply sched_ok_ext; [apply HG|exact Hs]|].
  intros n. eapply covered_step; [apply HG|apply HG|apply Hl].
Qed.

Lemma remove_nth {A} i (x : A) l : l !! i = Some x → l ≡ₚ x :: take i l ++ drop (S i) l.
Proof. intros Hi. rewrite <-(take_drop_middle l i x Hi) at 1. by rewrite Permutation_middle. Qed.

Lemma thread_inv i tag f s s' p ts :
  ts !! i = Some (mkThread tag (Step f)) → f s = Some (s', p) → sys_inv s ts →
  sys_inv s' (take i ts ++ keep_thread tag p ++ drop (S i) ts).
Proof.
  intros Hi Hf Hinv. pose proof (remove_nth _ _ _ Hi) as Hp. set (others := take i ts ++ drop (S i) ts) in *.
  apply (sys_inv_perm _ _ _ Hp) in Hinv. destruct Hinv as [Hw Hth Hs Hl].
  apply (sys_inv_perm _ (others ++ keep_thread tag p)).
  { unfold others. rewrite <-!app_assoc. apply Permutation_app_head, Permutation_app_comm. }
  apply (segment_inv s).
  - intros th Hin. apply Hth. set_solver.
  - eapply sched_ok_perm; [|exact Hs]. unfold tasks. cbn. by destruct tag.
  - intros n. destruct (Hl n) as [H|(th & K & o & [->|Hin]%elem_of_cons & Hk & Hwk)]; [by left; left| |].
    + cbn in Hwk. inversion Hwk as [f0 Hstep]; subst. destruct (Hstep s s' p Hw Hk Hf) as [H|(o' & H)]; right; [by left|right].
      by exists K, o'.
    + left. right. by exists th, K, o.
  - done.
  - specialize (Hth (mkThread tag (Step f)) ltac:(set_solver)). cbn in Hth. inversion Hth as [f0 Hstep]; subst.
    exact (Hstep s s' p Hw Hf).
Qed.

Lemma task_start_inv i c r s ts :
  sv_pending s !! i = Some (c, r) → sys_inv s ts →
  invariant (spawn (Some (runScopeKey c r))
    (start_co (run_task parse_browser_url sha256 workerId leaseDurationMs browserBrokerService c r)) ts
    (set_pending (take i (sv_pending s) ++ drop (S i) (sv_pending s)) s)).
Proof.
  intros Hi [Hw Hth Hs Hl]. apply spawn_inv; [apply task_ok|done| | |done].
  - destruct Hs as [Hnd Hss]. eapply sched_ok_perm; [|by split]. unfold tasks, run_keys. cbn.
    rewrite (remove_nth _ _ _ Hi) at 1. cbn. by rewrite Permutation_middle.
  - intros n. eapply covered_step; [reflexivity|by apply inv_mono_eq|apply Hl].
Qed.

Lemma G_store_config key c s s0 :
  sv_store s0 = sv_store s → inv_mono s s0 → sv_pending s0 = sv_pending s → sv_scheduledRuns s0 = sv_scheduledRuns s →
  winv (sv_store s) → G s (store_config key c s0).
Proof. intros H1 H2 H3 H4 Hw. by apply G_local. Qed.

Lemma api_ok a : seg_ok (ended None) (api_start sha256 a).
Proof.
  destruct a; apply start_ok; [apply ok_submit|apply ok_cancel|apply ok_cancel_conversation|apply ok_resume|apply ok_browser_result].
Qed.

Lemma step_inv e y y' : event_ok workerId e → step e y = Some y' → invariant y → invariant y'.
Proof.
  intros He Hst Hinv. destruct y as [s ts]. pose proof (yi_store _ _ Hinv) as Hw.
  destruct e as [i|i|a|n|n text|n r|p r|p|o]; cbn [sys_step sys_svc sys_threads] in *.
  - destruct (ts !! i) as [[tag [|f]]|] eqn:Hi; try discriminate.
    destruct (f s) as [[s' p]|] eqn:Hf; [|discriminate]. injection Hst as <-. by eapply thread_inv.
  - destruct (sv_pending s !! i) as [[c r]|] eqn:Hi; [|discriminate]. injection Hst as <-. by apply task_start_inv.
  - injection Hst as <-. apply spawn_free; [apply api_ok|done].
  - destruct (sv_invocations s !! n); [|discriminate]. case_bool_decide; [|discriminate]. injection Hst as <-.
    apply spawn_free; [apply start_ok, ok_renew|done].
  - destruct (sv_invocations s !! n); [|discriminate]. case_bool_decide; [|discriminate]. injection Hst as <-.
    apply spawn_free; [apply start_ok, ok_delta|done].
  - destruct (sv_invocations s !! n); [|discriminate]. destruct (_ && _); [|discriminate]. injection Hst as <-.
    eapply inv_G; [exact Hinv|]. by apply G_update_inv.
  - destruct (sv_promises s !! p) as [[key []]|]; try discriminate. injection Hst as <-.
    eapply inv_G; [exact Hinv|]. destruct r; [by apply G_local; [..|apply inv_mono_eq| |]|].
    by apply G_store_config; [|apply inv_mono_eq|..].
  - destruct (sv_promises s !! p) as [[key []]|]; try discriminate. injection Hst as <-.
    eapply inv_G; [exact Hinv|]. by apply G_local; [..|apply inv_mono_eq| |].
  - injection Hst as <-. eapply inv_G; [exact Hinv|]. apply G_set_store. apply exec_safe; [|done].
    intros n c r e ->. by apply (He (random_uuid n)).
Qed.

Lemma reached_inv y : reached y → invariant y.
Proof.
  induction 1 as [|e y y' _ IH He Hst]; [|by eapply step_inv]. split.
  - apply winv_init.
  - intros th Hin. by apply elem_of_nil in Hin.
  - split; [constructor|done].
  - intros n. left. left. intros K (r & Hr & _). discriminate Hr.
Qed.

(** ** Claims *)

(** C6. No lease is left behind: in every reachable state of the system, a run
    leased by the service has a function under way that does not end before the
    lease is completed, failed, parked, cancelled or taken over; the only exception
    is an invocation that took its turn for parked, which by [dispatch_parks_run]
    happens with the lease still held only for a tool use dispatched before. *)
Theorem lease_has_worker y n K :
  reached y → leased_to (owner n) K (store_of (sys_svc y)) →
  (∃ th o, th ∈ sys_threads y ∧ works n K o (th_proc th)) ∨
  ∃ m i, sv_invocations (sys_svc y) !! m = Some i ∧ cx_leaseOwner (inv_cx i) = owner n ∧ inv_parkedForBrowser i = true.
Proof.
  intros Hy%reached_inv HK. destruct (yi_leases _ _ Hy n) as [[Hno|Hp]|(th & K' & o & Hin & [[_ Hh] _] & Hwk)].
  - by destruct (Hno K).
  - by right.
  - left. exists th, o. by rewrite (Hh K HK).
Qed.

(** A run is in the hands of at most one task of the service, pending in
    the scheduler or under way, and the set of scheduled runs is exact. *)
Theorem run_scheduled_once y :
  reached y →
  NoDup (tasks (sys_svc y) (sys_threads y)) ∧
  ∀ key, key ∈ sv_scheduledRuns (sys_svc y) ↔ key ∈ tasks (sys_svc y) (sys_threads y).
Proof.
  intros Hy%reached_inv. destruct (yi_tasks _ _ Hy) as [Hn Hs]. split; [done|]. intros key. by rewrite Hs, elem_of_list_to_set.
Qed.
End props.

(** A new action of a lease holder parks its run. *)
Lemma enqueue_new_parks `{env : Env} c input run w res w' :
  jget (runKey c (en_runId input)) (st_runs (w_st w)) = Some run → truthy_opt (en_leaseOwner input) = true →
  enqueue_new c input (Some run) w = (inr res, w') →
  ∃ r, jget (runKey c (en_runId input)) (st_runs (w_st w')) = Some r ∧ run_status r = waiting_for_browser ∧ run_leaseOwner r = None.
Proof.
  intros Hr Ho. unfold enqueue_new, enqueue_commit, persist_action, park_run, push_step, alter_run. mrun.
  destruct (st_browserGrants _ !! _) as [g|]; [|discriminate]. destruct (grant_enabled g); [|discriminate].
  destruct (currentBrowserConnection _ _ _) as [cn|]; [|discriminate]. destruct (connection_usable _ _); [|discriminate].
  destruct (_ && negb _); [discriminate|]. rewrite Ho. cbn. intros [= _ <-]. cbn.
  rewrite jget_jalter, decide_True, Hr by done. by eexists.
Qed.

Lemma enqueue_existing_world `{env : Env} c input id w res w' :
  enqueue_existing c input id w = (res, w') → w' = w.
Proof. unfold enqueue_existing. mrun. repeat case_match; cbn; congruence. Qed.

(** When the broker's dispatch for a lease holder returns, the run is parked
    and its lease given up, or nothing was stored because the tool use had been
    dispatched before: then the run stays leased although the service parks. *)
Theorem dispatch_parks_run `{env : Env} parse sha256 b c v runId toolUseId op owner content config w action outbox w' :
  owner ≠ "" →
  broker_dispatch parse sha256 b c v runId toolUseId op (Some owner) content config w = (inr (action, outbox), w') →
  (∃ r, jget (runKey c runId) (st_runs (w_st w')) = Some r ∧ run_status r = waiting_for_browser ∧ run_leaseOwner r = None) ∨
  w_st w' = w_st w ∧ truthy_opt (st_browserToolActions (w_st w) !! browserToolActionKey c runId toolUseId) = true.
Proof.
  intros Hne%truthy_true. unfold broker_dispatch. destruct (validateOperation _ _ _); [discriminate|]. mrun.
  set (w1 := mkWorld _ _ (w_st w)). set (input := mkEnqueueInput _ _ _ _ _ _ _ _ _ _ _ _).
  unfold enqueueBrowserAction. mrun. destruct (assertContext_cases c w1) as [->|[? ->]]; [|discriminate].
  destruct (assertConversationOwner_cases c (tenantConversationScopeKey c v) w1) as [->|[? ->]]; [|discriminate].
  destruct (scopedRun_cases c runId w1) as [->|[? ->]]; [|discriminate].
  destruct (enqueue_lease_ok input _) eqn:Hlease; [|discriminate].
  unfold enqueue_lease_ok in Hlease. cbn in Hlease. rewrite Hne in Hlease.
  destruct (jget (runKey c runId) (st_runs (w_st w))) as [run|] eqn:Hr; [|discriminate].
  assert (Hnew : enqueue_new c input (Some run) w1 = (inr (action, outbox), w') → ∃ r,
    jget (runKey c runId) (st_runs (w_st w')) = Some r ∧ run_status r = waiting_for_browser ∧ run_leaseOwner r = None).
  { by apply enqueue_new_parks. }
  cbn. rewrite Hr. destruct (st_browserToolActions (w_st w) !! _) as [id|]; [|auto].
  cbn. destruct (truthy id); [|auto]. intros ->%enqueue_existing_world. by right.
Qed.

(** ** A browser turn *)

Definition demo_service_broker : BrowserBrokerService := mkBroker 45000 30000 [].
Definition demo_service_run (es : list SysEvent) : option Sys :=
  sys_run (λ _, None) (λ s, s) "worker" 600000 (Some demo_service_broker) es init_sys.

(** A message is accepted, a client connects, the turn runs up to a dispatched action [u8]. *)
Definition demo_dispatched : list SysEvent :=
  [ev_api (api_submit demo_ctx (mkAcceptInput None "open the page" None None) no_provider); ev_thread 0;
   ev_store (OpConnect demo_ctx (mkConnectInput "client" [browser_broker_v1] 100000 "conn" "token" None));
   ev_store (OpSetGrant demo_ctx "u0" "client" true);
   ev_start 0; ev_thread 0; ev_thread 0; ev_thread 0; ev_thread 0; ev_thread 0;
   ev_executed 0 (inr (turn_browser_action "tool" op_status (JArr []) [])); ev_thread 0].

Definition demo_answer : BrowserBrokerResultRequest :=
  mkResult "u8" (stableJson (operation_json op_status)) "conn" 1 "r" None (res_succeeded (out_status true)).

(** Nothing is under way, nothing is planned, and the run is queued. *)
Definition forgotten_run (y : Sys) : bool :=
  bool_decide (length (sys_threads y) = 0%nat) && bool_decide (length (sv_pending (sys_svc y)) = 0%nat)
  && bool_decide (sv_timers (sys_svc y) = ∅)
  && match jget (runKey demo_ctx "u2") (st_runs (w_st (sv_store (sys_svc y)))) with
     | Some r => bool_decide (run_status r = queued)
     | None => false
     end.

Definition demo_race : list SysEvent :=
  demo_dispatched ++ [ev_api (api_browser_result demo_ctx demo_answer "token" false); ev_thread 1; ev_thread 1;
                      ev_thread 0; ev_thread 0].

(** A wake-up can be lost: if the browser's result arrives before the task
    that dispatched the action has ended, [resumeRun] finds the run still scheduled
    and returns; the task then ends, and the run stays queued with no task, timer
    or function left to take it up. *)
Theorem resume_can_be_lost :
  ∃ y, demo_service_run demo_race = Some y ∧ forgotten_run y = true.
Proof.
  assert (H : match demo_service_run demo_race with Some y => forgotten_run y | None => false end = true)
    by (vm_compute; reflexivity).
  destruct (demo_service_run demo_race) as [y|]; [|discriminate H]. by exists y.
Qed.

(** ** Witnesses *)

Lemma sys_run_reached `{env : Env} parse sha256 workerId lease broker es y y' :
  sys_reachable parse sha256 workerId lease broker y → Forall (event_ok workerId) es →
  sys_run parse sha256 workerId lease broker es y = Some y' → sys_reachable parse sha256 workerId lease broker y'.
Proof.
  intros Hy Hes. revert y Hy. unfold sys_run. induction Hes as [|e es He Hes IH]; intros y Hy; cbn; [by intros [= <-]|].
  destruct (sys_step _ _ _ _ _ e y) as [y1|] eqn:Hst; [apply IH; by econstructor|].
  intros Hnone. exfalso. clear -Hnone. induction es as [|e' es IH]; [discriminate|exact (IH Hnone)].
Qed.

(** The start of the same turn, up to the executor's work. *)
Definition demo_claimed_turn : list SysEvent := take 10 demo_dispatched.

Definition demo_leased (y : Sys) : bool :=
  match jget (runKey demo_ctx "u2") (st_runs (w_st (sv_store (sys_svc y)))) with
  | Some r => bool_decide (run_status r = processing) && bool_decide (run_leaseOwner r = Some "worker:u4")
              && forallb (λ i, negb (inv_parkedForBrowser i)) (sv_invocations (sys_svc y))
  | None => false
  end.

Lemma demo_leased_to y : demo_leased y = true →
  leased_to (owner "worker" 4) (runKey demo_ctx "u2") (w_st (sv_store (sys_svc y)))
  ∧ forallb (λ i, negb (inv_parkedForBrowser i)) (sv_invocations (sys_svc y)) = true.
Proof.
  unfold demo_leased. destruct (jget _ _) as [r|] eqn:Hr; [|discriminate].
  intros [[Hs Ho]%andb_true_iff Hp]%andb_true_iff. apply bool_decide_eq_true in Hs, Ho.
  split; [|exact Hp]. exists r. split; [exact Hr|]. split; [exact Hs|]. exact Ho.
Qed.

Lemma demo_claimed_ok : Forall (event_ok "worker") demo_claimed_turn.
Proof. by repeat constructor. Qed.

(** Witness of C6: while the executor works. *)
Lemma lease_has_worker_witness :
  ∃ y, demo_service_run demo_claimed_turn = Some y ∧ leased_to (owner "worker" 4) (runKey demo_ctx "u2") (w_st (sv_store (sys_svc y)))
    ∧ ∃ th o, th ∈ sys_threads y ∧ works "worker" 4 (runKey demo_ctx "u2") o (th_proc th).
Proof.
  assert (H : match demo_service_run demo_claimed_turn with Some y => demo_leased y | None => false end = true)
    by (vm_compute; reflexivity).
  destruct (demo_service_run demo_claimed_turn) as [y|] eqn:Hy; [|discriminate H].
  exists y. split; [reflexivity|]. destruct (demo_leased_to y H) as [Hl Hp]. split; [exact Hl|].
  destruct (lease_has_worker (λ _, None) (λ s, s) "worker" 600000 (Some demo_service_broker) y 4 (runKey demo_ctx "u2")
    (sys_run_reached _ _ _ _ _ _ _ _ (sys_init _ _ _ _ _) demo_claimed_ok Hy) Hl) as [Hth|(m & i & Hi & _ & Hpark)];
    [exact Hth|exfalso].
  rewrite forallb_forall in Hp. specialize (Hp i (proj1 (list_elem_of_In _ _) (list_elem_of_lookup_2 _ _ _ Hi))).
  rewrite Hpark in Hp. discriminate Hp.
Defined.

(** For example: one task, for the one run. *)
Lemma run_scheduled_once_witness :
  ∃ y, demo_service_run demo_claimed_turn = Some y ∧ NoDup (tasks (sys_svc y) (sys_threads y)).
Proof.
  assert (H : match demo_service_run demo_claimed_turn with Some y => true | None => false end = true)
    by (vm_compute; reflexivity).
  destruct (demo_service_run demo_claimed_turn) as [y|] eqn:Hy; [|discriminate H].
  exists y. split; [reflexivity|].
  exact (proj1 (run_scheduled_once (λ _, None) (λ s, s) "worker" 600000 (Some demo_service_broker) y
    (sys_run_reached _ _ _ _ _ _ _ _ (sys_init _ _ _ _ _) demo_claimed_ok Hy))).
Defined.

(** Conversation u0, run u2, claimed by the worker; one client with access. *)
Definition demo_ready : World Store := exec_all
  [OpAccept demo_ctx (mkAcceptInput None "open the page" None None); OpClaim demo_ctx "u2" "worker" 1000;
   OpConnect demo_ctx (mkConnectInput "client" [browser_broker_v1] 1000 "conn" "token" None);
   OpSetGrant demo_ctx "u0" "client" true] init_world.
Definition demo_dispatch : RT (BrowserActionRecord * BrowserOutboxRecord) :=
  broker_dispatch (λ _, None) (λ s, s) demo_service_broker demo_ctx "u0" "u2" "tool" op_status (Some "worker") None None.

(** For example: the run waits for the browser. *)
Lemma dispatch_parks_run_witness :
  ∃ r, jget (runKey demo_ctx "u2") (st_runs (w_st (demo_dispatch demo_ready).2)) = Some r ∧ run_status r = waiting_for_browser.
Proof.
  assert (H : returned (demo_dispatch demo_ready).1 = true) by (vm_compute; reflexivity).
  destruct (demo_dispatch demo_ready) as [[e|[action outbox]] w'] eqn:Hd; [discriminate H|].
  destruct (dispatch_parks_run (λ _, None) (λ s, s) demo_service_broker demo_ctx "u0" "u2" "tool" op_status "worker" None None
    demo_ready action outbox w' ltac:(discriminate) Hd) as [(r & Hr & Hs & _)|[_ Hold]].
  - exists r. split; [exact Hr|exact Hs].
  - vm_compute in Hold. discriminate Hold.
Defined.
