(* ===== verification/CoordinatorOwnership.v ===== *)
(** * Ownership of the worker coordinator

    src/control-plane/src/runtime-worker-coordinator-ownership.ts: one process at
    a time coordinates the worker pool.  Ownership is a row with an epoch and an
    expiry in SQLite; a guard in the process answers whether it still owns it.

    The row is the table (it has at most one).  The database may be busy or fail:
    a call is given its health.  An ISO timestamp is its parsed value, [None] when
    it does not parse. *)
From S2P Require Import Prelude Identifiers.

Record RuntimeWorkerCoordinatorOwnerIdentity := mkOwner {
  ow_ownerId : string;
  ow_deploymentId : string;
  ow_replicaId : string;
}.
#[global] Instance RuntimeWorkerCoordinatorOwnerIdentity_eq_dec : EqDecision RuntimeWorkerCoordinatorOwnerIdentity.
Proof. solve_decision. Defined.

Record RuntimeWorkerCoordinatorOwnershipBinding := mkBinding {
  bi_owner : RuntimeWorkerCoordinatorOwnerIdentity;
  bi_epoch : Z;
  bi_acquiredAtMs : Z;
  bi_heartbeatAtMs : Z;
  bi_expiresAtMs : Z;
}.

Inductive UnavailableReason := active_owner | contended.

Inductive RuntimeWorkerCoordinatorOwnershipAcquireResult :=
  | ownership_acquired (binding : RuntimeWorkerCoordinatorOwnershipBinding) (takeover : bool)
  | ownership_unavailable (reason : UnavailableReason) (retryAfterMs : option Z).

Inductive RuntimeWorkerCoordinatorOwnershipRenewResult :=
  | ownership_renewed (binding : RuntimeWorkerCoordinatorOwnershipBinding)
  | renew_lost.

Inductive RuntimeWorkerCoordinatorOwnershipReleaseResult :=
  | ownership_released (epoch : Z)
  | release_lost.

Record RuntimeWorkerCoordinatorOwnershipRow := mkRow {
  or_owner_id : option string;
  or_deployment_id : option string;
  or_replica_id : option string;
  or_epoch : Z;
  or_acquired_at : option Z;
  or_heartbeat_at : option Z;
  or_expires_at : option Z;
  or_released_at : option Z;
  or_updated_at : Z;
}.

Abbreviation OwnershipDb := (option RuntimeWorkerCoordinatorOwnershipRow).

(** How the database answers a call: as it should, with SQLITE_BUSY, with another
    error, or with an error on the read after a write. *)
Inductive DbHealth := Healthy | Busy | Failing | FailingRead.
#[global] Instance DbHealth_eq_dec : EqDecision DbHealth.
Proof. solve_decision. Defined.

(** ** Configuration *)

Definition CONTROL_PLANE_EXPECTED_REPLICA_COUNT_ENV : string := "WORKLIN_CONTROL_PLANE_EXPECTED_REPLICA_COUNT".
Definition RUNTIME_WORKER_COORDINATOR_DEPLOYMENT_ID_ENV : string := "RAILWAY_DEPLOYMENT_ID".
Definition RUNTIME_WORKER_COORDINATOR_REPLICA_ID_ENV : string := "RAILWAY_REPLICA_ID".
Definition RUNTIME_WORKER_COORDINATOR_OWNERSHIP_TTL_MS_ENV : string :=
  "WORKLIN_RUNTIME_WORKER_COORDINATOR_OWNERSHIP_TTL_MS".
Definition RUNTIME_WORKER_COORDINATOR_HEARTBEAT_MS_ENV : string :=
  "WORKLIN_RUNTIME_WORKER_COORDINATOR_HEARTBEAT_MS".
Definition DEFAULT_OWNERSHIP_TTL_MS : Z := 15000.
Definition DEFAULT_HEARTBEAT_MS : Z := 5000.

Record RuntimeWorkerCoordinatorOwnershipConfig := mkConfig {
  oc_enabled : bool;
  oc_deploymentId : string;
  oc_replicaId : string;
  oc_ownershipTtlMs : Z;
  oc_heartbeatMs : Z;
}.

Definition runtimeWorkerCoordinatorOwnershipConfigFromEnv (rawEnv : string → option string) (poolEnabled : bool)
    : string + RuntimeWorkerCoordinatorOwnershipConfig :=
  if negb poolEnabled then inr (mkConfig false "" "" DEFAULT_OWNERSHIP_TTL_MS DEFAULT_HEARTBEAT_MS)
  else
    match strictPositiveIntegerEnv CONTROL_PLANE_EXPECTED_REPLICA_COUNT_ENV
            (rawEnv CONTROL_PLANE_EXPECTED_REPLICA_COUNT_ENV) with
    | inl e => inl e
    | inr expectedReplicaCount =>
    if negb (expectedReplicaCount =? 1)
    then inl (CONTROL_PLANE_EXPECTED_REPLICA_COUNT_ENV
                +:+ " must be exactly 1 when the runtime worker pool is enabled.")
    else
    match requiredOpaqueEnv RUNTIME_WORKER_COORDINATOR_DEPLOYMENT_ID_ENV
            (rawEnv RUNTIME_WORKER_COORDINATOR_DEPLOYMENT_ID_ENV) with
    | inl e => inl e
    | inr deploymentId =>
    match requiredOpaqueEnv RUNTIME_WORKER_COORDINATOR_REPLICA_ID_ENV
            (rawEnv RUNTIME_WORKER_COORDINATOR_REPLICA_ID_ENV) with
    | inl e => inl e
    | inr replicaId =>
    match optionalPositiveIntegerEnv RUNTIME_WORKER_COORDINATOR_OWNERSHIP_TTL_MS_ENV
            (rawEnv RUNTIME_WORKER_COORDINATOR_OWNERSHIP_TTL_MS_ENV) DEFAULT_OWNERSHIP_TTL_MS with
    | inl e => inl e
    | inr ownershipTtlMs =>
    match optionalPositiveIntegerEnv RUNTIME_WORKER_COORDINATOR_HEARTBEAT_MS_ENV
            (rawEnv RUNTIME_WORKER_COORDINATOR_HEARTBEAT_MS_ENV) DEFAULT_HEARTBEAT_MS with
    | inl e => inl e
    | inr heartbeatMs =>
        if ownershipTtlMs <? heartbeatMs * 3
        then inl (RUNTIME_WORKER_COORDINATOR_HEARTBEAT_MS_ENV +:+ " must be at most one third of "
                    +:+ RUNTIME_WORKER_COORDINATOR_OWNERSHIP_TTL_MS_ENV +:+ ".")
        else inr (mkConfig true deploymentId replicaId ownershipTtlMs heartbeatMs)
    end end end end end.

(** ** The table *)

(** The CHECK clause of the table. *)
Definition ownership_checks (r : RuntimeWorkerCoordinatorOwnershipRow) : bool :=
  (0 <=? or_epoch r) &&
  match or_owner_id r, or_deployment_id r, or_replica_id r, or_acquired_at r, or_heartbeat_at r, or_expires_at r with
  | None, None, None, None, None, None => true
  | Some _, Some _, Some _, Some a, Some h, Some e => (0 <? or_epoch r) && (a <=? h) && (h <? e)
  | _, _, _, _, _, _ => false
  end.

(** A write that violates the CHECK clause throws. *)
Definition write_row (r : RuntimeWorkerCoordinatorOwnershipRow) : string + RuntimeWorkerCoordinatorOwnershipRow :=
  if ownership_checks r then inr r else inl "SQLITE_CONSTRAINT".

(** ** Checks *)

Definition assertOwnerIdentity (i : RuntimeWorkerCoordinatorOwnerIdentity) : option string :=
  if negb (validOpaqueId (ow_ownerId i)) then Some "Runtime worker coordinator owner ID is invalid."
  else if negb (validOpaqueId (ow_deploymentId i)) then Some "Runtime worker coordinator deployment ID is invalid."
  else if negb (validOpaqueId (ow_replicaId i)) then Some "Runtime worker coordinator replica ID is invalid."
  else None.

Definition assertTimestamp (value : Z) : option string :=
  if negb (isSafeInteger value) || (value <? 0) then Some "Runtime worker coordinator timestamp is invalid." else None.

(** The first exception of a sequence of assertions. *)
Definition first_error (l : list (option string)) : option string :=
  js_find (λ _, true) (omap id l).

Definition assertBinding (b : RuntimeWorkerCoordinatorOwnershipBinding) : option string :=
  first_error
    [assertOwnerIdentity (bi_owner b);
     if negb (isSafeInteger (bi_epoch b)) || (bi_epoch b <? 1)
     then Some "Runtime worker coordinator epoch is invalid." else None;
     assertTimestamp (bi_acquiredAtMs b); assertTimestamp (bi_heartbeatAtMs b); assertTimestamp (bi_expiresAtMs b)].

Definition checkedExpiry (nowMs ownershipTtlMs : Z) : string + Z :=
  match assertTimestamp nowMs with
  | Some e => inl e
  | None =>
      if negb (isSafeInteger ownershipTtlMs) || (ownershipTtlMs <? 1)
      then inl "Runtime worker coordinator ownership TTL is invalid."
      else if negb (isSafeInteger (nowMs + ownershipTtlMs))
      then inl "Runtime worker coordinator ownership expiry is invalid."
      else inr (nowMs + ownershipTtlMs)
  end.

Definition checkedNextEpoch (epoch : Z) : string + Z :=
  if negb (isSafeInteger epoch) || (epoch <? 0) then inl "Runtime worker coordinator epoch is invalid."
  else if negb (isSafeInteger (epoch + 1)) then inl "Runtime worker coordinator epoch is exhausted."
  else inr (epoch + 1).

Definition assertIsoTimestamp (value : option Z) : string + Z :=
  match value with Some t => inr t | None => inl "Runtime worker coordinator ISO timestamp is invalid." end.

(** ** The row *)

Definition rowHasIdentity (r : RuntimeWorkerCoordinatorOwnershipRow) (i : RuntimeWorkerCoordinatorOwnerIdentity) : bool :=
  eqos (or_owner_id r) (Some (ow_ownerId i)) && eqos (or_deployment_id r) (Some (ow_deploymentId i))
  && eqos (or_replica_id r) (Some (ow_replicaId i)).

Definition rowMatchesBinding (r : RuntimeWorkerCoordinatorOwnershipRow) (b : RuntimeWorkerCoordinatorOwnershipBinding) : bool :=
  rowHasIdentity r (bi_owner b) && (or_epoch r =? bi_epoch b).

Definition bindingFromRow (r : RuntimeWorkerCoordinatorOwnershipRow) : string + RuntimeWorkerCoordinatorOwnershipBinding :=
  match or_owner_id r, or_deployment_id r, or_replica_id r, or_acquired_at r, or_heartbeat_at r, or_expires_at r with
  | Some o, Some d, Some p, Some a, Some h, Some e => inr (mkBinding (mkOwner o d p) (or_epoch r) a h e)
  | _, _, _, _, _, _ => inl "Runtime worker coordinator ownership is inactive."
  end.

(** [expires_at > ?], not true of NULL. *)
Definition expires_after (r : RuntimeWorkerCoordinatorOwnershipRow) (nowMs : Z) : bool :=
  match or_expires_at r with Some e => nowMs <? e | None => false end.

(** The row an owner gets at an epoch. *)
Definition owned_row (i : RuntimeWorkerCoordinatorOwnerIdentity) (epoch nowMs expiresAtMs timestamp : Z)
    : RuntimeWorkerCoordinatorOwnershipRow :=
  mkRow (Some (ow_ownerId i)) (Some (ow_deploymentId i)) (Some (ow_replicaId i)) epoch
    (Some nowMs) (Some nowMs) (Some expiresAtMs) None timestamp.

(** The number of rows changed, and the table. *)
Definition updateExactOwnershipHeartbeat (i : RuntimeWorkerCoordinatorOwnerIdentity)
    (epoch nowMs expiresAtMs timestamp : Z) (db : OwnershipDb) : string + (Z * OwnershipDb) :=
  match db with
  | Some r =>
      if rowHasIdentity r i && (or_epoch r =? epoch)
         && match or_heartbeat_at r with Some h => h <=? nowMs | None => false end && expires_after r nowMs
      then
        match write_row (mkRow (or_owner_id r) (or_deployment_id r) (or_replica_id r) (or_epoch r) (or_acquired_at r)
                           (Some nowMs) (Some expiresAtMs) (or_released_at r) timestamp) with
        | inl e => inl e
        | inr r' => inr (1, Some r')
        end
      else inr (0, db)
  | None => inr (0, db)
  end.

Definition ownership_changed : string := "Runtime worker coordinator ownership changed.".

(** The binding of the row just written, at the end of a transaction. *)
Definition commit_acquired (db' : OwnershipDb) (takeover : bool)
    : string + (RuntimeWorkerCoordinatorOwnershipAcquireResult * OwnershipDb) :=
  match db' with
  | None => inl "Runtime worker coordinator ownership is missing."
  | Some r =>
      match bindingFromRow r with
      | inl e => inl e
      | inr b => inr (ownership_acquired b takeover, db')
      end
  end.

(** The take-over of an expired or released row. *)
Definition take_over (i : RuntimeWorkerCoordinatorOwnerIdentity) (nowMs expiresAtMs timestamp : Z)
    (existing : RuntimeWorkerCoordinatorOwnershipRow)
    : string + (RuntimeWorkerCoordinatorOwnershipAcquireResult * OwnershipDb) :=
  match checkedNextEpoch (or_epoch existing) with
  | inl e => inl e
  | inr nextEpoch =>
      if is_null (or_owner_id existing)
         || match or_expires_at existing with Some e => e <=? nowMs | None => false end
      then
        match write_row (owned_row i nextEpoch nowMs expiresAtMs timestamp) with
        | inl e => inl e
        | inr r => commit_acquired (Some r) (negb (is_null (or_owner_id existing)))
        end
      else inl ownership_changed
  end.

(** The body of the transaction of [acquire]. *)
Definition acquire_transaction (i : RuntimeWorkerCoordinatorOwnerIdentity) (nowMs expiresAtMs : Z)
    (nowIso : option Z) (db : OwnershipDb)
    : string + (RuntimeWorkerCoordinatorOwnershipAcquireResult * OwnershipDb) :=
  match assertIsoTimestamp nowIso with
  | inl e => inl e
  | inr timestamp =>
      match db with
      | None =>
          match write_row (owned_row i 1 nowMs expiresAtMs timestamp) with
          | inl e => inl e
          | inr r => commit_acquired (Some r) false
          end
      | Some existing =>
          if negb (is_null (or_owner_id existing)) && expires_after existing nowMs then
            if negb (rowHasIdentity existing i)
            then inr (ownership_unavailable active_owner
                        (Some (Z.max 1 (default 0 (or_expires_at existing) - nowMs))), db)
            else
              match updateExactOwnershipHeartbeat i (or_epoch existing) nowMs expiresAtMs timestamp db with
              | inl e => inl e
              | inr (renewed, db') => if renewed =? 1 then commit_acquired db' false else inl ownership_changed
              end
          else take_over i nowMs expiresAtMs timestamp existing
      end
  end.

(** ** Operations *)

(** An exception rolls the transaction back. *)
Definition acquireRuntimeWorkerCoordinatorOwnership (health : DbHealth) (i : RuntimeWorkerCoordinatorOwnerIdentity)
    (nowMs ownershipTtlMs : Z) (nowIso : option Z) (db : OwnershipDb)
    : (string + RuntimeWorkerCoordinatorOwnershipAcquireResult) * OwnershipDb :=
  match assertOwnerIdentity i with
  | Some e => (inl e, db)
  | None =>
      match checkedExpiry nowMs ownershipTtlMs with
      | inl e => (inl e, db)
      | inr expiresAtMs =>
          match health with
          | Busy => (inr (ownership_unavailable contended None), db)
          | Failing | FailingRead => (inl "SQLITE_ERROR", db)
          | Healthy =>
              match acquire_transaction i nowMs expiresAtMs nowIso db with
              | inl e => (inl e, db)
              | inr (res, db') => (inr res, db')
              end
          end
      end
  end.

Definition renewRuntimeWorkerCoordinatorOwnership (health : DbHealth) (b : RuntimeWorkerCoordinatorOwnershipBinding)
    (nowMs ownershipTtlMs : Z) (nowIso : option Z) (db : OwnershipDb)
    : (string + RuntimeWorkerCoordinatorOwnershipRenewResult) * OwnershipDb :=
  match assertBinding b with
  | Some e => (inl e, db)
  | None =>
      match checkedExpiry nowMs ownershipTtlMs with
      | inl e => (inl e, db)
      | inr expiresAtMs =>
          match assertIsoTimestamp nowIso with
          | inl e => (inl e, db)
          | inr timestamp =>
              if bool_decide (health = Busy) || bool_decide (health = Failing) then (inl "SQLITE_ERROR", db)
              else
                match updateExactOwnershipHeartbeat (bi_owner b) (bi_epoch b) nowMs expiresAtMs timestamp db with
                | inl e => (inl e, db)
                | inr (changed, db') =>
                    if negb (changed =? 1) then (inr renew_lost, db')
                    else if bool_decide (health = FailingRead) then (inl "SQLITE_ERROR", db')
                    else match db' with
                    | None => (inr renew_lost, db')
                    | Some row =>
                        if negb (rowMatchesBinding row b) then (inr renew_lost, db')
                        else match bindingFromRow row with
                        | inl e => (inl e, db')
                        | inr b' => (inr (ownership_renewed b'), db')
                        end
                    end
                end
          end
      end
  end.

Definition released_row (nowMs timestamp : Z) (r : RuntimeWorkerCoordinatorOwnershipRow)
    : RuntimeWorkerCoordinatorOwnershipRow :=
  mkRow None None None (or_epoch r) None None None (Some nowMs) timestamp.

Definition releaseRuntimeWorkerCoordinatorOwnership (health : DbHealth) (b : RuntimeWorkerCoordinatorOwnershipBinding)
    (nowMs : Z) (nowIso : option Z) (db : OwnershipDb)
    : (string + RuntimeWorkerCoordinatorOwnershipReleaseResult) * OwnershipDb :=
  match first_error [assertBinding b; assertTimestamp nowMs] with
  | Some e => (inl e, db)
  | None =>
      match assertIsoTimestamp nowIso with
      | inl e => (inl e, db)
      | inr timestamp =>
          if bool_decide (health = Busy) || bool_decide (health = Failing) then (inl "SQLITE_ERROR", db)
          else match db with
          | Some r =>
              if rowMatchesBinding r b
              then (inr (ownership_released (bi_epoch b)), Some (released_row nowMs timestamp r))
              else (inr release_lost, db)
          | None => (inr release_lost, db)
          end
      end
  end.

Definition runtimeWorkerCoordinatorOwnershipIsLive (health : DbHealth) (b : RuntimeWorkerCoordinatorOwnershipBinding)
    (nowMs : Z) (db : OwnershipDb) : string + bool :=
  match first_error [assertBinding b; assertTimestamp nowMs] with
  | Some e => inl e
  | None =>
      match health with
      | Healthy =>
          inr (match db with
               | Some r => rowMatchesBinding r b && expires_after r nowMs
               | None => false
               end)
      | _ => inl "SQLITE_ERROR"
      end
  end.

(** ** The guard *)

Record RuntimeWorkerCoordinatorOwnershipGuard := mkGuard {
  gu_live : bool;
  gu_currentBinding : RuntimeWorkerCoordinatorOwnershipBinding;
}.

Definition new_guard (b : RuntimeWorkerCoordinatorOwnershipBinding) : string + RuntimeWorkerCoordinatorOwnershipGuard :=
  match assertBinding b with Some e => inl e | None => inr (mkGuard true b) end.

Definition lower_guard (g : RuntimeWorkerCoordinatorOwnershipGuard) : RuntimeWorkerCoordinatorOwnershipGuard :=
  mkGuard false (gu_currentBinding g).

Definition guard_isLive (health : DbHealth) (nowMs : Z) (db : OwnershipDb) (g : RuntimeWorkerCoordinatorOwnershipGuard)
    : bool * RuntimeWorkerCoordinatorOwnershipGuard :=
  if negb (gu_live g) then (false, g)
  else match runtimeWorkerCoordinatorOwnershipIsLive health (gu_currentBinding g) nowMs db with
  | inr true => (true, g)
  | _ => (false, lower_guard g)
  end.

Definition guard_renew (health : DbHealth) (nowMs ownershipTtlMs : Z) (nowIso : option Z) (db : OwnershipDb)
    (g : RuntimeWorkerCoordinatorOwnershipGuard)
    : RuntimeWorkerCoordinatorOwnershipRenewResult * OwnershipDb * RuntimeWorkerCoordinatorOwnershipGuard :=
  if negb (gu_live g) then (renew_lost, db, g)
  else
    let '(r, db') := renewRuntimeWorkerCoordinatorOwnership health (gu_currentBinding g) nowMs ownershipTtlMs nowIso db in
    match r with
    | inl _ => (renew_lost, db', lower_guard g)
    | inr (ownership_renewed b) => (ownership_renewed b, db', mkGuard (gu_live g) b)
    | inr renew_lost => (renew_lost, db', lower_guard g)
    end.

Definition guard_fence (g : RuntimeWorkerCoordinatorOwnershipGuard) : RuntimeWorkerCoordinatorOwnershipGuard := lower_guard g.

Definition guard_release (health : DbHealth) (nowMs : Z) (nowIso : option Z) (db : OwnershipDb)
    (g : RuntimeWorkerCoordinatorOwnershipGuard)
    : RuntimeWorkerCoordinatorOwnershipReleaseResult * OwnershipDb * RuntimeWorkerCoordinatorOwnershipGuard :=
  let '(r, db') := releaseRuntimeWorkerCoordinatorOwnership health (gu_currentBinding g) nowMs nowIso db in
  match r with
  | inl _ => (release_lost, db', lower_guard g)
  | inr res => (res, db', lower_guard g)
  end.

(** ** Abort controllers of requests under way

    A controller is a number; [signal.aborted] is a set.  [register] returns a
    closure that knows whether it was called: here its own number, in
    [ar_registered] until it is called. *)

Record RequestAbortRegistry := mkAbortRegistry {
  ar_controllers : list nat;
  ar_aborted : gset nat;
  ar_registered : gmap nat nat;
  ar_next : nat;
}.

Definition new_abort_registry : RequestAbortRegistry := mkAbortRegistry [] ∅ ∅ 0.

(** [Set.prototype.add] keeps the first position. *)
Definition abort_register (controller : nat) (s : RequestAbortRegistry) : (string + nat) * RequestAbortRegistry :=
  if bool_decide (controller ∈ ar_aborted s)
  then (inl "Pooled runtime request abort controller is inactive.", s)
  else (inr (ar_next s),
        mkAbortRegistry
          (if bool_decide (controller ∈ ar_controllers s) then ar_controllers s else ar_controllers s ++ [controller])
          (ar_aborted s) (<[ar_next s := controller]> (ar_registered s)) (S (ar_next s))).

(** The closure returned by [register]. *)
Definition abort_unregister (closure : nat) (s : RequestAbortRegistry) : RequestAbortRegistry :=
  match ar_registered s !! closure with
  | None => s
  | Some controller =>
      mkAbortRegistry (filter (λ x, x ≠ controller) (ar_controllers s)) (ar_aborted s)
        (delete closure (ar_registered s)) (ar_next s)
  end.

Definition abortAll (s : RequestAbortRegistry) : nat * RequestAbortRegistry :=
  (length (ar_controllers s),
   mkAbortRegistry [] (list_to_set (ar_controllers s) ∪ ar_aborted s) (ar_registered s) (ar_next s)).

Definition activeCount (s : RequestAbortRegistry) : nat := length (ar_controllers s).
