(* ===== verification/CoordinatorProps.v ===== *)
(** * The coordinator: one owner at a time, fenced by epochs

    Every call on the ownership row is one of four transitions ([own_step]); from
    these follow exclusion while a lease runs, epochs as fencing tokens, and what
    a guard's answer means. *)
From S2P Require Import Prelude Identifiers CoordinatorOwnership.

(** ** The transitions of the row *)

Definition row_live (r : RuntimeWorkerCoordinatorOwnershipRow) (nowMs : Z) : Prop := expires_after r nowMs = true.

(** [own_step now ttl db db']: what a call at time [now] may do to the table. *)
Inductive own_step (nowMs ttl : Z) : OwnershipDb → OwnershipDb → Prop :=
  | own_same db : own_step nowMs ttl db db
  | own_insert i t : 0 < ttl → own_step nowMs ttl None (Some (owned_row i 1 nowMs (nowMs + ttl) t))
  | own_heartbeat r h e t :
      or_heartbeat_at r = Some h → or_expires_at r = Some e → h ≤ nowMs < e → 0 < ttl →
      own_step nowMs ttl (Some r)
        (Some (mkRow (or_owner_id r) (or_deployment_id r) (or_replica_id r) (or_epoch r) (or_acquired_at r)
                 (Some nowMs) (Some (nowMs + ttl)) (or_released_at r) t))
  | own_takeover r i t :
      or_owner_id r = None ∨ (∃ e, or_expires_at r = Some e ∧ e ≤ nowMs) → 0 < ttl →
      own_step nowMs ttl (Some r) (Some (owned_row i (or_epoch r + 1) nowMs (nowMs + ttl) t)).

Lemma checkedExpiry_inr now ttl e : checkedExpiry now ttl = inr e → 0 < ttl ∧ e = now + ttl.
Proof.
  unfold checkedExpiry. destruct (assertTimestamp now); [done|].
  destruct (negb _ || _) eqn:H; [done|]. apply orb_false_iff in H as [_ H%Z.ltb_ge].
  destruct (negb _); [done|]. intros [= <-]. split; [lia|done].
Qed.

Lemma write_row_inr r r' : write_row r = inr r' → r' = r.
Proof. unfold write_row. destruct (ownership_checks r); congruence. Qed.

Lemma commit_acquired_inr db takeover res db' :
  commit_acquired db takeover = inr (res, db') →
  db' = db ∧ ∃ r b, db = Some r ∧ bindingFromRow r = inr b ∧ res = ownership_acquired b takeover.
Proof.
  unfold commit_acquired. destruct db as [r|]; [|done]. destruct (bindingFromRow r) as [e|b] eqn:Hb; [done|].
  intros [= <- <-]. eauto 10.
Qed.

Lemma heartbeat_inr i epoch now expires t db n db' :
  updateExactOwnershipHeartbeat i epoch now expires t db = inr (n, db') →
  (n = 0 ∧ db' = db) ∨
  (n = 1 ∧ ∃ r h e, db = Some r ∧ rowHasIdentity r i = true ∧ or_epoch r = epoch ∧
     or_heartbeat_at r = Some h ∧ or_expires_at r = Some e ∧ h ≤ now < e ∧
     db' = Some (mkRow (or_owner_id r) (or_deployment_id r) (or_replica_id r) (or_epoch r) (or_acquired_at r)
                   (Some now) (Some expires) (or_released_at r) t)).
Proof.
  unfold updateExactOwnershipHeartbeat. destruct db as [r|]; [|intros [= <- <-]; by left].
  destruct (_ && expires_after r now) eqn:H; [|intros [= <- <-]; by left].
  rewrite !andb_true_iff in H. destruct H as [[[Hi He%Z.eqb_eq] Hh] Hx].
  destruct (write_row _) as [err|r'] eqn:Hw; [done|]. intros [= <- <-]. apply write_row_inr in Hw as ->.
  right. split; [done|]. unfold expires_after in Hx.
  destruct (or_heartbeat_at r) as [h|] eqn:Eh; [|done]. destruct (or_expires_at r) as [e|] eqn:Ee; [|done].
  apply Z.leb_le in Hh. apply Z.ltb_lt in Hx. exists r, h, e. auto 10 with lia.
Qed.

Lemma rowHasIdentity_spec r i :
  rowHasIdentity r i = true ↔
  or_owner_id r = Some (ow_ownerId i) ∧ or_deployment_id r = Some (ow_deploymentId i) ∧
  or_replica_id r = Some (ow_replicaId i).
Proof. unfold rowHasIdentity, eqos. rewrite !andb_true_iff, !bool_decide_eq_true. tauto. Qed.

Lemma rowHasIdentity_inj r i j : rowHasIdentity r i = true → rowHasIdentity r j = true → i = j.
Proof. rewrite !rowHasIdentity_spec. destruct i, j. cbn. naive_solver congruence. Qed.

(** The binding of a row names its owner, epoch and expiry. *)
Lemma bindingFromRow_inr r b :
  bindingFromRow r = inr b →
  rowHasIdentity r (bi_owner b) = true ∧ or_epoch r = bi_epoch b ∧
  or_heartbeat_at r = Some (bi_heartbeatAtMs b) ∧ or_expires_at r = Some (bi_expiresAtMs b).
Proof.
  unfold bindingFromRow. rewrite rowHasIdentity_spec. repeat case_match; try done.
  intros [= <-]. cbn. auto 10.
Qed.

Lemma checkedNextEpoch_inr e n : checkedNextEpoch e = inr n → n = e + 1.
Proof. unfold checkedNextEpoch. repeat case_match; congruence. Qed.

Lemma take_over_inr i now ttl t r res db' :
  0 < ttl → take_over i now (now + ttl) t r = inr (res, db') →
  own_step now ttl (Some r) db' ∧ ∃ r' b takeover, db' = Some r' ∧ bindingFromRow r' = inr b ∧
    res = ownership_acquired b takeover ∧ bi_owner b = i ∧ bi_heartbeatAtMs b = now ∧
    bi_expiresAtMs b = now + ttl ∧ bi_epoch b = or_epoch r + 1.
Proof.
  intros Httl. unfold take_over. destruct (checkedNextEpoch _) as [err|n] eqn:Hn; [done|].
  apply checkedNextEpoch_inr in Hn as ->. destruct (is_null (or_owner_id r) || _) eqn:Hfree; [|done].
  destruct (write_row _) as [err|r'] eqn:Hw; [done|]. apply write_row_inr in Hw as ->.
  intros (->&r'&b&[= <-]&Hb&->)%commit_acquired_inr. split.
  - apply own_takeover; [|done]. apply orb_true_iff in Hfree as [Ho|He].
    + left. by destruct (or_owner_id r).
    + right. destruct (or_expires_at r) as [e|]; [|done]. apply Z.leb_le in He. eauto.
  - pose proof Hb as Hb'. cbn in Hb. injection Hb as <-. destruct i. cbn. eauto 20.
Qed.

(** What [acquire] grants: the row's binding, at the row's epoch for the owner
    it already had, or at the next one. *)
Definition acquire_outcome (i : RuntimeWorkerCoordinatorOwnerIdentity) (now ttl : Z) (db db' : OwnershipDb)
    (res : RuntimeWorkerCoordinatorOwnershipAcquireResult) : Prop :=
  match res with
  | ownership_unavailable contended d => db' = db ∧ d = None
  | ownership_unavailable active_owner d =>
      ∃ r e, db = Some r ∧ db' = db ∧ rowHasIdentity r i = false ∧ or_owner_id r ≠ None ∧
             or_expires_at r = Some e ∧ now < e ∧ d = Some (e - now)
  | ownership_acquired b _ =>
      bi_owner b = i ∧ bi_heartbeatAtMs b = now ∧ bi_expiresAtMs b = now + ttl ∧
      (∃ r', db' = Some r' ∧ bindingFromRow r' = inr b) ∧
      match db with
      | None => bi_epoch b = 1
      | Some r => rowHasIdentity r i = true ∧ bi_epoch b = or_epoch r ∨ bi_epoch b = or_epoch r + 1
      end
  end.

Lemma acquire_transaction_inr i now ttl iso db res db' :
  0 < ttl → acquire_transaction i now (now + ttl) iso db = inr (res, db') →
  own_step now ttl db db' ∧ acquire_outcome i now ttl db db' res.
Proof.
  intros Httl. unfold acquire_transaction. destruct (assertIsoTimestamp iso) as [err|t]; [done|].
  destruct db as [r|].
  2:{ destruct (write_row _) as [err|r'] eqn:Hw; [done|]. apply write_row_inr in Hw as ->.
      intros (->&r'&b&[= <-]&Hb&->)%commit_acquired_inr. split; [by constructor|].
      pose proof Hb as Hb'. cbn in Hb. injection Hb as <-. destruct i. cbn. eauto 10. }
  destruct (negb (is_null (or_owner_id r)) && expires_after r now) eqn:Hlive.
  2:{ intros [Hs (r'&b&tk&->&Hb&->&?&?&?&?)]%take_over_inr; [|done]. split; [done|]. cbn. eauto 10. }
  apply andb_true_iff in Hlive as [Ho Hx]. unfold expires_after in Hx.
  destruct (or_expires_at r) as [e|] eqn:Ee; [|done]. apply Z.ltb_lt in Hx.
  destruct (rowHasIdentity r i) eqn:Hi; cbn [negb].
  2:{ intros [= <- <-]. cbn [default]. split; [constructor|]. exists r, e.
      destruct (or_owner_id r); cbn in *; [|done]. split_and!; auto. f_equal. change (id e) with e. lia. }
  destruct (updateExactOwnershipHeartbeat _ _ _ _ _ _) as [err|[n db1]] eqn:Hu; [done|].
  destruct (n =? 1) eqn:Hn; [|done]. apply Z.eqb_eq in Hn.
  apply heartbeat_inr in Hu as [[-> _]|(_&r0&h&e'&[= <-]&_&_&Eh&Ee'&Hr&->)]; [done|].
  intros (->&r'&b&[= <-]&Hb&->)%commit_acquired_inr. split; [by econstructor|].
  pose proof (bindingFromRow_inr _ _ Hb) as (Hi'&He&[= Hh]&[= Hx']). cbn in He.
  cbn. split_and!; [|done|done|by eauto|by auto]. by eapply rowHasIdentity_inj.
Qed.

(** ** Sequences of calls *)

Inductive OwnershipCall :=
  | AcquireCall (health : DbHealth) (i : RuntimeWorkerCoordinatorOwnerIdentity) (nowMs ttl : Z) (nowIso : option Z)
  | RenewCall (health : DbHealth) (b : RuntimeWorkerCoordinatorOwnershipBinding) (nowMs ttl : Z) (nowIso : option Z)
  | ReleaseCall (health : DbHealth) (b : RuntimeWorkerCoordinatorOwnershipBinding) (nowMs : Z) (nowIso : option Z).

Definition run_ownership (db : OwnershipDb) (c : OwnershipCall) : OwnershipDb :=
  match c with
  | AcquireCall h i now ttl iso => (acquireRuntimeWorkerCoordinatorOwnership h i now ttl iso db).2
  | RenewCall h b now ttl iso => (renewRuntimeWorkerCoordinatorOwnership h b now ttl iso db).2
  | ReleaseCall h b now iso => (releaseRuntimeWorkerCoordinatorOwnership h b now iso db).2
  end.

(** The call happens by [t], with the configured lifetime. *)
Definition call_by (ttl t : Z) (c : OwnershipCall) : Prop :=
  match c with
  | AcquireCall _ _ now ttl' _ | RenewCall _ _ now ttl' _ => now ≤ t ∧ ttl' = ttl
  | ReleaseCall _ _ now _ => now ≤ t
  end.

(** The call gives the epoch of [b] back on behalf of its owner. *)
Definition releases (b : RuntimeWorkerCoordinatorOwnershipBinding) (c : OwnershipCall) : Prop :=
  match c with
  | ReleaseCall _ b' _ _ => bi_owner b' = bi_owner b ∧ bi_epoch b' = bi_epoch b
  | _ => False
  end.

Lemma acquire_inr h i now ttl iso db r db' :
  acquireRuntimeWorkerCoordinatorOwnership h i now ttl iso db = (r, db') →
  own_step now ttl db db' ∧ match r with inr res => acquire_outcome i now ttl db db' res | inl _ => db' = db end.
Proof.
  unfold acquireRuntimeWorkerCoordinatorOwnership.
  destruct (assertOwnerIdentity i); [intros [= <- <-]; by repeat constructor|].
  destruct (checkedExpiry now ttl) as [err|e] eqn:He; [intros [= <- <-]; by repeat constructor|].
  apply checkedExpiry_inr in He as [Httl ->].
  destruct h; try (intros [= <- <-]; by repeat constructor).
  destruct (acquire_transaction _ _ _ _ _) as [err|[res db1]] eqn:Ht; [intros [= <- <-]; by repeat constructor|].
  intros [= <- <-]. by eapply acquire_transaction_inr.
Qed.

Lemma renew_step h b now ttl iso db :
  own_step now ttl db (renewRuntimeWorkerCoordinatorOwnership h b now ttl iso db).2.
Proof.
  unfold renewRuntimeWorkerCoordinatorOwnership. destruct (assertBinding b); [by constructor|].
  destruct (checkedExpiry now ttl) as [err|e] eqn:He; [by constructor|]. apply checkedExpiry_inr in He as [Httl ->].
  destruct (assertIsoTimestamp iso) as [err|t]; [by constructor|]. destruct (_ || _); [by constructor|].
  destruct (updateExactOwnershipHeartbeat _ _ _ _ _ _) as [err|[n db1]] eqn:Hu; [by constructor|].
  assert (own_step now ttl db db1).
  { apply heartbeat_inr in Hu as [[_ ->]|(_&r&h'&e&->&_&_&Hh&He&Hr&->)]; [by constructor|by econstructor]. }
  destruct (negb _); [done|]. destruct (bool_decide _); [done|]. destruct db1 as [r|]; [|done].
  destruct (negb _); [done|]. by destruct (bindingFromRow r).
Qed.

Lemma release_effect h b now iso db :
  let db' := (releaseRuntimeWorkerCoordinatorOwnership h b now iso db).2 in
  db' = db ∨ ∃ r t, db = Some r ∧ rowMatchesBinding r b = true ∧ db' = Some (released_row now t r).
Proof.
  unfold releaseRuntimeWorkerCoordinatorOwnership. destruct (first_error _); [by left|].
  destruct (assertIsoTimestamp iso) as [err|t]; [by left|]. destruct (_ || _); [by left|].
  destruct db as [r|]; [|by left]. destruct (rowMatchesBinding r b) eqn:Hm; [|by left]. cbn. eauto 10.
Qed.

Lemma rowMatchesBinding_spec r b :
  rowMatchesBinding r b = true ↔ rowHasIdentity r (bi_owner b) = true ∧ or_epoch r = bi_epoch b.
Proof. unfold rowMatchesBinding. by rewrite andb_true_iff, Z.eqb_eq. Qed.

(** ** Fencing and exclusion *)

Section granted.
Context (b : RuntimeWorkerCoordinatorOwnershipBinding).

(** The epoch of [b] has not been given to anyone else. *)
Definition fenced (db : OwnershipDb) : Prop :=
  ∃ r, db = Some r ∧
    (bi_epoch b < or_epoch r ∨
     bi_epoch b = or_epoch r ∧ (rowHasIdentity r (bi_owner b) = true ∨ or_owner_id r = None)).

(** The owner of [b] still holds the row, for at least as long as [b] says. *)
Definition held (ttl : Z) (db : OwnershipDb) : Prop :=
  ∃ r h, db = Some r ∧ rowHasIdentity r (bi_owner b) = true ∧ or_epoch r = bi_epoch b ∧
    or_heartbeat_at r = Some h ∧ or_expires_at r = Some (h + ttl) ∧ bi_expiresAtMs b ≤ h + ttl.

Lemma own_step_fenced now ttl db db' : own_step now ttl db db' → fenced db → fenced db'.
Proof.
  intros [| | |r i t Hfree] (r0&Hr0&Hf); simplify_eq; try by eexists.
  eexists. split; [done|]. left. cbn. destruct Hf as [?|[? _]]; lia.
Qed.

Lemma run_ownership_fenced db c : fenced db → fenced (run_ownership db c).
Proof.
  intros H. destruct c as [h i now ttl iso|h b' now ttl iso|h b' now iso]; cbn [run_ownership].
  - destruct (acquireRuntimeWorkerCoordinatorOwnership _ _ _ _ _ _) as [res db'] eqn:Ha.
    eapply own_step_fenced; [|done]. by eapply acquire_inr.
  - eapply own_step_fenced; [apply renew_step|done].
  - destruct (release_effect h b' now iso db) as [->|(r&t&->&Hm&->)]; [done|].
    destruct H as (r0&[= <-]&H). eexists. split; [done|]. cbn. destruct H as [?|[? _]]; auto.
Qed.

Lemma own_step_held now ttl db db' :
  own_step now ttl db db' → held ttl db → held ttl db' ∨ bi_expiresAtMs b ≤ now.
Proof.
  intros [| |r h e t Eh Ee Hr Httl|r i t Hfree Httl] (r0&h0&Hr0&Hi&He&Hh&Hx&Hb); simplify_eq; cbn.
  - left. exists r0, h0. done.
  - left. eexists _, now. split; [done|]. cbn. split_and!; auto. lia.
  - right. destruct Hfree as [Hnone|(e&?&?)]; [|simplify_eq; lia].
    apply rowHasIdentity_spec in Hi as (Ho&_). congruence.
Qed.

Lemma run_ownership_held ttl t db c :
  call_by ttl t c → held ttl db → held ttl (run_ownership db c) ∨ bi_expiresAtMs b ≤ t ∨ releases b c.
Proof.
  intros Hc H. destruct c as [h i now ttl' iso|h b' now ttl' iso|h b' now iso]; cbn [run_ownership call_by] in *.
  - destruct Hc as [Hn ->]. destruct (acquireRuntimeWorkerCoordinatorOwnership _ _ _ _ _ _) as [res db'] eqn:Ha.
    apply acquire_inr in Ha as [Hs _]. destruct (own_step_held _ _ _ _ Hs H); [by left|right; left; lia].
  - destruct Hc as [Hn ->]. destruct (own_step_held _ _ _ _ (renew_step h b' now ttl iso db) H);
      [by left|right; left; lia].
  - destruct (release_effect h b' now iso db) as [->|(r&u&->&Hm&->)]; [by left|].
    right; right. destruct H as (r0&h0&[= <-]&Hi&He&_). apply rowMatchesBinding_spec in Hm as [Hi' He'].
    split; [by eapply rowHasIdentity_inj|congruence].
Qed.

Lemma calls_held ttl t cs db :
  Forall (call_by ttl t) cs → held ttl db →
  held ttl (foldl run_ownership db cs) ∨ bi_expiresAtMs b ≤ t ∨ Exists (releases b) cs.
Proof.
  intros Hcs. revert db. induction Hcs as [|c cs Hc _ IH]; intros db H; [by left|]. cbn.
  destruct (run_ownership_held _ _ _ _ Hc H) as [H'|[?|?]]; [|by auto|by auto].
  destruct (IH _ H') as [?|[?|?]]; auto.
Qed.

Lemma calls_fenced cs db : fenced db → fenced (foldl run_ownership db cs).
Proof. revert db. induction cs as [|c cs IH]; intros db H; [done|]. apply IH, run_ownership_fenced, H. Qed.
End granted.

(** A row gets its next epoch only when it is free. *)
Lemma own_step_next now ttl r r' :
  own_step now ttl (Some r) (Some r') → or_epoch r' = or_epoch r + 1 →
  or_owner_id r = None ∨ ∃ e, or_expires_at r = Some e ∧ e ≤ now.
Proof. inversion 1; subst; cbn; intros ?; [lia|lia|done]. Qed.

(** C13. Ownership of the coordinator is exclusive and fenced.  When ownership is
    granted to one process and later, after any calls by any processes, to
    another, the later grant has a larger epoch; and if every call used the
    configured lifetime and happened by the time of the second grant, the first
    grant had expired or been released. *)
Theorem ownership_exclusive h i now ttl iso db b tk db1 cs h' j now' ttl' iso' b' tk' db2 :
  acquireRuntimeWorkerCoordinatorOwnership h i now ttl iso db = (inr (ownership_acquired b tk), db1) →
  acquireRuntimeWorkerCoordinatorOwnership h' j now' ttl' iso' (foldl run_ownership db1 cs)
    = (inr (ownership_acquired b' tk'), db2) →
  i ≠ j →
  bi_epoch b < bi_epoch b' ∧
  (Forall (call_by ttl now') cs → bi_expiresAtMs b ≤ now' ∨ Exists (releases b) cs).
Proof.
  intros (_&Ho&Hh&Hx&(r&->&Hr)&_)%acquire_inr [Hs (Ho'&_&_&(r2&->&Hr2)&Hep)]%acquire_inr Hij.
  apply bindingFromRow_inr in Hr as (Hi&He&Hrh&Hrx).
  assert (Hf : fenced b (Some r)) by (exists r; auto).
  assert (Hd : held b ttl (Some r)).
  { exists r, (bi_heartbeatAtMs b). split_and!; auto; [rewrite Hrx; f_equal; lia|lia]. }
  split.
  - apply (calls_fenced _ cs) in Hf as (r1&Hr1&Hf). rewrite Hr1 in Hep.
    destruct Hep as [[Hi1 Hep]|Hep]; [|destruct Hf as [?|[? _]]; lia].
    destruct Hf as [Hf|[Hf [Hid|Hnone]]]; [lia| |].
    + exfalso. apply Hij. rewrite <- Ho. by eapply rowHasIdentity_inj.
    + apply rowHasIdentity_spec in Hi1 as [Hi1 _]. congruence.
  - intros Hcs. destruct (calls_held b _ _ _ _ Hcs Hd) as [(r1&h1&Hr1&Hi1&He1&Hh1&Hx1&Hb1)|H]; [left|by auto].
    rewrite Hr1 in Hs, Hep. destruct Hep as [[Hi2 _]|Hep];
      [exfalso; apply Hij; rewrite <- Ho; by eapply rowHasIdentity_inj|].
    apply bindingFromRow_inr in Hr2 as (_&He2&_).
    destruct (own_step_next _ _ _ _ Hs) as [Hn|(e&?&?)]; [congruence| |simplify_eq; lia].
    apply rowHasIdentity_spec in Hi1 as [? _]. congruence.
Qed.

Definition owner_a : RuntimeWorkerCoordinatorOwnerIdentity := mkOwner "a" "dep-1" "rep-1".
Definition owner_b : RuntimeWorkerCoordinatorOwnerIdentity := mkOwner "b" "dep-2" "rep-1".
Definition binding_a : RuntimeWorkerCoordinatorOwnershipBinding := mkBinding owner_a 1 1000 1000 16000.
Definition binding_b : RuntimeWorkerCoordinatorOwnershipBinding := mkBinding owner_b 2 20000 20000 35000.
Definition row_a : RuntimeWorkerCoordinatorOwnershipRow := owned_row owner_a 1 1000 16000 0.

(** Witness of C13: a process is replaced after its ownership expired. *)
Lemma ownership_exclusive_witness :
  bi_epoch binding_a < bi_epoch binding_b ∧
  (Forall (call_by 15000 20000) [AcquireCall Healthy owner_b 9000 15000 (Some 0)] →
   bi_expiresAtMs binding_a ≤ 20000 ∨
   Exists (releases binding_a) [AcquireCall Healthy owner_b 9000 15000 (Some 0)]).
Proof.
  apply (ownership_exclusive Healthy owner_a 1000 15000 (Some 0) None binding_a false (Some row_a)
           [AcquireCall Healthy owner_b 9000 15000 (Some 0)] Healthy owner_b 20000 15000 (Some 0) binding_b true
           (Some (owned_row owner_b 2 20000 35000 0))).
  - vm_compute. reflexivity.
  - vm_compute. reflexivity.
  - intros H. discriminate H.
Defined.

(** ** Waiting for ownership *)

Definition valid_owner (i : RuntimeWorkerCoordinatorOwnerIdentity) : Prop :=
  validOpaqueId (ow_ownerId i) = true ∧ validOpaqueId (ow_deploymentId i) = true ∧ validOpaqueId (ow_replicaId i) = true.

Lemma assertOwnerIdentity_None i : assertOwnerIdentity i = None ↔ valid_owner i.
Proof. unfold assertOwnerIdentity, valid_owner. repeat destruct (validOpaqueId _); cbn; naive_solver. Qed.

Lemma assertTimestamp_None n : assertTimestamp n = None ↔ 0 ≤ n ≤ MAX_SAFE_INTEGER.
Proof. rewrite <- bad_timestamp. unfold assertTimestamp. by destruct (negb _ || _). Qed.

Lemma checkedExpiry_ok now ttl :
  0 ≤ now → 0 < ttl → now + ttl ≤ MAX_SAFE_INTEGER → checkedExpiry now ttl = inr (now + ttl).
Proof.
  intros Hn Ht Hs. unfold checkedExpiry. rewrite (proj2 (assertTimestamp_None now)) by lia.
  rewrite !(proj2 (isSafeInteger_spec _)) by (unfold MAX_SAFE_INTEGER in *; lia).
  by rewrite (proj2 (Z.ltb_ge _ _)) by lia.
Qed.

Lemma acquire_free_row i now ttl t r :
  valid_owner i → 0 ≤ now → 0 < ttl → now + ttl ≤ MAX_SAFE_INTEGER → 0 ≤ or_epoch r < MAX_SAFE_INTEGER →
  or_owner_id r = None ∨ (∃ e, or_expires_at r = Some e ∧ e ≤ now) →
  acquireRuntimeWorkerCoordinatorOwnership Healthy i now ttl (Some t) (Some r) =
  (inr (ownership_acquired (mkBinding i (or_epoch r + 1) now now (now + ttl)) (negb (is_null (or_owner_id r)))),
   Some (owned_row i (or_epoch r + 1) now (now + ttl) t)).
Proof.
  intros Hi Hn Ht Hs He Hfree. unfold acquireRuntimeWorkerCoordinatorOwnership.
  rewrite (proj2 (assertOwnerIdentity_None i)), checkedExpiry_ok by done.
  unfold acquire_transaction. cbn [assertIsoTimestamp].
  assert (negb (is_null (or_owner_id r)) && expires_after r now = false) as ->.
  { unfold expires_after. destruct Hfree as [->|(e&->&Hle)]; [done|].
      rewrite (proj2 (Z.ltb_ge _ _)) by lia. apply andb_false_r. }
  unfold take_over, checkedNextEpoch.
  rewrite !(proj2 (isSafeInteger_spec _)), (proj2 (Z.ltb_ge _ _)) by (unfold MAX_SAFE_INTEGER in *; lia). cbn [negb orb].
  assert (is_null (or_owner_id r)
          || match or_expires_at r with Some e => e <=? now | None => false end = true) as ->.
  { destruct Hfree as [->|(e&->&Hle)]; [done|]. rewrite (proj2 (Z.leb_le _ _)) by lia. apply orb_true_r. }
  unfold write_row, owned_row, ownership_checks. cbn.
  rewrite (proj2 (Z.leb_le _ _)), !(proj2 (Z.ltb_lt _ _)), Z.leb_refl by lia. cbn. by destruct i.
Qed.

(** The wait that a refused process is told is exact: the refusal changes
    nothing, the process is still refused one millisecond too early, and if the
    owner does not renew meanwhile, asking again after that wait succeeds, as a
    take-over at the next epoch. *)
Theorem ownership_retry_after h i now ttl iso r d db' t :
  acquireRuntimeWorkerCoordinatorOwnership h i now ttl iso (Some r) =
    (inr (ownership_unavailable active_owner (Some d)), db') →
  valid_owner i → 0 ≤ now → 0 ≤ or_epoch r < MAX_SAFE_INTEGER → now + d + ttl ≤ MAX_SAFE_INTEGER → 0 < ttl →
  db' = Some r ∧ 0 < d ∧
  (acquireRuntimeWorkerCoordinatorOwnership Healthy i (now + d - 1) ttl (Some t) db').1 =
    inr (ownership_unavailable active_owner (Some 1)) ∧
  (acquireRuntimeWorkerCoordinatorOwnership Healthy i (now + d) ttl (Some t) db').1 =
    inr (ownership_acquired (mkBinding i (or_epoch r + 1) (now + d) (now + d) (now + d + ttl)) true).
Proof.
  intros (_&r0&e&[= <-]&->&Hi&Ho&He&Hlt&[= ->])%acquire_inr Hv Hn Hep Hs Httl.
  replace (now + (e - now)) with e in * by lia. split_and!; [done|lia| |].
  - unfold acquireRuntimeWorkerCoordinatorOwnership.
    rewrite (proj2 (assertOwnerIdentity_None i)) by done. rewrite checkedExpiry_ok by lia.
    unfold acquire_transaction, expires_after. rewrite He, (proj2 (Z.ltb_lt _ _)), Hi by lia.
    destruct (or_owner_id r); [|done]. cbn. unfold id. do 3 f_equal. lia.
  - rewrite acquire_free_row; [|done|lia|lia|lia|lia|right; eauto with lia]. by destruct (or_owner_id r).
Qed.

(** For example: the owner's lease has 7 seconds left. *)
Lemma ownership_retry_after_witness :
  Some row_a = Some row_a ∧ 0 < 7000 ∧
  (acquireRuntimeWorkerCoordinatorOwnership Healthy owner_b (9000 + 7000 - 1) 15000 (Some 0) (Some row_a)).1 =
    inr (ownership_unavailable active_owner (Some 1)) ∧
  (acquireRuntimeWorkerCoordinatorOwnership Healthy owner_b (9000 + 7000) 15000 (Some 0) (Some row_a)).1 =
    inr (ownership_acquired (mkBinding owner_b (or_epoch row_a + 1) (9000 + 7000) (9000 + 7000) (9000 + 7000 + 15000)) true).
Proof.
  apply (ownership_retry_after Healthy owner_b 9000 15000 (Some 0) row_a 7000 (Some row_a) 0).
  - vm_compute. reflexivity.
  - vm_compute. auto.
  - lia.
  - cbn. unfold MAX_SAFE_INTEGER. lia.
  - unfold MAX_SAFE_INTEGER. lia.
  - lia.
Defined.

(** ** Guards *)

(** A call on a guard, with the state of the database it finds. *)
Inductive GuardCall :=
  | GuardIsLive (health : DbHealth) (nowMs : Z) (db : OwnershipDb)
  | GuardRenew (health : DbHealth) (nowMs ttl : Z) (nowIso : option Z) (db : OwnershipDb)
  | GuardFence
  | GuardRelease (health : DbHealth) (nowMs : Z) (nowIso : option Z) (db : OwnershipDb).

(** Whether the guard said that it owns the coordinator, and the guard after. *)
Definition run_guard (c : GuardCall) (g : RuntimeWorkerCoordinatorOwnershipGuard)
    : bool * RuntimeWorkerCoordinatorOwnershipGuard :=
  match c with
  | GuardIsLive h now db => guard_isLive h now db g
  | GuardRenew h now ttl iso db =>
      let '(r, _, g') := guard_renew h now ttl iso db g in
      (match r with ownership_renewed _ => true | renew_lost => false end, g')
  | GuardFence => (false, guard_fence g)
  | GuardRelease h now iso db => (false, (guard_release h now iso db g).2)
  end.

Fixpoint run_guards (cs : list GuardCall) (g : RuntimeWorkerCoordinatorOwnershipGuard)
    : list bool * RuntimeWorkerCoordinatorOwnershipGuard :=
  match cs with
  | [] => ([], g)
  | c :: cs' =>
      let '(a, g1) := run_guard c g in
      let '(l, g2) := run_guards cs' g1 in (a :: l, g2)
  end.

Lemma run_guard_false c g g' : run_guard c g = (false, g') → gu_live g' = false.
Proof.
  destruct c as [h now db|h now ttl iso db| |h now iso db]; cbn.
  - unfold guard_isLive. destruct (gu_live g) eqn:Hg; cbn; [|by intros [= <-]].
    destruct (runtimeWorkerCoordinatorOwnershipIsLive _ _ _ _) as [?|[]]; by intros [= <-].
  - unfold guard_renew. destruct (gu_live g) eqn:Hg; cbn; [|by intros [= <-]].
    destruct (renewRuntimeWorkerCoordinatorOwnership _ _ _ _ _ _) as [[?|[]] ?]; by intros [= <-].
  - by intros [= <-].
  - unfold guard_release. destruct (releaseRuntimeWorkerCoordinatorOwnership _ _ _ _ _) as [[?|?] ?];
      by intros [= <-].
Qed.

Lemma run_guard_lowered c g : gu_live g = false → (run_guard c g).1 = false.
Proof.
  intros Hg. destruct c as [h now db|h now ttl iso db| |h now iso db]; cbn;
    unfold guard_isLive, guard_renew; by rewrite ?Hg.
Qed.

Lemma run_guards_lowered cs g : gu_live g = false → Forall (.= false) (run_guards cs g).1.
Proof.
  revert g. induction cs as [|c cs IH]; intros g Hg; [constructor|]. cbn.
  pose proof (run_guard_lowered c g Hg) as Hc. destruct (run_guard c g) as [a g1] eqn:Hr. cbn in Hc. subst a.
  specialize (IH g1 (run_guard_false _ _ _ Hr)). destruct (run_guards cs g1). by constructor.
Qed.

Lemma guard_isLive_true h now db g g' :
  guard_isLive h now db g = (true, g') →
  ∃ r, db = Some r ∧ rowMatchesBinding r (gu_currentBinding g) = true ∧ expires_after r now = true.
Proof.
  unfold guard_isLive. destruct (negb _); [done|].
  destruct (runtimeWorkerCoordinatorOwnershipIsLive _ _ _ _) as [?|[]] eqn:H; [done| |done]. intros _. revert H.
  unfold runtimeWorkerCoordinatorOwnershipIsLive. destruct (first_error _); [done|]. destruct h; try done.
  destruct db as [r|]; [|done]. intros [= [? ?]%andb_true_iff]. eauto.
Qed.

(** A guard fails closed and for good, and two guards never both say yes
    for different owners or epochs: after its first negative answer (ownership
    lost, a failing database, [fence] or [release]) no later call of a guard
    answers positively, whatever the database contains; and guards that
    say they are live at the same time on the same database are guards of the
    same owner and epoch. *)
Theorem guards_fail_closed cs c cs' g :
  let answers := (run_guards (cs ++ c :: cs') g).1 in
  (answers !! length cs = Some false → Forall (.= false) (drop (length cs) answers)) ∧
  ∀ h1 h2 now db g1 g2 g1' g2',
    guard_isLive h1 now db g1 = (true, g1') → guard_isLive h2 now db g2 = (true, g2') →
    bi_owner (gu_currentBinding g1) = bi_owner (gu_currentBinding g2) ∧
    bi_epoch (gu_currentBinding g1) = bi_epoch (gu_currentBinding g2).
Proof.
  cbn zeta. split.
  - revert g. induction cs as [|c0 cs IH]; intros g; cbn.
    + destruct (run_guard c g) as [a g1] eqn:Hr. pose proof (run_guards_lowered cs' g1) as Hl.
      destruct (run_guards cs' g1) as [l g2]. cbn. intros [= ->].
      constructor; [done|]. eapply Hl, run_guard_false, Hr.
    + destruct (run_guard c0 g) as [a g1]. specialize (IH g1). by destruct (run_guards (cs ++ c :: cs') g1).
  - intros h1 h2 now db g1 g2 g1' g2' (r&->&Hm1&_)%guard_isLive_true (r'&[= <-]&Hm2&_)%guard_isLive_true.
    apply rowMatchesBinding_spec in Hm1 as [Hi1 He1], Hm2 as [Hi2 He2].
    split; [by eapply rowHasIdentity_inj|congruence].
Qed.
