(* ===== verification/SessionLeases.v ===== *)
(** * Held voice sessions and the choice of a runtime

    [RuntimeWorkerSessionLeaseRegistry] of
    src/control-plane/src/runtime-worker-session-leases.ts keeps the lease of a
    pooled worker while a voice session lasts: a retained request handle is given
    back by the session's owner, or by a timer at its expiry.  Then the paths of
    the session routes, and the choice between a dedicated runtime and the pool
    (src/control-plane/src/runtime-worker-routing-policy.ts).

    The timer service and the coordinator are options of the registry.  The timers
    that are pending are part of the state; the coordinator's answer is an
    argument, [None] when it throws; the calls made to it are recorded. *)
From S2P Require Import Prelude JsText Identifiers.

Definition MAX_VOICE_SESSION_TTL_MS : Z := 31 * 60 * 1000.
Definition DEFAULT_MAX_HELD_SESSIONS : Z := 1000.

Record RuntimeWorkerRouteIdentity := mkIdentity {
  ri_organizationId : string;
  ri_userId : string;
  ri_assistantId : string;
  ri_actorId : string;
}.
#[global] Instance RuntimeWorkerRouteIdentity_eq_dec : EqDecision RuntimeWorkerRouteIdentity.
Proof. solve_decision. Defined.

Definition sameIdentity (left right : RuntimeWorkerRouteIdentity) : bool :=
  eqs (ri_organizationId left) (ri_organizationId right) && eqs (ri_userId left) (ri_userId right)
  && eqs (ri_assistantId left) (ri_assistantId right) && eqs (ri_actorId left) (ri_actorId right).

Definition validIdentity (value : RuntimeWorkerRouteIdentity) : bool :=
  validOpaqueId (ri_organizationId value) && validOpaqueId (ri_userId value)
  && validOpaqueId (ri_assistantId value) && validOpaqueId (ri_actorId value).

(** The answers of the coordinator's [finishRequest]. *)
Inductive RuntimeWorkerRequestFinishResult :=
  | unknown_request
  | route_handle_mismatch
  | still_active (activeRequestCount : nat)
  | release_scheduled
  | released
  | release_failed (reason : string).

Record HeldRuntimeSession := mkHeld {
  hs_sessionId : string;
  hs_requestHandle : string;
  hs_identity : RuntimeWorkerRouteIdentity;
  hs_expiresAtMs : Z;
  hs_expiryTimer : nat;
}.

Record SessionRegistry := mkRegistry {
  sr_held : gmap string HeldRuntimeSession;
  sr_timers : gmap nat (string * Z);      (* pending: the session it releases, and when *)
  sr_nextTimer : nat;
  sr_finished : list (string * RuntimeWorkerRouteIdentity);  (* calls of [finishRequest] *)
  sr_failures : list (string * option RuntimeWorkerRequestFinishResult);  (* calls of [onReleaseFailure] *)
}.

Inductive HoldRejection := invalid_session | invalid_expiry | session_capacity_exhausted | session_conflict.

Inductive HoldRuntimeVoiceSessionResult := held | already_held | rejected (reason : HoldRejection).

(** The constructor. *)
Definition new_registry (maxHeldSessions : Z) : string + SessionRegistry :=
  if negb (isSafeInteger maxHeldSessions) || (maxHeldSessions <? 1)
  then inl "Runtime held-session capacity is invalid."
  else inr (mkRegistry ∅ ∅ 0 [] []).

(** [timer.schedule] of the release of a session. *)
Definition schedule_expiry (s : HeldRuntimeSession) (r : SessionRegistry) : SessionRegistry :=
  mkRegistry (<[hs_sessionId s := s]> (sr_held r))
    (<[sr_nextTimer r := (hs_sessionId s, hs_expiresAtMs s)]> (sr_timers r)) (S (sr_nextTimer r))
    (sr_finished r) (sr_failures r).

Definition holdLiveVoiceSession (maxHeldSessions now : Z) (sessionId requestHandle : string)
    (identity : RuntimeWorkerRouteIdentity) (expiresAtMs : Z) (r : SessionRegistry)
    : HoldRuntimeVoiceSessionResult * SessionRegistry :=
  if negb (validOpaqueId sessionId) || negb (validOpaqueId requestHandle) || negb (validIdentity identity)
  then (rejected invalid_session, r)
  else if negb (isSafeInteger now) || negb (isSafeInteger expiresAtMs) || (expiresAtMs <=? now)
          || (MAX_VOICE_SESSION_TTL_MS <? expiresAtMs - now)
  then (rejected invalid_expiry, r)
  else match sr_held r !! sessionId with
  | Some existing =>
      if eqs (hs_requestHandle existing) requestHandle && sameIdentity (hs_identity existing) identity
         && (hs_expiresAtMs existing =? expiresAtMs)
      then (already_held, r)
      else (rejected session_conflict, r)
  | None =>
      if maxHeldSessions <=? Z.of_nat (size (sr_held r)) then (rejected session_capacity_exhausted, r)
      else (held, schedule_expiry (mkHeld sessionId requestHandle identity expiresAtMs (sr_nextTimer r)) r)
  end.

(** Whether [onReleaseFailure] hears of an answer. *)
Definition reports (result : option RuntimeWorkerRequestFinishResult) : bool :=
  match result with
  | None | Some unknown_request | Some route_handle_mismatch | Some (release_failed _) => true
  | _ => false
  end.

Definition finish_session (answer : option RuntimeWorkerRequestFinishResult) (session : HeldRuntimeSession)
    (r : SessionRegistry) : option RuntimeWorkerRequestFinishResult * SessionRegistry :=
  (answer,
   mkRegistry (sr_held r) (sr_timers r) (sr_nextTimer r)
     (sr_finished r ++ [(hs_requestHandle session, hs_identity session)])
     (if reports answer then sr_failures r ++ [(hs_sessionId session, answer)] else sr_failures r)).

Definition unhold (sessionId : string) (timers : gmap nat (string * Z)) (r : SessionRegistry) : SessionRegistry :=
  mkRegistry (delete sessionId (sr_held r)) timers (sr_nextTimer r) (sr_finished r) (sr_failures r).

Definition releaseLiveVoiceSession (answer : option RuntimeWorkerRequestFinishResult) (sessionId : string)
    (identity : RuntimeWorkerRouteIdentity) (r : SessionRegistry)
    : option RuntimeWorkerRequestFinishResult * SessionRegistry :=
  match sr_held r !! sessionId with
  | None => (None, r)
  | Some existing =>
      if negb (sameIdentity (hs_identity existing) identity) then (None, r)
      else finish_session answer existing
             (unhold (hs_sessionId existing) (delete (hs_expiryTimer existing) (sr_timers r)) r)
  end.

Definition hasLiveVoiceSession (now : Z) (sessionId : string) (identity : RuntimeWorkerRouteIdentity)
    (r : SessionRegistry) : bool :=
  match sr_held r !! sessionId with
  | None => false
  | Some existing => (now <? hs_expiresAtMs existing) && sameIdentity (hs_identity existing) identity
  end.

Definition releaseExpiredSession (answer : option RuntimeWorkerRequestFinishResult) (sessionId : string)
    (r : SessionRegistry) : SessionRegistry :=
  match sr_held r !! sessionId with
  | None => r
  | Some existing => (finish_session answer existing (unhold sessionId (sr_timers r) r)).2
  end.

(** A pending timer fires once: its callback runs. *)
Definition fire_timer (answer : option RuntimeWorkerRequestFinishResult) (timer : nat) (r : SessionRegistry)
    : SessionRegistry :=
  match sr_timers r !! timer with
  | None => r
  | Some (sessionId, _) =>
      releaseExpiredSession answer sessionId
        (mkRegistry (sr_held r) (delete timer (sr_timers r)) (sr_nextTimer r) (sr_finished r) (sr_failures r))
  end.

(** ** Paths *)

(** [/^\/v1\/assistants\/[^/]+\/live-voice\/sessions\/?$/u] *)
Definition isLiveVoiceSessionBootstrapPath (method pathname : string) : bool :=
  eqs (toUpperCase method) "POST" &&
  match js_split "/" pathname with
  | [""; "v1"; "assistants"; assistant; "live-voice"; "sessions"]
  | [""; "v1"; "assistants"; assistant; "live-voice"; "sessions"; ""] => truthy assistant
  | _ => false
  end.

(** The session of [/^\/v1\/assistants\/[^/]+\/live-voice\/sessions\/([^/]+)\/?$/u]. *)
Definition session_segment (pathname : string) : option string :=
  match js_split "/" pathname with
  | [""; "v1"; "assistants"; assistant; "live-voice"; "sessions"; session]
  | [""; "v1"; "assistants"; assistant; "live-voice"; "sessions"; session; ""] =>
      if truthy assistant && truthy session then Some session else None
  | _ => None
  end.

Definition liveVoiceSessionReleaseId (method pathname : string) : option string :=
  if negb (eqs (toUpperCase method) "DELETE") then None
  else match session_segment pathname with
  | None => None
  | Some segment =>
      match decodeURIComponent segment ≫= of_units with
      | None => None
      | Some decoded =>
          if validOpaqueId decoded && negb (has_char "/" decoded) && negb (has_char "\" decoded)
             && eqs (encodeURIComponent decoded) segment
          then Some decoded else None
      end
  end.

(** The answer of the bootstrap request, as JSON: a field is [None] when it is
    missing or not a string. *)
Record BootstrapBody := mkBootstrap {
  bb_sessionId : option string;
  bb_expiresAt : option string;
  bb_engine : option string;
  bb_connection_transport : option string;
}.

(** The session and its expiry; the body is [None] if it is not a plain object, and
    [date_parse] is [Date.parse], [None] for NaN. *)
Definition parsePooledVoiceSessionBootstrap (date_parse : string → option Z) (value : option BootstrapBody)
    : option (string * Z) :=
  body ← value;
  sessionId ← bb_sessionId body;
  expiresAt ← bb_expiresAt body;
  if negb (validOpaqueId sessionId) || negb (truthy expiresAt) then None
  else
    expiresAtMs ← date_parse expiresAt;
    if isSafeInteger expiresAtMs then Some (sessionId, expiresAtMs) else None.

Definition parseManagedPooledVoiceSessionBootstrap (date_parse : string → option Z) (value : option BootstrapBody)
    : option (string * Z) :=
  body ← value;
  if negb (eqos (bb_engine body) (Some "hume")) || negb (eqos (bb_connection_transport body) (Some "hume")) then None
  else parsePooledVoiceSessionBootstrap date_parse value.

(** ** The choice of a runtime *)

Inductive RuntimeStackStatus := provisioning | stack_active | stack_failed | suspended | deleted.
#[global] Instance RuntimeStackStatus_eq_dec : EqDecision RuntimeStackStatus.
Proof. solve_decision. Defined.

(** The columns the policy reads. *)
Record RuntimeStackRow := mkStackRow {
  st_id : string;
  st_status : RuntimeStackStatus;
  st_gateway_url : option string;
  st_workspace_volume_ref : option string;
  st_service_ref : option string;
  st_service_capacity_reserved : Z;
  st_service_create_attempted_at : option Z;
  st_volume_create_attempted_at : option Z;
  st_provisioning_lease_token : option string;
}.

Inductive RoutingUnavailable :=
  | pool_disabled | dedicated_runtime_in_transition | dedicated_runtime_suspended | dedicated_runtime_deleted.

Inductive RuntimeWorkerRoutingPolicy :=
  | mode_dedicated (stack : RuntimeStackRow)
  | mode_pooled
  | mode_unavailable (reason : RoutingUnavailable).

Definition dedicatedRuntimeOwnsResources (stack : RuntimeStackRow) : bool :=
  negb (is_null (st_gateway_url stack)) || negb (is_null (st_service_ref stack))
  || negb (is_null (st_workspace_volume_ref stack)) || negb (st_service_capacity_reserved stack =? 0)
  || negb (is_null (st_provisioning_lease_token stack)) || negb (is_null (st_service_create_attempted_at stack))
  || negb (is_null (st_volume_create_attempted_at stack)).

Definition selectRuntimeWorkerRoutingPolicy (stack : RuntimeStackRow) (coordinatorEnabled : bool) (nowMs : Z)
    : string + RuntimeWorkerRoutingPolicy :=
  if negb (isSafeInteger nowMs) || (nowMs <? 0) then inl "Runtime routing policy time is invalid."
  else if bool_decide (st_status stack = stack_active) && truthy_opt (st_gateway_url stack)
  then inr (mode_dedicated stack)
  else if bool_decide (st_status stack = suspended) then inr (mode_unavailable dedicated_runtime_suspended)
  else if bool_decide (st_status stack = deleted) then inr (mode_unavailable dedicated_runtime_deleted)
  else if negb coordinatorEnabled then inr (mode_unavailable pool_disabled)
  else if negb (bool_decide (st_status stack = provisioning)) && negb (bool_decide (st_status stack = stack_failed))
          || dedicatedRuntimeOwnsResources stack
  then inr (mode_unavailable dedicated_runtime_in_transition)
  else inr mode_pooled.

(** ** The registry's invariant *)

Lemma sameIdentity_spec a b : sameIdentity a b = true ↔ a = b.
Proof.
  unfold sameIdentity, eqs. rewrite !andb_true_iff, !bool_decide_eq_true. destruct a, b. cbn.
  split; [naive_solver|by intros [= <- <- <- <-]].
Qed.

(** Held sessions and pending timers correspond. *)
Record registry_ok (maxHeldSessions : Z) (r : SessionRegistry) : Prop := {
  ro_held : ∀ sid h, sr_held r !! sid = Some h →
    hs_sessionId h = sid ∧ sr_timers r !! hs_expiryTimer h = Some (sid, hs_expiresAtMs h);
  ro_timers : ∀ t sid e, sr_timers r !! t = Some (sid, e) → ∃ h, sr_held r !! sid = Some h ∧ hs_expiryTimer h = t;
  ro_next : ∀ t, is_Some (sr_timers r !! t) → (t < sr_nextTimer r)%nat;
  ro_size : Z.of_nat (size (sr_held r)) ≤ maxHeldSessions;
}.

Inductive SessionCall :=
  | HoldCall (now : Z) (sessionId requestHandle : string) (identity : RuntimeWorkerRouteIdentity) (expiresAtMs : Z)
  | ReleaseCall (answer : option RuntimeWorkerRequestFinishResult) (sessionId : string)
      (identity : RuntimeWorkerRouteIdentity)
  | TimerCall (answer : option RuntimeWorkerRequestFinishResult) (timer : nat).

(** The handle a call gives to the registry, if it takes it, and the registry. *)
Definition run_session (maxHeldSessions : Z) (c : SessionCall) (r : SessionRegistry)
    : list (string * RuntimeWorkerRouteIdentity) * SessionRegistry :=
  match c with
  | HoldCall now sid handle i e =>
      let '(res, r') := holdLiveVoiceSession maxHeldSessions now sid handle i e r in
      (match res with held => [(handle, i)] | _ => [] end, r')
  | ReleaseCall answer sid i => ([], (releaseLiveVoiceSession answer sid i r).2)
  | TimerCall answer t => ([], fire_timer answer t r)
  end.

Fixpoint run_sessions (maxHeldSessions : Z) (cs : list SessionCall) (r : SessionRegistry)
    : list (string * RuntimeWorkerRouteIdentity) * SessionRegistry :=
  match cs with
  | [] => ([], r)
  | c :: cs' =>
      let '(l, r1) := run_session maxHeldSessions c r in
      let '(l', r2) := run_sessions maxHeldSessions cs' r1 in (l ++ l', r2)
  end.

(** The handles that are held. *)
Definition held_handles (r : SessionRegistry) : list (string * RuntimeWorkerRouteIdentity) :=
  (λ kh, (hs_requestHandle kh.2, hs_identity kh.2)) <$> map_to_list (sr_held r).

(** Taking a session out of the registry, its timer gone. *)
Lemma unhold_ok max sid h r :
  registry_ok max r → sr_held r !! sid = Some h →
  registry_ok max (unhold sid (delete (hs_expiryTimer h) (sr_timers r)) r).
Proof.
  intros Hok Hh. destruct (ro_held _ _ Hok _ _ Hh) as [Hsid Ht]. split; cbn.
  - intros sid' h' [Hne H']%lookup_delete_Some. destruct (ro_held _ _ Hok _ _ H') as [Hsid' Ht']. split; [done|].
    rewrite lookup_delete_ne; [done|]. intros Heq. rewrite <- Heq in Ht'. congruence.
  - intros t sid' e [Hne H']%lookup_delete_Some. destruct (ro_timers _ _ Hok _ _ _ H') as (h'&Hh'&Ht').
    exists h'. split; [|done]. rewrite lookup_delete_ne; [done|]. intros ->. simplify_eq.
  - intros t [x [_ H']%lookup_delete_Some]. apply (ro_next _ _ Hok). eauto.
  - rewrite map_size_delete, Hh. pose proof (ro_size _ _ Hok). lia.
Qed.

Lemma finish_ok max answer s r : registry_ok max r → registry_ok max (finish_session answer s r).2.
Proof. intros []. by split. Qed.

Lemma hold_ok max now sid handle i e r :
  registry_ok max r → registry_ok max (holdLiveVoiceSession max now sid handle i e r).2.
Proof.
  intros Hok. unfold holdLiveVoiceSession. destruct (_ || negb (validIdentity i)); [done|].
  destruct (_ || (MAX_VOICE_SESSION_TTL_MS <? _)); [done|].
  destruct (sr_held r !! sid) as [h|] eqn:Hh; [by destruct (_ && _)|].
  destruct (max <=? _) eqn:Hmax; [done|]. apply Z.leb_gt in Hmax.
  assert (Hfresh : sr_timers r !! sr_nextTimer r = None).
  { apply eq_None_not_Some. intros H%(ro_next _ _ Hok). lia. }
  split; cbn.
  - intros sid' h' [[<- <-]|[Hne H']]%lookup_insert_Some; [by rewrite lookup_insert_eq|].
    destruct (ro_held _ _ Hok _ _ H') as [? Ht]. split; [done|].
    rewrite lookup_insert_ne; [done|]. intros Heq. rewrite <- Heq in Ht. congruence.
  - intros t sid' e' [[<- [= <- <-]]|[Hne H']]%lookup_insert_Some; [rewrite lookup_insert_eq; eauto|].
    destruct (ro_timers _ _ Hok _ _ _ H') as (h'&Hh'&?). exists h'. split; [|done].
    rewrite lookup_insert_ne; [done|]. intros ->. congruence.
  - intros t [x [[<- _]|[_ H']]%lookup_insert_Some]; [lia|].
    enough (t < sr_nextTimer r)%nat by lia. apply (ro_next _ _ Hok). eauto.
  - rewrite map_size_insert, Hh. lia.
Qed.

(** A timer of a held session releases that session. *)
Lemma fire_timer_held max answer t sid e r :
  registry_ok max r → sr_timers r !! t = Some (sid, e) →
  ∃ h, sr_held r !! sid = Some h ∧ hs_expiryTimer h = t ∧ hs_expiresAtMs h = e ∧
    fire_timer answer t r = (finish_session answer h (unhold sid (delete t (sr_timers r)) r)).2.
Proof.
  intros Hok Ht. destruct (ro_timers _ _ Hok _ _ _ Ht) as (h&Hh&Heq). exists h.
  destruct (ro_held _ _ Hok _ _ Hh) as [_ Ht']. rewrite Heq in Ht'.
  unfold fire_timer, releaseExpiredSession. rewrite Ht. cbn. rewrite Hh. split_and!; try done. congruence.
Qed.

(** Every step keeps the invariant and the account of handles. *)
Lemma run_session_ok max c r :
  registry_ok max r →
  registry_ok max (run_session max c r).2 ∧
  sr_finished (run_session max c r).2 ++ held_handles (run_session max c r).2
    ≡ₚ (sr_finished r ++ held_handles r) ++ (run_session max c r).1.
Proof.
  intros Hok.
  assert (Hgone : ∀ answer sid h t, sr_held r !! sid = Some h → hs_expiryTimer h = t →
    let r' := (finish_session answer h (unhold sid (delete t (sr_timers r)) r)).2 in
    registry_ok max r' ∧ sr_finished r' ++ held_handles r' ≡ₚ (sr_finished r ++ held_handles r) ++ []).
  { intros answer sid h t Hh <-. split; [by apply finish_ok, unhold_ok|]. cbn. unfold held_handles. cbn.
    rewrite <- (map_to_list_delete _ _ _ Hh). cbn. rewrite app_nil_r, <- app_assoc. done. }
  assert (Hsame : registry_ok max r ∧ sr_finished r ++ held_handles r ≡ₚ (sr_finished r ++ held_handles r) ++ []).
  { by rewrite app_nil_r. }
  destruct c as [now sid handle i e|answer sid i|answer t]; cbn [run_session].
  - pose proof (hold_ok max now sid handle i e r Hok) as Hok'. revert Hok'. unfold holdLiveVoiceSession.
    destruct (_ || negb (validIdentity i)); [done|]. destruct (_ || (MAX_VOICE_SESSION_TTL_MS <? _)); [done|].
    destruct (sr_held r !! sid) as [h|] eqn:Hh; [by destruct (_ && _)|]. destruct (max <=? _); [done|].
    intros Hok'. split; [done|]. cbn. unfold held_handles. cbn. rewrite map_to_list_insert by done. cbn.
    rewrite <- app_assoc. apply Permutation_app_head. by rewrite <- Permutation_cons_append.
  - unfold releaseLiveVoiceSession. destruct (sr_held r !! sid) as [h|] eqn:Hh; [|done].
    destruct (negb _); [done|]. destruct (ro_held _ _ Hok _ _ Hh) as [-> _]. by apply Hgone.
  - destruct (sr_timers r !! t) as [[sid e]|] eqn:Ht; [|unfold fire_timer; by rewrite Ht].
    destruct (fire_timer_held max answer t sid e r Hok Ht) as (h&Hh&Heq&_&->). by apply Hgone.
Qed.

Lemma run_sessions_ok max cs r :
  registry_ok max r →
  registry_ok max (run_sessions max cs r).2 ∧
  sr_finished (run_sessions max cs r).2 ++ held_handles (run_sessions max cs r).2
    ≡ₚ (sr_finished r ++ held_handles r) ++ (run_sessions max cs r).1.
Proof.
  revert r. induction cs as [|c cs IH]; intros r Hok; cbn; [by rewrite app_nil_r|].
  destruct (run_session_ok max c r Hok) as [Hok1 Hp1]. destruct (run_session max c r) as [l r1]. cbn in *.
  destruct (IH r1 Hok1) as [Hok2 Hp2]. destruct (run_sessions max cs r1) as [l' r2]. cbn in *.
  split; [done|]. by rewrite Hp2, Hp1, app_assoc.
Qed.

(** C14. No retained worker is lost and none is given back twice: along every
    sequence of holds, releases and timers, the request handles that the registry
    accepted are, with their multiplicity, those it has given back to the
    coordinator and those it still holds; it holds at most its capacity, and every
    held session has its own pending timer at the session's expiry, no timer
    pending otherwise. *)
Theorem sessions_accounted max r0 cs accepted r :
  new_registry max = inr r0 → run_sessions max cs r0 = (accepted, r) →
  accepted ≡ₚ sr_finished r ++ held_handles r ∧ registry_ok max r.
Proof.
  unfold new_registry. destruct (_ || _) eqn:Hmax; [done|]. intros [= <-] Hrun.
  apply orb_false_iff in Hmax as [_ Hmax%Z.ltb_ge].
  assert (Hok : registry_ok max (mkRegistry ∅ ∅ 0 [] [])).
  { split; cbn; [done..| |rewrite map_size_empty; lia]. intros t [? ?]. set_solver. }
  destruct (run_sessions_ok max cs _ Hok) as [H1 H2]. rewrite Hrun in H1, H2. cbn in *. split; [|done].
  by rewrite H2.
Qed.

Definition user_1 : RuntimeWorkerRouteIdentity := mkIdentity "org" "user-1" "asst" "actor".
Definition user_2 : RuntimeWorkerRouteIdentity := mkIdentity "org" "user-2" "asst" "actor".

(** Three sessions: one is released, one expires, one is held. *)
Definition demo_sessions : list SessionCall :=
  [HoldCall 0 "s1" "h1" user_1 60000; HoldCall 10 "s2" "h2" user_2 60000; ReleaseCall (Some released) "s1" user_2;
   ReleaseCall (Some released) "s1" user_1; HoldCall 20 "s3" "h3" user_1 90000; TimerCall None 1; TimerCall None 0].
Definition empty_registry : SessionRegistry := mkRegistry ∅ ∅ 0 [] [].

(** Witness of C14: three sessions in a registry of two. *)
Lemma sessions_accounted_witness :
  (run_sessions 2 demo_sessions empty_registry).1
    ≡ₚ sr_finished (run_sessions 2 demo_sessions empty_registry).2
       ++ held_handles (run_sessions 2 demo_sessions empty_registry).2
  ∧ registry_ok 2 (run_sessions 2 demo_sessions empty_registry).2.
Proof.
  apply (sessions_accounted 2 empty_registry demo_sessions).
  - vm_compute. reflexivity.
  - vm_compute. reflexivity.
Defined.

Example demo_sessions_finished :
  sr_finished (run_sessions 2 demo_sessions empty_registry).2 = [("h1", user_1); ("h2", user_2)]
  ∧ held_handles (run_sessions 2 demo_sessions empty_registry).2 = [("h3", user_1)].
Proof. vm_compute. done. Qed.

(** A held session is invisible to every identity but its own. *)
Lemma session_isolated answer now sid h i r :
  sr_held r !! sid = Some h → hs_identity h ≠ i →
  releaseLiveVoiceSession answer sid i r = (None, r) ∧ hasLiveVoiceSession now sid i r = false.
Proof.
  intros Hh Hne. unfold releaseLiveVoiceSession, hasLiveVoiceSession. rewrite Hh.
  destruct (sameIdentity (hs_identity h) i) eqn:Hs; [by apply sameIdentity_spec in Hs|].
  split; [done|apply andb_false_r].
Qed.

(** The path of a session names exactly that session: a DELETE request to
    the sessions path of an assistant, ending in the encoded session identifier,
    is parsed to that identifier if it is one that can be held and has no slash;
    and whatever path is parsed to an identifier ends in its encoding, so two
    spellings never name one session. *)
Theorem session_path_roundtrip assistant session pathname :
  (assistant ≠ "" → has_char "/" assistant = false → validOpaqueId session = true →
   has_char "/" session = false → has_char "\" session = false →
   liveVoiceSessionReleaseId "DELETE"
     ("/v1/assistants/" +:+ assistant +:+ "/live-voice/sessions/" +:+ encodeURIComponent session) = Some session) ∧
  (liveVoiceSessionReleaseId "DELETE" pathname = Some session →
   session_segment pathname = Some (encodeURIComponent session)).
Proof.
  split.
  - intros Ha Hs Hv H1 H2.
    assert (Hsplit : js_split "/" ("/v1/assistants/" +:+ assistant +:+ "/live-voice/sessions/" +:+ encodeURIComponent session)
                     = [""; "v1"; "assistants"; assistant; "live-voice"; "sessions"; encodeURIComponent session]).
    { change (js_split "/" (js_join "/" [""; "v1"; "assistants"; assistant; "live-voice"; "sessions"; encodeURIComponent session])
              = [""; "v1"; "assistants"; assistant; "live-voice"; "sessions"; encodeURIComponent session]).
      apply js_split_join; [done|]. repeat (constructor; [done || by apply encode_no_char|]). constructor. }
    assert (Hne : truthy (encodeURIComponent session) = true).
    { destruct session as [|c s]; [done|]. cbn. by repeat case_match. }
    unfold liveVoiceSessionReleaseId, session_segment. rewrite Hsplit.
    change (negb (eqs (toUpperCase "DELETE") "DELETE")) with false. cbv match. rewrite Hne, andb_true_r. unfold truthy. destruct (String.eqb_spec assistant ""); [done|].
    cbn [negb]. rewrite decode_encode. cbn. rewrite of_units_units, Hv, H1, H2. unfold eqs. by rewrite bool_decide_true.
  - unfold liveVoiceSessionReleaseId. cbn. destruct (session_segment pathname) as [seg|]; [|done].
    destruct (_ ≫= of_units) as [d|]; [|done]. destruct (_ && _) eqn:Hb; [|done]. intros [= ->].
    apply andb_true_iff in Hb as [_ Hb]. unfold eqs in Hb. apply bool_decide_eq_true in Hb. congruence.
Qed.

(** A request goes to the pool exactly when the dedicated runtime owns
    nothing: the assistant's stack is an unallocated placeholder, with no gateway,
    service, volume, reserved capacity, provisioning lease or attempted creation,
    and the pool is enabled; it goes to the dedicated runtime exactly when that is
    active and reachable.  Otherwise it is refused. *)
Theorem routing_policy stack enabled nowMs :
  (selectRuntimeWorkerRoutingPolicy stack enabled nowMs = inr mode_pooled ↔
   0 ≤ nowMs ≤ MAX_SAFE_INTEGER ∧ enabled = true ∧
   (st_status stack = provisioning ∨ st_status stack = stack_failed) ∧
   st_gateway_url stack = None ∧ st_service_ref stack = None ∧ st_workspace_volume_ref stack = None ∧
   st_service_capacity_reserved stack = 0 ∧ st_provisioning_lease_token stack = None ∧
   st_service_create_attempted_at stack = None ∧ st_volume_create_attempted_at stack = None) ∧
  (∀ stack', selectRuntimeWorkerRoutingPolicy stack enabled nowMs = inr (mode_dedicated stack') ↔
   0 ≤ nowMs ≤ MAX_SAFE_INTEGER ∧ stack' = stack ∧ st_status stack = stack_active ∧
   ∃ url, st_gateway_url stack = Some url ∧ url ≠ "").
Proof.
  unfold selectRuntimeWorkerRoutingPolicy. destruct (negb (isSafeInteger nowMs) || _) eqn:Ht.
  { assert (¬ 0 ≤ nowMs ≤ MAX_SAFE_INTEGER) by (rewrite <- bad_timestamp; congruence). naive_solver. }
  apply bad_timestamp in Ht. assert (Hown : dedicatedRuntimeOwnsResources stack = false ↔
    st_gateway_url stack = None ∧ st_service_ref stack = None ∧ st_workspace_volume_ref stack = None ∧
    st_service_capacity_reserved stack = 0 ∧ st_provisioning_lease_token stack = None ∧
    st_service_create_attempted_at stack = None ∧ st_volume_create_attempted_at stack = None).
  { unfold dedicatedRuntimeOwnsResources. rewrite !orb_false_iff, !negb_false_iff, !is_null_true, Z.eqb_eq. tauto. }
  rewrite <- Hown. split.
  - split.
    + destruct (truthy_opt _), (dedicatedRuntimeOwnsResources stack), enabled, (st_status stack); cbn;
        intros H; try discriminate H; auto.
    + intros (_&->&Hst&->). destruct Hst as [-> | ->]; done.
  - intros stack'. split.
    + destruct (st_gateway_url stack) as [url|]; [|by destruct (st_status stack), enabled, (dedicatedRuntimeOwnsResources stack)].
      cbn. destruct (truthy url) eqn:Hu; [apply truthy_true in Hu|];
        destruct (st_status stack), enabled, (dedicatedRuntimeOwnsResources stack);
        intros H; (discriminate H || (injection H as <-; do 3 (split; [done|]); by exists url)).
    + intros (_&->&->&url&->&Hu%truthy_true). cbn. by rewrite Hu.
Qed.
