(* ===== verification/TemporaryGrants.v ===== *)
(** * Temporary grants

    [TemporaryGrantStore] of
    src/credential-executor/src/grants/temporary-store.ts: approvals that are
    used once, last ten minutes, or belong to one conversation.

    First the store as the code has it, a [Map] keyed by strings; then the
    abstract store, a map keyed by kind, proposal and conversation; then the
    proof that the first implements the second. *)
From S2P Require Import Prelude Demo.

Inductive TemporaryGrantKind := allow_once | allow_10m | allow_conversation.
#[global] Instance TemporaryGrantKind_eq_dec : EqDecision TemporaryGrantKind.
Proof. solve_decision. Defined.

Definition kind_string (k : TemporaryGrantKind) : string :=
  match k with
  | allow_once => "allow_once"
  | allow_10m => "allow_10m"
  | allow_conversation => "allow_conversation"
  end.

Record TemporaryGrant := mkTemporaryGrant {
  tg_kind : TemporaryGrantKind;
  tg_proposalHash : string;
  tg_conversationId : option string;
  tg_createdAt : Z;
  tg_expiresAt : option Z;
}.

Definition DEFAULT_TIMED_DURATION_MS : Z := 10 * 60 * 1000.

Definition conversation_required : string := "allow_conversation grants require a conversationId".

Definition conversation_prefix (conversationId : string) : string := "conversation:" +:+ conversationId +:+ ":".

Definition storageKey (kind : TemporaryGrantKind) (proposalHash : string) (conversationId : option string)
    : string + string :=
  match kind with
  | allow_conversation =>
      if truthy_opt conversationId
      then inr (conversation_prefix (default "" conversationId) +:+ proposalHash)
      else inl conversation_required
  | _ => inr (kind_string kind +:+ ":" +:+ proposalHash)
  end.

Abbreviation TemporaryGrantStore := (jsmap string TemporaryGrant).

Section store.
Context {env : Env}.

Definition T (A : Type) : Type := M (World TemporaryGrantStore) string A.

(** The key, or the exception of [storageKey]. *)
Definition key_of (kind : TemporaryGrantKind) (proposalHash : string) (conversationId : option string) : T string :=
  match storageKey kind proposalHash conversationId with inl e => throw e | inr k => mret k end.

(** [Date.now()] is read for [createdAt], and once more when the grant expires. *)
Definition add (kind : TemporaryGrantKind) (proposalHash : string)
    (conversationId : option string) (durationMs : option Z) : T unit :=
  key ← key_of kind proposalHash conversationId;
  createdAt ← now;
  expiresAt ←
    match kind with
    | allow_10m => t ← now; mret (Some (t + default DEFAULT_TIMED_DURATION_MS durationMs))
    | allow_once =>
        match durationMs with
        | Some d => t ← now; mret (Some (t + d))
        | None => mret None
        end
    | allow_conversation => mret None
    end;
  modify (jset key (mkTemporaryGrant kind proposalHash
    (if truthy_opt conversationId then conversationId else None) createdAt expiresAt)).

(** [expiresAt !== undefined && Date.now() >= expiresAt] *)
Definition expired (expiresAt : option Z) : T bool :=
  match expiresAt with
  | Some e => t ← now; mret (e <=? t)
  | None => mret false
  end.

Definition check (kind : TemporaryGrantKind) (proposalHash : string) (conversationId : option string) : T bool :=
  key ← key_of kind proposalHash conversationId;
  found ← gets (jget key);
  match found with
  | None => mret false
  | Some grant =>
      match tg_kind grant with
      | allow_once =>
          late ← expired (tg_expiresAt grant);
          modify (jdel key);;
          mret (negb late)
      | allow_10m =>
          late ← expired (tg_expiresAt grant);
          if (late : bool) then modify (jdel key);; mret false else mret true
      | allow_conversation => mret true
      end
  end.

Definition checkAny (proposalHash : string) (conversationId : option string) : T (option TemporaryGrantKind) :=
  once ← check allow_once proposalHash None;
  if (once : bool) then mret (Some allow_once) else
  timed ← check allow_10m proposalHash None;
  if (timed : bool) then mret (Some allow_10m) else
  if truthy_opt conversationId then
    conv ← check allow_conversation proposalHash conversationId;
    mret (if (conv : bool) then Some allow_conversation else None)
  else mret None.

Definition remove (kind : TemporaryGrantKind) (proposalHash : string) (conversationId : option string) : T bool :=
  key ← key_of kind proposalHash conversationId;
  existed ← gets (jhas key);
  modify (jdel key);;
  mret existed.

(** [key.startsWith(prefix)] *)
Definition startsWith (prefix key : string) : bool := String.prefix prefix key.

Definition clearConversation (conversationId : string) : T unit :=
  modify (js_filter (λ kv, negb (startsWith (conversation_prefix conversationId) kv.1))).

Definition clear : T unit := modify (λ _, []).

Definition size : T nat := gets length.
End store.

(** ** The calls of a client *)

Inductive TCall :=
  | CAdd (kind : TemporaryGrantKind) (proposalHash : string) (conversationId : option string) (durationMs : option Z)
  | CCheck (kind : TemporaryGrantKind) (proposalHash : string) (conversationId : option string)
  | CCheckAny (proposalHash : string) (conversationId : option string)
  | CRemove (kind : TemporaryGrantKind) (proposalHash : string) (conversationId : option string)
  | CClearConversation (conversationId : string)
  | CClear.

Inductive TAnswer := AUnit | ABool (b : bool) | AKind (k : option TemporaryGrantKind).

Section calls.
Context {env : Env}.

Definition run_call (c : TCall) : T TAnswer :=
  match c with
  | CAdd kind h conv d => add kind h conv d;; mret AUnit
  | CCheck kind h conv => b ← check kind h conv; mret (ABool b)
  | CCheckAny h conv => k ← checkAny h conv; mret (AKind k)
  | CRemove kind h conv => b ← remove kind h conv; mret (ABool b)
  | CClearConversation conv => clearConversation conv;; mret AUnit
  | CClear => clear;; mret AUnit
  end.

(** ** The abstract store *)

(** What a client is promised: single-use approvals with an optional deadline,
    timed approvals with theirs, and approvals of a conversation. *)
Record Grants := mkGrants {
  gr_once : gmap string (option Z);
  gr_timed : gmap string Z;
  gr_conversation : gset (string * string);   (* conversation, proposal *)
}.

Definition G (A : Type) : Type := M (World Grants) string A.

Definition set_once (f : gmap string (option Z) → gmap string (option Z)) (s : Grants) : Grants :=
  mkGrants (f (gr_once s)) (gr_timed s) (gr_conversation s).
Definition set_timed (f : gmap string Z → gmap string Z) (s : Grants) : Grants :=
  mkGrants (gr_once s) (f (gr_timed s)) (gr_conversation s).
Definition set_conversation (f : gset (string * string) → gset (string * string)) (s : Grants) : Grants :=
  mkGrants (gr_once s) (gr_timed s) (f (gr_conversation s)).

(** A conversation approval needs a conversation. *)
Definition in_conversation {A} (conv : option string) (k : string → G A) : G A :=
  match conv with
  | Some c => if truthy c then k c else throw conversation_required
  | None => throw conversation_required
  end.

Definition passed (deadline : Z) : G bool := t ← now; mret (deadline <=? t).

Definition spec_add (kind : TemporaryGrantKind) (h : string) (conv : option string) (d : option Z) : G unit :=
  match kind with
  | allow_once =>
      now;;
      match d with
      | Some d => t ← now; modify (set_once <[h := Some (t + d)]>)
      | None => modify (set_once <[h := None]>)
      end
  | allow_10m => now;; t ← now; modify (set_timed <[h := t + default DEFAULT_TIMED_DURATION_MS d]>)
  | allow_conversation => in_conversation conv (λ c, now;; modify (set_conversation ({[(c, h)]} ∪.)))
  end.

Definition spec_check (kind : TemporaryGrantKind) (h : string) (conv : option string) : G bool :=
  match kind with
  | allow_once =>
      g ← gets (λ s, gr_once s !! h);
      match g with
      | Some deadline =>
          late ← match deadline with Some e => passed e | None => mret false end;
          modify (set_once (delete h));; mret (negb late)
      | None => mret false
      end
  | allow_10m =>
      g ← gets (λ s, gr_timed s !! h);
      match g with
      | Some e =>
          late ← passed e;
          if (late : bool) then modify (set_timed (delete h));; mret false else mret true
      | None => mret false
      end
  | allow_conversation =>
      in_conversation conv (λ c, gets (λ s, bool_decide ((c, h) ∈ gr_conversation s)))
  end.

Definition spec_checkAny (h : string) (conv : option string) : G (option TemporaryGrantKind) :=
  once ← spec_check allow_once h None;
  if (once : bool) then mret (Some allow_once) else
  timed ← spec_check allow_10m h None;
  if (timed : bool) then mret (Some allow_10m) else
  if truthy_opt conv then
    b ← spec_check allow_conversation h conv;
    mret (if (b : bool) then Some allow_conversation else None)
  else mret None.

Definition spec_remove (kind : TemporaryGrantKind) (h : string) (conv : option string) : G bool :=
  match kind with
  | allow_once =>
      b ← gets (λ s, bool_decide (is_Some (gr_once s !! h))); modify (set_once (delete h));; mret b
  | allow_10m =>
      b ← gets (λ s, bool_decide (is_Some (gr_timed s !! h))); modify (set_timed (delete h));; mret b
  | allow_conversation =>
      in_conversation conv (λ c,
        b ← gets (λ s, bool_decide ((c, h) ∈ gr_conversation s));
        modify (set_conversation (.∖ {[(c, h)]}));; mret b)
  end.

Definition spec_clearConversation (conv : string) : G unit :=
  modify (set_conversation (filter (λ x, x.1 ≠ conv))).

Definition spec_call (c : TCall) : G TAnswer :=
  match c with
  | CAdd kind h conv d => spec_add kind h conv d;; mret AUnit
  | CCheck kind h conv => b ← spec_check kind h conv; mret (ABool b)
  | CCheckAny h conv => k ← spec_checkAny h conv; mret (AKind k)
  | CRemove kind h conv => b ← spec_remove kind h conv; mret (ABool b)
  | CClearConversation conv => spec_clearConversation conv;; mret AUnit
  | CClear => modify (λ _, mkGrants ∅ ∅ ∅);; mret AUnit
  end.
End calls.

(** ** Keys *)

Fixpoint no_colon (s : string) : bool :=
  match s with
  | "" => true
  | String ch s' => negb (Ascii.eqb ch ":") && no_colon s'
  end.

Definition once_key (h : string) : string := "allow_once:" +:+ h.
Definition timed_key (h : string) : string := "allow_10m:" +:+ h.
Definition conversation_key (c h : string) : string := conversation_prefix c +:+ h.

Lemma no_colon_cons ch s : no_colon (String ch s) = true → ch ≠ ":"%char ∧ no_colon s = true.
Proof. cbn. rewrite andb_true_iff, negb_true_iff. intros [?%Ascii.eqb_neq ?]. done. Qed.

Lemma colon_split c c' h h' :
  no_colon c = true → no_colon c' = true → (c +:+ ":") +:+ h = (c' +:+ ":") +:+ h' → c = c' ∧ h = h'.
Proof.
  revert c'. induction c as [|x c IH]; intros [|y c'] Hc Hc' Heq.
  - by injection Heq.
  - injection Heq as <- _. by apply no_colon_cons in Hc' as [? _].
  - injection Heq as -> _. by apply no_colon_cons in Hc as [? _].
  - injection Heq as -> Heq. apply no_colon_cons in Hc as [_ Hc], Hc' as [_ Hc'].
    destruct (IH c' Hc Hc' Heq) as [-> ->]. done.
Qed.

Lemma prefix_cons x y s t :
  String.prefix (String x s) (String y t) = if ascii_dec x y then String.prefix s t else false.
Proof. done. Qed.

Lemma append_cons x s t : String x s +:+ t = String x (s +:+ t).
Proof. done. Qed.

Lemma colon_prefix c c' h :
  no_colon c = true → no_colon c' = true →
  String.prefix (c +:+ ":") ((c' +:+ ":") +:+ h) = bool_decide (c = c').
Proof.
  revert c'. induction c as [|x c IH]; intros [|y c'] Hc Hc'.
  - cbn. by destruct h.
  - apply no_colon_cons in Hc' as [Hy _]. rewrite bool_decide_eq_false_2 by done.
    change ("" +:+ ":") with ":". rewrite !append_cons, prefix_cons. by destruct (ascii_dec _ _).
  - apply no_colon_cons in Hc as [Hx _]. rewrite bool_decide_eq_false_2 by done.
    change (("" +:+ ":") +:+ h) with (String ":" h). rewrite !append_cons, prefix_cons. by destruct (ascii_dec _ _).
  - apply no_colon_cons in Hc as [_ Hc], Hc' as [_ Hc']. rewrite !append_cons, prefix_cons.
    destruct (ascii_dec x y) as [->|Hne].
    + rewrite IH by done. apply bool_decide_ext. split; [by intros ->|by intros [= ->]].
    + symmetry. apply bool_decide_eq_false. by intros [= ? ?].
Qed.

Lemma conversation_key_inj c c' h h' :
  no_colon c = true → no_colon c' = true → conversation_key c h = conversation_key c' h' → c = c' ∧ h = h'.
Proof. intros Hc Hc' [= Heq]. by apply colon_split. Qed.

Lemma startsWith_key c c' h :
  no_colon c = true → no_colon c' = true →
  startsWith (conversation_prefix c) (conversation_key c' h) = bool_decide (c = c').
Proof. intros Hc Hc'. by apply (colon_prefix c c' h). Qed.

(** ** The store implements the abstract store *)

Definition view (g : TemporaryGrant) : TemporaryGrantKind * option Z := (tg_kind g, tg_expiresAt g).

(** What the store has at each key is what the abstract store has. *)
Record implements (st : TemporaryGrantStore) (s : Grants) : Prop := {
  im_once : ∀ h, view <$> jget (once_key h) st = pair allow_once <$> gr_once s !! h;
  im_timed : ∀ h, view <$> jget (timed_key h) st = (λ e, (allow_10m, Some e)) <$> gr_timed s !! h;
  im_conversation : ∀ c h, no_colon c = true →
    view <$> jget (conversation_key c h) st =
      if bool_decide ((c, h) ∈ gr_conversation s) then Some (allow_conversation, None) else None;
}.

Lemma once_key_inj h h' : once_key h = once_key h' → h = h'.
Proof. intros [= Heq]. exact Heq. Qed.
Lemma timed_key_inj h h' : timed_key h = timed_key h' → h = h'.
Proof. intros [= Heq]. exact Heq. Qed.

(** Writes at one key, seen through the three kinds of keys. *)
Ltac at_key :=
  rewrite ?jget_jset, ?jget_jdel; case_decide;
  repeat match goal with
  | H : once_key _ = once_key _ |- _ => apply once_key_inj in H; subst
  | H : timed_key _ = timed_key _ |- _ => apply timed_key_inj in H; subst
  | H : conversation_key _ _ = conversation_key _ _ |- _ =>
      apply conversation_key_inj in H as [? ?]; [subst|done..]
  | H : once_key _ = timed_key _ |- _ => discriminate H
  | H : once_key _ = conversation_key _ _ |- _ => discriminate H
  | H : timed_key _ = once_key _ |- _ => discriminate H
  | H : timed_key _ = conversation_key _ _ |- _ => discriminate H
  | H : conversation_key _ _ = once_key _ |- _ => discriminate H
  | H : conversation_key _ _ = timed_key _ |- _ => discriminate H
  end; simplify_map_eq.

Section preservation.
Context (st : TemporaryGrantStore) (s : Grants) (Him : implements st s).

Lemma implements_add_once h g e :
  view g = (allow_once, e) → implements (jset (once_key h) g st) (set_once <[h := e]> s).
Proof.
  destruct Him as [H1 H2 H3]. intros Hg. constructor; cbn.
  - intros h'. at_key; [by rewrite Hg|]. rewrite lookup_insert_ne by congruence. apply H1.
  - intros h'. at_key. apply H2.
  - intros c h' Hc. at_key. by apply H3.
Qed.

Lemma implements_add_timed h g e :
  view g = (allow_10m, Some e) → implements (jset (timed_key h) g st) (set_timed <[h := e]> s).
Proof.
  destruct Him as [H1 H2 H3]. intros Hg. constructor; cbn.
  - intros h'. at_key. apply H1.
  - intros h'. at_key; [by rewrite Hg|]. rewrite lookup_insert_ne by congruence. apply H2.
  - intros c h' Hc. at_key. by apply H3.
Qed.

Lemma implements_add_conversation c h g :
  no_colon c = true → view g = (allow_conversation, None) →
  implements (jset (conversation_key c h) g st) (set_conversation ({[(c, h)]} ∪.) s).
Proof.
  destruct Him as [H1 H2 H3]. intros Hc Hg. constructor; cbn.
  - intros h'. at_key. apply H1.
  - intros h'. at_key. apply H2.
  - intros c' h' Hc'. at_key.
    + rewrite bool_decide_true by set_solver. by rewrite Hg.
    + rewrite H3 by done. by rewrite (bool_decide_ext _ ((c', h') ∈ {[(c, h)]} ∪ gr_conversation s)) by set_solver.
Qed.

Lemma implements_del_once h : implements (jdel (once_key h) st) (set_once (delete h) s).
Proof.
  destruct Him as [H1 H2 H3]. constructor; cbn.
  - intros h'. at_key; [done|]. rewrite lookup_delete_ne by congruence. apply H1.
  - intros h'. at_key. apply H2.
  - intros c h' Hc. at_key. by apply H3.
Qed.

Lemma implements_del_timed h : implements (jdel (timed_key h) st) (set_timed (delete h) s).
Proof.
  destruct Him as [H1 H2 H3]. constructor; cbn.
  - intros h'. at_key. apply H1.
  - intros h'. at_key; [done|]. rewrite lookup_delete_ne by congruence. apply H2.
  - intros c h' Hc. at_key. by apply H3.
Qed.

Lemma implements_del_conversation c h :
  no_colon c = true → implements (jdel (conversation_key c h) st) (set_conversation (.∖ {[(c, h)]}) s).
Proof.
  destruct Him as [H1 H2 H3]. intros Hc. constructor; cbn.
  - intros h'. at_key. apply H1.
  - intros h'. at_key. apply H2.
  - intros c' h' Hc'. at_key.
    + by rewrite bool_decide_false by set_solver.
    + rewrite H3 by done. by rewrite (bool_decide_ext _ ((c', h') ∈ gr_conversation s ∖ {[(c, h)]})) by set_solver.
Qed.

Lemma jget_filter_keys {V} (p : string → bool) k (m : jsmap string V) :
  jget k (js_filter (λ kv, p kv.1) m) = if p k then jget k m else None.
Proof.
  unfold js_filter. induction m as [|[k' v] m IH]; cbn; [by destruct (p k)|].
  destruct (p k') eqn:Hp; cbn; case_decide; subst; rewrite ?IH, ?Hp; done.
Qed.

Lemma implements_clear c :
  no_colon c = true →
  implements (js_filter (λ kv, negb (startsWith (conversation_prefix c) kv.1)) st)
    (set_conversation (filter (λ x, x.1 ≠ c)) s).
Proof.
  destruct Him as [H1 H2 H3]. intros Hc. constructor; cbn.
  - intros h. rewrite (jget_filter_keys (λ k, negb (startsWith (conversation_prefix c) k))). apply H1.
  - intros h. rewrite (jget_filter_keys (λ k, negb (startsWith (conversation_prefix c) k))). apply H2.
  - intros c' h Hc'. rewrite (jget_filter_keys (λ k, negb (startsWith (conversation_prefix c) k))).
    rewrite startsWith_key by done. case_bool_decide; cbn.
    + rewrite bool_decide_false; [done|]. rewrite elem_of_filter. cbn. naive_solver.
    + rewrite H3 by done. rewrite (bool_decide_ext _ ((c', h) ∈ filter (λ x, x.1 ≠ c) (gr_conversation s))); [done|].
      rewrite elem_of_filter. cbn. naive_solver.
Qed.
End preservation.

Section refinement.
Context {env : Env}.

(** The two stores, at the same point of the clock. *)
Definition related (w : World TemporaryGrantStore) (v : World Grants) : Prop :=
  implements (w_st w) (w_st v) ∧ w_clock w = w_clock v.

(** Equal answers, and related stores afterwards. *)
Definition sim {A} (m : T A) (s : G A) : Prop :=
  ∀ w v, related w v → (m w).1 = (s v).1 ∧ related (m w).2 (s v).2.

Lemma sim_ret {A} (a : A) : sim (mret a) (mret a).
Proof. intros w v H. by split. Qed.

Lemma sim_throw {A} (e : string) : sim (throw e : T A) (throw e).
Proof. intros w v H. by split. Qed.

Lemma sim_bind {A B} (m : T A) (s : G A) (k : A → T B) (k' : A → G B) :
  sim m s → (∀ a, sim (k a) (k' a)) → sim (m ≫= k) (s ≫= k').
Proof.
  intros Hm Hk w v Hr. unfold mbind, M_bind. destruct (Hm w v Hr) as [He Hr'].
  destruct (m w) as [[e|a] w'], (s v) as [[e'|a'] v']; cbn in *; try discriminate.
  - injection He as ->. by split.
  - injection He as ->. by apply Hk.
Qed.

Lemma sim_now : sim now now.
Proof. intros w v [Hi Hc]. cbn. rewrite Hc. split; [done|]. by split. Qed.

Lemma sim_modify f g :
  (∀ st s, implements st s → implements (f st) (g s)) → sim (modify f) (modify g).
Proof. intros H w v [Hi Hc]. split; [done|]. split; cbn; [by apply H|done]. Qed.

(** A read, followed by code that agrees on related results. *)
Lemma sim_gets {A A' B} (f : TemporaryGrantStore → A) (g : Grants → A') (k : A → T B) (k' : A' → G B) :
  (∀ st s, implements st s → sim (k (f st)) (k' (g s))) → sim (gets f ≫= k) (gets g ≫= k').
Proof. intros H w v Hr. mrun. apply H; [apply Hr|done]. Qed.

Lemma sim_expired e : sim (expired (Some e)) (passed e).
Proof. apply sim_bind; [apply sim_now|]. intros t. apply sim_ret. Qed.

(** A conversation key, or the exception. *)
Lemma sim_conversation_key {A} h conv (k : string → T A) (k' : string → G A) :
  (∀ c, conv = Some c → c ≠ "" → sim (k (conversation_key c h)) (k' c)) →
  sim (key_of allow_conversation h conv ≫= k) (in_conversation conv k').
Proof.
  intros H. unfold key_of, storageKey, in_conversation. destruct conv as [c|]; cbn [truthy_opt].
  - unfold truthy. destruct (String.eqb_spec c ""); cbn [negb]; [|by apply H].
    intros w v Hr. by split.
  - intros w v Hr. by split.
Qed.

(** Conversation identifiers without colons. *)
Definition conv_ok (conv : option string) : Prop := ∀ c, conv = Some c → no_colon c = true.

Lemma sim_add kind h conv d :
  (kind = allow_conversation → conv_ok conv) → sim (add kind h conv d) (spec_add kind h conv d).
Proof.
  intros Hok. destruct kind.
  - intros [n u st] [n' u' s] [Hi Hc]. cbn in Hi, Hc. subst n'. unfold add, spec_add.
    destruct d; mrun; (split; [done|]); (split; [|done]); by apply implements_add_once.
  - intros [n u st] [n' u' s] [Hi Hc]. cbn in Hi, Hc. subst n'. unfold add, spec_add.
    mrun. split; [done|]. split; [|done]. by apply implements_add_timed.
  - unfold add. cbn [spec_add]. apply sim_conversation_key. intros c -> Hne.
    apply sim_bind; [apply sim_now|]. intros t w v Hr. mrun. destruct Hr as [Hi Hc]. split; [done|].
    split; [|done]. cbn. apply implements_add_conversation; [done|by apply Hok|done].
Qed.

Lemma sim_check kind h conv :
  (kind = allow_conversation → conv_ok conv) → sim (check kind h conv) (spec_check kind h conv).
Proof.
  intros Hok. destruct kind.
  - apply (sim_gets (jget (once_key h)) (λ s, gr_once s !! h)). intros st s Hi.
    pose proof (im_once _ _ Hi h) as Hv. destruct (jget (once_key h) st) as [g|], (gr_once s !! h) as [e|]; try done.
    injection Hv as -> ->. apply sim_bind.
    { destruct e; [apply sim_expired|apply sim_ret]. }
    intros late. apply sim_bind; [|intros _; apply sim_ret].
    apply sim_modify. intros ? ? ?. by apply implements_del_once.
  - apply (sim_gets (jget (timed_key h)) (λ s, gr_timed s !! h)). intros st s Hi.
    pose proof (im_timed _ _ Hi h) as Hv. destruct (jget (timed_key h) st) as [g|], (gr_timed s !! h) as [e|]; try done.
    injection Hv as -> ->. apply sim_bind; [apply sim_expired|]. intros [|]; [|apply sim_ret].
    apply sim_bind; [|intros _; apply sim_ret]. apply sim_modify. intros ? ? ?. by apply implements_del_timed.
  - unfold check. cbn [spec_check]. apply sim_conversation_key. intros c -> Hne.
    change (gets (λ s, bool_decide ((c, h) ∈ gr_conversation s)) : G bool)
      with (gets (λ s, bool_decide ((c, h) ∈ gr_conversation s)) ≫= (mret : bool → G bool)).
    apply sim_gets. intros st s Hi. pose proof (im_conversation _ _ Hi c h (Hok eq_refl c eq_refl)) as Hv.
    destruct (jget (conversation_key c h) st) as [g|]; case_bool_decide; try done.
    injection Hv as -> _. apply sim_ret.
Qed.

Lemma sim_checkAny h conv : conv_ok conv → sim (checkAny h conv) (spec_checkAny h conv).
Proof.
  intros Hok. apply sim_bind; [by apply sim_check|]. intros [|]; [apply sim_ret|].
  apply sim_bind; [by apply sim_check|]. intros [|]; [apply sim_ret|].
  destruct (truthy_opt conv); [|apply sim_ret]. apply sim_bind; [by apply sim_check|]. intros b. apply sim_ret.
Qed.

Lemma has_view {k} {st : TemporaryGrantStore} {o} : view <$> jget k st = o → jhas k st = bool_decide (is_Some o).
Proof. intros <-. unfold jhas. by destruct (jget k st). Qed.

Lemma sim_remove kind h conv :
  (kind = allow_conversation → conv_ok conv) → sim (remove kind h conv) (spec_remove kind h conv).
Proof.
  intros Hok. destruct kind.
  - apply (sim_gets (jhas (once_key h)) (λ s, bool_decide (is_Some (gr_once s !! h)))). intros st s Hi.
    rewrite (has_view (im_once _ _ Hi h)). rewrite (bool_decide_ext _ (is_Some (gr_once s !! h))) by apply fmap_is_Some.
    apply sim_bind; [|intros _; apply sim_ret]. apply sim_modify. intros ? ? ?. by apply implements_del_once.
  - apply (sim_gets (jhas (timed_key h)) (λ s, bool_decide (is_Some (gr_timed s !! h)))). intros st s Hi.
    rewrite (has_view (im_timed _ _ Hi h)). rewrite (bool_decide_ext _ (is_Some (gr_timed s !! h))) by apply fmap_is_Some.
    apply sim_bind; [|intros _; apply sim_ret]. apply sim_modify. intros ? ? ?. by apply implements_del_timed.
  - unfold remove. cbn [spec_remove]. apply sim_conversation_key. intros c -> Hne.
    pose proof (Hok eq_refl c eq_refl) as Hc. apply sim_gets. intros st s Hi.
    rewrite (has_view (im_conversation _ _ Hi c h Hc)).
    rewrite (bool_decide_ext _ ((c, h) ∈ gr_conversation s)) by (case_bool_decide; split; [done|by eauto|by intros []|done]).
    apply sim_bind; [|intros _; apply sim_ret]. apply sim_modify. intros ? ? ?. by apply implements_del_conversation.
Qed.

(** The conversations a call names have no colon. *)
Definition call_ok (c : TCall) : Prop :=
  match c with
  | CAdd kind _ conv _ | CCheck kind _ conv | CRemove kind _ conv => kind = allow_conversation → conv_ok conv
  | CCheckAny _ conv => conv_ok conv
  | CClearConversation conv => no_colon conv = true
  | CClear => True
  end.

Lemma sim_call c : call_ok c → sim (run_call c) (spec_call c).
Proof.
  intros Hok. destruct c; cbn [run_call spec_call call_ok] in *; (apply sim_bind; [|intros ?; apply sim_ret]).
  - by apply sim_add.
  - by apply sim_check.
  - by apply sim_checkAny.
  - by apply sim_remove.
  - apply sim_modify. intros st s Hi. by apply implements_clear.
  - apply sim_modify. intros st s Hi. by constructor.
Qed.

Lemma sim_calls cs w v :
  Forall call_ok cs → related w v → (run_calls run_call cs w).1 = (run_calls spec_call cs v).1.
Proof.
  intros Hok. revert w v. induction Hok as [|c cs Hc _ IH]; intros w v Hr; [done|]. cbn.
  destruct (sim_call c Hc w v Hr) as [Ha Hr']. destruct (run_call c w) as [a w1], (spec_call c v) as [a' v1].
  cbn in Ha, Hr'. subst a'. specialize (IH w1 v1 Hr').
  destruct (run_calls run_call cs w1) as [l w2], (run_calls spec_call cs v1) as [l' v2]. cbn in *. by rewrite IH.
Qed.
End refinement.

(** ** Grants end *)

Section ends.
Context {env : Env}.

(** The grant at a key is still there, or gone. *)
Definition kept_or_gone (k : string) (w w' : World TemporaryGrantStore) : Prop :=
  jget k (w_st w') = jget k (w_st w) ∨ jget k (w_st w') = None.

#[local] Instance kept_or_gone_preorder k : PreOrder (kept_or_gone k).
Proof. split; [by left|]. intros x y z [H1|H1] [H2|H2]; unfold kept_or_gone; rewrite ?H2, ?H1; auto. Qed.

(** The call grants the proposal again. *)
Definition regrants (kind : TemporaryGrantKind) (h : string) (c : TCall) : bool :=
  match c with CAdd kind' h' _ _ => bool_decide (kind' = kind) && eqs h' h | _ => false end.

Lemma respects_modify_key k f :
  (∀ st, jget k (f st) = jget k st ∨ jget k (f st) = None) →
  respects (kept_or_gone k) (modify f : T unit).
Proof. intros H w. apply H. Qed.

Lemma respects_now k : respects (kept_or_gone k) (now : T Z).
Proof. by left. Qed.

Lemma respects_gets k {A} (f : TemporaryGrantStore → A) : respects (kept_or_gone k) (gets f : T A).
Proof. by left. Qed.

Lemma respects_key_of k kind h conv : respects (kept_or_gone k) (key_of kind h conv).
Proof. unfold key_of. destruct (storageKey kind h conv); by left. Qed.

Lemma respects_ret_bind k {A B} (a : A) (f : A → T B) :
  respects (kept_or_gone k) (f a) → respects (kept_or_gone k) ((mret a : T A) ≫= f).
Proof. done. Qed.

Lemma respects_del k key : respects (kept_or_gone k) (modify (jdel key) : T unit).
Proof. apply respects_modify_key. intros st. rewrite jget_jdel. case_decide; auto. Qed.

Lemma respects_expired k e : respects (kept_or_gone k) (expired e).
Proof. unfold expired. destruct e; by left. Qed.

Ltac solve_kept :=
  repeat match goal with
  | |- respects _ (if ?b then _ else _) => destruct b
  | |- respects _ (match ?x with _ => _ end) => destruct x
  | |- respects _ (mret _) => apply respects_ret, _
  | |- respects _ (mbind _ _) => apply respects_bind; [apply _| |intros ?]
  | |- respects _ (modify (jdel _)) => apply respects_del
  | |- respects _ (expired _) => apply respects_expired
  | |- respects _ (key_of _ _ _) => apply respects_key_of
  | |- respects _ (gets _) => apply respects_gets
  | |- respects _ now => apply respects_now
  end.

Lemma check_kept k kind h conv : respects (kept_or_gone k) (check kind h conv).
Proof. unfold check. solve_kept. Qed.

Lemma add_elsewhere k kind h conv d :
  storageKey kind h conv ≠ inr k → respects (kept_or_gone k) (add kind h conv d).
Proof.
  intros Hne. unfold add, key_of. destruct (storageKey kind h conv) as [e|k'] eqn:Hk.
  - by left.
  - apply respects_ret_bind. solve_kept. all: apply respects_modify_key; intros st; left; apply jget_jset_ne; congruence.
Qed.

(** A call that does not grant the proposal again leaves the grant or ends it. *)
Lemma call_kept kind h c :
  kind ≠ allow_conversation → regrants kind h c = false →
  respects (kept_or_gone (kind_string kind +:+ ":" +:+ h)) (run_call c).
Proof.
  intros Hkind Hre. destruct c; cbn [run_call]; (apply respects_bind; [apply _| |intros ?; apply respects_ret, _]).
  - apply add_elsewhere. cbn [regrants] in Hre. apply andb_false_iff in Hre. unfold eqs in Hre.
    rewrite !bool_decide_eq_false in Hre. intros Heq.
    destruct kind, kind0; cbn in Heq; try done; try (destruct (truthy_opt _); done);
      injection Heq; intros ?; destruct Hre as [Hre|Hre]; apply Hre; done.
  - apply check_kept.
  - unfold checkAny. solve_kept; try apply check_kept.
  - unfold remove. solve_kept.
  - apply respects_modify_key. intros st.
    rewrite (jget_filter_keys (λ k, negb (startsWith (conversation_prefix conversationId) k))). case_match; auto.
  - apply respects_modify_key. by right.
Qed.

Lemma calls_kept kind h cs w :
  kind ≠ allow_conversation → Forall (λ c, regrants kind h c = false) cs →
  kept_or_gone (kind_string kind +:+ ":" +:+ h) w (run_calls run_call cs w).2.
Proof.
  intros Hkind Hcs. revert w. induction Hcs as [|c cs Hc _ IH]; intros w; [by left|]. cbn.
  pose proof (call_kept kind h c Hkind Hc w) as H1. destruct (run_call c w) as [a w1]. specialize (IH w1).
  destruct (run_calls run_call cs w1) as [l w2]. cbn in *. by etrans.
Qed.

Lemma check_absent kind h conv w :
  kind ≠ allow_conversation → jget (kind_string kind +:+ ":" +:+ h) (w_st w) = None →
  (check kind h conv w).1 = inr false.
Proof. intros Hk Hn. unfold check, key_of. destruct kind; [| |done]; cbn [storageKey]; cbn [kind_string] in Hn; mrun; by rewrite Hn. Qed.

(** Grants under single-use keys are single-use. *)
Definition once_kind (h : string) (st : TemporaryGrantStore) : Prop :=
  ∀ g, jget (once_key h) st = Some g → tg_kind g = allow_once.

Lemma call_once_kind h c w : once_kind h (w_st w) → once_kind h (w_st (run_call c w).2).
Proof.
  intros Hk. destruct (regrants allow_once h c) eqn:Hre.
  - destruct c; cbn in Hre; try done. apply andb_true_iff in Hre as [H1 H2].
    apply bool_decide_eq_true in H1, H2. subst. intros g. unfold run_call, add, key_of. cbn [storageKey kind_string].
    destruct durationMs; mrun; unfold once_key; rewrite jget_jset_eq; by intros [= <-].
  - intros g. destruct (call_kept allow_once h c ltac:(done) Hre w) as [Heq|Heq]; cbn [kind_string] in Heq;
      unfold once_key, once_kind in *; change ("allow_once" +:+ ":" +:+ h) with ("allow_once:" +:+ h) in Heq;
      rewrite Heq; [apply Hk|done].
Qed.

Lemma calls_once_kind h cs n u : once_kind h (w_st (run_calls run_call cs (mkWorld n u [])).2).
Proof.
  assert (H : ∀ w, once_kind h (w_st w) → once_kind h (w_st (run_calls run_call cs w).2)); [|by apply H].
  induction cs as [|c cs IH]; intros w Hw; [done|]. cbn. apply (call_once_kind h c) in Hw.
  destruct (run_call c w) as [a w1]. specialize (IH w1 Hw). by destruct (run_calls run_call cs w1).
Qed.

Lemma once_check_consumes h conv w :
  once_kind h (w_st w) → jget (once_key h) (w_st (check allow_once h conv w).2) = None.
Proof.
  intros Hk. unfold check, key_of. cbn [storageKey kind_string]. mrun.
  change ("allow_once" +:+ ":" +:+ h) with (once_key h).
  destruct (jget (once_key h) (w_st w)) as [g|] eqn:Hg; [|exact Hg]. rewrite (Hk g Hg).
  unfold expired. destruct (tg_expiresAt g); mrun; apply jget_jdel_eq.
Qed.

Lemma timed_check_late h conv w e :
  view <$> jget (timed_key h) (w_st w) = Some (allow_10m, Some e) → e ≤ date_now (w_clock w) →
  (check allow_10m h conv w).1 = inr false.
Proof.
  intros Hg Hle. unfold check, key_of. cbn [storageKey kind_string]. mrun.
  change ("allow_10m" +:+ ":" +:+ h) with (timed_key h).
  destruct (jget (timed_key h) (w_st w)) as [g|]; [|done]. injection Hg as -> ->. cbn [expired]. mrun.
  by rewrite (proj2 (Z.leb_le _ _) Hle).
Qed.
End ends.

(** * Claims *)

(** C15. Any sequence of calls on a fresh store, naming conversations without
    colons, gets the answers of the abstract store: single-use, timed and
    conversation approvals that never interfere with each other. *)
Theorem temporary_grants_refine {env : Env} n u u' cs :
  Forall call_ok cs →
  (run_calls run_call cs (mkWorld n u [])).1 = (run_calls spec_call cs (mkWorld n u' (mkGrants ∅ ∅ ∅))).1.
Proof. intros Hok. apply sim_calls; [done|]. split; [by constructor|done]. Qed.

(** Approvals end.  Once a single-use approval was checked, no check
    accepts it again until it is granted again, whatever else is called.  A timed
    approval is refused from its deadline on, until it is granted again. *)
Theorem temporary_grants_end {env : Env} n u pre h conv conv' d cs :
  let w := (run_calls run_call pre (mkWorld n u [])).2 in
  (Forall (λ c, regrants allow_once h c = false) cs →
   let w1 := (check allow_once h conv w).2 in
   (check allow_once h conv' (run_calls run_call cs w1).2).1 = inr false) ∧
  (Forall (λ c, regrants allow_10m h c = false) cs →
   let w1 := (add allow_10m h conv d w).2 in
   let w2 := (run_calls run_call cs w1).2 in
   date_now (S (w_clock w)) + default DEFAULT_TIMED_DURATION_MS d ≤ date_now (w_clock w2) →
   (check allow_10m h conv' w2).1 = inr false).
Proof.
  intros w. split; intros Hcs w1.
  - apply check_absent; [done|].
    assert (Hn : jget (once_key h) (w_st w1) = None) by (apply once_check_consumes, calls_once_kind; done).
    destruct (calls_kept allow_once h cs w1 ltac:(done) Hcs) as [Heq|Heq]; [by etrans|done].
  - intros w2 Hlate.
    destruct (calls_kept allow_10m h cs w1 ltac:(done) Hcs) as [Heq|Heq]; [|by apply check_absent].
    fold w2 in Heq. cbn [kind_string] in Heq.
    apply timed_check_late with (e := date_now (S (w_clock w)) + default DEFAULT_TIMED_DURATION_MS d); [|done].
    unfold timed_key. etrans; [apply f_equal, Heq|].
    unfold w1, add, key_of. cbn [storageKey kind_string]. mrun. by rewrite jget_jset_eq.
Qed.

(** ** Two approvals *)

Definition demo_calls : list TCall :=
  [CAdd allow_once "h" None None; CAdd allow_conversation "h" (Some "c1") None;
   CCheck allow_conversation "h" (Some "c2"); CCheckAny "h" (Some "c1"); CCheckAny "h" (Some "c1");
   CClearConversation "c1"; CCheckAny "h" (Some "c1")].

(** Witness of C15. *)
Lemma temporary_grants_refine_witness :
  Forall call_ok demo_calls ∧
  (run_calls run_call demo_calls (mkWorld 0 0 [])).1 =
    [inr AUnit; inr AUnit; inr (ABool false); inr (AKind (Some allow_once));
     inr (AKind (Some allow_conversation)); inr AUnit; inr (AKind None)].
Proof.
  assert (Hok : Forall call_ok demo_calls).
  { repeat constructor; cbn; unfold conv_ok; try discriminate; intros; simplify_eq; reflexivity. }
  split; [exact Hok|]. etrans; [exact (temporary_grants_refine 0 0 0 demo_calls Hok)|]. vm_compute. reflexivity.
Defined.

(** For example: a single-use approval, and one of five milliseconds. *)
Lemma temporary_grants_end_witness :
  let w := (run_calls run_call [CAdd allow_once "h" None None] (mkWorld 0 0 [])).2 in
  (check allow_once "h" None w).1 = inr true ∧
  (check allow_once "h" None (check allow_once "h" None w).2).1 = inr false ∧
  let w2 := (run_calls run_call (replicate 6 (CCheck allow_10m "h" None)) (add allow_10m "h" None (Some 5) w).2).2 in
  (check allow_10m "h" None w2).1 = inr false.
Proof.
  intros w. destruct (temporary_grants_end 0 0 [CAdd allow_once "h" None None] "h" None None None []) as [Hone _].
  destruct (temporary_grants_end 0 0 [CAdd allow_once "h" None None] "h" None None (Some 5)
    (replicate 6 (CCheck allow_10m "h" None))) as [_ Htimed].
  split; [vm_compute; reflexivity|]. split; [apply Hone; constructor|].
  apply Htimed; [repeat constructor|]. vm_compute. discriminate.
Defined.

(** A conversation whose identifier extends the cleared one by a colon loses its
    approvals too. *)
Example clearConversation_reaches_further :
  (run_calls run_call
    [CAdd allow_conversation "h" (Some "a:b") None; CClearConversation "a"; CCheck allow_conversation "h" (Some "a:b")]
    (mkWorld 0 0 [])).1 = [inr AUnit; inr AUnit; inr (ABool false)].
Proof. vm_compute. reflexivity. Qed.
