(* ===== verification/PersistentGrants.v ===== *)
(** * Persistent grants

    [PersistentGrantStore] of
    src/credential-executor/src/grants/persistent-store.ts: approvals kept in a
    JSON file, with revocation that leaves an audit trail, failing closed when
    the file is damaged.

    The file is what reading and parsing it gives.  Writing a list of grants and
    reading it back gives the list: JSON drops only fields that are undefined.
    Failures of the write itself, file modes and the directory are left out. *)
From S2P Require Import Prelude Demo.

Record PersistentGrant := mkPersistentGrant {
  pg_id : string;
  pg_tool : string;
  pg_pattern : string;
  pg_scope : string;
  pg_createdAt : Z;
  pg_sessionId : option string;   (* absent on legacy grants *)
  pg_revokedAt : option Z;
  pg_revokedReason : option string;
}.
#[global] Instance PersistentGrant_eq_dec : EqDecision PersistentGrant.
Proof. solve_decision. Defined.

Definition GRANTS_FILE_VERSION : Z := 1.

(** What [JSON.parse(readFileSync(path))] can give. *)
Inductive GrantsFile :=
  | Unreadable                       (* reading or parsing throws *)
  | OtherJson                        (* not an object with version and grants *)
  | GrantsJson (version : Z) (grants : option (list PersistentGrant)).   (* [None]: not an array *)

Record PersistentGrantStore := mkStore { ps_file : option GrantsFile; ps_corrupt : bool }.

Inductive GrantError :=
  | StoreCorrupt
  | MissingFields
  | UnsupportedVersion (version : Z)
  | GrantsNotArray
  | ReadFailed
  | ReadError.    (* the error of the read or of the parse itself *)

Definition set_corrupt (s : PersistentGrantStore) : PersistentGrantStore := mkStore (ps_file s) true.

(** [find] and mutate in place; [findIndex] and [splice]. *)
Fixpoint update_first {A} (p : A → bool) (f : A → A) (l : list A) : list A :=
  match l with
  | [] => []
  | x :: l' => if p x then f x :: l' else x :: update_first p f l'
  end.
Fixpoint remove_first {A} (p : A → bool) (l : list A) : list A :=
  match l with
  | [] => []
  | x :: l' => if p x then l' else x :: remove_first p l'
  end.

(** [revokedAt == null] *)
Definition active (g : PersistentGrant) : bool :=
  match pg_revokedAt g with None => true | Some _ => false end.

Definition has_id (id : string) (g : PersistentGrant) : bool := eqs (pg_id g) id.

Section store.
Context {env : Env}.

Definition P (A : Type) : Type := M (World PersistentGrantStore) GrantError A.

Definition assertNotCorrupt : P unit :=
  corrupt ← gets ps_corrupt;
  if (corrupt : bool) then throw StoreCorrupt else mret tt.

(** Marks the store and throws. *)
Definition corruption {A} (e : GrantError) : P A := modify set_corrupt;; throw e.

(** A failed read is rethrown as it is if the store was already marked. *)
Definition loadFromDisk : P (list PersistentGrant) :=
  file ← gets ps_file;
  match file with
  | Some (GrantsJson version grants) =>
      if negb (version =? GRANTS_FILE_VERSION) then corruption (UnsupportedVersion version)
      else match grants with
           | Some l => mret l
           | None => corruption GrantsNotArray
           end
  | Some OtherJson => corruption MissingFields
  | Some Unreadable | None =>
      corrupt ← gets ps_corrupt;
      if (corrupt : bool) then throw ReadError else corruption ReadFailed
  end.

Definition writeToDisk (grants : list PersistentGrant) : P unit :=
  modify (λ s, mkStore (Some (GrantsJson GRANTS_FILE_VERSION (Some grants))) (ps_corrupt s)).

(** The migration of legacy grants. *)
Definition backfill (g : PersistentGrant) : PersistentGrant :=
  match pg_sessionId g with
  | None => mkPersistentGrant (pg_id g) (pg_tool g) (pg_pattern g) (pg_scope g) (pg_createdAt g) (Some "unknown")
              (pg_revokedAt g) (pg_revokedReason g)
  | Some _ => g
  end.

Definition init : P unit :=
  file ← gets ps_file;
  match file with
  | None => writeToDisk []
  | Some _ =>
      grants ← loadFromDisk;
      if js_some (λ g, match pg_sessionId g with None => true | Some _ => false end) grants
      then writeToDisk (backfill <$> grants)
      else mret tt
  end.

Definition getAllIncludingRevoked : P (list PersistentGrant) :=
  assertNotCorrupt;;
  file ← gets ps_file;
  match file with
  | None => mret []
  | Some _ => loadFromDisk
  end.

Definition getAll : P (list PersistentGrant) :=
  l ← getAllIncludingRevoked; mret (js_filter active l).

Definition getById (id : string) : P (option PersistentGrant) :=
  l ← getAll; mret (js_find (has_id id) l).

(** The fields a new approval overwrites on a revoked grant. *)
Definition reactivated (grant existing : PersistentGrant) : PersistentGrant :=
  mkPersistentGrant (pg_id existing) (pg_tool grant) (pg_pattern grant) (pg_scope grant) (pg_createdAt grant)
    (pg_sessionId grant) None None.

Definition add (grant : PersistentGrant) : P bool :=
  assertNotCorrupt;;
  grants ← loadFromDisk;
  match js_find (has_id (pg_id grant)) grants with
  | Some existing =>
      if active existing then mret false
      else writeToDisk (update_first (has_id (pg_id grant)) (reactivated grant) grants);; mret true
  | None => writeToDisk (grants ++ [grant]);; mret true
  end.

Definition remove (id : string) : P bool :=
  assertNotCorrupt;;
  grants ← loadFromDisk;
  match js_findIndex (has_id id) grants with
  | None => mret false
  | Some _ => writeToDisk (remove_first (has_id id) grants);; mret true
  end.

Definition revoked (t : Z) (reason : option string) (g : PersistentGrant) : PersistentGrant :=
  mkPersistentGrant (pg_id g) (pg_tool g) (pg_pattern g) (pg_scope g) (pg_createdAt g) (pg_sessionId g)
    (Some t) reason.

Definition markRevoked (id : string) (reason : option string) : P bool :=
  assertNotCorrupt;;
  grants ← loadFromDisk;
  match js_find (has_id id) grants with
  | None => mret false
  | Some grant =>
      if negb (active grant) then mret false
      else
        t ← now;
        writeToDisk (update_first (has_id id) (revoked t reason) grants);; mret true
  end.

Definition has (id : string) : P bool :=
  g ← getById id; mret (match g with Some _ => true | None => false end).

Definition clear : P unit := assertNotCorrupt;; writeToDisk [].
End store.

(** ** The abstract store: a map from identifiers to grants *)

Inductive PCall :=
  | PInit
  | PGetAll
  | PGetAllIncludingRevoked
  | PGetById (id : string)
  | PAdd (grant : PersistentGrant)
  | PRemove (id : string)
  | PMarkRevoked (id : string) (reason : option string)
  | PHas (id : string)
  | PClear.

Inductive PAnswer := PUnit | PBool (b : bool) | PGrant (g : option PersistentGrant) | PGrants (l : list PersistentGrant).

Definition run_pcall {env : Env} (c : PCall) : P PAnswer :=
  match c with
  | PInit => init;; mret PUnit
  | PGetAll => l ← getAll; mret (PGrants l)
  | PGetAllIncludingRevoked => l ← getAllIncludingRevoked; mret (PGrants l)
  | PGetById id => g ← getById id; mret (PGrant g)
  | PAdd grant => b ← add grant; mret (PBool b)
  | PRemove id => b ← remove id; mret (PBool b)
  | PMarkRevoked id reason => b ← markRevoked id reason; mret (PBool b)
  | PHas id => b ← has id; mret (PBool b)
  | PClear => clear;; mret PUnit
  end.

Abbreviation Grants := (gmap string PersistentGrant).

(** The grant of an identifier, unless it is revoked. *)
Definition live (m : Grants) (id : string) : option PersistentGrant :=
  match m !! id with
  | Some g => if active g then Some g else None
  | None => None
  end.

(** What a call at time [t] answers, and what becomes of the map. *)
Definition pspec (t : Z) (m : Grants) (c : PCall) (a : PAnswer) (m' : Grants) : Prop :=
  match c with
  | PInit => a = PUnit ∧ m' = backfill <$> m
  | PGetAll => ∃ l, a = PGrants l ∧ l ≡ₚ js_filter active (map_to_list m).*2 ∧ m' = m
  | PGetAllIncludingRevoked => ∃ l, a = PGrants l ∧ l ≡ₚ (map_to_list m).*2 ∧ m' = m
  | PGetById id => a = PGrant (live m id) ∧ m' = m
  | PHas id => a = PBool (bool_decide (is_Some (live m id))) ∧ m' = m
  | PAdd g =>
      match m !! pg_id g with
      | None => a = PBool true ∧ m' = <[pg_id g := g]> m
      | Some e => if active e then a = PBool false ∧ m' = m
                  else a = PBool true ∧ m' = <[pg_id g := reactivated g e]> m
      end
  | PRemove id => a = PBool (bool_decide (is_Some (m !! id))) ∧ m' = delete id m
  | PMarkRevoked id reason =>
      match live m id with
      | Some g => a = PBool true ∧ m' = <[id := revoked t reason g]> m
      | None => a = PBool false ∧ m' = m
      end
  | PClear => a = PUnit ∧ m' = ∅
  end.

(** ** Lists of grants as maps *)

Definition index (l : list PersistentGrant) : Grants := list_to_map ((λ g, (pg_id g, g)) <$> l).

#[local] Arguments index : simpl never.

Lemma index_cons g l : index (g :: l) = <[pg_id g := g]> (index l).
Proof. done. Qed.

Lemma index_lookup l id : index l !! id = js_find (has_id id) l.
Proof.
  induction l as [|g l IH]; [done|]. rewrite index_cons. cbn. unfold has_id at 1, eqs.
  case_bool_decide; subst; [by rewrite lookup_insert_eq|]. by rewrite lookup_insert_ne.
Qed.

Lemma index_update id f l g :
  (∀ g, pg_id (f g) = pg_id g) → js_find (has_id id) l = Some g →
  index (update_first (has_id id) f l) = <[id := f g]> (index l).
Proof.
  intros Hf. induction l as [|x l IH]; [done|]. cbn. destruct (has_id id x) eqn:Hx.
  - intros [= ->]. apply bool_decide_eq_true in Hx. rewrite !index_cons, Hf, Hx. by rewrite insert_insert_eq.
  - intros Hg. rewrite !index_cons, IH by done. apply bool_decide_eq_false in Hx. by rewrite insert_insert_ne.
Qed.

Lemma update_first_ids id f l :
  (∀ g, pg_id (f g) = pg_id g) → pg_id <$> update_first (has_id id) f l = pg_id <$> l.
Proof.
  intros Hf. induction l as [|x l IH]; [done|]. cbn. destruct (has_id id x); cbn; [by rewrite Hf|by rewrite IH].
Qed.

Lemma index_app l g : js_find (has_id (pg_id g)) l = None → index (l ++ [g]) = <[pg_id g := g]> (index l).
Proof.
  induction l as [|x l IH]; [done|]. cbn. destruct (has_id (pg_id g) x) eqn:Hx; [done|]. intros Hn.
  rewrite !index_cons, IH by done. apply bool_decide_eq_false in Hx. by rewrite insert_insert_ne.
Qed.

Lemma find_none_id l id : js_find (has_id id) l = None ↔ id ∉ pg_id <$> l.
Proof.
  induction l as [|x l IH]; cbn; [set_solver|]. rewrite not_elem_of_cons. unfold has_id at 1, eqs.
  case_bool_decide; [naive_solver|]. rewrite IH. naive_solver.
Qed.

Lemma index_remove id l :
  NoDup (pg_id <$> l) → index (remove_first (has_id id) l) = delete id (index l).
Proof.
  induction l as [|x l IH]; cbn [fmap list_fmap].
  { intros _. symmetry. apply delete_empty. }
  intros [Hn Hnd]%NoDup_cons.
  cbn. unfold has_id at 1, eqs. case_bool_decide as Hx.
  - subst id. rewrite index_cons, delete_insert_eq, delete_id; [done|]. by rewrite index_lookup, find_none_id.
  - rewrite !index_cons, IH by done. by rewrite delete_insert_ne.
Qed.

Lemma remove_first_sublist {A} (p : A → bool) (f : A → string) l :
  sublist (f <$> remove_first p l) (f <$> l).
Proof. induction l as [|x l IH]; cbn; [done|]. destruct (p x); by constructor. Qed.

Lemma find_active id l :
  NoDup (pg_id <$> l) → js_find (has_id id) (js_filter active l) = live (index l) id.
Proof.
  unfold live. rewrite index_lookup. unfold js_filter. induction l as [|x l IH]; [done|].
  cbn [fmap list_fmap]. intros [Hn Hnd]%NoDup_cons. specialize (IH Hnd). cbn. unfold has_id at 2, eqs.
  case_bool_decide as Hx.
  - destruct (active x) eqn:Ha; cbn; [unfold has_id at 1, eqs; by rewrite bool_decide_true|].
    subst id. apply find_none_id in Hn. by rewrite IH, Hn.
  - destruct (active x); cbn; [unfold has_id at 1, eqs; by rewrite bool_decide_false|done].
Qed.

Lemma index_values l : NoDup (pg_id <$> l) → l ≡ₚ (map_to_list (index l)).*2.
Proof.
  intros Hnd. unfold index. rewrite map_to_list_to_map.
  - by rewrite <-list_fmap_compose, list_fmap_id.
  - by rewrite <-list_fmap_compose.
Qed.

Lemma backfill_id g : pg_id (backfill g) = pg_id g.
Proof. unfold backfill. by destruct (pg_sessionId g). Qed.

Lemma backfill_ids (l : list PersistentGrant) : pg_id <$> (backfill <$> l) = pg_id <$> l.
Proof. induction l as [|g l IH]; [done|]. cbn. by rewrite IH, backfill_id. Qed.

Lemma backfill_none l :
  js_some (λ g, match pg_sessionId g with None => true | Some _ => false end) l = false → backfill <$> l = l.
Proof.
  unfold js_some. induction l as [|g l IH]; [done|]. cbn. rewrite orb_false_iff. intros [Hg Hl].
  rewrite IH by done. f_equal. unfold backfill. by destruct (pg_sessionId g).
Qed.

Lemma index_backfill l : index (backfill <$> l) = backfill <$> index l.
Proof.
  induction l as [|g l IH]; cbn [fmap list_fmap]; [symmetry; apply fmap_empty|].
  rewrite !index_cons, IH, fmap_insert. by rewrite backfill_id.
Qed.

(** ** The store implements the map *)

(** The file holds the grants of the map, one per identifier. *)
Definition holds (s : PersistentGrantStore) (m : Grants) : Prop :=
  ∃ l, s = mkStore (Some (GrantsJson GRANTS_FILE_VERSION (Some l))) false ∧ NoDup (pg_id <$> l) ∧ m = index l.

Section refinement.
Context {env : Env}.

Lemma js_findIndex_find {A} (p : A → bool) l :
  (∃ i x, js_findIndex p l = Some i ∧ js_find p l = Some x) ∨ (js_findIndex p l = None ∧ js_find p l = None).
Proof.
  induction l as [|y l IH]; cbn; [by right|]. destruct (p y); [by left; eauto|].
  destruct IH as [(i & x & -> & ->)|[-> ->]]; [left; by eexists _, _|by right].
Qed.

Lemma js_filter_perm {A} (p : A → bool) l l' : l ≡ₚ l' → js_filter p l ≡ₚ js_filter p l'.
Proof.
  unfold js_filter. induction 1; cbn; [done| | |by etrans].
  - destruct (p x); [by constructor|done].
  - destruct (p x), (p y); by try constructor.
Qed.

(** The call returns an answer of the map, and the file holds the new map. *)
Definition conforms (c : PCall) : Prop :=
  ∀ n u s m, holds s m → ∃ a m' n' s', run_pcall c (mkWorld n u s) = (inr a, mkWorld n' u s') ∧
    pspec (date_now n) m c a m' ∧ holds s' m'.

Ltac answers := eexists _, _, _, _; split; [done|]; split; [done|].
Ltac rewritten := eexists; split; [done|].

Lemma init_conforms : conforms PInit.
Proof.
  intros n u s m (l & -> & Hnd & ->). unfold run_pcall, init, loadFromDisk, writeToDisk. mrun.
  destruct (js_some _ l) eqn:Hm; answers.
  - rewritten. by rewrite backfill_ids, index_backfill.
  - rewritten. by rewrite <-index_backfill, backfill_none.
Qed.

Lemma add_conforms g : conforms (PAdd g).
Proof.
  intros n u s m (l & -> & Hnd & ->). cbn [pspec].
  unfold run_pcall, add, assertNotCorrupt, loadFromDisk, writeToDisk. mrun. rewrite index_lookup.
  destruct (js_find (has_id (pg_id g)) l) as [e|] eqn:Hf; [destruct (active e)|]; mrun; answers.
  - by exists l.
  - rewritten. by rewrite update_first_ids, (index_update _ _ _ e) by done.
  - rewritten. rewrite index_app by done. split; [|done]. rewrite fmap_app. apply NoDup_app.
    apply find_none_id in Hf. split_and!; [done|set_solver|apply NoDup_singleton].
Qed.

Lemma remove_conforms id : conforms (PRemove id).
Proof.
  intros n u s m (l & -> & Hnd & ->). cbn [pspec].
  unfold run_pcall, remove, assertNotCorrupt, loadFromDisk, writeToDisk. mrun. rewrite index_lookup.
  destruct (js_findIndex_find (has_id id) l) as [(i & x & -> & Hf)|[-> Hf]]; rewrite Hf; mrun; answers.
  - rewritten. rewrite index_remove by done. split; [|done]. eapply sublist_NoDup; [exact Hnd|].
    apply remove_first_sublist.
  - exists l. split_and!; [done..|]. apply delete_id. by rewrite index_lookup.
Qed.

Lemma markRevoked_conforms id reason : conforms (PMarkRevoked id reason).
Proof.
  intros n u s m (l & -> & Hnd & ->). cbn [pspec].
  unfold run_pcall, markRevoked, assertNotCorrupt, loadFromDisk, writeToDisk, live. mrun. rewrite index_lookup.
  destruct (js_find (has_id id) l) as [e|] eqn:Hf; [destruct (active e); cbn [negb]|]; mrun; answers.
  - rewritten. by rewrite update_first_ids, (index_update _ _ _ e) by done.
  - by exists l.
  - by exists l.
Qed.

Lemma call_conforms c : conforms c.
Proof.
  destruct c; auto using init_conforms, add_conforms, remove_conforms, markRevoked_conforms;
    intros n u s m (l & -> & Hnd & ->); (eexists _, _, _, _; split; [done|]); cbn [pspec].
  - split; [|by exists l]. exists (js_filter active l). split; [done|]. split; [|done].
    apply js_filter_perm. by rewrite <-index_values.
  - split; [|by exists l]. exists l. split; [done|]. by rewrite <-index_values.
  - split; [|by exists l]. by rewrite <-find_active.
  - split; [|by exists l]. rewrite <-find_active by done. split; [|done].
    f_equal. cbn. by destruct (js_find (has_id id) _).
  - split; [done|]. exists []. split_and!; [done|constructor|done].
Qed.

(** The answers of a sequence of calls, each at some reading of the clock. *)
Inductive pspec_run : Grants → list PCall → list (GrantError + PAnswer) → Prop :=
  | pspec_nil m : pspec_run m [] []
  | pspec_cons m c n a m' cs l : pspec (date_now n) m c a m' → pspec_run m' cs l → pspec_run m (c :: cs) (inr a :: l).

Lemma calls_spec cs n u s m : holds s m → pspec_run m cs (run_calls run_pcall cs (mkWorld n u s)).1.
Proof.
  revert n s m. induction cs as [|c cs IH]; intros n s m Hh; [constructor|]. cbn [run_calls].
  destruct (call_conforms c n u s m Hh) as (a & m' & n' & s' & -> & Hp & Hh'). specialize (IH n' s' m' Hh').
  destruct (run_calls run_pcall cs (mkWorld n' u s')). by econstructor.
Qed.
End refinement.

(** ** Failing closed *)

Definition readable (f : GrantsFile) : bool :=
  match f with GrantsJson v (Some _) => v =? GRANTS_FILE_VERSION | _ => false end.

Section fail_closed.
Context {env : Env}.

(** The call threw, and left the damaged file alone. *)
Definition fails (f : GrantsFile) (r : (GrantError + PAnswer) * World PersistentGrantStore) : Prop :=
  (∃ e, r.1 = inl e) ∧ w_st r.2 = mkStore (Some f) true.

Lemma load_fails f n u k : readable f = false →
  ∃ e, loadFromDisk (mkWorld n u (mkStore (Some f) k)) = (inl e, mkWorld n u (mkStore (Some f) true)).
Proof.
  intros Hf. unfold loadFromDisk. mrun. destruct f as [| |v [l|]]; cbn in Hf; cbn.
  - destruct k; by eexists.
  - by eexists.
  - rewrite Hf. by eexists.
  - destruct (v =? GRANTS_FILE_VERSION); by eexists.
Qed.

(** Every call on a store already marked fails. *)
Lemma marked_fails c f n u : readable f = false →
  fails f (run_pcall c (mkWorld n u (mkStore (Some f) true))).
Proof.
  intros Hf. destruct c; try (split; [by eexists|done]).
  unfold run_pcall, init. destruct (load_fails f n u true Hf) as [e He]. unfold fails. mrun. rewrite He. by eauto.
Qed.

(** The first call that reads the file marks the store. *)
Lemma first_fails c f n u : readable f = false → c ≠ PClear →
  fails f (run_pcall c (mkWorld n u (mkStore (Some f) false))).
Proof.
  intros Hf Hc. destruct (load_fails f n u false Hf) as [e He].
  destruct c; [..|done]; unfold run_pcall, init, has, getById, getAll, getAllIncludingRevoked, add, remove,
    markRevoked, assertNotCorrupt, fails; mrun; rewrite He; eauto.
Qed.

Lemma marked_calls_fail f cs n u : readable f = false →
  let r := run_calls run_pcall cs (mkWorld n u (mkStore (Some f) true)) in
  Forall (λ a, ∃ e, a = inl e) r.1 ∧ w_st r.2 = mkStore (Some f) true.
Proof.
  intros Hf. revert n u. induction cs as [|c cs IH]; intros n u; cbn; [by split|].
  destruct (marked_fails c f n u Hf) as [Ha Hs]. destruct (run_pcall c _) as [a [n1 u1 s1]]. cbn in Ha, Hs. subst s1.
  specialize (IH n1 u1). destruct (run_calls run_pcall cs _) as [l w2]. cbn in *. destruct IH as [IH1 IH2].
  split; [by constructor|done].
Qed.
End fail_closed.

(** * Claims *)

(** C16. An initialised store is a map from identifiers to grants: every
    sequence of calls returns the answers of the map, in which adding an active
    grant again is a no-op, a revoked grant is hidden from lookups but kept, and
    granting it again reactivates it. *)
Theorem persistent_grants_refine {env : Env} n u cs :
  pspec_run ∅ cs (run_calls run_pcall cs (init (mkWorld n u (mkStore None false))).2).1.
Proof. cbn. apply calls_spec. exists []. split_and!; [done|constructor|done]. Qed.

(** The store fails closed: once a call has met a damaged file (any call but
    [clear] does), that call and every later one throws, and the file is never
    overwritten. *)
Theorem persistent_grants_fail_closed {env : Env} f c cs n u :
  readable f = false → c ≠ PClear →
  let r := run_calls run_pcall (c :: cs) (mkWorld n u (mkStore (Some f) false)) in
  Forall (λ a, ∃ e, a = inl e) r.1 ∧ ps_file (w_st r.2) = Some f.
Proof.
  intros Hf Hc. cbn. destruct (first_fails c f n u Hf Hc) as [Ha Hs].
  destruct (run_pcall c _) as [a [n1 u1 s1]]. cbn in Ha, Hs. subst s1.
  destruct (marked_calls_fail f cs n1 u1 Hf) as [H1 H2]. destruct (run_calls run_pcall cs _) as [l w2]. cbn in *.
  rewrite H2. split; [by constructor|done].
Qed.

(** For example: a file of another version, then an attempt to clear it. *)
Lemma persistent_grants_fail_closed_witness :
  let r := run_calls run_pcall [PHas "g"; PClear] (mkWorld 0 0 (mkStore (Some (GrantsJson 2 (Some []))) false)) in
  r.1 = [inl (UnsupportedVersion 2); inl StoreCorrupt] ∧ ps_file (w_st r.2) = Some (GrantsJson 2 (Some [])).
Proof.
  intros r. split; [vm_compute; reflexivity|].
  destruct (persistent_grants_fail_closed (GrantsJson 2 (Some [])) (PHas "g") [PClear] 0 0 eq_refl) as [_ Hfile];
    [discriminate|exact Hfile].
Defined.

(** [clear] does not look at the file: as the first call it replaces a damaged one. *)
Example clear_replaces_damaged_file :
  ps_file (w_st (clear (mkWorld 0 0 (mkStore (Some Unreadable) false))).2) =
    Some (GrantsJson GRANTS_FILE_VERSION (Some [])).
Proof. vm_compute. reflexivity. Qed.
