(* ===== verification/PathTemplate.v ===== *)
(** * URL templates of HTTP grants

    src/credential-executor/src/http/path-template.ts: a URL is generalised to a
    template by replacing numbers, UUIDs and long hexadecimal segments of its path,
    and a template is matched against URLs.

    The WHATWG parser behind [new URL] is a parameter, [parse_url]; what the code
    relies on of it is [UrlParserOk]. *)
From S2P Require Import Prelude JsText.

Record URL := mkURL {
  url_protocol : string;
  url_hostname : string;
  url_port : string;
  url_pathname : string;
}.

Definition safeDecodeSegment (segment : string) : option (list Z) := decodeURIComponent segment.
#[global] Arguments safeDecodeSegment : simpl never.

(** ** Segment patterns *)

Definition is_digit (n : Z) : bool := (48 <=? n) && (n <=? 57).
(** [[0-9a-f]] without regard to case. *)
Definition is_hex (n : Z) : bool := is_digit n || (97 <=? n) && (n <=? 102) || (65 <=? n) && (n <=? 70).

Definition all_units (p : Z → bool) (l : list Z) : bool := forallb p l.

(** [l] starts with [n] hexadecimal digits; what follows them. *)
Fixpoint hex_run (n : nat) (l : list Z) : option (list Z) :=
  match n, l with
  | O, _ => Some l
  | S n', x :: l' => if is_hex x then hex_run n' l' else None
  | S _, [] => None
  end.

Definition hyphen (l : list Z) : option (list Z) :=
  match l with x :: l' => if x =? 45 then Some l' else None | [] => None end.

(** 8-4-4-4-12 *)
Definition UUID_RE (l : list Z) : bool :=
  match (l1 ← hex_run 8 l; l2 ← hyphen l1; l3 ← hex_run 4 l2; l4 ← hyphen l3; l5 ← hex_run 4 l4;
         l6 ← hyphen l5; l7 ← hex_run 4 l6; l8 ← hyphen l7; hex_run 12 l8) with
  | Some [] => true
  | _ => false
  end.

Definition NUMERIC_RE (l : list Z) : bool := negb (bool_decide (l = [])) && all_units is_digit l.
Definition HEX_LONG_RE (l : list Z) : bool := (16 <=? length l)%nat && all_units is_hex l.

Definition PLACEHOLDER_LITERALS : list string := ["{:num}"; "{:uuid}"; "{:hex}"].

Definition classifySegment (segment : list Z) : list Z :=
  if UUID_RE segment then units "{:uuid}"
  else if NUMERIC_RE segment then units "{:num}"
  else if HEX_LONG_RE segment then units "{:hex}"
  else segment.

(** ** Templates *)

(** [protocol.replace(/:$/, "")] *)
Fixpoint strip_colon (s : string) : string :=
  match s with
  | "" => ""
  | String ":" "" => ""
  | String c s' => String c (strip_colon s')
  end.

Definition with_port (hostname port : string) : string := hostname +:+ (if truthy port then ":" +:+ port else "").

Definition path_segments (u : URL) : list string := js_filter truthy (js_split "/" (url_pathname u)).

Section templates.
Context (parse_url : string → option URL).

Definition derivePathTemplate (rawUrl : string) : string + string :=
  match parse_url rawUrl with
  | None => inl "Invalid URL"
  | Some parsed =>
      let scheme := strip_colon (url_protocol parsed) in
      let host := with_port (url_hostname parsed) (url_port parsed) in
      let rawSegments := path_segments parsed in
      let decodedSegments := (λ seg, default (units seg) (safeDecodeSegment seg)) <$> rawSegments in
      match js_find (λ seg, bool_decide (seg ∈ units <$> PLACEHOLDER_LITERALS)) decodedSegments with
      | Some _ => inl "Refusing to derive path template"
      | None =>
          let templatedSegments :=
            zip_with (λ decoded raw,
              let classified := classifySegment decoded in
              if negb (bool_decide (classified = decoded)) then default raw (of_units classified) else raw)
              decodedSegments rawSegments in
          let path := match templatedSegments with [] => "/" | _ => "/" +:+ js_join "/" templatedSegments end in
          inr (scheme +:+ "://" +:+ host +:+ path)
      end
  end.

Definition deriveAllowedUrlPatterns (rawUrl : string) : string + list string :=
  match derivePathTemplate rawUrl with inl e => inl e | inr t => inr [t] end.

(** The loop over the segments. *)
Fixpoint segments_match (templateSegments urlSegments : list (list Z)) : bool :=
  match templateSegments, urlSegments with
  | [], _ => true
  | tSeg :: ts, uSeg :: us =>
      (if bool_decide (tSeg = units "{:num}") then NUMERIC_RE uSeg
       else if bool_decide (tSeg = units "{:uuid}") then UUID_RE uSeg
       else if bool_decide (tSeg = units "{:hex}") then HEX_LONG_RE uSeg
       else bool_decide (tSeg = uSeg)) && segments_match ts us
  | _ :: _, [] => false
  end.

Definition urlMatchesTemplate (rawUrl template : string) : bool :=
  match parse_url rawUrl, parse_url template with
  | Some parsedUrl, Some parsedTemplate =>
      eqs (url_protocol parsedUrl) (url_protocol parsedTemplate) &&
      eqs (with_port (toLowerCase (url_hostname parsedUrl)) (url_port parsedUrl))
          (with_port (toLowerCase (url_hostname parsedTemplate)) (url_port parsedTemplate)) &&
      match mapM safeDecodeSegment (path_segments parsedUrl), mapM safeDecodeSegment (path_segments parsedTemplate) with
      | Some urlSegments, Some templateSegments =>
          (length urlSegments =? length templateSegments)%nat && segments_match templateSegments urlSegments
      | _, _ => false
      end
  | _, _ => false
  end.

(** ** The parser *)

(** The schemes of the web; others may have paths that are not hierarchical. *)
Definition web (u : URL) : Prop := url_protocol u = "http:" ∨ url_protocol u = "https:".

(** Braces are in the path percent-encode set. *)
Fixpoint escape_braces (s : string) : string :=
  match s with
  | "" => ""
  | String "{" s' => "%7B" +:+ escape_braces s'
  | String "}" s' => "%7D" +:+ escape_braces s'
  | String c s' => String c (escape_braces s')
  end.

(** What the code relies on of the WHATWG parser, for web URLs: the paths it
    returns have no braces, and a URL put together from the parts of a parsed one,
    with segments of its path or placeholders, parses to the same parts with the
    braces of the path encoded. *)
Class UrlParserOk : Prop := {
  url_braces raw u seg :
    parse_url raw = Some u → web u → seg ∈ path_segments u → has_char "{" seg = false ∧ has_char "}" seg = false;
  url_reparse raw u segs :
    parse_url raw = Some u → web u →
    Forall (λ s, s ∈ path_segments u ∨ s ∈ PLACEHOLDER_LITERALS) segs →
    ∃ u', parse_url (strip_colon (url_protocol u) +:+ "://" +:+ with_port (url_hostname u) (url_port u)
                       +:+ "/" +:+ js_join "/" segs) = Some u' ∧
      url_protocol u' = url_protocol u ∧ url_hostname u' = url_hostname u ∧ url_port u' = url_port u ∧
      path_segments u' = escape_braces <$> segs;
}.
End templates.

(** ** Lemmas *)

Lemma no_percent s : has_char "%" s = false → decodeURIComponent s = Some (units s).
Proof.
  unfold decodeURIComponent. induction s as [|c s IH]; [done|]. cbn [has_char]. intros [Hc Hs]%orb_false_iff.
  apply bool_decide_eq_false in Hc.
  assert (uri_tokens (String c s) = cons (raw_unit (Z.of_nat (nat_of_ascii c))) <$> uri_tokens s) as ->.
  { clear IH Hs. destruct c as [[] [] [] [] [] [] [] []]; done. }
  rewrite uri_tokens_cons. cbn [utf8_units]. by rewrite bind_cons, IH.
Qed.

Lemma escape_braces_id s : has_char "{" s = false → has_char "}" s = false → escape_braces s = s.
Proof.
  induction s as [|c s IH]; [done|]. cbn [has_char]. intros [Ho Hs]%orb_false_iff [Hc Hs']%orb_false_iff.
  apply bool_decide_eq_false in Ho, Hc. rewrite <- (IH Hs Hs') at 2.
  clear IH Hs Hs'. destruct c as [[] [] [] [] [] [] [] []]; done.
Qed.

(** Segments that become placeholders have only digits, letters and hyphens. *)
Definition plain (n : Z) : bool := is_hex n || (n =? 45).

Lemma hex_run_plain n l l' : hex_run n l = Some l' → all_units plain l' = true → all_units plain l = true.
Proof.
  revert l. induction n as [|n IH]; intros l; cbn; [by intros [= ->]|]. destruct l as [|x l]; [done|].
  destruct (is_hex x) eqn:Hx; [|done]. intros H Hl'. cbn. unfold plain at 1. rewrite Hx. by apply IH.
Qed.

Lemma hyphen_plain l l' : hyphen l = Some l' → all_units plain l' = true → all_units plain l = true.
Proof.
  destruct l as [|x l]; [done|]. cbn. destruct (x =? 45) eqn:Hx; [|done]. intros [= ->] Hl. cbn.
  unfold plain. by rewrite Hx, orb_true_r.
Qed.

Lemma UUID_plain l : UUID_RE l = true → all_units plain l = true.
Proof.
  unfold UUID_RE. destruct (_ ≫= _) as [[|]|] eqn:H; [|done|done]. intros _.
  repeat match goal with
  | H : _ ≫= _ = Some _ |- _ => apply bind_Some in H as (?&?&?)
  end.
  repeat (first [eapply hex_run_plain; [eassumption|] | eapply hyphen_plain; [eassumption|]]). done.
Qed.

Lemma all_units_impl (p q : Z → bool) l : (∀ n, p n = true → q n = true) → all_units p l = true → all_units q l = true.
Proof.
  intros Hpq. unfold all_units. rewrite !forallb_forall. auto.
Qed.

Lemma classify_plain l : classifySegment l ≠ l → all_units plain l = true.
Proof.
  unfold classifySegment. destruct (UUID_RE l) eqn:Hu; [by intros _; apply UUID_plain|].
  destruct (NUMERIC_RE l) eqn:Hn.
  { intros _. apply andb_true_iff in Hn as [_ Hn]. revert Hn. apply all_units_impl. unfold plain, is_hex. by intros n ->. }
  destruct (HEX_LONG_RE l) eqn:Hh; [|done]. intros _. apply andb_true_iff in Hh as [_ Hh]. revert Hh.
  apply all_units_impl. unfold plain. by intros n ->.
Qed.

Lemma plain_no_percent s : all_units plain (units s) = true → has_char "%" s = false.
Proof.
  induction s as [|c s IH]; [done|]. cbn. intros [Hc Hs]%andb_true_iff. rewrite IH by done.
  rewrite bool_decide_false; [done|]. by intros ->.
Qed.

(** ** What a template covers *)

(** A segment covers those of its class; one without a class, itself. *)
Definition covers (d d' : list Z) : bool :=
  if UUID_RE d then UUID_RE d' else if NUMERIC_RE d then NUMERIC_RE d'
  else if HEX_LONG_RE d then HEX_LONG_RE d' else bool_decide (d = d').

Lemma covers_refl d : covers d d = true.
Proof. unfold covers. repeat case_match; try done. by apply bool_decide_eq_true. Qed.

(** No segment of the URL, decoded, spells a placeholder. *)
Definition unspoofed (d : list Z) : Prop := d ∉ units <$> PLACEHOLDER_LITERALS.

Lemma unspoofed_ne d p : unspoofed d → p ∈ PLACEHOLDER_LITERALS → d ≠ units p.
Proof. intros Hd Hp ->. apply Hd. by apply list_elem_of_fmap_2. Qed.

Lemma segments_match_cons d ds d' ds' :
  unspoofed d → segments_match (classifySegment d :: ds) (d' :: ds') = covers d d' && segments_match ds ds'.
Proof.
  intros Hd. cbn [segments_match]. f_equal. unfold classifySegment, covers.
  destruct (UUID_RE d); [done|]. destruct (NUMERIC_RE d); [done|]. destruct (HEX_LONG_RE d); [done|].
  rewrite 3!bool_decide_false; [done|..]; (apply unspoofed_ne; [done|]; unfold PLACEHOLDER_LITERALS; rewrite !elem_of_cons; auto).
Qed.

Lemma segments_match_Forall2 ds ds' :
  Forall unspoofed ds →
  (length ds' =? length (classifySegment <$> ds))%nat && segments_match (classifySegment <$> ds) ds' = true
  ↔ Forall2 (λ d d', covers d d' = true) ds ds'.
Proof.
  intros Hds. revert ds'. induction Hds as [|d ds Hd Hds IH]; intros [|d' ds']; cbn [fmap list_fmap length].
  - split; [constructor|done].
  - split; [done|]. by inversion 1.
  - split; [done|]. by inversion 1.
  - rewrite segments_match_cons by done. rewrite Forall2_cons, <- IH, !andb_true_iff. cbn. tauto.
Qed.

(** The decoded form of a segment, as [derivePathTemplate] takes it. *)
Definition decoded (seg : string) : list Z := default (units seg) (safeDecodeSegment seg).

Definition templated (seg : string) : string :=
  if negb (bool_decide (classifySegment (decoded seg) = decoded seg))
  then default seg (of_units (classifySegment (decoded seg))) else seg.

Lemma classify_placeholder d :
  classifySegment d ≠ d → ∃ p, p ∈ PLACEHOLDER_LITERALS ∧ classifySegment d = units p.
Proof.
  unfold classifySegment, PLACEHOLDER_LITERALS. repeat case_match; try done; intros _.
  - exists "{:uuid}". rewrite !elem_of_cons. auto.
  - exists "{:num}". rewrite !elem_of_cons. auto.
  - exists "{:hex}". rewrite !elem_of_cons. auto.
Qed.

Lemma escape_placeholder p : p ∈ PLACEHOLDER_LITERALS → decodeURIComponent (escape_braces p) = Some (units p).
Proof. unfold PLACEHOLDER_LITERALS. rewrite !elem_of_cons, elem_of_nil. intros [->|[->|[->|[]]]]; reflexivity. Qed.

(** The template of a segment decodes to its class. *)
Lemma templated_decodes seg :
  has_char "{" seg = false → has_char "}" seg = false →
  (templated seg = seg ∨ templated seg ∈ PLACEHOLDER_LITERALS) ∧
  safeDecodeSegment (escape_braces (templated seg)) = classifySegment <$> safeDecodeSegment seg.
Proof.
  intros Ho Hc. unfold templated.
  destruct (decide (classifySegment (decoded seg) = decoded seg)) as [Heq|Hne].
  - rewrite bool_decide_true by done. cbn. split; [by left|]. rewrite escape_braces_id by done.
    unfold decoded in Heq. destruct (safeDecodeSegment seg) as [d|]; [|done]. cbn in *. by rewrite Heq.
  - rewrite bool_decide_false by done. cbn [negb].
    assert (Hd : safeDecodeSegment seg = Some (decoded seg)).
    { unfold decoded in *. destruct (safeDecodeSegment seg) as [d|] eqn:Hd; [done|]. cbn in Hne.
      apply classify_plain, plain_no_percent, no_percent in Hne. unfold safeDecodeSegment in Hd. congruence. }
    destruct (classify_placeholder _ Hne) as (p&Hp&Hcp). rewrite Hcp, of_units_units. cbn. split; [by right|].
    rewrite Hd. cbn. rewrite Hcp. by apply escape_placeholder.
Qed.

Lemma mapM_templated segs :
  Forall (λ s, has_char "{" s = false ∧ has_char "}" s = false) segs →
  mapM safeDecodeSegment (escape_braces <$> (templated <$> segs))
  = (λ ds, classifySegment <$> ds) <$> mapM safeDecodeSegment segs.
Proof.
  induction 1 as [|s segs [Ho Hc] _ IH]; [done|]. cbn.
  rewrite (proj2 (templated_decodes s Ho Hc)). fold (escape_braces <$> (templated <$> segs)).
  destruct (safeDecodeSegment s) as [d|]; [|done]. cbn.
  change (list_fmap string string escape_braces (list_fmap string string templated segs))
    with (escape_braces <$> (templated <$> segs)). rewrite IH. by destruct (mapM safeDecodeSegment segs).
Qed.

Section exact.
Context (parse_url : string → option URL) {Hparser : UrlParserOk parse_url}.

(** The template of a web URL, parsed. *)
Lemma template_parsed raw u t :
  parse_url raw = Some u → web u → derivePathTemplate parse_url raw = inr t →
  Forall unspoofed (decoded <$> path_segments u) ∧
  ∃ ut, parse_url t = Some ut ∧ url_protocol ut = url_protocol u ∧ url_hostname ut = url_hostname u ∧
    url_port ut = url_port u ∧ path_segments ut = escape_braces <$> (templated <$> path_segments u).
Proof.
  intros Hu Hweb. unfold derivePathTemplate. rewrite Hu.
  change (λ seg, default (units seg) (safeDecodeSegment seg)) with decoded.
  destruct (js_find _ _) eqn:Hf; [done|]. intros [= <-]. split.
  { apply Forall_forall. intros d Hd. pose proof (js_find_none _ _ Hf d Hd) as H. by apply bool_decide_eq_false in H. }
  assert (zip_with (λ d raw, if negb (bool_decide (classifySegment d = d)) then default raw (of_units (classifySegment d)) else raw)
    (decoded <$> path_segments u) (path_segments u) = templated <$> path_segments u) as ->.
  { generalize (path_segments u) as l. induction l as [|s l IH]; [done|]. cbn. by f_equal. }
  destruct (url_reparse _ raw u (templated <$> path_segments u) Hu Hweb) as (ut&Hut&?&?&?&?).
  { apply Forall_fmap, Forall_forall. intros s Hs. cbn.
    destruct (url_braces _ _ _ _ Hu Hweb Hs) as [Ho Hc].
    destruct (templated_decodes s Ho Hc) as [[->|?] _]; auto. }
  exists ut. split; [|done]. rewrite <- Hut. do 2 f_equal. by destruct (templated <$> path_segments u).
Qed.

Lemma template_exact_iff raw u t raw' u' :
  parse_url raw = Some u → web u → derivePathTemplate parse_url raw = inr t → parse_url raw' = Some u' →
  urlMatchesTemplate parse_url raw' t = true ↔
  url_protocol u' = url_protocol u ∧
  with_port (toLowerCase (url_hostname u')) (url_port u') = with_port (toLowerCase (url_hostname u)) (url_port u) ∧
  ∃ ds ds', mapM safeDecodeSegment (path_segments u) = Some ds ∧
    mapM safeDecodeSegment (path_segments u') = Some ds' ∧ Forall2 (λ d d', covers d d' = true) ds ds'.
Proof.
  intros Hu Hweb Ht Hu'. destruct (template_parsed _ _ _ Hu Hweb Ht) as (Hun&ut&Hut&Hp&Hh&Hpo&Hs).
  unfold urlMatchesTemplate. rewrite Hu', Hut, Hp, Hh, Hpo, Hs.
  rewrite mapM_templated by (apply Forall_forall; intros s Hin; exact (url_braces _ _ _ _ Hu Hweb Hin)).
  unfold eqs. rewrite !andb_true_iff, !bool_decide_eq_true, Logic.and_assoc. do 2 apply and_iff_compat_l.
  destruct (mapM safeDecodeSegment (path_segments u')) as [ds'|]; [|split; [done|]; by intros (?&?&?&?&?)].
  destruct (mapM safeDecodeSegment (path_segments u)) as [ds|] eqn:Hds; [|split; [done|]; by intros (?&?&?&?&?)].
  cbn [fmap option_fmap option_map].
  rewrite segments_match_Forall2; [naive_solver|].
  replace ds with (decoded <$> path_segments u); [done|]. apply mapM_Some in Hds.
  clear -Hds. induction Hds as [|s d segs ds Hd _ IH]; [done|]. cbn. unfold decoded at 1. by rewrite Hd, <- IH.
Qed.

(** A template covers the URL it came from. *)
Lemma template_covers_own raw u t ds :
  parse_url raw = Some u → web u → derivePathTemplate parse_url raw = inr t →
  mapM safeDecodeSegment (path_segments u) = Some ds → urlMatchesTemplate parse_url raw t = true.
Proof.
  intros Hu Hweb Ht Hds. eapply (template_exact_iff raw u t raw u); try done. split_and!; try done.
  exists ds, ds. split_and!; try done. apply Forall_Forall2_diag, Forall_true. apply covers_refl.
Qed.
End exact.

(** C19. A template covers exactly the URLs it should: the template derived from a
    web URL matches another URL if and only if scheme, host and port agree, the
    paths have as many segments, all decodable, and each decoded segment is
    covered by the one it stands for: an identifier by the identifiers of its class,
    every other segment only by itself.  So no template spans hosts, subpaths or
    other literal segments, and the URL it came from is always covered. *)
Theorem template_exact (parse_url : string → option URL) {Hparser : UrlParserOk parse_url} raw u t raw' u' :
  parse_url raw = Some u → web u → derivePathTemplate parse_url raw = inr t → parse_url raw' = Some u' →
  urlMatchesTemplate parse_url raw' t = true ↔
  url_protocol u' = url_protocol u ∧
  with_port (toLowerCase (url_hostname u')) (url_port u') = with_port (toLowerCase (url_hostname u)) (url_port u) ∧
  ∃ ds ds', mapM safeDecodeSegment (path_segments u) = Some ds ∧
    mapM safeDecodeSegment (path_segments u') = Some ds' ∧ Forall2 (λ d d', covers d d' = true) ds ds'.
Proof. by apply template_exact_iff. Qed.

(** ** A parser that satisfies the assumptions

    Absolute https URLs without credentials, port, query, fragment or dot
    segments. *)

Fixpoint strip_prefix (p s : string) : option string :=
  match p, s with
  | "", _ => Some s
  | String c p', String d s' => if bool_decide (c = d) then strip_prefix p' s' else None
  | String _ _, "" => None
  end.

Definition https_url (raw : string) : option URL :=
  match strip_prefix "https://" raw with
  | Some rest =>
      match js_split "/" rest with
      | host :: segs => Some (mkURL "https:" host "" ("/" +:+ js_join "/" (escape_braces <$> segs)))
      | [] => None
      end
  | None => None
  end.

Lemma escape_braces_chars s :
  has_char "{" (escape_braces s) = false ∧ has_char "}" (escape_braces s) = false ∧
  has_char "/" (escape_braces s) = has_char "/" s ∧ truthy (escape_braces s) = truthy s.
Proof.
  induction s as [|c s (IH1&IH2&IH3&IH4)]; [done|]. clear IH4.
  destruct c as [[] [] [] [] [] [] [] []]; cbn; rewrite ?IH1, ?IH2, ?IH3; done.
Qed.

Lemma https_segments host segs :
  Forall (λ s, has_char "/" s = false) segs →
  path_segments (mkURL "https:" host "" ("/" +:+ js_join "/" (escape_braces <$> segs)))
  = escape_braces <$> js_filter truthy segs.
Proof.
  intros Hs. unfold path_segments. cbn [url_pathname].
  change ("/" +:+ js_join "/" (escape_braces <$> segs)) with (String "/" (js_join "/" (escape_braces <$> segs))).
  destruct segs as [|s segs]; [done|]. cbn [js_split]. rewrite bool_decide_true by done.
  rewrite js_split_join; [|done|].
  2:{ apply Forall_fmap. eapply Forall_impl; [exact Hs|]. intros x. cbn. by destruct (escape_braces_chars x) as (_&_&->&_). }
  generalize (s :: segs) as l. clear. induction l as [|x l IH]; [done|]. cbn in *.
  destruct (escape_braces_chars x) as (_&_&_&->). destruct (truthy x); cbn; by rewrite IH.
Qed.

Lemma https_url_inv raw u :
  https_url raw = Some u → ∃ host segs, has_char "/" host = false ∧ Forall (λ s, has_char "/" s = false) segs ∧
    u = mkURL "https:" host "" ("/" +:+ js_join "/" (escape_braces <$> segs)).
Proof.
  unfold https_url. destruct (strip_prefix _ _) as [rest|]; [|done].
  pose proof (js_split_pieces "/" rest) as Hp. destruct (js_split "/" rest) as [|host segs]; [done|].
  apply Forall_cons in Hp as [? ?]. intros [= <-]. eauto.
Qed.

Lemma https_url_ok : UrlParserOk https_url.
Proof.
  split.
  - intros raw u seg (host&segs&_&Hs&->)%https_url_inv _. rewrite https_segments by done.
    intros (x&->&_)%list_elem_of_fmap. destruct (escape_braces_chars x) as (?&?&_). done.
  - intros raw u segs (host&segs0&Hh&Hs0&->)%https_url_inv _ Hsegs. rewrite https_segments in Hsegs by done.
    assert (Hs : Forall (λ s, has_char "/" s = false ∧ truthy s = true) segs).
    { eapply Forall_impl; [exact Hsegs|]. intros s [(x&->&[Ht Hx]%list_elem_of_In%filter_In%and_comm)%list_elem_of_fmap|Hp].
      - destruct (escape_braces_chars x) as (_&_&->&->). split; [|done].
        rewrite Forall_forall in Hs0. apply Hs0. by apply list_elem_of_In.
      - unfold PLACEHOLDER_LITERALS in Hp. rewrite !elem_of_cons, elem_of_nil in Hp. by destruct Hp as [->|[->|[->|[]]]]. }
    exists (mkURL "https:" host "" ("/" +:+ js_join "/" (escape_braces <$> if decide (segs = []) then [""] else segs))).
    cbn [url_protocol url_hostname url_port]. split_and!; try done.
    + unfold https_url. change (strip_colon "https:") with "https". change (with_port host "") with (host +:+ "").
      rewrite append_nil_r. change ("https" +:+ "://" +:+ host +:+ "/" +:+ js_join "/" segs)
        with ("https://" +:+ host +:+ String "/" (js_join "/" segs)).
      change (strip_prefix "https://" ("https://" +:+ host +:+ String "/" (js_join "/" segs)))
        with (Some (host +:+ String "/" (js_join "/" segs))). cbv match.
      rewrite js_split_app by done. destruct (decide (segs = [])) as [->|Hne]; [done|].
      rewrite js_split_join; [done|done|]. eapply Forall_impl; [exact Hs|]. by intros x [? _].
    + rewrite https_segments.
      * destruct (decide (segs = [])) as [->|Hne]; [done|]. f_equal.
        clear Hsegs Hne. induction Hs as [|x l [_ Hx] _ IH]; [done|]. unfold js_filter in *. cbn. rewrite Hx. by rewrite IH.
      * destruct (decide (segs = [])); [by repeat constructor|]. eapply Forall_impl; [exact Hs|]. by intros x [? _].
Qed.

Definition demo_url : string := "https://api.example.com/users/42/files/report.pdf".
Definition demo_template : string := "https://api.example.com/users/{:num}/files/report.pdf".
Definition demo_parsed (n : string) : URL :=
  mkURL "https:" "api.example.com" "" ("/users/" +:+ n +:+ "/files/report.pdf").

(** Witness of C19: the template of a user's file covers another user's file. *)
Lemma template_exact_witness :
  urlMatchesTemplate https_url "https://api.example.com/users/7/files/report.pdf" demo_template = true ↔
  url_protocol (demo_parsed "7") = url_protocol (demo_parsed "42") ∧
  with_port (toLowerCase (url_hostname (demo_parsed "7"))) (url_port (demo_parsed "7"))
    = with_port (toLowerCase (url_hostname (demo_parsed "42"))) (url_port (demo_parsed "42")) ∧
  ∃ ds ds', mapM safeDecodeSegment (path_segments (demo_parsed "42")) = Some ds ∧
    mapM safeDecodeSegment (path_segments (demo_parsed "7")) = Some ds' ∧ Forall2 (λ d d', covers d d' = true) ds ds'.
Proof.
  apply (@template_exact https_url https_url_ok demo_url (demo_parsed "42") demo_template
           "https://api.example.com/users/7/files/report.pdf" (demo_parsed "7")).
  - vm_compute. reflexivity.
  - right. reflexivity.
  - vm_compute. reflexivity.
  - vm_compute. reflexivity.
Defined.

Example demo_template_matches :
  urlMatchesTemplate https_url "https://api.example.com/users/7/files/report.pdf" demo_template = true ∧
  urlMatchesTemplate https_url "https://api.example.com/users/me/files/report.pdf" demo_template = false ∧
  derivePathTemplate https_url "https://api.example.com/%7B:num%7D" = inl "Refusing to derive path template".
Proof. vm_compute. done. Qed.
