(* ===== verification/HttpPolicy.v ===== *)
(** * HTTP requests under grants

    src/credential-executor/src/http/policy.ts decides whether an HTTP request
    that needs a credential is covered by a grant, and otherwise proposes one;
    src/credential-executor/src/grants/rpc-handlers.ts records a guardian's
    decision on a proposal in the grant stores, and revokes grants.  Proposals
    are identified by the digest of their canonical JSON
    (src/packages/service-contracts/src/rendering.ts).

    The policy is a client of the two stores through an interface, the class
    [GrantStores] with the laws [GrantStoresOk]; the stores of TemporaryGrants.v and
    PersistentGrants.v are an instance.  The URL parser and SHA-256 are parameters. *)
From S2P Require Import Prelude Demo ScopeKeys JsText PathTemplate TemporaryGrants PersistentGrants.

(** ** Proposals *)

Record HttpGrantProposal := mkHttpProposal {
  hp_credentialHandle : string;
  hp_method : string;
  hp_url : string;
  hp_purpose : string;
  hp_allowedUrlPatterns : option (list string);
}.
Record CommandGrantProposal := mkCommandProposal {
  cp_credentialHandle : string;
  cp_command : string;
  cp_purpose : string;
  cp_allowedCommandPatterns : option (list string);
}.
Inductive GrantProposal := proposal_http (p : HttpGrantProposal) | proposal_command (p : CommandGrantProposal).

(** A field of the sorted object; the first has no comma before it. *)
Definition json_field (comma : bool) (key value : string) : string :=
  (if comma then "," else "") +:+ json_quote key +:+ ":" +:+ value.

(** An optional array comes first in both objects, or is left out. *)
Definition canonical_fields (patternsKey : string) (patterns : option (list string)) (l : list (string * string)) : string :=
  match patterns with
  | Some ps => json_field false patternsKey (json_array ps) +:+
               foldr (λ kv s, json_field true kv.1 (json_quote kv.2) +:+ s) "}" l
  | None => match l with
            | [] => "}"
            | kv :: l' => json_field false kv.1 (json_quote kv.2) +:+
                          foldr (λ kv s, json_field true kv.1 (json_quote kv.2) +:+ s) "}" l'
            end
  end.

(** [JSON.stringify(sortKeysDeep(proposal))]: the keys in order. *)
Definition canonicalJsonSerialize (p : GrantProposal) : string :=
  "{" +:+
  match p with
  | proposal_http p =>
      canonical_fields "allowedUrlPatterns" (hp_allowedUrlPatterns p)
        [("credentialHandle", hp_credentialHandle p); ("method", hp_method p); ("purpose", hp_purpose p);
         ("type", "http"); ("url", hp_url p)]
  | proposal_command p =>
      canonical_fields "allowedCommandPatterns" (cp_allowedCommandPatterns p)
        [("command", cp_command p); ("credentialHandle", cp_credentialHandle p); ("purpose", cp_purpose p);
         ("type", "command")]
  end.

(** ** Requests and answers *)

Record HttpPolicyRequest := mkRequest {
  rq_credentialHandle : string;
  rq_method : string;
  rq_url : string;
  rq_headers : option (list (string * string));
  rq_purpose : string;
  rq_grantId : option string;
  rq_conversationId : option string;
}.

Inductive GrantSource := source_persistent | source_temporary.

Inductive PolicyResult :=
  | policy_allowed (grantId : string) (grantSource : GrantSource)
  | policy_forbidden_headers (forbiddenHeaders : list string)
  | policy_approval_required (proposal : HttpGrantProposal).

Definition FORBIDDEN_CALLER_HEADERS : list string :=
  ["authorization"; "cookie"; "proxy-authorization"; "x-api-key"; "x-auth-token"].

Definition detectForbiddenHeaders (headers : option (list (string * string))) : list string :=
  match headers with
  | None => []
  | Some hs => js_filter (λ key, bool_decide (toLowerCase key ∈ FORBIDDEN_CALLER_HEADERS)) hs.*1
  end.

(** ** The interface of the grant stores *)

Class GrantStores (W E : Type) := {
  gs_getById : string → M W E (option PersistentGrant);
  gs_getAll : M W E (list PersistentGrant);
  gs_checkAny : string → option string → M W E (option TemporaryGrantKind);
  gs_bad_url : string → E;     (* the exception of [derivePathTemplate] *)
}.

(** What the stores promise: what they return is granted, reading changes
    nothing, and a single-use approval is used up. *)
Class GrantStoresOk {W E : Type} (stores : GrantStores W E) := {
  granted : W → PersistentGrant → Prop;
  approved : W → string → option string → TemporaryGrantKind → Prop;
  unchanged : W → W → Prop;
  well_formed : W → Prop;
  unchanged_preorder : PreOrder unchanged;
  well_formed_unchanged w w' : unchanged w w' → well_formed w → well_formed w';
  granted_unchanged w w' g : unchanged w w' → granted w' g → granted w g;
  approved_unchanged w w' h conv k : unchanged w w' → approved w' h conv k → approved w h conv k;
  getById_ok id w r w' : gs_getById id w = (inr r, w') → unchanged w w' ∧ ∀ g, r = Some g → granted w g;
  getAll_ok w l w' : gs_getAll w = (inr l, w') → unchanged w w' ∧ ∀ g, g ∈ l → granted w g;
  checkAny_ok h conv w k w' :
    well_formed w → gs_checkAny h conv w = (inr (Some k), w') →
    approved w h conv k ∧ (k = allow_once → ¬ approved w' h conv allow_once);
}.
#[global] Existing Instance unchanged_preorder.

(** [indexOf(" ")]: what is before the first space and after it. *)
Fixpoint split_space (s : string) : option (string * string) :=
  match s with
  | "" => None
  | String c s' =>
      if bool_decide (c = " "%char) then Some ("", s')
      else '(a, b) ← split_space s'; Some (String c a, b)
  end.

Section policy.
Context (parse_url : string → option URL) (sha256 : string → string).

Definition hashProposal (p : GrantProposal) : string := sha256 (canonicalJsonSerialize p).

Definition grantCoversRequest (grant : PersistentGrant) (credentialHandle method rawUrl : string) : bool :=
  if negb (eqs (pg_scope grant) credentialHandle) then false
  else match split_space (pg_pattern grant) with
  | None => urlMatchesTemplate parse_url rawUrl (pg_pattern grant)
  | Some (grantMethod, grantUrlPattern) =>
      if negb (eqs (toUpperCase grantMethod) (toUpperCase method)) then false
      else urlMatchesTemplate parse_url rawUrl grantUrlPattern
  end.

Definition buildProposal (request : HttpPolicyRequest) : string + HttpGrantProposal :=
  match deriveAllowedUrlPatterns parse_url (rq_url request) with
  | inl e => inl e
  | inr patterns =>
      inr (mkHttpProposal (rq_credentialHandle request) (toUpperCase (rq_method request)) (rq_url request)
             (rq_purpose request) (Some patterns))
  end.

(** A grant for HTTP that covers the request. *)
Definition http_grant (request : HttpPolicyRequest) (grant : PersistentGrant) : bool :=
  eqs (pg_tool grant) "http" &&
  grantCoversRequest grant (rq_credentialHandle request) (rq_method request) (rq_url request).

Definition temp_grant_id (kind : TemporaryGrantKind) (proposalHash : string) : string :=
  "temp:" +:+ kind_string kind +:+ ":" +:+ proposalHash.

Section evaluate.
Context {W E : Type} `{GrantStores W E}.

(** Steps 3 to 5. *)
Definition evaluate_patterns (request : HttpPolicyRequest) : M W E PolicyResult :=
  match derivePathTemplate parse_url (rq_url request) with
  | inl e => throw (gs_bad_url e)
  | inr _ =>
      allGrants ← gs_getAll;
      match js_find (http_grant request) allGrants with
      | Some grant => mret (policy_allowed (pg_id grant) source_persistent)
      | None =>
          match buildProposal request with
          | inl e => throw (gs_bad_url e)
          | inr proposal =>
              let proposalHash := hashProposal (proposal_http proposal) in
              tempKind ← gs_checkAny proposalHash (rq_conversationId request);
              match tempKind with
              | Some kind => mret (policy_allowed (temp_grant_id kind proposalHash) source_temporary)
              | None => mret (policy_approval_required proposal)
              end
          end
      end
  end.

Definition evaluateHttpPolicy (request : HttpPolicyRequest) : M W E PolicyResult :=
  let forbidden := detectForbiddenHeaders (rq_headers request) in
  match forbidden with
  | _ :: _ => mret (policy_forbidden_headers forbidden)
  | [] =>
      explicit ← (if truthy_opt (rq_grantId request)
                  then gs_getById (default "" (rq_grantId request)) else mret None);
      match explicit with
      | Some grant =>
          if http_grant request grant then mret (policy_allowed (pg_id grant) source_persistent)
          else evaluate_patterns request
      | None => evaluate_patterns request
      end
  end.
End evaluate.

(** ** Recording and revoking decisions *)

Inductive GrantType := grant_once | grant_10m | grant_conversation | always_allow.

Record TemporaryGrantDecision := mkDecision {
  dc_proposal : GrantProposal;
  dc_proposalHash : string;
  dc_approved : bool;
  dc_decidedBy : string;
  dc_ttl : option string;
  dc_grantType : option GrantType;
}.
End policy.

Inductive GrantStatus := status_active | status_revoked.
#[global] Instance GrantStatus_eq_dec : EqDecision GrantStatus.
Proof. solve_decision. Defined.

(** What clients see of a grant. *)
Record PersistentGrantRecord := mkGrantRecord {
  gr_grantId : string;
  gr_sessionId : option string;
  gr_credentialHandle : string;
  gr_proposalType : string;
  gr_proposalHash : string;
  gr_allowedPurposes : list string;
  gr_status : GrantStatus;
  gr_grantedBy : string;
  gr_createdAt : Z;
  gr_expiresAt : option Z;
  gr_consumedAt : option Z;
  gr_revokedAt : option Z;
}.

Definition projectGrant (g : PersistentGrant) : PersistentGrantRecord :=
  mkGrantRecord (pg_id g) (pg_sessionId g) (pg_scope g)
    (if eqs (pg_tool g) "http" || eqs (pg_tool g) "command" then pg_tool g else "command")
    (pg_id g) [pg_pattern g]
    (if is_null (pg_revokedAt g) then status_active else status_revoked) "user" (pg_createdAt g) None None (pg_revokedAt g).

(** Both stores in one world; each keeps its own exceptions. *)
Abbreviation Stores := (PersistentGrantStore * TemporaryGrantStore)%type.
Inductive GrantStoreError := persistent_error (e : GrantError) | temporary_error (e : string) | url_error (e : string).

Section stores.
Context {env : Env}.

Definition on_persistent {A} (m : PersistentGrants.P A) : M (World Stores) GrantStoreError A := λ w,
  let '(r, w') := m (mkWorld (w_clock w) (w_uuid w) (w_st w).1) in
  (match r with inl e => inl (persistent_error e) | inr a => inr a end,
   mkWorld (w_clock w') (w_uuid w') (w_st w', (w_st w).2)).

Definition on_temporary {A} (m : TemporaryGrants.T A) : M (World Stores) GrantStoreError A := λ w,
  let '(r, w') := m (mkWorld (w_clock w) (w_uuid w) (w_st w).2) in
  (match r with inl e => inl (temporary_error e) | inr a => inr a end,
   mkWorld (w_clock w') (w_uuid w') ((w_st w).1, w_st w')).

#[global] Instance stores_instance : GrantStores (World Stores) GrantStoreError := {|
  gs_getById id := on_persistent (PersistentGrants.getById id);
  gs_getAll := on_persistent PersistentGrants.getAll;
  gs_checkAny h conv := on_temporary (TemporaryGrants.checkAny h conv);
  gs_bad_url := url_error;
|}.

(** The pattern of a persistent grant. *)
Definition grant_pattern (p : GrantProposal) : string :=
  match p with
  | proposal_http p => hp_method p +:+ " " +:+ default (hp_url p) (hp_allowedUrlPatterns p ≫= head)
  | proposal_command p => default (cp_command p) (cp_allowedCommandPatterns p ≫= head)
  end.

Definition proposal_type (p : GrantProposal) : string :=
  match p with proposal_http _ => "http" | proposal_command _ => "command" end.
Definition proposal_handle (p : GrantProposal) : string :=
  match p with proposal_http p => hp_credentialHandle p | proposal_command p => cp_credentialHandle p end.

(** What the response says the grant is for. *)
Definition proposal_purposes (p : GrantProposal) : list string :=
  match p with
  | proposal_http p => default [hp_method p +:+ " " +:+ hp_url p] (hp_allowedUrlPatterns p)
  | proposal_command p => default [cp_command p] (cp_allowedCommandPatterns p)
  end.

(** [record_grant]: the record of the grant, if the decision was an approval. *)
Definition recordGrant (decision : TemporaryGrantDecision) (sessionId : string) (conversationId : option string)
    : M (World Stores) GrantStoreError (option PersistentGrantRecord) :=
  if negb (dc_approved decision) then mret None
  else
    t ← now;
    let proposal := dc_proposal decision in
    let grantId := dc_proposalHash decision in
    let grantType := default always_allow (dc_grantType decision) in
    (match grantType with
     | always_allow =>
         on_persistent (PersistentGrants.add
           (mkPersistentGrant grantId (proposal_type proposal) (grant_pattern proposal) (proposal_handle proposal)
              t (Some sessionId) None None));;
         mret tt
     | _ => mret tt
     end);;
    (match grantType with
     | grant_10m => on_temporary (TemporaryGrants.add allow_10m grantId None None)
     | grant_conversation =>
         on_temporary (TemporaryGrants.add allow_conversation grantId (Some (default sessionId conversationId)) None)
     | grant_once | always_allow => on_temporary (TemporaryGrants.add allow_once grantId None None)
     end);;
    mret (Some (mkGrantRecord grantId (Some sessionId) (proposal_handle proposal) (proposal_type proposal) grantId
                  (proposal_purposes proposal) status_active (dc_decidedBy decision) t
                  (if eqos (dc_ttl decision) (Some "PT10M") then Some (t + 10 * 60 * 1000) else None) None None)).

(** [list_grants] *)
Definition listGrants (sessionId credentialHandle : option string) (status : option GrantStatus)
    : M (World Stores) GrantStoreError (list PersistentGrantRecord) :=
  allGrants ← on_persistent PersistentGrants.getAllIncludingRevoked;
  mret (js_filter (λ g,
    (negb (truthy_opt sessionId) || eqos (gr_sessionId g) sessionId)
    && (negb (truthy_opt credentialHandle) || eqos (Some (gr_credentialHandle g)) credentialHandle)
    && match status with Some st => bool_decide (gr_status g = st) | None => true end)
    (projectGrant <$> allGrants)).

(** [revoke_grant]: whether it succeeded. *)
Definition revokeGrant (grantId : string) (reason : option string) : M (World Stores) GrantStoreError bool :=
  on_persistent (PersistentGrants.markRevoked grantId reason).
End stores.

(** ** The canonical form determines the proposal *)

Lemma json_items_app_inj l1 l2 r1 r2 :
  json_items l1 +:+ r1 = json_items l2 +:+ r2 → l1 = l2 ∧ r1 = r2.
Proof.
  revert l2. induction l1 as [|a l1 IH]; intros [|b l2]; cbn [json_items]; rewrite ?string_app_assoc;
    intros Heq; try discriminate Heq; [by injection Heq|].
  apply json_tail_inj, json_quote_inj in Heq as [-> Heq]. apply IH in Heq as [-> ->]. done.
Qed.

Lemma json_array_app_inj l1 l2 r1 r2 :
  json_array l1 +:+ r1 = json_array l2 +:+ r2 → l1 = l2 ∧ r1 = r2.
Proof.
  unfold json_array. destruct l1 as [|a l1], l2 as [|b l2]; rewrite ?string_app_assoc; intros Heq;
    try discriminate Heq; [by injection Heq|].
  apply json_tail_inj, json_quote_inj in Heq as [-> Heq]. apply json_items_app_inj in Heq as [-> ->]. done.
Qed.

(** The keys of an object are read back before their values. *)
Lemma json_field_inj c k1 k2 v1 v2 r1 r2 :
  json_field c k1 v1 +:+ r1 = json_field c k2 v2 +:+ r2 → k1 = k2 ∧ v1 +:+ r1 = v2 +:+ r2.
Proof.
  unfold json_field. rewrite !string_app_assoc. intros Heq.
  assert (Heq' : json_quote k1 +:+ ":" +:+ v1 +:+ r1 = json_quote k2 +:+ ":" +:+ v2 +:+ r2).
  { destruct c; [by apply json_tail_inj in Heq|exact Heq]. }
  apply json_quote_inj in Heq' as [-> Heq']. split; [done|]. by apply json_tail_inj in Heq'.
Qed.

Lemma canonical_inj p q : canonicalJsonSerialize p = canonicalJsonSerialize q → p = q.
Proof.
  unfold canonicalJsonSerialize. intros Heq%json_tail_inj. revert Heq.
  destruct p as [[ph pm pu pp [pa|]]|[ph pc pp [pa|]]], q as [[qh qm qu qp [qa|]]|[qh qc qp [qa|]]];
    cbn -[json_field json_array json_quote String.append]; intros Heq;
    apply json_field_inj in Heq as [Hk Heq]; try discriminate Hk; clear Hk;
    first [apply json_array_app_inj in Heq as [-> Heq] | apply json_quote_inj in Heq as [-> Heq]];
    repeat (apply json_field_inj in Heq as [Hk Heq]; try discriminate Hk; clear Hk;
            apply json_quote_inj in Heq as [? Heq]);
    subst; done.
Qed.

(** A digest without collisions determines the proposal. *)
Lemma hashProposal_inj sha256 p q :
  (∀ a b, sha256 a = sha256 b → a = b) → hashProposal sha256 p = hashProposal sha256 q → p = q.
Proof. intros Hsha Heq. by apply canonical_inj, Hsha. Qed.

(** ** Soundness, against the interface *)

Section sound.
Context (parse_url : string → option URL) (sha256 : string → string).
Context {W E : Type} {stores : GrantStores W E} {Hstores : GrantStoresOk stores}.

(** What justifies an answer "allowed". *)
Definition justified (request : HttpPolicyRequest) (w w' : W) (grantId : string) (source : GrantSource) : Prop :=
  match source with
  | source_persistent =>
      ∃ g, granted w g ∧ pg_id g = grantId ∧ pg_tool g = "http" ∧ pg_scope g = rq_credentialHandle request ∧
        grantCoversRequest parse_url g (rq_credentialHandle request) (rq_method request) (rq_url request) = true ∧
        unchanged w w'
  | source_temporary =>
      ∃ p k, buildProposal parse_url request = inr p ∧
        let h := hashProposal sha256 (proposal_http p) in
        grantId = temp_grant_id k h ∧ approved w h (rq_conversationId request) k ∧
        (k = allow_once → ¬ approved w' h (rq_conversationId request) allow_once)
  end.

Lemma http_grant_justifies request w w' g :
  granted w g → http_grant parse_url request g = true → unchanged w w' →
  justified request w w' (pg_id g) source_persistent.
Proof.
  intros Hg [Ht Hc]%andb_true_iff Hw. exists g. unfold eqs in Ht. apply bool_decide_eq_true in Ht.
  split_and!; try done. revert Hc. unfold grantCoversRequest, eqs.
  destruct (bool_decide _) eqn:Hs; [|done]. by apply bool_decide_eq_true in Hs.
Qed.

Lemma evaluate_patterns_sound request w gid src w' :
  well_formed w → evaluate_patterns parse_url sha256 request w = (inr (policy_allowed gid src), w') →
  justified request w w' gid src.
Proof.
  intros Hwf. unfold evaluate_patterns. destruct (derivePathTemplate _ _) as [e|t]; [done|]. mrun.
  destruct (gs_getAll w) as [[e|l] w1] eqn:Hall; [done|]. apply getAll_ok in Hall as [Hw1 Hl].
  destruct (js_find _ l) as [g|] eqn:Hf.
  { intros [= <- <- <-]. apply js_find_elem in Hf as [? ?]. by apply http_grant_justifies; [apply Hl| |]. }
  destruct (buildProposal _ request) as [e|p] eqn:Hp; [done|].
  destruct (gs_checkAny _ _ w1) as [[e|[k|]] w2] eqn:Hc; [done| |done]. intros [= <- <- <-].
  apply checkAny_ok in Hc as [Ha Ho]; [|by eapply well_formed_unchanged]. exists p, k. split; [done|]. cbn zeta.
  split_and!; try done. by eapply approved_unchanged.
Qed.

Lemma justified_unchanged request w w1 w' gid src :
  unchanged w w1 → justified request w1 w' gid src → justified request w w' gid src.
Proof.
  intros Hw. destruct src.
  - intros (g'&?&?&?&?&?&?). exists g'. split_and!; try done; [by eapply granted_unchanged|by etrans].
  - intros (p&k&?&?&?&?). exists p, k. split; [done|]. cbn zeta. split_and!; try done. by eapply approved_unchanged.
Qed.

Lemma evaluate_sound request w gid src w' :
  well_formed w → evaluateHttpPolicy parse_url sha256 request w = (inr (policy_allowed gid src), w') →
  detectForbiddenHeaders (rq_headers request) = [] ∧ justified request w w' gid src.
Proof.
  intros Hwf. unfold evaluateHttpPolicy. destruct (detectForbiddenHeaders _) as [|x l]; [|done]. intros Hev. split; [done|].
  revert Hev. destruct (truthy_opt _); [|mrun; by apply evaluate_patterns_sound]. mrun.
  destruct (gs_getById _ w) as [[e|[g|]] w1] eqn:Hid; [done| |]; apply getById_ok in Hid as [Hw1 Hg].
  - destruct (http_grant parse_url request g) eqn:Hhg.
    { intros [= <- <- <-]. apply http_grant_justifies; auto. }
    intros Hp. eapply justified_unchanged, evaluate_patterns_sound, Hp; [done|by eapply well_formed_unchanged].
  - intros Hp. eapply justified_unchanged, evaluate_patterns_sound, Hp; [done|by eapply well_formed_unchanged].
Qed.
End sound.

(** ** The stores of the executor keep the promises *)

Section concrete.
Context {env : Env}.

(** Not expired at some reading of the clock from the [n]-th on. *)
Definition unexpired (n : nat) (g : TemporaryGrant) : Prop :=
  tg_kind g = allow_conversation ∨
  match tg_expiresAt g with None => True | Some e => ∃ m, (n ≤ m)%nat ∧ date_now m < e end.

Definition temporary_approval (n : nat) (st : TemporaryGrantStore) (h : string) (conv : option string)
    (k : TemporaryGrantKind) : Prop :=
  ∃ key g, storageKey k h conv = inr key ∧ jget key st = Some g ∧ unexpired n g.

Definition in_file (st : PersistentGrantStore) (g : PersistentGrant) : Prop :=
  active g = true ∧ ∃ l, ps_file st = Some (GrantsJson GRANTS_FILE_VERSION (Some l)) ∧ g ∈ l.

Lemma getAll_inr (w w' : World PersistentGrantStore) l :
  PersistentGrants.getAll w = (inr l, w') → w' = w ∧ ∀ g, g ∈ l → in_file (w_st w) g.
Proof.
  unfold getAll, getAllIncludingRevoked, assertNotCorrupt. mrun. destruct (ps_corrupt (w_st w)); [done|]. mrun.
  destruct (ps_file (w_st w)) as [f|] eqn:Hf; [|intros [= <- <-]; split; [done|set_solver]].
  unfold loadFromDisk, corruption. mrun. rewrite Hf.
  destruct f as [| |v [gs|]]; mrun; try (destruct (ps_corrupt (w_st w)); mrun; done); try done.
  - destruct (negb (v =? GRANTS_FILE_VERSION)) eqn:Hv; mrun; [done|]. intros [= <- <-]. split; [done|].
    apply negb_false_iff, Z.eqb_eq in Hv as ->. intros g Hg. apply list_elem_of_In, filter_In in Hg as [Hg Ha].
    split; [done|]. exists gs. split; [done|by apply list_elem_of_In].
  - destruct (negb (v =? GRANTS_FILE_VERSION)); mrun; done.
Qed.

Lemma getById_inr id (w w' : World PersistentGrantStore) r :
  PersistentGrants.getById id w = (inr r, w') → w' = w ∧ ∀ g, r = Some g → in_file (w_st w) g.
Proof.
  unfold getById. mrun. destruct (getAll w) as [[e|l] w1] eqn:Hall; [done|]. intros [= <- <-].
  apply getAll_inr in Hall as [-> Hl]. split; [done|]. intros g [? _]%js_find_elem. by apply Hl.
Qed.

Lemma check_true kind h conv (w w' : World TemporaryGrantStore) :
  TemporaryGrants.check kind h conv w = (inr true, w') → temporary_approval (w_clock w) (w_st w) h conv kind.
Proof.
  unfold check, key_of. destruct (storageKey kind h conv) as [e|key] eqn:Hk; [done|]. mrun.
  destruct (jget key (w_st w)) as [g|] eqn:Hg; [|done]. intros Hrun. exists key, g. split_and!; try done. revert Hrun.
  unfold unexpired, expired. destruct (tg_kind g); [| |by left]; destruct (tg_expiresAt g) as [e|]; mrun; auto.
  - destruct (e <=? date_now (w_clock w)) eqn:He; [done|]. apply Z.leb_gt in He. intros _. right. eauto.
  - destruct (e <=? date_now (w_clock w)) eqn:He; mrun; [done|]. apply Z.leb_gt in He. intros _. right. eauto.
Qed.

(** A check leaves every other approval as it was, or ends it. *)
Lemma check_approvals kind h conv h' conv' k (w : World TemporaryGrantStore) :
  let w' := (TemporaryGrants.check kind h conv w).2 in
  (w_clock w ≤ w_clock w')%nat ∧
  (temporary_approval (w_clock w') (w_st w') h' conv' k → temporary_approval (w_clock w) (w_st w) h' conv' k).
Proof.
  cbn zeta. assert (Hclock : (w_clock w ≤ w_clock (check kind h conv w).2)%nat).
  { unfold check, key_of, expired. destruct (storageKey kind h conv); mrun; [lia|].
    destruct (jget _ _) as [g|]; [|cbn; lia]. destruct (tg_kind g); [..|cbn; lia]; destruct (tg_expiresAt g); mrun;
      try case_match; mrun; lia. }
  split; [done|]. intros (key&g&Hk&Hg&Hu). exists key, g. split; [done|].
  destruct (check_kept key kind h conv w) as [Heq|Heq]; rewrite Heq in Hg; [|done]. split; [done|].
  destruct Hu as [Hu|Hu]; [by left|right]. destruct (tg_expiresAt g); [|done].
  destruct Hu as (m&?&?). exists m. split; [lia|done].
Qed.

Lemma approval_conv n st h conv k :
  k ≠ allow_conversation → temporary_approval n st h None k → temporary_approval n st h conv k.
Proof. intros Hk (key&g&Hkey&?). exists key, g. by destruct k. Qed.

#[local] Arguments TemporaryGrants.check : simpl never.

Lemma checkAny_some h conv (w w' : World TemporaryGrantStore) k :
  once_kind h (w_st w) → TemporaryGrants.checkAny h conv w = (inr (Some k), w') →
  temporary_approval (w_clock w) (w_st w) h conv k ∧
  (k = allow_once → ¬ temporary_approval (w_clock w') (w_st w') h conv allow_once).
Proof.
  intros Hok. unfold checkAny. mrun.
  pose proof (once_check_consumes h None w Hok) as Hgone.
  destruct (check_approvals allow_once h None h conv k w) as [Hc1 Ha1].
  destruct (check allow_once h None w) as [[e|[]] w1] eqn:H1; [done| |].
  { intros [= <- <-]. split; [by eapply approval_conv, check_true|].
    intros _ (key&g&[= <-]&Hg&_). cbn in Hgone. unfold once_key in Hgone.
    change ("allow_once" +:+ ":" +:+ h) with ("allow_once:" +:+ h) in Hg. congruence. }
  cbn in Hc1, Ha1. destruct (check_approvals allow_10m h None h conv k w1) as [Hc2 Ha2].
  destruct (check allow_10m h None w1) as [[e|[]] w2] eqn:H2; [done| |].
  { intros [= <- <-]. split; [|done]. apply Ha1. by eapply approval_conv, check_true. }
  cbn in Hc2, Ha2. destruct (truthy_opt conv); [|done]. mrun.
  destruct (check allow_conversation h conv w2) as [[e|[]] w3] eqn:H3; [done| |done].
  intros [= <- <-]. split; [|done]. apply Ha1, Ha2. by eapply check_true.
Qed.

(** The state is the same; the clock may have been read. *)
Definition same_stores (w w' : World Stores) : Prop := w_st w' = w_st w ∧ (w_clock w ≤ w_clock w')%nat.

#[export] Program Instance stores_ok : GrantStoresOk stores_instance := {|
  granted w g := in_file (w_st w).1 g;
  approved w h conv k := temporary_approval (w_clock w) (w_st w).2 h conv k;
  unchanged := same_stores;
  well_formed w := ∀ h, once_kind h (w_st w).2;
|}.
Next Obligation. split; [by intros w|]. intros x y z [H1 ?] [H2 ?]. split; [congruence|lia]. Qed.
Next Obligation. intros w w' [-> _]. done. Qed.
Next Obligation. intros w w' g [-> _]. done. Qed.
Next Obligation.
  intros w w' h conv k [-> Hc] (key&g&?&?&Hu). exists key, g. split_and!; try done.
  destruct Hu as [?|Hu]; [by left|right]. destruct (tg_expiresAt g); [|done].
  destruct Hu as (m&?&?). exists m. split; [lia|done].
Qed.
Next Obligation.
  intros id w r w'. cbn. unfold on_persistent. destruct (getById id _) as [[e|a] w1] eqn:H; [done|].
  intros [= <- <-]. apply getById_inr in H as [-> H]. split; [|done]. by destruct w as [? ? []].
Qed.
Next Obligation.
  intros w l w'. cbn. unfold on_persistent. destruct (getAll _) as [[e|a] w1] eqn:H; [done|].
  intros [= <- <-]. apply getAll_inr in H as [-> H]. split; [|done]. by destruct w as [? ? []].
Qed.
Next Obligation.
  intros h conv w k w' Hwf. cbn. unfold on_temporary. destruct (checkAny h conv _) as [[e|a] w1] eqn:H; [done|].
  intros [= -> <-]. by apply checkAny_some in H.
Qed.
End concrete.

(** ** The calls of the executor's clients *)

Inductive ExecutorCall :=
  | EvaluateCall (request : HttpPolicyRequest)
  | RecordCall (decision : TemporaryGrantDecision) (sessionId : string) (conversationId : option string)
  | RevokeCall (grantId : string) (reason : option string)
  | ListCall (sessionId credentialHandle : option string) (status : option GrantStatus).

Inductive ExecutorAnswer :=
  | answer_policy (r : PolicyResult)
  | answer_recorded (grant : option PersistentGrantRecord)
  | answer_revoked (success : bool)
  | answer_grants (grants : list PersistentGrantRecord).

Section calls.
Context {env : Env} (parse_url : string → option URL) (sha256 : string → string).

Definition run_executor (c : ExecutorCall) : M (World Stores) GrantStoreError ExecutorAnswer :=
  match c with
  | EvaluateCall request => r ← evaluateHttpPolicy parse_url sha256 request; mret (answer_policy r)
  | RecordCall decision sessionId conversationId => 
      g ← recordGrant decision sessionId conversationId; mret (answer_recorded g)
  | RevokeCall grantId reason => b ← revokeGrant grantId reason; mret (answer_revoked b)
  | ListCall sid handle status => l ← listGrants sid handle status; mret (answer_grants l)
  end.

(** Single-use entries stay single-use. *)
Definition stays_wf (w w' : World Stores) : Prop :=
  (∀ h, once_kind h (w_st w).2) → ∀ h, once_kind h (w_st w').2.

#[export] Instance stays_wf_preorder : PreOrder stays_wf.
Proof. split; [by intros w H|]. intros x y z H1 H2 H. apply H2, H1, H. Qed.

Lemma persistent_wf {A} (m : PersistentGrants.P A) : respects stays_wf (on_persistent m).
Proof. intros w Hwf. unfold on_persistent. destruct (m _). exact Hwf. Qed.

Lemma bind_ret_state {A B} (m : TemporaryGrants.T A) (f : A → B) w :
  ((m ≫= λ a, mret (f a) : TemporaryGrants.T B) w).2 = (m w).2.
Proof. unfold mbind, M_bind. by destruct (m w) as [[e|a] w']. Qed.

Lemma temporary_wf {A} (m : TemporaryGrants.T A) c :
  (∀ w, (run_call c w).2 = (m w).2) → respects stays_wf (on_temporary m).
Proof.
  intros Hm w Hwf h. unfold on_temporary. specialize (Hm (mkWorld (w_clock w) (w_uuid w) (w_st w).2)).
  pose proof (call_once_kind h c (mkWorld (w_clock w) (w_uuid w) (w_st w).2) (Hwf h)) as H. rewrite Hm in H.
  by destruct (m _).
Qed.

Lemma add_wf kind h conv d : respects stays_wf (on_temporary (TemporaryGrants.add kind h conv d)).
Proof. apply (temporary_wf _ (CAdd kind h conv d)). intros w. apply (bind_ret_state _ (λ _, AUnit)). Qed.

Lemma checkAny_wf h conv : respects stays_wf (on_temporary (TemporaryGrants.checkAny h conv)).
Proof. apply (temporary_wf _ (CCheckAny h conv)). intros w. apply (bind_ret_state _ AKind). Qed.

Ltac solve_wf :=
  repeat match goal with
  | |- respects _ (mret _) => apply respects_ret, _
  | |- respects _ (throw _) => apply respects_throw, _
  | |- respects _ (mbind _ _) => apply respects_bind; [apply _| |intros ?]
  | |- respects _ (on_persistent _) => apply persistent_wf
  | |- respects _ (on_temporary (TemporaryGrants.add _ _ _ _)) => apply add_wf
  | |- respects _ (on_temporary (checkAny _ _)) => apply checkAny_wf
  | |- respects _ now => intros w Hwf; exact Hwf
  | |- respects _ (if ?b then _ else _) => destruct b
  | |- respects _ (match ?x with _ => _ end) => destruct x
  end.

Lemma run_executor_wf c : respects stays_wf (run_executor c).
Proof.
  destruct c; cbn [run_executor]; unfold evaluateHttpPolicy, evaluate_patterns, recordGrant, revokeGrant, listGrants;
    cbn [gs_getAll gs_getById gs_checkAny stores_instance]; cbv zeta; solve_wf.
Qed.

Lemma calls_wf cs w : stays_wf w (run_calls run_executor cs w).2.
Proof.
  revert w. induction cs as [|c cs IH]; intros w; [by intros H|]. cbn [run_calls].
  pose proof (run_executor_wf c w) as H1. destruct (run_executor c w) as [a w1]. specialize (IH w1).
  destruct (run_calls run_executor cs w1). cbn in *. by etrans.
Qed.
End calls.

(** ** An approved request goes through *)

Section approval.
Context {env : Env} (parse_url : string → option URL) (sha256 : string → string).

#[local] Arguments TemporaryGrants.checkAny : simpl never.
#[local] Arguments PersistentGrants.getAll : simpl never.
#[local] Arguments PersistentGrants.getById : simpl never.














End approval.

Section record.
Context {env : Env}.




End record.

(** * Claims *)

(** C17. No request is let through without a grant.  In every state that calls of
    the executor's clients lead to, a request that is allowed carries none of the
    forbidden headers, and either an unrevoked HTTP grant in the file covers it, for
    its credential, its method and its URL, and the stores are as before; or there
    is an unexpired temporary approval of exactly the proposal built from it, for
    its conversation where it is a conversation's, and a single-use approval
    is gone afterwards. *)
Theorem http_policy_sound {env : Env} parse_url sha256 n u st cs request gid src w' :
  let w := (run_calls (run_executor parse_url sha256) cs (mkWorld n u (st, []))).2 in
  evaluateHttpPolicy parse_url sha256 request w = (inr (policy_allowed gid src), w') →
  detectForbiddenHeaders (rq_headers request) = [] ∧ justified parse_url sha256 request w w' gid src.
Proof.
  intros w. apply evaluate_sound. change (∀ h, once_kind h (w_st w).2).
  by apply (calls_wf parse_url sha256 cs (mkWorld n u (st, []))).
Qed.


Definition demo_request : HttpPolicyRequest :=
  mkRequest "github" "get" demo_url (Some [("accept", "application/json")]) "read a report" None None.
Definition demo_stores : Stores := (mkStore (Some (GrantsJson GRANTS_FILE_VERSION (Some []))) false, []).
Definition demo_proposal : HttpGrantProposal := mkHttpProposal "github" "GET" demo_url "read a report" (Some [demo_template]).
Definition demo_hash : string := hashProposal (λ s, s) (proposal_http demo_proposal).
Definition demo_world (cs : list ExecutorCall) : World Stores :=
  (run_calls (run_executor https_url (λ s, s)) cs (mkWorld 0 0 demo_stores)).2.
Definition demo_approve (gt : GrantType) : ExecutorCall :=
  RecordCall (mkDecision (proposal_http demo_proposal) demo_hash true "guardian" None (Some gt)) "session" None.

Definition demo_record (t : Z) : PersistentGrantRecord :=
  mkGrantRecord demo_hash (Some "session") "github" "http" demo_hash [demo_template] status_active "guardian" t None None None.

(** Witness of C17: a request covered by a permanent grant. *)
Lemma http_policy_sound_witness :
  detectForbiddenHeaders (rq_headers demo_request) = [] ∧
  justified https_url (λ s, s) demo_request (demo_world [demo_approve always_allow]) (demo_world [demo_approve always_allow])
    demo_hash source_persistent.
Proof.
  apply (http_policy_sound https_url (λ s, s) 0 0 demo_stores.1 [demo_approve always_allow] demo_request demo_hash
           source_persistent (demo_world [demo_approve always_allow])).
  vm_compute. reflexivity.
Defined.



(** Revoking a permanent grant does not stop the next request.  Approving a
    request for good also records a single-use approval for the immediate retry;
    the retry is served by the permanent grant, so the single-use approval stays,
    and after the grant is revoked it lets the same request through once more. *)
Theorem revocation_leaves_approval :
  (run_calls (run_executor https_url (λ s, s))
     [EvaluateCall demo_request; demo_approve always_allow; EvaluateCall demo_request;
      RevokeCall demo_hash None; EvaluateCall demo_request; EvaluateCall demo_request]
     (mkWorld 0 0 demo_stores)).1 =
  [inr (answer_policy (policy_approval_required demo_proposal)); inr (answer_recorded (Some (demo_record 0)));
   inr (answer_policy (policy_allowed demo_hash source_persistent)); inr (answer_revoked true);
   inr (answer_policy (policy_allowed (temp_grant_id allow_once demo_hash) source_temporary));
   inr (answer_policy (policy_approval_required demo_proposal))].
Proof. vm_compute. reflexivity. Qed.
