(* ===== verification/Dedup.v ===== *)
(** * Deduplication of webhook deliveries

    [DedupCache] and [StringDedupCache] of src/gateway/src/dedup-cache.ts: the
    gateway reserves a delivery before it handles it, so that a retry of the
    same delivery is recognised while the first is handled and afterwards.

    The periodic sweep is [evictExpired], a call that may come at any time. *)
From S2P Require Import Prelude Demo.

Inductive ReserveResult := reserved | duplicate | already_processed.
#[global] Instance ReserveResult_eq_dec : EqDecision ReserveResult.
Proof. solve_decision. Defined.

Record CacheEntry := mkEntry { ce_body : string; ce_status : Z; ce_expiresAt : Z; ce_processing : bool }.

(** [highWaterMark] starts at -Infinity ([None]). *)
Record DedupCache := mkDedup {
  dc_cache : jsmap Z CacheEntry;
  dc_highWaterMark : option Z;
  dc_ttlMs : Z;
  dc_maxSize : Z;
}.

Definition set_cache (f : jsmap Z CacheEntry → jsmap Z CacheEntry) (s : DedupCache) : DedupCache :=
  mkDedup (f (dc_cache s)) (dc_highWaterMark s) (dc_ttlMs s) (dc_maxSize s).

(** [updateId > this.highWaterMark] *)
Definition above (updateId : Z) (mark : option Z) : bool :=
  match mark with None => true | Some h => h <? updateId end.

Definition raise_mark (updateId : Z) (s : DedupCache) : DedupCache :=
  mkDedup (dc_cache s) (if above updateId (dc_highWaterMark s) then Some updateId else dc_highWaterMark s)
    (dc_ttlMs s) (dc_maxSize s).

(** [cache.keys().next().value], deleted. *)
Definition drop_oldest {K V} `{EqDecision K} (m : jsmap K V) : jsmap K V :=
  match m with [] => [] | (k, _) :: _ => jdel k m end.

Definition jsize {K V} (m : jsmap K V) : Z := Z.of_nat (length m).

Section dedup.
Context {env : Env}.

Definition D (A : Type) : Type := M (World DedupCache) Empty_set A.

Definition evictExpired : D unit :=
  t ← now;
  modify (set_cache (js_filter (λ kv, negb (ce_expiresAt kv.2 <? t)))).

(** The guard on capacity of [reserve] and [set]. *)
Definition make_room : D unit :=
  full ← gets (λ s, dc_maxSize s <=? jsize (dc_cache s));
  (if (full : bool) then evictExpired else mret tt);;
  full' ← gets (λ s, dc_maxSize s <=? jsize (dc_cache s));
  if (full' : bool) then modify (set_cache drop_oldest) else mret tt.

Definition get (updateId : Z) : D (option (string * Z)) :=
  found ← gets (λ s, jget updateId (dc_cache s));
  match found with
  | None => mret None
  | Some entry =>
      t ← now;
      if ce_expiresAt entry <? t then modify (set_cache (jdel updateId));; mret None
      else if ce_processing entry then mret None
      else mret (Some (ce_body entry, ce_status entry))
  end.

(** The part of [reserve] after the look into the cache. *)
Definition reserve_new (updateId : Z) : D ReserveResult :=
  mark ← gets dc_highWaterMark;
  if negb (above updateId mark) then mret already_processed
  else
    make_room;;
    t ← now;
    modify (λ s, set_cache (jset updateId (mkEntry "" 0 (t + dc_ttlMs s) true)) s);;
    mret reserved.

Definition reserve (updateId : Z) : D ReserveResult :=
  found ← gets (λ s, jget updateId (dc_cache s));
  match found with
  | Some existing =>
      t ← now;
      if t <=? ce_expiresAt existing then mret duplicate
      else modify (set_cache (jdel updateId));; reserve_new updateId
  | None => reserve_new updateId
  end.

Definition unreserve (updateId : Z) : D unit :=
  found ← gets (λ s, jget updateId (dc_cache s));
  match found with
  | Some entry => if ce_processing entry then modify (set_cache (jdel updateId)) else mret tt
  | None => mret tt
  end.

Definition set (updateId : Z) (body : string) (status : Z) : D unit :=
  modify (raise_mark updateId);;
  make_room;;
  t ← now;
  modify (λ s, set_cache (jset updateId (mkEntry body status (t + dc_ttlMs s) false)) s).

Definition size : D Z := gets (λ s, jsize (dc_cache s)).
End dedup.

(** ** The string-keyed cache *)

Record StringDedupCache := mkStringDedup {
  sd_cache : jsmap string Z;
  sd_processing : gset string;
  sd_ttlMs : Z;
  sd_maxSize : Z;
}.

Definition set_seen (f : jsmap string Z → jsmap string Z) (s : StringDedupCache) : StringDedupCache :=
  mkStringDedup (f (sd_cache s)) (sd_processing s) (sd_ttlMs s) (sd_maxSize s).
Definition set_processing (f : gset string → gset string) (s : StringDedupCache) : StringDedupCache :=
  mkStringDedup (sd_cache s) (f (sd_processing s)) (sd_ttlMs s) (sd_maxSize s).

Section string_dedup.
Context {env : Env}.

Definition SD (A : Type) : Type := M (World StringDedupCache) Empty_set A.

Definition string_evictExpired (t : Z) : SD unit :=
  modify (set_seen (js_filter (λ kv, negb (kv.2 <? t)))).

Definition string_has (key : string) : SD bool :=
  processing ← gets (λ s, bool_decide (key ∈ sd_processing s));
  if (processing : bool) then mret true
  else
    t ← now;
    found ← gets (λ s, jget key (sd_cache s));
    match found with
    | Some expiresAt =>
        if t <=? expiresAt then mret true else modify (set_seen (jdel key));; mret false
    | None => mret false
    end.

Definition string_mark (key : string) : SD unit :=
  modify (set_processing (.∖ {[key]}));;
  t ← now;
  full ← gets (λ s, sd_maxSize s <=? jsize (sd_cache s));
  (if (full : bool) then string_evictExpired t else mret tt);;
  full' ← gets (λ s, sd_maxSize s <=? jsize (sd_cache s));
  (if (full' : bool) then modify (set_seen drop_oldest) else mret tt);;
  modify (λ s, set_seen (jset key (t + sd_ttlMs s)) s).

Definition seen (key : string) : SD bool :=
  known ← string_has key;
  if (known : bool) then mret true else string_mark key;; mret false.

Definition string_reserve (key : string) : SD bool :=
  known ← string_has key;
  if (known : bool) then mret false else modify (set_processing ({[key]} ∪.));; mret true.

Definition string_unreserve (key : string) : SD unit := modify (set_processing (.∖ {[key]})).
End string_dedup.

(** ** Calls *)

Inductive DCall :=
  | DGet (updateId : Z)
  | DReserve (updateId : Z)
  | DUnreserve (updateId : Z)
  | DSet (updateId : Z) (body : string) (status : Z)
  | DSweep.

Inductive DAnswer := DNothing | DResponse (r : option (string * Z)) | DResult (r : ReserveResult).

Definition run_dcall {env : Env} (c : DCall) : D DAnswer :=
  match c with
  | DGet id => r ← get id; mret (DResponse r)
  | DReserve id => r ← reserve id; mret (DResult r)
  | DUnreserve id => unreserve id;; mret DNothing
  | DSet id body status => set id body status;; mret DNothing
  | DSweep => evictExpired;; mret DNothing
  end.

Inductive SCall := SSeen (key : string) | SHas (key : string) | SReserve (key : string) | SUnreserve (key : string)
  | SMark (key : string) | SSweep.

Definition run_scall {env : Env} (c : SCall) : SD bool :=
  match c with
  | SSeen key => seen key
  | SHas key => string_has key
  | SReserve key => string_reserve key
  | SUnreserve key => string_unreserve key;; mret false
  | SMark key => string_mark key;; mret false
  | SSweep => t ← now; string_evictExpired t;; mret false
  end.

(** ** The high-water mark only rises *)

Definition mark_le (m m' : option Z) : Prop :=
  match m with None => True | Some h => ∃ h', m' = Some h' ∧ h ≤ h' end.

#[global] Instance mark_le_preorder : PreOrder mark_le.
Proof.
  split.
  - intros [h|]; [by exists h|done].
  - intros [x|] y z; [|done]. cbn. intros (h & -> & ?) (h' & -> & ?). exists h'. split; [done|lia].
Qed.


Section mark.
Context {env : Env}.

Definition rises (w w' : World DedupCache) : Prop :=
  mark_le (dc_highWaterMark (w_st w)) (dc_highWaterMark (w_st w')).

#[local] Instance rises_preorder : PreOrder rises.
Proof. split; [intros w; by unfold rises|]. intros x y z. unfold rises. by etrans. Qed.








End mark.

(** ** Entries stay while there is room and time *)

Section entries.
Context {K V : Type} `{EqDecision K}.




End entries.

#[local] Arguments jsize : simpl never.
#[local] Arguments jdel : simpl never.
#[local] Arguments jset : simpl never.

Section in_flight.
Context {env : Env} {clock : ClockOk env}.

Definition forward (w w' : World DedupCache) : Prop := (w_clock w ≤ w_clock w')%nat.
#[local] Instance forward_preorder : PreOrder forward.
Proof. split; unfold forward; repeat intro; lia. Qed.















End in_flight.

(** ** A delivery in flight can be given up *)

Section given_up.
Context {env : Env}.

(** Not finished, nor anything above it: what the cache has of it is a reservation. *)
Definition held (id : Z) (s : DedupCache) : Prop :=
  above id (dc_highWaterMark s) = true ∧ ∀ e, (id, e) ∈ dc_cache s → ce_processing e = true.
Definition still_held (id : Z) (w w' : World DedupCache) : Prop := held id (w_st w) → held id (w_st w').
#[local] Instance still_held_preorder id : PreOrder (still_held id).
Proof. split; unfold still_held; repeat intro; auto. Qed.





End given_up.

(** ** A reserved string stays reserved *)

Section string_in_flight.
Context {env : Env}.

Definition still_reserved (key : string) (w w' : World StringDedupCache) : Prop :=
  key ∈ sd_processing (w_st w) → key ∈ sd_processing (w_st w').

#[local] Instance still_reserved_preorder key : PreOrder (still_reserved key).
Proof. split; unfold still_reserved; repeat intro; auto. Qed.

(** The handler that holds the reservation neither finishes nor gives up. *)
Definition s_leaves (key : string) (c : SCall) : bool :=
  match c with SUnreserve k | SMark k => negb (eqs k key) | _ => true end.

Lemma reserved_modify key f :
  (∀ s, sd_processing (f s) = sd_processing s ∨ key ∈ sd_processing (f s) ∨
    (∃ k, k ≠ key ∧ sd_processing (f s) = sd_processing s ∖ {[k]})) →
  respects (still_reserved key) (modify f : SD unit).
Proof. intros H w Hk. cbn. destruct (H (w_st w)) as [->|[?|(k & Hne & ->)]]; [done|done|set_solver]. Qed.

Ltac solve_reserved :=
  repeat match goal with
  | |- respects _ (if ?b then _ else _) => destruct b
  | |- respects _ (match ?x with _ => _ end) => destruct x
  | |- respects _ (mret _) => apply respects_ret, _
  | |- respects _ (mbind _ _) => apply respects_bind; [apply _| |intros ?]
  | |- respects _ (modify _) => apply reserved_modify; intros ?; by left
  | |- respects _ (gets _) => intros ?; unfold still_reserved; done
  | |- respects _ now => intros ?; unfold still_reserved; done
  end.

Lemma mark_reserved key k : k ≠ key → respects (still_reserved key) (string_mark k).
Proof.
  intros Hne. unfold string_mark, string_evictExpired. solve_reserved.
  apply reserved_modify. intros s. right. right. by exists k.
Qed.

Lemma has_keeps_reserved key k : respects (still_reserved key) (string_has k).
Proof. unfold string_has. solve_reserved. Qed.

Lemma has_reserved key w : key ∈ sd_processing (w_st w) → string_has key w = (inr true, w).
Proof. intros Hk. unfold string_has. mrun. by rewrite bool_decide_true. Qed.

Lemma scall_reserved key c : s_leaves key c = true → respects (still_reserved key) (run_scall c).
Proof.
  intros Hl. destruct c; cbn [run_scall s_leaves] in *.
  - destruct (decide (key0 = key)) as [->|Hne].
    + intros w Hk. unfold seen. mrun. by rewrite (has_reserved key w Hk).
    + unfold seen. apply respects_bind; [apply _|apply has_keeps_reserved|]. intros [|]; solve_reserved.
      by apply mark_reserved.
  - apply has_keeps_reserved.
  - unfold string_reserve. apply respects_bind; [apply _|apply has_keeps_reserved|]. intros [|]; [solve_reserved|].
    intros w Hk. mrun. set_solver.
  - unfold string_unreserve. solve_reserved. apply reserved_modify. intros s. right. right. exists key0.
    by apply negb_true_iff, bool_decide_eq_false in Hl.
  - apply negb_true_iff, bool_decide_eq_false in Hl. solve_reserved. by apply mark_reserved.
  - unfold string_evictExpired. solve_reserved.
Qed.

Lemma scalls_reserved key cs w :
  Forall (λ c, s_leaves key c = true) cs → still_reserved key w (run_calls run_scall cs w).2.
Proof.
  intros Hcs. revert w. induction Hcs as [|c cs Hc _ IH]; intros w; cbn; [reflexivity|].
  pose proof (scall_reserved key c Hc w) as H. destruct (run_scall c w) as [a w1]. specialize (IH w1).
  destruct (run_calls run_scall cs w1) as [l w2]. cbn in *. by etrans.
Qed.

Lemma reserve_holds key w :
  (string_reserve key w).1 = inr true → key ∈ sd_processing (w_st (string_reserve key w).2).
Proof. unfold string_reserve. mrun. destruct (string_has key w) as [[[]|[|]] w1]; [done|]. cbn. set_solver. Qed.
End string_in_flight.

(** * Claims *)


(** A string reserved by one request is refused to every other until the
    request marks or gives it up, whatever else is called and however much time
    passes. *)
Theorem string_dedup_exclusive {env : Env} key cs w :
  (string_reserve key w).1 = inr true →
  Forall (λ c, s_leaves key c = true) cs →
  (string_reserve key (run_calls run_scall cs (string_reserve key w).2).2).1 = inr false.
Proof.
  intros Hr Hcs. assert (Hk : key ∈ sd_processing (w_st (string_reserve key w).2)) by by apply reserve_holds.
  apply (scalls_reserved key cs _ Hcs) in Hk. unfold string_reserve at 1. mrun. by rewrite has_reserved.
Qed.

(** ** A cache of two entries *)

Definition demo_dedup (maxSize : Z) : World DedupCache := mkWorld 0 0 (mkDedup [] None 100 maxSize).


Definition demo_strings : World StringDedupCache := mkWorld 0 0 (mkStringDedup [] ∅ 100 9).

(** An instance. *)
Lemma string_dedup_exclusive_witness :
  (string_reserve "m" (run_calls run_scall [SSeen "m"; SMark "n"; SSweep] (string_reserve "m" demo_strings).2).2).1
    = inr false.
Proof.
  apply (string_dedup_exclusive "m" [SSeen "m"; SMark "n"; SSweep] demo_strings).
  - vm_compute. reflexivity.
  - repeat constructor.
Defined.

(** A delivery that was given up for a retry is refused if a later one has
    finished in the meantime: the retry is taken for a replay. *)
Example dedup_unreserve_blocks_retry :
  (run_calls run_dcall [DReserve 5; DReserve 6; DSet 6 "ok" 200; DUnreserve 5; DReserve 5] (demo_dedup 9)).1 =
  [inr (DResult reserved); inr (DResult reserved); inr DNothing; inr DNothing; inr (DResult already_processed)].
Proof. vm_compute. reflexivity. Qed.
