(* ===== verification/RateLimiters.v ===== *)
(** * Rate limiters

    The sliding windows of the gateway and the assistant:
    src/gateway/src/auth-rate-limiter.ts and
    src/assistant/src/runtime/verification-rate-limiter.ts (failed attempts),
    src/assistant/src/runtime/middleware/rate-limiter.ts (requests),
    src/assistant/src/providers/ratelimit.ts (calls of a model provider),
    src/gateway/src/rejection-rate-limiter.ts (one notice per cooldown) and
    src/gateway/src/db/denial-reply-rate-limiter.ts (rows of a table).

    [now] is the reading of [Date.now] an operation makes.  A [Map] is a list of
    entries in insertion order; its arrays are only reached through it. *)
From S2P Require Import Prelude.

(** ** Arrays of timestamps in a map *)

Section windows.
Context {A : Type} (ts : A → Z) (windowMs : Z) (maxTracked : nat).

(** [while (entries.length > 0 && entries[0].timestamp <= cutoff) entries.shift();] *)
Fixpoint shift_expired (cutoff : Z) (entries : list A) : list A :=
  match entries with
  | e :: rest => if ts e <=? cutoff then shift_expired cutoff rest else entries
  | [] => []
  end.

Definition evictStale (now : Z) (m : jsmap string (list A)) : jsmap string (list A) :=
  js_filter (λ kv, match kv.2 with [] => false | _ => true end) (jmap (shift_expired (now - windowMs)) m).

(** Make room if the map is full, and start an array for a new key. *)
Definition track (now : Z) (key : string) (m : jsmap string (list A)) : jsmap string (list A) :=
  match jget key m with
  | Some _ => m
  | None =>
      let m1 := if (maxTracked <=? length m)%nat then
                  let m' := evictStale now m in
                  if (maxTracked <=? length m')%nat then
                    match jkeys m' with oldest :: _ => jdel oldest m' | [] => m' end
                  else m'
                else m in
      jset key [] m1
  end.
End windows.

(** ** Failed attempts *)

Section failures.
Context (maxFailures windowMs : Z) (maxTracked : nat).

Definition recordFailure (now : Z) (ip : string) (m : jsmap string (list Z)) : jsmap string (list Z) :=
  jalter (λ timestamps, timestamps ++ [now]) ip (track id windowMs maxTracked now ip m).

Definition isBlocked (now : Z) (ip : string) (m : jsmap string (list Z)) : bool * jsmap string (list Z) :=
  match jget ip m with
  | None => (false, m)
  | Some timestamps =>
      let timestamps := shift_expired id (now - windowMs) timestamps in
      match timestamps with
      | [] => (false, jdel ip m)
      | _ => (maxFailures <=? Z.of_nat (length timestamps), jset ip timestamps m)
      end
  end.

Definition clearIp (ip : string) (m : jsmap string (list Z)) : jsmap string (list Z) := jdel ip m.
End failures.

(** The two limiters: their defaults and bounds. *)
Definition auth_maxFailures : Z := 10.
Definition auth_windowMs : Z := 60000.
Definition auth_maxTracked : nat := Z.to_nat 50000.
Definition verification_maxFailures : Z := 3.
Definition verification_windowMs : Z := 5 * 60000.
Definition verification_maxTracked : nat := Z.to_nat 10000.

(** The class of the assistant repeats the gateway's. *)
Definition verification_recordFailure : Z → string → jsmap string (list Z) → jsmap string (list Z) :=
  recordFailure verification_windowMs verification_maxTracked.
Definition verification_isBlocked : Z → string → jsmap string (list Z) → bool * jsmap string (list Z) :=
  isBlocked verification_maxFailures verification_windowMs.
Definition clearIdentity : string → jsmap string (list Z) → jsmap string (list Z) := clearIp.

(** ** Requests *)

Record RequestEntry := mkRequestEntry { re_timestamp : Z; re_path : string }.
Record RateLimitResult := mkRateLimitResult { rl_allowed : bool; rl_limit : Z; rl_remaining : Z; rl_resetAt : Z }.

(** [Math.ceil(x / 1000)] *)
Definition ceil_seconds (x : Z) : Z := - (- x / 1000).

Section requests.
Context (maxRequests windowMs : Z) (maxTrackedKeys : nat).

Definition check_request (now : Z) (key : string) (path : option string) (m : jsmap string (list RequestEntry))
    : RateLimitResult * jsmap string (list RequestEntry) :=
  let m1 := track re_timestamp windowMs maxTrackedKeys now key m in
  let entries := shift_expired re_timestamp (now - windowMs) (default [] (jget key m1)) in
  let remaining := Z.max 0 (maxRequests - Z.of_nat (length entries)) in
  let resetAt := match entries with
                 | e :: _ => ceil_seconds (re_timestamp e + windowMs)
                 | [] => ceil_seconds (now + windowMs)
                 end in
  if maxRequests <=? Z.of_nat (length entries)
  then (mkRateLimitResult false maxRequests 0 resetAt, jset key entries m1)
  else (mkRateLimitResult true maxRequests (remaining - 1) resetAt,
        jset key (entries ++ [mkRequestEntry now (default "unknown" path)]) m1).

(** [getRecentPathCounts]: one pair per path, in the order of first use, then sorted. *)
Definition count_path (counts : jsmap string Z) (e : RequestEntry) : jsmap string Z :=
  jset (re_path e) (default 0 (jget (re_path e) counts) + 1) counts.

Definition getRecentPathCounts (now : Z) (key : string) (m : jsmap string (list RequestEntry)) : list (string * Z) :=
  match jget key m with
  | None | Some [] => []
  | Some entries =>
      js_sort (λ a b, b.2 - a.2)
        (fold_left count_path (js_filter (λ e, now - windowMs <? re_timestamp e) entries) [])
  end.
End requests.

Definition api_maxRequests : Z := 300.
Definition loopback_maxRequests : Z := 1200.
Definition ip_maxRequests : Z := 20.
Definition requests_windowMs : Z := 60000.
Definition api_maxTracked : nat := Z.to_nat 10000.
Definition ip_maxTracked : nat := Z.to_nat 50000.

(** [Retry-After] of a refused request *)
Definition retry_after (now : Z) (r : RateLimitResult) : Z := Z.max 1 (rl_resetAt r - ceil_seconds now).

(** ** Calls of a provider *)

(** [enforceRequestRate] then [recordRequest]; the error is the number of seconds to wait. *)
Definition enforceRequestRate (limit now : Z) (timestamps : list Z) : (Z + unit) * list Z :=
  if limit <=? 0 then (inr tt, timestamps)
  else
    let kept := js_filter (λ t, now - 60000 <? t) timestamps in
    match kept with
    | t :: rest =>
        if limit <=? Z.of_nat (length kept)
        then (inl (ceil_seconds (foldl Z.min t rest + 60000 - now)), kept) else (inr tt, kept)
    | [] => (inr tt, kept)
    end.

Definition recordRequest (limit now : Z) (timestamps : list Z) : list Z :=
  if limit <=? 0 then timestamps else timestamps ++ [now].

(** The clock is read once for the check and once for the record. *)
Definition send_request (limit checked recorded : Z) (timestamps : list Z) : (Z + unit) * list Z :=
  match enforceRequestRate limit checked timestamps with
  | (inr _, kept) => (inr tt, recordRequest limit recorded kept)
  | refused => refused
  end.

(** ** Rejection notices *)

Definition REJECTION_NOTICE_COOLDOWN_MS : Z := 5 * 60 * 1000.
Definition MAX_REJECTION_CACHE_SIZE : nat := Z.to_nat 10000.

(** The safety valve: purge what has expired, then drop the oldest. *)
Definition purge_notices (now : Z) (m : jsmap string Z) : jsmap string Z :=
  if (MAX_REJECTION_CACHE_SIZE <=? length m)%nat then
    let m1 := js_filter (λ kv, now - kv.2 <? REJECTION_NOTICE_COOLDOWN_MS) m in
    if (MAX_REJECTION_CACHE_SIZE <=? length m1)%nat then
      fold_left (λ m' kv, jdel kv.1 m')
        (take (length m1 - MAX_REJECTION_CACHE_SIZE + 1) (js_sort (λ a b, a.2 - b.2) m1)) m1
    else m1
  else m.

Definition shouldSend (now : Z) (recipientId : string) (m : jsmap string Z) : bool * jsmap string Z :=
  match jget recipientId m with
  | Some lastSent =>
      if now - lastSent <? REJECTION_NOTICE_COOLDOWN_MS then (false, m)
      else (true, jset recipientId now (purge_notices now (jdel recipientId m)))
  | None => (true, jset recipientId now (purge_notices now m))
  end.

(** ** Denial replies *)

Definition DENIAL_REPLY_WINDOW_MS : Z := 24 * 60 * 60 * 1000.
Definition DENIAL_REPLY_PER_SOURCE_LIMIT : Z := 3.
Definition DENIAL_REPLY_GLOBAL_LIMIT : Z := 50.
Definition PRUNE_INTERVAL_MS : Z := 60 * 60 * 1000.

Record DenialRow := mkDenialRow { dr_channel : string; dr_sourceAddress : string; dr_sentAt : Z }.
Record DenialLog := mkDenialLog { dl_rows : list DenialRow; dl_lastPruneAt : Z }.

(** The delete may fail; the error is logged and the time of pruning stays. *)
Definition maybePrune (delete_fails : bool) (now : Z) (d : DenialLog) : DenialLog :=
  if now - dl_lastPruneAt d <? PRUNE_INTERVAL_MS then d
  else mkDenialLog (if delete_fails then dl_rows d
                    else js_filter (λ r, negb (dr_sentAt r <? now - DENIAL_REPLY_WINDOW_MS)) (dl_rows d)) now.

Definition recent (now : Z) (r : DenialRow) : bool := now - DENIAL_REPLY_WINDOW_MS <=? dr_sentAt r.
Definition from_source (channel sourceAddress : string) (r : DenialRow) : bool :=
  eqs (dr_channel r) channel && eqs (dr_sourceAddress r) sourceAddress.
Definition count_rows (p : DenialRow → bool) (rows : list DenialRow) : Z := Z.of_nat (length (js_filter p rows)).

Definition recordDenialReplyIfAllowed (delete_fails : bool) (now : Z) (channel sourceAddress : string) (d : DenialLog)
    : bool * DenialLog :=
  let d := maybePrune delete_fails now d in
  if DENIAL_REPLY_PER_SOURCE_LIMIT <=? count_rows (λ r, from_source channel sourceAddress r && recent now r) (dl_rows d)
  then (false, d)
  else if DENIAL_REPLY_GLOBAL_LIMIT <=? count_rows (recent now) (dl_rows d) then (false, d)
  else (true, mkDenialLog (dl_rows d ++ [mkDenialRow channel sourceAddress now]) (dl_lastPruneAt d)).

(** ** A full log as reference *)

Section log.
Context {A : Type} (ts : A → Z) (windowMs : Z) (maxTracked : nat).

Definition entries_of (k : string) (h : gmap string (list A)) : list A := default [] (h !! k).
Definition stored (k : string) (m : jsmap string (list A)) : list A := default [] (jget k m).
Definition in_window (now : Z) (e : A) : bool := now - windowMs <? ts e.

(** The keys with an entry in the window. *)
Definition live_keys (now : Z) (h : gmap string (list A)) : nat :=
  size (filter (λ kv, existsb (in_window now) kv.2 = true) h).

(** The map holds the end of the log of every key; what it dropped has expired. *)
Record agree (now : Z) (m : jsmap string (list A)) (h : gmap string (list A)) : Prop := {
  ag_nodup : NoDup (jkeys m);
  ag_suffix : ∀ k, ∃ old, entries_of k h = old ++ stored k m ∧ Forall (λ e, ts e ≤ now - windowMs) old;
  ag_sorted : ∀ k, StronglySorted (λ a b, ts a ≤ ts b) (entries_of k h) ∧ Forall (λ e, ts e ≤ now) (entries_of k h);
}.

Lemma shift_expired_suffix c l : ∃ old, l = old ++ shift_expired ts c l ∧ Forall (λ e, ts e ≤ c) old.
Proof.
  induction l as [|e l (old & Hl & Hold)]; cbn; [by exists []|]. destruct (Z.leb_spec (ts e) c).
  - exists (e :: old). cbn. split; [by f_equal|by constructor].
  - by exists [].
Qed.

Lemma shift_expired_filter c l :
  StronglySorted (λ a b, ts a ≤ ts b) l → shift_expired ts c l = js_filter (λ e, c <? ts e) l.
Proof.
  induction 1 as [|e l Hs IH Hall]; cbn; [done|].
  destruct (Z.leb_spec (ts e) c), (Z.ltb_spec c (ts e)); try lia; [done|]. f_equal.
  clear IH Hs. induction Hall as [|x l Hx Hall IH]; cbn; [done|]. destruct (Z.ltb_spec c (ts x)); [|lia]. by f_equal.
Qed.

Lemma js_filter_app {B} (p : B → bool) l1 l2 : js_filter p (l1 ++ l2) = js_filter p l1 ++ js_filter p l2.
Proof. apply List.filter_app. Qed.

Lemma js_filter_none {B} (p : B → bool) l : Forall (λ e, p e = false) l → js_filter p l = [].
Proof. induction 1 as [|e l He Hl IH]; cbn; [done|]. by rewrite He. Qed.

Lemma agree_later now now' m h : now ≤ now' → agree now m h → agree now' m h.
Proof.
  intros Hle [Hn Hs Ho]. split; [done| |].
  - intros k. destruct (Hs k) as (old & Hk & Hold). exists old. split; [done|]. eapply Forall_impl; [exact Hold|]. cbn. lia.
  - intros k. destruct (Ho k) as [H1 H2]. split; [done|]. eapply Forall_impl; [exact H2|]. cbn. lia.
Qed.

(** The entries of a key that are in the window, by the map and by the log. *)
Lemma agree_window now m h k :
  agree now m h → shift_expired ts (now - windowMs) (stored k m) = js_filter (in_window now) (entries_of k h).
Proof.
  intros [_ Hs Ho]. destruct (Hs k) as (old & Hk & Hold). destruct (Ho k) as [Hsort _]. rewrite Hk in Hsort |- *.
  rewrite js_filter_app, (js_filter_none _ old).
  - apply shift_expired_filter. clear -Hsort. induction old as [|e old IH]; [done|].
    apply IH. by apply StronglySorted_inv in Hsort as [? _].
  - eapply Forall_impl; [exact Hold|]. intros e He. unfold in_window. cbn in He. lia.
Qed.

Lemma agree_stored now m m' h :
  agree now m h → NoDup (jkeys m') →
  (∀ k, stored k m' = stored k m ∨ stored k m' = shift_expired ts (now - windowMs) (stored k m)) → agree now m' h.
Proof.
  intros [Hn Hs Ho] Hn' Hm. split; [done| |done]. intros k. destruct (Hs k) as (old & Hk & Hold).
  destruct (Hm k) as [-> | ->]; [by exists old|].
  destruct (shift_expired_suffix (now - windowMs) (stored k m)) as (old' & Hst & Hold').
  exists (old ++ old'). split; [by rewrite Hk, Hst at 1; rewrite app_assoc|by apply Forall_app].
Qed.

Lemma jget_filter (p : string * list A → bool) k m :
  NoDup (jkeys m) → jget k (js_filter p m) = match jget k m with Some l => if p (k, l) then Some l else None | None => None end.
Proof.
  induction m as [|[k' l] m IH]; [done|]. cbn. intros [Hk Hn]%NoDup_cons.
  destruct (p (k', l)) eqn:Hp; cbn; case_decide; subst; rewrite ?Hp; auto.
  change (List.filter p m) with (js_filter p m). rewrite IH by done. by apply jget_None in Hk as ->.
Qed.

Lemma jkeys_filter_NoDup (p : string * list A → bool) m : NoDup (jkeys m) → NoDup (jkeys (js_filter p m)).
Proof.
  induction m as [|[k l] m IH]; cbn; [done|]. intros [Hk Hn]%NoDup_cons.
  assert (Hrest : ∀ k, k ∈ jkeys (js_filter p m) → k ∈ jkeys m).
  { intros k0. unfold jkeys. rewrite !list_elem_of_fmap. intros (kv & -> & Hin). exists kv. split; [done|].
    apply list_elem_of_In, filter_In in Hin as [Hin _]. by apply list_elem_of_In. }
  destruct (p (k, l)); [|by apply IH]. cbn. apply NoDup_cons. split; [|by apply IH]. intros Hin. by apply Hk, Hrest.
Qed.

Lemma stored_evict now k m :
  NoDup (jkeys m) → stored k (evictStale ts windowMs now m) = shift_expired ts (now - windowMs) (stored k m).
Proof.
  intros Hn. unfold stored, evictStale. rewrite jget_filter by by rewrite jkeys_jmap.
  rewrite jget_jmap. destruct (jget k m) as [l|]; [|done]. cbn. by destruct (shift_expired _ _ _).
Qed.

Lemma agree_evict now m h : agree now m h → agree now (evictStale ts windowMs now m) h.
Proof.
  intros Ha. pose proof (ag_nodup _ _ _ Ha) as Hn. eapply agree_stored; [exact Ha| |].
  - unfold evictStale. apply jkeys_filter_NoDup. by rewrite jkeys_jmap.
  - intros k. right. by apply stored_evict.
Qed.

(** After an eviction only live keys are left. *)
Lemma evict_length now m h : agree now m h → (length (evictStale ts windowMs now m) ≤ live_keys now h)%nat.
Proof.
  intros Ha. pose proof (ag_nodup _ _ _ Ha) as Hn. pose proof (ag_nodup _ _ _ (agree_evict _ _ _ Ha)) as Hne.
  rewrite <-(length_fmap fst). fold (jkeys (evictStale ts windowMs now m)).
  unfold live_keys. rewrite <-size_dom. rewrite <-(size_list_to_set (C := gset string)) by done.
  apply subseteq_size. intros k Hk%elem_of_list_to_set. apply elem_of_dom.
  destruct (jget k (evictStale ts windowMs now m)) as [l|] eqn:Hl; [|by apply jget_None in Hl].
  assert (Hst : stored k (evictStale ts windowMs now m) = l) by (unfold stored; by rewrite Hl).
  rewrite stored_evict in Hst by done. rewrite (agree_window now m h k Ha) in Hst.
  unfold evictStale in Hl. rewrite jget_filter in Hl by by rewrite jkeys_jmap. rewrite jget_jmap in Hl.
  destruct (jget k m) as [l0|]; [|done]. cbn in Hl.
  destruct (shift_expired ts (now - windowMs) l0) as [|e l1] eqn:Hsh; [done|]. injection Hl as <-.
  assert (He : e ∈ js_filter (in_window now) (entries_of k h)) by (rewrite Hst; set_solver).
  apply list_elem_of_In, filter_In in He as [He Hin]. unfold entries_of in He.
  destruct (h !! k) as [l|] eqn:Hh; [|done]. exists l. apply map_lookup_filter_Some. split; [done|].
  cbn. apply existsb_exists. by exists e.
Qed.

Lemma track_ok now key m h :
  agree now m h → (live_keys now h < maxTracked)%nat →
  agree now (track ts windowMs maxTracked now key m) h ∧ is_Some (jget key (track ts windowMs maxTracked now key m)).
Proof.
  intros Ha Hlive. unfold track. destruct (jget key m) as [l|] eqn:Hk; [by rewrite Hk|].
  set (m1 := if (maxTracked <=? length m)%nat then _ else m).
  assert (Hm1 : agree now m1 h ∧ jget key m1 = None).
  { subst m1. destruct (_ <=? _)%nat; [|done]. pose proof (evict_length now m h Ha) as Hlen.
    destruct (Nat.leb_spec maxTracked (length (evictStale ts windowMs now m))); [lia|]. split; [by apply agree_evict|].
    unfold evictStale. rewrite jget_filter by (rewrite jkeys_jmap; apply Ha). by rewrite jget_jmap, Hk. }
  destruct Hm1 as [Ha1 Hk1]. split; [|by rewrite jget_jset_eq]. eapply agree_stored; [exact Ha1|apply jkeys_jset_NoDup, Ha1|].
  intros k. left. unfold stored. rewrite jget_jset. case_decide; subst; [by rewrite Hk1|done].
Qed.

Lemma sorted_snoc l e :
  StronglySorted (λ a b, ts a ≤ ts b) l → Forall (λ x, ts x ≤ ts e) l → StronglySorted (λ a b, ts a ≤ ts b) (l ++ [e]).
Proof.
  induction 1 as [|x l Hsort IH Hx]; cbn; intros Hall; [by repeat constructor|].
  apply Forall_cons in Hall as [Hxe Hall]. constructor; [auto|]. apply Forall_app. split; [done|constructor; [lia|constructor]].
Qed.

(** A new entry at the end of the array of a tracked key. *)
Lemma agree_append now m h k e l :
  agree now m h → ts e = now → (l = stored k m ∨ l = shift_expired ts (now - windowMs) (stored k m)) →
  agree now (jset k (l ++ [e]) m) (<[k := entries_of k h ++ [e]]> h).
Proof.
  intros [Hn Hs Ho] He Hl. split; [by apply jkeys_jset_NoDup| |].
  - intros k'. unfold entries_of, stored. rewrite lookup_insert, jget_jset. case_decide; subst; [|apply Hs]. cbn.
    destruct (Hs k') as (old & Hk & Hold). unfold entries_of, stored in *. destruct Hl as [-> | ->].
    + exists old. split; [|done]. by rewrite Hk, app_assoc.
    + destruct (shift_expired_suffix (ts e - windowMs) (stored k' m)) as (old' & Hst & Hold').
      exists (old ++ old'). split; [|by apply Forall_app].
      rewrite Hk. rewrite Hst at 1. by rewrite <-!app_assoc.
  - intros k'. unfold entries_of. rewrite lookup_insert. case_decide; subst; [|apply Ho]. cbn.
    destruct (Ho k') as [Hsort Hall]. split; [|apply Forall_app; split; [done|constructor; [lia|constructor]]].
    by apply sorted_snoc.
Qed.
End log.

(** ** Failed attempts, against the log *)

Inductive FailureCall :=
  | attempt_failed (now : Z) (ip : string)
  | attempt_checked (now : Z) (ip : string)
  | attempt_cleared (now : Z) (ip : string).

Definition failure_time (c : FailureCall) : Z :=
  match c with attempt_failed now _ | attempt_checked now _ | attempt_cleared now _ => now end.

Section failure_props.
Context (maxFailures windowMs : Z) (maxTracked : nat).

(** The answers of the limiter; a recorded or cleared attempt answers nothing. *)
Fixpoint run_failures (cs : list FailureCall) (m : jsmap string (list Z)) : list bool :=
  match cs with
  | [] => []
  | attempt_failed now ip :: cs' => run_failures cs' (recordFailure windowMs maxTracked now ip m)
  | attempt_checked now ip :: cs' =>
      let '(b, m') := isBlocked maxFailures windowMs now ip m in b :: run_failures cs' m'
  | attempt_cleared _ ip :: cs' => run_failures cs' (clearIp ip m)
  end.

Definition log_failure (c : FailureCall) (h : gmap string (list Z)) : gmap string (list Z) :=
  match c with
  | attempt_failed now ip => <[ip := entries_of ip h ++ [now]]> h
  | attempt_checked _ _ => h
  | attempt_cleared _ ip => delete ip h
  end.

(** The reference counts the failures of the window in the full log. *)
Fixpoint ref_failures (cs : list FailureCall) (h : gmap string (list Z)) : list bool :=
  match cs with
  | [] => []
  | c :: cs' =>
      match c with
      | attempt_checked now ip =>
          [maxFailures <=? Z.of_nat (length (js_filter (in_window id windowMs now) (entries_of ip h)))]
      | _ => []
      end ++ ref_failures cs' (log_failure c h)
  end.

(** Times do not go back, and fewer addresses than the bound have failures in the window. *)
Fixpoint failures_admissible (t : Z) (cs : list FailureCall) (h : gmap string (list Z)) : Prop :=
  match cs with
  | [] => True
  | c :: cs' => t ≤ failure_time c ∧ (live_keys id windowMs (failure_time c) h < maxTracked)%nat
                ∧ failures_admissible (failure_time c) cs' (log_failure c h)
  end.

Lemma agree_record now ip m h :
  agree id windowMs now m h → (live_keys id windowMs now h < maxTracked)%nat →
  agree id windowMs now (recordFailure windowMs maxTracked now ip m) (<[ip := entries_of ip h ++ [now]]> h).
Proof.
  intros Ha Hlive. destruct (track_ok id windowMs maxTracked now ip m h Ha Hlive) as [Ha' [l Hl]]. unfold recordFailure.
  replace (jalter _ ip _) with (jset ip (stored ip (track id windowMs maxTracked now ip m) ++ [now])
                                  (track id windowMs maxTracked now ip m)).
  - apply agree_append; [done|done|by left].
  - unfold stored. rewrite Hl. cbn. revert Hl. generalize (track id windowMs maxTracked now ip m). clear.
    induction j as [|[k l'] j IH]; cbn; [done|]. case_decide; subst; [by intros [= ->]|]. intros Hj. f_equal. by apply IH.
Qed.

Lemma agree_clear now ip m h : agree id windowMs now m h → agree id windowMs now (clearIp ip m) (delete ip h).
Proof.
  intros [Hn Hs Ho]. split; [by apply jkeys_jdel_NoDup| |]; intros k; unfold entries_of, stored, clearIp;
    rewrite lookup_delete, ?jget_jdel; case_decide; subst; cbn.
  - by exists [].
  - apply Hs.
  - repeat constructor.
  - apply Ho.
Qed.

Lemma isBlocked_ok now ip m h :
  0 < maxFailures → agree id windowMs now m h →
  (isBlocked maxFailures windowMs now ip m).1
    = (maxFailures <=? Z.of_nat (length (js_filter (in_window id windowMs now) (entries_of ip h)))) ∧
  agree id windowMs now (isBlocked maxFailures windowMs now ip m).2 h.
Proof.
  intros Hmax Ha. rewrite <-(agree_window id windowMs now m h ip Ha). unfold isBlocked.
  assert (Hset : ∀ m', (∀ k, stored k m' = if decide (ip = k) then shift_expired id (now - windowMs) (stored k m) else stored k m) →
    NoDup (jkeys m') → agree id windowMs now m' h).
  { intros m' Hm' Hn'. eapply agree_stored; [exact Ha|done|]. intros k. rewrite Hm'. case_decide; auto. }
  pose proof (ag_nodup _ _ _ _ _ Ha) as Hn.
  unfold stored at 1. destruct (jget ip m) as [l|] eqn:Hl; cbn; [|split; [|done]; symmetry; apply Z.leb_gt; lia].
  destruct (shift_expired id (now - windowMs) l) as [|e l'] eqn:Hsh; cbn.
  - split; [symmetry; apply Z.leb_gt; lia|]. apply Hset; [|by apply jkeys_jdel_NoDup]. intros k. unfold stored.
    rewrite jget_jdel. case_decide; subst; [by rewrite Hl; cbn; rewrite Hsh|done].
  - split; [done|]. apply Hset; [|by apply jkeys_jset_NoDup]. intros k. unfold stored.
    rewrite jget_jset. case_decide; subst; [by rewrite Hl; cbn; rewrite Hsh|done].
Qed.

Lemma run_failures_agree cs t m h :
  0 < maxFailures → agree id windowMs t m h → failures_admissible t cs h → run_failures cs m = ref_failures cs h.
Proof.
  intros Hmax. revert t m h. induction cs as [|c cs IH]; intros t m h Ha; [done|]. cbn [failures_admissible].
  intros (Ht & Hlive & Hrest). apply (agree_later id windowMs t (failure_time c)) in Ha; [|done].
  destruct c as [now ip|now ip|now ip]; cbn in *.
  - eapply IH; [|exact Hrest]. by apply agree_record.
  - destruct (isBlocked_ok now ip m h Hmax Ha) as [Hb Ha']. destruct (isBlocked _ _ now ip m) as [b m']. cbn in *.
    f_equal; [done|by eapply IH].
  - eapply IH; [|exact Hrest]. by apply agree_clear.
Qed.

Lemma agree_empty {A} (ts : A → Z) t : agree ts windowMs t [] ∅.
Proof.
  split; [constructor|intros k; exists []|intros k]; unfold entries_of, stored; rewrite lookup_empty; by repeat constructor.
Qed.

(** As long as fewer addresses than the bound have failures in the window,
    evictions lose nothing: for calls in the order of time, the limiter blocks an
    address exactly when the full log holds enough failures of it in the window. *)
Theorem failures_blocked_exactly cs t :
  0 < maxFailures → failures_admissible t cs ∅ → run_failures cs [] = ref_failures cs ∅.
Proof. intros Hmax. apply run_failures_agree; [done|apply agree_empty]. Qed.
End failure_props.

(** ** Requests, against the log *)

Section request_props.
Context (maxRequests windowMs : Z) (maxTracked : nat).

Record RequestCall := mkRequestCall { rc_now : Z; rc_key : string; rc_path : option string }.

Fixpoint run_requests (cs : list RequestCall) (m : jsmap string (list RequestEntry)) : list RateLimitResult :=
  match cs with
  | [] => []
  | c :: cs' =>
      let '(r, m') := check_request maxRequests windowMs maxTracked (rc_now c) (rc_key c) (rc_path c) m in
      r :: run_requests cs' m'
  end.

Definition entry_of (c : RequestCall) : RequestEntry := mkRequestEntry (rc_now c) (default "unknown" (rc_path c)).

(** The reference, from the allowed requests of the window. *)
Definition ref_check (c : RequestCall) (h : gmap string (list RequestEntry)) : RateLimitResult :=
  let recent := js_filter (in_window re_timestamp windowMs (rc_now c)) (entries_of (rc_key c) h) in
  let used := Z.of_nat (length recent) in
  let resetAt := ceil_seconds (match recent with e :: _ => re_timestamp e | [] => rc_now c end + windowMs) in
  if used <? maxRequests then mkRateLimitResult true maxRequests (maxRequests - used - 1) resetAt
  else mkRateLimitResult false maxRequests 0 resetAt.

Definition log_request (c : RequestCall) (h : gmap string (list RequestEntry)) : gmap string (list RequestEntry) :=
  if rl_allowed (ref_check c h) then <[rc_key c := entries_of (rc_key c) h ++ [entry_of c]]> h else h.

Fixpoint ref_requests (cs : list RequestCall) (h : gmap string (list RequestEntry)) : list RateLimitResult :=
  match cs with [] => [] | c :: cs' => ref_check c h :: ref_requests cs' (log_request c h) end.

(** The log of the allowed requests after the calls. *)
Fixpoint allowed_log (cs : list RequestCall) (h : gmap string (list RequestEntry)) : gmap string (list RequestEntry) :=
  match cs with [] => h | c :: cs' => allowed_log cs' (log_request c h) end.

Fixpoint requests_admissible (t : Z) (cs : list RequestCall) (h : gmap string (list RequestEntry)) : Prop :=
  match cs with
  | [] => True
  | c :: cs' => t ≤ rc_now c ∧ (live_keys re_timestamp windowMs (rc_now c) h < maxTracked)%nat
                ∧ requests_admissible (rc_now c) cs' (log_request c h)
  end.

(** The allowed requests of a key in the window that ends at [t]. *)
Definition used_at (t : Z) (k : string) (h : gmap string (list RequestEntry)) : Z :=
  Z.of_nat (length (js_filter (λ e, in_window re_timestamp windowMs t e && (re_timestamp e <=? t)) (entries_of k h))).

Lemma check_request_ok c m h :
  agree re_timestamp windowMs (rc_now c) m h → (live_keys re_timestamp windowMs (rc_now c) h < maxTracked)%nat →
  (check_request maxRequests windowMs maxTracked (rc_now c) (rc_key c) (rc_path c) m).1 = ref_check c h ∧
  agree re_timestamp windowMs (rc_now c)
    (check_request maxRequests windowMs maxTracked (rc_now c) (rc_key c) (rc_path c) m).2 (log_request c h).
Proof.
  intros Ha Hlive. destruct (track_ok _ _ _ _ (rc_key c) m h Ha Hlive) as [Ha' _].
  unfold check_request, log_request, ref_check. set (m1 := track _ _ _ _ _ m) in *.
  pose proof (agree_window _ _ _ m1 h (rc_key c) Ha') as Hwin. unfold stored in Hwin. rewrite Hwin.
  set (recent := js_filter _ _) in *.
  assert (Hreset : match recent with e :: _ => ceil_seconds (re_timestamp e + windowMs)
                   | [] => ceil_seconds (rc_now c + windowMs) end
                 = ceil_seconds (match recent with e :: _ => re_timestamp e | [] => rc_now c end + windowMs))
    by by destruct recent.
  rewrite Hreset. destruct (Z.leb_spec maxRequests (Z.of_nat (length recent)));
    destruct (Z.ltb_spec (Z.of_nat (length recent)) maxRequests); try lia; cbn [fst snd rl_allowed].
  - split; [done|]. eapply agree_stored; [exact Ha'|apply jkeys_jset_NoDup, Ha'|]. intros k. unfold stored.
    rewrite jget_jset. case_decide; subst; [right|by left]. cbn. by rewrite Hwin.
  - split; [f_equal; lia|]. unfold entry_of. apply agree_append; [done|done|right]. unfold stored. by rewrite Hwin.
Qed.

Lemma run_requests_agree cs t m h :
  agree re_timestamp windowMs t m h → requests_admissible t cs h → run_requests cs m = ref_requests cs h.
Proof.
  revert t m h. induction cs as [|c cs IH]; intros t m h Ha; [done|]. cbn [requests_admissible].
  intros (Ht & Hlive & Hrest). apply (agree_later _ windowMs t (rc_now c)) in Ha; [|done].
  destruct (check_request_ok c m h Ha Hlive) as [Hr Ha']. cbn.
  destruct (check_request _ _ _ _ _ _ m) as [r m']. cbn in *. f_equal; [done|by eapply IH].
Qed.

Lemma filter_length_mono {B} (p q : B → bool) l :
  (∀ x, x ∈ l → p x = true → q x = true) → (length (js_filter p l) ≤ length (js_filter q l))%nat.
Proof.
  induction l as [|x l IH]; intros H; cbn; [done|].
  assert (IH' : (length (js_filter p l) ≤ length (js_filter q l))%nat) by (apply IH; intros y Hy; apply H; set_solver).
  pose proof (H x ltac:(set_solver)) as Hx. unfold js_filter in *.
  destruct (p x); [rewrite Hx by done; cbn; lia|]. destruct (q x); cbn; lia.
Qed.

Lemma log_bounded c t h :
  0 ≤ maxRequests → t ≤ rc_now c → (∀ k, Forall (λ e, re_timestamp e ≤ t) (entries_of k h)) →
  (∀ s k, used_at s k h ≤ maxRequests) →
  (∀ k, Forall (λ e, re_timestamp e ≤ rc_now c) (entries_of k (log_request c h))) ∧
  ∀ s k, used_at s k (log_request c h) ≤ maxRequests.
Proof.
  intros Hmax Ht Hold Hb. unfold log_request.
  assert (Hold' : ∀ k, Forall (λ e, re_timestamp e ≤ rc_now c) (entries_of k h)).
  { intros k. eapply Forall_impl; [apply Hold|]. cbn. lia. }
  destruct (rl_allowed (ref_check c h)) eqn:Hal; [|done]. split.
  { intros k. unfold entries_of. rewrite lookup_insert. case_decide; [|apply Hold']. cbn.
    apply Forall_app. split; [apply Hold'|]. constructor; [cbn; lia|constructor]. }
  intros s k. unfold used_at, entries_of. rewrite lookup_insert. case_decide; subst; [|apply Hb].
  change (default [] (Some ?l)) with l. rewrite js_filter_app. specialize (Hb s (rc_key c)). unfold used_at, entries_of in Hb. cbn.
  destruct (in_window re_timestamp windowMs s (entry_of c) && _) eqn:Hin; [|rewrite app_nil_r; exact Hb].
  apply andb_true_iff in Hin as [Hw Hs]. unfold ref_check in Hal. revert Hal.
  set (recent := js_filter _ _). destruct (Z.ltb_spec (Z.of_nat (length recent)) maxRequests); [|discriminate]. intros _.
  rewrite length_app. cbn [length].
  pose proof (filter_length_mono (λ e, in_window re_timestamp windowMs s e && (re_timestamp e <=? s))
    (in_window re_timestamp windowMs (rc_now c)) (entries_of (rc_key c) h)) as Hle.
  fold recent in Hle. unfold entries_of in Hle. enough (length (js_filter (λ e, in_window re_timestamp windowMs s e
    && (re_timestamp e <=? s)%Z) (default [] (h !! rc_key c))) ≤ length recent)%nat by lia.
  apply Hle. intros e _ [He _]%andb_true_iff. unfold in_window in *. cbn in Hs. lia.
Qed.

Lemma allowed_bounded cs t h :
  0 ≤ maxRequests → (∀ k, Forall (λ e, re_timestamp e ≤ t) (entries_of k h)) → (∀ s k, used_at s k h ≤ maxRequests) →
  requests_admissible t cs h → ∀ s k, used_at s k (allowed_log cs h) ≤ maxRequests.
Proof.
  intros Hmax. revert t h. induction cs as [|c cs IH]; intros t h Hold Hb; [done|]. cbn. intros (Ht & _ & Hrest).
  destruct (log_bounded c t h Hmax Ht Hold Hb) as [Hold' Hb']. by eapply IH.
Qed.

(** Under the same condition the request limiter answers as a full log does
    (whether a request is allowed, what remains, when the window resets), and in no
    window are more requests of a key allowed than the limit. *)
Theorem requests_limited cs t :
  0 ≤ maxRequests → requests_admissible t cs ∅ →
  run_requests cs [] = ref_requests cs ∅ ∧ ∀ s k, used_at s k (allowed_log cs ∅) ≤ maxRequests.
Proof.
  intros Hmax Hadm. split; [eapply run_requests_agree; [apply agree_empty|exact Hadm]|].
  eapply allowed_bounded; [done|intros k|intros s k|exact Hadm]; unfold used_at, entries_of; rewrite lookup_empty;
    [constructor|done].
Qed.
End request_props.

(** ** Denial replies, against the log *)

Record DenialCall := mkDenialCall { dc_deleteFails : bool; dc_now : Z; dc_channel : string; dc_source : string }.

(** The table and the log of all replies sent, after the calls. *)
Fixpoint run_denials (cs : list DenialCall) (d : DenialLog) (sent : list DenialRow) : DenialLog * list DenialRow :=
  match cs with
  | [] => (d, sent)
  | c :: cs' =>
      let '(b, d') := recordDenialReplyIfAllowed (dc_deleteFails c) (dc_now c) (dc_channel c) (dc_source c) d in
      run_denials cs' d' (if b then sent ++ [mkDenialRow (dc_channel c) (dc_source c) (dc_now c)] else sent)
  end.

Fixpoint denials_ordered (t : Z) (cs : list DenialCall) : Prop :=
  match cs with [] => True | c :: cs' => t ≤ dc_now c ∧ denials_ordered (dc_now c) cs' end.

(** In the window of a day that ends at [s]. *)
Definition in_day (s : Z) (r : DenialRow) : bool := recent s r && (dr_sentAt r <=? s).

Record denials_ok (now : Z) (d : DenialLog) (sent : list DenialRow) : Prop := {
  do_rows : js_filter (recent now) (dl_rows d) = js_filter (recent now) sent;
  do_past : Forall (λ r, dr_sentAt r ≤ now) sent;
  do_source : ∀ s c a, count_rows (λ r, from_source c a r && in_day s r) sent ≤ DENIAL_REPLY_PER_SOURCE_LIMIT;
  do_global : ∀ s, count_rows (in_day s) sent ≤ DENIAL_REPLY_GLOBAL_LIMIT;
}.

Lemma filter_filter {B} (p q : B → bool) l :
  (∀ x, q x = true → p x = true) → js_filter q (js_filter p l) = js_filter q l.
Proof.
  intros H. induction l as [|x l IH]; cbn; [done|]. destruct (p x) eqn:Hp; cbn.
  - unfold js_filter in *. by rewrite IH.
  - destruct (q x) eqn:Hq; [by rewrite H in Hp|exact IH].
Qed.

Lemma filter_eq_later {B} (p q : B → bool) l l' :
  (∀ x, q x = true → p x = true) → js_filter p l = js_filter p l' → js_filter q l = js_filter q l'.
Proof. intros H Hp. by rewrite <-(filter_filter p q l H), Hp, filter_filter. Qed.

Lemma denials_later now now' d sent : now ≤ now' → denials_ok now d sent → denials_ok now' d sent.
Proof.
  intros Hle [Hr Hp Hs Hg]. split; [|eapply Forall_impl; [exact Hp|cbn; lia]|done..].
  eapply filter_eq_later; [|exact Hr]. intros r. unfold recent. lia.
Qed.

Lemma denials_prune f now d sent : denials_ok now d sent → denials_ok now (maybePrune f now d) sent.
Proof.
  intros [Hr Hp Hs Hg]. unfold maybePrune. destruct (_ <? _); [done|]. split; [|done..]. destruct f; [done|]. cbn.
  rewrite filter_filter; [done|]. intros r. unfold recent. lia.
Qed.

(** A count over the rows of the table that are recent is one over the log. *)
Lemma count_recent now p d sent :
  denials_ok now d sent → count_rows (λ r, p r && recent now r) (dl_rows d) = count_rows (λ r, p r && recent now r) sent.
Proof.
  intros [Hr _ _ _]. unfold count_rows. f_equal. f_equal. eapply filter_eq_later; [|exact Hr]. cbn. intros r. apply andb_true_iff.
Qed.

Lemma count_mono p q l : (∀ r, r ∈ l → p r = true → q r = true) → count_rows p l ≤ count_rows q l.
Proof. intros H. unfold count_rows. apply inj_le, filter_length_mono, H. Qed.

Lemma count_rows_app p l1 l2 : count_rows p (l1 ++ l2) = count_rows p l1 + count_rows p l2.
Proof. unfold count_rows. rewrite js_filter_app, length_app. lia. Qed.

(** One more reply, when the recent ones of a kind are below the limit. *)
Lemma count_one_more (p : DenialRow → bool) limit now r0 sent s :
  dr_sentAt r0 = now → count_rows (λ r, p r && recent now r) sent < limit →
  count_rows (λ r, p r && in_day s r) sent ≤ limit →
  count_rows (λ r, p r && in_day s r) (sent ++ [r0]) ≤ limit.
Proof.
  intros Hr0 Hlt Hle. rewrite count_rows_app. unfold count_rows at 2. cbn. destruct (p r0 && in_day s r0) eqn:Hin; cbn; [|lia].
  apply andb_true_iff in Hin as [_ Hin].
  assert (Hm : count_rows (λ r, p r && in_day s r) sent ≤ count_rows (λ r, p r && recent now r) sent); [|lia].
  apply count_mono. intros r _ [Hp Hd]%andb_true_iff. rewrite Hp. unfold in_day, recent in *. cbn. lia.
Qed.

Lemma denials_step c d sent t :
  t ≤ dc_now c → denials_ok t d sent →
  let '(b, d') := recordDenialReplyIfAllowed (dc_deleteFails c) (dc_now c) (dc_channel c) (dc_source c) d in
  denials_ok (dc_now c) d' (if b then sent ++ [mkDenialRow (dc_channel c) (dc_source c) (dc_now c)] else sent).
Proof.
  intros Ht H. apply (denials_later t (dc_now c)), (denials_prune (dc_deleteFails c)) in H; [|done].
  unfold recordDenialReplyIfAllowed. set (d1 := maybePrune _ _ d) in *.
  destruct (Z.leb_spec DENIAL_REPLY_PER_SOURCE_LIMIT
    (count_rows (λ r, from_source (dc_channel c) (dc_source c) r && recent (dc_now c) r) (dl_rows d1))); [done|].
  destruct (Z.leb_spec DENIAL_REPLY_GLOBAL_LIMIT (count_rows (recent (dc_now c)) (dl_rows d1))); [done|].
  rewrite (count_recent _ _ _ sent H) in *.
  assert (Hglobal : count_rows (λ r, true && recent (dc_now c) r) sent < DENIAL_REPLY_GLOBAL_LIMIT)
    by (rewrite <-(count_recent _ (λ _, true) d1 sent H); done).
  destruct H as [Hr Hp Hs Hg]. set (r0 := mkDenialRow _ _ _). split; cbn.
  - by rewrite !js_filter_app, Hr.
  - apply Forall_app. split; [done|]. constructor; [cbn; lia|constructor].
  - intros s ch a. destruct (from_source ch a r0) eqn:Hsrc.
    + unfold from_source, eqs in Hsrc. apply andb_true_iff in Hsrc as [Hch Ha].
      apply bool_decide_eq_true in Hch, Ha. cbn in Hch, Ha. subst ch a. by apply (count_one_more _ _ (dc_now c)).
    + rewrite count_rows_app. specialize (Hs s ch a). unfold count_rows at 2. cbn. rewrite Hsrc. cbn. lia.
  - intros s. by apply (count_one_more (λ _, true) _ (dc_now c)); [..|apply Hg].
Qed.

Lemma run_denials_ok cs t d sent :
  denials_ordered t cs → denials_ok t d sent → ∃ now, denials_ok now (run_denials cs d sent).1 (run_denials cs d sent).2.
Proof.
  revert t d sent. induction cs as [|c cs IH]; intros t d sent; cbn; [by exists t|].
  intros [Ht Hrest] H. pose proof (denials_step c d sent t Ht H) as Hstep.
  destruct (recordDenialReplyIfAllowed _ _ _ _ d) as [b d']. by eapply IH.
Qed.

(** In no day (both ends included) are more than three denial replies sent to one
    source, nor more than fifty in all, whether or not pruning the table fails. *)
Theorem denial_replies_limited cs t :
  denials_ordered t cs →
  let sent := (run_denials cs (mkDenialLog [] 0) []).2 in
  (∀ s c a, count_rows (λ r, from_source c a r && in_day s r) sent ≤ DENIAL_REPLY_PER_SOURCE_LIMIT) ∧
  ∀ s, count_rows (in_day s) sent ≤ DENIAL_REPLY_GLOBAL_LIMIT.
Proof.
  intros Hord. destruct (run_denials_ok cs t (mkDenialLog [] 0) [] Hord) as (now & [_ _ Hs Hg]); [by split; [|constructor|..]|done].
Qed.

(** ** Witnesses *)

Definition demo_failures : list FailureCall :=
  [attempt_failed 10 "a"; attempt_failed 20 "a"; attempt_checked 30 "a"; attempt_failed 40 "b"; attempt_checked 111 "a"].

(** For example: two failures block, and one of them has expired later. *)
Lemma failures_blocked_exactly_witness :
  run_failures 2 100 5 demo_failures [] = [true; false] ∧ run_failures 2 100 5 demo_failures [] = ref_failures 2 100 demo_failures ∅.
Proof.
  split; [vm_compute; reflexivity|].
  apply (failures_blocked_exactly 2 100 5 demo_failures 0); [reflexivity|].
  vm_compute. repeat split; try discriminate; lia.
Defined.

Definition demo_requests : list RequestCall :=
  [mkRequestCall 10 "a" None; mkRequestCall 20 "a" None; mkRequestCall 30 "b" None; mkRequestCall 115 "a" None].

(** For example: the second request of the window is refused. *)
Lemma requests_limited_witness :
  rl_allowed <$> run_requests 1 100 5 demo_requests [] = [true; false; true; true] ∧
  used_at 100 115 "a" (allowed_log 1 100 demo_requests ∅) ≤ 1.
Proof.
  split; [vm_compute; reflexivity|].
  apply (requests_limited 1 100 5 demo_requests 0); [discriminate|].
  vm_compute. repeat split; try discriminate; lia.
Defined.

Definition demo_denials : list DenialCall :=
  [mkDenialCall false 1 "sms" "x"; mkDenialCall false 2 "sms" "x"; mkDenialCall true 3 "sms" "x"; mkDenialCall false 4 "sms" "x"].

(** For example: the fourth reply is not sent. *)
Lemma denial_replies_limited_witness :
  length (run_denials demo_denials (mkDenialLog [] 0) []).2 = 3%nat ∧
  count_rows (in_day 4) (run_denials demo_denials (mkDenialLog [] 0) []).2 ≤ DENIAL_REPLY_GLOBAL_LIMIT.
Proof.
  split; [vm_compute; reflexivity|].
  apply (denial_replies_limited demo_denials 0). vm_compute. repeat split; discriminate.
Defined.
