(* ===== verification/ApprovalPolicy.v ===== *)
(** * The approval policy

    [DefaultApprovalPolicy] of src/assistant/src/permissions/approval-policy.ts:
    whether a tool call runs at once, is put before the user, or is refused.

    The policy is a chain of early returns; the theorems show what it amounts to.
    Risk levels and thresholds are the values of their types, so the fallbacks of
    the ordinal tables for other strings do not arise. *)
From S2P Require Import Prelude.

Inductive RiskLevel := Low | Medium | High.
#[global] Instance RiskLevel_eq_dec : EqDecision RiskLevel.
Proof. solve_decision. Defined.

Inductive RuleDecision := rule_allow | rule_deny | rule_ask.
#[global] Instance RuleDecision_eq_dec : EqDecision RuleDecision.
Proof. solve_decision. Defined.

Record TrustRule := mkRule {
  tr_id : string;
  tr_tool : string;
  tr_pattern : string;
  tr_decision : RuleDecision;
  tr_priority : Z;
  tr_createdAt : Z;
  tr_scope : option string;
  tr_executionTarget : option string;
  tr_userModifiedAt : option Z;
}.

Inductive ExecutionContext := in_conversation | in_background | in_headless.
#[global] Instance ExecutionContext_eq_dec : EqDecision ExecutionContext.
Proof. solve_decision. Defined.

Inductive OwnerKind := owner_skill | owner_mcp | owner_plugin | owner_workspace.
#[global] Instance OwnerKind_eq_dec : EqDecision OwnerKind.
Proof. solve_decision. Defined.

Inductive RiskThreshold := up_to_none | up_to_low | up_to_medium | up_to_high.
#[global] Instance RiskThreshold_eq_dec : EqDecision RiskThreshold.
Proof. solve_decision. Defined.

(** An absent flag is false wherever the policy tests one. *)
Record ApprovalContext := mkApprovalContext {
  ax_riskLevel : RiskLevel;
  ax_toolName : string;
  ax_matchedRule : option TrustRule;
  ax_isContainerized : bool;
  ax_isWorkspaceScoped : bool;
  ax_executionContext : option ExecutionContext;
  ax_toolOrigin : option OwnerKind;
  ax_isSkillBundled : option bool;
  ax_hasManifestOverride : option bool;
  ax_hasSandboxAutoApprove : option bool;
  ax_isDynamicSkillLoad : option bool;
  ax_autoApproveUpTo : option RiskThreshold;
}.

Definition flag (o : option bool) : bool := default false o.

Definition RISK_ORDINAL (r : RiskLevel) : Z := match r with Low => 0 | Medium => 1 | High => 2 end.
Definition THRESHOLD_ORDINAL (t : RiskThreshold) : Z :=
  match t with up_to_none => -1 | up_to_low => 0 | up_to_medium => 1 | up_to_high => 2 end.

Definition risk_string (r : RiskLevel) : string := match r with Low => "low" | Medium => "medium" | High => "high" end.

Definition AUTONOMOUS_READ_TOOLS : list string := ["web_search"; "recall"].
Definition AUTONOMOUS_WORKSPACE_READ_TOOLS : list string := ["file_read"; "file_list"].
Definition INTERNAL_ORCHESTRATION_TOOLS : list string :=
  ["subagent_spawn"; "subagent_status"; "subagent_message"; "subagent_read"; "subagent_abort"; "notify_parent"].

Definition member (s : string) (l : list string) : bool := bool_decide (s ∈ l).

Definition isRiskWithinThreshold (riskLevel : RiskLevel) (autoApproveUpTo : option RiskThreshold) : bool :=
  RISK_ORDINAL riskLevel <=? THRESHOLD_ORDINAL (default up_to_low autoApproveUpTo).

Inductive Decision3 := allow | prompt | deny.
#[global] Instance Decision3_eq_dec : EqDecision Decision3.
Proof. solve_decision. Defined.

Record ApprovalDecision := mkDecision {
  de_decision : Decision3;
  de_reason : string;
  de_matchedRule : option TrustRule;
}.

Definition rule_is (d : RuleDecision) (r : option TrustRule) : bool :=
  match r with Some r => bool_decide (tr_decision r = d) | None => false end.

Definition rule_pattern (r : option TrustRule) : string := match r with Some r => tr_pattern r | None => "" end.

(** [context.isDynamicSkillLoad === true || matchedRule?.pattern.startsWith(...)] *)
Definition is_dynamic_load (x : ApprovalContext) : bool :=
  flag (ax_isDynamicSkillLoad x)
  || match ax_matchedRule x with
     | Some r => String.prefix "skill_load_dynamic:" (tr_pattern r)
     | None => false
     end.

Definition non_interactive (x : ApprovalContext) : bool :=
  bool_decide (ax_executionContext x = Some in_headless) || bool_decide (ax_executionContext x = Some in_background).

Definition is_autonomous_read (x : ApprovalContext) : bool :=
  member (ax_toolName x) AUTONOMOUS_READ_TOOLS
  || (ax_isWorkspaceScoped x && member (ax_toolName x) AUTONOMOUS_WORKSPACE_READ_TOOLS).

Definition is_third_party_skill (x : ApprovalContext) : bool :=
  ((bool_decide (ax_toolOrigin x = Some owner_skill) || bool_decide (ax_toolOrigin x = Some owner_plugin))
   && negb (flag (ax_isSkillBundled x)))
  || (flag (ax_hasManifestOverride x) && is_null (ax_toolOrigin x)).

(** The part of [evaluate] after the exemptions: ask rules, sandboxed commands,
    allow rules, then the risk. *)
Definition by_rule_or_risk (x : ApprovalContext) : ApprovalDecision :=
  let risk := ax_riskLevel x in
  let rule := ax_matchedRule x in
  let within := isRiskWithinThreshold risk (ax_autoApproveUpTo x) in
  let no_rule := is_null rule in
  if rule_is rule_ask rule
  then
    if within
    then mkDecision allow (risk_string risk +:+ " risk: within auto-approve threshold (ask rule overridden)") None
    else mkDecision prompt ("Matched ask rule: " +:+ rule_pattern rule) rule
  else if eqs (ax_toolName x) "bash" && flag (ax_hasSandboxAutoApprove x)
          && negb (bool_decide (ax_autoApproveUpTo x = Some up_to_none))
  then mkDecision allow "Workspace filesystem operation (sandbox auto-approve)" None
  else if negb no_rule && negb (bool_decide (risk = High))
  then mkDecision allow ("Matched trust rule: " +:+ rule_pattern rule) rule
  else if no_rule && is_third_party_skill x
  then
    if within
    then mkDecision allow (risk_string risk +:+ " risk: within auto-approve threshold (skill tool)") None
    else mkDecision prompt "Skill tool: requires approval by default" None
  else if no_rule && bool_decide (risk = Low) && ax_isWorkspaceScoped x && within
  then mkDecision allow "Workspace-scoped low-risk operation auto-allowed" None
  else if no_rule && bool_decide (risk = Low) && bool_decide (ax_toolOrigin x = Some owner_skill)
          && flag (ax_isSkillBundled x) && within
  then mkDecision allow "Bundled skill tool: low risk, auto-allowed" None
  else if within
  then mkDecision allow (risk_string risk +:+ " risk: within auto-approve threshold") None
  else mkDecision prompt (risk_string risk +:+ " risk: above auto-approve threshold") None.

Definition evaluate (x : ApprovalContext) : ApprovalDecision :=
  let tool := ax_toolName x in
  let rule := ax_matchedRule x in
  if rule_is rule_deny rule
  then mkDecision deny ("Blocked by deny rule: " +:+ rule_pattern rule) rule
  else if member tool INTERNAL_ORCHESTRATION_TOOLS
  then mkDecision allow "Internal subagent orchestration does not require approval" None
  else if eqs tool "skill_load" && negb (is_dynamic_load x)
  then mkDecision allow "Skill discovery and installation do not require approval" None
  else if eqs tool "brand_brain_read"
  then mkDecision allow "Read-only Brand Brain context does not require approval" None
  else if non_interactive x && is_autonomous_read x
  then mkDecision allow "Read-only operation allowed for non-interactive research" None
  else by_rule_or_risk x.

(** ** What the policy amounts to *)

(** Tools that never need an approval, whatever their risk. *)
Definition exempt (x : ApprovalContext) : bool :=
  member (ax_toolName x) INTERNAL_ORCHESTRATION_TOOLS
  || (eqs (ax_toolName x) "skill_load" && negb (is_dynamic_load x))
  || eqs (ax_toolName x) "brand_brain_read"
  || (non_interactive x && is_autonomous_read x).

(** Calls above the threshold that run all the same: sandboxed shell commands,
    unless everything is to be approved, and calls of less than high risk that a
    rule allows. *)
Definition waived (x : ApprovalContext) : bool :=
  (eqs (ax_toolName x) "bash" && flag (ax_hasSandboxAutoApprove x)
   && negb (bool_decide (ax_autoApproveUpTo x = Some up_to_none)))
  || (rule_is rule_allow (ax_matchedRule x) && negb (bool_decide (ax_riskLevel x = High))).

Definition reference_decision (x : ApprovalContext) : Decision3 :=
  if rule_is rule_deny (ax_matchedRule x) then deny
  else if exempt x || isRiskWithinThreshold (ax_riskLevel x) (ax_autoApproveUpTo x)
          || (negb (rule_is rule_ask (ax_matchedRule x)) && waived x)
  then allow else prompt.

Definition with_threshold (t : RiskThreshold) (x : ApprovalContext) : ApprovalContext :=
  mkApprovalContext (ax_riskLevel x) (ax_toolName x) (ax_matchedRule x) (ax_isContainerized x)
    (ax_isWorkspaceScoped x) (ax_executionContext x) (ax_toolOrigin x) (ax_isSkillBundled x)
    (ax_hasManifestOverride x) (ax_hasSandboxAutoApprove x) (ax_isDynamicSkillLoad x) (Some t).

(** The steps of [evaluate] amount to the reference: those on third-party and
    bundled skills and on the workspace only repeat the outcome of the last. *)
Lemma evaluate_reference x : de_decision (evaluate x) = reference_decision x.
Proof.
  unfold evaluate, by_rule_or_risk, reference_decision, exempt, waived.
  set (within := isRiskWithinThreshold _ _). set (orch := member _ INTERNAL_ORCHESTRATION_TOOLS).
  set (plain_load := eqs _ "skill_load" && _). set (brand := eqs _ "brand_brain_read").
  set (read := non_interactive x && _). set (sandbox := eqs _ "bash" && _ && _).
  set (third := is_third_party_skill x).
  destruct orch, plain_load, brand, read; cbn [orb]; try by destruct (rule_is rule_deny _).
  destruct (ax_matchedRule x) as [r|]; cbn [rule_is is_null negb andb].
  - destruct (tr_decision r); cbn [bool_decide decide negb andb orb];
      destruct within, sandbox, (bool_decide (ax_riskLevel x = High)); reflexivity.
  - destruct within, sandbox, third; cbn [andb orb negb]; rewrite ?andb_false_r, ?andb_true_r; try reflexivity;
      by repeat case_match.
Qed.

Lemma within_threshold_mono r t t' :
  THRESHOLD_ORDINAL t ≤ THRESHOLD_ORDINAL t' →
  isRiskWithinThreshold r (Some t) = true → isRiskWithinThreshold r (Some t') = true.
Proof. unfold isRiskWithinThreshold. cbn. rewrite !Z.leb_le. lia. Qed.

(** * Claims *)

(** The policy, for every context: a deny rule refuses; otherwise a call runs
    without asking exactly if its tool is exempt, its risk is within the
    threshold, or no rule asks and it is a sandboxed command or a call of less
    than high risk that a rule allows; everything else is put before the user.
    The steps for skills, bundled skills and the workspace change no decision. *)
Theorem approval_decision x :
  de_decision (evaluate x) = reference_decision x ∧
  (de_decision (evaluate x) = deny ↔ rule_is rule_deny (ax_matchedRule x) = true).
Proof.
  rewrite evaluate_reference. split; [done|]. unfold reference_decision.
  destruct (rule_is rule_deny _); [done|]. by destruct (_ || _).
Qed.

(** Raising the threshold never takes a permission away: a call allowed at a
    threshold is allowed at every higher one. *)
Theorem approval_monotone x t t' :
  THRESHOLD_ORDINAL t ≤ THRESHOLD_ORDINAL t' →
  de_decision (evaluate (with_threshold t x)) = allow → de_decision (evaluate (with_threshold t' x)) = allow.
Proof.
  intros Hle. rewrite !evaluate_reference. unfold reference_decision.
  change (rule_is rule_deny (ax_matchedRule (with_threshold t x))) with (rule_is rule_deny (ax_matchedRule x)).
  change (rule_is rule_deny (ax_matchedRule (with_threshold t' x))) with (rule_is rule_deny (ax_matchedRule x)).
  destruct (rule_is rule_deny (ax_matchedRule x)); [done|]. intros Ha.
  match goal with |- (if ?b then _ else _) = _ => enough (b = true) as ->; [done|] end.
  destruct (_ || _) eqn:Hb in Ha; [|done]. clear Ha. apply orb_true_iff in Hb as [Hb|Hb].
  - apply orb_true_iff in Hb as [Hb|Hb].
    + change (exempt (with_threshold t' x)) with (exempt (with_threshold t x)). by rewrite Hb.
    + cbn in Hb |- *. rewrite (within_threshold_mono _ t t') by done. by rewrite orb_true_r.
  - apply andb_true_iff in Hb as [Hask Hw]. cbn in Hask. cbn [with_threshold ax_matchedRule]. rewrite Hask. cbn [andb].
    enough (Hw' : waived (with_threshold t' x) = true) by (rewrite Hw'; by rewrite orb_true_r).
    unfold waived in *. cbn in *. rewrite orb_true_iff in Hw |- *. destruct Hw as [Hw|Hw]; [left|by right].
    rewrite !andb_true_iff in Hw |- *. destruct Hw as [[H1 H2] H3]. split_and!; [done..|].
    rewrite negb_true_iff, bool_decide_eq_false in H3 |- *. intros [= ->]. destruct t; cbn in Hle; [done|lia..].
Qed.

(** A command of medium risk. *)
Definition demo_call : ApprovalContext :=
  mkApprovalContext Medium "host_bash" None false true None None None None None None None.

(** An instance. *)
Lemma approval_monotone_witness :
  de_decision (evaluate demo_call) = prompt ∧
  de_decision (evaluate (with_threshold up_to_medium demo_call)) = allow ∧
  de_decision (evaluate (with_threshold up_to_high demo_call)) = allow.
Proof.
  split; [vm_compute; reflexivity|]. split; [vm_compute; reflexivity|].
  apply (approval_monotone demo_call up_to_medium up_to_high); [cbn; lia|vm_compute; reflexivity].
Defined.
