(* ===== verification/Regex.v ===== *)
(** * Regular expressions

    The part of the language's [RegExp] that the gateway's risk rules use: the
    pattern syntax, parsed by [compile], and [test].  Back-references, braces,
    character classes in brackets, lazy quantifiers and look-behind are not in the
    subset; [compile] answers [None] for them, and RegistryProps.v shows that no
    pattern of the command registry needs them.

    A position of a subject string is the code unit before it and what follows it.
    [matches] is the denotation of a pattern: the positions it may lead to.  [run]
    is the backtracking search with a continuation, and [run_matches] says that they
    agree; groups capture nothing since [test] only tells whether there is a match. *)
From S2P Require Import Prelude JsText.

Definition Pos : Type := option ascii * string.

Inductive Regex :=
  | re_empty
  | re_char (p : ascii → bool)
  | re_start
  | re_end
  | re_word_boundary (negated : bool)
  | re_seq (r1 r2 : Regex)
  | re_alt (r1 r2 : Regex)
  | re_opt (r : Regex)
  | re_star (r : Regex)
  | re_plus (r : Regex)
  | re_look (negated : bool) (r : Regex).

(** [\w] and a boundary between a word character and another, [\b]. *)
Definition is_word (c : ascii) : bool :=
  let n := nat_of_ascii c in
  ((48 <=? n) && (n <=? 57) || (65 <=? n) && (n <=? 90) || (97 <=? n) && (n <=? 122) || (n =? 95))%nat.
Definition word_before (p : Pos) : bool := match p.1 with Some c => is_word c | None => false end.
Definition word_after (p : Pos) : bool := match p.2 with String c _ => is_word c | "" => false end.
Definition at_boundary (p : Pos) : bool := xorb (word_before p) (word_after p).

(** ** Denotation *)
Fixpoint matches (r : Regex) (p q : Pos) : Prop :=
  match r with
  | re_empty => q = p
  | re_char f => ∃ c s, p.2 = String c s ∧ f c = true ∧ q = (Some c, s)
  | re_start => p.1 = None ∧ q = p
  | re_end => p.2 = "" ∧ q = p
  | re_word_boundary n => xorb n (at_boundary p) = true ∧ q = p
  | re_seq a b => ∃ m, matches a p m ∧ matches b m q
  | re_alt a b => matches a p q ∨ matches b p q
  | re_opt a => q = p ∨ matches a p q
  | re_star a => rtc (matches a) p q
  | re_plus a => tc (matches a) p q
  | re_look n a => q = p ∧ (if n then ¬ ∃ m, matches a p m else ∃ m, matches a p m)
  end.

(** ** Search *)

(** A repetition goes on only after an iteration that has advanced. *)
Fixpoint repeat (f : Pos → (Pos → bool) → bool) (fuel : nat) (p : Pos) (k : Pos → bool) : bool :=
  k p || match fuel with
         | O => false
         | S fuel' => f p (λ q, (String.length q.2 <? String.length p.2)%nat && repeat f fuel' q k)
         end.

Fixpoint run (r : Regex) (p : Pos) (k : Pos → bool) : bool :=
  match r with
  | re_empty => k p
  | re_char f => match p.2 with String c s => f c && k (Some c, s) | "" => false end
  | re_start => is_null p.1 && k p
  | re_end => String.eqb p.2 "" && k p
  | re_word_boundary n => xorb n (at_boundary p) && k p
  | re_seq a b => run a p (λ m, run b m k)
  | re_alt a b => run a p k || run b p k
  | re_opt a => k p || run a p k
  | re_star a => repeat (run a) (String.length p.2) p k
  | re_plus a => run a p (λ q, repeat (run a) (String.length q.2) q k)
  | re_look n a => xorb n (run a p (λ _, true)) && k p
  end.

(** [new RegExp(r).test(s)]: a match at some position. *)
Fixpoint test_from (r : Regex) (before : option ascii) (s : string) : bool :=
  run r (before, s) (λ _, true)
  || match s with String c s' => test_from r (Some c) s' | "" => false end.
Definition test (r : Regex) (s : string) : bool := test_from r None s.

(** ** Syntax *)

Inductive GroupKind := plain_group | look_group (negated : bool).

(** An open group: its kind, the alternatives read before it, the terms before it. *)
Record Frame := mkFrame { fr_kind : GroupKind; fr_alts : list Regex; fr_terms : list (Regex * bool) }.

(** The terms of an alternative are kept in reverse, with whether a quantifier may
    follow. *)
Definition seq_of (terms : list (Regex * bool)) : Regex :=
  foldl (λ r t, re_seq t.1 r) re_empty terms.
Definition alt_of (alts : list Regex) (terms : list (Regex * bool)) : Regex :=
  foldl (λ r a, re_alt a r) (seq_of terms) alts.

Definition quantified (q : Regex → Regex) (terms : list (Regex * bool)) : option (list (Regex * bool)) :=
  match terms with
  | (t, true) :: ts => Some ((q t, false) :: ts)
  | _ => None
  end.

Definition char_is (c d : ascii) : bool := bool_decide (c = d).
Definition is_digit_char (c : ascii) : bool := let n := nat_of_ascii c in ((48 <=? n) && (n <=? 57))%nat.
(** [.]: everything but a line terminator. *)
Definition not_line_end (c : ascii) : bool := let n := nat_of_ascii c in negb ((n =? 10) || (n =? 13))%nat.

(** What [\c] stands for. *)
Definition escape (c : ascii) : option (Regex * bool) :=
  match c with
  | "b"%char => Some (re_word_boundary false, false)
  | "B"%char => Some (re_word_boundary true, false)
  | "s"%char => Some (re_char is_space, true)
  | "S"%char => Some (re_char (λ c, negb (is_space c)), true)
  | "d"%char => Some (re_char is_digit_char, true)
  | "D"%char => Some (re_char (λ c, negb (is_digit_char c)), true)
  | "w"%char => Some (re_char is_word, true)
  | "W"%char => Some (re_char (λ c, negb (is_word c)), true)
  | _ => if is_word c then None else Some (re_char (char_is c), true)
  end.

Fixpoint parse (stack : list Frame) (alts : list Regex) (terms : list (Regex * bool)) (s : string) : option Regex :=
  match s with
  | "" => match stack with [] => Some (alt_of alts terms) | _ :: _ => None end
  | String "(" (String "?" (String ":" s')) => parse (mkFrame plain_group alts terms :: stack) [] [] s'
  | String "(" (String "?" (String "!" s')) => parse (mkFrame (look_group true) alts terms :: stack) [] [] s'
  | String "(" (String "?" (String "=" s')) => parse (mkFrame (look_group false) alts terms :: stack) [] [] s'
  | String "(" (String "?" _) => None
  | String "(" s' => parse (mkFrame plain_group alts terms :: stack) [] [] s'
  | String ")" s' =>
      match stack with
      | mkFrame plain_group alts' terms' :: st => parse st alts' ((alt_of alts terms, true) :: terms') s'
      | mkFrame (look_group n) alts' terms' :: st => parse st alts' ((re_look n (alt_of alts terms), false) :: terms') s'
      | [] => None
      end
  | String "|" s' => parse stack (seq_of terms :: alts) [] s'
  | String "*" s' => quantified re_star terms ≫= λ ts, parse stack alts ts s'
  | String "+" s' => quantified re_plus terms ≫= λ ts, parse stack alts ts s'
  | String "?" s' => quantified re_opt terms ≫= λ ts, parse stack alts ts s'
  | String "^" s' => parse stack alts ((re_start, false) :: terms) s'
  | String "$" s' => parse stack alts ((re_end, false) :: terms) s'
  | String "." s' => parse stack alts ((re_char not_line_end, true) :: terms) s'
  | String "\" (String c s') => escape c ≫= λ t, parse stack alts (t :: terms) s'
  | String "\" "" => None
  | String "[" _ | String "]" _ | String "{" _ | String "}" _ => None
  | String c s' => parse stack alts ((re_char (char_is c), true) :: terms) s'
  end.

(** [new RegExp(pattern)]; [None] outside the subset. *)
Definition compile (pattern : string) : option Regex := parse [] [] [] pattern.

(** ** The search finds what the denotation says *)

(** No pattern moves backwards. *)
Lemma matches_shorter r p q : matches r p q → (String.length q.2 ≤ String.length p.2)%nat.
Proof.
  revert p q. induction r as [|f| | |n|a IHa b IHb|a IHa b IHb|a IHa|a IHa|a IHa|n a IHa]; intros p q; cbn.
  - by intros ->.
  - intros (c & s & Hp & _ & ->). rewrite Hp. cbn. lia.
  - by intros [_ ->].
  - by intros [_ ->].
  - by intros [_ ->].
  - intros (m & H1%IHa & H2%IHb). lia.
  - intros [H%IHa|H%IHb]; lia.
  - intros [->|H%IHa]; lia.
  - induction 1 as [|x y z Hxy _ IH]; [lia|]. apply IHa in Hxy. lia.
  - induction 1 as [x y Hxy|x y z Hxy _ IH]; apply IHa in Hxy; lia.
  - by intros [-> _].
Qed.

Lemma pos_length_eq r p q : matches r p q → String.length q.2 = String.length p.2 → q = p.
Proof.
  revert p q. induction r as [|f| | |n|a IHa b IHb|a IHa b IHb|a IHa|a IHa|a IHa|n a IHa]; intros p q; cbn.
  - done.
  - intros (c & s & Hp & _ & ->). rewrite Hp. cbn. lia.
  - by intros [_ ->].
  - by intros [_ ->].
  - by intros [_ ->].
  - intros (m & H1 & H2) Hl. pose proof (matches_shorter _ _ _ H1). pose proof (matches_shorter _ _ _ H2).
    rewrite (IHb _ _ H2) by lia. apply IHa; [done|lia].
  - intros [H|H]; auto.
  - intros [->|H]; auto.
  - induction 1 as [|x y z Hxy Hyz IH]; [done|]. intros Hl. pose proof (matches_shorter _ _ _ Hxy).
    pose proof (matches_shorter (re_star a) y z Hyz). rewrite IH by lia. apply IHa; [done|lia].
  - induction 1 as [x y Hxy|x y z Hxy Hyz IH]; [by apply IHa|]. intros Hl. pose proof (matches_shorter _ _ _ Hxy).
    pose proof (matches_shorter (re_plus a) y z Hyz). rewrite IH by lia. apply IHa; [done|lia].
  - by intros [-> _].
Qed.

Definition finds (f : Pos → (Pos → bool) → bool) (R : Pos → Pos → Prop) : Prop :=
  ∀ p k, f p k = true ↔ ∃ q, R p q ∧ k q = true.

Lemma repeat_finds a (f : Pos → (Pos → bool) → bool) fuel p k :
  finds f (matches a) → (String.length p.2 ≤ fuel)%nat →
  repeat f fuel p k = true ↔ ∃ q, rtc (matches a) p q ∧ k q = true.
Proof.
  intros Hf. revert p. induction fuel as [|fuel IH]; intros p Hl; cbn; rewrite orb_true_iff.
  - split.
    + intros [H|H]; [|done]. by exists p.
    + intros (q & Hq & Hk). left. assert (q = p) as ->; [|done].
      apply (pos_length_eq (re_star a) p q Hq). pose proof (matches_shorter (re_star a) p q Hq). lia.
  - split.
    + intros [H|H]; [by exists p|]. apply Hf in H as (m & Hm & [Hlt%Nat.ltb_lt Hr]%andb_true_iff).
      apply IH in Hr as (q & Hq & Hk); [|lia]. exists q. split; [by eapply rtc_l|done].
    + intros (q & Hq & Hk). induction Hq as [|x y z Hxy Hyz IHq]; [by left|].
      pose proof (matches_shorter _ _ _ Hxy) as Hle.
      destruct (decide (String.length y.2 = String.length x.2)) as [He|Hne].
      * apply (pos_length_eq _ _ _ Hxy) in He as ->. by apply IHq.
      * right. apply Hf. exists y. split; [done|]. apply andb_true_iff. split; [apply Nat.ltb_lt; lia|].
        apply IH; [lia|]. by exists z.
Qed.

Lemma run_matches r : finds (run r) (matches r).
Proof.
  induction r as [|f| | |n|a IHa b IHb|a IHa b IHb|a IHa|a IHa|a IHa|n a IHa]; intros p k; cbn.
  - by split; [intros; exists p|intros (q & -> & ?)].
  - destruct p as [o [|c s]]; cbn; [by split; [|intros (q & (? & ? & ? & _) & _)]|].
    rewrite andb_true_iff. split.
    + intros [H1 H2]. exists (Some c, s). split; [by eauto|done].
    + intros (q & (c' & s' & [= <- <-] & Hf & ->) & Hk). done.
  - rewrite andb_true_iff, is_null_true. by split; [intros [??]; exists p|intros (q & [? ->] & ?)].
  - rewrite andb_true_iff, String.eqb_eq. by split; [intros [??]; exists p|intros (q & [? ->] & ?)].
  - rewrite andb_true_iff. by split; [intros [??]; exists p|intros (q & [? ->] & ?)].
  - rewrite (IHa p). split.
    + intros (m & Hm & H). apply IHb in H as (q & Hq & Hk). exists q. split; [by exists m|done].
    + intros (q & (m & Hm & Hq) & Hk). exists m. split; [done|]. apply IHb. by exists q.
  - rewrite orb_true_iff, (IHa p), (IHb p). split.
    + intros [(q & ? & ?)|(q & ? & ?)]; exists q; auto.
    + intros (q & [?|?] & ?); [left|right]; by exists q.
  - rewrite orb_true_iff, (IHa p). split.
    + intros [?|(q & ? & ?)]; [exists p|exists q]; auto.
    + intros (q & [->|?] & ?); [by left|right; by exists q].
  - by apply repeat_finds.
  - rewrite (IHa p). split.
    + intros (m & Hm & H). apply (repeat_finds a) in H as (q & Hq & Hk); [|done|done].
      exists q. split; [by eapply tc_rtc_r; [apply tc_once|]|done].
    + intros (q & Hq & Hk). inversion Hq as [x y Hxy|x y z Hxy Hyz]; subst.
      * exists q. split; [done|]. apply (repeat_finds a); [done|done|]. by exists q.
      * exists y. split; [done|]. apply (repeat_finds a); [done|done|]. exists q. split; [by apply tc_rtc|done].
  - rewrite andb_true_iff. pose proof (IHa p (λ _, true)) as Hl. split.
    + intros [Hx Hk]. exists p. split; [split; [done|]|done]. destruct n; cbn in Hx.
      * intros (m & Hm). by rewrite (proj2 Hl (ex_intro _ m (conj Hm eq_refl))) in Hx.
      * destruct (proj1 Hl Hx) as (m & Hm & _). by exists m.
    + intros (q & [-> Hx] & Hk). split; [|done]. destruct n; cbn.
      * apply negb_true_iff, not_true_iff_false. intros (m & Hm & _)%Hl. apply Hx. by exists m.
      * apply Hl. destruct Hx as [m Hm]. by exists m.
Qed.

Lemma run_any r p : run r p (λ _, true) = true ↔ ∃ q, matches r p q.
Proof. rewrite (run_matches r p). split; [intros (q & ? & _)|intros (q & ?)]; by exists q. Qed.
