(* ===== verification/NodePath.v ===== *)
(** * POSIX paths

    The functions of [node:path] the gateway uses, on POSIX: [resolve], [join],
    [dirname], [basename] and [isAbsolute].  The home directory, the current directory
    and what exists on disk are those of the host: the class [Host]. *)
From S2P Require Import Prelude JsText.

Class Host := {
  homedir : string;
  process_cwd : string;
  existsSync : string → bool;
  (** [statSync(p).isDirectory()], false where it throws *)
  is_directory : string → bool;
}.

Definition isAbsolute (p : string) : bool := startsWith p "/".

(** The segments of a path: empty ones and ["."] go, [".."] takes the one before it
    away, or stays in front of a relative path. *)
Fixpoint normalize_onto (allowAboveRoot : bool) (acc segs : list string) : list string :=
  match segs with
  | [] => rev acc
  | s :: segs' =>
      if eqs s "" || eqs s "." then normalize_onto allowAboveRoot acc segs'
      else if eqs s ".." then
        match acc with
        | a :: acc' => if eqs a ".." then normalize_onto allowAboveRoot (".." :: acc) segs'
                       else normalize_onto allowAboveRoot acc' segs'
        | [] => normalize_onto allowAboveRoot (if allowAboveRoot then [".."] else []) segs'
        end
      else normalize_onto allowAboveRoot (s :: acc) segs'
  end.
Definition normalizeString (path : string) (allowAboveRoot : bool) : string :=
  js_join "/" (normalize_onto allowAboveRoot [] (js_split "/" path)).

Definition normalize (path : string) : string :=
  if negb (truthy path) then "." else
  let absolute := isAbsolute path in
  let trailing := endsWith path "/" in
  let p := normalizeString path (negb absolute) in
  if negb (truthy p) then (if absolute then "/" else if trailing then "./" else ".")
  else let p := if trailing then p +:+ "/" else p in if absolute then "/" +:+ p else p.

(** [join(...paths)] *)
Definition path_join (paths : list string) : string :=
  match js_filter truthy paths with [] => "." | ps => normalize (js_join "/" ps) end.

Section host.
Context {host : Host}.

(** From the right, up to an absolute path; the current directory ends the list. *)
Fixpoint resolve_onto (paths : list string) (tail : string) : string :=
  match paths with
  | [] => tail
  | p :: ps =>
      if negb (truthy p) then resolve_onto ps tail
      else let joined := p +:+ "/" +:+ tail in
           if isAbsolute p then joined else resolve_onto ps joined
  end.

(** [resolve(...paths)] *)
Definition resolve (paths : list string) : string :=
  "/" +:+ normalizeString (resolve_onto (rev (process_cwd :: paths)) "") false.
End host.

(** The loop of [dirname] over the indices from the last down to 1. *)
Fixpoint dirname_end (path : string) (i : nat) (matchedSlash : bool) : option nat :=
  match i with
  | O => None
  | Datatypes.S i' =>
      if bool_decide (String.get i path = Some "/"%char) then
        if matchedSlash then dirname_end path i' true else Some i
      else dirname_end path i' false
  end.
Definition dirname (path : string) : string :=
  if negb (truthy path) then "." else
  let hasRoot := isAbsolute path in
  match dirname_end path (String.length path - 1) true with
  | None => if hasRoot then "/" else "."
  | Some e => if hasRoot && (e =? 1)%nat then "//" else str_take e path
  end.

(** The last segment that is not empty. *)
Definition basename (path : string) : string := default "" (last (js_filter truthy (js_split "/" path))).

(** ** Canonical absolute paths *)

Definition plain_segment (s : string) : Prop := s ≠ "" ∧ s ≠ "." ∧ s ≠ ".." ∧ has_char "/" s = false.

(** The absolute path of a list of segments. *)
Definition path_of (segs : list string) : string := "/" +:+ js_join "/" segs.
Definition canonical (p : string) : Prop := ∃ segs, p = path_of segs ∧ Forall plain_segment segs.

Lemma normalize_onto_plain acc segs :
  Forall (λ s, has_char "/" s = false) segs → Forall plain_segment acc →
  Forall plain_segment (normalize_onto false acc segs).
Proof.
  revert acc. induction segs as [|s segs IH]; intros acc Hs Ha; cbn; [by apply Forall_rev|].
  apply Forall_cons in Hs as [Hs Hss]. unfold eqs.
  destruct (bool_decide_reflect (s = "")); [by apply IH|]. destruct (bool_decide_reflect (s = ".")); [by apply IH|]. cbn.
  destruct (bool_decide_reflect (s = "..")).
  - destruct acc as [|a acc]; [by apply IH|]. apply Forall_cons in Ha as [(?&?&Hd&?) Ha].
    rewrite bool_decide_false by done. by apply IH.
  - apply IH; [done|]. by constructor.
Qed.

(** Normalising a canonical path changes nothing. *)
Lemma normalize_onto_id acc segs : Forall plain_segment segs → normalize_onto false acc segs = rev acc ++ segs.
Proof.
  revert acc. induction segs as [|s segs IH]; intros acc; cbn; [by rewrite app_nil_r|].
  intros [(H1&H2&H3&_) Hss]%Forall_cons. unfold eqs. rewrite !bool_decide_false by done. cbn.
  rewrite IH by done. cbn. by rewrite <- app_assoc.
Qed.

Lemma resolve_canonical {host : Host} paths : canonical (resolve paths).
Proof.
  unfold resolve, normalizeString. eexists. split; [done|]. apply normalize_onto_plain; [|done].
  apply js_split_pieces.
Qed.

Lemma plain_no_slash segs : Forall plain_segment segs → Forall (λ s, has_char "/" s = false) segs.
Proof. intros H. eapply Forall_impl; [exact H|]. by intros s (_&_&_&?). Qed.

Lemma path_of_inj segs segs' : Forall plain_segment segs → Forall plain_segment segs' →
  path_of segs = path_of segs' → segs = segs'.
Proof.
  intros H H' Heq. injection Heq as Heq. change (js_join "/" segs = js_join "/" segs') in Heq.
  destruct segs as [|s segs], segs' as [|s' segs']; [done| | |].
  - exfalso. apply Forall_cons in H' as [(Hne&_) _]. destruct s'; [done|]. by destruct segs'.
  - exfalso. apply Forall_cons in H as [(Hne&_) _]. destruct s; [done|]. by destruct segs.
  - apply (f_equal (js_split "/")) in Heq. rewrite !js_split_join in Heq by (try done; by apply plain_no_slash). done.
Qed.

Lemma js_join_cons c x l : l ≠ [] → js_join c (x :: l) = x +:+ String c (js_join c l).
Proof. by destruct l. Qed.

Lemma append_assoc (a b c : string) : (a +:+ b) +:+ c = a +:+ (b +:+ c).
Proof. induction a as [|x a IH]; [done|]. change (String x ((a +:+ b) +:+ c) = String x (a +:+ (b +:+ c))). by rewrite IH. Qed.

Lemma js_join_app (segs rest : list string) : segs ≠ [] → rest ≠ [] →
  js_join "/" (segs ++ rest) = js_join "/" segs +:+ String "/" (js_join "/" rest).
Proof.
  intros Hne Hr. induction segs as [|s segs IH]; [done|]. destruct segs as [|s' segs]; [by apply js_join_cons|].
  rewrite <- app_comm_cons, js_join_cons, IH, (js_join_cons _ s) by done. by rewrite append_assoc.
Qed.

Lemma normalize_onto_trailing acc l : Forall plain_segment l → normalize_onto false acc (l ++ [""]) = rev acc ++ l.
Proof.
  revert acc. induction l as [|x l IH]; intros acc; cbn; [by rewrite app_nil_r|].
  intros [(H1&H2&H3&_) Hl]%Forall_cons. unfold eqs. rewrite !bool_decide_false by done. cbn.
  rewrite IH by done. cbn. by rewrite <- app_assoc.
Qed.

Lemma normalize_path_of segs : Forall plain_segment segs →
  normalizeString (path_of segs +:+ String "/" "") false = js_join "/" segs.
Proof.
  intros Hsegs. unfold normalizeString. f_equal.
  change (normalize_onto false [] (js_split "/" (js_join "/" segs +:+ String "/" "")) = segs).
  destruct segs as [|s segs]; [done|].
  replace (js_join "/" (s :: segs) +:+ String "/" "") with (js_join "/" ((s :: segs) ++ [""])) by (rewrite js_join_app; done).
  rewrite js_split_join; [by apply (normalize_onto_trailing [])|by destruct segs|].
  apply Forall_app. split; [by apply plain_no_slash|by repeat constructor].
Qed.

(** Resolving a canonical path changes nothing. *)
Lemma resolve_id {host : Host} p : canonical p → resolve [p] = p.
Proof.
  intros (segs & -> & Hsegs). change (resolve [path_of segs]) with ("/" +:+ normalizeString (path_of segs +:+ String "/" "") false).
  by rewrite normalize_path_of.
Qed.

(** ** Paths inside a directory *)

Definition inside (dir p : string) : Prop :=
  ∃ segs more, dir = path_of segs ∧ p = path_of (segs ++ more) ∧ Forall plain_segment (segs ++ more).

Lemma js_split_ne c s : js_split c s ≠ [].
Proof. destruct s as [|d s]; cbn; [done|]. destruct (bool_decide _); [done|]. by destruct (js_split c s). Qed.

Lemma js_split_app_gen c x t : js_split c (x +:+ String c t) = js_split c x ++ js_split c t.
Proof.
  induction x as [|d x IH].
  - change (js_split c (String c t) = [""] ++ js_split c t). cbn. by rewrite bool_decide_true.
  - change (String d x +:+ String c t) with (String d (x +:+ String c t)). cbn. rewrite IH.
    destruct (bool_decide (d = c)); [done|]. pose proof (js_split_ne c x). by destruct (js_split c x).
Qed.

Lemma path_of_nil : path_of [] = "/".
Proof. done. Qed.

Lemma split_path_of segs : segs ≠ [] → Forall plain_segment segs → js_split "/" (js_join "/" segs) = segs.
Proof. intros. apply js_split_join; [done|by apply plain_no_slash]. Qed.

Lemma inside_refl dir : canonical dir → inside dir dir.
Proof. intros (segs & -> & H). exists segs, []. by rewrite app_nil_r. Qed.

Lemma inside_trans a b c : inside a b → inside b c → inside a c.
Proof.
  intros (s1 & m1 & -> & -> & H1) (s2 & m2 & Heq & -> & H2). apply path_of_inj in Heq as <-; [|done|by apply Forall_app in H2 as [? _]].
  exists s1, (m1 ++ m2). rewrite app_assoc. done.
Qed.

Lemma inside_canonical dir p : inside dir p → canonical p.
Proof. intros (segs & more & _ & -> & H). by exists (segs ++ more). Qed.

(** The root with a separator behind it, unless it is the root of the file system. *)
Definition as_prefix (root : string) : string := if endsWith root "/" then root else root +:+ "/".

Lemma last_slash s : s ≠ "" → has_char "/" s = false → endsWith s "/" = false.
Proof.
  intros Hne Hs. unfold endsWith. destruct (String.length "/" <=? String.length s)%nat; [|done]. cbn [andb]. apply bool_decide_eq_false.
  intros H. assert (Hd : ∀ n t, has_char "/" t = false → has_char "/" (str_drop n t) = false).
  { induction n as [|n IH]; intros [|c t] Ht; cbn in *; try done. apply IH. by apply orb_false_iff in Ht as [_ ?]. }
  pose proof (Hd (String.length s - String.length "/")%nat s Hs) as Hn. by rewrite H in Hn.
Qed.

Lemma str_drop_app n s t : str_drop (String.length s + n) (s +:+ t) = str_drop n t.
Proof. induction s as [|c s IH]; [done|]. exact IH. Qed.

Lemma no_trailing_slash s t : t ≠ "" → has_char "/" t = false → endsWith (s +:+ t) "/" = false.
Proof.
  intros Hne Ht. pose proof (last_slash t Hne Ht) as H. unfold endsWith in *. rewrite length_append.
  change (String.length "/") with 1%nat in *. destruct t as [|c t]; [done|]. cbn [String.length] in *.
  rewrite (proj2 (Nat.leb_le _ _)) in H by lia. rewrite (proj2 (Nat.leb_le _ _)) by lia. cbn [andb] in *.
  replace (String.length s + Datatypes.S (String.length t) - 1)%nat with (String.length s + (Datatypes.S (String.length t) - 1))%nat by lia.
  by rewrite str_drop_app.
Qed.

Lemma path_of_snoc segs x : path_of (segs ++ [x]) = (match segs with [] => "" | _ => path_of segs end) +:+ String "/" x.
Proof.
  unfold path_of. destruct segs as [|s segs]; [done|]. rewrite js_join_app by done.
  change (js_join "/" [x]) with x. by rewrite append_assoc.
Qed.

Lemma as_prefix_path_of segs : Forall plain_segment segs →
  as_prefix (path_of segs) = match segs with [] => "/" | _ => path_of segs +:+ "/" end.
Proof.
  intros H. unfold as_prefix. destruct segs as [|s segs]; [done|].
  destruct (exists_last (l := s :: segs)) as (l & x & Hl); [done|]. rewrite Hl in *. clear Hl.
  apply Forall_app in H as [_ [(Hx&_&_&Hs) _]%Forall_cons].
  assert (He : endsWith (path_of (l ++ [x])) "/" = false); [|by rewrite He; destruct l].
  rewrite path_of_snoc. change (String "/" x) with ("/" +:+ x). rewrite <- append_assoc. by apply no_trailing_slash.
Qed.

Lemma startsWith_inside root q : canonical root → canonical q →
  startsWith q (as_prefix root) = true → inside root q.
Proof.
  intros (rs & -> & Hr) (qs & -> & Hq). rewrite as_prefix_path_of by done. destruct rs as [|r rs].
  - intros _. by exists [], qs.
  - intros [t Ht]%startsWith_spec. exists (r :: rs).
    assert (Hsplit : js_join "/" qs = js_join "/" (r :: rs) +:+ String "/" t).
    { unfold path_of in Ht. rewrite append_assoc in Ht. by injection Ht. }
    apply (f_equal (js_split "/")) in Hsplit. rewrite js_split_app_gen, (split_path_of (r :: rs)) in Hsplit by done.
    destruct qs as [|q0 qs]; [exfalso; injection Hsplit as _ He; symmetry in He; apply app_eq_nil in He as [_ He]; by apply js_split_ne in He|]. rewrite split_path_of in Hsplit by done.
    exists (js_split "/" t). rewrite <- Hsplit. done.
Qed.

Lemma inside_startsWith root q : inside root q → q = root ∨ startsWith q (as_prefix root) = true.
Proof.
  intros (rs & more & -> & -> & H). pose proof (proj1 (proj1 (Forall_app _ _ _) H)) as Hr.
  destruct more as [|m more]; [left; by rewrite app_nil_r|right]. rewrite as_prefix_path_of by done.
  destruct rs as [|r rs]; [done|]. unfold path_of. rewrite js_join_app by done.
  apply startsWith_spec. exists (js_join "/" (m :: more)). by rewrite !append_assoc.
Qed.

(** ** [dirname] *)

Lemma get_no_slash s n : has_char "/" s = false → String.get n s ≠ Some "/"%char.
Proof.
  revert n. induction s as [|c s IH]; intros [|n] Hs; cbn in *; try done; apply orb_false_iff in Hs as [Hc Hs]; [|by apply IH].
  apply bool_decide_eq_false in Hc. congruence.
Qed.

Lemma dirname_scan A x i matched : has_char "/" x = false → (i ≤ String.length x)%nat → (1 ≤ String.length A)%nat →
  (0 < i)%nat ∨ matched = false →
  dirname_end (A +:+ String "/" x) (String.length A + i) matched = Some (String.length A).
Proof.
  intros Hx Hi HA. revert matched. induction i as [|i IH]; intros matched Hm.
  - destruct Hm as [?| ->]; [lia|]. rewrite Nat.add_0_r. destruct (String.length A) as [|a] eqn:Ha; [lia|].
    cbn [dirname_end]. rewrite <- Ha, bool_decide_true; [done|].
    pose proof (String.append_correct2 A (String "/" x) 0) as H. cbn in H. by rewrite <- H.
  - rewrite Nat.add_succ_r. cbn [dirname_end]. rewrite bool_decide_false.
    + apply IH; [lia|by right].
    + replace (Datatypes.S (String.length A + i)) with (Datatypes.S i + String.length A)%nat by lia.
      rewrite <- (String.append_correct2 A (String "/" x) (Datatypes.S i)). cbn [String.get].
      by apply get_no_slash.
Qed.

Lemma dirname_none x i matched : has_char "/" x = false → (i ≤ String.length x)%nat →
  dirname_end (String "/" x) i matched = None.
Proof.
  intros Hx. revert matched. induction i as [|i IH]; intros matched Hi; [done|]. cbn [dirname_end].
  rewrite bool_decide_false; [apply IH; lia|]. cbn [String.get].
  by apply get_no_slash.
Qed.

Lemma str_take_app s t : str_take (String.length s) (s +:+ t) = s.
Proof. induction s as [|c s IH]; [by destruct t|]. change (String c s +:+ t) with (String c (s +:+ t)). cbn. by rewrite IH. Qed.

(** The directory of a path is the path without its last segment. *)
Lemma dirname_path_of segs x : Forall plain_segment (segs ++ [x]) → dirname (path_of (segs ++ [x])) = path_of segs.
Proof.
  intros [Hs [(Hx&_&_&Hns) _]%Forall_cons]%Forall_app. rewrite path_of_snoc. unfold dirname.
  destruct segs as [|s segs].
  - change ("" +:+ String "/" x) with (String "/" x). cbn [truthy String.eqb negb String.length].
    rewrite Nat.sub_1_r. cbn [Nat.pred]. by rewrite dirname_none.
  - set (A := path_of (s :: segs)). assert (HA : (2 ≤ String.length A)%nat).
    { unfold A, path_of. apply Forall_cons in Hs as [(Hne&_) _]. rewrite length_append.
      assert (1 ≤ String.length (js_join "/" (s :: segs)))%nat; [|change (String.length "/") with 1%nat; lia].
      destruct s as [|c s]; [done|]. destruct segs; [cbn; lia|]. rewrite js_join_cons by done. rewrite length_append. cbn. lia. }
    assert (Htruthy : truthy (A +:+ String "/" x) = true) by (apply truthy_true; by destruct A). rewrite Htruthy. cbn [negb].
    rewrite length_append. cbn [String.length].
    replace (String.length A + Datatypes.S (String.length x) - 1)%nat with (String.length A + String.length x)%nat by lia.
    rewrite dirname_scan; [|done|lia|lia|left; destruct x; [done|cbn; lia]].
    rewrite (proj2 (Nat.eqb_neq _ _)) by lia. rewrite andb_false_r. apply str_take_app.
Qed.

Lemma dirname_root : dirname "/" = "/".
Proof. done. Qed.

Lemma dirname_inside p : canonical p → inside (dirname p) p.
Proof.
  intros (segs & -> & H). destruct segs as [|s segs] using rev_ind.
  - rewrite path_of_nil, dirname_root. by exists [], [].
  - rewrite dirname_path_of by done. exists segs, [s]. done.
Qed.
