(* ===== verification/RiskTypes.v ===== *)
(** * Risk levels, command specifications and rules

    src/gateway/src/risk/risk-types.ts.  A field that may be absent is an option; an
    absent boolean is false, as every use of one tests it for truth.  A [Record]
    with string keys is a list of entries in order.

    Every JavaScript object inherits the members of [Object.prototype]: [js_member]
    is the property access [obj\[key\]], which finds them, and [jget] is the access
    to own properties only. *)
From S2P Require Import Prelude JsText.

Inductive Risk := low | medium | high | unknown.
#[export] Instance Risk_eq_dec : EqDecision Risk.
Proof. solve_decision. Defined.

Inductive RegistryRisk := r_low | r_medium | r_high.
#[export] Instance RegistryRisk_eq_dec : EqDecision RegistryRisk.
Proof. solve_decision. Defined.

Definition registry_risk (r : RegistryRisk) : Risk :=
  match r with r_low => low | r_medium => medium | r_high => high end.
Coercion registry_risk : RegistryRisk >-> Risk.

Inductive RiskLevel := Low | Medium | High.

Definition riskOrd (risk : Risk) : Z :=
  match risk with low => 0 | medium => 1 | unknown => 2 | high => 3 end.
Definition maxRisk (a b : Risk) : Risk := if riskOrd b <=? riskOrd a then a else b.

Definition riskToRiskLevel (risk : Risk) : RiskLevel :=
  match risk with low => Low | medium => Medium | high => High | unknown => Medium end.

Inductive MatchType := user_rule | registry_match | unknown_match.

Record AllowlistOption := mkAllow { al_label : string; al_description : string; al_pattern : string }.
Record ScopeOption := mkScope { so_pattern : string; so_label : string }.
Record DirectoryScopeOption := mkDirScope { ds_scope : string; ds_label : string }.

Record RiskAssessment := mkAssessment {
  ra_riskLevel : Risk;
  ra_reason : string;
  ra_scopeOptions : list ScopeOption;
  ra_matchType : MatchType;
  ra_allowlistOptions : option (list AllowlistOption);
}.

Inductive BashTool := tool_bash | tool_host_bash.
#[export] Instance BashTool_eq_dec : EqDecision BashTool.
Proof. solve_decision. Defined.
Definition bash_tool_name (t : BashTool) : string :=
  match t with tool_bash => "bash" | tool_host_bash => "host_bash" end.

(** ** Command specifications *)

Record ArgRule := mkArgRule {
  ar_id : string;
  ar_flags : option (list string);
  ar_valuePattern : option string;
  ar_risk : RegistryRisk;
  ar_reason : string;
}.

Inductive PositionalRole := role_path | role_pattern | role_script | role_value | role_command.
#[export] Instance PositionalRole_eq_dec : EqDecision PositionalRole.
Proof. solve_decision. Defined.
Record PositionalDesc := mkPosDesc { pd_role : PositionalRole; pd_rest : bool }.
Inductive Positionals := pos_paths | pos_none | pos_descs (descs : list PositionalDesc).

Record ArgSchema := mkSchema {
  as_valueFlags : option (list string);
  as_positionals : option Positionals;
  as_pathFlags : option (list string);
  as_respectsDoubleDash : option bool;
}.
Definition empty_schema : ArgSchema := mkSchema None None None None.

#[warnings="-register-all"]
Inductive CommandRiskSpec := mkSpec {
  cs_baseRisk : RegistryRisk;
  cs_subcommands : option (list (string * CommandRiskSpec));
  cs_argRules : option (list ArgRule);
  cs_isWrapper : bool;
  cs_nonExecFlags : option (list string);
  cs_complexSyntax : bool;
  cs_reason : option string;
  cs_sandboxAutoApprove : bool;
  cs_filesystemOp : bool;
  cs_argSchema : option ArgSchema;
}.
Definition Registry : Type := list (string * CommandRiskSpec).

Inductive FlagValue := flag_true | flag_value (s : string).
Record ParsedArgs := mkParsedArgs {
  pa_flags : jsmap string FlagValue;
  pa_positionals : list string;
  pa_pathArgs : list string;
  pa_sawDoubleDash : bool;
}.

Record UserRule := mkUserRule { ur_pattern : string; ur_risk : RegistryRisk; ur_label : string }.

Inductive DangerousPatternType :=
  pipe_to_shell | base64_execute | process_substitution_pattern | sensitive_redirect
| dangerous_substitution | env_injection.
Record DangerousPattern := mkDanger { dp_type : DangerousPatternType; dp_description : string; dp_text : string }.

(** ** Property access *)

(** The members of [Object.prototype]. *)
Definition object_prototype : list string :=
  ["constructor"; "__defineGetter__"; "__defineSetter__"; "hasOwnProperty"; "__lookupGetter__"; "__lookupSetter__";
   "isPrototypeOf"; "propertyIsEnumerable"; "toString"; "valueOf"; "__proto__"; "toLocaleString"].

Inductive Member (A : Type) := own (a : A) | inherited.
Arguments own {A} a.
Arguments inherited {A}.

Definition js_member {A} (obj : list (string * A)) (key : string) : option (Member A) :=
  match jget key obj with
  | Some a => Some (own a)
  | None => if bool_decide (key ∈ object_prototype) then Some inherited else None
  end.

(** ** The order of risks *)

Lemma riskOrd_inj a b : riskOrd a = riskOrd b → a = b.
Proof. by destruct a, b. Qed.

Lemma maxRisk_spec a b : riskOrd (maxRisk a b) = Z.max (riskOrd a) (riskOrd b).
Proof. unfold maxRisk. destruct (Z.leb_spec (riskOrd b) (riskOrd a)); lia. Qed.

Lemma riskOrd_bounds a : 0 ≤ riskOrd a ≤ 3.
Proof. destruct a; cbn; lia. Qed.

Lemma registry_never_unknown (r : RegistryRisk) : registry_risk r ≠ unknown.
Proof. by destruct r. Qed.
