(* ===== verification/CommandRegistry.v ===== *)
(** * The command registry

    src/gateway/src/risk/command-registry: the specification of each command
    (commands/*.ts) and the record that names them (index.ts), entry by entry, and the
    specification of the assistant's own command line, which commands/assistant.ts
    builds when it is loaded.  A dash in a reason is kept as its bytes of UTF-8. *)
From S2P Require Import Prelude JsText RiskTypes.

Notation "s |> f" := (f s) (at level 50, left associativity, only parsing).

(** ** Object literals, field by field *)
Definition base_spec (r : RegistryRisk) : CommandRiskSpec := mkSpec r None None false None false None false false None.
Definition with_baseRisk (r : RegistryRisk) (s : CommandRiskSpec) : CommandRiskSpec :=
  let '(mkSpec _ sub rules w ne c re sa fs sc) := s in mkSpec r sub rules w ne c re sa fs sc.
Definition with_subcommands (sub : list (string * CommandRiskSpec)) (s : CommandRiskSpec) : CommandRiskSpec :=
  let '(mkSpec b _ rules w ne c re sa fs sc) := s in mkSpec b (Some sub) rules w ne c re sa fs sc.
Definition with_argRules (rules : list ArgRule) (s : CommandRiskSpec) : CommandRiskSpec :=
  let '(mkSpec b sub _ w ne c re sa fs sc) := s in mkSpec b sub (Some rules) w ne c re sa fs sc.
Definition with_isWrapper (s : CommandRiskSpec) : CommandRiskSpec :=
  let '(mkSpec b sub rules _ ne c re sa fs sc) := s in mkSpec b sub rules true ne c re sa fs sc.
Definition with_nonExecFlags (ne : list string) (s : CommandRiskSpec) : CommandRiskSpec :=
  let '(mkSpec b sub rules w _ c re sa fs sc) := s in mkSpec b sub rules w (Some ne) c re sa fs sc.
Definition with_complexSyntax (s : CommandRiskSpec) : CommandRiskSpec :=
  let '(mkSpec b sub rules w ne _ re sa fs sc) := s in mkSpec b sub rules w ne true re sa fs sc.
Definition with_reason (re : string) (s : CommandRiskSpec) : CommandRiskSpec :=
  let '(mkSpec b sub rules w ne c _ sa fs sc) := s in mkSpec b sub rules w ne c (Some re) sa fs sc.
Definition with_sandboxAutoApprove (s : CommandRiskSpec) : CommandRiskSpec :=
  let '(mkSpec b sub rules w ne c re _ fs sc) := s in mkSpec b sub rules w ne c re true fs sc.
Definition with_filesystemOp (s : CommandRiskSpec) : CommandRiskSpec :=
  let '(mkSpec b sub rules w ne c re sa _ sc) := s in mkSpec b sub rules w ne c re sa true sc.
Definition with_argSchema (sc : ArgSchema) (s : CommandRiskSpec) : CommandRiskSpec :=
  let '(mkSpec b sub rules w ne c re sa fs _) := s in mkSpec b sub rules w ne c re sa fs (Some sc).

(** ** Commands *)
Definition cmd__7z : CommandRiskSpec :=
  base_spec r_medium |> with_filesystemOp |> with_argSchema empty_schema.
Definition cmd__7za : CommandRiskSpec :=
  base_spec r_medium |> with_filesystemOp |> with_argSchema empty_schema.
Definition cmd_ack : CommandRiskSpec :=
  base_spec r_low
    |> with_sandboxAutoApprove
    |> with_argSchema (mkSchema None (Some (pos_descs [mkPosDesc role_pattern false; mkPosDesc role_path true])) None None).
Definition cmd_adduser : CommandRiskSpec :=
  base_spec r_high |> with_reason "Creates system user".
Definition cmd_ag : CommandRiskSpec :=
  base_spec r_low
    |> with_sandboxAutoApprove
    |> with_argSchema (mkSchema None (Some (pos_descs [mkPosDesc role_pattern false; mkPosDesc role_path true])) None None).
Definition cmd_alias : CommandRiskSpec :=
  base_spec r_low.
Definition cmd_ant : CommandRiskSpec :=
  base_spec r_high |> with_reason "Executes Ant targets and tasks".
Definition cmd_apk : CommandRiskSpec :=
  base_spec r_high |> with_reason "Installs/removes system packages".
Definition cmd_apt : CommandRiskSpec :=
  base_spec r_high |> with_reason "Installs/removes system packages".
Definition cmd_apt_get : CommandRiskSpec :=
  base_spec r_high |> with_reason "Installs/removes system packages".
Definition cmd_at : CommandRiskSpec :=
  base_spec r_high |> with_reason "Schedules command execution".
Definition cmd_awk : CommandRiskSpec :=
  base_spec r_medium
    |> with_argSchema (mkSchema None (Some (pos_descs [mkPosDesc role_script false; mkPosDesc role_path true])) None None)
    |> with_complexSyntax
    |> with_reason "Can execute shell commands via system()".
Definition cmd_aws : CommandRiskSpec :=
  base_spec r_high |> with_reason "Can mutate cloud infrastructure".
Definition cmd_az : CommandRiskSpec :=
  base_spec r_high |> with_reason "Can mutate cloud infrastructure".
Definition cmd_b2sum : CommandRiskSpec :=
  base_spec r_low |> with_filesystemOp.
Definition cmd_base64 : CommandRiskSpec :=
  base_spec r_low |> with_argSchema empty_schema.
Definition cmd_basename : CommandRiskSpec :=
  base_spec r_low |> with_sandboxAutoApprove |> with_argSchema empty_schema.
Definition cmd_bash : CommandRiskSpec :=
  base_spec r_high |> with_reason "Executes arbitrary shell commands" |> with_complexSyntax.
Definition cmd_bazel : CommandRiskSpec :=
  base_spec r_high |> with_reason "Executes project-defined build actions".
Definition cmd_brew : CommandRiskSpec :=
  base_spec r_medium
    |> with_subcommands
      [("list", base_spec r_low);
       ("info", base_spec r_low);
       ("search", base_spec r_low);
       ("install", base_spec r_medium);
       ("update", base_spec r_medium);
       ("upgrade", base_spec r_medium);
       ("uninstall", base_spec r_high)].
Definition cmd_bun : CommandRiskSpec :=
  base_spec r_medium
    |> with_subcommands
      [("install", base_spec r_medium);
       ("add", base_spec r_medium);
       ("update", base_spec r_medium);
       ("test", base_spec r_high |> with_reason "Executes arbitrary test code");
       ("run", base_spec r_high |> with_reason "Executes arbitrary scripts")].
Definition cmd_bunx : CommandRiskSpec :=
  base_spec r_high |> with_reason "Downloads and executes arbitrary packages".
Definition cmd_bunzip2 : CommandRiskSpec :=
  base_spec r_medium |> with_filesystemOp |> with_argSchema empty_schema.
Definition cmd_bzip2 : CommandRiskSpec :=
  base_spec r_medium |> with_filesystemOp |> with_argSchema empty_schema.
Definition cmd_cal : CommandRiskSpec :=
  base_spec r_low.
Definition cmd_cargo : CommandRiskSpec :=
  base_spec r_medium
    |> with_subcommands
      [("build", base_spec r_medium);
       ("check", base_spec r_medium);
       ("test", base_spec r_high |> with_reason "Executes arbitrary test code");
       ("run", base_spec r_high |> with_reason "Compiles and executes code");
       ("install", base_spec r_medium);
       ("uninstall", base_spec r_medium)].
Definition cmd_cat : CommandRiskSpec :=
  base_spec r_low
    |> with_sandboxAutoApprove
    |> with_filesystemOp
    |> with_argSchema empty_schema
    |> with_argRules
      [mkArgRule "cat:sensitive" None (Some "(?:^|/)(?:\.ssh|\.gnupg|\.aws|\.config|\.env)\b") r_high "Reads sensitive file"].
Definition cmd_cd : CommandRiskSpec :=
  base_spec r_low.
Definition cmd_chgrp : CommandRiskSpec :=
  base_spec r_high
    |> with_sandboxAutoApprove
    |> with_argSchema empty_schema
    |> with_reason "Changes file group".
Definition cmd_chmod : CommandRiskSpec :=
  base_spec r_high
    |> with_sandboxAutoApprove
    |> with_filesystemOp
    |> with_argSchema empty_schema
    |> with_reason "Changes file permissions".
Definition cmd_chown : CommandRiskSpec :=
  base_spec r_high
    |> with_sandboxAutoApprove
    |> with_filesystemOp
    |> with_argSchema empty_schema
    |> with_reason "Changes file ownership".
Definition cmd_chroot : CommandRiskSpec :=
  base_spec r_high |> with_reason "Changes root directory for command".
Definition cmd_cksum : CommandRiskSpec :=
  base_spec r_low |> with_filesystemOp.
Definition cmd_cmake : CommandRiskSpec :=
  base_spec r_high |> with_reason "Evaluates CMake scripts and can execute commands".
Definition cmd_cmp : CommandRiskSpec :=
  base_spec r_low |> with_filesystemOp |> with_argSchema empty_schema.
Definition cmd_column : CommandRiskSpec :=
  base_spec r_low |> with_filesystemOp |> with_argSchema empty_schema.
Definition cmd_comm : CommandRiskSpec :=
  base_spec r_low |> with_filesystemOp |> with_argSchema empty_schema.
Definition cmd_command : CommandRiskSpec :=
  base_spec r_low
    |> with_isWrapper
    |> with_nonExecFlags ["-v"; "-V"]
    |> with_argRules
      [mkArgRule "command:lookup" (Some ["-v"; "-V"]) None r_low "Command lookup"].
Definition cmd_composer : CommandRiskSpec :=
  base_spec r_medium
    |> with_subcommands
      [("show", base_spec r_low);
       ("install", base_spec r_medium);
       ("update", base_spec r_medium);
       ("remove", base_spec r_medium);
       ("run-script", base_spec r_high |> with_reason "Executes arbitrary scripts")].
Definition cmd_cp : CommandRiskSpec :=
  base_spec r_medium
    |> with_sandboxAutoApprove
    |> with_filesystemOp
    |> with_argSchema (mkSchema (Some ["-t"; "--target-directory"]) None (Some ["-t"; "--target-directory"]) None)
    |> with_argRules
      [mkArgRule "cp:system" None (Some "^/(?:usr|bin|sbin|lib|boot|dev|proc|sys)\b") r_high "Copies to system path"].
Definition cmd_crontab : CommandRiskSpec :=
  base_spec r_high |> with_reason "Schedules privileged command execution".
Definition cmd_csplit : CommandRiskSpec :=
  base_spec r_medium |> with_filesystemOp |> with_argSchema empty_schema.
Definition cmd_curl : CommandRiskSpec :=
  base_spec r_medium
    |> with_argSchema (mkSchema (Some ["-d"; "--data"; "--data-binary"; "--data-raw"; "--data-urlencode"; "-T"; "--upload-file"; "-o"; "--output"; "-H"; "--header"; "-X"; "--request"; "-u"; "--user"; "-A"; "--user-agent"; "-e"; "--referer"; "-b"; "--cookie"; "-c"; "--cookie-jar"; "--connect-timeout"; "-m"; "--max-time"; "--retry"; "-w"; "--write-out"]) (Some pos_none) None None)
    |> with_argRules
      [mkArgRule "curl:upload-data" (Some ["-d"; "--data"; "--data-binary"; "--data-raw"]) (Some "^@") r_high "Uploads file contents";
       mkArgRule "curl:upload-file" (Some ["-T"; "--upload-file"]) None r_high "Uploads file";
       mkArgRule "curl:output-sensitive" (Some ["-o"; "--output"]) (Some "(?:^|/)(?:\.ssh|\.gnupg|\.aws|\.config|\.env)\b") r_high "Writes to sensitive path";
       mkArgRule "curl:localhost" None (Some "^https?://(localhost|127\.0\.0\.1|\[::1\])") r_low "Local request"].
Definition cmd_cut : CommandRiskSpec :=
  base_spec r_low |> with_sandboxAutoApprove |> with_argSchema empty_schema.
Definition cmd_dash : CommandRiskSpec :=
  base_spec r_high |> with_reason "Executes arbitrary shell commands" |> with_complexSyntax.
Definition cmd_date : CommandRiskSpec :=
  base_spec r_low.
Definition cmd_dd : CommandRiskSpec :=
  base_spec r_high |> with_reason "Low-level block device copy — can destroy disks".
Definition cmd_declare : CommandRiskSpec :=
  base_spec r_medium |> with_reason "Defines shell variables/functions".
Definition cmd_defaults : CommandRiskSpec :=
  base_spec r_medium |> with_reason "Modifies macOS preference domains".
Definition cmd_deluser : CommandRiskSpec :=
  base_spec r_high |> with_reason "Deletes system user".
Definition cmd_deno : CommandRiskSpec :=
  base_spec r_high |> with_reason "Executes arbitrary code".
Definition cmd_df : CommandRiskSpec :=
  base_spec r_low |> with_sandboxAutoApprove |> with_filesystemOp |> with_argSchema empty_schema.
Definition cmd_diff : CommandRiskSpec :=
  base_spec r_low |> with_sandboxAutoApprove |> with_filesystemOp |> with_argSchema empty_schema.
Definition cmd_dig : CommandRiskSpec :=
  base_spec r_low.
Definition cmd_dir : CommandRiskSpec :=
  base_spec r_low |> with_filesystemOp |> with_argSchema empty_schema.
Definition cmd_dirname : CommandRiskSpec :=
  base_spec r_low |> with_sandboxAutoApprove |> with_argSchema empty_schema.
Definition cmd_dmesg : CommandRiskSpec :=
  base_spec r_medium
    |> with_argRules
      [mkArgRule "dmesg:clear" (Some ["-C"; "--clear"; "-c"]) None r_high "Clears kernel ring buffer"].
Definition cmd_dnf : CommandRiskSpec :=
  base_spec r_high |> with_reason "Installs/removes system packages".
Definition cmd_doas : CommandRiskSpec :=
  base_spec r_high |> with_isWrapper |> with_reason "Elevates privileges (OpenBSD sudo alternative)".
Definition cmd_docker : CommandRiskSpec :=
  base_spec r_medium
    |> with_argSchema (mkSchema (Some ["--host"; "-H"; "--config"; "--context"; "--log-level"]) None None None)
    |> with_subcommands
      [("ps", base_spec r_low);
       ("images", base_spec r_low);
       ("inspect", base_spec r_low);
       ("logs", base_spec r_low);
       ("info", base_spec r_low);
       ("version", base_spec r_low);
       ("login", base_spec r_medium);
       ("logout", base_spec r_medium);
       ("build", base_spec r_medium);
       ("pull", base_spec r_medium);
       ("push", base_spec r_high |> with_reason "Pushes image to registry");
       ("cp", base_spec r_medium);
       ("restart", base_spec r_medium);
       ("kill", base_spec r_high |> with_reason "Forcefully stops container");
       ("prune", base_spec r_high |> with_reason "Deletes unused docker resources");
       ("system", base_spec r_medium
          |> with_subcommands
            [("df", base_spec r_low);
             ("prune", base_spec r_high |> with_reason "Deletes unused docker resources")]);
       ("network", base_spec r_medium
          |> with_subcommands
            [("ls", base_spec r_low);
             ("inspect", base_spec r_low);
             ("create", base_spec r_medium);
             ("rm", base_spec r_medium);
             ("prune", base_spec r_high |> with_reason "Deletes docker networks")]);
       ("volume", base_spec r_medium
          |> with_subcommands
            [("ls", base_spec r_low);
             ("inspect", base_spec r_low);
             ("create", base_spec r_medium);
             ("rm", base_spec r_medium);
             ("prune", base_spec r_high |> with_reason "Deletes docker volumes")]);
       ("compose", base_spec r_medium
          |> with_subcommands
            [("ps", base_spec r_low);
             ("logs", base_spec r_low);
             ("config", base_spec r_low);
             ("pull", base_spec r_medium);
             ("build", base_spec r_medium);
             ("up", base_spec r_medium);
             ("down", base_spec r_medium);
             ("start", base_spec r_medium);
             ("stop", base_spec r_medium);
             ("restart", base_spec r_medium);
             ("rm", base_spec r_medium);
             ("run", base_spec r_high |> with_reason "Runs one-off container command");
             ("exec", base_spec r_high |> with_reason "Executes command in service container")]);
       ("run", base_spec r_high
          |> with_argSchema (mkSchema (Some ["-v"; "--volume"; "-p"; "--publish"; "-e"; "--env"; "--name"; "--network"; "-w"; "--workdir"; "--entrypoint"; "--mount"; "--cpus"; "--memory"; "--user"; "--platform"]) None None None)
          |> with_reason "Runs arbitrary container"
          |> with_argRules
            [mkArgRule "docker-run:privileged" (Some ["--privileged"]) None r_high "Privileged container with full host access";
             mkArgRule "docker-run:volume-root" (Some ["-v"; "--volume"]) (Some "^/:") r_high "Mounts host root filesystem"]);
       ("exec", base_spec r_high |> with_reason "Executes command in running container");
       ("rm", base_spec r_high);
       ("rmi", base_spec r_high);
       ("stop", base_spec r_medium);
       ("start", base_spec r_medium)].
Definition cmd_dos2unix : CommandRiskSpec :=
  base_spec r_medium |> with_filesystemOp |> with_argSchema empty_schema.
Definition cmd_du : CommandRiskSpec :=
  base_spec r_low |> with_sandboxAutoApprove |> with_filesystemOp |> with_argSchema empty_schema.
Definition cmd_echo : CommandRiskSpec :=
  base_spec r_low |> with_sandboxAutoApprove |> with_argSchema (mkSchema None (Some pos_none) None None).
Definition cmd_egrep : CommandRiskSpec :=
  base_spec r_low
    |> with_filesystemOp
    |> with_argSchema (mkSchema None (Some (pos_descs [mkPosDesc role_pattern false; mkPosDesc role_path true])) None None).
Definition cmd_env : CommandRiskSpec :=
  base_spec r_low |> with_isWrapper.
Definition cmd_eval : CommandRiskSpec :=
  base_spec r_high |> with_reason "Evaluates arbitrary shell code".
Definition cmd_exec : CommandRiskSpec :=
  base_spec r_high |> with_isWrapper |> with_reason "Replaces current shell process".
Definition cmd_expand : CommandRiskSpec :=
  base_spec r_low |> with_filesystemOp |> with_argSchema empty_schema.
Definition cmd_export : CommandRiskSpec :=
  base_spec r_low.
Definition cmd_fd : CommandRiskSpec :=
  base_spec r_low |> with_sandboxAutoApprove |> with_argSchema empty_schema.
Definition cmd_fdisk : CommandRiskSpec :=
  base_spec r_high |> with_reason "Modifies disk partitions".
Definition cmd_fgrep : CommandRiskSpec :=
  base_spec r_low
    |> with_filesystemOp
    |> with_argSchema (mkSchema None (Some (pos_descs [mkPosDesc role_pattern false; mkPosDesc role_path true])) None None).
Definition cmd_file : CommandRiskSpec :=
  base_spec r_low |> with_sandboxAutoApprove |> with_filesystemOp |> with_argSchema empty_schema.
Definition cmd_find : CommandRiskSpec :=
  base_spec r_low
    |> with_filesystemOp
    |> with_argSchema (mkSchema (Some ["-name"; "-iname"; "-path"; "-ipath"; "-regex"; "-iregex"; "-maxdepth"; "-mindepth"; "-newer"; "-user"; "-group"; "-printf"; "-fprintf"]) None None None)
    |> with_complexSyntax
    |> with_argRules
      [mkArgRule "find:exec" (Some ["-exec"; "-execdir"]) None r_high "Executes arbitrary commands on matched files";
       mkArgRule "find:delete" (Some ["-delete"]) None r_high "Deletes matched files"].
Definition cmd_firewall_cmd : CommandRiskSpec :=
  base_spec r_high |> with_reason "Modifies firewall rules".
Definition cmd_fish : CommandRiskSpec :=
  base_spec r_high |> with_reason "Executes arbitrary shell commands" |> with_complexSyntax.
Definition cmd_fmt : CommandRiskSpec :=
  base_spec r_low |> with_filesystemOp |> with_argSchema empty_schema.
Definition cmd_fold : CommandRiskSpec :=
  base_spec r_low |> with_filesystemOp |> with_argSchema empty_schema.
Definition cmd_free : CommandRiskSpec :=
  base_spec r_low.
Definition cmd_ftp : CommandRiskSpec :=
  base_spec r_medium |> with_reason "Transfers files over network".
Definition cmd_gcloud : CommandRiskSpec :=
  base_spec r_high |> with_reason "Can mutate cloud infrastructure".
Definition cmd_gem : CommandRiskSpec :=
  base_spec r_medium
    |> with_subcommands
      [("list", base_spec r_low);
       ("search", base_spec r_low);
       ("install", base_spec r_medium);
       ("uninstall", base_spec r_medium)].
Definition cmd_gh : CommandRiskSpec :=
  base_spec r_low
    |> with_argSchema (mkSchema (Some ["--repo"; "-R"]) None None None)
    |> with_subcommands
      [("pr", base_spec r_low
          |> with_subcommands
            [("view", base_spec r_low);
             ("list", base_spec r_low);
             ("create", base_spec r_medium);
             ("merge", base_spec r_high |> with_reason "Merges pull request")]);
       ("issue", base_spec r_low
          |> with_subcommands
            [("view", base_spec r_low);
             ("list", base_spec r_low);
             ("create", base_spec r_medium)]);
       ("repo", base_spec r_low
          |> with_subcommands
            [("view", base_spec r_low);
             ("clone", base_spec r_low);
             ("create", base_spec r_high);
             ("delete", base_spec r_high)]);
       ("api", base_spec r_medium |> with_reason "Makes arbitrary GitHub API calls")].
Definition cmd_git : CommandRiskSpec :=
  base_spec r_medium
    |> with_argSchema (mkSchema (Some ["-C"; "-c"; "--git-dir"; "--work-tree"; "--namespace"; "--super-prefix"; "--config-env"]) None None None)
    |> with_subcommands
      [("status", base_spec r_low);
       ("log", base_spec r_low);
       ("diff", base_spec r_low);
       ("show", base_spec r_low);
       ("branch", base_spec r_low
          |> with_argRules
            [mkArgRule "git-branch:delete" (Some ["-d"; "-D"; "--delete"]) None r_medium "Deletes local branch";
             mkArgRule "git-branch:move" (Some ["-m"; "-M"; "--move"]) None r_medium "Renames local branch";
             mkArgRule "git-branch:copy" (Some ["-c"; "-C"; "--copy"]) None r_medium "Copies local branch"]);
       ("tag", base_spec r_low
          |> with_argRules
            [mkArgRule "git-tag:delete" (Some ["-d"; "--delete"]) None r_high "Deletes git tag"]);
       ("remote", base_spec r_low
          |> with_subcommands
            [("show", base_spec r_low);
             ("get-url", base_spec r_low);
             ("add", base_spec r_medium |> with_reason "Adds git remote");
             ("set-url", base_spec r_medium |> with_reason "Changes remote URL");
             ("rename", base_spec r_medium |> with_reason "Renames git remote");
             ("remove", base_spec r_medium |> with_reason "Removes git remote");
             ("prune", base_spec r_medium |> with_reason "Prunes stale remote refs")]);
       ("stash", base_spec r_medium
          |> with_subcommands
            [("list", base_spec r_low);
             ("show", base_spec r_low);
             ("drop", base_spec r_high |> with_reason "Permanently drops stashed changes")]);
       ("blame", base_spec r_low);
       ("shortlog", base_spec r_low);
       ("describe", base_spec r_low);
       ("rev-parse", base_spec r_low);
       ("ls-files", base_spec r_low);
       ("ls-tree", base_spec r_low);
       ("cat-file", base_spec r_low);
       ("reflog", base_spec r_low);
       ("init", base_spec r_medium);
       ("clone", base_spec r_medium);
       ("add", base_spec r_medium);
       ("commit", base_spec r_medium);
       ("config", base_spec r_medium
          |> with_argRules
            [mkArgRule "git-config:global" (Some ["--global"]) None r_high "Modifies global git configuration";
             mkArgRule "git-config:system" (Some ["--system"]) None r_high "Modifies system git configuration"]);
       ("checkout", base_spec r_medium);
       ("restore", base_spec r_medium);
       ("switch", base_spec r_medium);
       ("merge", base_spec r_medium);
       ("cherry-pick", base_spec r_medium);
       ("revert", base_spec r_medium);
       ("rm", base_spec r_medium);
       ("mv", base_spec r_medium);
       ("rebase", base_spec r_medium
          |> with_argRules
            [mkArgRule "git-rebase:interactive" (Some ["-i"; "--interactive"]) None r_high "Interactive rebase rewrites history"]);
       ("push", base_spec r_medium
          |> with_argRules
            [mkArgRule "git-push:force" (Some ["--force"; "-f"; "--force-with-lease"]) None r_high "Force push rewrites remote history"]);
       ("pull", base_spec r_medium);
       ("fetch", base_spec r_low
          |> with_argRules
            [mkArgRule "git-fetch:prune" (Some ["-p"; "--prune"]) None r_medium "Prunes stale remote-tracking refs"]);
       ("reset", base_spec r_medium
          |> with_argRules
            [mkArgRule "git-reset:hard" (Some ["--hard"]) None r_high "Discards uncommitted changes"]);
       ("clean", base_spec r_high |> with_reason "Removes untracked files");
       ("bisect", base_spec r_low);
       ("worktree", base_spec r_medium);
       ("submodule", base_spec r_medium)].
Definition cmd_go : CommandRiskSpec :=
  base_spec r_low
    |> with_subcommands
      [("mod", base_spec r_low);
       ("vet", base_spec r_low);
       ("version", base_spec r_low);
       ("build", base_spec r_medium);
       ("test", base_spec r_high |> with_reason "Executes arbitrary test code");
       ("run", base_spec r_high |> with_reason "Compiles and executes Go code");
       ("get", base_spec r_medium
          |> with_reason "Downloads and installs packages; may execute arbitrary code via tool directives");
       ("generate", base_spec r_high |> with_reason "Runs arbitrary commands via //go:generate directives")].
Definition cmd_gradle : CommandRiskSpec :=
  base_spec r_high |> with_reason "Executes Gradle build scripts and plugins".
Definition cmd_grep : CommandRiskSpec :=
  base_spec r_low
    |> with_sandboxAutoApprove
    |> with_filesystemOp
    |> with_argSchema (mkSchema None (Some (pos_descs [mkPosDesc role_pattern false; mkPosDesc role_path true])) None None).
Definition cmd_groupadd : CommandRiskSpec :=
  base_spec r_high |> with_reason "Creates system group".
Definition cmd_groupdel : CommandRiskSpec :=
  base_spec r_high |> with_reason "Deletes system group".
Definition cmd_groupmod : CommandRiskSpec :=
  base_spec r_high |> with_reason "Modifies system group".
Definition cmd_groups : CommandRiskSpec :=
  base_spec r_low.
Definition cmd_gunzip : CommandRiskSpec :=
  base_spec r_medium |> with_sandboxAutoApprove |> with_filesystemOp |> with_argSchema empty_schema.
Definition cmd_gzip : CommandRiskSpec :=
  base_spec r_medium |> with_sandboxAutoApprove |> with_filesystemOp |> with_argSchema empty_schema.
Definition cmd_halt : CommandRiskSpec :=
  base_spec r_high |> with_reason "Halts the system".
Definition cmd_head : CommandRiskSpec :=
  base_spec r_low |> with_sandboxAutoApprove |> with_filesystemOp |> with_argSchema empty_schema.
Definition cmd_helm : CommandRiskSpec :=
  base_spec r_medium
    |> with_subcommands
      [("list", base_spec r_low);
       ("search", base_spec r_low);
       ("status", base_spec r_low);
       ("get", base_spec r_low);
       ("template", base_spec r_low);
       ("install", base_spec r_high |> with_reason "Installs workloads to cluster");
       ("upgrade", base_spec r_high |> with_reason "Upgrades workloads in cluster");
       ("rollback", base_spec r_high |> with_reason "Rolls back workloads in cluster");
       ("uninstall", base_spec r_high |> with_reason "Removes workloads from cluster")].
Definition cmd_help : CommandRiskSpec :=
  base_spec r_low.
Definition cmd_hexdump : CommandRiskSpec :=
  base_spec r_low.
Definition cmd_hg : CommandRiskSpec :=
  base_spec r_medium
    |> with_subcommands
      [("status", base_spec r_low);
       ("log", base_spec r_low);
       ("diff", base_spec r_low);
       ("pull", base_spec r_medium);
       ("update", base_spec r_medium);
       ("add", base_spec r_medium);
       ("commit", base_spec r_medium);
       ("remove", base_spec r_high)].
Definition cmd_history : CommandRiskSpec :=
  base_spec r_low.
Definition cmd_host : CommandRiskSpec :=
  base_spec r_low.
Definition cmd_hostname : CommandRiskSpec :=
  base_spec r_low.
Definition cmd_htop : CommandRiskSpec :=
  base_spec r_low.
Definition cmd_http : CommandRiskSpec :=
  base_spec r_medium.
Definition cmd_iconv : CommandRiskSpec :=
  base_spec r_low |> with_argSchema empty_schema.
Definition cmd_id : CommandRiskSpec :=
  base_spec r_low.
Definition cmd_ifconfig : CommandRiskSpec :=
  base_spec r_medium |> with_reason "Can reconfigure network interfaces".
Definition cmd_info : CommandRiskSpec :=
  base_spec r_low.
Definition cmd_install : CommandRiskSpec :=
  base_spec r_medium
    |> with_filesystemOp
    |> with_argSchema (mkSchema (Some ["-t"; "--target-directory"]) None (Some ["-t"; "--target-directory"]) None)
    |> with_argRules
      [mkArgRule "install:system" None (Some "^/(?:usr|bin|sbin|lib|boot|dev|proc|sys)\b") r_high "Installs files into system path"].
Definition cmd_ionice : CommandRiskSpec :=
  base_spec r_low |> with_isWrapper.
Definition cmd_iostat : CommandRiskSpec :=
  base_spec r_low.
Definition cmd_ip : CommandRiskSpec :=
  base_spec r_high |> with_reason "Can reconfigure networking and routing".
Definition cmd_ip6tables : CommandRiskSpec :=
  base_spec r_high |> with_reason "Modifies IPv6 firewall rules".
Definition cmd_iptables : CommandRiskSpec :=
  base_spec r_high |> with_reason "Modifies firewall rules".
Definition cmd_java : CommandRiskSpec :=
  base_spec r_high
    |> with_reason "Executes Java bytecode"
    |> with_argRules
      [mkArgRule "java:version" (Some ["-version"; "--version"]) None r_low "Prints version"].
Definition cmd_javac : CommandRiskSpec :=
  base_spec r_high |> with_reason "Compilation can run annotation processors".
Definition cmd_join : CommandRiskSpec :=
  base_spec r_low |> with_filesystemOp |> with_argSchema empty_schema.
Definition cmd_jq : CommandRiskSpec :=
  base_spec r_low |> with_sandboxAutoApprove |> with_argSchema empty_schema.
Definition cmd_kill : CommandRiskSpec :=
  base_spec r_high |> with_reason "Sends signal to process".
Definition cmd_killall : CommandRiskSpec :=
  base_spec r_high |> with_reason "Kills processes by name".
Definition cmd_ksh : CommandRiskSpec :=
  base_spec r_high |> with_reason "Executes arbitrary shell commands" |> with_complexSyntax.
Definition cmd_kubectl : CommandRiskSpec :=
  base_spec r_medium
    |> with_subcommands
      [("get", base_spec r_low);
       ("describe", base_spec r_low);
       ("logs", base_spec r_low);
       ("top", base_spec r_low);
       ("version", base_spec r_low);
       ("cluster-info", base_spec r_low);
       ("config", base_spec r_medium);
       ("apply", base_spec r_high |> with_reason "Applies changes to cluster resources");
       ("patch", base_spec r_high |> with_reason "Mutates cluster resources");
       ("edit", base_spec r_high |> with_reason "Mutates cluster resources");
       ("delete", base_spec r_high |> with_reason "Deletes cluster resources");
       ("replace", base_spec r_high |> with_reason "Replaces cluster resources");
       ("scale", base_spec r_high |> with_reason "Scales workloads in cluster");
       ("exec", base_spec r_high |> with_reason "Executes commands in running cluster workloads");
       ("cp", base_spec r_high |> with_reason "Copies files to/from workloads");
       ("port-forward", base_spec r_medium |> with_reason "Opens local network tunnel")].
Definition cmd_last : CommandRiskSpec :=
  base_spec r_low.
Definition cmd_launchctl : CommandRiskSpec :=
  base_spec r_high |> with_reason "Controls macOS services".
Definition cmd_less : CommandRiskSpec :=
  base_spec r_low |> with_sandboxAutoApprove |> with_filesystemOp |> with_argSchema empty_schema.
Definition cmd_ln : CommandRiskSpec :=
  base_spec r_medium
    |> with_sandboxAutoApprove
    |> with_filesystemOp
    |> with_argSchema (mkSchema (Some ["-t"; "--target-directory"]) None (Some ["-t"; "--target-directory"]) None).
Definition cmd_locate : CommandRiskSpec :=
  base_spec r_low.
Definition cmd_loginctl : CommandRiskSpec :=
  base_spec r_high |> with_reason "Controls system logind sessions".
Definition cmd_ls : CommandRiskSpec :=
  base_spec r_low |> with_sandboxAutoApprove |> with_filesystemOp |> with_argSchema empty_schema.
Definition cmd_lsof : CommandRiskSpec :=
  base_spec r_low.
Definition cmd_ltrace : CommandRiskSpec :=
  base_spec r_medium |> with_isWrapper |> with_reason "Traces library calls".
Definition cmd_lua : CommandRiskSpec :=
  base_spec r_high
    |> with_reason "Executes arbitrary Lua code"
    |> with_argRules
      [mkArgRule "lua:version" (Some ["-v"; "--version"]) None r_low "Prints version"].
Definition cmd_make : CommandRiskSpec :=
  base_spec r_high |> with_reason "Executes arbitrary Makefile targets".
Definition cmd_man : CommandRiskSpec :=
  base_spec r_low.
Definition cmd_md5 : CommandRiskSpec :=
  base_spec r_low |> with_filesystemOp.
Definition cmd_md5sum : CommandRiskSpec :=
  base_spec r_low |> with_filesystemOp.
Definition cmd_meson : CommandRiskSpec :=
  base_spec r_high |> with_reason "Configures builds and can execute project-defined commands".
Definition cmd_mkdir : CommandRiskSpec :=
  base_spec r_medium |> with_sandboxAutoApprove |> with_filesystemOp |> with_argSchema empty_schema.
Definition cmd_mkfs : CommandRiskSpec :=
  base_spec r_high |> with_reason "Formats filesystem — destroys all data".
Definition cmd_mktemp : CommandRiskSpec :=
  base_spec r_medium |> with_filesystemOp |> with_argSchema empty_schema.
Definition cmd_more : CommandRiskSpec :=
  base_spec r_low |> with_sandboxAutoApprove |> with_filesystemOp |> with_argSchema empty_schema.
Definition cmd_mount : CommandRiskSpec :=
  base_spec r_high |> with_reason "Mounts filesystem".
Definition cmd_mtr : CommandRiskSpec :=
  base_spec r_low.
Definition cmd_mv : CommandRiskSpec :=
  base_spec r_medium
    |> with_sandboxAutoApprove
    |> with_filesystemOp
    |> with_argSchema empty_schema
    |> with_argRules
      [mkArgRule "mv:system" None (Some "^/(?:usr|bin|sbin|lib|boot|dev|proc|sys)\b") r_high "Moves to system path"].
Definition cmd_mvn : CommandRiskSpec :=
  base_spec r_high |> with_reason "Executes Maven plugins and build scripts".
Definition cmd_nc : CommandRiskSpec :=
  base_spec r_medium |> with_reason "Opens arbitrary network connections".
Definition cmd_netcat : CommandRiskSpec :=
  base_spec r_medium |> with_reason "Opens arbitrary network connections".
Definition cmd_netstat : CommandRiskSpec :=
  base_spec r_low.
Definition cmd_networksetup : CommandRiskSpec :=
  base_spec r_high |> with_reason "Modifies macOS network settings".
Definition cmd_nft : CommandRiskSpec :=
  base_spec r_high |> with_reason "Modifies firewall rules".
Definition cmd_nice : CommandRiskSpec :=
  base_spec r_low |> with_isWrapper.
Definition cmd_ninja : CommandRiskSpec :=
  base_spec r_high |> with_reason "Executes build graph commands".
Definition cmd_nl : CommandRiskSpec :=
  base_spec r_low |> with_filesystemOp |> with_argSchema empty_schema.
Definition cmd_nmap : CommandRiskSpec :=
  base_spec r_medium |> with_reason "Performs active network scanning".
Definition cmd_nmcli : CommandRiskSpec :=
  base_spec r_high |> with_reason "Controls NetworkManager settings".
Definition cmd_node : CommandRiskSpec :=
  base_spec r_high
    |> with_reason "Executes arbitrary JavaScript"
    |> with_argRules
      [mkArgRule "node:version" (Some ["--version"; "-v"]) None r_low "Prints version";
       mkArgRule "node:eval" (Some ["-e"; "--eval"]) None r_high "Evaluates inline JavaScript"].
Definition cmd_nohup : CommandRiskSpec :=
  base_spec r_low |> with_isWrapper.
Definition cmd_npm : CommandRiskSpec :=
  base_spec r_medium
    |> with_argSchema (mkSchema (Some ["--prefix"; "--userconfig"; "--globalconfig"; "--cache"]) None None None)
    |> with_subcommands
      [("ls", base_spec r_low);
       ("list", base_spec r_low);
       ("outdated", base_spec r_low);
       ("view", base_spec r_low);
       ("info", base_spec r_low);
       ("install", base_spec r_medium |> with_reason "Runs lifecycle scripts, downloads code");
       ("ci", base_spec r_medium |> with_reason "Clean install, runs lifecycle scripts");
       ("uninstall", base_spec r_medium);
       ("test", base_spec r_high |> with_reason "Executes arbitrary package scripts");
       ("run", base_spec r_high |> with_reason "Executes arbitrary package scripts");
       ("exec", base_spec r_high |> with_reason "Executes package binaries");
       ("publish", base_spec r_high |> with_reason "Publishes package to registry")].
Definition cmd_npx : CommandRiskSpec :=
  base_spec r_high |> with_reason "Downloads and executes arbitrary packages".
Definition cmd_nslookup : CommandRiskSpec :=
  base_spec r_low.
Definition cmd_od : CommandRiskSpec :=
  base_spec r_low |> with_filesystemOp |> with_argSchema empty_schema.
Definition cmd_openssl : CommandRiskSpec :=
  base_spec r_medium |> with_reason "Performs cryptographic operations".
Definition cmd_pacman : CommandRiskSpec :=
  base_spec r_high |> with_reason "Installs/removes system packages".
Definition cmd_parted : CommandRiskSpec :=
  base_spec r_high |> with_reason "Modifies disk partitions".
Definition cmd_passwd : CommandRiskSpec :=
  base_spec r_high |> with_reason "Changes account credentials".
Definition cmd_paste : CommandRiskSpec :=
  base_spec r_low |> with_filesystemOp |> with_argSchema empty_schema.
Definition cmd_perl : CommandRiskSpec :=
  base_spec r_high
    |> with_reason "Executes arbitrary Perl code"
    |> with_argRules
      [mkArgRule "perl:version" (Some ["--version"; "-v"]) None r_low "Prints version"].
Definition cmd_pgrep : CommandRiskSpec :=
  base_spec r_low.
Definition cmd_php : CommandRiskSpec :=
  base_spec r_high
    |> with_reason "Executes arbitrary PHP code"
    |> with_argRules
      [mkArgRule "php:version" (Some ["--version"; "-v"]) None r_low "Prints version"].
Definition cmd_ping : CommandRiskSpec :=
  base_spec r_low.
Definition cmd_pip : CommandRiskSpec :=
  base_spec r_medium
    |> with_subcommands
      [("list", base_spec r_low);
       ("show", base_spec r_low);
       ("freeze", base_spec r_low);
       ("install", base_spec r_medium);
       ("uninstall", base_spec r_medium)].
Definition cmd_pip3 : CommandRiskSpec :=
  base_spec r_medium
    |> with_subcommands
      [("list", base_spec r_low);
       ("show", base_spec r_low);
       ("freeze", base_spec r_low);
       ("install", base_spec r_medium);
       ("uninstall", base_spec r_medium)].
Definition cmd_pipx : CommandRiskSpec :=
  base_spec r_medium
    |> with_subcommands
      [("list", base_spec r_low);
       ("install", base_spec r_medium);
       ("uninstall", base_spec r_medium);
       ("run", base_spec r_high |> with_reason "Executes package entrypoint")].
Definition cmd_pkill : CommandRiskSpec :=
  base_spec r_high |> with_reason "Kills processes by pattern".
Definition cmd_plocate : CommandRiskSpec :=
  base_spec r_low.
Definition cmd_pnpm : CommandRiskSpec :=
  base_spec r_medium
    |> with_subcommands
      [("list", base_spec r_low);
       ("install", base_spec r_medium);
       ("add", base_spec r_medium);
       ("remove", base_spec r_medium);
       ("test", base_spec r_high |> with_reason "Executes arbitrary package scripts");
       ("run", base_spec r_high |> with_reason "Executes arbitrary package scripts");
       ("exec", base_spec r_high |> with_reason "Executes package binaries");
       ("dlx", base_spec r_high |> with_reason "Downloads and executes package")].
Definition cmd_pnpx : CommandRiskSpec :=
  base_spec r_high |> with_reason "Downloads and executes arbitrary packages".
Definition cmd_poetry : CommandRiskSpec :=
  base_spec r_medium
    |> with_subcommands
      [("show", base_spec r_low);
       ("install", base_spec r_medium);
       ("add", base_spec r_medium);
       ("remove", base_spec r_medium);
       ("run", base_spec r_high |> with_reason "Executes arbitrary commands")].
Definition cmd_popd : CommandRiskSpec :=
  base_spec r_low.
Definition cmd_port : CommandRiskSpec :=
  base_spec r_high |> with_reason "Installs/removes system packages".
Definition cmd_poweroff : CommandRiskSpec :=
  base_spec r_high |> with_reason "Powers off the system".
Definition cmd_powershell : CommandRiskSpec :=
  base_spec r_high |> with_reason "Executes arbitrary PowerShell code".
Definition cmd_pr : CommandRiskSpec :=
  base_spec r_low |> with_filesystemOp |> with_argSchema empty_schema.
Definition cmd_printenv : CommandRiskSpec :=
  base_spec r_low.
Definition cmd_printf : CommandRiskSpec :=
  base_spec r_low |> with_sandboxAutoApprove |> with_argSchema (mkSchema None (Some pos_none) None None).
Definition cmd_ps : CommandRiskSpec :=
  base_spec r_low.
Definition cmd_pstree : CommandRiskSpec :=
  base_spec r_low.
Definition cmd_pushd : CommandRiskSpec :=
  base_spec r_low.
Definition cmd_pwd : CommandRiskSpec :=
  base_spec r_low |> with_sandboxAutoApprove |> with_argSchema (mkSchema None (Some pos_none) None None).
Definition cmd_pwsh : CommandRiskSpec :=
  base_spec r_high |> with_reason "Executes arbitrary PowerShell code".
Definition cmd_python : CommandRiskSpec :=
  base_spec r_high
    |> with_reason "Executes arbitrary Python code"
    |> with_argRules
      [mkArgRule "python:version" (Some ["--version"; "-V"]) None r_low "Prints version"].
Definition cmd_python3 : CommandRiskSpec :=
  base_spec r_high
    |> with_reason "Executes arbitrary Python code"
    |> with_argRules
      [mkArgRule "python3:version" (Some ["--version"; "-V"]) None r_low "Prints version"].
Definition cmd_R : CommandRiskSpec :=
  base_spec r_high |> with_reason "Executes arbitrary R code".
Definition cmd_readlink : CommandRiskSpec :=
  base_spec r_low |> with_sandboxAutoApprove |> with_filesystemOp |> with_argSchema empty_schema.
Definition cmd_readonly : CommandRiskSpec :=
  base_spec r_medium |> with_reason "Locks shell variable/function state".
Definition cmd_realpath : CommandRiskSpec :=
  base_spec r_low |> with_sandboxAutoApprove |> with_argSchema empty_schema.
Definition cmd_reboot : CommandRiskSpec :=
  base_spec r_high |> with_reason "Reboots the system".
Definition cmd_renice : CommandRiskSpec :=
  base_spec r_medium |> with_reason "Changes process scheduling priority".
Definition cmd_rev : CommandRiskSpec :=
  base_spec r_low |> with_argSchema empty_schema.
Definition cmd_rg : CommandRiskSpec :=
  base_spec r_low
    |> with_sandboxAutoApprove
    |> with_argSchema (mkSchema None (Some (pos_descs [mkPosDesc role_pattern false; mkPosDesc role_path true])) None None).
Definition cmd_rm : CommandRiskSpec :=
  base_spec r_high
    |> with_sandboxAutoApprove
    |> with_filesystemOp
    |> with_argSchema empty_schema
    |> with_argRules
      [mkArgRule "rm:recursive-force" (Some ["-rf"; "-fr"; "-Rf"; "-fR"]) None r_high "Recursive force delete";
       mkArgRule "rm:recursive" (Some ["-r"; "-R"; "--recursive"]) None r_high "Recursive delete";
       mkArgRule "rm:tmp" None (Some "^(?:/tmp|/var/tmp|\./|\.\.\/)") r_medium "Removes temp files";
       mkArgRule "rm:system" None (Some "^/(?:usr|bin|sbin|lib|boot|dev|proc|sys)\b") r_high "Removes system files";
       mkArgRule "rm:sensitive" None (Some "(?:^|/)(?:\.ssh|\.gnupg|\.aws|\.config|\.env)\b") r_high "Removes sensitive files"].
Definition cmd_rmdir : CommandRiskSpec :=
  base_spec r_high |> with_sandboxAutoApprove |> with_filesystemOp |> with_argSchema empty_schema.
Definition cmd_route : CommandRiskSpec :=
  base_spec r_high |> with_reason "Modifies network routing".
Definition cmd_Rscript : CommandRiskSpec :=
  base_spec r_high |> with_reason "Executes arbitrary R code".
Definition cmd_rsync : CommandRiskSpec :=
  base_spec r_high |> with_reason "Remote file sync".
Definition cmd_ruby : CommandRiskSpec :=
  base_spec r_high |> with_reason "Executes arbitrary Ruby code".
Definition cmd_scp : CommandRiskSpec :=
  base_spec r_high |> with_reason "Remote file transfer".
Definition cmd_screen : CommandRiskSpec :=
  base_spec r_medium |> with_reason "Runs shell commands in managed sessions".
Definition cmd_sed : CommandRiskSpec :=
  base_spec r_medium
    |> with_reason "Can write files or execute commands via sed scripts"
    |> with_sandboxAutoApprove
    |> with_filesystemOp
    |> with_argSchema (mkSchema None (Some (pos_descs [mkPosDesc role_script false; mkPosDesc role_path true])) None None)
    |> with_argRules
      [mkArgRule "sed:inplace" (Some ["-i"; "--in-place"]) None r_medium "Edits files in place"].
Definition cmd_seq : CommandRiskSpec :=
  base_spec r_low |> with_argSchema (mkSchema None (Some pos_none) None None).
Definition cmd_service : CommandRiskSpec :=
  base_spec r_high |> with_reason "Controls system services".
Definition cmd_set : CommandRiskSpec :=
  base_spec r_medium |> with_reason "Modifies shell options".
Definition cmd_sftp : CommandRiskSpec :=
  base_spec r_high |> with_reason "Remote file transfer".
Definition cmd_sh : CommandRiskSpec :=
  base_spec r_high |> with_reason "Executes arbitrary shell commands" |> with_complexSyntax.
Definition cmd_sha1sum : CommandRiskSpec :=
  base_spec r_low |> with_filesystemOp.
Definition cmd_sha256sum : CommandRiskSpec :=
  base_spec r_low |> with_filesystemOp.
Definition cmd_sha512sum : CommandRiskSpec :=
  base_spec r_low |> with_filesystemOp.
Definition cmd_shred : CommandRiskSpec :=
  base_spec r_high |> with_filesystemOp |> with_argSchema empty_schema.
Definition cmd_shuf : CommandRiskSpec :=
  base_spec r_low |> with_argSchema empty_schema.
Definition cmd_shutdown : CommandRiskSpec :=
  base_spec r_high |> with_reason "Shuts down the system".
Definition cmd_sleep : CommandRiskSpec :=
  base_spec r_low |> with_argSchema (mkSchema None (Some pos_none) None None).
Definition cmd_sort : CommandRiskSpec :=
  base_spec r_low
    |> with_sandboxAutoApprove
    |> with_filesystemOp
    |> with_argSchema (mkSchema (Some ["-o"; "--output"]) None (Some ["-o"; "--output"]) None)
    |> with_argRules
      [mkArgRule "sort:output" (Some ["-o"; "--output"]) None r_medium "Writes sorted output to file";
       mkArgRule "sort:output-sensitive" (Some ["-o"; "--output"]) (Some "(?:^|/)(?:\.ssh|\.gnupg|\.aws|\.config|\.env)\b") r_high "Writes sorted output to sensitive path"].
Definition cmd_source : CommandRiskSpec :=
  base_spec r_high |> with_reason "Executes arbitrary shell script".
Definition cmd_split : CommandRiskSpec :=
  base_spec r_medium |> with_filesystemOp |> with_argSchema empty_schema.
Definition cmd_ss : CommandRiskSpec :=
  base_spec r_low.
Definition cmd_ssh : CommandRiskSpec :=
  base_spec r_high |> with_reason "Opens remote shell".
Definition cmd_ssh_add : CommandRiskSpec :=
  base_spec r_high |> with_reason "Adds private keys to authentication agent".
Definition cmd_ssh_copy_id : CommandRiskSpec :=
  base_spec r_high |> with_reason "Modifies remote authorized_keys".
Definition cmd_ssh_keygen : CommandRiskSpec :=
  base_spec r_medium
    |> with_filesystemOp
    |> with_argSchema empty_schema
    |> with_reason "Generates and can overwrite SSH keys".
Definition cmd_stat : CommandRiskSpec :=
  base_spec r_low |> with_sandboxAutoApprove |> with_filesystemOp |> with_argSchema empty_schema.
Definition cmd_strace : CommandRiskSpec :=
  base_spec r_medium |> with_isWrapper |> with_reason "Traces system calls".
Definition cmd_strings : CommandRiskSpec :=
  base_spec r_low |> with_filesystemOp |> with_argSchema empty_schema.
Definition cmd_su : CommandRiskSpec :=
  base_spec r_high |> with_reason "Switches user identity".
Definition cmd_sudo : CommandRiskSpec :=
  base_spec r_high |> with_isWrapper |> with_reason "Elevates to superuser privileges".
Definition cmd_svn : CommandRiskSpec :=
  base_spec r_medium
    |> with_subcommands
      [("info", base_spec r_low);
       ("status", base_spec r_low);
       ("log", base_spec r_low);
       ("diff", base_spec r_low);
       ("update", base_spec r_medium);
       ("add", base_spec r_medium);
       ("commit", base_spec r_medium);
       ("delete", base_spec r_high)].
Definition cmd_sw_vers : CommandRiskSpec :=
  base_spec r_low.
Definition cmd_swift : CommandRiskSpec :=
  base_spec r_low
    |> with_subcommands
      [("package", base_spec r_low);
       ("build", base_spec r_medium);
       ("test", base_spec r_high |> with_reason "Executes arbitrary test code");
       ("run", base_spec r_high |> with_reason "Compiles and executes Swift code")].
Definition cmd_sysctl : CommandRiskSpec :=
  base_spec r_medium
    |> with_argSchema (mkSchema (Some ["-w"; "--write"; "-p"; "--load"]) None None None)
    |> with_argRules
      [mkArgRule "sysctl:write" (Some ["-w"; "--write"]) None r_high "Writes kernel parameters";
       mkArgRule "sysctl:load" (Some ["-p"; "--load"; "--system"]) None r_high "Loads kernel parameter settings"].
Definition cmd_systemctl : CommandRiskSpec :=
  base_spec r_high |> with_reason "Controls system services".
Definition cmd_tail : CommandRiskSpec :=
  base_spec r_low |> with_sandboxAutoApprove |> with_filesystemOp |> with_argSchema empty_schema.
Definition cmd_tar : CommandRiskSpec :=
  base_spec r_medium
    |> with_sandboxAutoApprove
    |> with_filesystemOp
    |> with_argSchema (mkSchema (Some ["-C"; "--directory"; "-f"; "--file"; "-I"; "--use-compress-program"; "--to-command"; "--checkpoint-action"]) None (Some ["-C"; "--directory"; "-f"; "--file"]) None)
    |> with_complexSyntax
    |> with_argRules
      [mkArgRule "tar:to-command" (Some ["--to-command"]) None r_high "Executes arbitrary command during extraction";
       mkArgRule "tar:checkpoint-action" (Some ["--checkpoint-action"]) None r_high "Executes action at checkpoints";
       mkArgRule "tar:use-compress-program" (Some ["-I"; "--use-compress-program"]) None r_high "Executes arbitrary compression program"].
Definition cmd_taskset : CommandRiskSpec :=
  base_spec r_low |> with_isWrapper.
Definition cmd_tcsh : CommandRiskSpec :=
  base_spec r_high |> with_reason "Executes arbitrary shell commands" |> with_complexSyntax.
Definition cmd_tee : CommandRiskSpec :=
  base_spec r_medium |> with_sandboxAutoApprove |> with_filesystemOp |> with_argSchema empty_schema.
Definition cmd_telnet : CommandRiskSpec :=
  base_spec r_medium |> with_reason "Opens remote terminal connection".
Definition cmd_terraform : CommandRiskSpec :=
  base_spec r_medium
    |> with_subcommands
      [("fmt", base_spec r_low);
       ("validate", base_spec r_low);
       ("plan", base_spec r_medium);
       ("apply", base_spec r_high |> with_reason "Applies infrastructure changes");
       ("destroy", base_spec r_high |> with_reason "Destroys managed infrastructure");
       ("import", base_spec r_high |> with_reason "Mutates Terraform state");
       ("state", base_spec r_medium |> with_reason "Reads or mutates Terraform state")].
Definition cmd_time : CommandRiskSpec :=
  base_spec r_low |> with_isWrapper.
Definition cmd_timeout : CommandRiskSpec :=
  base_spec r_low |> with_isWrapper |> with_nonExecFlags ["--help"; "--version"].
Definition cmd_tmux : CommandRiskSpec :=
  base_spec r_medium |> with_reason "Runs shell commands in managed sessions".
Definition cmd_top : CommandRiskSpec :=
  base_spec r_low.
Definition cmd_touch : CommandRiskSpec :=
  base_spec r_medium |> with_sandboxAutoApprove |> with_filesystemOp |> with_argSchema empty_schema.
Definition cmd_tr : CommandRiskSpec :=
  base_spec r_low |> with_sandboxAutoApprove |> with_argSchema (mkSchema None (Some pos_none) None None).
Definition cmd_tracepath : CommandRiskSpec :=
  base_spec r_low.
Definition cmd_traceroute : CommandRiskSpec :=
  base_spec r_low.
Definition cmd_tree : CommandRiskSpec :=
  base_spec r_low |> with_sandboxAutoApprove |> with_filesystemOp |> with_argSchema empty_schema.
Definition cmd_truncate : CommandRiskSpec :=
  base_spec r_medium |> with_filesystemOp |> with_argSchema empty_schema.
Definition cmd_ts_node : CommandRiskSpec :=
  base_spec r_high |> with_reason "Executes TypeScript code".
Definition cmd_tsx : CommandRiskSpec :=
  base_spec r_high |> with_reason "Executes TypeScript/JavaScript code".
Definition cmd_type : CommandRiskSpec :=
  base_spec r_low.
Definition cmd_typeset : CommandRiskSpec :=
  base_spec r_medium |> with_reason "Defines shell variables/functions".
Definition cmd_ufw : CommandRiskSpec :=
  base_spec r_high |> with_reason "Modifies firewall rules".
Definition cmd_umask : CommandRiskSpec :=
  base_spec r_medium |> with_reason "Changes default file permission mask".
Definition cmd_umount : CommandRiskSpec :=
  base_spec r_high |> with_reason "Unmounts filesystem".
Definition cmd_uname : CommandRiskSpec :=
  base_spec r_low.
Definition cmd_unexpand : CommandRiskSpec :=
  base_spec r_low |> with_filesystemOp |> with_argSchema empty_schema.
Definition cmd_uniq : CommandRiskSpec :=
  base_spec r_low |> with_sandboxAutoApprove |> with_argSchema empty_schema.
Definition cmd_unix2dos : CommandRiskSpec :=
  base_spec r_medium |> with_filesystemOp |> with_argSchema empty_schema.
Definition cmd_unlink : CommandRiskSpec :=
  base_spec r_high |> with_filesystemOp |> with_argSchema empty_schema.
Definition cmd_unset : CommandRiskSpec :=
  base_spec r_low.
Definition cmd_unxz : CommandRiskSpec :=
  base_spec r_medium |> with_filesystemOp |> with_argSchema empty_schema.
Definition cmd_unzip : CommandRiskSpec :=
  base_spec r_medium |> with_sandboxAutoApprove |> with_filesystemOp |> with_argSchema empty_schema.
Definition cmd_unzstd : CommandRiskSpec :=
  base_spec r_medium |> with_filesystemOp |> with_argSchema empty_schema.
Definition cmd_uptime : CommandRiskSpec :=
  base_spec r_low.
Definition cmd_useradd : CommandRiskSpec :=
  base_spec r_high |> with_reason "Creates system user".
Definition cmd_userdel : CommandRiskSpec :=
  base_spec r_high |> with_reason "Deletes system user".
Definition cmd_usermod : CommandRiskSpec :=
  base_spec r_high |> with_reason "Modifies system user".
Definition cmd_users : CommandRiskSpec :=
  base_spec r_low.
Definition cmd_uv : CommandRiskSpec :=
  base_spec r_medium
    |> with_subcommands
      [("sync", base_spec r_medium);
       ("add", base_spec r_medium);
       ("remove", base_spec r_medium);
       ("run", base_spec r_high |> with_reason "Executes arbitrary commands");
       ("tool", base_spec r_medium
          |> with_subcommands
            [("run", base_spec r_high |> with_reason "Executes installed tool")])].
Definition cmd_vdir : CommandRiskSpec :=
  base_spec r_low |> with_filesystemOp |> with_argSchema empty_schema.
Definition cmd_visudo : CommandRiskSpec :=
  base_spec r_high |> with_reason "Edits sudo policy".
Definition cmd_vmstat : CommandRiskSpec :=
  base_spec r_low.
Definition cmd_w : CommandRiskSpec :=
  base_spec r_low.
Definition cmd_watch : CommandRiskSpec :=
  base_spec r_medium |> with_reason "Repeatedly executes command".
Definition cmd_wc : CommandRiskSpec :=
  base_spec r_low |> with_sandboxAutoApprove |> with_filesystemOp |> with_argSchema empty_schema.
Definition cmd_wget : CommandRiskSpec :=
  base_spec r_medium
    |> with_argSchema (mkSchema (Some ["-O"; "--output-document"; "-o"; "--output-file"; "--post-file"; "--method"; "--body-data"; "--header"]) (Some pos_none) None None)
    |> with_argRules
      [mkArgRule "wget:post-file" (Some ["--post-file"]) None r_high "Uploads file contents";
       mkArgRule "wget:output-sensitive" (Some ["-O"; "--output-document"]) (Some "(?:^|/)(?:\.ssh|\.gnupg|\.aws|\.config|\.env)\b") r_high "Writes response to sensitive path";
       mkArgRule "wget:localhost" None (Some "^https?://(localhost|127\.0\.0\.1|\[::1\])") r_low "Local request"].
Definition cmd_where : CommandRiskSpec :=
  base_spec r_low.
Definition cmd_whereis : CommandRiskSpec :=
  base_spec r_low.
Definition cmd_which : CommandRiskSpec :=
  base_spec r_low.
Definition cmd_who : CommandRiskSpec :=
  base_spec r_low.
Definition cmd_whoami : CommandRiskSpec :=
  base_spec r_low.
Definition cmd_wipefs : CommandRiskSpec :=
  base_spec r_high |> with_reason "Erases filesystem and partition signatures".
Definition cmd_xargs : CommandRiskSpec :=
  base_spec r_medium |> with_complexSyntax |> with_reason "Executes command with piped arguments".
Definition cmd_xxd : CommandRiskSpec :=
  base_spec r_low.
Definition cmd_xz : CommandRiskSpec :=
  base_spec r_medium |> with_filesystemOp |> with_argSchema empty_schema.
Definition cmd_yarn : CommandRiskSpec :=
  base_spec r_medium
    |> with_subcommands
      [("list", base_spec r_low);
       ("info", base_spec r_low);
       ("why", base_spec r_low);
       ("install", base_spec r_medium);
       ("add", base_spec r_medium);
       ("remove", base_spec r_medium);
       ("test", base_spec r_high |> with_reason "Executes arbitrary package scripts");
       ("run", base_spec r_high |> with_reason "Executes arbitrary package scripts");
       ("dlx", base_spec r_high |> with_reason "Downloads and executes package")].
Definition cmd_yes : CommandRiskSpec :=
  base_spec r_low |> with_argSchema (mkSchema None (Some pos_none) None None).
Definition cmd_yq : CommandRiskSpec :=
  base_spec r_low |> with_sandboxAutoApprove |> with_argSchema empty_schema.
Definition cmd_yum : CommandRiskSpec :=
  base_spec r_high |> with_reason "Installs/removes system packages".
Definition cmd_zip : CommandRiskSpec :=
  base_spec r_medium |> with_sandboxAutoApprove |> with_filesystemOp |> with_argSchema empty_schema.
Definition cmd_zsh : CommandRiskSpec :=
  base_spec r_high |> with_reason "Executes arbitrary shell commands" |> with_complexSyntax.
Definition cmd_zstd : CommandRiskSpec :=
  base_spec r_medium |> with_filesystemOp |> with_argSchema empty_schema.
Definition cmd_zypper : CommandRiskSpec :=
  base_spec r_high |> with_reason "Installs/removes system packages".

(** ** The assistant's command line *)

Record AssistantRiskOverride := mkOverride { ov_path : string; ov_risk : RegistryRisk; ov_reason : option string }.

Definition path_words (path : string) : list string := js_filter truthy (split_spaces (js_trim path)).

(** [ensurePath]: the nodes on the path are created where they are missing. *)
Fixpoint ensure_words (words : list string) (root : CommandRiskSpec) : CommandRiskSpec :=
  match words with
  | [] => root
  | segment :: words' =>
      let subcommands := default [] (cs_subcommands root) in
      let child := default (base_spec r_low) (jget segment subcommands) in
      with_subcommands (jset segment (ensure_words words' child) subcommands) root
  end.
Definition ensurePath (root : CommandRiskSpec) (path : string) : CommandRiskSpec := ensure_words (path_words path) root.

(** A mutation of the node [getExistingPath] returns; [None]: it throws. *)
Fixpoint alter_words (f : CommandRiskSpec → CommandRiskSpec) (words : list string) (root : CommandRiskSpec) :
    option CommandRiskSpec :=
  match words with
  | [] => Some (f root)
  | segment :: words' =>
      subcommands ← cs_subcommands root;
      next ← jget segment subcommands;
      next' ← alter_words f words' next;
      Some (with_subcommands (jset segment next' subcommands) root)
  end.
Definition getExistingPath (root : CommandRiskSpec) (path : string) (f : CommandRiskSpec → CommandRiskSpec) :
    option CommandRiskSpec := alter_words f (path_words path) root.

Definition apply_override (root : option CommandRiskSpec) (o : AssistantRiskOverride) : option CommandRiskSpec :=
  spec ← root;
  getExistingPath spec (ov_path o) (λ node,
    let node' := with_baseRisk (ov_risk o) node in
    match ov_reason o with Some r => if truthy r then with_reason r node' else node' | None => node' end).

Definition ASSISTANT_SUPPORTED_COMMAND_PATHS : list string :=
  ["attachment"; "attachment register"; "attachment lookup"; "audit"; "auth"; "auth info"; "avatar";
   "avatar generate"; "avatar set"; "avatar remove"; "avatar get"; "avatar character";
   "avatar character update"; "avatar character components"; "avatar character ascii"; "backup";
   "backup enable"; "backup disable"; "backup destinations"; "backup destinations list";
   "backup destinations add"; "backup destinations remove"; "backup destinations set-encrypt"; "backup status";
   "backup list"; "backup create"; "backup restore"; "backup verify"; "bash"; "browser"; "browser navigate";
   "browser snapshot"; "browser screenshot"; "browser close"; "browser attach"; "browser detach";
   "browser click"; "browser type"; "browser press-key"; "browser scroll"; "browser select-option";
   "browser hover"; "browser wait-for"; "browser extract"; "browser wait-for-download";
   "browser fill-credential"; "browser status"; "cache"; "cache set"; "cache get"; "cache delete"; "changelog";
   "changelog list"; "changelog show"; "channel-verification-sessions"; "channel-verification-sessions create";
   "channel-verification-sessions status"; "channel-verification-sessions resend";
   "channel-verification-sessions cancel"; "channel-verification-sessions revoke"; "channels"; "channels list";
   "channels get"; "clients"; "clients disconnect"; "clients list"; "completions"; "config"; "config set";
   "config get"; "config schema"; "config list"; "config validate-allowlist"; "contacts"; "contacts list";
   "contacts get"; "contacts prompt"; "contacts channels"; "contacts channels update-status";
   "contacts invites"; "contacts invites list"; "contacts invites create"; "contacts invites revoke";
   "contacts invites redeem"; "conversations"; "conversations import"; "conversations defer";
   "conversations defer list"; "conversations defer cancel"; "conversations list"; "conversations new";
   "conversations rename"; "conversations export"; "conversations clear"; "conversations wipe";
   "conversations wake"; "credential-execution"; "credential-execution grants";
   "credential-execution grants list"; "pending"; "pending list"; "credential-execution grants revoke";
   "credential-execution audit"; "credential-execution audit list"; "credentials"; "credentials list";
   "credentials prompt"; "credentials set"; "credentials delete"; "credentials inspect"; "credentials reveal";
   "credentials status"; "db"; "db status"; "db repair"; "gateway"; "gateway logs"; "gateway logs tail";
   "image-generation"; "image-generation generate"; "inference"; "inference providers";
   "inference providers connections"; "inference providers connections create";
   "inference providers connections delete"; "inference providers connections get";
   "inference providers connections list"; "inference providers connections update"; "inference send";
   "inference session"; "inference session open"; "inference session close"; "inference session list"; "llm";
   "llm send"; "keys"; "keys list"; "keys set"; "keys delete"; "mcp"; "mcp list"; "mcp reload"; "mcp add";
   "mcp auth"; "mcp remove"; "memory"; "memory v2"; "memory v2 reembed"; "memory v2 reembed-skills";
   "memory v2 activation"; "memory v2 validate"; "memory v3"; "memory v3 rebuild-index";
   "memory v3 backfill-sections"; "notifications"; "notifications send"; "notifications list"; "oauth";
   "oauth providers"; "oauth providers list"; "oauth providers get"; "oauth providers register";
   "oauth providers update"; "oauth providers delete"; "oauth mode"; "oauth apps"; "oauth apps list";
   "oauth apps get"; "oauth apps upsert"; "oauth apps delete"; "oauth connect"; "oauth status"; "oauth ping";
   "oauth request"; "oauth disconnect"; "oauth token"; "platform"; "platform connect"; "platform status";
   "platform disconnect"; "platform callback-routes"; "platform callback-routes register";
   "platform callback-routes list"; "routes"; "routes list"; "routes inspect"; "schedules"; "schedules list";
   "schedules get"; "schedules runs"; "schedules create"; "schedules update"; "schedules enable";
   "schedules disable"; "schedules cancel"; "schedules delete"; "schedules execute"; "sequence";
   "sequence list"; "sequence get"; "sequence pause"; "sequence resume"; "sequence cancel-enrollment";
   "sequence stats"; "sequence guardrails"; "sequence guardrails show"; "sequence guardrails set"; "skills";
   "skills inspect"; "skills list"; "skills search"; "skills install"; "skills uninstall"; "skills add";
   "status"; "stt"; "stt transcribe"; "task"; "task save"; "task list"; "task run"; "task delete";
   "task queue"; "task queue show"; "task queue add"; "task queue update"; "task queue remove";
   "task queue run"; "telemetry"; "telemetry flush"; "tools"; "tools list"; "trust"; "trust list"; "tts";
   "tts synthesize"; "ui"; "ui request"; "ui confirm"; "usage"; "usage totals"; "usage daily";
   "usage breakdown"; "watchers"; "watchers list"; "watchers create"; "watchers update"; "watchers delete";
   "watchers digest"; "webhooks"; "webhooks register"; "webhooks list"; "domain"; "domain register";
   "domain status"; "email"; "email register"; "email unregister"; "email status"; "email list";
   "email download"; "email send"; "email attachment"; "plugins"; "plugins install"; "plugins inspect";
   "plugins list"; "plugins search"; "plugins uninstall"; "plugins upgrade"].

Definition riskOverrides : list AssistantRiskOverride :=
  [mkOverride "oauth token" r_high (Some "Exposes OAuth access token");
   mkOverride "credentials prompt" r_low (Some "Prompts user for credential via secure UI — user has full control");
   mkOverride "credentials reveal" r_high (Some "Reveals stored credential value");
   mkOverride "credentials set" r_high (Some "Stores or updates credential value");
   mkOverride "credentials delete" r_high (Some "Deletes stored credential value");
   mkOverride "keys set" r_high (Some "Stores API key material");
   mkOverride "keys delete" r_high (Some "Deletes API key material");
   mkOverride "backup restore" r_high (Some "Restores backup and overwrites workspace state");
   mkOverride "conversations clear" r_medium (Some "Deletes conversation history");
   mkOverride "conversations wipe" r_high (Some "Deletes specific conversation data");
   mkOverride "attachment register" r_medium None;
   mkOverride "avatar generate" r_low None;
   mkOverride "avatar set" r_low None;
   mkOverride "avatar remove" r_low None;
   mkOverride "avatar character update" r_low None;
   mkOverride "backup enable" r_low None;
   mkOverride "backup disable" r_high None;
   mkOverride "backup destinations add" r_high None;
   mkOverride "backup destinations remove" r_high None;
   mkOverride "backup destinations set-encrypt" r_high None;
   mkOverride "backup create" r_low None;
   mkOverride "cache set" r_low None;
   mkOverride "cache delete" r_low None;
   mkOverride "channel-verification-sessions create" r_high None;
   mkOverride "channel-verification-sessions resend" r_high None;
   mkOverride "channel-verification-sessions cancel" r_low None;
   mkOverride "channel-verification-sessions revoke" r_low None;
   mkOverride "config set" r_low None;
   mkOverride "contacts prompt" r_medium None;
   mkOverride "contacts channels update-status" r_medium None;
   mkOverride "contacts invites create" r_high None;
   mkOverride "contacts invites revoke" r_medium None;
   mkOverride "contacts invites redeem" r_high None;
   mkOverride "conversations import" r_high None;
   mkOverride "conversations defer" r_low None;
   mkOverride "conversations defer cancel" r_low None;
   mkOverride "conversations new" r_low None;
   mkOverride "conversations rename" r_low None;
   mkOverride "conversations wake" r_low None;
   mkOverride "credential-execution grants revoke" r_medium None;
   mkOverride "db repair" r_medium (Some "Runs the database repair sequence. First step is a read-only integrity check; future steps will mutate the SQLite database to recover state.");
   mkOverride "domain register" r_medium None;
   mkOverride "email register" r_medium None;
   mkOverride "email unregister" r_medium None;
   mkOverride "email send" r_high None;
   mkOverride "image-generation generate" r_medium None;
   mkOverride "inference send" r_medium None;
   mkOverride "inference providers connections list" r_low (Some "Read-only listing of provider_connection rows");
   mkOverride "inference providers connections get" r_low (Some "Read-only fetch of a single provider_connection row");
   mkOverride "inference providers connections create" r_medium (Some "Inserts a provider_connection row referenced by inference profiles");
   mkOverride "inference providers connections update" r_medium (Some "Mutates provider_connection auth config in place");
   mkOverride "inference providers connections delete" r_medium (Some "Deletes a provider_connection row; refuses unless --force when profiles still reference it");
   mkOverride "llm send" r_medium None;
   mkOverride "inference session open" r_low (Some "Opens a reversible conversation-scoped profile session; server validates the profile name");
   mkOverride "inference session close" r_low (Some "Closes an active profile session; idempotent");
   mkOverride "inference session list" r_low (Some "Read-only listing of active sessions");
   mkOverride "mcp reload" r_low None;
   mkOverride "mcp add" r_high None;
   mkOverride "mcp auth" r_medium None;
   mkOverride "mcp remove" r_low None;
   mkOverride "memory v2 reembed" r_medium (Some "Enqueues bulk re-embedding of every concept page");
   mkOverride "memory v2 reembed-skills" r_medium (Some "Synchronously re-seeds the v2 skill catalog into the concept-page collection");
   mkOverride "memory v2 activation" r_medium (Some "Enqueues recompute of persisted activation state");
   mkOverride "memory v2 validate" r_low (Some "Read-only diagnostic walk over concept pages and edges");
   mkOverride "memory v3 backfill-sections" r_medium (Some "Embeds every page's sections into the v3 dense store and advances the maintain checkpoint");
   mkOverride "memory v3 rebuild-index" r_low (Some "Invalidates the in-memory v3 section lanes so they rebuild on the next turn");
   mkOverride "notifications send" r_low None;
   mkOverride "oauth request" r_medium (Some "Makes authenticated OAuth request");
   mkOverride "oauth connect" r_low (Some "Creates OAuth connection");
   mkOverride "oauth disconnect" r_medium (Some "Removes OAuth connection");
   mkOverride "oauth providers register" r_medium None;
   mkOverride "oauth providers update" r_medium None;
   mkOverride "oauth providers delete" r_medium None;
   mkOverride "oauth apps delete" r_medium None;
   mkOverride "platform connect" r_low None;
   mkOverride "platform disconnect" r_medium None;
   mkOverride "platform callback-routes register" r_low None;
   mkOverride "schedules create" r_medium (Some "Creates a new recurring schedule that fires assistant-side messages");
   mkOverride "schedules update" r_medium (Some "Updates schedule fields (expression, message, mode, script) and mutates assistant schedule state");
   mkOverride "schedules enable" r_medium (Some "Enables a schedule and mutates assistant schedule state");
   mkOverride "schedules disable" r_medium (Some "Disables a schedule and mutates assistant schedule state");
   mkOverride "schedules cancel" r_medium (Some "Cancels a pending schedule and mutates assistant schedule state");
   mkOverride "schedules delete" r_medium (Some "Permanently removes a schedule and its run history from assistant state");
   mkOverride "schedules execute" r_high (Some "Triggers immediate schedule execution. Script-mode schedules shell out via sh -c on the host, and the schedule ID arg is opaque to the classifier — must conservatively assume host shell execution");
   mkOverride "sequence pause" r_medium None;
   mkOverride "sequence resume" r_medium None;
   mkOverride "sequence cancel-enrollment" r_medium None;
   mkOverride "sequence guardrails set" r_medium None;
   mkOverride "plugins install" r_high (Some "Fetches and installs external plugin code from GitHub");
   mkOverride "plugins uninstall" r_medium (Some "Removes an installed plugin and all its files from the workspace");
   mkOverride "plugins upgrade" r_high (Some "Fetches and re-installs external plugin code from GitHub");
   mkOverride "skills install" r_high None;
   mkOverride "skills uninstall" r_medium None;
   mkOverride "skills add" r_high None;
   mkOverride "stt transcribe" r_medium None;
   mkOverride "task save" r_medium None;
   mkOverride "task run" r_medium None;
   mkOverride "task delete" r_medium None;
   mkOverride "task queue add" r_medium None;
   mkOverride "task queue update" r_medium None;
   mkOverride "task queue remove" r_medium None;
   mkOverride "task queue run" r_medium None;
   mkOverride "tts synthesize" r_medium None;
   mkOverride "watchers create" r_medium None;
   mkOverride "watchers update" r_medium None;
   mkOverride "watchers delete" r_medium None;
   mkOverride "webhooks register" r_high None;
   mkOverride "browser navigate" r_medium None;
   mkOverride "browser close" r_medium None;
   mkOverride "browser attach" r_medium None;
   mkOverride "browser detach" r_low None;
   mkOverride "browser click" r_medium None;
   mkOverride "browser type" r_medium None;
   mkOverride "browser press-key" r_medium None;
   mkOverride "browser scroll" r_low None;
   mkOverride "browser select-option" r_medium None;
   mkOverride "browser hover" r_low None;
   mkOverride "browser wait-for" r_low None;
   mkOverride "browser wait-for-download" r_medium None;
   mkOverride "browser fill-credential" r_high None].

Definition oauthModeArgRules : list ArgRule :=
  [mkArgRule "assistant-oauth-mode:set" (Some ["--set"]) None r_high "Changes OAuth mode"].

Definition assistantBashArgRules : list ArgRule :=
  [mkArgRule "assistant-bash:command" None (Some "^(?!bash$|--help$|-h$).+") r_high "Executes arbitrary shell command"].

Definition scheduleUpdateArgRules : list ArgRule :=
  [mkArgRule "assistant-schedules-update:script" (Some ["--script"]) None r_high "Persists an arbitrary shell command that the schedule executes on fire";
   mkArgRule "assistant-schedules-update:mode-script" (Some ["--mode"]) (Some "^script$") r_high "Switches the schedule to script mode (host shell execution on fire)"].

Definition assistant_paths : CommandRiskSpec :=
  ensurePath (foldl ensurePath (base_spec r_low |> with_subcommands []) ASSISTANT_SUPPORTED_COMMAND_PATHS) "help".

Definition assistant_spec : option CommandRiskSpec :=
  spec ← foldl apply_override (Some assistant_paths) riskOverrides;
  spec ← getExistingPath spec "oauth mode" (with_argRules oauthModeArgRules);
  spec ← getExistingPath spec "bash" (with_argRules assistantBashArgRules);
  getExistingPath spec "schedules update" (λ node,
    node |> with_argRules scheduleUpdateArgRules |> with_argSchema (mkSchema (Some ["--mode"; "--script"]) None None None)).

Definition cmd_assistant : CommandRiskSpec := default (base_spec r_low) assistant_spec.

(** ** The registry *)
Definition DEFAULT_COMMAND_REGISTRY : Registry :=
  [("7z", cmd__7z);
   ("7za", cmd__7za);
   ("ack", cmd_ack);
   ("adduser", cmd_adduser);
   ("ag", cmd_ag);
   ("alias", cmd_alias);
   ("ant", cmd_ant);
   ("apk", cmd_apk);
   ("apt", cmd_apt);
   ("apt-get", cmd_apt_get);
   ("assistant", cmd_assistant);
   ("at", cmd_at);
   ("awk", cmd_awk);
   ("aws", cmd_aws);
   ("az", cmd_az);
   ("b2sum", cmd_b2sum);
   ("base64", cmd_base64);
   ("basename", cmd_basename);
   ("bash", cmd_bash);
   ("bazel", cmd_bazel);
   ("brew", cmd_brew);
   ("bun", cmd_bun);
   ("bunx", cmd_bunx);
   ("bunzip2", cmd_bunzip2);
   ("bzip2", cmd_bzip2);
   ("cal", cmd_cal);
   ("cargo", cmd_cargo);
   ("cat", cmd_cat);
   ("cd", cmd_cd);
   ("chgrp", cmd_chgrp);
   ("chmod", cmd_chmod);
   ("chown", cmd_chown);
   ("chroot", cmd_chroot);
   ("cksum", cmd_cksum);
   ("cmake", cmd_cmake);
   ("cmp", cmd_cmp);
   ("column", cmd_column);
   ("comm", cmd_comm);
   ("command", cmd_command);
   ("composer", cmd_composer);
   ("cp", cmd_cp);
   ("crontab", cmd_crontab);
   ("csplit", cmd_csplit);
   ("curl", cmd_curl);
   ("cut", cmd_cut);
   ("dash", cmd_dash);
   ("date", cmd_date);
   ("dd", cmd_dd);
   ("declare", cmd_declare);
   ("defaults", cmd_defaults);
   ("deluser", cmd_deluser);
   ("deno", cmd_deno);
   ("df", cmd_df);
   ("diff", cmd_diff);
   ("dig", cmd_dig);
   ("dir", cmd_dir);
   ("dirname", cmd_dirname);
   ("dmesg", cmd_dmesg);
   ("dnf", cmd_dnf);
   ("doas", cmd_doas);
   ("docker", cmd_docker);
   ("dos2unix", cmd_dos2unix);
   ("du", cmd_du);
   ("echo", cmd_echo);
   ("egrep", cmd_egrep);
   ("env", cmd_env);
   ("eval", cmd_eval);
   ("exec", cmd_exec);
   ("expand", cmd_expand);
   ("export", cmd_export);
   ("fd", cmd_fd);
   ("fdisk", cmd_fdisk);
   ("fgrep", cmd_fgrep);
   ("file", cmd_file);
   ("find", cmd_find);
   ("firewall-cmd", cmd_firewall_cmd);
   ("fish", cmd_fish);
   ("fmt", cmd_fmt);
   ("fold", cmd_fold);
   ("free", cmd_free);
   ("ftp", cmd_ftp);
   ("gcloud", cmd_gcloud);
   ("gem", cmd_gem);
   ("gh", cmd_gh);
   ("git", cmd_git);
   ("go", cmd_go);
   ("gradle", cmd_gradle);
   ("grep", cmd_grep);
   ("groupadd", cmd_groupadd);
   ("groupdel", cmd_groupdel);
   ("groupmod", cmd_groupmod);
   ("groups", cmd_groups);
   ("gunzip", cmd_gunzip);
   ("gzip", cmd_gzip);
   ("halt", cmd_halt);
   ("head", cmd_head);
   ("helm", cmd_helm);
   ("help", cmd_help);
   ("hexdump", cmd_hexdump);
   ("hg", cmd_hg);
   ("history", cmd_history);
   ("host", cmd_host);
   ("hostname", cmd_hostname);
   ("htop", cmd_htop);
   ("http", cmd_http);
   ("iconv", cmd_iconv);
   ("id", cmd_id);
   ("ifconfig", cmd_ifconfig);
   ("info", cmd_info);
   ("install", cmd_install);
   ("ionice", cmd_ionice);
   ("iostat", cmd_iostat);
   ("ip", cmd_ip);
   ("ip6tables", cmd_ip6tables);
   ("iptables", cmd_iptables);
   ("java", cmd_java);
   ("javac", cmd_javac);
   ("join", cmd_join);
   ("jq", cmd_jq);
   ("kill", cmd_kill);
   ("killall", cmd_killall);
   ("ksh", cmd_ksh);
   ("kubectl", cmd_kubectl);
   ("last", cmd_last);
   ("launchctl", cmd_launchctl);
   ("less", cmd_less);
   ("ln", cmd_ln);
   ("locate", cmd_locate);
   ("loginctl", cmd_loginctl);
   ("ls", cmd_ls);
   ("lsof", cmd_lsof);
   ("ltrace", cmd_ltrace);
   ("lua", cmd_lua);
   ("make", cmd_make);
   ("man", cmd_man);
   ("md5", cmd_md5);
   ("md5sum", cmd_md5sum);
   ("meson", cmd_meson);
   ("mkdir", cmd_mkdir);
   ("mkfs", cmd_mkfs);
   ("mktemp", cmd_mktemp);
   ("more", cmd_more);
   ("mount", cmd_mount);
   ("mtr", cmd_mtr);
   ("mv", cmd_mv);
   ("mvn", cmd_mvn);
   ("nc", cmd_nc);
   ("netcat", cmd_netcat);
   ("netstat", cmd_netstat);
   ("networksetup", cmd_networksetup);
   ("nft", cmd_nft);
   ("nice", cmd_nice);
   ("ninja", cmd_ninja);
   ("nl", cmd_nl);
   ("nmap", cmd_nmap);
   ("nmcli", cmd_nmcli);
   ("node", cmd_node);
   ("nohup", cmd_nohup);
   ("npm", cmd_npm);
   ("npx", cmd_npx);
   ("nslookup", cmd_nslookup);
   ("od", cmd_od);
   ("openssl", cmd_openssl);
   ("pacman", cmd_pacman);
   ("parted", cmd_parted);
   ("passwd", cmd_passwd);
   ("paste", cmd_paste);
   ("perl", cmd_perl);
   ("pgrep", cmd_pgrep);
   ("php", cmd_php);
   ("ping", cmd_ping);
   ("pip", cmd_pip);
   ("pip3", cmd_pip3);
   ("pipx", cmd_pipx);
   ("pkill", cmd_pkill);
   ("plocate", cmd_plocate);
   ("pnpm", cmd_pnpm);
   ("pnpx", cmd_pnpx);
   ("poetry", cmd_poetry);
   ("popd", cmd_popd);
   ("port", cmd_port);
   ("poweroff", cmd_poweroff);
   ("powershell", cmd_powershell);
   ("pr", cmd_pr);
   ("printenv", cmd_printenv);
   ("printf", cmd_printf);
   ("ps", cmd_ps);
   ("pstree", cmd_pstree);
   ("pushd", cmd_pushd);
   ("pwd", cmd_pwd);
   ("pwsh", cmd_pwsh);
   ("python", cmd_python);
   ("python3", cmd_python3);
   ("R", cmd_R);
   ("readlink", cmd_readlink);
   ("readonly", cmd_readonly);
   ("realpath", cmd_realpath);
   ("reboot", cmd_reboot);
   ("renice", cmd_renice);
   ("rev", cmd_rev);
   ("rg", cmd_rg);
   ("rm", cmd_rm);
   ("rmdir", cmd_rmdir);
   ("route", cmd_route);
   ("Rscript", cmd_Rscript);
   ("rsync", cmd_rsync);
   ("ruby", cmd_ruby);
   ("scp", cmd_scp);
   ("screen", cmd_screen);
   ("sed", cmd_sed);
   ("seq", cmd_seq);
   ("service", cmd_service);
   ("set", cmd_set);
   ("sftp", cmd_sftp);
   ("sh", cmd_sh);
   ("sha1sum", cmd_sha1sum);
   ("sha256sum", cmd_sha256sum);
   ("sha512sum", cmd_sha512sum);
   ("shred", cmd_shred);
   ("shuf", cmd_shuf);
   ("shutdown", cmd_shutdown);
   ("sleep", cmd_sleep);
   ("sort", cmd_sort);
   ("source", cmd_source);
   ("split", cmd_split);
   ("ss", cmd_ss);
   ("ssh", cmd_ssh);
   ("ssh-add", cmd_ssh_add);
   ("ssh-copy-id", cmd_ssh_copy_id);
   ("ssh-keygen", cmd_ssh_keygen);
   ("stat", cmd_stat);
   ("strace", cmd_strace);
   ("strings", cmd_strings);
   ("su", cmd_su);
   ("sudo", cmd_sudo);
   ("svn", cmd_svn);
   ("sw_vers", cmd_sw_vers);
   ("swift", cmd_swift);
   ("sysctl", cmd_sysctl);
   ("systemctl", cmd_systemctl);
   ("tail", cmd_tail);
   ("tar", cmd_tar);
   ("taskset", cmd_taskset);
   ("tcsh", cmd_tcsh);
   ("tee", cmd_tee);
   ("telnet", cmd_telnet);
   ("terraform", cmd_terraform);
   ("time", cmd_time);
   ("timeout", cmd_timeout);
   ("tmux", cmd_tmux);
   ("top", cmd_top);
   ("touch", cmd_touch);
   ("tr", cmd_tr);
   ("tracepath", cmd_tracepath);
   ("traceroute", cmd_traceroute);
   ("tree", cmd_tree);
   ("truncate", cmd_truncate);
   ("ts-node", cmd_ts_node);
   ("tsx", cmd_tsx);
   ("type", cmd_type);
   ("typeset", cmd_typeset);
   ("ufw", cmd_ufw);
   ("umask", cmd_umask);
   ("umount", cmd_umount);
   ("uname", cmd_uname);
   ("unexpand", cmd_unexpand);
   ("uniq", cmd_uniq);
   ("unix2dos", cmd_unix2dos);
   ("unlink", cmd_unlink);
   ("unset", cmd_unset);
   ("unxz", cmd_unxz);
   ("unzip", cmd_unzip);
   ("unzstd", cmd_unzstd);
   ("uptime", cmd_uptime);
   ("useradd", cmd_useradd);
   ("userdel", cmd_userdel);
   ("usermod", cmd_usermod);
   ("users", cmd_users);
   ("uv", cmd_uv);
   ("vdir", cmd_vdir);
   ("visudo", cmd_visudo);
   ("vmstat", cmd_vmstat);
   ("w", cmd_w);
   ("watch", cmd_watch);
   ("wc", cmd_wc);
   ("wget", cmd_wget);
   ("where", cmd_where);
   ("whereis", cmd_whereis);
   ("which", cmd_which);
   ("who", cmd_who);
   ("whoami", cmd_whoami);
   ("wipefs", cmd_wipefs);
   ("xargs", cmd_xargs);
   ("xxd", cmd_xxd);
   ("xz", cmd_xz);
   ("yarn", cmd_yarn);
   ("yes", cmd_yes);
   ("yq", cmd_yq);
   ("yum", cmd_yum);
   ("zip", cmd_zip);
   ("zsh", cmd_zsh);
   ("zstd", cmd_zstd);
   ("zypper", cmd_zypper)].
