(* ===== verification/ArgParser.v ===== *)
(** * Parsing a command's arguments

    [parseArgs] of src/gateway/src/risk/arg-parser.ts: each token of a command line
    is a flag, a flag's value or a positional, and some are paths. *)
From S2P Require Import Prelude JsText RiskTypes.

Definition is_flag (token : string) : bool := startsWith token "-".
Arguments is_flag : simpl never.

(** The descriptor of a positional: its own, or the last one for all the rest. *)
Definition positional_desc (index : nat) (descs : list PositionalDesc) : option PositionalDesc :=
  if (index <? length descs)%nat then descs !! index else js_find pd_rest (rev descs).

Definition positional_is_path (index : nat) (positionalsDef : option Positionals) : bool :=
  match positionalsDef with
  | None | Some pos_paths => true
  | Some pos_none => false
  | Some (pos_descs descs) =>
      match positional_desc index descs with
      | Some desc => bool_decide (pd_role desc = role_path)
      | None => true
      end
  end.

Definition addIfPath (token : string) (index : nat) (positionalsDef : option Positionals) (pathArgs : list string) :
    list string :=
  if positional_is_path index positionalsDef then pathArgs ++ [token] else pathArgs.

Definition in_opt (x : string) (l : option (list string)) : bool :=
  match l with Some l => bool_decide (x ∈ l) | None => false end.
Definition add_value (pathFlags : option (list string)) (flag value : string) (p : ParsedArgs) : ParsedArgs :=
  mkParsedArgs (jset flag (flag_value value) (pa_flags p)) (pa_positionals p)
    (if in_opt flag pathFlags then pa_pathArgs p ++ [value] else pa_pathArgs p) (pa_sawDoubleDash p).
Definition add_flag (flag : string) (p : ParsedArgs) : ParsedArgs :=
  mkParsedArgs (jset flag flag_true (pa_flags p)) (pa_positionals p) (pa_pathArgs p) (pa_sawDoubleDash p).
Definition add_positional (schema : ArgSchema) (token : string) (p : ParsedArgs) : ParsedArgs :=
  mkParsedArgs (pa_flags p) (pa_positionals p ++ [token])
    (addIfPath token (length (pa_positionals p)) (as_positionals schema) (pa_pathArgs p)) (pa_sawDoubleDash p).
Definition set_double_dash (p : ParsedArgs) : ParsedArgs :=
  mkParsedArgs (pa_flags p) (pa_positionals p) (pa_pathArgs p) true.

(** [--flag=value] for a flag that takes a value. *)
Definition split_eq (token : string) : option (string * string) :=
  i ← str_indexOf "=" token; Some (str_take i token, str_drop (Datatypes.S i) token).
Definition inline_value (schema : ArgSchema) (token : string) : option (string * string) :=
  if is_flag token then
    '(flagName, flagValue) ← split_eq token;
    if in_opt flagName (as_valueFlags schema) then Some (flagName, flagValue) else None
  else None.

Fixpoint parse_tokens (schema : ArgSchema) (args : list string) (p : ParsedArgs) : ParsedArgs :=
  match args with
  | [] => p
  | token :: rest =>
      if pa_sawDoubleDash p then parse_tokens schema rest (add_positional schema token p)
      else if eqs token "--" && default true (as_respectsDoubleDash schema) then
        parse_tokens schema rest (set_double_dash p)
      else if is_flag token && in_opt token (as_valueFlags schema) then
        match rest with
        | value :: rest' => parse_tokens schema rest' (add_value (as_pathFlags schema) token value p)
        | [] => add_flag token p
        end
      else match inline_value schema token with
      | Some (flagName, flagValue) => parse_tokens schema rest (add_value (as_pathFlags schema) flagName flagValue p)
      | None =>
          if is_flag token then parse_tokens schema rest (add_flag token p)
          else parse_tokens schema rest (add_positional schema token p)
      end
  end.

Definition parseArgs (args : list string) (schema : ArgSchema) : ParsedArgs :=
  parse_tokens schema args (mkParsedArgs [] [] [] false).

(** ** What a token turns into *)

(** The tokens by their role. *)
Inductive Token := tok_dash | tok_flag (f : string) | tok_value (f v : string) | tok_inline (f v : string) | tok_pos (s : string).

Definition spelled (t : Token) : list string :=
  match t with
  | tok_dash => ["--"]
  | tok_flag f => [f]
  | tok_value f v => [f; v]
  | tok_inline f v => [f +:+ "=" +:+ v]
  | tok_pos s => [s]
  end.

Definition positional_of (t : Token) : list string := match t with tok_pos s => [s] | _ => [] end.
Definition value_of (t : Token) : list string := match t with tok_value _ v | tok_inline _ v => [v] | _ => [] end.

(** The effect of a token on what has been parsed. *)
Definition absorb (schema : ArgSchema) (p : ParsedArgs) (t : Token) : ParsedArgs :=
  match t with
  | tok_dash => set_double_dash p
  | tok_flag f => add_flag f p
  | tok_value f v | tok_inline f v => add_value (as_pathFlags schema) f v p
  | tok_pos s => add_positional schema s p
  end.

(** What a token may be at its place. *)
Definition token_ok (schema : ArgSchema) (saw : bool) (t : Token) : Prop :=
  match t with
  | tok_dash => saw = false ∧ as_respectsDoubleDash schema ≠ Some false
  | tok_flag f => saw = false ∧ is_flag f = true
  | tok_value f v => saw = false ∧ is_flag f = true ∧ in_opt f (as_valueFlags schema) = true
  | tok_inline f v => saw = false ∧ in_opt f (as_valueFlags schema) = true ∧ is_flag (f +:+ "=" +:+ v) = true
  | tok_pos s => saw = true ∨ is_flag s = false
  end.

Fixpoint tokens_ok (schema : ArgSchema) (saw : bool) (ts : list Token) : Prop :=
  match ts with
  | [] => True
  | t :: ts' => token_ok schema saw t ∧ tokens_ok schema (saw || match t with tok_dash => true | _ => false end) ts'
  end.

Lemma split_eq_spec token f v : split_eq token = Some (f, v) → token = f +:+ "=" +:+ v.
Proof.
  unfold split_eq. revert f v. induction token as [|c s IH]; intros f v; [done|]. cbn.
  destruct (bool_decide (c = "="%char)) eqn:Hc.
  - apply bool_decide_eq_true in Hc as ->. cbn. intros [= <- <-]. done.
  - destruct (str_indexOf "=" s) as [i|]; [|done]. cbn in *. intros [= <- <-].
    by rewrite (IH _ _ eq_refl) at 1.
Qed.

Lemma inline_value_spec schema token f v : inline_value schema token = Some (f, v) →
  token = f +:+ "=" +:+ v ∧ in_opt f (as_valueFlags schema) = true ∧ is_flag token = true.
Proof.
  unfold inline_value. destruct (is_flag token); [|done]. destruct (split_eq token) as [[f' v']|] eqn:Hs; [|done].
  cbn. destruct (in_opt f' (as_valueFlags schema)) eqn:Hv; [|done]. intros [= <- <-].
  split_and!; [by apply split_eq_spec|done|done].
Qed.

(** The arguments are cut into tokens, none left out and in order, and the result is
    what the tokens add up to. *)
Lemma parse_tokens_spec schema args p : ∃ ts,
  mjoin (spelled <$> ts) = args ∧ tokens_ok schema (pa_sawDoubleDash p) ts
  ∧ parse_tokens schema args p = foldl (absorb schema) p ts.
Proof.
  remember (length args) as n eqn:Hn. revert args p Hn. induction (lt_wf n) as [n _ IH]. intros args p ->.
  destruct args as [|token rest]; [by exists []|]. cbn [parse_tokens].
  assert (Hstep : ∀ t rest' args', spelled t ++ rest' = args' → (length rest' < length args')%nat →
    length args' = length (token :: rest) → token_ok schema (pa_sawDoubleDash p) t →
    pa_sawDoubleDash (absorb schema p t) = pa_sawDoubleDash p || match t with tok_dash => true | _ => false end →
    ∃ ts, mjoin (spelled <$> ts) = args' ∧ tokens_ok schema (pa_sawDoubleDash p) ts
      ∧ parse_tokens schema rest' (absorb schema p t) = foldl (absorb schema) p ts).
  { intros t rest' args' <- Hlt Hlen Ht Hsaw. rewrite Hlen in Hlt.
    destruct (IH _ Hlt rest' (absorb schema p t) eq_refl) as (ts & <- & Hok & ->).
    exists (t :: ts). split_and!; [done| |done]. cbn. split; [done|]. by rewrite <- Hsaw. }
  destruct (pa_sawDoubleDash p) eqn:Hsaw.
  { apply (Hstep (tok_pos token) rest); cbn; [done|lia|done|by left|by rewrite Hsaw]. }
  destruct (eqs token "--" && default true (as_respectsDoubleDash schema)) eqn:Hd.
  { apply andb_true_iff in Hd as [->%bool_decide_eq_true Hr].
    apply (Hstep tok_dash rest); cbn; [done|lia|done|split; [done|by intros Hx; rewrite Hx in Hr]|done]. }
  destruct (is_flag token && in_opt token (as_valueFlags schema)) eqn:Hv.
  { apply andb_true_iff in Hv as [Hf Hv]. destruct rest as [|value rest'].
    - exists [tok_flag token]. by split_and!.
    - apply (Hstep (tok_value token value) rest'); cbn; [done|lia|done|done|by rewrite Hsaw]. }
  destruct (inline_value schema token) as [[f v]|] eqn:Hi.
  { apply inline_value_spec in Hi as (Ht & Hv' & Hf).
    apply (Hstep (tok_inline f v) rest); cbn; [by rewrite Ht|lia|done|by rewrite <- Ht|by rewrite Hsaw]. }
  destruct (is_flag token) eqn:Hf.
  - apply (Hstep (tok_flag token) rest); cbn; [done|lia|done|done|by rewrite Hsaw].
  - apply (Hstep (tok_pos token) rest); cbn; [done|lia|done|by right|by rewrite Hsaw].
Qed.

Lemma absorb_positionals schema ts p :
  pa_positionals (foldl (absorb schema) p ts) = pa_positionals p ++ mjoin (positional_of <$> ts).
Proof.
  revert p. induction ts as [|t ts IH]; intros p; cbn; [by rewrite app_nil_r|]. rewrite IH.
  destruct t; cbn; rewrite <- ?app_assoc; done.
Qed.

Lemma absorb_paths schema ts p path : path ∈ pa_pathArgs (foldl (absorb schema) p ts) →
  path ∈ pa_pathArgs p ∨ path ∈ mjoin (positional_of <$> ts) ∨ path ∈ mjoin (value_of <$> ts).
Proof.
  revert p. induction ts as [|t ts IH]; intros p; cbn; [by left|]. intros H%IH. rewrite !elem_of_app.
  destruct H as [H|[H|H]]; [|by auto|by auto].
  destruct t as [|f|f v|f v|s]; cbn in H; [by auto|by auto| | |]; unfold add_value, addIfPath in H; cbn in H.
  - destruct (in_opt _ _); [|by auto]. apply elem_of_app in H as [H|H]; cbn; auto.
  - destruct (in_opt _ _); [|by auto]. apply elem_of_app in H as [H|H]; cbn; auto.
  - destruct (positional_is_path _ _); [|by auto]. apply elem_of_app in H as [H|H]; cbn; auto.
Qed.

(** Every positional is one of the arguments. *)
Lemma positionals_args schema args s : s ∈ pa_positionals (parseArgs args schema) → s ∈ args.
Proof.
  unfold parseArgs. destruct (parse_tokens_spec schema args (mkParsedArgs [] [] [] false)) as (ts & <- & _ & ->).
  rewrite absorb_positionals. cbn. rewrite !list_elem_of_join. intros (l & Hs & (t & -> & Ht)%list_elem_of_fmap).
  exists (spelled t). split; [|by apply list_elem_of_fmap; eauto]. destruct t; cbn in *; try by apply elem_of_nil in Hs. done.
Qed.

(** A plain argument that is not a flag is a positional, unless it is the value of the
    flag before it. *)
Lemma positional_or_value schema args s : s ∈ args → is_flag s = false →
  s ∈ pa_positionals (parseArgs args schema)
  ∨ ∃ i f, args !! i = Some f ∧ args !! Datatypes.S i = Some s ∧ is_flag f = true ∧ in_opt f (as_valueFlags schema) = true.
Proof.
  unfold parseArgs. destruct (parse_tokens_spec schema args (mkParsedArgs [] [] [] false)) as (ts & <- & Hok & ->).
  rewrite absorb_positionals. intros Hs Hf. cbn [pa_positionals pa_sawDoubleDash app] in *.
  set (saw := false) in Hok. clearbody saw. revert saw Hok.
  induction ts as [|t ts IH]; intros saw; cbn; [by apply elem_of_nil in Hs|]. intros [Ht Hok].
  cbn in Hs. apply elem_of_app in Hs as [Hs|Hs].
  - destruct t as [|f|f v|f v|s']; cbn in Hs, Ht.
    + apply list_elem_of_singleton in Hs as ->. discriminate Hf.
    + apply list_elem_of_singleton in Hs as ->. destruct Ht; congruence.
    + destruct Ht as (_ & Hf' & Hv). rewrite !elem_of_cons in Hs. destruct Hs as [->|[->|[]%elem_of_nil]]; [congruence|].
      right. exists 0%nat, f. done.
    + apply list_elem_of_singleton in Hs as ->. destruct Ht as (? & ? & ?). congruence.
    + apply list_elem_of_singleton in Hs as ->. left. cbn. by left.
  - destruct (IH Hs _ Hok) as [H|(i & f & H1 & H2 & H3)].
    + left. rewrite elem_of_app. by right.
    + right. exists (length (spelled t) + i)%nat, f. rewrite plus_n_Sm, !lookup_app_r by lia.
      by replace (length (spelled t) + i - length (spelled t))%nat with i by lia;
        replace (length (spelled t) + Datatypes.S i - length (spelled t))%nat with (Datatypes.S i) by lia.
Qed.
