(* ===== verification/TrustRules.v ===== *)
(** * Trust rules

    The user's rules about the risk of commands and tools: the table
    (src/gateway/src/db/trust-rule-store.ts), its default rows, taken from the command
    registry (seed-trust-rules.ts), and the cache the classifiers read
    (src/gateway/src/risk/trust-rule-cache.ts).

    The table is the list of its rows; [id] is its primary key and ([tool], [pattern])
    has a unique index.  Risks are stored as text. *)
From S2P Require Import Prelude JsText RiskTypes CommandRegistry.

Inductive RuleOrigin := origin_default | origin_user_defined.
#[export] Instance RuleOrigin_eq_dec : EqDecision RuleOrigin.
Proof. solve_decision. Defined.

Record RuleRow := mkRuleRow {
  rr_id : string;
  rr_tool : string;
  rr_pattern : string;
  rr_risk : string;
  rr_description : string;
  rr_origin : RuleOrigin;
  rr_userModified : bool;
  rr_deleted : bool;
  rr_createdAt : Z;
  rr_updatedAt : Z;
}.
#[export] Instance RuleRow_eq_dec : EqDecision RuleRow.
Proof. solve_decision. Defined.

Record TrustRule := mkTrustRule {
  tr_id : string;
  tr_tool : string;
  tr_pattern : string;
  tr_risk : RegistryRisk;
  tr_description : string;
  tr_origin : RuleOrigin;
  tr_userModified : bool;
  tr_deleted : bool;
  tr_createdAt : Z;
  tr_updatedAt : Z;
}.

Inductive StoreError := invalid_risk (risk : string) | rule_not_found (id : string) | not_default (id : string) | constraint_failed.

(** [VALID_RISK_VALUES.has(value)] *)
Definition valid_risk (value : string) : option RegistryRisk :=
  if eqs value "low" then Some r_low else if eqs value "medium" then Some r_medium
  else if eqs value "high" then Some r_high else None.
Definition risk_text (r : RegistryRisk) : string := match r with r_low => "low" | r_medium => "medium" | r_high => "high" end.

Definition toTrustRule (row : RuleRow) : TrustRule :=
  mkTrustRule (rr_id row) (rr_tool row) (rr_pattern row) (default r_high (valid_risk (rr_risk row))) (rr_description row)
    (rr_origin row) (rr_userModified row) (rr_deleted row) (rr_createdAt row) (rr_updatedAt row).

(** ** The store *)
Section store.
Context {env : Env}.
Local Abbreviation P := (M (World (list RuleRow)) StoreError).

Record ListFilters := mkFilters {
  lf_origin : option RuleOrigin; lf_tool : option string; lf_includeDeleted : bool; lf_userRelevantOnly : bool }.
Record CreateInput := mkCreate { ci_tool : string; ci_pattern : string; ci_risk : string; ci_description : string }.
Record UpdateInput := mkUpdate { ui_risk : option string; ui_description : option string }.
Record UpsertDefaultInput := mkUpsert {
  ud_id : string; ud_tool : string; ud_pattern : string; ud_risk : string; ud_description : string }.

Definition assertValidRisk (value : string) : P unit :=
  match valid_risk value with Some _ => mret tt | None => throw (invalid_risk value) end.

Definition has_id (id : string) (r : RuleRow) : bool := eqs (rr_id r) id.
Definition has_key (tool pattern : string) (r : RuleRow) : bool := eqs (rr_tool r) tool && eqs (rr_pattern r) pattern.
Definition user_relevant (r : RuleRow) : bool := bool_decide (rr_origin r = origin_user_defined) || rr_userModified r.

Definition list_filter (f : ListFilters) (r : RuleRow) : bool :=
  (lf_includeDeleted f || negb (rr_deleted r))
  && match lf_origin f with Some o => bool_decide (rr_origin r = o) | None => true end
  && (negb (lf_userRelevantOnly f) || user_relevant r)
  && match lf_tool f with Some t => eqs (rr_tool r) t | None => true end.
Definition list_rules (f : ListFilters) : P (list TrustRule) := gets (λ rows, toTrustRule <$> js_filter (list_filter f) rows).

Definition getById (id : string) : P (option TrustRule) := gets (λ rows, toTrustRule <$> js_find (has_id id) rows).

Definition listActive (tool : option string) : P (list TrustRule) :=
  gets (λ rows, toTrustRule <$> js_filter (λ r,
    negb (rr_deleted r) && match tool with Some t => eqs (rr_tool r) t | None => true end) rows).

(** [INSERT ... ON CONFLICT (tool, pattern) DO UPDATE SET ... WHERE guard]: a conflict on
    the primary key alone is an error. *)
Definition insert_or_update (row : RuleRow) (guard : RuleRow → bool) (set : RuleRow → RuleRow) : P unit :=
  rows ← gets (λ rows, rows);
  if existsb (has_key (rr_tool row) (rr_pattern row)) rows then
    modify (update_where (λ r, has_key (rr_tool row) (rr_pattern row) r && guard r) set)
  else if existsb (has_id (rr_id row)) rows then throw constraint_failed
  else modify (λ rows, rows ++ [row]).

Definition create (input : CreateInput) : P (option TrustRule) :=
  assertValidRisk (ci_risk input);;
  nowIso ← now;
  id ← randomUUID;
  insert_or_update
    (mkRuleRow id (ci_tool input) (ci_pattern input) (ci_risk input) (ci_description input) origin_user_defined
       false false nowIso nowIso)
    (λ _, true)
    (λ r, mkRuleRow (rr_id r) (rr_tool r) (rr_pattern r) (ci_risk input) (ci_description input) origin_user_defined
       (rr_userModified r) false (rr_createdAt r) nowIso);;
  gets (λ rows, toTrustRule <$> js_find (has_key (ci_tool input) (ci_pattern input)) rows).

Definition update (id : string) (updates : UpdateInput) : P (option TrustRule) :=
  existing ← getById id;
  match existing with
  | None => throw (rule_not_found id)
  | Some existing =>
      if is_null (ui_risk updates) && is_null (ui_description updates) then mret (Some existing)
      else
        match ui_risk updates with Some r => assertValidRisk r | None => mret tt end;;
        nowIso ← now;
        modify (update_where (has_id id) (λ r,
          mkRuleRow (rr_id r) (rr_tool r) (rr_pattern r) (default (rr_risk r) (ui_risk updates))
            (default (rr_description r) (ui_description updates)) (rr_origin r)
            (if bool_decide (tr_origin existing = origin_default) then true else rr_userModified r)
            (rr_deleted r) (rr_createdAt r) nowIso));;
        getById id
  end.

Definition remove (id : string) : P bool :=
  existing ← getById id;
  match existing with
  | None => throw (rule_not_found id)
  | Some existing =>
      (if bool_decide (tr_origin existing = origin_user_defined) then modify (delete_where (has_id id))
       else
         nowIso ← now;
         modify (update_where (has_id id) (λ r,
           mkRuleRow (rr_id r) (rr_tool r) (rr_pattern r) (rr_risk r) (rr_description r) (rr_origin r)
             (rr_userModified r) true (rr_createdAt r) nowIso)));;
      mret true
  end.

Definition reset (id originalRisk : string) (originalDescription : option string) : P (option TrustRule) :=
  existing ← getById id;
  match existing with
  | None => throw (rule_not_found id)
  | Some existing =>
      if negb (bool_decide (tr_origin existing = origin_default)) then throw (not_default id)
      else
        nowIso ← now;
        modify (update_where (has_id id) (λ r,
          mkRuleRow (rr_id r) (rr_tool r) (rr_pattern r) originalRisk
            (default (rr_description r) originalDescription) (rr_origin r) false false (rr_createdAt r) nowIso));;
        getById id
  end.

Definition upsertDefault (input : UpsertDefaultInput) : P unit :=
  nowIso ← now;
  insert_or_update
    (mkRuleRow (ud_id input) (ud_tool input) (ud_pattern input) (ud_risk input) (ud_description input) origin_default
       false false nowIso nowIso)
    (λ r, bool_decide (rr_origin r = origin_default) && negb (rr_userModified r) && negb (rr_deleted r))
    (λ r, mkRuleRow (rr_id r) (rr_tool r) (rr_pattern r) (ud_risk input) (ud_description input) (rr_origin r)
       (rr_userModified r) (rr_deleted r) (rr_createdAt r) nowIso).

(** ** Default rows *)

(** [pattern.replace(/ /g, '-')] *)
Definition hyphenate : string → string := map_chars (λ c, if bool_decide (c = " "%char) then "-"%char else c).
Definition makeId (pattern : string) : string := "default:bash:" +:+ hyphenate pattern.
Definition makeDescription (pattern : string) (spec : CommandRiskSpec) : string :=
  match cs_reason spec with
  | Some r => if truthy r then pattern +:+ " — " +:+ r else pattern +:+ " (default)"
  | None => pattern +:+ " (default)"
  end.

Fixpoint collectEntries (pattern : string) (spec : CommandRiskSpec) : list UpsertDefaultInput :=
  mkUpsert (makeId pattern) "bash" pattern (risk_text (cs_baseRisk spec)) (makeDescription pattern spec)
  :: match cs_subcommands spec with
     | Some subs => flat_map (λ '(sub, subSpec), collectEntries (pattern +:+ " " +:+ sub) subSpec) subs
     | None => []
     end.
Definition registry_entries (registry : Registry) : list UpsertDefaultInput :=
  flat_map (λ '(command, spec), collectEntries command spec) registry.

Fixpoint upsert_all (entries : list UpsertDefaultInput) : P unit :=
  match entries with
  | [] => mret tt
  | e :: es => upsertDefault e;; upsert_all es
  end.
Definition seedTrustRulesFromRegistry : P Z :=
  let entries := registry_entries DEFAULT_COMMAND_REGISTRY in
  upsert_all entries;; mret (Z.of_nat (length entries)).
End store.

(** ** The cache *)

(** The rules by tool and by pattern. *)
Definition TrustRuleCache : Type := jsmap string (jsmap string TrustRule).

Definition cache_rule (rules : TrustRuleCache) (rule : TrustRule) : TrustRuleCache :=
  let toolMap := default [] (jget (tr_tool rule) rules) in
  jset (tr_tool rule) (jset (tr_pattern rule) rule toolMap) rules.
Definition refresh (active : list TrustRule) : TrustRuleCache := foldl cache_rule [] active.

Definition isUserRule (rule : TrustRule) : bool := tr_userModified rule || bool_decide (tr_origin rule = origin_user_defined).

(** The rule at a key: the user's own, literal or prefixed, before a default. *)
Definition lookup_key (toolMap : jsmap string TrustRule) (key : string) : option TrustRule :=
  let literal := jget key toolMap in
  let action := jget ("action:" +:+ key) toolMap in
  match literal, action with
  | Some l, _ => if isUserRule l then Some l
                 else match action with Some a => if isUserRule a then Some a else Some l | None => Some l end
  | None, Some a => Some a
  | None, None => None
  end.

(** [binary.lastIndexOf('/')] and what follows: the last piece. *)
Definition last_piece (binary : string) : string := List.last (js_split "/" binary) "".
Definition stripPath (command : string) : string :=
  let '(binary, rest) := match str_indexOf " " command with
                         | None => (command, "")
                         | Some i => (str_take i command, str_drop i command)
                         end in
  if has_char "/" binary then last_piece binary +:+ rest else command.

(** The words of a command, without the last, the last two, ... *)
Fixpoint shorter_prefixes (n : nat) (parts : list string) : list string :=
  match n with
  | O => []
  | Datatypes.S n' => match n' with O => [] | _ => js_join " " (take n' parts) :: shorter_prefixes n' parts end
  end.

Fixpoint first_hit (toolMap : jsmap string TrustRule) (keys : list string) : option TrustRule :=
  match keys with
  | [] => None
  | k :: ks => match lookup_key toolMap k with Some r => Some r | None => first_hit toolMap ks end
  end.

Definition findBaseRisk (rules : TrustRuleCache) (tool command : string) : option TrustRule :=
  toolMap ← jget tool rules;
  match lookup_key toolMap command with
  | Some exact => Some exact
  | None =>
      let stripped := stripPath command in
      match (if negb (eqs stripped command) then lookup_key toolMap stripped else None) with
      | Some strippedMatch => Some strippedMatch
      | None =>
          let parts := split_spaces stripped in
          first_hit toolMap (shorter_prefixes (length parts) parts)
      end
  end.

Definition findToolOverride (rules : TrustRuleCache) (tool pattern : string) : option TrustRule :=
  toolMap ← jget tool rules;
  nullish (jget pattern toolMap) (jget (tool +:+ ":" +:+ pattern) toolMap).

Definition getAllForTool (rules : TrustRuleCache) (tool : string) : list TrustRule :=
  match jget tool rules with None => [] | Some toolMap => jvalues toolMap end.

(** [getTrustRuleCache()]: a pooled gateway answers from an empty cache; [None]: it
    throws since the cache was not initialised. *)
Definition getTrustRuleCache (pooled : bool) (cache : option TrustRuleCache) : option TrustRuleCache :=
  if pooled then Some [] else cache.
