(* ===== verification/TrustRulesProps.v ===== *)
(** * What the trust rules guarantee *)
From S2P Require Import Prelude JsText RiskTypes CommandRegistry TrustRules ScopeKeys Demo.

#[local] Arguments update_where : simpl never.

Definition row_key (r : RuleRow) : string * string := (rr_tool r, rr_pattern r).
Definition entry_key (e : UpsertDefaultInput) : string * string := (ud_tool e, ud_pattern e).

Lemma has_key_true t p r : has_key t p r = true ↔ row_key r = (t, p).
Proof. unfold has_key, eqs, row_key. rewrite andb_true_iff, !bool_decide_eq_true. naive_solver. Qed.
Lemma has_id_true i r : has_id i r = true ↔ rr_id r = i.
Proof. unfold has_id, eqs. by rewrite bool_decide_eq_true. Qed.

(** ** The table keeps its unique indexes, and default identifiers their keys *)
Section store.
Context {env : Env}.
Context (entries : list UpsertDefaultInput).

(** A row with the identifier of a default entry has the entry's key. *)
Definition ids_fit (rows : list RuleRow) : Prop :=
  ∀ r e, r ∈ rows → e ∈ entries → rr_id r = ud_id e → row_key r = entry_key e.
Definition table_ok (rows : list RuleRow) : Prop :=
  NoDup (rr_id <$> rows) ∧ NoDup (row_key <$> rows) ∧ ids_fit rows.

(** The operations of the store. *)
Inductive StoreCall :=
  | call_create (input : CreateInput)
  | call_update (id : string) (updates : UpdateInput)
  | call_remove (id : string)
  | call_reset (id originalRisk : string) (originalDescription : option string)
  | call_upsert (entry : UpsertDefaultInput).

Definition run_call (c : StoreCall) : M (World (list RuleRow)) StoreError unit :=
  match c with
  | call_create i => create i;; mret tt
  | call_update i u => update i u;; mret tt
  | call_remove i => remove i;; mret tt
  | call_reset i r d => reset i r d;; mret tt
  | call_upsert e => upsertDefault e
  end.

Definition call_ok (c : StoreCall) : Prop := match c with call_upsert e => e ∈ entries | _ => True end.

Definition fresh_ids : Prop := ∀ n e, e ∈ entries → random_uuid n ≠ ud_id e.

(** Changes that leave identifiers and keys alone. *)
Definition keeps_identity (f : RuleRow → RuleRow) : Prop := ∀ r, rr_id (f r) = rr_id r ∧ row_key (f r) = row_key r.

Lemma fmap_update_where {A B} (g : A → B) p (f : A → A) rows : (∀ r, g (f r) = g r) → g <$> update_where p f rows = g <$> rows.
Proof. intros H. induction rows as [|r rows IH]; [done|]. unfold update_where in *. cbn. rewrite <- IH. by destruct (p r); rewrite ?H. Qed.

Lemma table_ok_update p f rows : keeps_identity f → table_ok rows → table_ok (update_where p f rows).
Proof.
  intros Hf (H1 & H2 & H3). split_and!.
  - rewrite fmap_update_where; [done|apply Hf].
  - rewrite fmap_update_where; [done|apply Hf].
  - intros r e (r0 & -> & Hr0)%list_elem_of_fmap He. destruct (p r0); [|by apply H3].
    destruct (Hf r0) as [-> ->]. by apply H3.
Qed.

Lemma sublist_fmap_NoDup {A B} (f : A → B) (p : A → bool) l : NoDup (f <$> l) → NoDup (f <$> List.filter p l).
Proof.
  induction l as [|x l IH]; cbn; [done|]. intros [Hx Hl]%NoDup_cons. destruct (p x); cbn; [|by apply IH].
  apply NoDup_cons. split; [|by apply IH]. intros (y & Hxy & Hy)%list_elem_of_fmap. apply Hx. rewrite Hxy.
  apply list_elem_of_fmap_2. apply list_elem_of_In, filter_In in Hy as [Hy _]. by apply list_elem_of_In.
Qed.

Lemma table_ok_delete p rows : table_ok rows → table_ok (delete_where p rows).
Proof.
  intros (H1 & H2 & H3). unfold delete_where. split_and!; [by apply sublist_fmap_NoDup..|].
  intros r e [Hr _]%list_elem_of_In%filter_In. apply H3. by apply list_elem_of_In.
Qed.

Lemma table_ok_insert row rows : table_ok rows → existsb (has_key (rr_tool row) (rr_pattern row)) rows = false →
  existsb (has_id (rr_id row)) rows = false → (∀ e, e ∈ entries → rr_id row = ud_id e → row_key row = entry_key e) →
  table_ok (rows ++ [row]).
Proof.
  intros (H1 & H2 & H3) Hk Hi He. split_and!.
  - rewrite fmap_app. apply NoDup_app. split_and!; [done| |by apply NoDup_singleton].
    intros i (r & -> & Hr)%list_elem_of_fmap Hi'%list_elem_of_singleton. apply not_true_iff_false in Hi. apply Hi.
    apply existsb_exists. exists r. split; [by apply list_elem_of_In|by apply has_id_true].
  - rewrite fmap_app. apply NoDup_app. split_and!; [done| |by apply NoDup_singleton].
    intros i (r & -> & Hr)%list_elem_of_fmap Hi'%list_elem_of_singleton. apply not_true_iff_false in Hk. apply Hk.
    apply existsb_exists. exists r. split; [by apply list_elem_of_In|by apply has_key_true].
  - intros r e [Hr| ->%list_elem_of_singleton]%elem_of_app; [by apply H3|apply He].
Qed.

Lemma insert_ok row guard set w : keeps_identity set →
  (∀ e, e ∈ entries → rr_id row = ud_id e → row_key row = entry_key e) →
  table_ok (w_st w) → table_ok (w_st (insert_or_update row guard set w).2).
Proof.
  intros Hset He Hok. unfold insert_or_update. mrun. destruct (existsb (has_key _ _) _) eqn:Hk; cbn; [by apply table_ok_update|].
  destruct (existsb (has_id _) _) eqn:Hi; cbn; [done|]. by apply table_ok_insert.
Qed.

Hypothesis uuids : fresh_ids.
Hypothesis entries_nodup : NoDup (ud_id <$> entries).

Lemma entry_by_id e e' : e ∈ entries → e' ∈ entries → ud_id e = ud_id e' → e = e'.
Proof.
  clear uuids. revert entries_nodup. induction entries as [|x l IH]; [by intros _ ?%elem_of_nil|].
  cbn. intros [Hx Hl]%NoDup_cons [->|He]%elem_of_cons [->|He']%elem_of_cons Heq; [done| | |by apply IH].
  - destruct Hx. rewrite Heq. by apply list_elem_of_fmap_2.
  - destruct Hx. rewrite <- Heq. by apply list_elem_of_fmap_2.
Qed.

Lemma upsertDefault_ok e w : e ∈ entries → table_ok (w_st w) → table_ok (w_st (upsertDefault e w).2).
Proof.
  intros He Hok. unfold upsertDefault. mrun. apply insert_ok; [by split|..]; cbn; [|done].
  intros e' He' Hid. rewrite (entry_by_id e e') by done. done.
Qed.

Lemma run_call_ok c w : call_ok c → table_ok (w_st w) → table_ok (w_st (run_call c w).2).
Proof.
  intros Hc Hok. destruct c as [i|i u|i|i r d|e]; cbn [run_call].
  - unfold create, assertValidRisk. mrun. destruct (valid_risk _); [|done]. cbn.
    match goal with |- context [insert_or_update ?row ?g ?s ?w'] =>
      assert (Hins : table_ok (w_st (insert_or_update row g s w').2)); [|destruct (insert_or_update row g s w') as [[?|?] ?]; done] end.
    apply insert_ok; [by split| |done]. cbn. intros e He Heq. by destruct (uuids _ e He Heq).
  - unfold update, assertValidRisk. mrun. destruct (js_find _ _); [|done]. cbn. destruct (_ && _); [done|].
    destruct (ui_risk u) as [x|]; cbn; [destruct (valid_risk x); [|done]|]; cbn; by apply table_ok_update.
  - unfold remove. mrun. destruct (js_find _ _); [|done]. cbn. case_bool_decide; cbn; [by apply table_ok_delete|by apply table_ok_update].
  - unfold reset. mrun. destruct (js_find _ _); [|done]. cbn. case_bool_decide; cbn; [by apply table_ok_update|done].
  - by apply upsertDefault_ok.
Qed.

Lemma run_calls_ok cs w : Forall call_ok cs → table_ok (w_st w) → table_ok (w_st (run_calls run_call cs w).2).
Proof.
  intros Hcs. revert w. induction Hcs as [|c cs Hc _ IH]; intros w Hok; [done|].
  pose proof (run_call_ok c w Hc Hok) as H1. cbn. destruct (run_call c w) as [r w1]. specialize (IH w1 H1).
  by destruct (run_calls run_call cs w1).
Qed.

(** ** Seeding *)

(** What seeding may not touch. *)
Definition protected (r : RuleRow) : Prop := rr_origin r = origin_user_defined ∨ rr_userModified r = true ∨ rr_deleted r = true.

(** A row with its risk, its description and its time replaced. *)
Definition refreshed (r r' : RuleRow) : Prop :=
  rr_id r' = rr_id r ∧ row_key r' = row_key r ∧ rr_origin r' = rr_origin r ∧ rr_userModified r' = rr_userModified r
  ∧ rr_deleted r' = rr_deleted r ∧ rr_createdAt r' = rr_createdAt r ∧ (protected r → r' = r).

Lemma refreshed_refl r : refreshed r r.
Proof. by split_and!. Qed.
Lemma refreshed_trans a b c : refreshed a b → refreshed b c → refreshed a c.
Proof.
  intros (H1&H2&H3&H4&H5&H6&H7) (G1&G2&G3&G4&G5&G6&G7). split_and!; try congruence.
  intros Hp. rewrite (G7 ltac:(by rewrite (H7 Hp))). by apply H7.
Qed.

Lemma all_refreshed_refl rows : Forall2 refreshed rows rows.
Proof. induction rows; constructor; [apply refreshed_refl|done]. Qed.
Lemma all_refreshed_trans a b c : Forall2 refreshed a b → Forall2 refreshed b c → Forall2 refreshed a c.
Proof.
  intros H. revert c. induction H as [|x y a b Hxy _ IH]; intros c Hc; inversion Hc; subst; [done|].
  constructor; [by eapply refreshed_trans|by apply IH].
Qed.

(** The rows there were, refreshed, and new ones. *)
Definition seeded (rows rows' : list RuleRow) : Prop := ∃ old new, rows' = old ++ new ∧ Forall2 refreshed rows old.

Lemma seeded_refl rows : seeded rows rows.
Proof. exists rows, []. split; [by rewrite app_nil_r|apply all_refreshed_refl]. Qed.
Lemma seeded_trans a b c : seeded a b → seeded b c → seeded a c.
Proof.
  intros (o1 & n1 & -> & H1) (o2 & n2 & -> & H2). apply Forall2_app_inv_l in H2 as (x & y & Hx & Hy & ->).
  exists x, (y ++ n2). rewrite app_assoc. split; [done|].
  by eapply all_refreshed_trans.
Qed.

Lemma upsert_seeded e w : e ∈ entries → table_ok (w_st w) →
  (upsertDefault e w).1 = inr tt ∧ seeded (w_st w) (w_st (upsertDefault e w).2).
Proof.
  intros He (_ & _ & Hfit). unfold upsertDefault, insert_or_update. mrun. destruct (existsb (has_key _ _) _) eqn:Hk; cbn.
  - split; [done|]. exists (update_where (λ r, has_key (ud_tool e) (ud_pattern e) r
      && (bool_decide (rr_origin r = origin_default) && negb (rr_userModified r) && negb (rr_deleted r)))
      (λ r, mkRuleRow (rr_id r) (rr_tool r) (rr_pattern r) (ud_risk e) (ud_description e) (rr_origin r)
       (rr_userModified r) (rr_deleted r) (rr_createdAt r) (date_now (w_clock w))) (w_st w)), [].
    split; [by rewrite app_nil_r|]. unfold update_where. clear Hk Hfit. induction (w_st w) as [|r rows IH]; constructor; [|done].
    destruct (has_key _ _ r && _) eqn:Hg; [|apply refreshed_refl]. split_and!; try done.
    apply andb_true_iff in Hg as [_ [[Ho%bool_decide_eq_true Hm%negb_true_iff]%andb_true_iff Hd%negb_true_iff]%andb_true_iff].
    intros [H|[H|H]]; congruence.
  - assert (Hi : existsb (has_id (ud_id e)) (w_st w) = false).
    { apply not_true_iff_false. intros (r & Hr & Hid%has_id_true)%existsb_exists. apply not_true_iff_false in Hk. apply Hk.
      apply existsb_exists. exists r. split; [done|]. apply has_key_true. apply Hfit; [by apply list_elem_of_In|done|done]. }
    rewrite Hi. cbn. split; [done|]. eexists _, _. split; [done|apply all_refreshed_refl].
Qed.

Lemma upsert_all_seeded es w : Forall (λ e, e ∈ entries) es → table_ok (w_st w) →
  (upsert_all es w).1 = inr tt ∧ seeded (w_st w) (w_st (upsert_all es w).2) ∧ table_ok (w_st (upsert_all es w).2).
Proof.
  intros Hes. revert w. induction Hes as [|e es He _ IH]; intros w Hok; cbn; [split_and!; [done|apply seeded_refl|done]|].
  pose proof (upsert_seeded e w He Hok) as [H1 H2]. pose proof (upsertDefault_ok e w He Hok) as H3. mrun.
  destruct (upsertDefault e w) as [[?|[]] w1]; [done|]. cbn in *. destruct (IH w1 H3) as (G1 & G2 & G3).
  split_and!; [done|by eapply seeded_trans|done].
Qed.
End store.

(** ** The registry's default rows *)

Lemma registry_ids_nodup : NoDup (ud_id <$> registry_entries DEFAULT_COMMAND_REGISTRY).
Proof.
  apply (NoDup_fmap_1 (str_drop 13)), (distinct_NoDup _). vm_compute. reflexivity.
Qed.

Section registry.
Context {env : Env}.
Context (entries : list UpsertDefaultInput).

Lemma seeded_key rows rows' k : seeded rows rows' → k ∈ row_key <$> rows → k ∈ row_key <$> rows'.
Proof.
  intros (old & new & -> & H). rewrite fmap_app, elem_of_app. left.
  assert (row_key <$> old = row_key <$> rows) as ->; [|done].
  clear -H. induction H as [|r r' rows old (_ & Hk & _) _ IH]; [done|]. cbn. f_equal; [exact Hk|exact IH].
Qed.

Lemma upsert_key (e : UpsertDefaultInput) w : (upsertDefault e w).1 = inr tt →
  entry_key e ∈ row_key <$> w_st (upsertDefault e w).2.
Proof.
  unfold upsertDefault, insert_or_update. mrun. destruct (existsb (has_key _ _) _) eqn:Hk; cbn.
  - intros _. rewrite fmap_update_where by done.
    apply existsb_exists in Hk as (r & Hr & Hkey%has_key_true). unfold entry_key. rewrite <- Hkey.
    apply list_elem_of_fmap_2. by apply list_elem_of_In.
  - destruct (existsb (has_id _) _); [done|]. intros _. cbn. rewrite fmap_app. apply elem_of_app. right. by left.
Qed.

Lemma upsert_all_keys (es : list UpsertDefaultInput) w : NoDup (ud_id <$> entries) → Forall (λ e, e ∈ entries) es →
  table_ok entries (w_st w) → ∀ e, e ∈ es → entry_key e ∈ row_key <$> w_st (upsert_all es w).2.
Proof.
  intros Hnd Hes. revert w. induction Hes as [|e es He Hes IH]; intros w Hok e' He'; [by apply elem_of_nil in He'|].
  pose proof (upsert_seeded entries e w He Hok) as [H1 _]. pose proof (upsertDefault_ok entries Hnd e w He Hok) as H3.
  pose proof (upsert_key e w H1) as H2. cbn. mrun. destruct (upsertDefault e w) as [[?|[]] w1]; [done|]. cbn in *.
  apply elem_of_cons in He' as [->|He']; [|by apply IH].
  eapply seeded_key; [|exact H2]. by apply (upsert_all_seeded entries Hnd).
Qed.

Lemma upsert_all_run (calls : list StoreCall) clock uuid :
  NoDup (ud_id <$> entries) → fresh_ids entries → Forall (call_ok entries) calls →
  let w := (run_calls run_call calls (mkWorld clock uuid [])).2 in
  let '(r, w') := upsert_all entries w in
  r = inr tt ∧ seeded (w_st w) (w_st w') ∧ ∀ e, e ∈ entries → entry_key e ∈ row_key <$> w_st w'.
Proof.
  intros Hnd Hfresh Hcalls w. assert (Hok : table_ok entries (w_st w)).
  { apply run_calls_ok; [done|done|done|]. split_and!; [by constructor|by constructor|]. by intros r e ?%elem_of_nil. }
  assert (Hes : Forall (λ e, e ∈ entries) entries) by (by apply Forall_forall).
  pose proof (upsert_all_seeded entries Hnd entries w Hes Hok) as (H1 & H2 & _).
  pose proof (upsert_all_keys entries w Hnd Hes Hok) as H3. by destruct (upsert_all entries w) as [r w'].
Qed.
End registry.

(** C25. Whatever was done to the table before, putting the registry's defaults into it
    succeeds, leaves every rule the user made, changed or removed as it is, changes
    nothing of the others but their risk, description and time, and leaves each command
    with a row. *)
Theorem seeding_keeps_user_rules {env : Env} (calls : list StoreCall) clock uuid :
  let entries := registry_entries DEFAULT_COMMAND_REGISTRY in
  fresh_ids entries → Forall (call_ok entries) calls →
  let w := (run_calls run_call calls (mkWorld clock uuid [])).2 in
  let '(r, w') := seedTrustRulesFromRegistry w in
  r = inr (Z.of_nat (length entries)) ∧ seeded (w_st w) (w_st w')
  ∧ ∀ e, e ∈ entries → entry_key e ∈ row_key <$> w_st w'.
Proof.
  pose proof registry_ids_nodup as Hnd. unfold seedTrustRulesFromRegistry. revert Hnd.
  generalize (registry_entries DEFAULT_COMMAND_REGISTRY) as entries. intros entries Hnd. cbv zeta. intros Hfresh Hcalls.
  pose proof (upsert_all_run entries calls clock uuid Hnd Hfresh Hcalls) as H. cbv zeta in H. unfold mbind, M_bind, mret, M_ret.
  destruct (upsert_all entries _) as [r w']. by destruct H as (-> & H2 & H3).
Qed.

(** ** The cache *)

(** The active rows. *)
Definition active (rows : list RuleRow) : list TrustRule := toTrustRule <$> js_filter (λ r, negb (rr_deleted r)) rows.
Definition rule_key (r : TrustRule) : string * string := (tr_tool r, tr_pattern r).

(** The rule of a tool and a pattern. *)
Definition cached (rules : TrustRuleCache) (tool pattern : string) : option TrustRule := jget tool rules ≫= jget pattern.

Lemma cached_rule_get rules r tool pattern :
  cached (cache_rule rules r) tool pattern = if decide (rule_key r = (tool, pattern)) then Some r else cached rules tool pattern.
Proof.
  unfold cached, cache_rule, rule_key. rewrite jget_jset. destruct (decide (tr_tool r = tool)) as [<-|Ht]; cbn.
  - rewrite jget_jset. destruct (decide (tr_pattern r = pattern)) as [<-|Hp].
    + by rewrite decide_True.
    + rewrite decide_False by congruence. by destruct (jget (tr_tool r) rules).
  - by rewrite decide_False by congruence.
Qed.

Lemma refresh_get l rules tool pattern : NoDup (rule_key <$> l) →
  cached (foldl cache_rule rules l) tool pattern
  = match js_find (λ r, bool_decide (rule_key r = (tool, pattern))) l with Some r => Some r | None => cached rules tool pattern end.
Proof.
  revert rules. induction l as [|r l IH]; intros rules; [done|]. intros [Hr Hl]%NoDup_cons.
  change (foldl cache_rule rules (r :: l)) with (foldl cache_rule (cache_rule rules r) l). rewrite IH by done. cbn [js_find].
  rewrite cached_rule_get. case_bool_decide as Hk; [|by rewrite decide_False].
  rewrite decide_True by done. destruct (js_find _ l) as [r'|] eqn:Hf; [|done].
  apply js_find_elem in Hf as [Hin Hk'%bool_decide_eq_true]. destruct Hr. rewrite Hk, <- Hk'. by apply list_elem_of_fmap_2.
Qed.

Lemma refresh_spec l tool pattern r : NoDup (rule_key <$> l) →
  cached (refresh l) tool pattern = Some r ↔ r ∈ l ∧ rule_key r = (tool, pattern).
Proof.
  intros Hnd. unfold refresh. rewrite refresh_get by done. destruct (js_find _ l) as [r'|] eqn:Hf.
  - apply js_find_elem in Hf as [Hin Hk%bool_decide_eq_true]. split; [intros [= <-]; done|]. intros [Hr Hk'].
    f_equal. revert Hin Hr. clear -Hnd Hk Hk'. induction l as [|x l IH]; [by intros ?%elem_of_nil|].
    cbn in Hnd. apply NoDup_cons in Hnd as [Hx Hl].
    intros [->|H1]%elem_of_cons [->|H2]%elem_of_cons; [done| | |by apply IH].
    + destruct Hx. rewrite Hk, <- Hk'. by apply list_elem_of_fmap_2.
    + destruct Hx. rewrite Hk', <- Hk. by apply list_elem_of_fmap_2.
  - cbn. split; [done|]. intros [Hr Hk]. pose proof (js_find_none _ _ Hf r Hr) as H. by cbn in H; rewrite bool_decide_true in H.
Qed.

(** The keys a command is looked up under, the most specific first. *)
Definition candidates (command : string) : list string :=
  let stripped := stripPath command in
  let parts := split_spaces stripped in
  command :: (if negb (eqs stripped command) then [stripped] else []) ++ shorter_prefixes (length parts) parts.

Lemma first_hit_spec toolMap keys :
  match first_hit toolMap keys with
  | Some r => ∃ before k after, keys = before ++ k :: after ∧ Forall (λ x, lookup_key toolMap x = None) before ∧ lookup_key toolMap k = Some r
  | None => Forall (λ x, lookup_key toolMap x = None) keys
  end.
Proof.
  induction keys as [|k keys IH]; cbn; [done|]. destruct (lookup_key toolMap k) as [r|] eqn:Hk.
  - exists [], k, keys. by split_and!.
  - destruct (first_hit toolMap keys) as [r|]; [|by constructor]. destruct IH as (b & k' & a & -> & Hb & Hr).
    exists (k :: b), k', a. split_and!; [done|by constructor|done].
Qed.

Lemma findBaseRisk_first rules tool command :
  findBaseRisk rules tool command = jget tool rules ≫= λ toolMap, first_hit toolMap (candidates command).
Proof.
  unfold findBaseRisk, candidates. destruct (jget tool rules) as [toolMap|]; [|done]. cbn.
  destruct (lookup_key toolMap command); [done|]. destruct (negb _); cbn; [|done]. by destruct (lookup_key toolMap (stripPath command)).
Qed.

(** The rules at a key, as written or with the prefix. *)
Definition at_key (rows : list RuleRow) (tool key : string) (r : TrustRule) : Prop :=
  r ∈ active rows ∧ (rule_key r = (tool, key) ∨ rule_key r = (tool, "action:" +:+ key)).

Lemma active_nodup rows : NoDup (row_key <$> rows) → NoDup (rule_key <$> active rows).
Proof.
  intros H. unfold active. rewrite <- list_fmap_compose. change (rule_key ∘ toTrustRule) with row_key. by apply sublist_fmap_NoDup.
Qed.

Lemma lookup_key_some rows tool toolMap k r : NoDup (row_key <$> rows) → jget tool (refresh (active rows)) = Some toolMap →
  lookup_key toolMap k = Some r →
  at_key rows tool k r ∧ (isUserRule r = true ∨ ∀ r', at_key rows tool k r' → isUserRule r' = false).
Proof.
  intros Hnd%active_nodup Hm. pose proof (λ p, refresh_spec (active rows) tool p) as Hs. unfold cached in Hs. rewrite Hm in Hs. cbn in Hs.
  unfold lookup_key. destruct (jget k toolMap) as [l|] eqn:Hl, (jget ("action:" +:+ k) toolMap) as [a|] eqn:Ha.
  all: try (apply (Hs _ _ Hnd) in Hl as Hl'; destruct Hl' as [Hl1 Hl2]); try (apply (Hs _ _ Hnd) in Ha as Ha'; destruct Ha' as [Ha1 Ha2]).
  all: assert (Hboth : ∀ r', at_key rows tool k r' → jget k toolMap = Some r' ∨ jget ("action:" +:+ k) toolMap = Some r')
    by (intros r' [H1 [H2|H2]]; [left|right]; by apply (Hs _ _ Hnd)).
  all: repeat case_match; intros [= <-]; (split; [split; [done|by auto]|]).
  all: first [by left | right; intros r' [Hr|Hr]%Hboth; congruence | idtac].
  destruct (isUserRule a) eqn:Hu; [by left|right]. intros r' [Hr|Hr]%Hboth; congruence.
Qed.

Lemma lookup_key_none rows tool toolMap k : NoDup (row_key <$> rows) → jget tool (refresh (active rows)) = Some toolMap →
  lookup_key toolMap k = None → ∀ r, ¬ at_key rows tool k r.
Proof.
  intros Hnd%active_nodup Hm Hk r [Hr Hkey]. pose proof (λ p, refresh_spec (active rows) tool p r Hnd) as Hs.
  unfold cached in Hs. rewrite Hm in Hs. cbn in Hs. unfold lookup_key in Hk.
  destruct Hkey as [H|H]; rewrite (proj2 (Hs _) (conj Hr H)) in Hk; repeat case_match; done.
Qed.

(** For a table without duplicate keys, the base risk found for a command is that of
    an active rule at the most specific key that has one, where the user's own rule comes
    before a default; nothing is found only if no key of the command has a rule. *)
Theorem base_risk_most_specific rows tool command : NoDup (row_key <$> rows) →
  match findBaseRisk (refresh (active rows)) tool command with
  | Some r => ∃ before k after, candidates command = before ++ k :: after
      ∧ Forall (λ x, ∀ r', ¬ at_key rows tool x r') before ∧ at_key rows tool k r
      ∧ (isUserRule r = true ∨ ∀ r', at_key rows tool k r' → isUserRule r' = false)
  | None => Forall (λ x, ∀ r', ¬ at_key rows tool x r') (candidates command)
  end.
Proof.
  intros Hnd. rewrite findBaseRisk_first. destruct (jget tool (refresh (active rows))) as [toolMap|] eqn:Hm; cbn [mbind option_bind].
  - pose proof (first_hit_spec toolMap (candidates command)) as H. destruct (first_hit _ _) as [r|].
    + destruct H as (before & k & after & -> & Hb & Hr). exists before, k, after.
      destruct (lookup_key_some _ _ _ _ _ Hnd Hm Hr). split_and!; [done| |done|done].
      eapply Forall_impl; [exact Hb|]. intros x. by apply lookup_key_none.
    + eapply Forall_impl; [exact H|]. intros x. by apply lookup_key_none.
  - apply Forall_forall. intros x _ r [Hr Hk].
    assert (Hc : ∀ p, rule_key r = (tool, p) → cached (refresh (active rows)) tool p = Some r).
    { intros p Hp. apply refresh_spec; [by apply active_nodup|done]. }
    unfold cached in Hc. rewrite Hm in Hc. by destruct Hk as [?%Hc|?%Hc].
Qed.

(** ** Instances *)

Lemma demo_fresh : fresh_ids (registry_entries DEFAULT_COMMAND_REGISTRY).
Proof.
  assert (H : forallb (λ e, startsWith (ud_id e) "d") (registry_entries DEFAULT_COMMAND_REGISTRY) = true) by (vm_compute; reflexivity).
  rewrite forallb_forall in H. intros n e He%list_elem_of_In Hid. specialize (H e He). rewrite <- Hid in H. done.
Qed.

(** A user who raises [git push] before the registry is seeded. *)
Definition demo_calls : list StoreCall := [call_create (mkCreate "bash" "git push" "high" "mine")].

Lemma seeding_keeps_user_rules_witness :
  let w := (run_calls run_call demo_calls (mkWorld 0%nat 0%nat [])).2 in
  (rr_pattern <$> w_st w) = ["git push"]
  ∧ let '(r, w') := seedTrustRulesFromRegistry w in
    r = inr (Z.of_nat (length (registry_entries DEFAULT_COMMAND_REGISTRY))) ∧ seeded (w_st w) (w_st w')
    ∧ ∀ e, e ∈ registry_entries DEFAULT_COMMAND_REGISTRY → entry_key e ∈ row_key <$> w_st w'.
Proof.
  split; [vm_compute; reflexivity|].
  apply (seeding_keeps_user_rules demo_calls 0%nat 0%nat demo_fresh). by repeat constructor.
Defined.

Definition demo_rows : list RuleRow :=
  (run_calls run_call [call_create (mkCreate "bash" "git" "low" ""); call_create (mkCreate "bash" "git push" "high" "")]
     (mkWorld 0%nat 0%nat [])).2.(w_st).

(** Of two rules the longer prefix counts. *)
Lemma base_risk_most_specific_witness :
  tr_pattern <$> findBaseRisk (refresh (active demo_rows)) "bash" "/usr/bin/git push origin" = Some "git push"
  ∧ match findBaseRisk (refresh (active demo_rows)) "bash" "/usr/bin/git push origin" with
    | Some r => ∃ before k after, candidates "/usr/bin/git push origin" = before ++ k :: after
        ∧ Forall (λ x, ∀ r', ¬ at_key demo_rows "bash" x r') before ∧ at_key demo_rows "bash" k r
        ∧ (isUserRule r = true ∨ ∀ r', at_key demo_rows "bash" k r' → isUserRule r' = false)
    | None => Forall (λ x, ∀ r', ¬ at_key demo_rows "bash" x r') (candidates "/usr/bin/git push origin")
    end.
Proof.
  split; [vm_compute; reflexivity|]. apply base_risk_most_specific.
  apply (bool_decide_eq_true_1 (NoDup (row_key <$> demo_rows))). vm_compute. reflexivity.
Defined.
