(* ===== verification/ShellParser.v ===== *)
(** * Reading a shell command

    src/gateway/src/risk/shell-parser.ts: the segments of a command, the dangerous
    patterns and the opaque constructs in it, read off the syntax tree that
    tree-sitter makes of it.  The parser is a parameter; a tree is what the code sees
    of one: the type and the text of each node, where it starts and ends, and its
    children, named or not.  A walk that looks at the parent of a node is given it. *)
From S2P Require Import Prelude JsText RiskTypes.

#[warnings="-register-all"]
Inductive Node := mkNode {
  n_type : string;
  n_named : bool;
  n_text : string;
  n_startIndex : nat;
  n_endIndex : nat;
  n_children : list Node;
}.
Definition namedChildren (n : Node) : list Node := js_filter n_named (n_children n).

Inductive Operator := op_and | op_or | op_semi | op_pipe | op_none.
#[export] Instance Operator_eq_dec : EqDecision Operator.
Proof. solve_decision. Defined.

Record CommandSegment := mkSegment {
  sg_command : string;
  sg_program : string;
  sg_args : list string;
  sg_operator : Operator;
  sg_synthetic : bool;
}.

Record ParsedCommand := mkParsed {
  pc_originalCommand : string;
  pc_segments : list CommandSegment;
  pc_dangerousPatterns : list DangerousPattern;
  pc_hasOpaqueConstructs : bool;
}.

Definition SHELL_PROGRAMS : list string := ["sh"; "bash"; "zsh"; "dash"; "ksh"; "fish"].
Definition SCRIPT_INTERPRETERS : list string := ["python"; "python3"; "ruby"; "perl"; "node"; "deno"; "bun"].
Definition STDIN_EXEC_FLAGS : list string := ["-"].
Definition INTERPRETER_INLINE_CODE_FLAGS : list (string * list string) :=
  [("python", ["-c"]); ("python3", ["-c"]); ("ruby", ["-e"]); ("perl", ["-e"]); ("node", ["-e"]); ("deno", ["-e"]);
   ("bun", ["-e"])].
Definition INTERPRETER_VALUE_FLAGS : list (string * list string) :=
  [("python", ["-W"; "-X"; "-Q"]); ("python3", ["-W"; "-X"; "-Q"]); ("ruby", ["-r"; "--require"; "-I"]);
   ("node", ["-r"; "--require"; "--import"; "--conditions"]); ("deno", []); ("bun", []); ("perl", ["-I"])].
Definition OPAQUE_PROGRAMS : list string := ["eval"; "source"; "alias"].
Definition DANGEROUS_ENV_VARS : list string :=
  ["LD_PRELOAD"; "LD_LIBRARY_PATH"; "DYLD_INSERT_LIBRARIES"; "DYLD_LIBRARY_PATH"; "DYLD_FRAMEWORK_PATH";
   "NODE_OPTIONS"; "NODE_PATH"; "PATH"; "PYTHONPATH"; "RUBYLIB"].
Definition SENSITIVE_PATH_PREFIXES : list string :=
  ["~/.zshrc"; "~/.bashrc"; "~/.bash_profile"; "~/.profile"; "~/.ssh/"; "~/.gnupg/"; "~/.config/"; "/etc/";
   "/usr/lib/"; "/usr/bin/"].

Definition mem (x : string) (l : list string) : bool := bool_decide (x ∈ l).

(** ** Segments *)

(** [/[;\n\r&|]/.test(s)] *)
Fixpoint has_list_separator (s : string) : bool :=
  match s with
  | "" => false
  | String c s' =>
      let n := nat_of_ascii c in ((n =? 59) || (n =? 10) || (n =? 13) || (n =? 38) || (n =? 124))%nat || has_list_separator s'
  end.

(** [source.slice(a, b)] *)
Definition str_slice (a b : nat) (s : string) : string := str_take (b - a) (str_drop a s).

(** Two statements side by side with no separator between them: one command that the
    parser took apart. *)
Fixpoint recovered (source : string) (statements : list Node) : bool :=
  match statements with
  | a :: (b :: _) as rest =>
      negb (has_list_separator (str_slice (n_endIndex a) (n_startIndex b) source)) || recovered source rest
  | _ => false
  end.
Definition statementChildren (n : Node) : list Node := js_filter (λ c, negb (eqs (n_type c) "comment")) (namedChildren n).

Definition word_types : list string :=
  ["command_name"; "word"; "string"; "raw_string"; "simple_expansion"; "expansion"; "command_substitution";
   "concatenation"; "number"].
Definition command_words (n : Node) : list string :=
  n_text <$> js_filter (λ c, mem (n_type c) word_types) (namedChildren n).
Definition command_segment (n : Node) (operator : Operator) (synthetic : bool) : list CommandSegment :=
  match command_words n with
  | [] => []
  | program :: args => [mkSegment (n_text n) program args operator synthetic]
  end.

Definition redirect_types : list string := ["file_redirect"; "heredoc_redirect"; "herestring_redirect"].
Definition nested_types : list string :=
  ["subshell"; "command_substitution"; "compound_statement"; "if_statement"; "while_statement"; "for_statement";
   "case_statement"; "function_definition"].

Definition list_operator (type : string) : option Operator :=
  if eqs type "&&" then Some op_and else if eqs type "||" then Some op_or else if eqs type ";" then Some op_semi else None.

Section walk.
Context (source : string).

Fixpoint walkNode (n : Node) (operator : Operator) (nested recoverySibling : bool) {struct n} : list CommandSegment :=
  let synthetic := nested || recoverySibling in
  let type := n_type n in
  if eqs type "program" then
    let isRecovery := recoverySibling || recovered source (statementChildren n) in
    flat_map (λ c, if n_named c && negb (eqs (n_type c) "comment") then walkNode c op_none nested isRecovery else [])
      (n_children n)
  else if eqs type "list" then
    (fix members (operator : Operator) (cs : list Node) : list CommandSegment :=
       match cs with
       | [] => []
       | c :: cs' =>
           match list_operator (n_type c) with
           | Some o => members o cs'
           | None =>
               if eqs (n_type c) "comment" then members operator cs'
               else walkNode c operator nested recoverySibling ++ members op_none cs'
           end
       end) operator (n_children n)
  else if eqs type "pipeline" then
    (fix members (operator : Operator) (cs : list Node) : list CommandSegment :=
       match cs with
       | [] => []
       | c :: cs' =>
           if n_named c then walkNode c operator nested recoverySibling ++ members op_pipe cs'
           else members operator cs'
       end) operator (n_children n)
  else if eqs type "command" then command_segment n operator synthetic
  else if eqs type "redirected_statement" then
    flat_map (λ c, if n_named c && negb (mem (n_type c) redirect_types) then walkNode c operator nested recoverySibling
                   else []) (n_children n)
  else if mem type nested_types then
    flat_map (λ c, if n_named c then walkNode c operator true recoverySibling else []) (n_children n)
  else
    flat_map (λ c, if n_named c then walkNode c operator nested recoverySibling else []) (n_children n).

Definition extractSegments (n : Node) : list CommandSegment := walkNode n op_none false false.
End walk.

(** ** Dangerous patterns *)

Fixpoint stdin_exec (valueFlags inlineCodeFlags args : list string) : bool :=
  match args with
  | [] => true
  | arg :: rest =>
      if mem arg STDIN_EXEC_FLAGS then true
      else if mem arg inlineCodeFlags then false
      else if negb (startsWith arg "-") then false
      else if mem arg valueFlags then
        match rest with [] => true | _ :: rest' => stdin_exec valueFlags inlineCodeFlags rest' end
      else stdin_exec valueFlags inlineCodeFlags rest
  end.
Definition isStdinExecMode (interpreter : string) (args : list string) : bool :=
  stdin_exec (default [] (jget interpreter INTERPRETER_VALUE_FLAGS))
    (default [] (jget interpreter INTERPRETER_INLINE_CODE_FLAGS)) args.

Definition pipe_danger (s : CommandSegment) : list DangerousPattern :=
  let prog := sg_program s in
  let found := [mkDanger pipe_to_shell ("Pipeline into " +:+ prog) (sg_command s)] in
  if bool_decide (sg_operator s = op_pipe) then
    if mem prog SHELL_PROGRAMS || eqs prog "eval" || eqs prog "xargs" then found
    else if mem prog SCRIPT_INTERPRETERS && isStdinExecMode prog (sg_args s) then found
    else []
  else [].

Fixpoint base64_dangers (segments : list CommandSegment) : list DangerousPattern :=
  match segments with
  | a :: (b :: _) as rest =>
      (if eqs (sg_program a) "base64" && mem "-d" (sg_args a) && bool_decide (sg_operator b = op_pipe)
          && (mem (sg_program b) SHELL_PROGRAMS || eqs (sg_program b) "eval")
       then [mkDanger base64_execute "base64 decoded content piped to shell" (sg_command a +:+ " | " +:+ sg_command b)]
       else [])
      ++ base64_dangers rest
  | _ => []
  end.

(** [prefix.replace('~', '$HOME')] *)
Definition home_prefix (prefix : string) : string :=
  match prefix with String "~" p => "$HOME" +:+ p | _ => prefix end.
Definition sensitive_path (dest : string) : bool :=
  existsb (λ prefix, startsWith dest prefix || startsWith dest (home_prefix prefix)) SENSITIVE_PATH_PREFIXES.

Definition node_dangers (parent : option Node) (n : Node) : list DangerousPattern :=
  (if eqs (n_type n) "process_substitution"
   then [mkDanger process_substitution_pattern "Process substitution detected" (n_text n)] else [])
  ++ (if eqs (n_type n) "file_redirect" then
        match last (n_children n) with
        | Some dest =>
            if sensitive_path (n_text dest)
            then [mkDanger sensitive_redirect ("Redirect to sensitive path: " +:+ n_text dest) (n_text n)] else []
        | None => []
        end else [])
  ++ (if eqs (n_type n) "command_substitution" then
        match parent with
        | Some p =>
            if eqs (n_type p) "command" then
              match head (namedChildren p) with
              | Some firstWord =>
                  if mem (n_text firstWord) ["rm"; "chmod"; "chown"]
                  then [mkDanger dangerous_substitution
                          ("Command substitution as argument to " +:+ n_text firstWord) (n_text p)] else []
              | None => []
              end else []
        | None => []
        end else [])
  ++ (if eqs (n_type n) "variable_assignment" then
        match head (n_children n) with
        | Some varName =>
            if eqs (n_type varName) "variable_name" && mem (n_text varName) DANGEROUS_ENV_VARS
            then [mkDanger env_injection ("Assignment to dangerous env var: " +:+ n_text varName) (n_text n)] else []
        | None => []
        end else []).

Fixpoint walkForPatterns (parent : option Node) (n : Node) : list DangerousPattern :=
  node_dangers parent n ++ flat_map (walkForPatterns (Some n)) (n_children n).

Definition detectDangerousPatterns (n : Node) (segments : list CommandSegment) : list DangerousPattern :=
  flat_map pipe_danger (tail segments) ++ base64_dangers segments ++ walkForPatterns None n.

(** ** Opaque constructs *)

Definition opaque_segment (s : CommandSegment) : bool :=
  mem (sg_program s) OPAQUE_PROGRAMS || eqs (sg_program s) "."
  || mem (sg_program s) SHELL_PROGRAMS && (mem "-c" (sg_args s) || mem "-ec" (sg_args s)).

Definition is_hex_char (c : ascii) : bool := bool_decide (is_Some (hex_digit c)).
Definition is_octal_char (c : ascii) : bool := let n := nat_of_ascii c in ((48 <=? n) && (n <=? 55))%nat.
(** [/\\x[0-9a-fA-F]{2}|\\[0-7]{3}/.test(s)] *)
Fixpoint has_escape (s : string) : bool :=
  match s with
  | "" => false
  | String c s' =>
      bool_decide (c = "\"%char)
      && match s' with
         | String a (String b (String d _)) =>
             bool_decide (a = "x"%char) && is_hex_char b && is_hex_char d
             || is_octal_char a && is_octal_char b && is_octal_char d
         | _ => false
         end
      || has_escape s'
  end.

Definition expansion_types : list string := ["simple_expansion"; "expansion"; "command_substitution"].

(** [first]: the node is the first named child of its parent. *)
Definition opaque_node (parent : option Node) (first : bool) (n : Node) : bool :=
  mem (n_type n) ["heredoc_redirect"; "heredoc_body"; "herestring_redirect"]
  || eqs (n_type n) "command"
     && match head (namedChildren n) with
        | Some firstChild =>
            mem (n_type firstChild) expansion_types
            || eqs (n_type firstChild) "command_name"
               && match head (namedChildren firstChild) with
                  | Some inner => mem (n_type inner) expansion_types || eqs (n_type inner) "concatenation"
                  | None => false
                  end
        | None => false
        end
  || mem (n_type n) ["ansi_c_string"; "ansii_c_string"]
     && (match parent with Some p => eqs (n_type p) "command" && first | None => false end || has_escape (n_text n))
  || eqs (n_type n) "expansion" && str_includes (n_text n) "[@]"
     && match parent with Some p => eqs (n_type p) "command" && first | None => false end.

Fixpoint walkForOpacity (parent : option Node) (first : bool) (n : Node) : bool :=
  opaque_node parent first n
  || (fix children (seen_named : bool) (cs : list Node) : bool :=
        match cs with
        | [] => false
        | c :: cs' =>
            walkForOpacity (Some n) (n_named c && negb seen_named) c || children (seen_named || n_named c) cs'
        end) false (n_children n).

Definition detectOpaqueConstructs (n : Node) (segments : list CommandSegment) : bool :=
  existsb opaque_segment segments || walkForOpacity None false n.

(** ** [parse] *)
Definition parse (ts_parse : string → option Node) (command : string) : ParsedCommand :=
  match ts_parse command with
  | None => mkParsed command [] [] true
  | Some rootNode =>
      let segments := extractSegments command rootNode in
      mkParsed command segments (detectDangerousPatterns rootNode segments) (detectOpaqueConstructs rootNode segments)
  end.
