(* ===== verification/ShellIdentity.v ===== *)
(** * What a shell command is about

    src/gateway/src/risk/shell-identity.ts: the cache of parsed commands and the action
    keys of a command.

    [cachedParse] is asynchronous: a hit answers at once, a miss awaits the parser and
    then stores the result; any number of misses may be under way at a time. *)
From S2P Require Import Prelude JsText RiskTypes ShellParser.

(** ** The parse cache *)
Definition PARSE_CACHE_MAX : Z := 256.
Definition ParseCache : Type := jsmap string ParsedCommand.

(** Up to the first [await]: [Some] is the answer of a hit, moved to the end of the map. *)
Definition cache_lookup (command : string) (c : ParseCache) : option ParsedCommand * ParseCache :=
  match jget command c with
  | Some cached => (Some cached, jset command cached (jdel command c))
  | None => (None, c)
  end.

(** After the parser has answered. *)
Definition evict_oldest (c : ParseCache) : ParseCache :=
  if PARSE_CACHE_MAX <=? Z.of_nat (length c) then match c with (oldest, _) :: _ => jdel oldest c | [] => c end else c.
Definition cache_store (command : string) (result : ParsedCommand) (c : ParseCache) : ParseCache :=
  jset command result (evict_oldest c).

(** ** Action keys *)

Record ShellActionKey := mkKey { ak_key : string; ak_depth : nat }.
Record ShellIdentityAnalysis := mkAnalysis {
  sa_segments : list CommandSegment;
  sa_operators : list Operator;
  sa_hasOpaqueConstructs : bool;
  sa_dangerousPatterns : list DangerousPattern;
}.
Record ActionKeyResult := mkKeys {
  kr_keys : list ShellActionKey;
  kr_isSimpleAction : bool;
  kr_primarySegment : option CommandSegment;
}.

Definition SETUP_PREFIX_PROGRAMS : list string := ["cd"; "pushd"; "export"; "unset"; "set"].
Definition MAX_ACTION_KEY_DEPTH : nat := 3.

Definition has_operator (s : CommandSegment) : bool := negb (bool_decide (sg_operator s = op_none)).

Definition analyzeShellCommand (parsed : ParsedCommand) : ShellIdentityAnalysis :=
  mkAnalysis (pc_segments parsed) (sg_operator <$> js_filter has_operator (pc_segments parsed))
    (pc_hasOpaqueConstructs parsed) (pc_dangerousPatterns parsed).

Definition is_number (s : string) : bool := truthy s && forallb (λ c, let n := nat_of_ascii c in ((48 <=? n) && (n <=? 57))%nat) (String.list_ascii_of_string s).
Definition double_quote : ascii := ascii_of_nat 34.
(** Arguments that are not part of what the command does. *)
Definition unstable_token (arg : string) : bool :=
  startsWith arg "-" || has_char "/" arg || startsWith arg "." || is_number arg
  || has_char "$" arg || has_char double_quote arg || has_char "'" arg.

Fixpoint add_tokens (tokens args : list string) : list string :=
  match args with
  | [] => tokens
  | arg :: rest =>
      if (MAX_ACTION_KEY_DEPTH <=? length tokens)%nat then tokens
      else if unstable_token arg then add_tokens tokens rest
      else add_tokens (tokens ++ [arg]) rest
  end.
Definition action_tokens (seg : CommandSegment) : list string := add_tokens [sg_program seg] (sg_args seg).

Fixpoint keys_of (tokens : list string) (depth : nat) : list ShellActionKey :=
  match depth with
  | O => []
  | Datatypes.S d => mkKey ("action:" +:+ js_join " " (take depth tokens)) depth :: keys_of tokens d
  end.
Definition segment_keys (seg : CommandSegment) : list ShellActionKey :=
  keys_of (action_tokens seg) (length (action_tokens seg)).

Definition is_setup (s : CommandSegment) : bool := mem (sg_program s) SETUP_PREFIX_PROGRAMS.
Fixpoint drop_setup (segments : list CommandSegment) : list CommandSegment :=
  match segments with
  | [] => []
  | s :: rest => if is_setup s then drop_setup rest else segments
  end.

Definition no_keys : ActionKeyResult := mkKeys [] false None.
Definition is_pipe (s : CommandSegment) : bool := bool_decide (sg_operator s = op_pipe).
Definition complex_operator (s : CommandSegment) : bool :=
  bool_decide (sg_operator s = op_or) || bool_decide (sg_operator s = op_semi).

Definition simple_action (segments : list CommandSegment) : ActionKeyResult :=
  match drop_setup segments with
  | [seg] => mkKeys (segment_keys seg) true (Some seg)
  | _ => no_keys
  end.
Definition pipeline_action (segments : list CommandSegment) : ActionKeyResult :=
  match js_findIndex is_pipe segments with
  | Some (Datatypes.S i) =>
      match js_filter (λ s, negb (is_setup s)) (take (Datatypes.S i) segments) with
      | [seg] => mkKeys (segment_keys seg) false (Some seg)
      | _ => no_keys
      end
  | _ => no_keys
  end.

Definition deriveShellActionKeys (analysis : ShellIdentityAnalysis) : ActionKeyResult :=
  let segments := sa_segments analysis in
  match segments with
  | [] => no_keys
  | [_] => simple_action segments
  | _ :: rest =>
      if existsb complex_operator segments then no_keys
      else if existsb (λ s, negb (has_operator s)) rest then no_keys
      else if existsb is_pipe segments then pipeline_action segments
      else simple_action segments
  end.

(** ** Allowlist options *)

(** [key.replace(/^action:/, '')] *)
Definition strip_action (key : string) : string := if startsWith key "action:" then str_drop 7 key else key.
Definition quoted (s : string) : string := String double_quote s +:+ String double_quote "".
Definition key_option (k : ShellActionKey) : AllowlistOption :=
  let keyTokens := strip_action (ak_key k) in
  mkAllow (keyTokens +:+ " *") ("Any " +:+ quoted keyTokens +:+ " command") (ak_key k).

(** The first option of each pattern. *)
Fixpoint dedup_options (seen : list string) (l : list AllowlistOption) : list AllowlistOption :=
  match l with
  | [] => []
  | o :: l' => if mem (al_pattern o) seen then dedup_options seen l' else o :: dedup_options (al_pattern o :: seen) l'
  end.

Definition buildShellAllowlistOptions (parse_command : string → ParsedCommand) (command : string) : list AllowlistOption :=
  let trimmed := js_trim command in
  if negb (truthy trimmed) then []
  else
    let r := deriveShellActionKeys (analyzeShellCommand (parse_command trimmed)) in
    if negb (kr_isSimpleAction r) || is_null (kr_primarySegment r) then
      mkAllow trimmed "This exact compound command" trimmed :: (key_option <$> kr_keys r)
    else dedup_options [] (mkAllow trimmed "This exact command" trimmed :: (key_option <$> kr_keys r)).

(** ** The cache holds what the parser says, and no more than its bound *)
Section cache.
Context (ts_parse : string → option Node).

(** Calls under way: the command each awaits. *)
Record CacheState := mkCacheState { cs_cache : ParseCache; cs_pending : list string }.

Inductive cache_step : CacheState → CacheState → Prop :=
  | call_hits command cached c' s : cache_lookup command (cs_cache s) = (Some cached, c') →
      cache_step s (mkCacheState c' (cs_pending s))
  | call_misses command c' s : cache_lookup command (cs_cache s) = (None, c') →
      cache_step s (mkCacheState c' (command :: cs_pending s))
  | call_parsed before command after c : 
      cache_step (mkCacheState c (before ++ command :: after))
        (mkCacheState (cache_store command (parse ts_parse command) c) (before ++ after)).

Definition cache_reachable : CacheState → Prop := rtc cache_step (mkCacheState [] []).

Definition cache_ok (c : ParseCache) : Prop :=
  NoDup (jkeys c) ∧ Z.of_nat (length c) ≤ PARSE_CACHE_MAX ∧ ∀ command r, jget command c = Some r → r = parse ts_parse command.

Lemma jkeys_length {V} (m : jsmap string V) : length (jkeys m) = length m.
Proof. unfold jkeys. by rewrite length_fmap. Qed.

Lemma jset_length_le {V} (k : string) (v : V) m : (length (jset k v m) ≤ S (length m))%nat.
Proof. induction m as [|[k' v'] m IH]; cbn; [lia|]. destruct (decide (k = k')); cbn; lia. Qed.

Lemma jdel_length_lt {V} (k : string) (v : V) m : jget k m = Some v → (length (jdel k m) < length m)%nat.
Proof.
  assert (Hle : ∀ m' : jsmap string V, (length (jdel k m') ≤ length m')%nat).
  { induction m' as [|[k' v'] m' IH]; cbn; [lia|]. destruct (decide (k = k')); cbn; lia. }
  induction m as [|[k' v'] m IH]; cbn; [done|]. destruct (decide (k = k')); [intros _; specialize (Hle m); lia|].
  intros H%IH. cbn. lia.
Qed.

Lemma jdel_length_le {V} (k : string) (m : jsmap string V) : (length (jdel k m) ≤ length m)%nat.
Proof. induction m as [|[k' v'] m IH]; cbn; [lia|]. destruct (decide (k = k')); cbn; lia. Qed.

Lemma cache_ok_lookup command c r c' : cache_ok c → cache_lookup command c = (r, c') →
  cache_ok c' ∧ (∀ p, r = Some p → p = parse ts_parse command).
Proof.
  unfold cache_lookup. intros (Hnd & Hlen & Hget). destruct (jget command c) as [p|] eqn:Hp; intros [= <- <-]; [|by split].
  split; [|by intros ? [= <-]; apply Hget]. split_and!.
  - auto with jsmap.
  - pose proof (jset_length_le command p (jdel command c)). pose proof (jdel_length_lt command p c Hp). lia.
  - intros k q. rewrite jget_jset, jget_jdel. destruct (decide (command = k)) as [->|]; [intros [= <-]; by apply Hget|apply Hget].
Qed.

Lemma cache_ok_store command c : cache_ok c → cache_ok (cache_store command (parse ts_parse command) c).
Proof.
  intros (Hnd & Hlen & Hget). unfold cache_store. set (r := parse ts_parse command).
  assert (He : NoDup (jkeys (evict_oldest c)) ∧ (Z.of_nat (length (evict_oldest c)) < PARSE_CACHE_MAX)
               ∧ ∀ k q, jget k (evict_oldest c) = Some q → q = parse ts_parse k).
  { unfold evict_oldest. destruct (Z.leb_spec PARSE_CACHE_MAX (Z.of_nat (length c))); [|done].
    destruct c as [|[o v] c]; [by cbn in *|]. split_and!; [auto with jsmap| |].
    - assert (jget o ((o, v) :: c) = Some v) as Ho by (cbn; by rewrite decide_True).
      pose proof (jdel_length_lt o v _ Ho). lia.
    - intros k q. rewrite jget_jdel. case_decide; [done|]. apply Hget. }
  destruct He as (H1 & H2 & H3). split_and!; [auto with jsmap| |].
  - pose proof (jset_length_le command r (evict_oldest c)). lia.
  - intros k q. rewrite jget_jset. case_decide; [by intros [= <-]; subst|]. apply H3.
Qed.

Lemma cache_ok_reachable s : cache_reachable s → cache_ok (cs_cache s).
Proof.
  apply (rtc_ind_r (λ s, cache_ok (cs_cache s)) (mkCacheState [] [])).
  - split_and!; [by constructor|done|done].
  - intros x y _ Hxy IH. destruct Hxy as [command cached c' s0 H|command c' s0 H|]; cbn in *.
    + by eapply cache_ok_lookup in H as [? _].
    + by eapply cache_ok_lookup in H as [? _].
    + by apply cache_ok_store.
Qed.

(** Whatever calls are under way together, the cache of parsed commands stays within
    its bound, has each command once, and answers what the parser says. *)
Theorem parse_cache_sound s : cache_reachable s →
  cache_ok (cs_cache s)
  ∧ ∀ command cached c', cache_lookup command (cs_cache s) = (Some cached, c') → cached = parse ts_parse command.
Proof.
  intros Hs%cache_ok_reachable. split; [done|]. intros command cached c' Hl.
  destruct (cache_ok_lookup _ _ _ _ Hs Hl) as [_ H]. by apply H.
Qed.
End cache.

(** Two calls with the same command miss, and both store what the parser answers. *)
Lemma parse_cache_sound_witness :
  let no_tree := λ _ : string, None in
  let c := cache_store "ls" (parse no_tree "ls") (cache_store "ls" (parse no_tree "ls") []) in
  length c = 1%nat ∧ cache_ok no_tree c
  ∧ ∀ command cached c', cache_lookup command c = (Some cached, c') → cached = parse no_tree command.
Proof.
  split; [reflexivity|].
  apply (parse_cache_sound (λ _, None) (mkCacheState (cache_store "ls" (parse (λ _, None) "ls")
    (cache_store "ls" (parse (λ _, None) "ls") [])) [])).
  eapply rtc_l; [by apply (call_misses _ "ls" [])|]. eapply rtc_l; [by apply (call_misses _ "ls" [])|].
  eapply rtc_l; [apply (call_parsed _ [] "ls" ["ls"])|]. apply rtc_once, (call_parsed _ [] "ls" []).
Defined.
