(* ===== verification/BashRisk.v ===== *)
(** * The risk of a shell command

    [BashRiskClassifier] of src/gateway/src/risk/bash-risk-classifier.ts: the risk of
    each segment, by the command registry, the argument rules and the user's rules,
    and of the whole command.

    A risk read from a specification may be [undefined], [None]: a subcommand named
    like a member of [Object.prototype] resolves to that member, which has none of the
    fields of a specification.  Comparisons with [undefined] are false.

    Patterns are compiled by Regex.v.  A pattern outside its subset would make
    [new RegExp] mean something this file does not say; it matches nothing here, and
    RegistryProps.v shows that the registry has none. *)
From S2P Require Import Prelude JsText Regex RiskTypes CommandRegistry ArgParser TrustRules ShellParser.

Definition escalateOne (risk : Risk) : Risk :=
  match risk with low => medium | medium => high | high => high | unknown => unknown end.

(** ** Risks that may be [undefined] *)
Definition ord_ge (a b : option Risk) : bool :=
  match a, b with Some a, Some b => riskOrd b <=? riskOrd a | _, _ => false end.
Definition ord_gt (a b : option Risk) : bool :=
  match a, b with Some a, Some b => riskOrd b <? riskOrd a | _, _ => false end.
Definition maxRisk_opt (a b : option Risk) : option Risk := if ord_ge a b then a else b.

(** ** Argument rules *)

Definition is_nil {A} (l : list A) : bool := match l with [] => true | _ :: _ => false end.

(** [getCompiledPattern(pattern).test(s)] *)
Definition pattern_test (pattern s : string) : bool :=
  match compile pattern with Some r => test r s | None => false end.

Definition rule_flags (rule : ArgRule) : list string := default [] (ar_flags rule).
Definition has_flags (rule : ArgRule) : bool := negb (is_nil (rule_flags rule)).
Definition rule_pattern (rule : ArgRule) : option string :=
  match ar_valuePattern rule with Some p => if truthy p then Some p else None | None => None end.

Definition matchesArgRule (rule : ArgRule) (arg : string) : bool :=
  if has_flags rule then
    let inline := match str_indexOf "=" arg with
                  | Some (Datatypes.S _) =>
                      match split_eq arg with
                      | Some (flagPart, valuePart) => if mem flagPart (rule_flags rule) then Some valuePart else None
                      | None => None
                      end
                  | _ => None
                  end in
    match inline with
    | Some valuePart => match rule_pattern rule with Some p => pattern_test p valuePart | None => true end
    | None => mem arg (rule_flags rule) && is_null (rule_pattern rule)
    end
  else match rule_pattern rule with Some p => pattern_test p arg | None => true end.

(** ** Wrappers *)

Definition WRAPPER_SKIP_FIRST_POSITIONAL : list string := ["timeout"; "taskset"].
Definition ENV_VALUE_FLAGS : list string := ["-u"; "--unset"; "-C"; "--chdir"].
Definition TIMEOUT_VALUE_FLAGS : list string := ["-s"; "--signal"; "-k"; "--kill-after"].

Fixpoint wrapped (program : string) (skipped : bool) (args : list string) : option (string * list string) :=
  let isEnv := eqs program "env" in
  let isTimeout := eqs program "timeout" in
  match args with
  | [] => None
  | arg :: rest =>
      if startsWith arg "-" then
        if (isEnv && mem arg ENV_VALUE_FLAGS) || (isTimeout && mem arg TIMEOUT_VALUE_FLAGS) then
          match rest with [] => None | _ :: rest' => wrapped program skipped rest' end
        else wrapped program skipped rest
      else if isEnv && has_char "=" arg then wrapped program skipped rest
      else if mem program WRAPPER_SKIP_FIRST_POSITIONAL && negb skipped then wrapped program true rest
      else Some (arg, rest)
  end.
Definition getWrappedProgramWithArgs (program : string) (args : list string) : option (string * list string) :=
  wrapped program false args.

Definition firstPositionalArg (args : list string) (valueFlags : option (list string)) : option string :=
  head (pa_positionals (parseArgs args (mkSchema valueFlags (Some pos_none) None None))).

Definition RM_SAFE_BARE_FILES : list string := ["BOOTSTRAP.md"].
Definition RM_BENIGN_FLAGS : list string := ["-f"; "-i"; "-v"; "--force"; "--interactive"; "--verbose"].

(** ** Help *)
Definition last_char (s : string) : option ascii := String.get (String.length s - 1) s.
Definition takes_next (valueFlags : list string) (arg : string) : bool :=
  mem arg valueFlags
  || startsWith arg "-" && negb (startsWith arg "--") && (2 <? String.length arg)%nat
     && match last_char arg with Some c => mem (String "-" (String c "")) valueFlags | None => false end.
Fixpoint standalone_help (valueFlags args : list string) : bool :=
  match args with
  | [] => false
  | arg :: rest =>
      if eqs arg "--" then false
      else if takes_next valueFlags arg then match rest with [] => false | _ :: rest' => standalone_help valueFlags rest' end
      else if startsWith arg "-" && match split_eq arg with Some (flagPart, _) => mem flagPart valueFlags | None => false end
      then standalone_help valueFlags rest
      else if eqs arg "--help" || startsWith arg "--help=" then true
      else standalone_help valueFlags rest
  end.
Definition hasStandaloneHelpFlag (args : list string) (schema : option ArgSchema) : bool :=
  match schema with None => false | Some s => standalone_help (default [] (as_valueFlags s)) args end.

(** ** Subcommands *)

(** [args.slice(args.indexOf(name) + 1)] *)
Fixpoint after_first (name : string) (args : list string) : list string :=
  match args with
  | [] => []
  | a :: rest => if eqs a name then rest else after_first name rest
  end.

(** The fields of a member of [Object.prototype] are [undefined]. *)
Definition spec_value_flags (spec : CommandRiskSpec) : option (list string) := cs_argSchema spec ≫= as_valueFlags.

(** One level down: the member named by the first positional. *)
Definition next_level (spec : CommandRiskSpec) (args : list string) : option (string * Member CommandRiskSpec) :=
  match cs_subcommands spec, args with
  | Some subcommands, _ :: _ =>
      subcommandName ← firstPositionalArg args (spec_value_flags spec);
      if truthy subcommandName then
        subSpec ← js_member subcommands subcommandName; Some (subcommandName, subSpec)
      else None
  | _, _ => None
  end.

(** [fuel]: each level uses up an argument; [resolve_fuel] (BashRiskProps.v). *)
Fixpoint resolve_level (fuel : nat) (spec : CommandRiskSpec) (args : list string) : Member CommandRiskSpec * list string :=
  match next_level spec args with
  | None => (own spec, args)
  | Some (name, member) =>
      let remainingArgs := after_first name args in
      match member, fuel with
      | own subSpec, Datatypes.S fuel' => resolve_level fuel' subSpec remainingArgs
      | own subSpec, O => (own subSpec, remainingArgs)
      | inherited, _ => (inherited, remainingArgs)
      end
  end.
Definition resolveSubcommand (spec : CommandRiskSpec) (args : list string) : Member CommandRiskSpec * list string :=
  resolve_level (length args) spec args.

(** The walk of step 4b, which collects the names. *)
Fixpoint subcommand_chain (fuel : nat) (spec : CommandRiskSpec) (args : list string) : list string :=
  match next_level spec args with
  | None => []
  | Some (name, member) =>
      name :: match member, fuel with
              | own subSpec, Datatypes.S fuel' => subcommand_chain fuel' subSpec (after_first name args)
              | _, _ => []
              end
  end.

Definition resolved_baseRisk (m : Member CommandRiskSpec) : option Risk :=
  match m with own s => Some (cs_baseRisk s : Risk) | inherited => None end.
Definition resolved_reason (m : Member CommandRiskSpec) : option string := match m with own s => cs_reason s | inherited => None end.
Definition resolved_argRules (m : Member CommandRiskSpec) : list ArgRule :=
  match m with own s => default [] (cs_argRules s) | inherited => [] end.
Definition resolved_schema (m : Member CommandRiskSpec) : ArgSchema :=
  match m with own s => default empty_schema (cs_argSchema s) | inherited => empty_schema end.

(** ** Evaluation of the argument rules *)

Record RuleState := mkRuleState {
  rs_anyMatched : bool;
  rs_maxRisk : Risk;
  rs_reason : string;
  rs_matchedPositionals : list nat;
}.
Definition raise_rule (rule : ArgRule) (s : RuleState) : RuleState :=
  if negb (rs_anyMatched s) || (riskOrd (rs_maxRisk s) <? riskOrd (ar_risk rule))
  then mkRuleState true (ar_risk rule) (ar_reason rule) (rs_matchedPositionals s)
  else mkRuleState true (rs_maxRisk s) (rs_reason s) (rs_matchedPositionals s).

Definition flag_value_matches (parsed : ParsedArgs) (p flag : string) : bool :=
  match jget flag (pa_flags parsed) with Some (flag_value v) => pattern_test p v | _ => false end.
Definition matching_indices (p : string) (positionals : list string) : list nat :=
  js_filter (λ i, match positionals !! i with Some s => pattern_test p s | None => false end) (seq 0 (length positionals)).

Definition eval_rule (parsed : ParsedArgs) (allArgs : list string) (s : RuleState) (rule : ArgRule) : RuleState :=
  if has_flags rule then
    let found := match rule_pattern rule with
                 | Some p => existsb (flag_value_matches parsed p) (rule_flags rule)
                 | None => existsb (λ f, jhas f (pa_flags parsed)) (rule_flags rule)
                 end in
    if found || existsb (matchesArgRule rule) allArgs then raise_rule rule s else s
  else match rule_pattern rule with
  | Some p =>
      let hits := matching_indices p (pa_positionals parsed) in
      let s' := mkRuleState (rs_anyMatched s) (rs_maxRisk s) (rs_reason s) (rs_matchedPositionals s ++ hits) in
      if negb (is_nil hits) || existsb (pattern_test p) allArgs then raise_rule rule s' else s'
  | None => raise_rule rule s
  end.

Definition eval_rules (parsed : ParsedArgs) (allArgs : list string) (rules : list ArgRule) : RuleState :=
  foldl (eval_rule parsed allArgs) (mkRuleState false low "" []) rules.

(** Some argument is covered by no rule. *)
Definition covered_by (rules : list ArgRule) (arg : string) : bool :=
  existsb (λ rule, matchesArgRule rule arg
    || match ar_flags rule, rule_pattern rule with Some flags, Some _ => mem arg flags | _, _ => false end) rules.
Definition has_unmatched (rules : list ArgRule) (parsed : ParsedArgs) (allArgs : list string) (matched : list nat) : bool :=
  existsb (λ i, negb (bool_decide (i ∈ matched))) (seq 0 (length (pa_positionals parsed)))
  || existsb (λ arg, negb (startsWith arg "-") && negb (covered_by rules arg)) allArgs.

(** ** One segment *)

Record SegmentResult := mkResult { sr_risk : option Risk; sr_reason : string; sr_matchType : MatchType }.

(** Steps 5 to 7, from a base risk. *)
Definition apply_arg_rules (resolved : Member CommandRiskSpec) (args : list string) (r : SegmentResult) : SegmentResult :=
  let rules := resolved_argRules resolved in
  if is_nil rules then r
  else
    let parsed := parseArgs args (resolved_schema resolved) in
    let s := eval_rules parsed args rules in
    let byRules := mkResult (Some (rs_maxRisk s)) (rs_reason s) registry_match in
    if rs_anyMatched s then
      if ord_ge (Some (rs_maxRisk s)) (sr_risk r) then byRules
      else if negb (has_unmatched rules parsed args (rs_matchedPositionals s)) then byRules
      else r
    else r.

Definition apply_expansion (program : string) (args : list string) (base : option Risk) (r : SegmentResult) : SegmentResult :=
  if existsb (has_char "$") args then
    let escalated := escalateOne <$> maxRisk_opt (sr_risk r) base in
    if ord_gt escalated (sr_risk r) then mkResult escalated (program +:+ " with variable expansion") (sr_matchType r) else r
  else r.

Definition apply_rm_downgrade (programName : string) (toolName : BashTool) (args : list string) (r : SegmentResult) :
    SegmentResult :=
  if eqs programName "rm" && bool_decide (toolName = tool_bash) && bool_decide (sr_risk r = Some high) then
    let flagArgs := js_filter (λ a, startsWith a "-") args in
    match js_filter (λ a, negb (startsWith a "-")) args with
    | [file] =>
        if forallb (λ f, mem f RM_BENIGN_FLAGS) flagArgs && negb (has_char "/" file) && mem file RM_SAFE_BARE_FILES
        then mkResult (Some medium) ("rm of known safe file: " +:+ file) registry_match
        else r
    | _ => r
    end
  else r.

Definition base_reason (program : string) (resolved : Member CommandRiskSpec) : string :=
  match resolved_reason resolved with
  | Some re => if truthy re then re else program +:+ " (default)"
  | None => program +:+ " (default)"
  end.
Definition base_matchType (rule : option TrustRule) : MatchType :=
  match rule with Some r => if isUserRule r then user_rule else registry_match | None => registry_match end.

Section classify.
(** [None]: [getTrustRuleCache()] throws. *)
Context (cache : option TrustRuleCache).

(** Step 4b: the base risk the user's rules give the command. *)
Definition cached_rule (registry : Registry) (programName : string) (spec : CommandRiskSpec) (args : list string)
    (toolName : BashTool) : option TrustRule :=
  rules ← cache;
  let subcommandChain := subcommand_chain (length args) spec args in
  let subcommandPattern := js_join " " (programName :: subcommandChain) in
  let positionals := match jget programName registry ≫= cs_argSchema with
                     | Some schema => pa_positionals (parseArgs args schema)
                     | None => js_filter (λ a, negb (startsWith a "-")) args
                     end in
  let positionalPattern := js_join " " (programName :: positionals) in
  match findBaseRisk rules (bash_tool_name toolName) positionalPattern with
  | Some r => Some r
  | None => if negb (eqs subcommandPattern positionalPattern)
            then findBaseRisk rules (bash_tool_name toolName) subcommandPattern else None
  end.

Definition classify_plain (registry : Registry) (toolName : BashTool) (program programName : string)
    (spec : CommandRiskSpec) (args : list string) : SegmentResult :=
  let '(resolved, _) := resolveSubcommand spec args in
  let rule := cached_rule registry programName spec args toolName in
  let base := match rule with Some r => Some (tr_risk r : Risk) | None => resolved_baseRisk resolved end in
  let r := apply_arg_rules resolved args (mkResult base (base_reason program resolved) (base_matchType rule)) in
  let r := apply_expansion program args base r in
  apply_rm_downgrade programName toolName args r.

(** Step 2: the specification, by name or by the name without its path. *)
Definition find_spec (registry : Registry) (program : string) : option (string * CommandRiskSpec) :=
  match jget program registry with
  | Some spec => Some (program, spec)
  | None =>
      let bare := last_piece program in
      if truthy bare then spec ← jget bare registry; Some (bare, spec) else None
  end.

Definition non_exec_mode (spec : CommandRiskSpec) (args : list string) : bool :=
  match args with a :: _ => in_opt a (cs_nonExecFlags spec) | [] => false end.

(** [fuel]: each wrapper takes at least its command's name off the arguments;
    [classify_fuel] (BashRiskProps.v). *)
Fixpoint classify_level (fuel : nat) (segment : CommandSegment) (userRules : list UserRule) (registry : Registry)
    (toolName : BashTool) : SegmentResult :=
  match js_find (λ rule, pattern_test (ur_pattern rule) (sg_command segment)) userRules with
  | Some rule => mkResult (Some (ur_risk rule : Risk)) (ur_label rule) user_rule
  | None =>
      match find_spec registry (sg_program segment) with
      | None => mkResult (Some unknown) ("Unknown command: " +:+ sg_program segment) unknown_match
      | Some (programName, spec) =>
          let args := sg_args segment in
          if is_null (cs_subcommands spec) && negb (cs_isWrapper spec) && hasStandaloneHelpFlag args (cs_argSchema spec)
          then mkResult (Some low) (sg_program segment +:+ " help output") registry_match
          else if cs_isWrapper spec && negb (non_exec_mode spec args) then
            match getWrappedProgramWithArgs (sg_program segment) args, fuel with
            | Some (program, innerArgs), Datatypes.S fuel' =>
                let innerSegment := mkSegment (js_join " " (program :: innerArgs)) program innerArgs (sg_operator segment) false in
                let inner := classify_level fuel' innerSegment userRules registry toolName in
                mkResult (maxRisk_opt (Some (cs_baseRisk spec : Risk)) (sr_risk inner))
                  (if truthy (sr_reason inner) then sr_reason inner else programName +:+ " wrapping " +:+ program)
                  (sr_matchType inner)
            | _, _ =>
                mkResult (Some (cs_baseRisk spec : Risk))
                  (match cs_reason spec with Some re => if truthy re then re else programName | None => programName end)
                  registry_match
            end
          else classify_plain registry toolName (sg_program segment) programName spec args
      end
  end.
Definition classifySegment (segment : CommandSegment) (userRules : list UserRule) (registry : Registry)
    (toolName : BashTool) : SegmentResult :=
  classify_level (length (sg_args segment)) segment userRules registry toolName.
End classify.
