(* ===== verification/BashScope.v ===== *)
(** * Scope options and the classifier of shell commands

    The rest of src/gateway/src/risk/bash-risk-classifier.ts: the ladder of patterns
    offered when the user wants to save a rule, and [BashRiskClassifier.classify]. *)
From S2P Require Import Prelude JsText Regex RiskTypes CommandRegistry ArgParser TrustRules ShellParser BashRisk.

Definition backslash : ascii := ascii_of_nat 92.

(** [/[.*+?^${}()|[\]\\]/] *)
Definition syntax_chars : list ascii :=
  ["."; "*"; "+"; "?"; "^"; "$"; "{"; "}"; "("; ")"; "|"; "["; "]"; backslash]%char.
Fixpoint escapeRegex (s : string) : string :=
  match s with
  | "" => ""
  | String c s' =>
      if bool_decide (c ∈ syntax_chars) then String backslash (String c (escapeRegex s')) else String c (escapeRegex s')
  end.

Definition bs (s : string) : string := String backslash s.
Definition exact_pattern (s : string) : string := "^" +:+ escapeRegex s +:+ "$".
Definition word_pattern (s : string) : string := "^" +:+ escapeRegex s +:+ bs "b".
Definition spaces_pattern : string := bs "s+".

(** [addOption]: a pattern is offered once. *)
Definition addOption (pattern label : string) (options : list ScopeOption) : list ScopeOption :=
  if existsb (λ o, eqs (so_pattern o) pattern) options then options else options ++ [mkScope pattern label].
Definition add_all (new : list (string * string)) (options : list ScopeOption) : list ScopeOption :=
  foldl (λ os pl, addOption pl.1 pl.2 os) options new.

Fixpoint dedup_strings (seen l : list string) : list string :=
  match l with
  | [] => []
  | x :: l' => if mem x seen then dedup_strings seen l' else x :: dedup_strings (x :: seen) l'
  end.

Definition multi_options (parsed : ParsedCommand) : list ScopeOption :=
  let programs := dedup_strings [] (sg_program <$> js_filter (λ s, negb (sg_synthetic s)) (pc_segments parsed)) in
  add_all ((exact_pattern (pc_originalCommand parsed), pc_originalCommand parsed)
           :: ((λ prog, (word_pattern prog, prog +:+ " *")) <$> programs)) [].

(** The flags, each with its value, and the positionals. *)
Definition flags_positionals (spec : option (Member CommandRiskSpec)) (args : list string) : list string * list string :=
  match spec with
  | Some (own (mkSpec _ _ _ _ _ _ _ _ _ (Some schema))) =>
      let p := parseArgs args schema in
      (flat_map (λ fv, match fv.2 with flag_value v => [fv.1; v] | flag_true => [fv.1] end) (pa_flags p), pa_positionals p)
  | _ => (js_filter (λ a, startsWith a "-") args, js_filter (λ a, negb (startsWith a "-")) args)
  end.

Definition detect_subcommand (spec : option (Member CommandRiskSpec)) (positionals : list string) : option string :=
  match spec, positionals with
  | Some (own s), firstPos :: _ =>
      subs ← cs_subcommands s; _ ← js_member subs firstPos; if truthy firstPos then Some firstPos else None
  | _, _ => None
  end.

(** Step 2: the wildcards that keep the first [k] of the positionals, from most to one. *)
Fixpoint dropped_options (programName : string) (sub flags wildcardPositionals : list string) (k : nat) : list (string * string) :=
  match k with
  | O => []
  | Datatypes.S k' =>
      let kept := take k wildcardPositionals in
      let parts := programName :: sub ++ flags ++ kept in
      ("^" +:+ join_with spaces_pattern (escapeRegex <$> js_filter truthy parts) +:+ spaces_pattern +:+ ".*$",
       js_join " " (parts ++ ["*"]))
      :: dropped_options programName sub flags wildcardPositionals k'
  end.

Definition generateScopeOptions (registry : Registry) (parsed : ParsedCommand) : list ScopeOption :=
  match pc_segments parsed with
  | [] => []
  | [seg] =>
      let programName := sg_program seg in
      let spec := js_member registry programName in
      let exact := (exact_pattern (sg_command seg), sg_command seg) in
      let broadest := (word_pattern programName, programName +:+ " *") in
      if match spec with Some (own s) => cs_complexSyntax s | _ => false end then add_all [exact; broadest] []
      else
        let '(flags, positionals) := flags_positionals spec (sg_args seg) in
        let subcommand := detect_subcommand spec positionals in
        let sub := match subcommand with Some s => [s] | None => [] end in
        let wildcardPositionals := match subcommand with Some _ => tail positionals | None => positionals end in
        let flagless := if is_nil flags then [] else
          [("^" +:+ join_with spaces_pattern (escapeRegex <$> programName :: sub) +:+ bs "b", js_join " " (programName :: sub ++ ["*"]))] in
        let bySub := match subcommand with
          | Some s => [("^" +:+ escapeRegex programName +:+ spaces_pattern +:+ escapeRegex s +:+ bs "b",
                        programName +:+ " " +:+ s +:+ " *")]
          | None => []
          end in
        add_all (exact :: dropped_options programName sub flags wildcardPositionals (length wildcardPositionals - 1)
                 ++ flagless ++ bySub ++ [broadest]) []
  | _ :: _ :: _ => multi_options parsed
  end.

(** ** Allowlist options *)
Definition labelToActionPattern (label : string) : string :=
  "action:" +:+ js_join " " (js_filter (λ t, negb (startsWith t "-") && negb (eqs t "*")) (split_spaces label)).

(** What an option but the first becomes. *)
Definition broader_option (label : string) : string * string :=
  let prog := str_take (String.length label - 2) label in
  if endsWith label " *" && negb (has_char " " prog) then ("Any " +:+ prog +:+ " command", "action:" +:+ prog)
  else ("Commands matching this pattern", labelToActionPattern label).

Fixpoint allow_options (first : bool) (seen : list string) (opts : list ScopeOption) : list AllowlistOption :=
  match opts with
  | [] => []
  | o :: rest =>
      let '(description, pattern) := if first then ("This exact command", so_label o) else broader_option (so_label o) in
      if mem pattern seen then allow_options false seen rest
      else mkAllow (so_label o) description pattern :: allow_options false (pattern :: seen) rest
  end.
Definition scopeOptionsToAllowlistOptions (scopeOptions : list ScopeOption) : list AllowlistOption :=
  allow_options true [] scopeOptions.

(** ** [classify] *)
Section classify.
Context (cache : option TrustRuleCache).

Record Verdict := mkVerdict { vd_risk : Risk; vd_reason : string; vd_matchType : MatchType }.

Definition absorb_segment (userRules : list UserRule) (registry : Registry) (toolName : BashTool) (v : Verdict)
    (segment : CommandSegment) : Verdict :=
  let result := classifySegment cache segment userRules registry toolName in
  match sr_risk result with
  | Some risk =>
      if riskOrd (vd_risk v) <? riskOrd risk then mkVerdict risk (sr_reason result) (sr_matchType result)
      else if negb (truthy (vd_reason v)) && truthy (sr_reason result)
      then mkVerdict (vd_risk v) (sr_reason result) (sr_matchType result) else v
  | None =>
      if negb (truthy (vd_reason v)) && truthy (sr_reason result)
      then mkVerdict (vd_risk v) (sr_reason result) (sr_matchType result) else v
  end.

Definition at_least (r : Risk) (v : Verdict) : Verdict :=
  if riskOrd (vd_risk v) <? riskOrd r then mkVerdict r (vd_reason v) (vd_matchType v) else v.

Definition command_verdict (userRules : list UserRule) (registry : Registry) (toolName : BashTool) (parsed : ParsedCommand) :
    Verdict :=
  let v := foldl (absorb_segment userRules registry toolName) (mkVerdict low "" registry_match) (pc_segments parsed) in
  let v := if is_nil (pc_segments parsed) then mkVerdict high "No parseable command segments" unknown_match else v in
  let v := match pc_dangerousPatterns parsed with
           | d :: _ => let v := at_least high v in mkVerdict (vd_risk v) (dp_description d) (vd_matchType v)
           | [] => v
           end in
  if pc_hasOpaqueConstructs parsed then
    let v := at_least (if is_nil (pc_dangerousPatterns parsed) then medium else high) v in
    if negb (truthy (vd_reason v)) then mkVerdict (vd_risk v) "Command contains opaque constructs" (vd_matchType v) else v
  else v.

Definition classify_bash (parse_command : string → ParsedCommand) (registry : Registry) (userRules : list UserRule)
    (command : string) (toolName : BashTool) : RiskAssessment :=
  if negb (truthy (js_trim command)) then mkAssessment low "Empty command" [] registry_match (Some [])
  else
    let parsed := parse_command command in
    let v := command_verdict userRules registry toolName parsed in
    let scopeOptions := generateScopeOptions registry parsed in
    mkAssessment (vd_risk v) (vd_reason v) scopeOptions (vd_matchType v) (Some (scopeOptionsToAllowlistOptions scopeOptions)).
End classify.
