(* ===== verification/BashRiskProps.v ===== *)
(** * What the classification of shell commands guarantees *)
From S2P Require Import Prelude JsText Regex RiskTypes CommandRegistry ArgParser TrustRules ShellParser BashRisk BashScope.

Lemma is_nil_true {A} (l : list A) : is_nil l = true ↔ l = [].
Proof. by destruct l. Qed.

Lemma existsb_false_Forall {A} (f : A → bool) l : existsb f l = false ↔ Forall (λ x, f x = false) l.
Proof.
  induction l as [|x l IH]; cbn; [by split; [constructor|]|]. by rewrite orb_false_iff, Forall_cons, IH.
Qed.

(** ** Termination: the fuel is enough *)

Lemma wrapped_shorter program skipped args p rest :
  wrapped program skipped args = Some (p, rest) → (length rest < length args)%nat.
Proof.
  generalize (le_n (length args)). generalize (length args) at 2 as n. intros n. revert args skipped.
  induction n as [|n IH]; intros [|arg args] skipped Hn; cbn in Hn; try done; [lia|]. cbn [wrapped length].
  repeat case_match; intros H'; simplify_eq; try lia; apply IH in H'; cbn in *; lia.
Qed.

(** Classifying a segment with any more fuel gives the same. *)
Lemma classify_fuel cache fuel seg userRules registry toolName :
  (length (sg_args seg) ≤ fuel)%nat →
  classify_level cache fuel seg userRules registry toolName = classifySegment cache seg userRules registry toolName.
Proof.
  unfold classifySegment. generalize (le_n (length (sg_args seg))). generalize (length (sg_args seg)) at 2 4 as fuel'.
  intros fuel'. revert seg fuel. induction fuel' as [|fuel' IH]; intros seg fuel Hf' Hf.
  - assert (Hargs : sg_args seg = []) by (destruct (sg_args seg); [done|cbn in Hf'; lia]).
    destruct fuel; cbn [classify_level]; rewrite Hargs; done.
  - destruct fuel as [|fuel].
    { assert (Hargs : sg_args seg = []) by (destruct (sg_args seg); [done|cbn in Hf; lia]).
      cbn [classify_level]; rewrite Hargs; done. }
    cbn [classify_level]. destruct (js_find _ _); [done|]. destruct (find_spec _ _) as [[programName spec]|]; [|done].
    destruct (is_null _ && _ && _); [done|]. destruct (cs_isWrapper spec && _); [|done].
    destruct (getWrappedProgramWithArgs _ _) as [[p rest]|] eqn:Hw; [|done].
    apply wrapped_shorter in Hw. rewrite (IH (mkSegment _ _ rest _ _) fuel) by (cbn; lia). done.
Qed.

Lemma after_first_shorter name args : name ∈ args → (length (after_first name args) < length args)%nat.
Proof.
  induction args as [|a args IH]; [by intros ?%elem_of_nil|]. cbn. unfold eqs.
  destruct (bool_decide_reflect (a = name)); [lia|]. intros [?|H]%elem_of_cons; [congruence|]. apply IH in H. lia.
Qed.

Lemma head_elem {A} (l : list A) x : head l = Some x → x ∈ l.
Proof. destruct l; [done|]. intros [= ->]. left. Qed.

Lemma next_level_arg spec args name m : next_level spec args = Some (name, m) → name ∈ args.
Proof.
  unfold next_level. destruct (cs_subcommands spec), args as [|a args]; try done.
  destruct (firstPositionalArg _ _) as [n|] eqn:Hn; [|done]. cbn. destruct (truthy n); [|done].
  destruct (js_member _ _); [|done]. cbn. intros [= <- _]. eapply positionals_args, head_elem, Hn.
Qed.

Lemma resolve_fuel fuel spec args : (length args ≤ fuel)%nat → resolve_level fuel spec args = resolveSubcommand spec args.
Proof.
  unfold resolveSubcommand. generalize (le_n (length args)). generalize (length args) at 2 4 as fuel'.
  intros fuel'. revert fuel spec args. induction fuel' as [|fuel' IH]; intros fuel spec args Hf' Hf.
  - destruct args; [|cbn in Hf'; lia]. destruct fuel; cbn; unfold next_level; by destruct (cs_subcommands spec).
  - destruct fuel as [|fuel].
    { destruct args; [|cbn in Hf; lia]. cbn. unfold next_level. by destruct (cs_subcommands spec). }
    cbn [resolve_level]. destruct (next_level spec args) as [[name [sub|]]|] eqn:Hn; [|done|done].
    apply next_level_arg, after_first_shorter in Hn. by rewrite IH by lia.
Qed.

(** ** Subcommands: the two walks agree *)

(** The specification at the end of a chain of names. *)
Fixpoint follow (spec : CommandRiskSpec) (names : list string) : option (Member CommandRiskSpec) :=
  match names with
  | [] => Some (own spec)
  | name :: names' =>
      subs ← cs_subcommands spec;
      m ← js_member subs name;
      match m with own sub => follow sub names' | inherited => if is_nil names' then Some inherited else None end
  end.

Lemma next_level_member spec args name m : next_level spec args = Some (name, m) →
  ∃ subs, cs_subcommands spec = Some subs ∧ js_member subs name = Some m.
Proof.
  unfold next_level. destruct (cs_subcommands spec) as [subs|], args as [|a args]; try done.
  destruct (firstPositionalArg _ _) as [n|]; [|done]. cbn. destruct (truthy n); [|done].
  destruct (js_member subs n) as [m'|] eqn:Hm; [|done]. cbn. intros [= <- <-]. by exists subs.
Qed.

Lemma chain_follow fuel spec args : (length args ≤ fuel)%nat →
  follow spec (subcommand_chain fuel spec args) = Some (resolve_level fuel spec args).1.
Proof.
  revert spec args. induction fuel as [|fuel IH]; intros spec args Hf; cbn [subcommand_chain resolve_level].
  - destruct args; [|cbn in Hf; lia]. unfold next_level. by destruct (cs_subcommands spec).
  - destruct (next_level spec args) as [[name m]|] eqn:Hn; [|done].
    pose proof (next_level_arg _ _ _ _ Hn) as Ha%after_first_shorter. apply next_level_member in Hn as (subs & Hs & Hm).
    cbn [follow]. rewrite Hs. cbn. rewrite Hm. cbn. destruct m as [sub|]; [|done]. apply IH. lia.
Qed.

(** ** The whole command *)

Definition opt_ord (r : option Risk) : Z := match r with Some r => riskOrd r | None => 0 end.
Definition max_ord (l : list Z) : Z := foldr Z.max 0 l.

Lemma absorb_ord cache userRules registry toolName segs v :
  riskOrd (vd_risk (foldl (absorb_segment cache userRules registry toolName) v segs))
  = Z.max (riskOrd (vd_risk v)) (max_ord ((λ s, opt_ord (sr_risk (classifySegment cache s userRules registry toolName))) <$> segs)).
Proof.
  revert v. induction segs as [|s segs IH]; intros v; cbn; [pose proof (riskOrd_bounds (vd_risk v)); lia|].
  rewrite IH. unfold absorb_segment. set (r := classifySegment _ _ _ _ _). pose proof (riskOrd_bounds (vd_risk v)).
  fold (max_ord ((λ s, opt_ord (sr_risk (classifySegment cache s userRules registry toolName))) <$> segs)).
  destruct (sr_risk r) as [risk|]; cbn [opt_ord].
  - destruct (Z.ltb_spec (riskOrd (vd_risk v)) (riskOrd risk)); cbn [vd_risk]; [lia|].
    destruct (negb _ && _); cbn [vd_risk]; lia.
  - destruct (negb _ && _); cbn [vd_risk]; lia.
Qed.

Lemma at_least_ord r v : riskOrd (vd_risk (at_least r v)) = Z.max (riskOrd r) (riskOrd (vd_risk v)).
Proof. unfold at_least. destruct (Z.ltb_spec (riskOrd (vd_risk v)) (riskOrd r)); cbn; lia. Qed.

Lemma max_ord_nonneg l : 0 ≤ max_ord l.
Proof. unfold max_ord. induction l; cbn; lia. Qed.

(** What the code adds to the risks of the segments. *)
Definition floor_ord (parsed : ParsedCommand) : Z :=
  if is_nil (pc_segments parsed) || negb (is_nil (pc_dangerousPatterns parsed)) then 3
  else if pc_hasOpaqueConstructs parsed then 1 else 0.

Lemma max_ord_bound l : Forall (λ x, x ≤ 3) l → max_ord l ≤ 3.
Proof. unfold max_ord. induction 1; cbn; lia. Qed.

Lemma opt_ord_bounds r : 0 ≤ opt_ord r ≤ 3.
Proof. destruct r as [r|]; cbn; [apply riskOrd_bounds|lia]. Qed.

Lemma verdict_ord cache userRules registry toolName parsed :
  riskOrd (vd_risk (command_verdict cache userRules registry toolName parsed))
  = Z.max (floor_ord parsed)
      (max_ord ((λ s, opt_ord (sr_risk (classifySegment cache s userRules registry toolName))) <$> pc_segments parsed)).
Proof.
  unfold command_verdict, floor_ord. set (l := _ <$> pc_segments parsed).
  assert (Hl : 0 ≤ max_ord l ≤ 3).
  { split; [apply max_ord_nonneg|]. apply max_ord_bound. unfold l. apply Forall_fmap, Forall_true. intros s. cbn. apply opt_ord_bounds. }
  pose proof (absorb_ord cache userRules registry toolName (pc_segments parsed) (mkVerdict low "" registry_match)) as H.
  fold l in H. cbn [vd_risk riskOrd] in H. set (v := foldl _ _ _) in *.
  assert (Hv : riskOrd (vd_risk (if is_nil (pc_segments parsed) then mkVerdict high "No parseable command segments" unknown_match else v))
               = Z.max (if is_nil (pc_segments parsed) then 3 else 0) (max_ord l)).
  { destruct (is_nil (pc_segments parsed)); cbn [vd_risk riskOrd]; lia. }
  set (v' := if is_nil (pc_segments parsed) then _ else _) in *. clearbody v'.
  destruct (pc_dangerousPatterns parsed) as [|d ds]; cbn [is_nil negb orb]; rewrite ?orb_false_r, ?orb_true_r.
  - destruct (pc_hasOpaqueConstructs parsed).
    + assert (Ho : riskOrd (vd_risk (at_least medium v')) = Z.max 1 (riskOrd (vd_risk v'))) by apply at_least_ord.
      destruct (negb _); cbn [vd_risk]; rewrite Ho, Hv; destruct (is_nil _); lia.
    + rewrite Hv. destruct (is_nil _); lia.
  - assert (Ho : ∀ w, riskOrd (vd_risk (at_least high w)) = Z.max 3 (riskOrd (vd_risk w))) by (intros; apply at_least_ord).
    destruct (pc_hasOpaqueConstructs parsed).
    + destruct (negb _); cbn [vd_risk]; rewrite Ho; cbn [vd_risk]; rewrite Ho, Hv; destruct (is_nil _); lia.
    + cbn [vd_risk]. rewrite Ho, Hv. destruct (is_nil _); lia.
Qed.

(** ** Lowering a risk *)

Lemma eval_rule_matched parsed allArgs rules s i :
  i ∈ rs_matchedPositionals (foldl (eval_rule parsed allArgs) s rules) →
  i ∈ rs_matchedPositionals s
  ∨ ∃ rule p x, rule ∈ rules ∧ has_flags rule = false ∧ rule_pattern rule = Some p
      ∧ pa_positionals parsed !! i = Some x ∧ pattern_test p x = true.
Proof.
  revert s. induction rules as [|rule rules IH]; intros s; cbn; [by left|]. intros H%IH.
  destruct H as [H|(r & p & x & ? & ?)]; [|right; exists r, p, x; split; [by right|done]].
  unfold eval_rule, raise_rule in H. destruct (has_flags rule) eqn:Hf.
  - left. repeat case_match; done.
  - destruct (rule_pattern rule) as [p|] eqn:Hp; [|left; repeat case_match; done].
    assert (i ∈ rs_matchedPositionals s ++ matching_indices p (pa_positionals parsed)) as [Hi|Hi]%elem_of_app
      by (repeat case_match; done); [by left|]. right.
    unfold matching_indices, js_filter in Hi. apply list_elem_of_In, filter_In in Hi as [_ Hi].
    destruct (pa_positionals parsed !! i) as [x|] eqn:Hx; [|done]. exists rule, p, x. split_and!; [left|done..].
Qed.

(** An argument some rule accounts for. *)
Definition accounted (rules : list ArgRule) (arg : string) : Prop :=
  ∃ rule, rule ∈ rules ∧ (matchesArgRule rule arg = true ∨ arg ∈ rule_flags rule).
(** A positional some pattern rule matches. *)
Definition pattern_covers (rules : list ArgRule) (s : string) : Prop :=
  ∃ rule p, rule ∈ rules ∧ has_flags rule = false ∧ rule_pattern rule = Some p ∧ pattern_test p s = true.

Lemma covered_accounted rules arg : covered_by rules arg = true → accounted rules arg.
Proof.
  unfold covered_by. intros (rule & Hin%list_elem_of_In & H)%existsb_exists. exists rule. split; [done|].
  apply orb_true_iff in H as [H|H]; [by left|]. right. unfold rule_flags. destruct (ar_flags rule); [|done].
  destruct (rule_pattern rule); [|done]. by apply bool_decide_eq_true in H.
Qed.

Lemma no_unmatched rules parsed allArgs :
  has_unmatched rules parsed allArgs (rs_matchedPositionals (eval_rules parsed allArgs rules)) = false →
  (∀ s, s ∈ pa_positionals parsed → pattern_covers rules s)
  ∧ (∀ arg, arg ∈ allArgs → is_flag arg = false → accounted rules arg).
Proof.
  unfold has_unmatched. intros [H1 H2]%orb_false_iff. split.
  - intros s [i Hi]%list_elem_of_lookup. apply existsb_false_Forall in H1. rewrite Forall_forall in H1.
    assert (Hs : i ∈ seq 0 (length (pa_positionals parsed))) by (apply elem_of_seq; apply lookup_lt_Some in Hi; lia).
    specialize (H1 i Hs).
    apply negb_false_iff, bool_decide_eq_true in H1. unfold eval_rules in H1. apply eval_rule_matched in H1 as [H1|H1].
    + by apply elem_of_nil in H1.
    + destruct H1 as (rule & p & x & ? & ? & ? & Hx & ?). rewrite Hi in Hx. injection Hx as ->. by exists rule, p.
  - intros arg Ha Hf. apply existsb_false_Forall in H2. rewrite Forall_forall in H2. specialize (H2 arg Ha).
    unfold is_flag in Hf. rewrite Hf in H2. cbn in H2. apply negb_false_iff in H2. by apply covered_accounted.
Qed.

Lemma escalate_ord r : riskOrd r ≤ riskOrd (escalateOne r).
Proof. destruct r; cbn; lia. Qed.

(** When a base risk may be lowered by the rules of a command. *)
Definition lowered_by_rules (resolved : Member CommandRiskSpec) (args : list string) : Prop :=
  let rules := resolved_argRules resolved in
  let parsed := parseArgs args (resolved_schema resolved) in
  Forall (λ a, has_char "$" a = false) args
  ∧ (∀ s, s ∈ pa_positionals parsed → pattern_covers rules s)
  ∧ (∀ arg, arg ∈ args → is_flag arg = false → accounted rules arg).
(** The one file that may be removed at a lower risk. *)
Definition lowered_rm (programName : string) (toolName : BashTool) (args : list string) : Prop :=
  programName = "rm" ∧ toolName = tool_bash ∧ js_filter (λ a, negb (startsWith a "-")) args = ["BOOTSTRAP.md"]
  ∧ Forall (λ f, f ∈ RM_BENIGN_FLAGS) (js_filter (λ a, startsWith a "-") args).

Lemma rules_lower resolved args base reason matchType r b :
  base = Some b → sr_risk (apply_arg_rules resolved args (mkResult base reason matchType)) = Some r →
  riskOrd r < riskOrd b →
  (∀ s, s ∈ pa_positionals (parseArgs args (resolved_schema resolved)) → pattern_covers (resolved_argRules resolved) s)
  ∧ (∀ arg, arg ∈ args → is_flag arg = false → accounted (resolved_argRules resolved) arg).
Proof.
  intros ->. unfold apply_arg_rules. destruct (is_nil _); [intros [= ->]; lia|]. cbn [sr_risk].
  destruct (rs_anyMatched _); [|cbn; intros [= ->]; lia]. cbn [ord_ge].
  destruct (Z.leb_spec (riskOrd b) (riskOrd (rs_maxRisk (eval_rules (parseArgs args (resolved_schema resolved)) args (resolved_argRules resolved))))).
  - cbn. intros [= <-]. lia.
  - destruct (has_unmatched _ _ _ _) eqn:Hu; cbn [negb sr_risk]; [intros [= ->]; lia|]. intros _ _. by apply no_unmatched.
Qed.

Lemma rules_defined resolved args base reason matchType b : base = Some b →
  ∃ r, sr_risk (apply_arg_rules resolved args (mkResult base reason matchType)) = Some r.
Proof. intros ->. unfold apply_arg_rules. repeat case_match; cbn; eauto. Qed.

Lemma expansion_lower program args b r0 res :
  sr_risk res = Some r0 → riskOrd r0 < riskOrd b → ∀ r,
  sr_risk (apply_expansion program args (Some b) res) = Some r → riskOrd r < riskOrd b →
  existsb (has_char "$") args = false.
Proof.
  intros Hr0 Hlt r. unfold apply_expansion. destruct (existsb _ _); [|done]. rewrite Hr0. unfold maxRisk_opt. cbn [ord_ge].
  rewrite (proj2 (Z.leb_gt _ _)) by done. cbn [fmap option_fmap option_map ord_gt].
  pose proof (escalate_ord b). rewrite (proj2 (Z.ltb_lt _ _)) by lia. cbn [sr_risk]. intros [= <-]. lia.
Qed.

Lemma expansion_mono program args base res r0 : sr_risk res = Some r0 → ∃ r,
  sr_risk (apply_expansion program args base res) = Some r ∧ riskOrd r0 ≤ riskOrd r.
Proof.
  intros Hr0. assert (Hsame : ∃ r, sr_risk res = Some r ∧ riskOrd r0 ≤ riskOrd r) by (exists r0; split; [done|lia]).
  unfold apply_expansion. destruct (existsb _ _); [|done]. rewrite Hr0.
  destruct (escalateOne <$> maxRisk_opt (Some r0) base) as [e|]; cbn [ord_gt]; [|done].
  destruct (Z.ltb_spec (riskOrd r0) (riskOrd e)); [|done]. exists e. cbn. split; [done|lia].
Qed.

Lemma rm_lower programName toolName args res r0 r : sr_risk res = Some r0 →
  sr_risk (apply_rm_downgrade programName toolName args res) = Some r →
  r = r0 ∨ lowered_rm programName toolName args.
Proof.
  intros Hr0. unfold apply_rm_downgrade. destruct (eqs programName "rm" && _ && _) eqn:Hc; [|rewrite Hr0; intros [= ->]; by left].
  apply andb_true_iff in Hc as [[Hp%bool_decide_eq_true Ht%bool_decide_eq_true]%andb_true_iff _].
  destruct (js_filter _ args) as [|file [|? ?]] eqn:Hf; try (rewrite Hr0; intros [= ->]; by left).
  destruct (forallb _ _ && _ && _) eqn:Hb; [|rewrite Hr0; intros [= ->]; by left]. intros _. right.
  apply andb_true_iff in Hb as [[Hb _]%andb_true_iff Hs%bool_decide_eq_true].
  apply list_elem_of_singleton in Hs as ->. split_and!; [done|done|done|].
  apply Forall_forall. intros f Hf'. rewrite forallb_forall in Hb. apply list_elem_of_In, Hb in Hf'.
  by apply bool_decide_eq_true in Hf'.
Qed.

(** The base risk of a command: the user's rule for it, or the registry's. *)
Definition base_risk (cache : option TrustRuleCache) (registry : Registry) (programName : string) (spec : CommandRiskSpec)
    (args : list string) (toolName : BashTool) : option Risk :=
  match cached_rule cache registry programName spec args toolName with
  | Some r => Some (tr_risk r : Risk)
  | None => resolved_baseRisk (resolveSubcommand spec args).1
  end.

Lemma plain_lower cache registry toolName program programName spec args b r :
  base_risk cache registry programName spec args toolName = Some b →
  sr_risk (classify_plain cache registry toolName program programName spec args) = Some r →
  riskOrd r < riskOrd b →
  lowered_by_rules (resolveSubcommand spec args).1 args ∨ lowered_rm programName toolName args.
Proof.
  unfold base_risk, classify_plain. destruct (resolveSubcommand spec args) as [resolved rest]. cbn [fst].
  set (rule := cached_rule _ _ _ _ _ _). intros Hb. rewrite Hb.
  set (reason := base_reason program resolved). set (mt := base_matchType rule).
  destruct (rules_defined resolved args (Some b) reason mt b eq_refl) as [r1 H1].
  destruct (expansion_mono program args (Some b) _ r1 H1) as (r2 & H2 & Hle).
  intros Hr Hlt. destruct (rm_lower programName toolName args _ r2 r H2 Hr) as [->|]; [left|by right].
  split.
  - apply existsb_false_Forall. eapply (expansion_lower program args b r1 _ H1); [lia|exact H2|done].
  - exact (rules_lower resolved args (Some b) reason mt r1 b eq_refl H1 ltac:(lia)).
Qed.

(** [classifySegment] without user patterns, its recursion unfolded once. *)
Lemma classify_spec cache segment registry toolName :
  classifySegment cache segment [] registry toolName =
  match find_spec registry (sg_program segment) with
  | None => mkResult (Some unknown) ("Unknown command: " +:+ sg_program segment) unknown_match
  | Some (programName, spec) =>
      let args := sg_args segment in
      if is_null (cs_subcommands spec) && negb (cs_isWrapper spec) && hasStandaloneHelpFlag args (cs_argSchema spec)
      then mkResult (Some low) (sg_program segment +:+ " help output") registry_match
      else if cs_isWrapper spec && negb (non_exec_mode spec args) then
        match getWrappedProgramWithArgs (sg_program segment) args with
        | Some (program, innerArgs) =>
            let inner := classifySegment cache
              (mkSegment (js_join " " (program :: innerArgs)) program innerArgs (sg_operator segment) false) [] registry toolName in
            mkResult (maxRisk_opt (Some (cs_baseRisk spec : Risk)) (sr_risk inner))
              (if truthy (sr_reason inner) then sr_reason inner else programName +:+ " wrapping " +:+ program)
              (sr_matchType inner)
        | None =>
            mkResult (Some (cs_baseRisk spec : Risk))
              (match cs_reason spec with Some re => if truthy re then re else programName | None => programName end)
              registry_match
        end
      else classify_plain cache registry toolName (sg_program segment) programName spec args
  end.
Proof.
  rewrite <- (classify_fuel cache (Datatypes.S (length (sg_args segment)))) by lia. cbn [classify_level js_find].
  destruct (find_spec _ _) as [[programName spec]|]; [|done]. cbv zeta.
  destruct (is_null _ && _ && _); [done|]. destruct (cs_isWrapper spec && _); [|done].
  destruct (getWrappedProgramWithArgs _ _) as [[p rest]|] eqn:Hw; [|done].
  apply wrapped_shorter in Hw. rewrite classify_fuel by (cbn; lia). done.
Qed.

(** ** Wrappers *)

(** The command a wrapper runs. *)
Definition unwraps (registry : Registry) (outer inner : CommandSegment) : Prop :=
  ∃ name spec program args,
    find_spec registry (sg_program outer) = Some (name, spec) ∧ cs_isWrapper spec = true
    ∧ non_exec_mode spec (sg_args outer) = false
    ∧ getWrappedProgramWithArgs (sg_program outer) (sg_args outer) = Some (program, args)
    ∧ inner = mkSegment (js_join " " (program :: args)) program args (sg_operator outer) false.

Lemma unwraps_risk cache registry toolName outer inner r : unwraps registry outer inner →
  sr_risk (classifySegment cache inner [] registry toolName) = Some r →
  ∃ r', sr_risk (classifySegment cache outer [] registry toolName) = Some r' ∧ riskOrd r ≤ riskOrd r'.
Proof.
  intros (name & spec & program & args & Hs & Hw & Hn & Hg & ->) Hr. rewrite (classify_spec cache outer), Hs. cbv zeta. rewrite Hw, Hn, Hg.
  cbn [negb]. rewrite andb_false_r. cbn [andb sr_risk]. rewrite Hr. unfold maxRisk_opt. cbn [ord_ge].
  destruct (Z.leb_spec (riskOrd r) (riskOrd (cs_baseRisk spec))); eauto with lia.
Qed.

(** However many wrappers (sudo, env, timeout, ...) stand in front of a command, its
    risk is not lower than that of the command. *)
Theorem wrappers_never_lower cache registry toolName outer inner r :
  rtc (unwraps registry) outer inner →
  sr_risk (classifySegment cache inner [] registry toolName) = Some r →
  ∃ r', sr_risk (classifySegment cache outer [] registry toolName) = Some r' ∧ riskOrd r ≤ riskOrd r'.
Proof.
  intros Hrtc Hr. induction Hrtc as [x|x y z Hxy _ IH]; [by eauto with lia|].
  destruct (IH Hr) as (r' & Hr' & Hle). destruct (unwraps_risk _ _ _ _ _ _ Hxy Hr') as (r'' & ? & ?). eauto with lia.
Qed.

(** C23. A result below the base risk, for a command that is not a wrapper, is a help
    request of a command without subcommands, or the one bare file that may be removed in
    the sandbox, or every argument is accounted for: no argument has a variable expansion,
    a pattern rule matches each positional, and a rule each plain argument. *)
Theorem lowering_accounts_for_arguments cache registry toolName segment programName spec b r :
  find_spec registry (sg_program segment) = Some (programName, spec) →
  cs_isWrapper spec = false →
  base_risk cache registry programName spec (sg_args segment) toolName = Some b →
  sr_risk (classifySegment cache segment [] registry toolName) = Some r →
  riskOrd r < riskOrd b →
  cs_subcommands spec = None ∧ hasStandaloneHelpFlag (sg_args segment) (cs_argSchema spec) = true
  ∨ lowered_by_rules (resolveSubcommand spec (sg_args segment)).1 (sg_args segment)
  ∨ lowered_rm programName toolName (sg_args segment).
Proof.
  intros Hspec Hw Hb. rewrite classify_spec, Hspec, Hw. cbn [negb andb]. rewrite andb_true_r.
  destruct (is_null (cs_subcommands spec) && hasStandaloneHelpFlag _ _) eqn:Hh.
  - apply andb_true_iff in Hh as [Hsub ?]. left. split; [by destruct (cs_subcommands spec)|done].
  - intros Hr Hlt. right. by eapply plain_lower.
Qed.

(** C22. The risk of a command is the highest of the risks of its segments, [high] if
    nothing could be read or a dangerous pattern was found, and at least [medium] with an
    opaque construct; only a blank command is [low] outright. *)
Theorem command_risk_is_maximum cache parse_command registry userRules command toolName :
  riskOrd (ra_riskLevel (classify_bash cache parse_command registry userRules command toolName))
  = if truthy (js_trim command)
    then Z.max (floor_ord (parse_command command))
           (max_ord ((λ s, opt_ord (sr_risk (classifySegment cache s userRules registry toolName)))
                     <$> pc_segments (parse_command command)))
    else 0.
Proof. unfold classify_bash. destruct (truthy (js_trim command)); cbn [negb ra_riskLevel]; [apply verdict_ord|done]. Qed.

(** The walk that collects the names of the subcommands for the user's rules, and
    the one that resolves the specification, visit the same subcommands. *)
Theorem subcommand_walks_agree spec args :
  follow spec (subcommand_chain (length args) spec args) = Some (resolveSubcommand spec args).1.
Proof. by apply chain_follow. Qed.

(** ** Instances *)

(** [BOOTSTRAP.md] may be removed at medium risk, although [rm] is high. *)
Lemma lowering_accounts_for_arguments_witness :
  let segment := mkSegment "rm -f BOOTSTRAP.md" "rm" ["-f"; "BOOTSTRAP.md"] op_none false in
  sr_risk (classifySegment (Some []) segment [] DEFAULT_COMMAND_REGISTRY tool_bash) = Some medium
  ∧ (cs_subcommands cmd_rm = None ∧ hasStandaloneHelpFlag (sg_args segment) (cs_argSchema cmd_rm) = true
     ∨ lowered_by_rules (resolveSubcommand cmd_rm (sg_args segment)).1 (sg_args segment)
     ∨ lowered_rm "rm" tool_bash (sg_args segment)).
Proof.
  split; [vm_compute; reflexivity|].
  apply (lowering_accounts_for_arguments (Some []) DEFAULT_COMMAND_REGISTRY tool_bash
           (mkSegment "rm -f BOOTSTRAP.md" "rm" ["-f"; "BOOTSTRAP.md"] op_none false) "rm" cmd_rm high medium);
    vm_compute; reflexivity.
Defined.

(** [env -i rm -rf /] is high as [rm -rf /] is. *)
Lemma wrappers_never_lower_witness :
  let inner := mkSegment "rm -rf /" "rm" ["-rf"; "/"] op_none false in
  let outer := mkSegment "env -i rm -rf /" "env" ["-i"; "rm"; "-rf"; "/"] op_none false in
  sr_risk (classifySegment (Some []) inner [] DEFAULT_COMMAND_REGISTRY tool_bash) = Some high
  ∧ ∃ r', sr_risk (classifySegment (Some []) outer [] DEFAULT_COMMAND_REGISTRY tool_bash) = Some r'
      ∧ riskOrd high ≤ riskOrd r'.
Proof.
  split; [vm_compute; reflexivity|].
  apply (wrappers_never_lower (Some []) DEFAULT_COMMAND_REGISTRY tool_bash _ (mkSegment "rm -rf /" "rm" ["-rf"; "/"] op_none false));
    [|vm_compute; reflexivity].
  apply rtc_once. exists "env", cmd_env, "rm", ["-rf"; "/"]. split_and!; vm_compute; reflexivity.
Defined.
