(* ===== verification/BashScopeProps.v ===== *)
(** * What the scope options match

    Compiled as a regular expression, the pattern of the exact option matches the text
    it was made from and nothing else. *)
From S2P Require Import Prelude JsText Regex NodePath RiskTypes CommandRegistry ArgParser TrustRules ShellParser BashRisk BashScope.

(** ** Escaped text as a pattern *)

Definition char_term (c : ascii) : Regex * bool := (re_char (char_is c), true).
Definition char_terms (s : string) : list (Regex * bool) := char_term <$> String.list_ascii_of_string s.

Lemma parse_escaped_char stack alts terms c s :
  Regex.parse stack alts terms (escapeRegex (String c s)) = Regex.parse stack alts (char_term c :: terms) (escapeRegex s).
Proof. cbn [escapeRegex]. generalize (escapeRegex s) as t. intros t. by destruct c as [[] [] [] [] [] [] [] []]. Qed.

Lemma parse_escaped_char_app stack alts terms c s rest :
  Regex.parse stack alts terms (escapeRegex (String c s) +:+ rest) = Regex.parse stack alts (char_term c :: terms) (escapeRegex s +:+ rest).
Proof.
  assert (H : ∀ t, escapeRegex (String c s) +:+ t
              = if bool_decide (c ∈ syntax_chars) then String backslash (String c (escapeRegex s +:+ t)) else String c (escapeRegex s +:+ t)).
  { intros t. cbn [escapeRegex]. by destruct (bool_decide _). }
  rewrite H. generalize (escapeRegex s +:+ rest) as t. intros t. by destruct c as [[] [] [] [] [] [] [] []].
Qed.

Lemma parse_escaped stack alts terms s rest :
  Regex.parse stack alts terms (escapeRegex s +:+ rest) = Regex.parse stack alts (rev (char_terms s) ++ terms) rest.
Proof.
  revert terms. induction s as [|c s IH]; intros terms; [done|]. rewrite parse_escaped_char_app, IH.
  unfold char_terms. cbn. by rewrite <- app_assoc.
Qed.

(** The terms of an alternative, in order. *)
Definition seq_in_order (l : list (Regex * bool)) : Regex := foldr (λ t r, re_seq t.1 r) re_empty l.

Lemma seq_of_rev l : seq_of (rev l) = seq_in_order l.
Proof.
  unfold seq_of, seq_in_order. induction l as [|t l IH]; [done|]. cbn [rev foldr]. by rewrite foldl_app, IH.
Qed.

Lemma compile_exact s :
  compile (exact_pattern s) = Some (re_seq re_start (seq_in_order (char_terms s ++ [(re_end, false)]))).
Proof.
  unfold compile, exact_pattern. change ("^" +:+ escapeRegex s +:+ "$") with (String "^" (escapeRegex s +:+ "$")).
  cbn [Regex.parse]. rewrite parse_escaped. cbn [Regex.parse alt_of foldl]. f_equal.
  pose proof (seq_of_rev ((re_start, false) :: char_terms s ++ [(re_end, false)])) as H. cbn [rev] in H.
  rewrite rev_app_distr in H. exact H.
Qed.

Lemma test_anchored r t : test (re_seq re_start r) t = run r (None, t) (λ _, true).
Proof.
  assert (Hlater : ∀ c s, test_from (re_seq re_start r) (Some c) s = false).
  { intros c s. revert c. induction s as [|d s IH]; intros c; [done|]. cbn [test_from run]. cbn. apply IH. }
  unfold test. destruct t as [|c t]; cbn [test_from run is_null fst andb]; [by rewrite orb_false_r|].
  by rewrite Hlater, orb_false_r.
Qed.

Lemma run_chars s p k :
  run (seq_in_order (char_terms s ++ [(re_end, false)])) (p, k) (λ _, true) = bool_decide (k = s).
Proof.
  revert p k. induction s as [|c s IH]; intros p k.
  - cbn. destruct k; [done|]. by rewrite bool_decide_false.
  - change (char_terms (String c s)) with (char_term c :: char_terms s). cbn [app seq_in_order foldr].
    destruct k as [|d k]; cbn; [by rewrite bool_decide_false|].
    change (foldr _ _ _) with (seq_in_order (char_terms s ++ [(re_end, false)])). rewrite IH. unfold char_is.
    repeat case_bool_decide; simplify_eq; done.
Qed.

Lemma exact_pattern_matches s : ∃ r, compile (exact_pattern s) = Some r ∧ ∀ t, test r t = true ↔ t = s.
Proof.
  eexists. split; [apply compile_exact|]. intros t. by rewrite test_anchored, run_chars, bool_decide_eq_true.
Qed.

(** ** The ladder *)

Lemma add_all_prefix new options : ∃ more, add_all new options = options ++ more.
Proof.
  revert options. induction new as [|pl new IH]; intros options; [exists []; by rewrite app_nil_r|].
  change (add_all (pl :: new) options) with (add_all new (addOption pl.1 pl.2 options)).
  destruct (IH (addOption pl.1 pl.2 options)) as [more ->]. unfold addOption.
  destruct (existsb _ options); [by exists more|]. eexists. by rewrite <- app_assoc.
Qed.

Lemma add_all_first pattern label new : ∃ more, add_all ((pattern, label) :: new) [] = mkScope pattern label :: more.
Proof. destruct (add_all_prefix new [mkScope pattern label]) as [more H]. exists more. exact H. Qed.

(** The text a command is offered as. *)
Definition exact_text (parsed : ParsedCommand) : string :=
  match pc_segments parsed with [seg] => sg_command seg | _ => pc_originalCommand parsed end.

Lemma generate_first registry parsed : pc_segments parsed ≠ [] →
  ∃ more, generateScopeOptions registry parsed = mkScope (exact_pattern (exact_text parsed)) (exact_text parsed) :: more.
Proof.
  unfold generateScopeOptions, exact_text, multi_options. destruct (pc_segments parsed) as [|seg [|seg' segs]]; [done| |].
  - intros _. cbv zeta. match goal with |- context [if ?b then _ else _] => destruct b end; [apply add_all_first|].
    destruct (flags_positionals _ _) as [flags positionals]. apply add_all_first.
  - intros _. apply add_all_first.
Qed.

Lemma add_all_patterns new options : NoDup (so_pattern <$> options) → NoDup (so_pattern <$> add_all new options).
Proof.
  revert options. induction new as [|[pattern label] new IH]; intros options H; [done|].
  change (add_all ((pattern, label) :: new) options) with (add_all new (addOption pattern label options)).
  apply IH. unfold addOption.
  destruct (existsb _ options) eqn:He; [done|]. rewrite fmap_app. apply NoDup_app. split_and!; [done| |by apply NoDup_singleton].
  intros p Hp Hq. cbn in Hq. apply list_elem_of_singleton in Hq as ->.
  apply list_elem_of_fmap in Hp as (o & Ho & Hin). apply not_true_iff_false in He. apply He.
  apply existsb_exists. exists o. split; [by apply list_elem_of_In|]. unfold eqs. by rewrite bool_decide_true.
Qed.

(** C21. Whatever the command, the first scope option compiles to a regular expression
    that matches the text of the command and no other text; no pattern is offered twice. *)
Theorem scope_exact_roundtrip registry parsed :
  match generateScopeOptions registry parsed with
  | [] => pc_segments parsed = []
  | o :: more =>
      so_label o = exact_text parsed
      ∧ (∃ r, compile (so_pattern o) = Some r ∧ ∀ t, test r t = true ↔ t = exact_text parsed)
      ∧ NoDup (so_pattern <$> o :: more)
  end.
Proof.
  destruct (decide (pc_segments parsed = [])) as [He|Hne]; [unfold generateScopeOptions; by rewrite He|].
  assert (Hnd : NoDup (so_pattern <$> generateScopeOptions registry parsed)).
  { unfold generateScopeOptions, multi_options. cbv zeta. repeat case_match; try apply add_all_patterns; constructor. }
  destruct (generate_first registry parsed Hne) as [more Hg]. rewrite Hg in *.
  split_and!; [done|apply exact_pattern_matches|done].
Qed.
