(* ===== verification/RegistryProps.v ===== *)
(** * The command registry is well formed

    What the classifier relies on in every specification of the registry, and of the
    assistant's own command line: its patterns are regular expressions of the subset
    of Regex.v, a rule has something to match, the subcommands have different names
    that an argument can be, and a wrapper, whose subcommands and rules would never be
    looked at while it runs a command, has no subcommands.

    The check descends the specifications ([spec_ok]); [sub_spec] is the relation
    between a specification and those below it, and [spec_ok_below] carries the one
    to the other. *)
From S2P Require Import Prelude JsText Regex RiskTypes CommandRegistry ArgParser TrustRules ShellParser BashRisk.

(** ** What is below a specification *)
Definition child (s : CommandRiskSpec) (name : string) (s' : CommandRiskSpec) : Prop :=
  ∃ subs, cs_subcommands s = Some subs ∧ jget name subs = Some s'.
Inductive sub_spec (s : CommandRiskSpec) : CommandRiskSpec → Prop :=
  | sub_here : sub_spec s s
  | sub_below m name s' : sub_spec s m → child m name s' → sub_spec s s'.

(** ** The check *)
Definition rule_ok (rule : ArgRule) : bool :=
  match rule_pattern rule with
  | Some p => negb (is_null (compile p))
  | None => has_flags rule
  end.

(** A first positional can be [name], and no inherited member has it. *)
Definition name_ok (name : string) : bool :=
  truthy name && negb (startsWith name "-") && negb (mem name object_prototype).
Definition level_ok (s : CommandRiskSpec) : bool :=
  forallb rule_ok (default [] (cs_argRules s))
  && match cs_subcommands s with
     | Some subs => negb (cs_isWrapper s) && forallb name_ok subs.*1 && distinct subs.*1
     | None => true
     end.

Fixpoint spec_ok (s : CommandRiskSpec) : bool :=
  level_ok s && match cs_subcommands s with Some subs => forallb (λ p, spec_ok p.2) subs | None => true end.

(** ** What the check gives *)
Lemma spec_ok_level s : spec_ok s = true → level_ok s = true.
Proof. destruct s. cbn [spec_ok]. by intros [? _]%andb_true_iff. Qed.

Lemma jget_In {A} (m : list (string * A)) k v : jget k m = Some v → In (k, v) m.
Proof.
  induction m as [|[k' v'] m IH]; [done|]. cbn. destruct (decide (k = k')) as [->|]; [|by intros H; right; apply IH].
  intros [= ->]. by left.
Qed.

Lemma spec_ok_child s name s' : spec_ok s = true → child s name s' → spec_ok s' = true.
Proof.
  intros H (subs & Hs & Hg). destruct s; cbn in *. subst. apply andb_true_iff in H as [_ H].
  rewrite forallb_forall in H. exact (H _ (jget_In _ _ _ Hg)).
Qed.

Lemma spec_ok_below s s' : spec_ok s = true → sub_spec s s' → spec_ok s' = true.
Proof. intros H. induction 1; eauto using spec_ok_child. Qed.

Lemma default_registry_ok : forallb (λ p, spec_ok p.2) DEFAULT_COMMAND_REGISTRY = true.
Proof. vm_compute. reflexivity. Qed.

(** The specification at the end of a path of subcommands. *)
Fixpoint spec_at (path : list string) (s : CommandRiskSpec) : option CommandRiskSpec :=
  match path with
  | [] => Some s
  | name :: path' => subs ← cs_subcommands s; s' ← jget name subs; spec_at path' s'
  end.

Lemma spec_at_sub path : ∀ s m s', sub_spec s m → spec_at path m = Some s' → sub_spec s s'.
Proof.
  induction path as [|name path IH]; intros s m s' Hm; [by intros [= <-]|].
  cbn. destruct (cs_subcommands m) as [subs|] eqn:Hs; [|done]. cbn. destruct (jget name subs) as [m'|] eqn:Hg; [|done].
  intros H. eapply IH; [|exact H]. eapply sub_below; [exact Hm|]. by exists subs.
Qed.

(** commands/assistant.ts loads: every path it overrides is there. *)
Lemma assistant_spec_loads : assistant_spec = Some cmd_assistant.
Proof. vm_compute. reflexivity. Qed.

(** C24. Every specification below a command of the registry is well typed for the
    classifier: each argument rule has flags or a pattern, and its pattern compiles;
    its subcommands have different names, none of them a flag or a member every object
    inherits; and a wrapper has no subcommands. *)
Theorem registry_patterns_compile name command s :
  jget name DEFAULT_COMMAND_REGISTRY = Some command → sub_spec command s →
  Forall (λ rule, match rule_pattern rule with Some p => ∃ r, compile p = Some r | None => rule_flags rule ≠ [] end)
    (default [] (cs_argRules s))
  ∧ match cs_subcommands s with
    | Some subs => NoDup subs.*1 ∧ cs_isWrapper s = false
        ∧ Forall (λ n, n ≠ "" ∧ startsWith n "-" = false ∧ n ∉ object_prototype) subs.*1
    | None => True
    end.
Proof.
  intros Hg Hsub. pose proof default_registry_ok as Hall. rewrite forallb_forall in Hall.
  pose proof (spec_ok_level s (spec_ok_below _ s (Hall _ (jget_In _ _ _ Hg)) Hsub)) as Hs. clear Hall.
  apply andb_true_iff in Hs as [Hr Hs]. split.
  - apply List.Forall_forall. intros rule Hin. rewrite forallb_forall in Hr. specialize (Hr rule Hin).
    unfold rule_ok in Hr. destruct (rule_pattern rule) as [p|].
    + destruct (compile p) as [r|]; [by exists r|done].
    + unfold has_flags in Hr. by destruct (rule_flags rule).
  - destruct (cs_subcommands s) as [subs|]; [|done].
    apply andb_true_iff in Hs as [[Hw Hn]%andb_true_iff Hd]. split; [by apply distinct_NoDup|]. split; [by apply negb_true_iff|].
    apply List.Forall_forall. intros n Hin. rewrite forallb_forall in Hn. specialize (Hn n Hin).
    apply andb_true_iff in Hn as [[Ht Hdash%negb_true_iff]%andb_true_iff Hp%negb_true_iff]. split; [by intros ->|]. split; [done|].
    unfold mem in Hp. by apply bool_decide_eq_false in Hp.
Qed.

(** [assistant oauth mode], whose rules commands/assistant.ts installs. *)
Example registry_patterns_compile_witness :
  match spec_at ["oauth"; "mode"] cmd_assistant with
  | Some s => ar_id <$> default [] (cs_argRules s) = ["assistant-oauth-mode:set"]
      ∧ Forall (λ rule, match rule_pattern rule with Some p => ∃ r, compile p = Some r | None => rule_flags rule ≠ [] end)
          (default [] (cs_argRules s))
  | None => False
  end.
Proof.
  destruct (spec_at ["oauth"; "mode"] cmd_assistant) as [s|] eqn:Hs; [|vm_compute in Hs; discriminate].
  split; [vm_compute in Hs; injection Hs as <-; reflexivity|].
  apply (registry_patterns_compile "assistant" cmd_assistant s); [vm_compute; reflexivity|].
  exact (spec_at_sub _ _ _ _ (sub_here _) Hs).
Defined.
