(* ===== verification/ToolRisk.v ===== *)
(** * The risk of file, web, schedule and skill tools

    src/gateway/src/risk/file-risk-classifier.ts, web-risk-classifier.ts,
    schedule-risk-classifier.ts and skill-risk-classifier.ts.  Each classifies by
    constants and paths, and then lets a rule of the user's own override the result. *)
From S2P Require Import Prelude JsText NodePath RiskTypes TrustRules ShellParser ShellIdentity.

(** The override of a tool's rule; [None] in [cache]: [getTrustRuleCache()] throws. *)
Definition user_override (cache : option TrustRuleCache) (tool pattern : string) : option TrustRule :=
  rules ← cache;
  r ← findToolOverride rules tool pattern;
  if isUserRule r then Some r else None.

Definition plain_assessment (risk : Risk) (reason : string) (allow : option (list AllowlistOption)) : RiskAssessment :=
  mkAssessment risk reason [] registry_match allow.
Definition override_or (o : option TrustRule) (allow : option (list AllowlistOption)) (a : RiskAssessment) : RiskAssessment :=
  match o with
  | Some r => mkAssessment (tr_risk r : Risk) (tr_description r) [] user_rule allow
  | None => a
  end.

(** ** Files *)

Record FileClassificationContext := mkFileContext {
  fc_protectedDir : string;
  fc_deprecatedDir : string;
  fc_hooksDir : string;
  fc_pluginsDir : string;
  fc_skillSourceDirs : list string;
}.

Inductive FileTool := file_read | file_write | file_edit | host_file_read | host_file_write | host_file_edit | host_file_transfer.
#[export] Instance FileTool_eq_dec : EqDecision FileTool.
Proof. solve_decision. Defined.
Definition file_tool_name (t : FileTool) : string :=
  match t with
  | file_read => "file_read" | file_write => "file_write" | file_edit => "file_edit"
  | host_file_read => "host_file_read" | host_file_write => "host_file_write" | host_file_edit => "host_file_edit"
  | host_file_transfer => "host_file_transfer"
  end.
Definition FILE_TOOL_DISPLAY_NAMES (t : FileTool) : string :=
  match t with
  | file_read => "file reads" | file_write => "file writes" | file_edit => "file edits"
  | host_file_read => "host file reads" | host_file_write => "host file writes" | host_file_edit => "host file edits"
  | host_file_transfer => "host file transfers"
  end.

Definition normalizeDirPath (dirPath : string) : string := if endsWith dirPath "/" then dirPath else dirPath +:+ "/".
Definition without_last (s : string) : string := str_take (String.length s - 1) s.
Definition under_dir (dir resolvedPath : string) : bool :=
  let d := normalizeDirPath dir in eqs resolvedPath (without_last d) || startsWith resolvedPath d.
Definition isHooksPath (resolvedPath : string) (c : FileClassificationContext) : bool := under_dir (fc_hooksDir c) resolvedPath.
Definition isPluginsPath (resolvedPath : string) (c : FileClassificationContext) : bool := under_dir (fc_pluginsDir c) resolvedPath.
Definition isSkillSourcePath (resolvedPath : string) (c : FileClassificationContext) : bool :=
  existsb (λ dir, startsWith resolvedPath (normalizeDirPath dir)) (fc_skillSourceDirs c).

(** [parts\[parts.length - 1\] || filePath] *)
Definition friendlyBasename (filePath : string) : string :=
  let l := last_piece filePath in if truthy l then l else filePath.

Section file.
Context {host : Host} (cache : option TrustRuleCache).

Definition isActorTokenSigningKeyPath (resolvedPath workingDir : string) (c : FileClassificationContext) : bool :=
  mem resolvedPath
    [path_join [homedir; ".vellum"; "protected"; "actor-token-signing-key"];
     path_join [fc_protectedDir c; "actor-token-signing-key"];
     path_join [fc_deprecatedDir c; "actor-token-signing-key"];
     resolve [workingDir; "deprecated"; "actor-token-signing-key"]].

(** The wildcards of at most [levels] directories above the file. *)
Fixpoint ancestor_options (toolName : string) (levels : nat) (dir : string) : list AllowlistOption :=
  match levels with
  | O => []
  | Datatypes.S levels' =>
      if negb (truthy dir) || eqs dir "/" || eqs dir "." then []
      else mkAllow (dir +:+ "/**") ("Anything in " +:+ friendlyBasename dir +:+ "/") (toolName +:+ ":" +:+ dir +:+ "/**")
           :: if eqs dir homedir || eqs (dirname dir) dir then [] else ancestor_options toolName levels' (dirname dir)
  end.
Definition buildFileAllowlistOptions (tool : FileTool) (filePath : string) : list AllowlistOption :=
  let toolName := file_tool_name tool in
  mkAllow filePath "This file only" (toolName +:+ ":" +:+ filePath)
  :: ancestor_options toolName 3 (dirname filePath)
  ++ [mkAllow (toolName +:+ ":*") ("All " +:+ FILE_TOOL_DISPLAY_NAMES tool) (toolName +:+ ":*")].

(** What a write to the path would reach. *)
Definition protected_target (resolvedPath : string) (c : FileClassificationContext) : option string :=
  if isSkillSourcePath resolvedPath c then Some "skill source code"
  else if isHooksPath resolvedPath c then Some "hooks directory"
  else if isPluginsPath resolvedPath c then Some "plugins directory"
  else None.

Definition write_assessment (verb what : string) (risk : Risk) (resolvedPath : option string)
    (c : FileClassificationContext) (allow : option (list AllowlistOption)) : RiskAssessment :=
  match resolvedPath ≫= λ p, protected_target p c with
  | Some target => plain_assessment high (verb +:+ " to " +:+ target) allow
  | None => plain_assessment risk (what +:+ " (default)") allow
  end.

Definition file_assessment (tool : FileTool) (filePath workingDir : string) (c : FileClassificationContext)
    (allow : option (list AllowlistOption)) : RiskAssessment :=
  let in_workspace := if truthy filePath then Some (resolve [workingDir; filePath]) else None in
  let on_host := if truthy filePath then Some (resolve [filePath]) else None in
  match tool with
  | file_read =>
      match in_workspace with
      | Some p => if isActorTokenSigningKeyPath p workingDir c then plain_assessment high "Reads actor token signing key" allow
                  else plain_assessment low "File read (default)" allow
      | None => plain_assessment low "File read (default)" allow
      end
  | file_write => write_assessment "Writes" "File write" low in_workspace c allow
  | file_edit => write_assessment "Writes" "File edit" low in_workspace c allow
  | host_file_read => plain_assessment medium "Host file read (default)" allow
  | host_file_write => write_assessment "Writes" "Host file write" medium on_host c allow
  | host_file_edit => write_assessment "Writes" "Host file edit" medium on_host c allow
  | host_file_transfer => write_assessment "Transfers" "Host file transfer" medium on_host c allow
  end.

Definition classify_file (tool : FileTool) (filePath workingDir : string) (c : FileClassificationContext) : RiskAssessment :=
  let allow := Some (if truthy filePath then buildFileAllowlistOptions tool filePath else []) in
  override_or (user_override cache (file_tool_name tool) filePath) allow (file_assessment tool filePath workingDir c allow).
End file.

(** ** Web *)
Inductive WebTool := web_fetch | network_request | web_search.
Definition web_tool_name (t : WebTool) : string :=
  match t with web_fetch => "web_fetch" | network_request => "network_request" | web_search => "web_search" end.

Definition classify_web (cache : option TrustRuleCache) (tool : WebTool) (url : option string) (allowPrivateNetwork : option bool) :
    RiskAssessment :=
  override_or (user_override cache (web_tool_name tool) (default "" url)) None
    match tool with
    | web_search => plain_assessment low "Web search (read-only)" None
    | web_fetch =>
        if default false allowPrivateNetwork then plain_assessment high "Private network fetch" None
        else plain_assessment low "Web fetch (default)" None
    | network_request => plain_assessment medium "Network request (proxied credentials)" None
    end.

(** ** Schedules *)
Inductive ScheduleTool := schedule_create | schedule_update.
Definition schedule_tool_name (t : ScheduleTool) : string :=
  match t with schedule_create => "schedule_create" | schedule_update => "schedule_update" end.
Definition SCRIPT_MODE_REASON : string :=
  "Schedule in script mode runs an arbitrary shell command on the host without going through the bash permission classifier".

Definition involvesScriptMode (mode script : option string) : bool :=
  eqos mode (Some "script") || match script with Some s => truthy (js_trim s) | None => false end.

Definition classify_schedule (cache : option TrustRuleCache) (tool : ScheduleTool) (mode script : option string) : RiskAssessment :=
  override_or (user_override cache (schedule_tool_name tool) (default "" (nullish mode script))) None
    (if involvesScriptMode mode script then plain_assessment high SCRIPT_MODE_REASON None
     else plain_assessment medium
       match tool with
       | schedule_create => "Schedule create (notify/execute)"
       | schedule_update => "Schedule update (notify/execute)"
       end None).

(** ** Skills *)
Record ResolvedSkillMetadata := mkSkillMetadata {
  sk_skillId : string;
  sk_selector : string;
  sk_versionHash : string;
  sk_transitiveHash : option string;
  sk_hasInlineExpansions : bool;
  sk_isDynamic : bool;
}.
Inductive SkillTool := skill_load | scaffold_managed_skill | delete_managed_skill.
Definition skill_tool_name (t : SkillTool) : string :=
  match t with
  | skill_load => "skill_load"
  | scaffold_managed_skill => "scaffold_managed_skill"
  | delete_managed_skill => "delete_managed_skill"
  end.

Definition skill_dynamic (m : ResolvedSkillMetadata) : bool := sk_isDynamic m && sk_hasInlineExpansions m.

Definition buildSkillLoadAllowlistOptions (rawSelector : option string) (metadata : option ResolvedSkillMetadata) :
    list AllowlistOption :=
  if negb (truthy_opt rawSelector) then [mkAllow "skill_load:*" "All skill loads" "skill_load:*"]
  else
    let sel := default "" rawSelector in
    let this_skill := [mkAllow sel "This skill" ("skill_load:" +:+ sel)] in
    match metadata with
    | None => this_skill
    | Some m =>
        if skill_dynamic m then
          (if truthy_opt (sk_transitiveHash m) then
             let pinned := sk_skillId m +:+ "@" +:+ default "" (sk_transitiveHash m) in
             [mkAllow pinned "This exact version (pinned)" ("skill_load_dynamic:" +:+ pinned)]
           else [])
          ++ [mkAllow (sk_skillId m) "This skill (any version)" ("skill_load_dynamic:" +:+ sk_skillId m)]
        else if truthy (sk_versionHash m) then
          let pinned := sk_skillId m +:+ "@" +:+ sk_versionHash m in
          [mkAllow pinned "This exact version" ("skill_load:" +:+ pinned)]
        else this_skill
    end.

Definition buildManagedSkillAllowlistOptions (toolName label : string) (skillId : option string) : list AllowlistOption :=
  (if truthy_opt skillId then
     let s := default "" skillId in [mkAllow s "This skill only" (toolName +:+ ":" +:+ s)] else [])
  ++ [mkAllow (toolName +:+ ":*") ("All managed skill " +:+ label +:+ "s") (toolName +:+ ":*")].

Definition skill_assessment (tool : SkillTool) (skillSelector : option string) (metadata : option ResolvedSkillMetadata) :
    RiskAssessment :=
  match tool with
  | skill_load =>
      let allow := Some (buildSkillLoadAllowlistOptions skillSelector metadata) in
      if match metadata with Some m => sk_hasInlineExpansions m | None => false end
      then plain_assessment medium "Skill load with inline command expansions (executes shell commands at load time)" allow
      else plain_assessment low "Skill load (default)" allow
  | scaffold_managed_skill =>
      plain_assessment high "Skill scaffold — writes persistent skill source code"
        (Some (buildManagedSkillAllowlistOptions "scaffold_managed_skill" "scaffold" skillSelector))
  | delete_managed_skill =>
      plain_assessment high "Skill delete — removes persistent skill source code"
        (Some (buildManagedSkillAllowlistOptions "delete_managed_skill" "delete" skillSelector))
  end.

(** The pinned version before any version. *)
Definition skill_candidates (skillSelector : option string) (metadata : option ResolvedSkillMetadata) : list string :=
  let skillId := match metadata with Some m => sk_skillId m | None => default "" skillSelector end in
  let pinnedHash := match metadata with
                    | Some m => if skill_dynamic m then sk_transitiveHash m else Some (sk_versionHash m)
                    | None => None
                    end in
  if truthy_opt pinnedHash then [skillId +:+ "@" +:+ default "" pinnedHash; skillId] else [skillId].
Definition override_tool (tool : SkillTool) (metadata : option ResolvedSkillMetadata) : string :=
  match metadata with
  | Some m => if skill_dynamic m then "skill_load_dynamic" else skill_tool_name tool
  | None => skill_tool_name tool
  end.

Fixpoint first_override (cache : option TrustRuleCache) (tool : string) (candidates : list string) : option TrustRule :=
  match candidates with
  | [] => None
  | c :: cs =>
      if negb (truthy c) then first_override cache tool cs
      else match user_override cache tool c with Some r => Some r | None => first_override cache tool cs end
  end.

Definition classify_skill (cache : option TrustRuleCache) (tool : SkillTool) (skillSelector : option string)
    (metadata : option ResolvedSkillMetadata) : RiskAssessment :=
  override_or (first_override cache (override_tool tool metadata) (skill_candidates skillSelector metadata)) None
    (skill_assessment tool skillSelector metadata).
