(* ===== verification/DirectoryScope.v ===== *)
(** * Directory scopes

    src/gateway/src/risk/directory-scope.ts and project-boundary.ts: the directories a
    rule about a file operation may be limited to, from the narrowest to everywhere.
    What exists on disk is the host's. *)
From S2P Require Import Prelude JsText NodePath RiskTypes ShellParser.

Definition PROJECT_MARKERS : list string := [".git"; "package.json"; "Cargo.toml"; "go.mod"; "pyproject.toml"; "Makefile"].

Section scope.
Context {host : Host}.

Definition has_marker (dir : string) : bool := existsb (λ marker, existsSync (dir +:+ "/" +:+ marker)) PROJECT_MARKERS.

(** The walk to the root; the outer [None]: out of fuel, which [boundary_walk_terminates]
    excludes. *)
Fixpoint boundary_walk (fuel : nat) (current previous : string) (stopAt : option string) : option (option string) :=
  match fuel with
  | O => None
  | Datatypes.S fuel' =>
      if eqs current previous then Some None
      else if has_marker current then Some (Some current)
      else if truthy_opt stopAt && eqos (Some current) stopAt then Some None
      else boundary_walk fuel' (dirname current) current stopAt
  end.
Definition boundary_fuel (startDir : string) : nat := String.length startDir + 3.
Definition findProjectBoundary (startDir : string) (stopAt : option string) : option string :=
  default None (boundary_walk (boundary_fuel startDir) startDir "" stopAt).

Definition isWithin (candidate root : string) : bool :=
  eqs candidate root || startsWith candidate (if endsWith root "/" then root else root +:+ "/").

(** [p.slice(2)] after ["~/"] *)
Definition resolvePath (path workingDir : string) : string :=
  if eqs path "~" then homedir
  else if startsWith path "~/" then resolve [homedir; str_drop 2 path]
  else if isAbsolute path then resolve [path]
  else resolve [workingDir; path].

(** The segments all the paths start with. *)
Fixpoint common2 (a b : list string) : list string :=
  match a, b with
  | x :: a', y :: b' => if bool_decide (x = y) then x :: common2 a' b' else []
  | _, _ => []
  end.
Fixpoint common_segments (l : list (list string)) : list string :=
  match l with
  | [] => []
  | [x] => x
  | x :: l' => common2 x (common_segments l')
  end.

Fixpoint dedup (l : list string) : list string :=
  match l with
  | [] => []
  | x :: l' => x :: js_filter (λ y, negb (eqs y x)) (dedup l')
  end.

Definition commonAncestor (paths : list string) : string :=
  match dedup paths with
  | [only] => if is_directory only then only else dirname only
  | unique =>
      let common := common_segments (js_split "/" <$> unique) in
      match common with
      | [] => "/"
      | [""] => "/"
      | _ => let joined := js_join "/" common in if eqs joined "" then "/" else joined
      end
  end.

(** [push]: a scope is offered once. *)
Definition push (option : DirectoryScopeOption) (options : list DirectoryScopeOption) : list DirectoryScopeOption :=
  if existsb (λ o, eqs (ds_scope o) (ds_scope option)) options then options else options ++ [option].

Definition dir_option (dir : string) : DirectoryScopeOption := mkDirScope (dir +:+ "/*") ("In " +:+ basename dir +:+ "/").

Definition scope_ancestor (pathArgs : list string) (workingDir : string) : string :=
  match pathArgs with [] => workingDir | _ => commonAncestor ((λ p, resolvePath p workingDir) <$> pathArgs) end.

(** The ancestor is the root, the home directory or above it, or outside the workspace. *)
Definition skipExact (ancestor : string) (workspaceRoot : option string) : bool :=
  eqs ancestor "/" || eqs ancestor homedir || isWithin homedir ancestor
  || match workspaceRoot with Some r => negb (isWithin ancestor r) | None => false end.

Definition generateDirectoryScopeOptions (pathArgs : list string) (workingDir : string) (workspaceRoot : option string) :
    list DirectoryScopeOption :=
  let ancestor := scope_ancestor pathArgs workingDir in
  let options := if skipExact ancestor workspaceRoot then [] else push (dir_option ancestor) [] in
  let options :=
    if match workspaceRoot with None => true | Some r => isWithin ancestor r end then
      match findProjectBoundary ancestor workspaceRoot with
      | Some boundary =>
          if negb (eqs boundary ancestor) && negb (eqos (Some boundary) workspaceRoot)
          then push (dir_option boundary) options else options
      | None => options
      end
    else options in
  push (mkDirScope "everywhere" "Everywhere") options.
End scope.
