(* ===== verification/RiskHandlers.v ===== *)
(** * Classification requests

    src/gateway/src/ipc/risk-classification-handlers.ts: [handleClassifyRisk], which the
    assistant calls before it runs a tool.  Parsed commands come from [cachedParse],
    which answers what the parser says (ShellIdentity.v). *)
From S2P Require Import Prelude JsText NodePath RiskTypes CommandRegistry ArgParser TrustRules ShellParser ShellIdentity BashRisk BashScope ToolRisk DirectoryScope.

Record FileContextParams := mkFileParams {
  fp_protectedDir : string;
  fp_deprecatedDir : string;
  fp_hooksDir : string;
  fp_pluginsDir : option string;
  fp_skillSourceDirs : list string;
}.

Record ClassifyRiskParams := mkParams {
  cp_tool : string;
  cp_command : option string;
  cp_url : option string;
  cp_path : option string;
  cp_skill : option string;
  cp_mode : option string;
  cp_script : option string;
  cp_workingDir : option string;
  cp_allowPrivateNetwork : option bool;
  cp_networkMode : option string;
  cp_isContainerized : option bool;
  cp_workspaceRoot : option string;
  cp_fileContext : option FileContextParams;
  cp_skillMetadata : option ResolvedSkillMetadata;
  cp_registryDefaultRisk : option string;
  cp_credentialRefCount : option Z;
}.

Record ClassificationResult := mkClassification {
  cr_risk : string;
  cr_reason : string;
  cr_scopeOptions : list ScopeOption;
  cr_allowlistOptions : option (list AllowlistOption);
  cr_actionKeys : option (list string);
  cr_commandCandidates : option (list string);
  cr_dangerousPatterns : option (list DangerousPattern);
  cr_opaqueConstructs : option bool;
  cr_isComplexSyntax : option bool;
  cr_sandboxAutoApprove : option bool;
  cr_directoryScopeOptions : option (list DirectoryScopeOption);
  cr_resolvedPaths : option (list string);
  cr_matchType : MatchType;
}.

Definition risk_name (r : Risk) : string :=
  match r with low => "low" | medium => "medium" | high => "high" | unknown => "unknown" end.

(** The result of a tool without shell commands. *)
Definition tool_result (a : RiskAssessment) (scopes : option (list DirectoryScopeOption)) (paths : option (list string)) :
    ClassificationResult :=
  mkClassification (risk_name (ra_riskLevel a)) (ra_reason a) (ra_scopeOptions a) (ra_allowlistOptions a)
    None None None None None None scopes paths (ra_matchType a).

Section handler.
Context {host : Host} (cache : option TrustRuleCache) (ts_parse : string → option Node) (registry : Registry).
Local Abbreviation parse_command := (ShellParser.parse ts_parse).

Definition lookupSpec (program : string) : option CommandRiskSpec := jget (last_piece program) registry.

(** [root.replace(/\/$/, '')] *)
Definition drop_slash (root : string) : string := if endsWith root "/" then without_last root else root.
Definition isPathWithinRoot (filePath root : string) : bool :=
  if negb (truthy filePath) || negb (truthy root) then false
  else
    let normalizedRoot := if endsWith root "/" then root else root +:+ "/" in
    let normalizedPath := resolve [filePath] in
    eqs normalizedPath (drop_slash root) || startsWith normalizedPath normalizedRoot.

(** ** Approval in the sandbox *)

Definition path_approved (workingDir workspaceRoot p : string) : bool :=
  if eqs p "~" || startsWith p "~/" then
    let expanded := if eqs p "~" then homedir else path_join [homedir; str_drop 2 p] in
    isPathWithinRoot expanded workspaceRoot
  else if startsWith p "~" then false
  else isPathWithinRoot (if startsWith p "/" then p else resolve [workingDir; p]) workspaceRoot.

Definition segment_approved (workingDir workspaceRoot : string) (isContainerized : bool) (seg : CommandSegment) : bool :=
  match lookupSpec (sg_program seg) with
  | None => false
  | Some spec =>
      cs_sandboxAutoApprove spec
      && (isContainerized
          || forallb (path_approved workingDir workspaceRoot)
               (pa_pathArgs (parseArgs (sg_args seg) (default empty_schema (cs_argSchema spec)))))
  end.

Definition computeSandboxAutoApprove (command workingDir workspaceRoot : string) (isContainerized : bool) : bool :=
  let parsed := parse_command command in
  negb (is_nil (pc_segments parsed)) && negb (pc_hasOpaqueConstructs parsed) && is_nil (pc_dangerousPatterns parsed)
  && forallb (segment_approved workingDir workspaceRoot isContainerized) (pc_segments parsed).

(** ** Paths a command works on *)

(** At most [MAX_WRAPPER_DEPTH] wrappers are taken off. *)
Definition MAX_WRAPPER_DEPTH : nat := 10.
Fixpoint unwrap (depth : nat) (program : string) (args : list string) : string * list string * option CommandRiskSpec :=
  let spec := lookupSpec program in
  match depth, spec with
  | Datatypes.S depth', Some s =>
      if cs_isWrapper s && negb (non_exec_mode s args) then
        match getWrappedProgramWithArgs program args with
        | Some (program', args') => unwrap depth' program' args'
        | None => (program, args, spec)
        end
      else (program, args, spec)
  | _, _ => (program, args, spec)
  end.

Definition expand_path (cwd p : string) : string :=
  if eqs p "~" then homedir
  else if startsWith p "~/" then path_join [homedir; str_drop 2 p]
  else if isAbsolute p then resolve [p]
  else resolve [cwd; p].

Record PathScan := mkScan { ps_complex : bool; ps_filesystemOp : bool; ps_paths : list string; ps_cwd : string }.

(** [Set.add] *)
Definition add_new (x : string) (l : list string) : list string := if mem x l then l else l ++ [x].

Definition advance_cwd (program : string) (args : list string) (cwd : string) : string :=
  if eqs program "cd" then
    match js_filter (λ a, negb (startsWith a "-")) args with
    | [target] => if eqs target "-" then cwd else expand_path cwd target
    | _ => cwd
    end
  else cwd.

Definition scan_segment (s : PathScan) (seg : CommandSegment) : PathScan :=
  let '(program, args, spec) := unwrap MAX_WRAPPER_DEPTH (sg_program seg) (sg_args seg) in
  let isComplex := match spec with Some sp => cs_complexSyntax sp | None => false end in
  let fsOp := match spec with Some sp => cs_filesystemOp sp | None => false end in
  let paths :=
    if fsOp then
      match pa_pathArgs (parseArgs args (default empty_schema (spec ≫= cs_argSchema))) with
      | [] => add_new (ps_cwd s) (ps_paths s)
      | ps => foldl (λ l p, add_new (expand_path (ps_cwd s) p) l) (ps_paths s) ps
      end
    else ps_paths s in
  mkScan (ps_complex s || isComplex) (ps_filesystemOp s || fsOp) paths (advance_cwd program args (ps_cwd s)).

Definition scan_segments (workingDir : string) (segments : list CommandSegment) : PathScan :=
  foldl scan_segment (mkScan false false [] workingDir) segments.

(** ** The handler *)

(** The cap and the floor of proxied sessions. *)
Definition proxied_risk (tool : BashTool) (params : ClassifyRiskParams) (a : RiskAssessment) : Risk * string :=
  if bool_decide (tool = tool_bash) && eqos (cp_networkMode params) (Some "proxied") then
    if 0 <? default 0 (cp_credentialRefCount params)
    then (high, "Proxied credential session — shell has access to injected credentials")
    else (if bool_decide (ra_riskLevel a = high) then medium else ra_riskLevel a, ra_reason a)
  else (ra_riskLevel a, ra_reason a).

Definition command_candidates (command : string) (r : ActionKeyResult) : list string :=
  let trimmed := js_trim command in
  let l := if truthy trimmed then [trimmed] else [] in
  let l := match kr_isSimpleAction r, kr_primarySegment r with
           | true, Some seg => if negb (eqs (sg_command seg) trimmed) then add_new (sg_command seg) l else l
           | _, _ => l
           end in
  foldl (λ l k, add_new (ak_key k) l) l (kr_keys r).

Definition handle_bash (tool : BashTool) (params : ClassifyRiskParams) : ClassificationResult :=
  let command := default "" (cp_command params) in
  let workingDir := default process_cwd (cp_workingDir params) in
  let assessment := classify_bash cache parse_command registry [] command tool in
  let parsed := parse_command command in
  let analysis := analyzeShellCommand parsed in
  let actionResult := deriveShellActionKeys analysis in
  let sandboxAutoApprove :=
    match tool with
    | tool_bash => computeSandboxAutoApprove command workingDir (default workingDir (cp_workspaceRoot params))
                     (default false (cp_isContainerized params))
    | tool_host_bash => false
    end in
  let scan := scan_segments workingDir (pc_segments parsed) in
  let '(risk, reason) := proxied_risk tool params assessment in
  mkClassification (risk_name risk) reason (ra_scopeOptions assessment) (ra_allowlistOptions assessment)
    (Some (ak_key <$> kr_keys actionResult)) (Some (command_candidates command actionResult))
    (Some (sa_dangerousPatterns analysis)) (Some (sa_hasOpaqueConstructs analysis)) (Some (ps_complex scan))
    (Some sandboxAutoApprove)
    (if ps_filesystemOp scan then Some (generateDirectoryScopeOptions (ps_paths scan) workingDir (cp_workspaceRoot params)) else None)
    (if ps_filesystemOp scan && negb (is_nil (ps_paths scan)) then Some (ps_paths scan) else None)
    (ra_matchType assessment).

Definition SENTINEL : string := "/__vellum_no_context__".
Definition file_context (f : option FileContextParams) : FileClassificationContext :=
  match f with
  | Some f => mkFileContext (fp_protectedDir f) (fp_deprecatedDir f) (fp_hooksDir f) (default SENTINEL (fp_pluginsDir f))
                (fp_skillSourceDirs f)
  | None => mkFileContext SENTINEL SENTINEL SENTINEL SENTINEL []
  end.

Definition handle_file (tool : FileTool) (params : ClassifyRiskParams) : ClassificationResult :=
  let filePath := default "" (cp_path params) in
  let workingDir := default process_cwd (cp_workingDir params) in
  let paths := if truthy filePath then [filePath] else [] in
  tool_result (classify_file cache tool filePath workingDir (file_context (cp_fileContext params)))
    (Some (generateDirectoryScopeOptions paths workingDir (cp_workspaceRoot params)))
    (if truthy filePath then Some [expand_path workingDir filePath] else None).

Definition handleClassifyRisk (params : ClassifyRiskParams) : ClassificationResult :=
  let tool := cp_tool params in
  let file t := handle_file t params in
  let web t := tool_result (classify_web cache t (cp_url params) (cp_allowPrivateNetwork params)) None None in
  let skill t := tool_result (classify_skill cache t (cp_skill params) (cp_skillMetadata params)) None None in
  let schedule t := tool_result (classify_schedule cache t (cp_mode params) (cp_script params)) None None in
  if eqs tool "bash" then handle_bash tool_bash params
  else if eqs tool "host_bash" then handle_bash tool_host_bash params
  else if eqs tool "file_read" then file file_read
  else if eqs tool "file_write" then file file_write
  else if eqs tool "file_edit" then file file_edit
  else if eqs tool "host_file_read" then file host_file_read
  else if eqs tool "host_file_write" then file host_file_write
  else if eqs tool "host_file_edit" then file host_file_edit
  else if eqs tool "host_file_transfer" then file host_file_transfer
  else if eqs tool "web_fetch" then web web_fetch
  else if eqs tool "network_request" then web network_request
  else if eqs tool "web_search" then web web_search
  else if eqs tool "skill_load" then skill skill_load
  else if eqs tool "scaffold_managed_skill" then skill scaffold_managed_skill
  else if eqs tool "delete_managed_skill" then skill delete_managed_skill
  else if eqs tool "schedule_create" then schedule schedule_create
  else if eqs tool "schedule_update" then schedule schedule_update
  else mkClassification (default "medium" (cp_registryDefaultRisk params)) ("Unknown tool: " +:+ tool) [] None
         None None None None None None None None unknown_match.
End handler.
