(* ===== verification/RiskDemo.v ===== *)
(** * Commands and a host for the examples

    The trees are what tree-sitter's grammar of bash makes of the commands. *)
From S2P Require Import Prelude JsText NodePath RiskTypes CommandRegistry TrustRules ShellParser BashRisk.

(** ** Trees *)
Definition leaf (type text : string) : Node := mkNode type true text 0 0 [].
Definition text_of (ns : list Node) : string := js_join " " (n_text <$> ns).
Definition command_tree (program : string) (args : list Node) : Node :=
  mkNode "command" true (text_of (leaf "word" program :: args)) 0 0
    (mkNode "command_name" true program 0 0 [leaf "word" program] :: args).
Definition program_tree (n : Node) : Node := mkNode "program" true (n_text n) 0 (String.length (n_text n)) [n].
Definition words (args : list string) : list Node := leaf "word" <$> args.
Definition the_tree (n : Node) : string → option Node := λ _, Some (program_tree n).

(** The risk of one command in the registry. *)
Definition segment_of (program : string) (args : list string) : CommandSegment :=
  mkSegment (js_join " " (program :: args)) program args op_none false.
Definition risk_of (program : string) (args : list string) : option Risk :=
  sr_risk (classifySegment (Some []) (segment_of program args) [] DEFAULT_COMMAND_REGISTRY tool_bash).

(** A host whose home is [/home/me]. *)
Definition demo_host : Host := {|
  homedir := "/home/me"; process_cwd := "/"; existsSync := λ _, false; is_directory := λ _, false |}.

(** A path that resolving leaves alone is canonical. *)
Lemma canonical_by_resolve (host : Host) p : resolve [p] = p → canonical p.
Proof. intros <-. apply resolve_canonical. Qed.
