(* ===== verification/RiskHandlersProps.v ===== *)
(** * What the classification of tools and paths guarantees
    At the end, where the classification falls short: what the model shows the code to do
    where its comments or its own rules say otherwise, on the commands of RiskDemo.v. *)
From S2P Require Import Prelude JsText NodePath RiskTypes CommandRegistry ArgParser TrustRules ShellParser ShellIdentity BashRisk BashScope ToolRisk DirectoryScope RiskHandlers RiskDemo.

(** ** Approval in the sandbox *)
Section sandbox.
Context {host : Host}.

Lemma drop_slash_path_of segs : Forall plain_segment segs → segs ≠ [] → drop_slash (path_of segs) = path_of segs.
Proof.
  intros H Hne. pose proof (as_prefix_path_of segs H) as Ha. unfold as_prefix in Ha. unfold drop_slash.
  destruct (endsWith (path_of segs) "/"); [|done]. destruct segs as [|s segs]; [done|]. exfalso.
  apply (f_equal String.length) in Ha. rewrite length_append in Ha. cbn in Ha. lia.
Qed.

(** The check is lexical containment. *)
Lemma isPathWithinRoot_inside p root : canonical root → isPathWithinRoot p root = true → inside root (resolve [p]).
Proof.
  intros Hroot. unfold isPathWithinRoot. destruct (negb _ || negb _); [done|].
  change (if endsWith root "/" then root else root +:+ "/") with (as_prefix root).
  intros [H%bool_decide_eq_true|H]%orb_true_iff; [|by apply startsWith_inside; [|apply resolve_canonical|]].
  destruct Hroot as (segs & -> & Hs). destruct (decide (segs = [])) as [->|Hne].
  - destruct (resolve_canonical [p]) as (qs & -> & Hq). by exists [], qs.
  - rewrite H, drop_slash_path_of by done. apply inside_refl. by exists segs.
Qed.

(** The file an argument names, read as a literal path. *)
Definition literal_target (workingDir p : string) : string :=
  if eqs p "~" then resolve [homedir]
  else if startsWith p "~/" then resolve [path_join [homedir; str_drop 2 p]]
  else if startsWith p "/" then resolve [p] else resolve [resolve [workingDir; p]].

Lemma path_approved_inside workingDir root p : canonical root → path_approved workingDir root p = true →
  inside root (literal_target workingDir p).
Proof.
  intros Hroot. unfold path_approved, literal_target. unfold eqs. case_bool_decide; cbn [orb].
  - by apply isPathWithinRoot_inside.
  - destruct (startsWith p "~/"); [by apply isPathWithinRoot_inside|]. destruct (startsWith p "~"); [done|].
    destruct (startsWith p "/"); by apply isPathWithinRoot_inside.
Qed.

(** C26. A command approved in a sandbox that is not a container has only commands the
    registry allows there, nothing opaque and no dangerous pattern, and each of the
    arguments that are paths, taken literally, is inside the workspace. *)
Theorem sandbox_paths_inside ts_parse registry command workingDir root :
  canonical root →
  computeSandboxAutoApprove ts_parse registry command workingDir root false = true →
  let parsed := ShellParser.parse ts_parse command in
  pc_segments parsed ≠ [] ∧ pc_dangerousPatterns parsed = [] ∧ pc_hasOpaqueConstructs parsed = false
  ∧ Forall (λ seg, ∃ spec, lookupSpec registry (sg_program seg) = Some spec ∧ cs_sandboxAutoApprove spec = true
      ∧ Forall (λ p, inside root (literal_target workingDir p))
          (pa_pathArgs (parseArgs (sg_args seg) (default empty_schema (cs_argSchema spec))))) (pc_segments parsed).
Proof.
  intros Hroot. unfold computeSandboxAutoApprove. cbv zeta.
  intros [[[Hs Ho]%andb_true_iff Hd]%andb_true_iff Hall]%andb_true_iff. split_and!.
  - by destruct (pc_segments _).
  - by destruct (pc_dangerousPatterns _).
  - by apply negb_true_iff.
  - apply Forall_forall. intros seg Hseg. rewrite forallb_forall in Hall. apply list_elem_of_In, Hall in Hseg.
    unfold segment_approved in Hseg. destruct (lookupSpec _ _) as [spec|]; [|done]. cbn [orb] in Hseg.
    apply andb_true_iff in Hseg as [Hsb Hp]. exists spec. split_and!; [done|done|]. apply Forall_forall. intros p Hp'.
    rewrite forallb_forall in Hp. apply path_approved_inside; [done|]. by apply Hp, list_elem_of_In.
Qed.
End sandbox.

(** ** Files *)
Section files.
Context {host : Host}.

Lemma normalize_as_prefix d : normalizeDirPath d = as_prefix d.
Proof. done. Qed.

Lemma under_dir_inside dir p : canonical dir → dir ≠ "/" → canonical p → under_dir dir p = true ↔ inside dir p.
Proof.
  intros (segs & -> & Hs) Hne Hp. assert (Hsegs : segs ≠ []) by (by intros ->).
  unfold under_dir. rewrite normalize_as_prefix, as_prefix_path_of by done. destruct segs as [|s segs]; [done|].
  assert (Hw : without_last (path_of (s :: segs) +:+ "/") = path_of (s :: segs)).
  { unfold without_last. rewrite length_append. change (String.length "/") with 1%nat. rewrite Nat.add_sub. apply str_take_app. }
  cbv zeta. rewrite Hw, orb_true_iff. unfold eqs. rewrite bool_decide_eq_true. split.
  - intros [->|H]; [apply inside_refl; by exists (s :: segs)|]. apply startsWith_inside; [by exists (s :: segs)|done|].
    by rewrite as_prefix_path_of.
  - intros [->|H]%inside_startsWith; [by left|right]. by rewrite as_prefix_path_of in H.
Qed.

(** Strictly inside. *)
Lemma prefix_strictly dir p : canonical dir → dir ≠ "/" → canonical p →
  startsWith p (normalizeDirPath dir) = true ↔ inside dir p ∧ p ≠ dir.
Proof.
  intros Hdir Hne Hp. rewrite normalize_as_prefix. split.
  - intros H. split; [by apply startsWith_inside|]. intros ->. apply startsWith_spec in H as [t Ht].
    destruct Hdir as (segs & -> & Hs). rewrite as_prefix_path_of in Ht by done. destruct segs as [|s segs]; [done|].
    apply (f_equal String.length) in Ht. rewrite !length_append in Ht. cbn in Ht. lia.
  - intros [[->|H]%inside_startsWith Hd]; done.
Qed.

(** The context of a request: directories by their canonical paths. *)
Definition context_ok (c : FileClassificationContext) : Prop :=
  Forall (λ d, canonical d ∧ d ≠ "/") (fc_hooksDir c :: fc_pluginsDir c :: fc_skillSourceDirs c).

(** Where code is loaded from. *)
Definition reaches_code (c : FileClassificationContext) (p : string) : Prop :=
  inside (fc_hooksDir c) p ∨ inside (fc_pluginsDir c) p ∨ ∃ d, d ∈ fc_skillSourceDirs c ∧ inside d p ∧ p ≠ d.

Lemma protected_target_spec c p : context_ok c → canonical p → is_Some (protected_target p c) ↔ reaches_code c p.
Proof.
  intros [[Hh1 Hh2] [[Hp1 Hp2] Hs]%Forall_cons]%Forall_cons Hp. unfold protected_target, reaches_code.
  pose proof (under_dir_inside _ p Hh1 Hh2 Hp) as Hh. pose proof (under_dir_inside _ p Hp1 Hp2 Hp) as Hpl.
  assert (Hsk : isSkillSourcePath p c = true ↔ ∃ d, d ∈ fc_skillSourceDirs c ∧ inside d p ∧ p ≠ d).
  { unfold isSkillSourcePath. rewrite existsb_exists. rewrite Forall_forall in Hs. split.
    - intros (d & Hd%list_elem_of_In & H). destruct (Hs d Hd). exists d. split; [done|]. by apply prefix_strictly.
    - intros (d & Hd & H). destruct (Hs d Hd). exists d. split; [by apply list_elem_of_In|]. by apply prefix_strictly. }
  unfold isHooksPath, isPluginsPath. destruct (isSkillSourcePath p c); [split; [|by eauto]; intros _; right; right; by apply Hsk|].
  destruct (under_dir (fc_hooksDir c) p); [split; [|by eauto]; intros _; left; by apply Hh|].
  destruct (under_dir (fc_pluginsDir c) p); [split; [|by eauto]; intros _; right; left; by apply Hpl|].
  split; [by intros [? ?]|]. intros [H|[H|H]]; [by apply Hh in H|by apply Hpl in H|by apply Hsk in H].
Qed.

(** The path a writing tool writes to. *)
Definition write_target (tool : FileTool) (workingDir filePath : string) : option string :=
  match tool with
  | file_write | file_edit => Some (resolve [workingDir; filePath])
  | host_file_write | host_file_edit | host_file_transfer => Some (resolve [filePath])
  | _ => None
  end.

Lemma write_assessment_high verb what risk p c allow : risk ≠ high → context_ok c → canonical p →
  ra_riskLevel (write_assessment verb what risk (Some p) c allow) = high ↔ reaches_code c p.
Proof.
  intros Hr Hc Hp. rewrite <- protected_target_spec by done. unfold write_assessment. cbn.
  destruct (protected_target p c); cbn; split; try done; naive_solver.
Qed.

(** A tool that writes a file is classified high exactly when the path it resolves to
    lies in the hooks directory, the plugins directory or below a directory of skill
    sources; unless a rule of the user's own says otherwise, which then decides. *)
Theorem file_writes_classified cache tool filePath workingDir c p :
  context_ok c → truthy filePath = true → write_target tool workingDir filePath = Some p →
  match user_override cache (file_tool_name tool) filePath with
  | Some rule => ra_riskLevel (classify_file cache tool filePath workingDir c) = tr_risk rule ∧ isUserRule rule = true
  | None => ra_riskLevel (classify_file cache tool filePath workingDir c) = high ↔ reaches_code c p
  end.
Proof.
  intros Hc Hf Hp. unfold classify_file. destruct (user_override cache _ _) as [rule|] eqn:Hu; cbn [override_or ra_riskLevel].
  - split; [done|]. unfold user_override in Hu. destruct cache as [rules|]; [|done]. cbn in Hu.
    destruct (findToolOverride _ _ _) as [r|]; [|done]. cbn in Hu. destruct (isUserRule r) eqn:Hr; [|done]. by injection Hu as <-.
  - unfold file_assessment. rewrite Hf.
    destruct tool; try done; injection Hp as <-; apply write_assessment_high; try done; apply resolve_canonical.
Qed.
End files.

(** ** Directory scopes *)
Section scopes.
Context {host : Host}.

Lemma boundary_fuel_enough fuel segs previous stopAt : Forall plain_segment segs → (length segs + 1 < fuel)%nat →
  ∃ r, boundary_walk fuel (path_of segs) previous stopAt = Some r
    ∧ ∀ b, r = Some b → inside b (path_of segs) ∧ has_marker b = true.
Proof.
  revert segs previous. induction fuel as [|fuel IH]; intros segs previous Hs Hf; [lia|]. cbn [boundary_walk].
  destruct (eqs (path_of segs) previous); [by exists None|].
  destruct (has_marker (path_of segs)) eqn:Hm.
  { eexists. split; [done|]. intros b [= <-]. split; [|done]. apply inside_refl. by exists segs. }
  destruct (truthy_opt stopAt && _); [by exists None|].
  destruct segs as [|x segs _] using rev_ind.
  - rewrite path_of_nil, dirname_root. destruct fuel as [|fuel]; [cbn in Hf; lia|]. cbn [boundary_walk].
    unfold eqs. rewrite bool_decide_true by done. by exists None.
  - rewrite dirname_path_of by done. rewrite length_app in Hf. cbn in Hf.
    apply Forall_app in Hs as Hs'. destruct Hs' as [Hs' _].
    destruct (IH segs (path_of (segs ++ [x])) Hs' ltac:(lia)) as (r & Hr & Hb). exists r. split; [done|].
    intros b H. destruct (Hb b H) as [Hin Hmk]. split; [|done]. eapply inside_trans; [exact Hin|]. exists segs, [x]. done.
Qed.

Lemma plain_length segs : Forall plain_segment segs → (length segs ≤ String.length (path_of segs))%nat.
Proof.
  intros H. unfold path_of. rewrite length_append. change (String.length "/") with 1%nat.
  induction H as [|s segs (Hne&_) Hs IH]; [cbn; lia|]. destruct s as [|c s]; [done|].
  destruct segs as [|s' segs]; [cbn; lia|]. rewrite js_join_cons by done. rewrite length_append. cbn [String.length length] in *. lia.
Qed.

(** The walk for the project's directory ends; what it returns holds a marker and
    contains the directory it started from. *)
Theorem boundary_walk_terminates startDir stopAt : canonical startDir →
  ∃ r, boundary_walk (boundary_fuel startDir) startDir "" stopAt = Some r
    ∧ findProjectBoundary startDir stopAt = r
    ∧ ∀ b, r = Some b → inside b startDir ∧ has_marker b = true.
Proof.
  intros (segs & -> & Hs). pose proof (plain_length segs Hs) as Hl.
  destruct (boundary_fuel_enough (boundary_fuel (path_of segs)) segs "" stopAt Hs) as (r & Hr & Hb); [unfold boundary_fuel; lia|].
  exists r. unfold findProjectBoundary. by rewrite Hr.
Qed.

(** ** The common ancestor *)

Lemma common2_prefix a b : (∃ more, a = common2 a b ++ more) ∧ (∃ more, b = common2 a b ++ more).
Proof.
  revert b. induction a as [|x a IH]; intros [|y b]; cbn; [by split; eexists..|].
  case_bool_decide as Hxy; [subst y|by split; eexists]. destruct (IH b) as [[m1 H1] [m2 H2]].
  split; [exists m1|exists m2]; cbn; by f_equal.
Qed.

Lemma common_prefix l x : x ∈ l → ∃ more, x = common_segments l ++ more.
Proof.
  induction l as [|y l IH]; [by intros ?%elem_of_nil|]. destruct l as [|z l].
  - intros ->%list_elem_of_singleton. exists []. cbn. by rewrite app_nil_r.
  - change (common_segments (y :: z :: l)) with (common2 y (common_segments (z :: l))).
    destruct (common2_prefix y (common_segments (z :: l))) as [[m1 H1] [m2 H2]].
    intros [->|Hx]%elem_of_cons; [by exists m1|]. destruct (IH Hx) as [m ->].
    exists (m2 ++ m). rewrite app_assoc. by rewrite <- H2.
Qed.

Lemma dedup_elem l x : x ∈ dedup l ↔ x ∈ l.
Proof.
  induction l as [|y l IH]; cbn; [done|]. rewrite !elem_of_cons. unfold js_filter.
  rewrite list_elem_of_In, filter_In, <- list_elem_of_In, IH. unfold eqs. rewrite negb_true_iff, bool_decide_eq_false. destruct (decide (x = y)); naive_solver.
Qed.

Lemma dedup_nodup l : NoDup (dedup l).
Proof.
  induction l as [|y l IH]; cbn; constructor.
  - unfold js_filter. rewrite list_elem_of_In, filter_In. unfold eqs. rewrite negb_true_iff, bool_decide_eq_false. tauto.
  - unfold js_filter. clear -IH. induction IH as [|x l' Hx _ IH]; cbn; [constructor|]. destruct (negb _); [|done].
    constructor; [|done]. rewrite list_elem_of_In, filter_In, <- list_elem_of_In. by intros [? _].
Qed.

(** The segments of a canonical path as [split] shows them. *)
Definition body (segs : list string) : list string := match segs with [] => [""] | _ => segs end.

Lemma split_canonical segs : Forall plain_segment segs → js_split "/" (path_of segs) = "" :: body segs.
Proof.
  intros H. destruct segs as [|s segs]; [done|]. unfold path_of.
  change ("/" +:+ js_join "/" (s :: segs)) with ("" +:+ String "/" (js_join "/" (s :: segs))).
  rewrite js_split_app_gen, split_path_of by done. done.
Qed.

Lemma common_inside u1 u2 us t : Forall canonical (u1 :: u2 :: us) → u1 ≠ u2 → t ∈ u1 :: u2 :: us →
  ∃ c, common_segments (js_split "/" <$> u1 :: u2 :: us) = "" :: c ∧ (c = [] ∨ canonical (path_of c) ∧ inside (path_of c) t).
Proof.
  intros Hc Hne Ht. assert (Hpre : ∀ x, x ∈ u1 :: u2 :: us → ∃ segs more, x = path_of segs ∧ Forall plain_segment segs
    ∧ "" :: body segs = common_segments (js_split "/" <$> u1 :: u2 :: us) ++ more).
  { intros x Hx. rewrite Forall_forall in Hc. destruct (Hc x Hx) as (segs & -> & Hs). exists segs.
    destruct (common_prefix (js_split "/" <$> u1 :: u2 :: us) (js_split "/" (path_of segs))) as [more Hm];
      [by apply list_elem_of_fmap_2|]. exists more. by rewrite <- split_canonical. }
  assert (Hhead : ∃ c, common_segments (js_split "/" <$> u1 :: u2 :: us) = "" :: c).
  { assert (Hall : ∀ l, l ≠ [] → Forall (λ y, ∃ b, y = "" :: b) l → ∃ c, common_segments l = "" :: c).
    { induction l as [|y [|z l] IH]; intros Hn Hy; [done|by apply Forall_inv in Hy as [b ->]; exists b|].
      apply Forall_cons in Hy as [[b ->] Hy]. destruct (IH ltac:(done) Hy) as [c Hcs].
      change (common_segments (("" :: b) :: z :: l)) with (common2 ("" :: b) (common_segments (z :: l))). rewrite Hcs.
      cbn. eauto. }
    apply Hall; [done|]. apply Forall_fmap, Forall_forall. intros x Hx. destruct (Hpre x Hx) as (segs & more & -> & Hs & _).
    cbn. rewrite split_canonical by done. eauto. }
  destruct Hhead as [c Hcs]. rewrite Hcs in *. exists c. split; [done|]. destruct c as [|c0 c]; [by left|right].
  assert (Hplain : Forall plain_segment (c0 :: c)).
  { destruct (Hpre u1) as (s1 & m1 & H1 & P1 & E1); [left|]. destruct (Hpre u2) as (s2 & m2 & H2 & P2 & E2); [right; left|].
    injection E1 as E1. injection E2 as E2. destruct s1 as [|x1 s1].
    - destruct s2 as [|x2 s2]; [congruence|]. cbn in E2. rewrite E2 in P2. apply (Forall_app _ (c0 :: c) m2) in P2. by destruct P2.
    - cbn in E1. rewrite E1 in P1. apply (Forall_app _ (c0 :: c) m1) in P1. by destruct P1. }
  split; [by exists (c0 :: c)|]. destruct (Hpre t Ht) as (s & m & -> & Hs & E). injection E as E.
  destruct s as [|x s].
  - exfalso. cbn in E. injection E as E _. apply Forall_cons in Hplain as [(Hx&_) _]. congruence.
  - cbn in E. exists (c0 :: c), m. rewrite E in *. done.
Qed.

Lemma commonAncestor_inside ts t : Forall canonical ts → t ∈ ts → canonical (commonAncestor ts) ∧ inside (commonAncestor ts) t.
Proof.
  intros Hc Ht. assert (Hd : Forall canonical (dedup ts)).
  { rewrite Forall_forall in Hc. apply Forall_forall. intros x Hx. apply Hc. by rewrite <- dedup_elem. }
  rewrite <- dedup_elem in Ht. pose proof (dedup_nodup ts) as Hnd. unfold commonAncestor.
  destruct (dedup ts) as [|u1 [|u2 us]]; [by apply elem_of_nil in Ht| |].
  - apply list_elem_of_singleton in Ht as ->. apply Forall_inv in Hd. destruct (is_directory u1).
    + split; [done|by apply inside_refl].
    + pose proof (dirname_inside u1 Hd) as Hin. split; [|done]. destruct Hin as (segs & more & -> & _ & H).
      exists segs. split; [done|]. by apply Forall_app in H as [? _].
  - assert (Hne : u1 ≠ u2) by (intros ->; apply NoDup_cons in Hnd as [Hx _]; apply Hx; left).
    destruct (common_inside u1 u2 us t Hd Hne Ht) as (c & Hcs & H). cbv zeta. rewrite Hcs.
    rewrite Forall_forall in Hd. destruct (Hd t Ht) as (segs & -> & Hs). destruct c as [|c0 c].
    + split; [by exists []|]. by exists [], segs.
    + destruct H as [|H]; [done|]. exact H.
Qed.

Lemma append_cancel a b c : a +:+ c = b +:+ c → a = b.
Proof.
  intros H. assert (Hl : String.length a = String.length b).
  { apply (f_equal String.length) in H. rewrite !length_append in H. lia. }
  rewrite <- (str_take_app a c), <- (str_take_app b c), H, Hl. done.
Qed.

(** What a rule about the command would have to cover. *)
Definition targets (pathArgs : list string) (workingDir : string) : list string :=
  match pathArgs with [] => [workingDir] | _ => (λ p, resolvePath p workingDir) <$> pathArgs end.

Lemma targets_canonical pathArgs workingDir : canonical homedir → canonical workingDir → Forall canonical (targets pathArgs workingDir).
Proof.
  intros Hh Hw. unfold targets. destruct pathArgs as [|p ps]; [by constructor|]. apply Forall_fmap, Forall_true.
  intros x. cbn. unfold resolvePath. repeat case_match; auto using resolve_canonical.
Qed.

Lemma scope_ancestor_inside pathArgs workingDir t : canonical homedir → canonical workingDir → t ∈ targets pathArgs workingDir →
  canonical (scope_ancestor pathArgs workingDir) ∧ inside (scope_ancestor pathArgs workingDir) t.
Proof.
  intros Hh Hw Ht. pose proof (targets_canonical pathArgs workingDir Hh Hw) as Hc. unfold scope_ancestor, targets in *.
  destruct pathArgs as [|p ps].
  - apply list_elem_of_singleton in Ht as ->. split; [done|by apply inside_refl].
  - by apply commonAncestor_inside.
Qed.

Definition everywhere : DirectoryScopeOption := mkDirScope "everywhere" "Everywhere".

Lemma dir_scope_neq d : canonical d → ds_scope (dir_option d) ≠ "everywhere".
Proof. by intros (segs & -> & _). Qed.

Lemma push_everywhere dirs : Forall canonical dirs → push everywhere (dir_option <$> dirs) = (dir_option <$> dirs) ++ [everywhere].
Proof.
  intros H. unfold push. assert (He : existsb (λ o, eqs (ds_scope o) (ds_scope everywhere)) (dir_option <$> dirs) = false); [|by rewrite He].
  apply not_true_iff_false. intros (o & Ho & Heq%bool_decide_eq_true)%existsb_exists.
  apply list_elem_of_In, list_elem_of_fmap in Ho as (d & -> & Hd). rewrite Forall_forall in H. by apply (dir_scope_neq d (H d Hd)).
Qed.

(** The directory scopes offered for a command end with everywhere; the ones before
    it are at most two different directories, each of which contains every file the
    command names, and the first is inside the second. *)
Theorem directory_ladder pathArgs workingDir workspaceRoot :
  canonical homedir → canonical workingDir →
  ∃ dirs, generateDirectoryScopeOptions pathArgs workingDir workspaceRoot = (dir_option <$> dirs) ++ [everywhere]
    ∧ NoDup dirs ∧ (length dirs ≤ 2)%nat
    ∧ Forall (λ d, ∀ t, t ∈ targets pathArgs workingDir → inside d t) dirs
    ∧ ∀ narrow broad, dirs = [narrow; broad] → inside broad narrow.
Proof.
  intros Hh Hw. unfold generateDirectoryScopeOptions. set (a := scope_ancestor pathArgs workingDir). cbv zeta.
  assert (Ha : canonical a ∧ ∀ t, t ∈ targets pathArgs workingDir → inside a t).
  { assert (Hne : ∃ t, t ∈ targets pathArgs workingDir) by (unfold targets; destruct pathArgs; eexists; left).
    destruct Hne as [t0 Ht0]. split; [by apply (scope_ancestor_inside pathArgs workingDir t0)|]. intros t Ht.
    by apply (scope_ancestor_inside pathArgs workingDir t). }
  destruct Ha as [Hca Hta]. destruct (boundary_walk_terminates a workspaceRoot Hca) as (r & _ & Hr & Hb). rewrite Hr.
  assert (Hexact : (if skipExact a workspaceRoot then [] else push (dir_option a) [])
    = dir_option <$> (if skipExact a workspaceRoot then [] else [a])) by (by destruct (skipExact a workspaceRoot)).
  rewrite Hexact. set (exact := if skipExact a workspaceRoot then [] else [a]).
  assert (Hex : exact = [] ∨ exact = [a]) by (unfold exact; destruct (skipExact _ _); auto). clearbody exact.
  assert (Hplain : ∃ dirs, push everywhere (dir_option <$> exact) = (dir_option <$> dirs) ++ [everywhere] ∧ NoDup dirs
    ∧ (length dirs ≤ 2)%nat ∧ Forall (λ d, ∀ t, t ∈ targets pathArgs workingDir → inside d t) dirs
    ∧ ∀ narrow broad, dirs = [narrow; broad] → inside broad narrow).
  { exists exact. destruct Hex as [-> | ->]; (split; [apply push_everywhere; by repeat constructor|]); split_and!; cbn; try lia; try done; try constructor.
    all: auto using NoDup_nil_2, not_elem_of_nil. }
  destruct (match workspaceRoot with None => true | Some _ => _ end); [|exact Hplain].
  destruct r as [b|]; [|exact Hplain]. destruct (negb _ && _) eqn:Hg; [|exact Hplain].
  apply andb_true_iff in Hg as [Hba%negb_true_iff%bool_decide_eq_false _]. destruct (Hb b eq_refl) as [Hin _].
  assert (Hcb : canonical b) by (destruct Hin as (segs & more & -> & _ & H); exists segs; split; [done|by apply Forall_app in H as [? _]]).
  assert (Hpush : push (dir_option b) (dir_option <$> exact) = dir_option <$> exact ++ [b]).
  { unfold push. destruct Hex as [-> | ->]; [done|]. cbn. unfold eqs. rewrite bool_decide_false; [done|].
    intros Heq%append_cancel. congruence. }
  rewrite Hpush. exists (exact ++ [b]).
  assert (Htb : ∀ t, t ∈ targets pathArgs workingDir → inside b t) by (intros t Ht; eapply inside_trans; [exact Hin|by apply Hta]).
  destruct Hex as [-> | ->]; (split; [apply push_everywhere; repeat constructor; done|]); split_and!; cbn; try lia.
  - apply NoDup_singleton.
  - by repeat constructor.
  - done.
  - apply NoDup_cons. split; [|apply NoDup_singleton]. intros ?%list_elem_of_singleton. congruence.
  - by repeat constructor.
  - by intros ?? [= <- <-].
Qed.
End scopes.

(** ** Instances *)
Local Existing Instance demo_host.

Definition rm_notes : Node := command_tree "rm" (words ["-r"; "notes"; "/work/old"]).

(** Witness of C26. *)
Lemma sandbox_paths_inside_witness :
  computeSandboxAutoApprove (the_tree rm_notes) DEFAULT_COMMAND_REGISTRY "rm -r notes /work/old" "/work" "/work" false = true
  ∧ let parsed := ShellParser.parse (the_tree rm_notes) "rm -r notes /work/old" in
    pc_segments parsed ≠ [] ∧ pc_dangerousPatterns parsed = [] ∧ pc_hasOpaqueConstructs parsed = false
    ∧ Forall (λ seg, ∃ spec, lookupSpec DEFAULT_COMMAND_REGISTRY (sg_program seg) = Some spec ∧ cs_sandboxAutoApprove spec = true
        ∧ Forall (λ p, inside "/work" (literal_target "/work" p))
            (pa_pathArgs (parseArgs (sg_args seg) (default empty_schema (cs_argSchema spec))))) (pc_segments parsed).
Proof.
  split; [vm_compute; reflexivity|].
  apply sandbox_paths_inside; [|vm_compute; reflexivity]. apply (canonical_by_resolve demo_host). vm_compute. reflexivity.
Defined.

(** A hook in the directory of hooks. *)
Definition demo_context : FileClassificationContext := mkFileContext "/v/protected" "/v/old" "/v/hooks" "/v/plugins" ["/v/skills"].

(** An instance. *)
Lemma file_writes_classified_witness :
  user_override (Some []) "file_write" "../v/hooks/pre.sh" = None
  ∧ match user_override (Some []) "file_write" "../v/hooks/pre.sh" with
    | Some rule => ra_riskLevel (classify_file (Some []) file_write "../v/hooks/pre.sh" "/work" demo_context) = tr_risk rule ∧ isUserRule rule = true
    | None => ra_riskLevel (classify_file (Some []) file_write "../v/hooks/pre.sh" "/work" demo_context) = high
        ↔ reaches_code demo_context "/v/hooks/pre.sh"
    end.
Proof.
  split; [vm_compute; reflexivity|].
  apply (file_writes_classified (Some []) file_write "../v/hooks/pre.sh" "/work" demo_context "/v/hooks/pre.sh");
    [|vm_compute; reflexivity..].
  repeat constructor; try (apply (canonical_by_resolve demo_host); vm_compute; reflexivity); discriminate.
Defined.

(** Witness of C1. *)
Lemma boundary_walk_terminates_witness :
  canonical "/work/a/b"
  ∧ ∃ r, boundary_walk (boundary_fuel "/work/a/b") "/work/a/b" "" (Some "/work") = Some r
    ∧ findProjectBoundary "/work/a/b" (Some "/work") = r
    ∧ ∀ b, r = Some b → inside b "/work/a/b" ∧ has_marker b = true.
Proof.
  assert (H : canonical "/work/a/b") by (apply (canonical_by_resolve demo_host); vm_compute; reflexivity).
  split; [exact H|]. exact (boundary_walk_terminates "/work/a/b" (Some "/work") H).
Defined.

(** An instance. *)
Lemma directory_ladder_witness :
  ds_scope <$> generateDirectoryScopeOptions ["a/x"; "a/y"] "/work" (Some "/work") = ["/work/a/*"; "everywhere"]
  ∧ ∃ dirs, generateDirectoryScopeOptions ["a/x"; "a/y"] "/work" (Some "/work") = (dir_option <$> dirs) ++ [everywhere]
    ∧ NoDup dirs ∧ (length dirs ≤ 2)%nat
    ∧ Forall (λ d, ∀ t, t ∈ targets ["a/x"; "a/y"] "/work" → inside d t) dirs
    ∧ ∀ narrow broad, dirs = [narrow; broad] → inside broad narrow.
Proof.
  split; [vm_compute; reflexivity|].
  apply directory_ladder; apply (canonical_by_resolve demo_host); vm_compute; reflexivity.
Defined.

From S2P Require Import Prelude JsText Regex NodePath RiskTypes CommandRegistry ArgParser TrustRules ShellParser ShellIdentity BashRisk BashScope ToolRisk DirectoryScope RiskHandlers ApprovalPolicy RiskDemo.

(** ** Substitutions among the arguments *)

(** The walk does not descend into a command: whatever it runs to make its arguments
    is not among the segments. *)
Lemma command_is_one_segment source n operator nested recovery :
  n_type n = "command" → (length (walkNode source n operator nested recovery) ≤ 1)%nat.
Proof.
  intros H. destruct n as [type named text a b cs]. cbn [n_type] in H. subst type.
  change (length (command_segment (mkNode "command" named text a b cs) operator (nested || recovery)) ≤ 1)%nat.
  unfold command_segment. destruct (command_words _); cbn; lia.
Qed.

Definition rm_home : Node := command_tree "rm" (words ["-rf"; "~"]).
Definition echo_rm : Node := command_tree "echo" [mkNode "command_substitution" true "`rm -rf ~`" 0 0 [rm_home]].

Example substitution_unclassified :
  risk_of "rm" ["-rf"; "~"] = Some high
  ∧ ra_riskLevel (classify_bash (Some []) (ShellParser.parse (the_tree echo_rm)) DEFAULT_COMMAND_REGISTRY []
      "echo `rm -rf ~`" tool_bash) = low
  ∧ (let _ := demo_host in computeSandboxAutoApprove (the_tree echo_rm) DEFAULT_COMMAND_REGISTRY "echo `rm -rf ~`" "/work" "/work" false) = true.
Proof. vm_compute. split_and!; reflexivity. Qed.

(** ** Approval in the sandbox reads arguments as paths *)

Definition rm_quoted : Node := command_tree "rm" [leaf "word" "-rf"; leaf "raw_string" "'/home/me'"].
Definition rm_plain : Node := command_tree "rm" (words ["-rf"; "/home/me"]).

Definition bash_request (command : string) : ClassifyRiskParams :=
  mkParams "bash" (Some command) None None None None None (Some "/work") None None (Some false) (Some "/work") None None None None.

(** What the assistant asks the policy, at its default threshold. *)
Definition policy_question (risk : ApprovalPolicy.RiskLevel) (sandboxAutoApprove : option bool) : ApprovalContext :=
  mkApprovalContext risk "bash" None false true None None None None sandboxAutoApprove None None.

(** The text of a quoted argument begins with its quote, so it is taken for a path
    relative to the working directory; the command is then allowed, at high risk. *)
Example quoted_path_approved :
  let _ := demo_host in
  let answer n := handleClassifyRisk (Some []) (the_tree n) DEFAULT_COMMAND_REGISTRY (bash_request (n_text n)) in
  n_text rm_quoted = "rm -rf '/home/me'"
  ∧ cr_risk (answer rm_quoted) = "high" ∧ cr_sandboxAutoApprove (answer rm_quoted) = Some true
  ∧ de_decision (evaluate (policy_question High (cr_sandboxAutoApprove (answer rm_quoted)))) = allow
  ∧ cr_sandboxAutoApprove (answer rm_plain) = Some false
  ∧ de_decision (evaluate (policy_question High (cr_sandboxAutoApprove (answer rm_plain)))) = prompt.
Proof. vm_compute. split_and!; reflexivity. Qed.

(** So is a path behind a variable, and what a redirection writes to is not looked at. *)
Definition rm_variable : Node :=
  command_tree "rm" [leaf "word" "-rf"; mkNode "concatenation" true "$HOME/x" 0 0 [leaf "simple_expansion" "$HOME"; leaf "word" "/x"]].
Definition echo_redirect : Node :=
  mkNode "redirected_statement" true "echo x > /home/me/.profile2" 0 0
    [command_tree "echo" (words ["x"]); mkNode "file_redirect" true "> /home/me/.profile2" 0 0 [mkNode ">" false ">" 0 0 []; leaf "word" "/home/me/.profile2"]].
Example unchecked_targets_approved :
  let _ := demo_host in
  let approved n := computeSandboxAutoApprove (the_tree n) DEFAULT_COMMAND_REGISTRY (n_text n) "/work" "/work" false in
  approved rm_variable = true ∧ approved echo_redirect = true ∧ approved rm_plain = false.
Proof. vm_compute. split_and!; reflexivity. Qed.

(** ** Names every object has *)

(** A subcommand named like a member of [Object.prototype] leaves the risk undefined,
    and the whole command low, whatever stands around it; [git foo] is medium. *)
Example inherited_subcommand_low :
  risk_of "git" ["foo"] = Some medium
  ∧ risk_of "git" ["-c"; "alias.valueOf=!sh"; "valueOf"] = None
  ∧ risk_of "sudo" ["git"; "toString"] = None ∧ risk_of "sudo" ["ls"] = Some high
  ∧ (let n := command_tree "sudo" (words ["git"; "toString"]) in
     ra_riskLevel (classify_bash (Some []) (ShellParser.parse (the_tree n)) DEFAULT_COMMAND_REGISTRY [] (n_text n) tool_bash) = low).
Proof. vm_compute. split_and!; reflexivity. Qed.

(** ** Patterns without an end *)

Example localhost_prefix :
  risk_of "curl" ["http://evil.com/x"] = Some medium ∧ risk_of "curl" ["http://localhost.evil.com/x"] = Some low.
Proof. vm_compute. split; reflexivity. Qed.

Example tmp_prefix : risk_of "rm" ["/etc/passwd"] = Some high ∧ risk_of "rm" ["/tmp/../etc/passwd"] = Some medium.
Proof. vm_compute. split; reflexivity. Qed.

(** ** Positions of subcommands and names of wrappers *)

(** The arguments behind a subcommand are found by its first occurrence, which may be
    the value of a flag before it. *)
Example subcommand_as_flag_value :
  risk_of "git" ["-C"; "dir"; "stash"; "drop"] = Some high ∧ risk_of "git" ["-C"; "stash"; "stash"; "drop"] = Some medium.
Proof. vm_compute. split; reflexivity. Qed.

(** The specification of [/usr/bin/timeout] is found by its last part, but its first
    argument is skipped only under the plain name. *)
Example wrapper_with_path :
  risk_of "timeout" ["5"; "rm"; "-rf"; "/"] = Some high
  ∧ risk_of "/usr/bin/timeout" ["5"; "rm"; "-rf"; "/"] = Some unknown.
Proof. vm_compute. split; reflexivity. Qed.
