(* ===== verification/SkillGraph.v ===== *)
(** * The include graph of skills

    src/assistant/src/skills/include-graph.ts: a skill may include others by their
    identifiers.  [validateIncludeGraph] walks the graph depth first, with the nodes on
    its way marked as being visited, and ends with the nodes in preorder, the first
    missing child or the first cycle.

    The walk is recursive on fuel; [walk_ok] shows that the number of skills is fuel
    enough. *)
From S2P Require Import Prelude.

(** [SkillSummary]: the fields that permissions read. *)
Record SkillSummary := mkSkill {
  ss_id : string;
  ss_name : string;
  ss_displayName : string;
  ss_directoryPath : string;
  ss_bundled : option bool;
  ss_includes : option (list string);
  ss_inlineCommandExpansions : option (list string);
}.

Definition indexCatalogById (catalog : list SkillSummary) : gmap string SkillSummary :=
  foldl (λ index skill, <[ss_id skill := skill]> index) ∅ catalog.

Inductive NodeState := node_visiting | node_done.
#[export] Instance NodeState_eq_dec : EqDecision NodeState.
Proof. solve_decision. Defined.

Record Walk := mkWalk {
  wk_visited : list string;
  wk_state : gmap string NodeState;   (* absent: unseen *)
  wk_ancestry : list string;
}.

Inductive IncludeError :=
  | include_missing (missingChildId parentId : string) (path : list string)
  | include_cycle (cyclePath : list string).

(** [l.indexOf(x)], at the start of the tail; [l.slice] from there. *)
Fixpoint from_first (x : string) (l : list string) : list string :=
  match l with
  | [] => []
  | y :: l' => if eqs y x then y :: l' else from_first x l'
  end.

Section graph.
Context (index : gmap string SkillSummary).

Definition includes_of (id : string) : list string := default [] (skill ← index !! id; ss_includes skill).

Definition getImmediateChildren (parentId : string) : list SkillSummary :=
  omap (λ childId, index !! childId) (includes_of parentId).

Definition enter_node (id : string) (w : Walk) : Walk :=
  mkWalk (wk_visited w ++ [id]) (<[id := node_visiting]> (wk_state w)) (wk_ancestry w ++ [id]).
Definition leave (id : string) (w : Walk) : Walk :=
  mkWalk (wk_visited w) (<[id := node_done]> (wk_state w)) (removelast (wk_ancestry w)).

(** The loop over the children of [id]; [visit] is the recursive call. *)
Fixpoint walk_children (failOnMissing : bool) (visit : string → Walk → option (IncludeError + Walk))
    (id : string) (children : list string) (w : Walk) : option (IncludeError + Walk) :=
  match children with
  | [] => Some (inr w)
  | childId :: rest =>
      match index !! childId with
      | None =>
          if failOnMissing then Some (inl (include_missing childId id (wk_ancestry w)))
          else walk_children failOnMissing visit id rest w
      | Some _ =>
          match visit childId w with
          | Some (inr w') => walk_children failOnMissing visit id rest w'
          | r => r
          end
      end
  end.

Fixpoint walk (failOnMissing : bool) (fuel : nat) (id : string) (w : Walk) : option (IncludeError + Walk) :=
  match fuel with
  | O => None
  | S fuel' =>
      match wk_state w !! id with
      | Some node_done => Some (inr w)
      | Some node_visiting => Some (inl (include_cycle (from_first id (wk_ancestry w) ++ [id])))
      | None =>
          match walk_children failOnMissing (walk failOnMissing fuel') id (includes_of id) (enter_node id w) with
          | Some (inr w') => Some (inr (leave id w'))
          | r => r
          end
      end
  end.

Definition graph_fuel : nat := S (S (size index)).

(** [ok: true] with the nodes visited, or the error; [None]: out of fuel. *)
Definition validateIncludeGraph (rootId : string) (failOnMissing : bool) : option (IncludeError + list string) :=
  r ← walk failOnMissing graph_fuel rootId (mkWalk [] ∅ []);
  Some (match r with inl e => inl e | inr w => inr (wk_visited w) end).
Definition validateIncludes (rootId : string) := validateIncludeGraph rootId true.
Definition validateIncludeCycles (rootId : string) := validateIncludeGraph rootId false.

(** The walk that ignores cycles and missing children.  [seen] has the elements of
    [visited]. *)
Fixpoint traverse_children (visit : string → list string → option (list string)) (children visited : list string) :
    option (list string) :=
  match children with
  | [] => Some visited
  | childId :: rest =>
      if bool_decide (childId ∈ visited) || is_null (index !! childId) then traverse_children visit rest visited
      else visited' ← visit childId visited; traverse_children visit rest visited'
  end.
Fixpoint traverse (fuel : nat) (id : string) (visited : list string) : option (list string) :=
  match fuel with
  | O => None
  | S fuel' =>
      if bool_decide (id ∈ visited) then Some visited
      else traverse_children (traverse fuel') (includes_of id) (visited ++ [id])
  end.
Definition traverseIncludes (rootId : string) : option (list string) := traverse graph_fuel rootId [].

(** ** What the walk is to find *)

(** [b] is among the includes of [a]. *)
Definition includes (a b : string) : Prop := b ∈ includes_of a.
(** ... and one the walk follows. *)
Definition follows (a b : string) : Prop := includes a b ∧ is_Some (index !! b).

(** A way along the graph. *)
Fixpoint way (l : list string) : Prop :=
  match l with
  | a :: ((b :: _) as l') => follows a b ∧ way l'
  | _ => True
  end.

Definition reaches (a b : string) : Prop := rtc follows a b.

Definition missing_error (rootId child parent : string) (path : list string) : Prop :=
  head path = Some rootId ∧ last path = Some parent ∧ way path ∧ includes parent child ∧ index !! child = None.
Definition cycle_error (rootId : string) (path : list string) : Prop :=
  ∃ a l, path = a :: l ++ [a] ∧ way path ∧ reaches rootId a.

Definition error_ok (failOnMissing : bool) (rootId : string) (e : IncludeError) : Prop :=
  match e with
  | include_missing child parent path => failOnMissing = true ∧ missing_error rootId child parent path
  | include_cycle path => cycle_error rootId path
  end.

(** ** The invariant *)

Record walk_inv (failOnMissing : bool) (rootId : string) (w : Walk) : Prop := {
  wi_visited : ∀ x, x ∈ wk_visited w ↔ is_Some (wk_state w !! x);
  wi_nodup : NoDup (wk_visited w);
  wi_ancestry : ∀ x, x ∈ wk_ancestry w ↔ wk_state w !! x = Some node_visiting;
  wi_path : NoDup (wk_ancestry w);
  wi_way : way (wk_ancestry w);
  wi_head : ∀ x, head (wk_ancestry w) = Some x → x = rootId;
  wi_reached : ∀ x, is_Some (wk_state w !! x) → reaches rootId x;
  wi_known : ∀ x, is_Some (wk_state w !! x) → x = rootId ∨ is_Some (index !! x);
  wi_closed : ∀ x y, wk_state w !! x = Some node_done → follows x y → wk_state w !! y = Some node_done;
  wi_acyclic : ∀ x, wk_state w !! x = Some node_done → ¬ tc follows x x;
  wi_missing : failOnMissing = true → ∀ x y, wk_state w !! x = Some node_done → includes x y → is_Some (index !! y);
}.

(** Nodes keep their marks, and those on the way are those that were. *)
Definition extends (w w' : Walk) : Prop :=
  wk_state w ⊆ wk_state w' ∧ wk_ancestry w' = wk_ancestry w.

Definition universe (rootId : string) : gset string := {[rootId]} ∪ dom index.
Definition unseen (rootId : string) (w : Walk) : nat := size (universe rootId ∖ dom (wk_state w)).

Lemma way_snoc l a b : last l = Some a → way l → follows a b → way (l ++ [b]).
Proof.
  induction l as [|x l IH]; [done|]. destruct l as [|y l]; cbn.
  - by intros [= ->].
  - intros Hl [Hxy Hw] Hab. split; [done|]. by apply IH.
Qed.

Lemma from_first_suffix x l : x ∈ l → ∃ l1 l2, l = l1 ++ x :: l2 ∧ from_first x l = x :: l2.
Proof.
  induction l as [|y l IH]; intros Hx; [set_solver|]. cbn. unfold eqs. case_bool_decide as E.
  - subst y. by exists [], l.
  - destruct IH as (l1 & l2 & -> & ->); [set_solver|]. by exists (y :: l1), l2.
Qed.

Lemma way_app_r l1 l2 : way (l1 ++ l2) → way l2.
Proof.
  induction l1 as [|x l1 IH]; [done|]. cbn. destruct (l1 ++ l2) eqn:E; [|by intros [_ ?]; apply IH].
  by apply app_eq_nil in E as [-> ->].
Qed.

Lemma tc_closed (P : string → Prop) x y :
  (∀ a b, P a → follows a b → P b) → P x → tc follows x y → P y.
Proof. intros HP Hx Ht. induction Ht; [by eapply HP|]. by apply IHHt, (HP x). Qed.

Lemma extends_refl w : extends w w.
Proof. done. Qed.
Lemma extends_trans w1 w2 w3 : extends w1 w2 → extends w2 w3 → extends w1 w3.
Proof. intros [H1 H2] [H3 H4]. split; [by etrans|congruence]. Qed.
Lemma extends_unseen r w w' : extends w w' → (unseen r w' ≤ unseen r w)%nat.
Proof. intros [H%subseteq_dom _]. apply subseteq_size. set_solver. Qed.

(** ** One node *)

(** Where the walk is when it comes to [id]. *)
Definition arrived (rootId : string) (w : Walk) (id : string) : Prop :=
  (id = rootId ∧ wk_ancestry w = []) ∨ ∃ a, last (wk_ancestry w) = Some a ∧ follows a id.

Lemma arrived_reached fm r w id : walk_inv fm r w → arrived r w id → reaches r id ∧ (id = r ∨ is_Some (index !! id)).
Proof.
  intros Hw [[-> _]|(a & Ha & Hf)]; [by split; [constructor|left]|].
  split; [|right; by destruct Hf]. eapply rtc_r; [|exact Hf]. apply (wi_reached _ _ _ Hw).
  apply last_Some_elem_of, (wi_ancestry _ _ _ Hw) in Ha. by rewrite Ha.
Qed.

Lemma enter_node_inv fm r w id :
  walk_inv fm r w → wk_state w !! id = None → arrived r w id → walk_inv fm r (enter_node id w).
Proof.
  intros Hw Hid Harr. destruct (arrived_reached _ _ _ _ Hw Harr) as [Hreach Hknown]. pose proof Hw as [? ? ? ? ? ? ? ? ? ? ?].
  assert (Hdone : ∀ x, <[id := node_visiting]> (wk_state w) !! x = Some node_done → wk_state w !! x = Some node_done).
  { intros x. rewrite lookup_insert_Some. naive_solver. }
  split; cbn.
  - intros x. rewrite elem_of_app, list_elem_of_singleton, wi_visited0, lookup_insert_is_Some. destruct (decide (id = x)); naive_solver.
  - apply NoDup_app. split_and!; [done| |apply NoDup_singleton]. intros x Hx%wi_visited0 ->%list_elem_of_singleton.
    rewrite Hid in Hx. by destruct Hx.
  - intros x. rewrite elem_of_app, list_elem_of_singleton, wi_ancestry0, lookup_insert_Some.
    destruct (decide (id = x)) as [<-|]; naive_solver.
  - apply NoDup_app. split_and!; [done| |apply NoDup_singleton]. intros x Hx%wi_ancestry0 ->%list_elem_of_singleton. congruence.
  - destruct Harr as [[-> ->]|(a & Ha & Hf)]; [done|by eapply way_snoc].
  - intros x. destruct Harr as [[-> ->]|(a & Ha & Hf)]; cbn; [by intros [= ->]|].
    destruct (wk_ancestry w) as [|y l]; [done|]. intros Hx. by apply wi_head0.
  - intros x [<-|[_ Hx]]%lookup_insert_is_Some; [done|by apply wi_reached0].
  - intros x [<-|[_ Hx]]%lookup_insert_is_Some; [done|by apply wi_known0].
  - intros x y Hx%Hdone Hf. rewrite lookup_insert_ne; [by eapply wi_closed0|]. intros <-. by rewrite (wi_closed0 x id) in Hid.
  - intros x Hx%Hdone. by apply wi_acyclic0.
  - intros Hfm x y Hx%Hdone. by apply wi_missing0.
Qed.

Lemma enter_unseen fm r w id :
  walk_inv fm r w → wk_state w !! id = None → arrived r w id → (unseen r (enter_node id w) < unseen r w)%nat.
Proof.
  intros Hw Hid Harr. apply subset_size. cbn. rewrite dom_insert_L.
  assert (id ∈ universe r) by (destruct (arrived_reached _ _ _ _ Hw Harr) as [_ [->|Hi%elem_of_dom]]; unfold universe; set_solver).
  apply not_elem_of_dom in Hid. set_solver.
Qed.

Lemma way_app_l l1 l2 : way (l1 ++ l2) → way l1.
Proof.
  induction l1 as [|x l1 IH]; [done|]. destruct l1 as [|y l1]; [done|]. cbn in *. intros [Hf Hw]. split; [done|by apply IH].
Qed.

Lemma leave_inv fm r w id l :
  walk_inv fm r w → wk_ancestry w = l ++ [id] →
  (∀ c, includes id c → (is_Some (index !! c) → wk_state w !! c = Some node_done) ∧ (fm = true → is_Some (index !! c))) →
  walk_inv fm r (leave id w).
Proof.
  intros Hw Hl Hc. pose proof Hw as [? ? ? Hpath ? ? ? ? Hclosed Hacyclic ?].
  assert (Hid : wk_state w !! id = Some node_visiting) by (apply (wi_ancestry _ _ _ Hw); rewrite Hl; set_solver).
  assert (Hsome : ∀ x, is_Some (<[id := node_done]> (wk_state w) !! x) ↔ is_Some (wk_state w !! x)).
  { intros x. rewrite lookup_insert_is_Some. destruct (decide (id = x)) as [<-|]; rewrite ?Hid; naive_solver. }
  assert (Hclosed' : ∀ x y, wk_state w !! x = Some node_done → follows x y → wk_state w !! y = Some node_done) by done.
  rewrite Hl in Hpath. apply NoDup_app in Hpath as (Hnd & Hnot & _).
  split; cbn; rewrite ?Hl, ?removelast_last.
  - intros x. rewrite Hsome. apply wi_visited0.
  - done.
  - intros x. rewrite lookup_insert_Some. specialize (wi_ancestry0 x). rewrite Hl, elem_of_app, list_elem_of_singleton in wi_ancestry0.
    split; [intros Hx; right; split; [intros <-; by eapply Hnot, list_elem_of_singleton|naive_solver]|].
    intros [[_ ?]|[? ?]]; [done|naive_solver].
  - done.
  - eapply way_app_l. by rewrite <- Hl.
  - intros x Hx. apply wi_head0. rewrite Hl. by destruct l.
  - intros x Hx%Hsome. by apply wi_reached0.
  - intros x Hx%Hsome. by apply wi_known0.
  - intros x y Hx Hf. destruct (decide (y = id)) as [->|Hne]; [by rewrite lookup_insert_eq|]. rewrite lookup_insert_ne by done.
    apply lookup_insert_Some in Hx as [[<- _]|[_ Hx]]; [|by eapply Hclosed]. destruct Hf as [Hi Hs]. by apply Hc.
  - intros x Hx. apply lookup_insert_Some in Hx as [[<- _]|[_ Hx]]; [|by apply Hacyclic]. intros Ht.
    assert (∀ y, follows id y → wk_state w !! y = Some node_done) as Hy by (intros y [Hi Hs]; by apply Hc).
    enough (wk_state w !! id = Some node_done) by congruence.
    inversion Ht as [? ? Hf|? y ? Hf Ht']; subst; [by apply Hy|].
    by apply (tc_closed (λ x, wk_state w !! x = Some node_done) y); [|apply Hy|].
  - intros Hfm x y Hx Hi. apply lookup_insert_Some in Hx as [[<- _]|[_ Hx]]; [by apply Hc|by eapply wi_missing0].
Qed.

(** ** The walk *)

(** What a visit of [id] comes to. *)
Definition visited_ok (fm : bool) (r : string) (w : Walk) (id : string) (o : IncludeError + Walk) : Prop :=
  match o with
  | inl e => error_ok fm r e
  | inr w' => walk_inv fm r w' ∧ extends w w' ∧ wk_state w' !! id = Some node_done
  end.

Lemma revisit_error fm r w id :
  walk_inv fm r w → arrived r w id → wk_state w !! id = Some node_visiting → cycle_error r (from_first id (wk_ancestry w) ++ [id]).
Proof.
  intros Hw Harr Hid. assert (Hin : id ∈ wk_ancestry w) by by apply (wi_ancestry _ _ _ Hw).
  assert (way (wk_ancestry w ++ [id])) as Hway.
  { destruct Harr as [[_ E]|(a & Ha & Hf)]; [rewrite E in Hin; set_solver|]. by eapply way_snoc, Hf; [|apply (wi_way _ _ _ Hw)]. }
  destruct (from_first_suffix _ _ Hin) as (l1 & l2 & E & ->). exists id, l2. split_and!; [done| |by apply (wi_reached _ _ _ Hw); rewrite Hid].
  rewrite E, <- app_assoc in Hway. by apply way_app_r in Hway.
Qed.

Lemma child_missing_error fm r w id l c :
  walk_inv fm r w → wk_ancestry w = l ++ [id] → includes id c → index !! c = None → missing_error r c id (wk_ancestry w).
Proof.
  intros Hw Hl Hi Hc. split_and!; [|by rewrite Hl, last_snoc|apply (wi_way _ _ _ Hw)|done|done].
  destruct (wk_ancestry w) as [|x l'] eqn:E; [by destruct l|]. cbn. f_equal. apply (wi_head _ _ _ Hw). by rewrite E.
Qed.

Lemma walk_children_ok fm r fuel id l children w :
  (∀ c w, walk_inv fm r w → arrived r w c → (unseen r w < fuel)%nat →
     ∃ o, walk fm fuel c w = Some o ∧ visited_ok fm r w c o) →
  (∀ c, c ∈ children → includes id c) → walk_inv fm r w → wk_ancestry w = l ++ [id] → (unseen r w < fuel)%nat →
  ∃ o, walk_children fm (walk fm fuel) id children w = Some o ∧
    match o with
    | inl e => error_ok fm r e
    | inr w' => walk_inv fm r w' ∧ extends w w' ∧ ∀ c, c ∈ children →
        (is_Some (index !! c) → wk_state w' !! c = Some node_done) ∧ (fm = true → is_Some (index !! c))
    end.
Proof.
  intros IH. revert w. induction children as [|c rest IHc]; intros w Hin Hw Hl Hf; cbn.
  { eexists. split; [done|]. split_and!; [done..|]. intros c Hc. set_solver. }
  destruct (index !! c) as [skill|] eqn:Ec.
  - destruct (IH c w Hw) as (o & -> & Ho); [|done|].
    { right. exists id. split; [by rewrite Hl, last_snoc|]. split; [apply Hin; set_solver|by rewrite Ec]. }
    destruct o as [e|w1]; [by eexists|]. destruct Ho as (Hw1 & He & Hd).
    destruct (IHc w1) as (o & Eo & Ho); [set_solver|done|by rewrite (proj2 He)|by pose proof (extends_unseen r _ _ He); lia|].
    exists o. split; [done|]. destruct o as [e|w2]; [done|]. destruct Ho as (Hw2 & He2 & Hrest). split_and!; [done|by eapply extends_trans|].
    intros c' [->|Hc']%elem_of_cons; [|by apply Hrest]. split; [|by rewrite Ec]. intros _.
    eapply lookup_weaken; [exact Hd|apply He2].
  - destruct fm eqn:Efm.
    + eexists. split; [done|]. cbn. split; [done|]. eapply child_missing_error; [exact Hw|done| |done]. apply Hin. set_solver.
    + destruct (IHc w) as (o & Eo & Ho); [set_solver|done..|]. exists o. split; [done|]. destruct o as [e|w2]; [done|].
      destruct Ho as (Hw2 & He2 & Hrest). split_and!; [done..|]. intros c' [->|Hc']%elem_of_cons; [|by apply Hrest].
      rewrite Ec. split; [by intros []|done].
Qed.

Lemma leave_extends w w1 id : wk_state w !! id = None → extends (enter_node id w) w1 → extends w (leave id w1).
Proof.
  intros Hid [Hs Ha]. cbn in Hs, Ha. split; cbn; [|by rewrite Ha, removelast_last].
  apply map_subseteq_spec. intros x st Hx. assert (id ≠ x) by congruence. rewrite lookup_insert_ne by done.
  eapply lookup_weaken; [|exact Hs]. by rewrite lookup_insert_ne.
Qed.

(** Enough fuel: more than the nodes that are unseen. *)
Lemma walk_ok fm r fuel : ∀ id w, walk_inv fm r w → arrived r w id → (unseen r w < fuel)%nat →
  ∃ o, walk fm fuel id w = Some o ∧ visited_ok fm r w id o.
Proof.
  induction fuel as [|fuel IH]; intros id w Hw Harr Hf; [lia|]. cbn.
  destruct (wk_state w !! id) as [[]|] eqn:Eid.
  - eexists. split; [done|]. by eapply revisit_error.
  - by eexists.
  - assert (Hw1 := enter_node_inv fm r w id Hw Eid Harr). assert (Hu := enter_unseen fm r w id Hw Eid Harr).
    destruct (walk_children_ok fm r fuel id (wk_ancestry w) (includes_of id) (enter_node id w)) as (o & -> & Ho); [done|done|done|done|lia|].
    destruct o as [e|w2]; [by eexists|]. destruct Ho as (Hw2 & He & Hc). eexists. split; [done|]. split_and!.
    + eapply leave_inv; [done| |exact Hc]. rewrite (proj2 He). cbn. done.
    + by apply leave_extends.
    + cbn. by rewrite lookup_insert_eq.
Qed.

Lemma start_walk_inv fm r : walk_inv fm r (mkWalk [] ∅ []).
Proof.
  split; cbn; try apply NoDup_nil_2; intros *; rewrite ?lookup_empty, ?elem_of_nil; unfold is_Some; naive_solver.
Qed.
Lemma start_fuel r : (unseen r (mkWalk [] ∅ []) < graph_fuel)%nat.
Proof.
  unfold unseen, universe, graph_fuel. cbn. rewrite dom_empty_L, difference_empty_L.
  assert (size ({[r]} ∪ dom index : gset string) ≤ S (size index))%nat; [|lia].
  rewrite size_union_alt, size_singleton, <- size_dom. assert (size (dom index ∖ {[r]}) ≤ size (dom index))%nat; [|lia].
  apply subseteq_size. set_solver.
Qed.

(** ** The walk that ignores errors *)

Definition marked (w : Walk) : Prop := ∀ x, x ∈ wk_visited w ↔ is_Some (wk_state w !! x).

Definition traversed (w w' : Walk) (visited : option (list string)) : Prop :=
  visited = Some (wk_visited w') ∧ marked w' ∧ wk_visited w ⊆ wk_visited w'.

Lemma traverse_children_ok fm fuel id children w w' :
  (∀ c w w', walk fm fuel c w = Some (inr w') → marked w → traversed w w' (traverse fuel c (wk_visited w))) →
  walk_children fm (walk fm fuel) id children w = Some (inr w') → marked w →
  traversed w w' (traverse_children (traverse fuel) children (wk_visited w)).
Proof.
  intros IH. revert w. induction children as [|c rest IHc]; intros w; cbn; [by intros [= <-]|].
  destruct (index !! c) as [skill|] eqn:Ec; cbn; [rewrite orb_false_r|rewrite orb_true_r; destruct fm; [done|apply IHc]].
  destruct (walk fm fuel c w) as [[e|w1]|] eqn:E1; [done| |done]. intros Hrest Hm.
  destruct (IH _ _ _ E1 Hm) as (Et & Hm1 & Hsub). destruct (IHc _ Hrest Hm1) as (Er & Hm' & Hsub').
  split_and!; [|done|by etrans]. case_bool_decide as Hin; [|by rewrite Et].
  destruct fuel as [|fuel]; [done|]. cbn in E1. apply Hm in Hin as [st Hst]. rewrite Hst in E1.
  destruct st; [done|]. by injection E1 as <-.
Qed.

Lemma traverse_ok fm fuel : ∀ id w w', walk fm fuel id w = Some (inr w') → marked w →
  traversed w w' (traverse fuel id (wk_visited w)).
Proof.
  induction fuel as [|fuel IH]; intros id w w'; cbn; [done|]. intros E Hm. case_bool_decide as Hin.
  - apply Hm in Hin as [st Hst]. rewrite Hst in E. destruct st; [done|]. injection E as <-. by split_and!.
  - destruct (wk_state w !! id) as [st|] eqn:Est; [destruct Hin; apply Hm; by rewrite Est|].
    destruct (walk_children _ _ _ _ _) as [[e|w1]|] eqn:Ec; [done| |done]. injection E as <-.
    assert (marked (enter_node id w)) as Hm1.
    { intros x. cbn. rewrite elem_of_app, list_elem_of_singleton, lookup_insert_is_Some, (Hm x). destruct (decide (id = x)); naive_solver. }
    destruct (traverse_children_ok _ _ _ _ _ _ IH Ec Hm1) as (Et & Hm' & Hsub). cbn in Et, Hsub. split_and!; [done| |set_solver].
    intros x. cbn. rewrite lookup_insert_is_Some, <- (Hm' x). destruct (decide (id = x)) as [<-|]; [|naive_solver].
    split; [by left|]. intros _. apply Hsub. set_solver.
Qed.

(** * Claims *)

(** C31. Validating an include graph ends, for every catalog, and is right: an error is
    a way from the root to a skill that includes one that is missing, or a cycle that
    the root reaches; without an error, the nodes are listed once each, they are those
    the root reaches, none is on a cycle and, where it matters, none includes a missing
    one; and the traversal that ignores errors lists the same nodes in the same order. *)
Theorem include_graph_validated rootId failOnMissing :
  ∃ o, validateIncludeGraph rootId failOnMissing = Some o ∧
    match o with
    | inl e => error_ok failOnMissing rootId e
    | inr visited =>
        NoDup visited ∧ (∀ x, x ∈ visited ↔ reaches rootId x)
        ∧ (∀ x, reaches rootId x → ¬ tc follows x x)
        ∧ (failOnMissing = true → ∀ x y, reaches rootId x → includes x y → is_Some (index !! y))
        ∧ traverseIncludes rootId = Some visited
    end.
Proof.
  destruct (walk_ok failOnMissing rootId graph_fuel rootId (mkWalk [] ∅ [])) as (o & E & Ho); [apply start_walk_inv|by left|apply start_fuel|].
  unfold validateIncludeGraph. rewrite E. cbn. eexists. split; [done|]. destruct o as [e|w]; [done|]. destruct Ho as (Hw & _ & Hroot).
  assert (∀ x, reaches rootId x → wk_state w !! x = Some node_done) as Hdone.
  { apply rtc_ind_r; [done|]. intros y z _ Hf Hy. by eapply (wi_closed _ _ _ Hw). }
  destruct (traverse_ok _ _ _ _ _ E) as (Et & _); [intros x; cbn; rewrite lookup_empty; split; [set_solver|by intros []]|].
  split_and!; [apply (wi_nodup _ _ _ Hw)| | | |exact Et].
  - intros x. rewrite (wi_visited _ _ _ Hw). split; [apply (wi_reached _ _ _ Hw)|]. intros Hx. by rewrite Hdone.
  - intros x Hx. by apply (wi_acyclic _ _ _ Hw), Hdone.
  - intros Hfm x y Hx. by apply (wi_missing _ _ _ Hw), Hdone.
Qed.
End graph.
