(* ===== verification/Async.v ===== *)
(** * Functions that wait for answers

    An [async] function over a shared memory: it runs to an [await] of something that
    others answer, the gateway or the user, where it leaves what is still to do; other
    functions run in between.  An [Outcome] is the end of a function or a question
    with the rest of the function; a [Prog] maps the memory it starts from to an
    outcome.

    [wp] is what a function guarantees to the others when it pauses, an invariant of
    the memory and of the answers received so far, and what it promises for its end.
    [reachable_ok]: in every interleaving of functions that are verified one by one,
    the invariant holds and every function that has ended has kept its promise. *)
From S2P Require Import Prelude.

(** ** Programs *)
Section programs.
Context {St Q Err : Type} {R : Q → Type}.

#[warnings="-register-all"]
Inductive Outcome (A : Type) :=
  | fin (r : Err + A) (w : World St)
  | ask (q : Q) (w : World St) (k : R q → World St → Outcome A).
Arguments fin {A} r w.
Arguments ask {A} q w k.

Definition Prog (A : Type) : Type := World St → Outcome A.

Fixpoint obind {A B} (o : Outcome A) (f : Err + A → World St → Outcome B) : Outcome B :=
  match o with
  | fin r w => f r w
  | ask q w k => ask q w (λ a w', obind (k a w') f)
  end.

#[export] Instance Prog_ret : MRet Prog := λ A a w, fin (inr a) w.
#[export] Instance Prog_bind : MBind Prog := λ A B f p w,
  obind (p w) (λ r w', match r with inl e => fin (inl e) w' | inr a => f a w' end).

(** A computation without an [await]. *)
Definition lift {A} (m : M (World St) Err A) : Prog A := λ w, let '(r, w') := m w in fin r w'.
Definition await_answer (q : Q) : Prog (R q) := λ w, ask q w (λ a w', fin (inr a) w').
Definition try_catch {A} (p : Prog A) (handler : Err → Prog A) : Prog A := λ w,
  obind (p w) (λ r w', match r with inl e => handler e w' | inr a => fin (inr a) w' end).

(** The memory as the function left it. *)
Definition world_of {A} (o : Outcome A) : World St := match o with fin _ w => w | ask _ w _ => w end.

(** ** Answers *)

(** An answer, and how often the clock had been read when it arrived. *)
Record Received := mkReceived { rc_at : nat; rc_query : Q; rc_answer : R rc_query }.
Definition History : Type := list Received.

(** What may have happened since. *)
Definition later (w : World St) (h : History) (w' : World St) (h' : History) : Prop :=
  (w_clock w ≤ w_clock w')%nat ∧ ∃ more, h' = h ++ more.

Lemma later_refl w h : later w h w h.
Proof. split; [lia|]. exists []. by rewrite app_nil_r. Qed.
Lemma later_trans w1 h1 w2 h2 w3 h3 : later w1 h1 w2 h2 → later w2 h2 w3 h3 → later w1 h1 w3 h3.
Proof. intros [H1 [m1 ->]] [H2 [m2 ->]]. split; [lia|]. exists (m1 ++ m2). by rewrite app_assoc. Qed.

(** ** Guarantees of one function *)
Section wp.
Context (Inv : World St → History → Prop).

(** [c]: the readings of the clock when the function was resumed. *)
Fixpoint wp {A} (c : nat) (o : Outcome A) (h : History) (Φ : Err + A → World St → History → Prop) : Prop :=
  match o with
  | fin r w => (c ≤ w_clock w)%nat ∧ Φ r w h
  | ask q w k =>
      (c ≤ w_clock w)%nat ∧ Inv w h
      ∧ ∀ a w' h', later w h w' h' → Inv w' h' →
        wp (w_clock w') (k a w') (h' ++ [mkReceived (w_clock w') q a]) Φ
  end.

Lemma wp_mono {A} (o : Outcome A) c h (Φ Ψ : Err + A → World St → History → Prop) :
  (∀ r w h', Φ r w h' → Ψ r w h') → wp c o h Φ → wp c o h Ψ.
Proof.
  intros HΦ. revert c h. induction o as [r w|q w k IH]; intros c h; cbn; [naive_solver|].
  intros (Hc & Hi & Hk). split_and!; [done|done|]. intros a w' h' Hl Hi'. by apply IH, Hk.
Qed.

Lemma wp_clock {A} (o : Outcome A) c c' h Φ : (c' ≤ c)%nat → wp c o h Φ → wp c' o h Φ.
Proof. intros Hc. destruct o; cbn; intros [? ?]; split; try done; lia. Qed.

Lemma wp_obind {A B} (o : Outcome A) (f : Err + A → World St → Outcome B) c h Φ :
  wp c o h (λ r w h', wp (w_clock w) (f r w) h' Φ) → wp c (obind o f) h Φ.
Proof.
  revert c h. induction o as [r w|q w k IH]; intros c h; cbn.
  - intros [Hc Hf]. by eapply wp_clock.
  - intros (Hc & Hi & Hk). split_and!; [done|done|]. intros a w' h' Hl Hi'. by apply IH, Hk.
Qed.

Lemma wp_bind {A B} (p : Prog A) (f : A → Prog B) c w h Φ :
  wp c (p w) h (λ r w' h', match r with inl e => Φ (inl e) w' h' | inr a => wp (w_clock w') (f a w') h' Φ end) →
  wp c ((p ≫= f) w) h Φ.
Proof.
  intros H. apply wp_obind. eapply wp_mono; [|exact H]. intros [e|a] w' h' HΦ; [by split|exact HΦ].
Qed.

Lemma wp_ret {A} (a : A) c w h Φ : (c ≤ w_clock w)%nat → Φ (inr a) w h → wp c ((mret a : Prog A) w) h Φ.
Proof. by split. Qed.

Lemma wp_lift {A} (m : M (World St) Err A) c w h Φ :
  (c ≤ w_clock (m w).2)%nat → Φ (m w).1 (m w).2 h → wp c (lift m w) h Φ.
Proof. unfold lift. by destruct (m w). Qed.

Lemma wp_try {A} (p : Prog A) (handler : Err → Prog A) c w h Φ :
  wp c (p w) h (λ r w' h', match r with inl e => wp (w_clock w') (handler e w') h' Φ | inr a => Φ (inr a) w' h' end) →
  wp c (try_catch p handler w) h Φ.
Proof.
  intros H. apply wp_obind. eapply wp_mono; [|exact H]. intros [e|a] w' h' HΦ; [exact HΦ|by split].
Qed.

Lemma wp_answer (q : Q) c w h Φ :
  (c ≤ w_clock w)%nat → Inv w h →
  (∀ a w' h', later w h w' h' → Inv w' h' → Φ (inr a) w' (h' ++ [mkReceived (w_clock w') q a])) →
  wp c (await_answer q w) h Φ.
Proof. intros Hc Hi H. split_and!; [done|done|]. intros a w' h' Hl Hi'. split; [done|]. by apply H. Qed.

(** Between its start and its end, time has passed and answers have come in. *)
Lemma wp_later {A} (o : Outcome A) c h Φ w0 h0 :
  (w_clock w0 ≤ c)%nat → (∃ more, h = h0 ++ more) → wp c o h Φ →
  wp c o h (λ r w h', later w0 h0 w h' ∧ Φ r w h').
Proof.
  revert c h. induction o as [r w|q w k IH]; intros c h Hc [more ->]; cbn.
  - intros [Hw HΦ]. split; [done|]. split; [|done]. split; [cbn in *; lia|by exists more].
  - intros (Hw & Hi & Hk). split_and!; [done|done|]. intros a w' h' [Hcl [more' ->]] Hi'.
    apply IH; [cbn in *; lia|exists (more ++ more' ++ [mkReceived (w_clock w') q a]); by rewrite !app_assoc|].
    apply Hk; [split; [done|by exists more']|done].
Qed.
End wp.

(** ** Interleaving *)
Section system.
Context {Call A : Type} (run : Call → Prog A).

(** A call: what it is, the memory and the answers when it started, its outcome so
    far and the answers when it last ran. *)
Record Running := mkRunning {
  rn_call : Call;
  rn_start : World St;
  rn_before : History;
  rn_outcome : Outcome A;
  rn_history : History;
}.
Record System := mkSystem { sy_world : World St; sy_history : History; sy_running : list Running }.

Inductive sys_step : System → System → Prop :=
  | sys_start call w h l :
      sys_step (mkSystem w h l) (mkSystem (world_of (run call w)) h (l ++ [mkRunning call w h (run call w) h]))
  | sys_answer i x q w0 k a w h l :
      l !! i = Some x → rn_outcome x = ask q w0 k →
      let h' := h ++ [mkReceived (w_clock w) q a] in
      sys_step (mkSystem w h l)
        (mkSystem (world_of (k a w)) h' (<[i := mkRunning (rn_call x) (rn_start x) (rn_before x) (k a w) h']> l)).

Definition sys_reachable (w : World St) : System → Prop := rtc sys_step (mkSystem w [] []).

Context (Inv : World St → History → Prop).
Context (Post : Call → World St → History → Err + A → World St → History → Prop).

(** What is verified of each function on its own. *)
Definition call_verified : Prop := ∀ call w h, Inv w h →
  wp Inv (w_clock w) (run call w) h (λ r w' h', Inv w' h' ∧ Post call w h r w' h').

(** A function that has ended, or would end with any answer. *)
Definition running_ok (w : World St) (h : History) (x : Running) : Prop :=
  later (world_of (rn_outcome x)) (rn_history x) w h
  ∧ ∃ c, wp Inv c (rn_outcome x) (rn_history x) (λ r w' h', Inv w' h' ∧ Post (rn_call x) (rn_start x) (rn_before x) r w' h').

Definition system_ok (s : System) : Prop :=
  Inv (sy_world s) (sy_history s) ∧ Forall (running_ok (sy_world s) (sy_history s)) (sy_running s).

Lemma wp_paused c (o : Outcome A) h Φ : wp Inv c o h (λ r w h', Inv w h' ∧ Φ r w h') →
  (c ≤ w_clock (world_of o))%nat ∧ Inv (world_of o) h.
Proof. destruct o; cbn; naive_solver. Qed.

Lemma running_ok_later w h w' h' x : later w h w' h' → running_ok w h x → running_ok w' h' x.
Proof. intros Hl [H1 H2]. split; [by eapply later_trans|done]. Qed.

Lemma sys_step_ok s s' : call_verified → sys_step s s' → system_ok s → system_ok s'.
Proof.
  intros Hv [call w h l|i x q w0 k a w h l Hx Ho h'] [Hi Hl]; cbn in Hi, Hl.
  - specialize (Hv call w h Hi). destruct (wp_paused _ _ _ _ Hv) as [Hc Hi']. split; [done|]. cbn.
    apply Forall_app. split.
    + eapply Forall_impl; [exact Hl|]. intros x. apply running_ok_later. split; [done|]. exists []. by rewrite app_nil_r.
    + apply Forall_singleton. split; [apply later_refl|by eexists].
  - assert (Hxo : running_ok w h x) by (rewrite Forall_lookup in Hl; by eapply Hl).
    destruct Hxo as [Hxl [c Hxw]]. rewrite Ho in Hxl, Hxw. cbn in Hxl, Hxw. destruct Hxw as (_ & _ & Hk).
    specialize (Hk a w h Hxl Hi). destruct (wp_paused _ _ _ _ Hk) as [Hc Hi']. split; [done|]. cbn.
    apply Forall_insert; [|split; [apply later_refl|by eexists]].
    eapply Forall_impl; [exact Hl|]. intros y. apply running_ok_later. split; [done|]. by eexists.
Qed.

Theorem system_reachable_ok w s : call_verified → Inv w [] → sys_reachable w s → system_ok s.
Proof.
  intros Hv Hi Hr. assert (H0 : system_ok (mkSystem w [] [])) by (by split).
  unfold sys_reachable in Hr. revert H0. induction Hr; [done|]. intros H0. by apply IHHr, (sys_step_ok x).
Qed.

(** A call that has ended has kept its promise. *)
Lemma ended_ok w s x r w' : call_verified → Inv w [] → sys_reachable w s → x ∈ sy_running s → rn_outcome x = fin r w' →
  Post (rn_call x) (rn_start x) (rn_before x) r w' (rn_history x).
Proof.
  intros Hv Hi Hr Hx Ho. destruct (system_reachable_ok w s Hv Hi Hr) as [_ Hl]. rewrite Forall_forall in Hl.
  destruct (Hl x Hx) as [_ [c Hw]]. rewrite Ho in Hw. cbn in Hw. tauto.
Qed.

(** ** One call alone *)

(** The call with these answers, until it ends or the fuel does. *)
Fixpoint run_with (oracle : ∀ q, R q) (fuel : nat) (o : Outcome A) (h : History) : Outcome A * History :=
  match fuel, o with
  | S fuel', ask q w k => run_with oracle fuel' (k (oracle q) w) (h ++ [mkReceived (w_clock w) q (oracle q)])
  | _, _ => (o, h)
  end.
Definition alone_from (call : Call) (w : World St) (o : Outcome A) (h : History) : System :=
  mkSystem (world_of o) h [mkRunning call w [] o h].
Definition alone (oracle : ∀ q, R q) (fuel : nat) (call : Call) (w : World St) : System :=
  let '(o, h) := run_with oracle fuel (run call w) [] in alone_from call w o h.

Lemma alone_reachable oracle fuel call w : sys_reachable w (alone oracle fuel call w).
Proof.
  unfold alone, sys_reachable. eapply rtc_l; [apply (sys_start call w [] [])|]. cbn.
  change (mkSystem (world_of (run call w)) [] [mkRunning call w [] (run call w) []]) with (alone_from call w (run call w) []).
  generalize (run call w) as o. generalize ([] : History) at 1 2 as h. induction fuel as [|fuel IH]; intros h o; [done|].
  destruct o as [r w'|q w' k]; [done|]. cbn [run_with]. eapply rtc_l; [|apply IH].
  exact (sys_answer 0 _ q w' k (oracle q) w' h [mkRunning call w [] (ask q w' k) h] eq_refl eq_refl).
Qed.
End system.
End programs.

Arguments fin {St Q Err R A} r w.
Arguments ask {St Q Err R A} q w k.
Arguments Outcome St {Q} Err R A.
Arguments Prog St {Q} Err R A.
Arguments History {Q} R.
Arguments Received {Q} R.
