(* ===== verification/Surroundings.v ===== *)
(** * What the permission checker looks up

    The directories of the assistant (src/assistant/src/util/platform.ts), the roots of
    skills (skills/path-classifier.ts), the workspace test (permissions/
    workspace-policy.ts), and the skills behind a selector (config/skills.ts,
    skills/version-hash.ts, skills/transitive-version-hash.ts and permissions/checker.ts).

    The environment variables, the home directory and SHA-256 are those of the class
    [Assistant].  What may change while the assistant runs, the registered tools, the
    catalog of skills, the extra directories of the configuration and the file system, is a [Surroundings] record that each lookup is given. *)
From stdpp Require Import pretty.
From S2P Require Import Prelude JsText NodePath RuntimeTypes ApprovalPolicy ToolRisk RiskHandlers SkillGraph.

Class Assistant := {
  as_host :: Host;
  getIsContainerized : bool;
  getWorkspaceDirOverride : option string;
  getBundledSkillsDir : string;
  (** [createHash("sha256").update(text).digest("hex")] *)
  sha256 : string → string;
}.

Record Tool := mkTool { tl_name : string; tl_defaultRiskLevel : RiskLevel; tl_executionTarget : option string }.
Record OwnerInfo := mkOwnerInfo { ow_kind : OwnerKind; ow_id : string }.

Inductive FileKind := kind_link | kind_directory | kind_file | kind_other.

(** The file system, [None] where a call throws; [realpaths] lists the real paths there are. *)
Record Disk := mkDisk {
  readdirSync : string → option (list string);
  lstatSync : string → option FileKind;
  statSync : string → option FileKind;
  readFileSync : string → option string;
  realpaths : list string;
}.

Record Surroundings := mkSurroundings {
  getTool : string → option Tool;
  getToolOwner : string → option OwnerInfo;
  loadSkillCatalog : list SkillSummary;
  disk : Disk;
  skills_load_extraDirs : list string;
  (** [None] where it throws, which is where the path does not exist *)
  realpathSync : string → option string;
}.

(** [a.sort()] on strings. *)
Definition string_order (a b : string) : Z := match String.compare a b with Lt => -1 | Eq => 0 | Gt => 1 end.

(** The first of the keys whose value is a string, [""] without one. *)
Fixpoint getStringField (input : list (string * json)) (keys : list string) : string :=
  match keys with
  | [] => ""
  | key :: keys' => match field key input with Some (JStr value) => value | _ => getStringField input keys' end
  end.

Section lookups.
Context {asst : Assistant}.

(** ** Directories *)

Definition VELLUM_ROOT : string := path_join [homedir; ".vellum"].
Definition vellumRoot : string :=
  match getWorkspaceDirOverride with
  | Some o => if truthy o && negb (eqs (dirname o) "/") then dirname o else VELLUM_ROOT
  | None => VELLUM_ROOT
  end.
Definition getWorkspaceDir : string :=
  match getWorkspaceDirOverride with
  | Some o => if truthy o then o else path_join [VELLUM_ROOT; "workspace"]
  | None => path_join [VELLUM_ROOT; "workspace"]
  end.
Definition getProtectedDir : string := path_join [vellumRoot; "protected"].
Definition getDeprecatedDir : string := path_join [getWorkspaceDir; "deprecated"].
Definition getWorkspaceHooksDir : string := path_join [getWorkspaceDir; "hooks"].
Definition getWorkspacePluginsDir : string := path_join [getWorkspaceDir; "plugins"].
Definition getWorkspaceSkillsDir : string := path_join [getWorkspaceDir; "skills"].

Context (s : Surroundings).

(** ** The roots of skills *)

Definition with_sep (p : string) : string := if endsWith p "/" then p else p +:+ "/".

(** The loop of [normalizeDirPath]: up to an ancestor that exists; [tail] is what was
    left behind. *)
Fixpoint nearest_ancestor (fuel : nat) (current tail : string) : option string :=
  match fuel with
  | O => None
  | S fuel' =>
      if eqs current (dirname current) then None
      else match realpathSync s current with
           | Some realBase => Some (normalize (realBase +:+ tail))
           | None => nearest_ancestor fuel' (dirname current) ("/" +:+ basename current +:+ tail)
           end
  end.

Definition skillDirPath (dirPath : string) : string :=
  match realpathSync s dirPath with
  | Some resolved => with_sep (normalize resolved)
  | None =>
      let absPath := resolve [dirPath] in
      match nearest_ancestor (S (String.length absPath)) absPath "" with
      | Some full => with_sep full
      | None => with_sep (normalize absPath)
      end
  end.

Definition getSkillRoots (extraRoots : list string) : list string :=
  [skillDirPath getWorkspaceSkillsDir; skillDirPath getBundledSkillsDir] ++ (skillDirPath <$> extraRoots).

Definition buildFileContext : FileContextParams :=
  mkFileParams getProtectedDir getDeprecatedDir getWorkspaceHooksDir (Some getWorkspacePluginsDir)
    (getSkillRoots (skills_load_extraDirs s)).

(** ** The workspace *)

(** [canonicalize], from an absolute path on. *)
Fixpoint canonicalize_from (fuel : nat) (abs : string) : string :=
  match realpathSync s abs with
  | Some p => p
  | None =>
      let parent := dirname abs in
      if eqs parent abs then normalize abs
      else match fuel with
           | O => abs
           | S fuel' => canonicalize_from fuel' (resolve [parent]) +:+ "/" +:+ basename abs
           end
  end.
Definition canonicalize (p : string) : string := let abs := resolve [p] in canonicalize_from (String.length abs) abs.

Definition isPathWithinWorkspaceRoot (filePath workspaceRoot : string) : bool :=
  if negb (truthy filePath) || negb (truthy workspaceRoot) then false
  else
    let canonicalPath := canonicalize filePath in
    let canonicalRoot := canonicalize workspaceRoot in
    eqs canonicalPath canonicalRoot || startsWith canonicalPath (with_sep canonicalRoot).

Definition PATH_SCOPED_TOOLS : list string := ["file_read"; "file_write"; "file_edit"].
Definition NETWORK_TOOLS : list string := ["web_search"; "web_fetch"; "network_request"].
Definition HOST_TOOLS : list string :=
  ["host_file_read"; "host_file_write"; "host_file_edit"; "host_file_transfer"; "host_bash"; "computer_use_run_applescript"].
Definition ALWAYS_SCOPED_TOOLS : list string := ["skill_load"; "recall"; "ui_update"; "ui_dismiss"].

Definition isWorkspaceScopedInvocation (toolName : string) (toolInput : list (string * json)) (workspaceRoot : string) : bool :=
  if member toolName ALWAYS_SCOPED_TOOLS then true
  else if member toolName NETWORK_TOOLS then false
  else if member toolName HOST_TOOLS then false
  else if member toolName PATH_SCOPED_TOOLS then
    let rawPath := getStringField toolInput ["file_path"; "path"] in
    let filePath := if truthy rawPath && negb (startsWith rawPath "/") then resolve [workspaceRoot; rawPath] else rawPath in
    truthy filePath && isPathWithinWorkspaceRoot filePath workspaceRoot
  else if eqs toolName "bash" then getIsContainerized
  else false.

(** ** The version of a skill's files (skills/version-hash.ts) *)

Definition EXCLUDED_NAMES : list string := [".vellum-skill-run"; "node_modules"; ".git"; "__pycache__"; ".DS_Store"].

(** [relative(from, to)] of [node:path]. *)
Fixpoint relative_segments (from to : list string) : list string :=
  match from, to with
  | x :: from', y :: to' => if eqs x y then relative_segments from' to' else replicate (length from) ".." ++ to
  | _, _ => replicate (length from) ".." ++ to
  end.
Definition segments_of (path : string) : list string := js_filter truthy (js_split "/" path).
Definition relative (from to : string) : string :=
  js_join "/" (relative_segments (segments_of (resolve [from])) (segments_of (resolve [to]))).

(** What is found under a name, through a link. *)
Definition entry_kind (full : string) : option FileKind :=
  match lstatSync (disk s) full with
  | Some kind_link => realpathSync s full ≫= statSync (disk s)
  | kind => kind
  end.

(** The files under a directory; [None] only without fuel.  [ancestors] are the real paths of
    the directories on the way. *)
Fixpoint collectFiles (fuel : nat) (dir base : string) (ancestors : gset string) : option (list string) :=
  match fuel with
  | O => None
  | S fuel' =>
      match realpathSync s dir with
      | None => Some []
      | Some realDir =>
          if bool_decide (realDir ∈ ancestors) then Some []
          else match readdirSync (disk s) dir with
          | None => Some []
          | Some items =>
              foldr (λ name rest,
                let full := path_join [dir; name] in
                found ← (if member name EXCLUDED_NAMES then Some []
                         else match entry_kind full with
                         | Some kind_directory => collectFiles fuel' full base ({[realDir]} ∪ ancestors)
                         | Some kind_file => Some [relative base full]
                         | _ => Some []
                         end);
                more ← rest; Some (found ++ more)) (Some []) (js_sort string_order items)
          end
      end
  end.
Definition collectSkillFiles (skillDir : string) : option (list string) :=
  collectFiles (S (length (realpaths (disk s)))) skillDir skillDir ∅.

(** [relPath.replaceAll("\\", "/")] *)
Fixpoint forward_slashes (path : string) : string :=
  match path with "" => "" | String c t => String (if bool_decide (c = "\"%char) then "/"%char else c) (forward_slashes t) end.

(** The files with their contents, as they are hashed; [None]: a file cannot be read. *)
Fixpoint read_files (skillDir : string) (files : list string) : option (list (string * string)) :=
  match files with
  | [] => Some []
  | relPath :: files' =>
      content ← readFileSync (disk s) (path_join [skillDir; relPath]);
      rest ← read_files skillDir files'; Some ((forward_slashes relPath, content) :: rest)
  end.
Definition skill_files (skillDir : string) : option (list (string * string)) := collectSkillFiles skillDir ≫= read_files skillDir.
Fixpoint files_text (files : list (string * string)) : string :=
  match files with
  | [] => ""
  | (normalized, content) :: files' =>
      normalized +:+ String "000" (pretty (Z.of_nat (String.length content)) +:+ String "000" (content +:+ String "010" (files_text files')))
  end.
(** [None] where it throws. *)
Definition computeSkillVersionHash (skillDir : string) : option string :=
  files ← skill_files skillDir; Some ("v1:" +:+ sha256 (files_text files)).

(** ** Skills *)

Definition only {A} (l : list A) : option A := match l with [x] => Some x | _ => None end.

(** [resolveSkillSelector(selector).skill]: by identifier, by name, by a prefix of the
    identifier; the last two only if one skill matches. *)
Definition resolveSkillSelector (selector : string) : option SkillSummary :=
  let needle := js_trim selector in
  let catalog := loadSkillCatalog s in
  if negb (truthy needle) then None else
  match js_find (λ k, eqs (ss_id k) needle) catalog with
  | Some k => Some k
  | None =>
      let named := js_filter (λ k, eqs (toLowerCase (ss_name k)) (toLowerCase needle)
                                   || eqs (toLowerCase (ss_displayName k)) (toLowerCase needle)) catalog in
      match named with
      | [] => only (js_filter (λ k, startsWith (ss_id k) needle) catalog)
      | _ => only named
      end
  end.

Definition resolveSkillIdAndHash (selector : string) : option (string * option string) :=
  skill ← resolveSkillSelector selector;
  Some (ss_id skill, computeSkillVersionHash (ss_directoryPath skill)).

Definition find_skill (id : string) : option SkillSummary := js_find (λ k, eqs (ss_id k) id) (loadSkillCatalog s).

Definition isToolOwnerSkillBundled (tool : option Tool) : bool :=
  match tool with
  | None => false
  | Some t =>
      match getToolOwner s (tl_name t) with
      | Some (mkOwnerInfo owner_skill id) => default false (skill ← find_skill id; ss_bundled skill)
      | _ => false
      end
  end.

Definition hasInlineExpansions (skillId : string) : bool :=
  match skill ← find_skill skillId; ss_inlineCommandExpansions skill with
  | Some (_ :: _) => true
  | _ => false
  end.

(** The text that is hashed for the visited skills; [None]: it throws. *)
Fixpoint transitive_text (index : gmap string SkillSummary) (visited : list string) : option string :=
  match visited with
  | [] => Some ""
  | skillId :: rest =>
      skill ← index !! skillId;
      dirHash ← computeSkillVersionHash (ss_directoryPath skill);
      text ← transitive_text index rest;
      Some (skillId +:+ String "000" "" +:+ dirHash +:+ String "010" text)
  end.

Definition computeTransitiveSkillVersionHash (rootSkillId : string) (index : gmap string SkillSummary) : option string :=
  match validateIncludes index rootSkillId with
  | Some (inr visited) => text ← transitive_text index visited; Some ("tv1:" +:+ sha256 text)
  | _ => None
  end.
Definition computeTransitiveHashSafe (skillId : string) : option string :=
  computeTransitiveSkillVersionHash skillId (indexCatalogById (loadSkillCatalog s)).

Definition resolveSkillMetadata (selector : string) : option ResolvedSkillMetadata :=
  '(id, versionHash) ← resolveSkillIdAndHash selector;
  let inlineExpansions := hasInlineExpansions id in
  Some (mkSkillMetadata id selector (default "" versionHash)
    (if inlineExpansions then computeTransitiveHashSafe id else None) inlineExpansions inlineExpansions).
End lookups.

(** ** The way up ends *)

Section fuel.
Context {asst : Assistant} (s : Surroundings).

Lemma length_path_of segs : Forall plain_segment segs → (length segs ≤ String.length (path_of segs))%nat.
Proof.
  induction segs as [|x segs IH] using rev_ind; [intros _; cbn; lia|]. intros H. pose proof H as [H1 (Hx & _)%Forall_singleton]%Forall_app.
  rewrite path_of_snoc, length_append, length_app. destruct x as [|c x]; [done|]. specialize (IH H1). destruct segs; cbn in *; lia.
Qed.

Lemma canonicalize_step fuel abs : canonicalize_from s (S fuel) abs =
  match realpathSync s abs with
  | Some p => p
  | None => if eqs (dirname abs) abs then normalize abs
            else canonicalize_from s fuel (resolve [dirname abs]) +:+ "/" +:+ basename abs
  end.
Proof. reflexivity. Qed.

(** One step of the path at a time: the fuel of [canonicalize] is never used up. *)
Lemma canonicalize_from_enough segs fuel : Forall plain_segment segs → (length segs ≤ fuel)%nat →
  canonicalize_from s fuel (path_of segs) = canonicalize_from s (S fuel) (path_of segs).
Proof.
  revert fuel. induction segs as [|x segs IH] using rev_ind; intros fuel H Hf.
  - change (path_of []) with "/". assert (E : eqs (dirname "/") "/" = true) by reflexivity.
    destruct fuel; cbn [canonicalize_from]; destruct (realpathSync s "/"); rewrite ?E; reflexivity.
  - rewrite length_app in Hf. cbn in Hf. destruct fuel as [|fuel]; [lia|]. pose proof H as [H1 _]%Forall_app.
    rewrite (canonicalize_step fuel), (canonicalize_step (S fuel)), (dirname_path_of segs x H), (resolve_id (path_of segs)) by by exists segs.
    by rewrite (IH fuel H1) by lia.
Qed.

Lemma nearest_ancestor_enough segs fuel tail : Forall plain_segment segs → (length segs ≤ fuel)%nat →
  nearest_ancestor s (S fuel) (path_of segs) tail = nearest_ancestor s (S (S fuel)) (path_of segs) tail.
Proof.
  revert fuel tail. induction segs as [|x segs IH] using rev_ind; intros fuel tail H Hf; [done|].
  destruct fuel as [|fuel]; [rewrite length_app in Hf; cbn in Hf; lia|]. pose proof H as [H1 _]%Forall_app.
  set (n := S fuel). cbn [nearest_ancestor]. rewrite (dirname_path_of segs x H).
  destruct (eqs _ _); [done|]. destruct (realpathSync s _); [done|]. apply IH; [done|]. rewrite length_app in Hf. cbn in Hf. lia.
Qed.
End fuel.
