(* ===== verification/AllowlistOptions.v ===== *)
(** * The patterns offered with a prompt

    The strategies of src/assistant/src/permissions/checker.ts that offer patterns for
    future rules, where the gateway has not: by file, URL or skill; and the directories
    a rule may be limited to.

    [URL] objects are those of the runtime, the class [UrlApi]. *)
From S2P Require Import Prelude JsText Regex NodePath RuntimeTypes RiskTypes ApprovalPolicy ToolRisk Surroundings.

Class UrlApi := {
  Url : Type;
  new_URL : string → option Url;   (* [None]: it throws *)
  protocol : Url → string;
  hostname : Url → string;
  pathname : Url → string;
  href : Url → string;
  origin : Url → string;
  set_hash : string → Url → Url;
  set_username : string → Url → Url;
  set_password : string → Url → Url;
  set_hostname : string → Url → Url;
  set_pathname : list Z → Url → Url;   (* of code units *)
}.

(** ** decodeURI *)

(** ; / ? : @ & = + $ , # *)
Definition uri_reserved (n : Z) : bool := bool_decide (n ∈ [59; 47; 63; 58; 64; 38; 61; 43; 36; 44; 35]).
Definition unit_of (c : ascii) : Z := Z.of_nat (nat_of_ascii c).

(** Escapes of reserved characters stay as they are. *)
Fixpoint uri_tokens_reserved (s : string) : option (list UriToken) :=
  match s with
  | "" => Some []
  | String "%" (String h (String l s')) =>
      match hex_digit h, hex_digit l with
      | Some a, Some b =>
          let n := 16 * a + b in
          rest ← uri_tokens_reserved s';
          Some (if uri_reserved n then raw_unit 37 :: raw_unit (unit_of h) :: raw_unit (unit_of l) :: rest else uri_byte n :: rest)
      | _, _ => None
      end
  | String "%" _ => None
  | String c s' => cons (raw_unit (unit_of c)) <$> uri_tokens_reserved s'
  end.
Definition decodeURI (s : string) : option (list Z) := uri_tokens_reserved s ≫= utf8_units.

(** ** Regular expressions *)

Definition one_of (l : string) : ascii → bool := λ c, has_char c l.
Definition is_letter (c : ascii) : bool := let n := unit_of c in (65 <=? n) && (n <=? 90) || (97 <=? n) && (n <=? 122).
Definition is_hex_char (c : ascii) : bool := negb (is_null (hex_digit c)).
Definition re_literal (c : ascii) : Regex := re_char (char_is c).
Fixpoint re_seqs (l : list Regex) : Regex := match l with [] => re_empty | r :: l' => re_seq r (re_seqs l') end.

(** The end of the port: [(?:\[/?#\]|$)] *)
Definition re_port : Regex :=
  re_seqs [re_literal ":"; re_plus (re_char is_digit_char); re_alt (re_char (one_of "/?#")) re_end].

Definition looksLikeHostPortShorthand (value : string) : bool :=
  test (re_seqs [re_start; re_literal "["; re_plus (re_char (λ c, is_hex_char c || one_of ":.%" c)); re_literal "]"; re_port]) value
  || test (re_seqs [re_start; re_plus (re_char (λ c, negb (one_of "/?#@:" c || is_space c))); re_port]) value.

Definition looksLikePathOnlyInput (value : string) : bool :=
  startsWith value "/" || startsWith value "./" || startsWith value "../" || startsWith value "?" || startsWith value "#".

Definition has_scheme (value : string) : bool :=
  test (re_seqs [re_start; re_char is_letter; re_star (re_char (λ c, is_letter c || is_digit_char c || one_of "+.-" c)); re_literal ":"]) value.

(** [s.replace(/\.+$/, "")] *)
Fixpoint drop_dots (s : string) : string :=
  match s with
  | "" => ""
  | String c s' => match drop_dots s' with "" => if bool_decide (c = "."%char) then "" else String c "" | t => String c t end
  end.

Fixpoint escapeMinimatchLiteral (value : string) : string :=
  match value with
  | "" => ""
  | String c s => if one_of "\*?[]{}()!+@|" c then String "\" (String c (escapeMinimatchLiteral s)) else String c (escapeMinimatchLiteral s)
  end.

Section options.
Context {asst : Assistant} {url : UrlApi} (s : Surroundings).

(** ** URLs *)

Definition canonicalizeWebFetchUrl (parsed : Url) : Url :=
  let u := set_password "" (set_username "" (set_hash "" parsed)) in
  let u := match decodeURI (pathname u) with Some p => set_pathname p u | None => u end in
  if endsWith (hostname u) "." then set_hostname (drop_dots (hostname u)) u else u.

Definition normalizeWebFetchUrl (rawUrl : string) : option Url :=
  let trimmed := js_trim rawUrl in
  let https := canonicalizeWebFetchUrl <$> new_URL ("https://" +:+ trimmed) in
  if negb (truthy trimmed) then None
  else if looksLikeHostPortShorthand trimmed then https
  else match new_URL trimmed with
       | Some parsed =>
           if eqs (protocol parsed) "http:" || eqs (protocol parsed) "https:" then Some (canonicalizeWebFetchUrl parsed) else None
       | None => if looksLikePathOnlyInput trimmed then None else if has_scheme trimmed then None else https
       end.

Definition friendlyHostname (u : Url) : string :=
  if startsWith (hostname u) "www." then str_drop 4 (hostname u) else hostname u.

Definition TOOL_DISPLAY_NAMES (toolName : string) : string :=
  default toolName (jget toolName
    [("file_read", "file reads"); ("file_write", "file writes"); ("file_edit", "file edits");
     ("host_file_read", "host file reads"); ("host_file_write", "host file writes"); ("host_file_edit", "host file edits");
     ("host_file_transfer", "host file transfers"); ("web_fetch", "URL fetches"); ("network_request", "network requests")]).

(** The first option of each pattern. *)
Fixpoint distinct_patterns (seen : list string) (l : list AllowlistOption) : list AllowlistOption :=
  match l with
  | [] => []
  | o :: l' => if member (al_pattern o) seen then distinct_patterns seen l' else o :: distinct_patterns (al_pattern o :: seen) l'
  end.

Definition urlAllowlistStrategy (toolName : string) (input : list (string * json)) : list AllowlistOption :=
  let rawUrl := js_trim (getStringField input ["url"]) in
  let normalized := normalizeWebFetchUrl rawUrl in
  let exact := match normalized with Some u => href u | None => rawUrl end in
  distinct_patterns []
    ((if truthy exact then [mkAllow exact "This exact URL" (toolName +:+ ":" +:+ escapeMinimatchLiteral exact)] else [])
     ++ match normalized with
        | Some u => [mkAllow (origin u +:+ "/*") ("Any page on " +:+ friendlyHostname u)
                       (toolName +:+ ":" +:+ escapeMinimatchLiteral (origin u) +:+ "/*")]
        | None => []
        end
     ++ [mkAllow (toolName +:+ ":*") ("All " +:+ TOOL_DISPLAY_NAMES toolName) "**"]).

(** ** Files *)

(** [input\[k1\] ?? input\[k2\] ?? ... ?? ""] *)
Fixpoint first_present (input : list (string * json)) (keys : list string) : json :=
  match keys with
  | [] => JStr ""
  | key :: keys' => match field key input with Some JNull | None => first_present input keys' | Some v => v end
  end.

(** [None]: [dirname] throws on what is not a string. *)
Definition fileAllowlistStrategy (toolName : string) (input : list (string * json)) : option (list AllowlistOption) :=
  let filePath :=
    if eqs toolName "host_file_transfer" then
      match field "direction" input with
      | Some (JStr "to_sandbox") => first_present input ["source_path"]
      | _ => first_present input ["dest_path"]
      end
    else first_present input ["path"; "file_path"; "dest_path"; "source_path"] in
  match filePath with
  | JStr p =>
      Some (mkAllow p "This file only" (toolName +:+ ":" +:+ p)
            :: ancestor_options toolName 3 (dirname p)
            ++ [mkAllow (toolName +:+ ":*") ("All " +:+ TOOL_DISPLAY_NAMES toolName) (toolName +:+ ":*")])
  | _ => None
  end.

(** ** Skills *)

Definition managedSkillAllowlistStrategy (toolName : string) (input : list (string * json)) : list AllowlistOption :=
  let skillId := js_trim (getStringField input ["skill_id"]) in
  let toolLabel := if eqs toolName "scaffold_managed_skill" then "scaffold" else "delete" in
  (if truthy skillId then [mkAllow skillId "This skill only" (toolName +:+ ":" +:+ skillId)] else [])
  ++ [mkAllow (toolName +:+ ":*") ("All managed skill " +:+ toolLabel +:+ "s") (toolName +:+ ":*")].

Definition dynamic_options (id : string) : list AllowlistOption :=
  match computeTransitiveHashSafe s id with
  | Some h => [mkAllow (id +:+ "@" +:+ h) "This exact version (pinned)" ("skill_load_dynamic:" +:+ id +:+ "@" +:+ h)]
  | None => []
  end ++ [mkAllow id "This skill (any version)" ("skill_load_dynamic:" +:+ id)].

Definition skillLoadAllowlistStrategy (input : list (string * json)) : list AllowlistOption :=
  let rawSelector := js_trim (getStringField input ["skill"]) in
  if negb (truthy rawSelector) then [mkAllow "skill_load:*" "All skill loads" "skill_load:*"]
  else
    let this_skill := [mkAllow rawSelector "This skill" ("skill_load:" +:+ rawSelector)] in
    match resolveSkillIdAndHash s rawSelector with
    | None => this_skill
    | Some (id, versionHash) =>
        if hasInlineExpansions s id then dynamic_options id
        else match versionHash with
             | Some h => if truthy h then [mkAllow (id +:+ "@" +:+ h) "This exact version" ("skill_load:" +:+ id +:+ "@" +:+ h)]
                         else this_skill
             | None => this_skill
             end
    end.

(** ** By tool *)

Definition FILE_TOOLS : list string :=
  ["file_read"; "file_write"; "file_edit"; "host_file_read"; "host_file_write"; "host_file_edit"; "host_file_transfer"].

(** The fallback of [generateAllowlistOptions]; [None]: it throws. *)
Definition allowlist_strategy (toolName : string) (input : list (string * json)) : option (list AllowlistOption) :=
  if member toolName FILE_TOOLS then fileAllowlistStrategy toolName input
  else if member toolName ["web_fetch"; "network_request"] then Some (urlAllowlistStrategy toolName input)
  else if member toolName ["scaffold_managed_skill"; "delete_managed_skill"] then Some (managedSkillAllowlistStrategy toolName input)
  else if eqs toolName "skill_load" then Some (skillLoadAllowlistStrategy input)
  else Some [mkAllow "*" "Everything" "*"].

Definition SCOPE_AWARE_TOOLS : list string := ["bash"; "host_bash"] ++ FILE_TOOLS.

(** With the home directory shown as ["~"]. *)
Definition displayed (dir : string) : string :=
  if startsWith dir homedir then "~" +:+ str_drop (String.length homedir) dir else dir.
Definition generateScopeOptions (workingDir toolName : string) : list DirectoryScopeOption :=
  if truthy toolName && negb (member toolName SCOPE_AWARE_TOOLS) then []
  else
    let parentDir := dirname workingDir in
    [mkDirScope workingDir (displayed workingDir)]
    ++ (if negb (eqs parentDir workingDir) then [mkDirScope parentDir (displayed parentDir +:+ "/*")] else [])
    ++ [mkDirScope "everywhere" "everywhere"].
End options.
