(* ===== verification/CheckerTypes.v ===== *)
(** * The memory of the permission checker, and what it asks

    The caches of src/assistant/src/permissions/gateway-threshold-reader.ts and
    checker.ts live as long as the assistant's process and are shared by every call
    under way.  What a call waits for is the gateway, over IPC, and the user. *)
From S2P Require Import Prelude RuntimeTypes RiskTypes RiskHandlers ApprovalPolicy Async Surroundings.

(** An error, with the risk level that [checkPermission] attaches to it. *)
Record Thrown := mkThrown { th_message : string; th_riskLevel : option ApprovalPolicy.RiskLevel }.
Definition error (message : string) : Thrown := mkThrown message None.

(** ** Thresholds *)

Record GlobalThresholds := mkThresholds { gt_interactive : string; gt_autonomous : string; gt_headless : string }.

(** An operation that keeps failing is logged at intervals. *)
Record FailureState := mkFailure { fs_consecutiveFailures : Z; fs_firstFailureAt : Z; fs_lastWarnAt : Z }.
Inductive ReaderLog :=
  | ipc_threshold_failure (op : string) (consecutiveFailures : Z) (streakDurationMs : option Z)
  | ipc_threshold_recovered (op : string) (swallowedFailures streakDurationMs : Z)
  | unexpected_threshold (value : string).

(** What is kept of a conversation: its override, or that it has none. *)
Record CachedThreshold := mkCached { ct_threshold : option string; ct_timestamp : Z }.

Record Reader := mkReader {
  rd_cachedGlobalThresholds : option GlobalThresholds;
  rd_cachedGlobalTimestamp : Z;
  rd_conversationThresholdCache : gmap string CachedThreshold;
  rd_failureStateByOp : gmap string FailureState;
  rd_log : list ReaderLog;
}.

(** ** Classifications *)

Record RiskClassification := mkRisk {
  rk_level : ApprovalPolicy.RiskLevel;
  rk_reason : string;
  rk_commandCandidates : option (list string);
  rk_actionKeys : option (list string);
  rk_sandboxAutoApprove : option bool;
  rk_allowlistOptions : option (list AllowlistOption);
  rk_resolvedPaths : option (list string);
}.

(** The [RiskAssessment] of the assistant. *)
Record CachedAssessment := mkCachedAssessment {
  ca_riskLevel : string;
  ca_reason : string;
  ca_scopeOptions : list ScopeOption;
  ca_matchType : MatchType;
  ca_allowlistOptions : option (list AllowlistOption);
  ca_directoryScopeOptions : option (list DirectoryScopeOption);
  ca_resolvedPaths : option (list string);
}.

Record PreviewDiff := mkPreview { pv_filePath : string; pv_oldContent : string; pv_newContent : string; pv_isNewFile : bool }.

(** What is offered with a prompt. *)
Record PromptOptions := mkPromptOptions {
  po_allowlistOptions : list AllowlistOption;
  po_scopeOptions : list DirectoryScopeOption;
  po_persistentDecisionsAllowed : bool;
}.

(** [ToolLifecycleEvent], without the fields that only repeat the call. *)
Inductive LifecycleEvent :=
  | permission_denied (toolName : string) (riskLevel : ApprovalPolicy.RiskLevel) (reason : string) (durationMs : Z)
  | permission_prompt (toolName : string) (riskLevel : ApprovalPolicy.RiskLevel) (reason : string) (options : PromptOptions)
      (diff : option PreviewDiff).

Record Mem := mkMem {
  mm_reader : Reader;
  mm_riskCache : jsmap string RiskClassification;
  mm_assessmentCache : jsmap string CachedAssessment;
  mm_events : list LifecycleEvent;
  mm_aborted : gset nat;   (* abort signals that have fired *)
  mm_surroundings : Surroundings;
}.

Definition empty_mem (s : Surroundings) : Mem := mkMem (mkReader None 0 ∅ ∅ []) [] [] [] ∅ s.

Definition on_reader (f : Reader → Reader) (m : Mem) : Mem :=
  mkMem (f (mm_reader m)) (mm_riskCache m) (mm_assessmentCache m) (mm_events m) (mm_aborted m) (mm_surroundings m).
Definition set_global (g : option GlobalThresholds) (at_ : Z) (r : Reader) : Reader :=
  mkReader g at_ (rd_conversationThresholdCache r) (rd_failureStateByOp r) (rd_log r).
Definition on_conversations (f : gmap string CachedThreshold → gmap string CachedThreshold) (r : Reader) : Reader :=
  mkReader (rd_cachedGlobalThresholds r) (rd_cachedGlobalTimestamp r) (f (rd_conversationThresholdCache r))
    (rd_failureStateByOp r) (rd_log r).
Definition on_failures (f : gmap string FailureState → gmap string FailureState) (r : Reader) : Reader :=
  mkReader (rd_cachedGlobalThresholds r) (rd_cachedGlobalTimestamp r) (rd_conversationThresholdCache r)
    (f (rd_failureStateByOp r)) (rd_log r).
Definition log_line (l : ReaderLog) (r : Reader) : Reader :=
  mkReader (rd_cachedGlobalThresholds r) (rd_cachedGlobalTimestamp r) (rd_conversationThresholdCache r)
    (rd_failureStateByOp r) (rd_log r ++ [l]).
Definition on_risk (f : jsmap string RiskClassification → jsmap string RiskClassification) (m : Mem) : Mem :=
  mkMem (mm_reader m) (f (mm_riskCache m)) (mm_assessmentCache m) (mm_events m) (mm_aborted m) (mm_surroundings m).
Definition on_assessment (f : jsmap string CachedAssessment → jsmap string CachedAssessment) (m : Mem) : Mem :=
  mkMem (mm_reader m) (mm_riskCache m) (f (mm_assessmentCache m)) (mm_events m) (mm_aborted m) (mm_surroundings m).
Definition emit (e : LifecycleEvent) (m : Mem) : Mem :=
  mkMem (mm_reader m) (mm_riskCache m) (mm_assessmentCache m) (mm_events m ++ [e]) (mm_aborted m) (mm_surroundings m).
Definition set_aborted (signal : nat) (m : Mem) : Mem :=
  mkMem (mm_reader m) (mm_riskCache m) (mm_assessmentCache m) (mm_events m) ({[signal]} ∪ mm_aborted m) (mm_surroundings m).
Definition set_surroundings (s : Surroundings) (m : Mem) : Mem :=
  mkMem (mm_reader m) (mm_riskCache m) (mm_assessmentCache m) (mm_events m) (mm_aborted m) s.

(** ** Questions and answers *)

(** [ipcCall("get_conversation_threshold")]: [undefined] when the call fails, anything
    falsy when there is no override, or an object with a threshold. *)
Inductive ConversationReply := reply_failed | reply_no_override | reply_threshold (threshold : string).
#[export] Instance ConversationReply_eq_dec : EqDecision ConversationReply.
Proof. solve_decision. Defined.

(** What the user, a timer or a cancellation makes of a prompt. *)
Inductive UserDecision := user_allow | user_deny.
#[export] Instance UserDecision_eq_dec : EqDecision UserDecision.
Proof. solve_decision. Defined.
Record ConfirmResult := mkConfirm {
  cf_decision : UserDecision;
  cf_decisionContext : option string;
  cf_wasTimeout : bool;
  cf_wasSystemCancel : bool;
  cf_wasAbort : bool;
}.

(** [turn]: an [await] of an async function ends in a later turn, when others may have run. *)
Inductive Query :=
  | turn
  | get_conversation_threshold (conversationId : string)
  | get_global_thresholds
  | classify_risk (params : ClassifyRiskParams)
  | confirm (toolName : string) (input : list (string * json)) (riskLevel : ApprovalPolicy.RiskLevel)
      (options : PromptOptions) (diff : option PreviewDiff) (directoryScopeOptions : option (list DirectoryScopeOption)).
Definition Reply (q : Query) : Type :=
  match q with
  | turn => unit
  | get_conversation_threshold _ => ConversationReply
  | get_global_thresholds => option GlobalThresholds
  | classify_risk _ => option ClassificationResult
  | confirm _ _ _ _ _ _ => Thrown + ConfirmResult
  end.

Abbreviation Sync := (M (World Mem) Thrown).
Abbreviation Async := (Prog Mem Thrown Reply).

(** [await f()] of an async function that has ended, by returning or by throwing. *)
Definition awaited {A} (p : Async A) : Async A := λ w,
  obind (p w) (λ r w', ask turn w' (λ (_ : Reply turn) w'', fin r w'')).
