(* ===== verification/Thresholds.v ===== *)
(** * The thresholds of automatic approval

    src/assistant/src/permissions/gateway-threshold-reader.ts: the threshold of a
    conversation or of the context, read from the gateway through two caches, and
    [none] when the gateway cannot be asked. *)
From S2P Require Import Prelude ApprovalPolicy Async CheckerTypes.

Section thresholds.
Context {env : Env}.

Definition GLOBAL_CACHE_TTL_MS : Z := 30000.
Definition CONVERSATION_CACHE_TTL_MS : Z := 5000.
Definition DEFAULT_FAILURE_WARN_INTERVAL_MS : Z := 30000.

(** ** Failures that are logged at intervals *)

Definition noteFailure (op : string) : Sync unit :=
  t ← now;
  failures ← gets (λ m, rd_failureStateByOp (mm_reader m));
  match failures !! op with
  | None =>
      modify (on_reader (λ r, log_line (ipc_threshold_failure op 1 None) (on_failures <[op := mkFailure 1 t t]> r)))
  | Some (mkFailure count first lastWarn) =>
      if DEFAULT_FAILURE_WARN_INTERVAL_MS <=? t - lastWarn
      then modify (on_reader (λ r,
             log_line (ipc_threshold_failure op (count + 1) (Some (t - first)))
               (on_failures <[op := mkFailure (count + 1) first t]> r)))
      else modify (on_reader (on_failures <[op := mkFailure (count + 1) first lastWarn]>))
  end.

Definition noteSuccess (op : string) : Sync unit :=
  failures ← gets (λ m, rd_failureStateByOp (mm_reader m));
  match failures !! op with
  | None => mret tt
  | Some (mkFailure count first _) =>
      t ← now;
      modify (on_reader (λ r, on_failures (delete op) (log_line (ipc_threshold_recovered op count (t - first)) r)))
  end.

Definition resetGatewayThresholdCacheForTenantAssignment : Sync unit :=
  modify (on_reader (λ r, on_conversations (λ _, ∅) (set_global None 0 r))).

(** ** Values *)

(** [isValidThreshold], with the threshold it is. *)
Definition valid_threshold (value : string) : option RiskThreshold :=
  if eqs value "none" then Some up_to_none else if eqs value "low" then Some up_to_low
  else if eqs value "medium" then Some up_to_medium else if eqs value "high" then Some up_to_high else None.

Definition mapExecutionContextToField (ctx : ExecutionContext) (g : GlobalThresholds) : string :=
  match ctx with
  | in_conversation => gt_interactive g
  | in_headless => gt_headless g
  | in_background => gt_autonomous g
  end.

(** [result && isValidThreshold(result.threshold)] *)
Definition override_of (r : ConversationReply) : option (string * RiskThreshold) :=
  match r with reply_threshold s => t ← valid_threshold s; Some (s, t) | _ => None end.

(** ** Reading *)

(** Keep what the gateway said of a conversation. *)
Definition cache_conversation (conversationId : string) (threshold : option string) : Sync unit :=
  t ← now;
  modify (on_reader (on_conversations <[conversationId := mkCached threshold t]>)).

(** The answer about a conversation, once it is there; [Some] returns early. *)
Definition take_conversation (conversationId : string) (result : ConversationReply) : Sync (option RiskThreshold) :=
  noteSuccess "conversation_threshold";;
  match override_of result with
  | Some (s, t) => cache_conversation conversationId (Some s);; mret (Some t)
  | None => cache_conversation conversationId None;; mret None
  end.

(** Whether the cache has an entry that is young enough. *)
Definition cached_conversation (conversationId : string) : Sync (option CachedThreshold) :=
  cached ← gets (λ m, rd_conversationThresholdCache (mm_reader m) !! conversationId);
  match cached with
  | None => mret None
  | Some c => t ← now; mret (if t - ct_timestamp c <? CONVERSATION_CACHE_TTL_MS then Some c else None)
  end.

(** A failed call leaves the cache as it is. *)
Definition settle_conversation (conversationId : string) (result : ConversationReply) : Sync (option RiskThreshold) :=
  match result with
  | reply_failed => noteFailure "conversation_threshold";; mret None
  | _ => take_conversation conversationId result
  end.

Definition conversation_override (conversationId : string) : Async (option RiskThreshold) :=
  cached ← lift (cached_conversation conversationId);
  match cached with
  | Some c => mret (ct_threshold c ≫= valid_threshold)
  | None =>
      result ← await_answer (R := Reply) (get_conversation_threshold conversationId);
      lift (settle_conversation conversationId result)
  end.

Definition take_global (result : option GlobalThresholds) : Sync GlobalThresholds :=
  match result with
  | None => throw (error "Gateway IPC returned no result for global thresholds")
  | Some g =>
      noteSuccess "global_thresholds";;
      t ← now;
      modify (on_reader (set_global (Some g) t));;
      mret g
  end.

Definition ask_global : Async GlobalThresholds :=
  result ← await_answer (R := Reply) get_global_thresholds; lift (take_global result).

Definition fetchGlobalThresholds : Async GlobalThresholds :=
  cached ← lift (t ← now; r ← gets mm_reader;
                 mret (match rd_cachedGlobalThresholds r with
                       | Some g => if t - rd_cachedGlobalTimestamp r <? GLOBAL_CACHE_TTL_MS then Some g else None
                       | None => None
                       end));
  match cached with
  | Some g => mret g
  | None => ask_global
  end.

(** The threshold of the context; strict when it cannot be read. *)
Definition global_threshold (ctx : ExecutionContext) : Async RiskThreshold :=
  try_catch
    (g ← awaited fetchGlobalThresholds;
     let value := mapExecutionContextToField ctx g in
     match valid_threshold value with
     | Some t => mret t
     | None => lift (modify (on_reader (log_line (unexpected_threshold value)));; mret up_to_none)
     end)
    (λ _, lift (noteFailure "global_thresholds";; mret up_to_none)).

(** Overrides are for conversations, by their identifier. *)
Definition overridable (ctx : ExecutionContext) (conversationId : option string) : option string :=
  match conversationId with
  | Some id => if bool_decide (ctx = in_conversation) && truthy id then Some id else None
  | None => None
  end.

Definition getAutoApproveThreshold (conversationId : option string) (executionContext : option ExecutionContext) :
    Async RiskThreshold :=
  let ctx := default in_conversation executionContext in
  early ← match overridable ctx conversationId with Some id => conversation_override id | None => mret None end;
  match early with
  | Some t => mret t
  | None => global_threshold ctx
  end.

(** Reading past the caches; [None] when the gateway does not answer. *)
Definition refresh_global (ctx : ExecutionContext) : Async (option RiskThreshold) :=
  try_catch
    (g ← ask_global;
     mret (valid_threshold (mapExecutionContextToField ctx g)))
    (λ _, lift (noteFailure "global_thresholds";; mret None)).

Definition refreshAutoApproveThreshold (conversationId : option string) (executionContext : option ExecutionContext) :
    Async (option RiskThreshold) :=
  let ctx := default in_conversation executionContext in
  match overridable ctx conversationId with
  | Some id =>
      result ← await_answer (R := Reply) (get_conversation_threshold id);
      if bool_decide (result = reply_failed)
      then lift (noteFailure "conversation_threshold";; mret None)
      else
        early ← lift (take_conversation id result);
        match early with Some t => mret (Some t) | None => refresh_global ctx end
  | None => refresh_global ctx
  end.
End thresholds.
