(* ===== verification/ThresholdProps.v ===== *)
(** * What the thresholds of automatic approval guarantee

    [reader_ok] ties the caches to the answers received: a cached value is what the
    gateway answered, and its timestamp was read when the answer was taken.  [Other] is
    what the rest of the memory has to satisfy, which the reader does not touch. *)
From S2P Require Import Prelude ApprovalPolicy Async CheckerTypes Thresholds.

Section thresholds.
Context {env : Env}.

Local Abbreviation Hist := (History Reply).
Local Abbreviation entry i q a := (mkReceived (R := Reply) i q a).

(** The answer was taken when the clock was read for the [j]-th time: at most the
    reading for a log line came before. *)
Definition taken_at (h : Hist) (j : nat) (q : Query) (a : Reply q) : Prop :=
  ∃ i, entry i q a ∈ h ∧ (i ≤ j ≤ i + 1)%nat.

Definition reader_ok (r : Reader) (c : nat) (h : Hist) : Prop :=
  (∀ g, rd_cachedGlobalThresholds r = Some g →
     ∃ j, (j < c)%nat ∧ rd_cachedGlobalTimestamp r = date_now j ∧ taken_at h j get_global_thresholds (Some g))
  ∧ (∀ id ct, rd_conversationThresholdCache r !! id = Some ct →
     ∃ j a, (j < c)%nat ∧ ct_timestamp ct = date_now j ∧ taken_at h j (get_conversation_threshold id) a
       ∧ a ≠ reply_failed ∧ ct_threshold ct = fst <$> override_of a).

Lemma taken_at_app h more j q a : taken_at h j q a → taken_at (h ++ more) j q a.
Proof. intros (i & Hi & ?). exists i. split; [|done]. apply elem_of_app. by left. Qed.

Lemma reader_ok_mono r c c' h more : (c ≤ c')%nat → reader_ok r c h → reader_ok r c' (h ++ more).
Proof.
  intros Hc [Hg Hv]. split.
  - intros g H. destruct (Hg g H) as (j & ? & ? & ?). exists j. split_and!; [lia|done|by apply taken_at_app].
  - intros id ct H. destruct (Hv id ct H) as (j & a & ? & ? & ? & ? & ?). exists j, a.
    split_and!; [lia|done|by apply taken_at_app|done|done].
Qed.

(** The fields the invariant speaks of. *)
Definition reader_caches (r : Reader) := (rd_cachedGlobalThresholds r, rd_cachedGlobalTimestamp r, rd_conversationThresholdCache r).
Lemma reader_ok_caches r r' c h : reader_caches r' = reader_caches r → reader_ok r c h → reader_ok r' c h.
Proof. destruct r, r'. by intros [= -> -> ->]. Qed.

(** ** What a threshold rests on *)

(** The answer came in since. *)
Definition newly (h0 h : Hist) (q : Query) (a : Reply q) : Prop := ∃ i more, h = h0 ++ more ∧ entry i q a ∈ more.

(** It came in since, or it was taken less than [ttl] before the clock was read since. *)
Definition recently (ttl : Z) (w0 : World Mem) (h0 : Hist) (w : World Mem) (h : Hist) (q : Query) (a : Reply q) : Prop :=
  newly h0 h q a ∨ ∃ j j', taken_at h j q a ∧ (w_clock w0 ≤ j' < w_clock w)%nat ∧ date_now j' - date_now j < ttl.

Definition override_ok (w0 : World Mem) (h0 : Hist) (w : World Mem) (h : Hist) (id : string) (o : option RiskThreshold) : Prop :=
  (∃ a, recently CONVERSATION_CACHE_TTL_MS w0 h0 w h (get_conversation_threshold id) a ∧ a ≠ reply_failed ∧ snd <$> override_of a = o)
  ∨ (o = None ∧ newly h0 h (get_conversation_threshold id) reply_failed).

(** The threshold of the context in a recently answer, [none] where it is not one or where
    the gateway did not answer. *)
Definition global_ok (w0 : World Mem) (h0 : Hist) (w : World Mem) (h : Hist) (ctx : ExecutionContext) (t : RiskThreshold) : Prop :=
  (∃ g, recently GLOBAL_CACHE_TTL_MS w0 h0 w h get_global_thresholds (Some g)
     ∧ t = default up_to_none (valid_threshold (mapExecutionContextToField ctx g)))
  ∨ (t = up_to_none ∧ newly h0 h get_global_thresholds None).

Definition threshold_ok (conversationId : option string) (executionContext : option ExecutionContext)
    (w0 : World Mem) (h0 : Hist) (t : RiskThreshold) (w : World Mem) (h : Hist) : Prop :=
  let ctx := default in_conversation executionContext in
  match overridable ctx conversationId with
  | None => global_ok w0 h0 w h ctx t
  | Some id => override_ok w0 h0 w h id (Some t) ∨ (override_ok w0 h0 w h id None ∧ global_ok w0 h0 w h ctx t)
  end.

(** What is promised where the gateway says what threshold the conversation has: that one, or
    the context's where the conversation has none. *)
Definition threshold_sound (conversationId : option string) (executionContext : option ExecutionContext)
    (w0 : World Mem) (h0 : Hist) (t : RiskThreshold) (w : World Mem) (h : Hist) : Prop :=
  let ctx := default in_conversation executionContext in
  match overridable ctx conversationId with
  | None => global_ok w0 h0 w h ctx t
  | Some id => ∃ a, recently CONVERSATION_CACHE_TTL_MS w0 h0 w h (get_conversation_threshold id) a ∧ a ≠ reply_failed
                 ∧ match override_of a with Some (_, t') => t = t' | None => global_ok w0 h0 w h ctx t end
  end.
(** No read of the conversation's own threshold has failed since. *)
Definition conversation_read (conversationId : option string) (executionContext : option ExecutionContext) (h0 h : Hist) : Prop :=
  ∀ id, overridable (default in_conversation executionContext) conversationId = Some id → ¬ newly h0 h (get_conversation_threshold id) reply_failed.
Lemma threshold_ok_sound cid ectx w0 h0 t w h :
  threshold_ok cid ectx w0 h0 t w h → conversation_read cid ectx h0 h → threshold_sound cid ectx w0 h0 t w h.
Proof.
  unfold threshold_ok, threshold_sound, conversation_read. destruct (overridable _ _) as [id|]; [|done].
  intros [[(a & Hr & Ha & Ho)|[? _]]|[[(a & Hr & Ha & Ho)|[_ Hn]] Hg]] Hread; [|done| |by destruct (Hread id eq_refl)]; exists a; split_and!; try done;
    destruct (override_of a) as [[s t']|]; [by injection Ho|done..].
Qed.

(** A fresh value: both answers came in since. *)
Definition fresh_ok (conversationId : option string) (executionContext : option ExecutionContext)
    (h0 : Hist) (t : RiskThreshold) (h : Hist) : Prop :=
  let ctx := default in_conversation executionContext in
  let global := ∃ g, newly h0 h get_global_thresholds (Some g) ∧ valid_threshold (mapExecutionContextToField ctx g) = Some t in
  match overridable ctx conversationId with
  | None => global
  | Some id => ∃ a, newly h0 h (get_conversation_threshold id) a ∧ a ≠ reply_failed
                 ∧ match override_of a with Some (_, t') => t' = t | None => global end
  end.

(** The gateway has failed to say. *)
Definition refresh_failed (conversationId : option string) (executionContext : option ExecutionContext) (h0 h : Hist) : Prop :=
  let ctx := default in_conversation executionContext in
  (∃ id, overridable ctx conversationId = Some id ∧ newly h0 h (get_conversation_threshold id) reply_failed)
  ∨ newly h0 h get_global_thresholds None
  ∨ (∃ g, newly h0 h get_global_thresholds (Some g) ∧ valid_threshold (mapExecutionContextToField ctx g) = None).

Definition refreshed_ok (conversationId : option string) (executionContext : option ExecutionContext)
    (h0 : Hist) (o : option RiskThreshold) (h : Hist) : Prop :=
  match o with
  | Some t => fresh_ok conversationId executionContext h0 t h
  | None => refresh_failed conversationId executionContext h0 h
  end.

Lemma newly_later (w0 w w' w1 : World Mem) h0 h h' h1 q a :
  later w0 h0 w h → later w h w' h' → later w' h' w1 h1 → newly h h' q a → newly h0 h1 q a.
Proof.
  intros [_ [m0 ->]] [_ [m1 ->]] [_ [m2 ->]] (i & more & E & Hi). apply app_inv_head in E as <-.
  exists i, (m0 ++ m1 ++ m2). split; [by rewrite !app_assoc|]. set_solver.
Qed.

Lemma recent_later ttl w0 h0 w h w' h' w1 h1 q a :
  later w0 h0 w h → later w h w' h' → later w' h' w1 h1 → recently ttl w h w' h' q a → recently ttl w0 h0 w1 h1 q a.
Proof.
  intros H1 H2 H3 [H|(j & j' & Ht & Hj & Hd)]; [left; by eapply newly_later|right; exists j, j'].
  destruct H1 as [? _], H3 as [? [m ->]]. split_and!; [by apply taken_at_app|lia|lia|done].
Qed.

Lemma override_ok_later w0 h0 w h w' h' w1 h1 id o :
  later w0 h0 w h → later w h w' h' → later w' h' w1 h1 → override_ok w h w' h' id o → override_ok w0 h0 w1 h1 id o.
Proof.
  intros H1 H2 H3 [(a & Hr & ?)|[-> Hn]]; [left; exists a; split; [by eapply recent_later|done]|right; split; [done|]].
  by eapply newly_later.
Qed.
Lemma global_ok_later w0 h0 w h w' h' w1 h1 ctx t :
  later w0 h0 w h → later w h w' h' → later w' h' w1 h1 → global_ok w h w' h' ctx t → global_ok w0 h0 w1 h1 ctx t.
Proof.
  intros H1 H2 H3 [(g & Hr & ?)|[-> Hn]]; [left; exists g; split; [by eapply recent_later|done]|right; split; [done|]].
  by eapply newly_later.
Qed.

(** What came in stays. *)
Lemma newly_grow (w1 w2 : World Mem) h0 h1 h2 q a : later w1 h1 w2 h2 → newly h0 h1 q a → newly h0 h2 q a.
Proof. intros [_ [m ->]] (i & more & -> & Hi). exists i, (more ++ m). split; [by rewrite app_assoc|]. set_solver. Qed.
Lemma recent_grow ttl w0 h0 w1 h1 w2 h2 q a : later w1 h1 w2 h2 → recently ttl w0 h0 w1 h1 q a → recently ttl w0 h0 w2 h2 q a.
Proof.
  intros Hl [H|(j & j' & Ht & Hj & Hd)]; [left; by eapply newly_grow|right; exists j, j'].
  destruct Hl as [? [m ->]]. split_and!; [by apply taken_at_app|lia|lia|done].
Qed.
Lemma override_ok_grow w0 h0 w1 h1 w2 h2 id o : later w1 h1 w2 h2 → override_ok w0 h0 w1 h1 id o → override_ok w0 h0 w2 h2 id o.
Proof. intros Hl [(a & Hr & ?)|[-> Hn]]; [left; exists a; split; [by eapply recent_grow|done]|right; split; [done|by eapply newly_grow]]. Qed.
Lemma global_ok_grow w0 h0 w1 h1 w2 h2 ctx t : later w1 h1 w2 h2 → global_ok w0 h0 w1 h1 ctx t → global_ok w0 h0 w2 h2 ctx t.
Proof. intros Hl [(g & Hr & ?)|[-> Hn]]; [left; exists g; split; [by eapply recent_grow|done]|right; split; [done|by eapply newly_grow]]. Qed.
Lemma threshold_ok_grow cid ectx w0 h0 t w1 h1 w2 h2 :
  later w1 h1 w2 h2 → threshold_ok cid ectx w0 h0 t w1 h1 → threshold_ok cid ectx w0 h0 t w2 h2.
Proof.
  intros Hl. unfold threshold_ok. destruct (overridable _ _) as [id|]; [|by apply global_ok_grow].
  intros [H|[H H']]; [left; by eapply override_ok_grow|right; split; [by eapply override_ok_grow|by eapply global_ok_grow]].
Qed.
Lemma refreshed_ok_grow cid ectx h0 o (w1 w2 : World Mem) h1 h2 :
  later w1 h1 w2 h2 → refreshed_ok cid ectx h0 o h1 → refreshed_ok cid ectx h0 o h2.
Proof.
  intros Hl. assert (Hn : ∀ q a, newly h0 h1 q a → newly h0 h2 q a) by (intros; by eapply newly_grow).
  unfold refreshed_ok, fresh_ok, refresh_failed. destruct o as [t|], (overridable _ _) as [id|]; [|naive_solver..].
  intros (a & ? & ? & H). exists a. split_and!; [by apply Hn|done|]. destruct (override_of a) as [[s' t']|]; [done|naive_solver].
Qed.

(** Seen from an earlier start. *)
Lemma threshold_ok_earlier cid ectx w0 h0 w1 h1 t w h :
  later w0 h0 w1 h1 → later w1 h1 w h → threshold_ok cid ectx w1 h1 t w h → threshold_ok cid ectx w0 h0 t w h.
Proof.
  intros H0 H1. assert (H2 := later_refl w h). unfold threshold_ok. destruct (overridable _ _) as [id|].
  - intros [H|[H H']]; [left|right; split]; eauto using override_ok_later, global_ok_later.
  - eauto using global_ok_later.
Qed.
Lemma refreshed_ok_earlier cid ectx (w0 w1 w : World Mem) h0 h1 o h :
  later w0 h0 w1 h1 → later w1 h1 w h → refreshed_ok cid ectx h1 o h → refreshed_ok cid ectx h0 o h.
Proof.
  intros H0 H1. assert (Hn : ∀ q a, newly h1 h q a → newly h0 h q a) by (intros; eapply newly_later; eauto using later_refl).
  unfold refreshed_ok, fresh_ok, refresh_failed. destruct o as [t|], (overridable _ _) as [id|]; [|naive_solver..].
  intros (a & ? & ? & H). exists a. split_and!; [by apply Hn|done|]. destruct (override_of a) as [[s' t']|]; [done|naive_solver].
Qed.

Lemma newly_last h i q a : newly h (h ++ [entry i q a]) q a.
Proof. exists i, [entry i q a]. split; [done|]. set_solver. Qed.
Lemma newly_last' (w w' : World Mem) h h' i q a : later w h w' h' → newly h (h' ++ [entry i q a]) q a.
Proof. intros [_ [m ->]]. exists i, (m ++ [entry i q a]). split; [by rewrite app_assoc|]. set_solver. Qed.

(** What holds of the end of an async function and stays true holds after its [await]. *)
Definition stable {A} (Ψ : Thrown + A → World Mem → Hist → Prop) : Prop :=
  ∀ r w1 h1 w2 h2, later w1 h1 w2 h2 → Ψ r w1 h1 → Ψ r w2 h2.

Lemma fetched_stable w h : stable (A := GlobalThresholds) (λ r w' h', match r with
    | inr g => recently GLOBAL_CACHE_TTL_MS w h w' h' get_global_thresholds (Some g)
    | inl _ => newly h h' get_global_thresholds None end).
Proof.
  intros [e|g] w1 h1 w2 h2 Hl; [by eapply newly_grow|by eapply recent_grow].
Qed.

Context (Other : Mem → Hist → Prop).
Context (Other_reader : ∀ f m h, Other m h → Other (on_reader f m) h).
Context (Other_app : ∀ m h more, Other m h → Other m (h ++ more)).

Definition mem_ok (w : World Mem) (h : Hist) : Prop :=
  reader_ok (mm_reader (w_st w)) (w_clock w) h ∧ Other (w_st w) h.

Lemma mem_ok_app w h more : mem_ok w h → mem_ok w (h ++ more).
Proof. intros [Hr Ho]. split; [by eapply reader_ok_mono|by apply Other_app]. Qed.

(** ** Code that only logs *)

(** A step that returns, reads the clock at most once and leaves the caches alone. *)
Definition quiet (m : Sync unit) : Prop := ∀ w h, mem_ok w h → ∃ w', m w = (inr tt, w') ∧
  (w_clock w ≤ w_clock w' ≤ w_clock w + 1)%nat ∧ mem_ok w' h ∧ reader_caches (mm_reader (w_st w')) = reader_caches (mm_reader (w_st w)).

Lemma quiet_reader (m : Sync unit) :
  (∀ w, ∃ w' f, m w = (inr tt, w') ∧ (w_clock w ≤ w_clock w' ≤ w_clock w + 1)%nat ∧ w_st w' = on_reader f (w_st w)
     ∧ reader_caches (f (mm_reader (w_st w))) = reader_caches (mm_reader (w_st w))) → quiet m.
Proof.
  intros H w h [Hr Ho]. destruct (H w) as (w' & f & -> & Hc & Hs & Hf). exists w'. split_and!; [done|lia|lia| |by rewrite Hs].
  split; rewrite Hs; [|by apply Other_reader]. cbn. eapply reader_ok_caches; [exact Hf|].
  rewrite <- (app_nil_r h). by eapply reader_ok_mono; [|exact Hr]; lia.
Qed.

Lemma noteFailure_quiet op : quiet (noteFailure op).
Proof.
  apply quiet_reader. intros [c u m]. unfold noteFailure. mrun.
  destruct (rd_failureStateByOp (mm_reader m) !! op) as [[count first lastWarn]|]; [destruct (_ <=? _)|]; cbn;
    do 2 eexists; (split_and!; [reflexivity|cbn; lia|cbn; lia|reflexivity|reflexivity]).
Qed.

Lemma noteSuccess_quiet op : quiet (noteSuccess op).
Proof.
  apply quiet_reader. intros [c u m]. unfold noteSuccess. mrun.
  destruct (rd_failureStateByOp (mm_reader m) !! op) as [[count first lastWarn]|]; cbn.
  - do 2 eexists. split_and!; [reflexivity|cbn; lia|cbn; lia|reflexivity|reflexivity].
  - exists (mkWorld c u m), id. destruct m. split_and!; cbn; by (try lia).
Qed.

Lemma log_line_quiet l : quiet (modify (on_reader (log_line l))).
Proof. apply quiet_reader. intros w. do 2 eexists. split_and!; [reflexivity|cbn; lia|cbn; lia|reflexivity|reflexivity]. Qed.

Lemma wp_quiet {A} (m : Sync unit) (a : A) c w h Φ :
  quiet m → (c ≤ w_clock w)%nat → mem_ok w h →
  (∀ w', (w_clock w ≤ w_clock w')%nat → mem_ok w' h → Φ (inr a) w' h) →
  wp mem_ok c (lift (m;; mret a) w) h Φ.
Proof.
  intros Hq Hc Hw HΦ. destruct (Hq w h Hw) as (w' & E & ? & ? & _). apply wp_lift; unfold mbind, M_bind; rewrite E; cbn; [lia|].
  by apply HΦ; [lia|].
Qed.

(** ** Storing an answer *)

Lemma taken_now h q a i j : entry i q a ∈ h → (i ≤ j ≤ i + 1)%nat → taken_at h j q a.
Proof. intros H ?. by exists i. Qed.

Lemma take_conversation_ok id a w h :
  mem_ok w h → a ≠ reply_failed → entry (w_clock w) (get_conversation_threshold id) a ∈ h →
  ∃ w', take_conversation id a w = (inr (snd <$> override_of a), w') ∧ (w_clock w ≤ w_clock w')%nat ∧ mem_ok w' h.
Proof.
  intros Hw Ha Hin. destruct (noteSuccess_quiet "conversation_threshold" w h Hw) as (w1 & E & Hc & [Hr Ho] & _).
  assert (∀ th, th = fst <$> override_of a → ∃ w', cache_conversation id th w1 = (inr tt, w') ∧ (w_clock w ≤ w_clock w')%nat ∧ mem_ok w' h) as Hcache.
  { intros th ->. eexists. split; [reflexivity|]. cbn. split; [lia|]. split; [|by apply Other_reader].
    destruct Hr as [Hg Hv]. split; cbn.
    - intros g H. destruct (Hg g H) as (j & ? & ?). exists j. by split; [lia|].
    - intros id' ct. rewrite lookup_insert_Some. intros [[<- <-]|[_ H]].
      + exists (w_clock w1), a. split_and!; try done; [lia|]. by eapply taken_now; [exact Hin|].
      + destruct (Hv id' ct H) as (j & a' & ? & ?). exists j, a'. by split; [lia|]. }
  unfold take_conversation, mbind, M_bind. rewrite E. destruct (override_of a) as [[s t]|].
  - destruct (Hcache (Some s) eq_refl) as (w' & E' & ? & ?). rewrite E'. by exists w'.
  - destruct (Hcache None eq_refl) as (w' & E' & ? & ?). rewrite E'. by exists w'.
Qed.

(** Any answer; without one there is no override for now. *)
Lemma settle_conversation_ok id a w h :
  mem_ok w h → entry (w_clock w) (get_conversation_threshold id) a ∈ h →
  ∃ w', settle_conversation id a w = (inr (snd <$> override_of a), w') ∧ (w_clock w ≤ w_clock w')%nat ∧ mem_ok w' h.
Proof.
  intros Hw Hin. destruct (decide (a = reply_failed)) as [->|Ha].
  - destruct (noteFailure_quiet "conversation_threshold" w h Hw) as (w1 & E & ? & ? & _).
    exists w1. cbn. unfold mbind, M_bind. rewrite E. by split_and!; [|lia|].
  - replace (settle_conversation id a) with (take_conversation id a) by by destruct a. by apply take_conversation_ok.
Qed.

Lemma take_global_ok g w h :
  mem_ok w h → entry (w_clock w) get_global_thresholds (Some g) ∈ h →
  ∃ w', take_global (Some g) w = (inr g, w') ∧ (w_clock w ≤ w_clock w')%nat ∧ mem_ok w' h.
Proof.
  intros Hw Hin. destruct (noteSuccess_quiet "global_thresholds" w h Hw) as (w1 & E & Hc & [Hr Ho] & _).
  unfold take_global, mbind, M_bind. rewrite E. cbn. eexists. split; [reflexivity|]. cbn. split; [lia|].
  split; [|by apply Other_reader]. destruct Hr as [_ Hv]. split; cbn.
  - intros g' [= <-]. exists (w_clock w1). split_and!; [lia|done|]. by eapply taken_now; [exact Hin|].
  - intros id' ct H. destruct (Hv id' ct H) as (j & a' & ? & ?). exists j, a'. by split; [lia|].
Qed.

(** ** The readers *)

(** Verified with the time that has passed. *)
Lemma wp_from {A} (o : Outcome Mem Thrown Reply A) w h Φ :
  wp mem_ok (w_clock w) o h Φ → wp mem_ok (w_clock w) o h (λ r w' h', later w h w' h' ∧ Φ r w' h').
Proof. apply wp_later; [done|]. exists []. by rewrite app_nil_r. Qed.

Lemma wp_await {A} (p : Async A) w h Ψ : stable Ψ →
  wp mem_ok (w_clock w) (p w) h (λ r w' h', mem_ok w' h' ∧ Ψ r w' h') →
  wp mem_ok (w_clock w) (awaited p w) h (λ r w' h', later w h w' h' ∧ mem_ok w' h' ∧ Ψ r w' h').
Proof.
  intros Hst Hp. apply wp_from, wp_obind. eapply wp_mono; [|exact Hp]. intros r w1 h1 [Hw1 HΨ].
  split_and!; [done|done|]. intros a w2 h2 Hl Hw2. split; [done|]. split; [by apply mem_ok_app|].
  apply (Hst r w1 h1); [|done]. eapply later_trans; [exact Hl|]. split; [done|]. by eexists.
Qed.

Lemma override_of_valid a s t : override_of a = Some (s, t) → valid_threshold s = Some t.
Proof. destruct a as [| |s']; cbn; try done. destruct (valid_threshold s') eqn:E; cbn; [|done]. by intros [= <- <-]. Qed.
Lemma override_of_cached a : (fst <$> override_of a) ≫= valid_threshold = snd <$> override_of a.
Proof. destruct (override_of a) as [[s t]|] eqn:E; [|done]. by apply override_of_valid in E. Qed.

Lemma mem_ok_ticked c c' u m h : (c ≤ c')%nat → mem_ok (mkWorld c u m) h → mem_ok (mkWorld c' u m) h.
Proof. intros ? [Hr Ho]. split; [|done]. cbn. rewrite <- (app_nil_r h). by eapply reader_ok_mono. Qed.

Lemma conversation_override_ok id w h : mem_ok w h →
  wp mem_ok (w_clock w) (conversation_override id w) h
    (λ r w' h', mem_ok w' h' ∧ ∃ o, r = inr o ∧ override_ok w h w' h' id o).
Proof.
  intros Hw. apply wp_bind, wp_lift.
  - unfold cached_conversation; mrun. destruct (_ !! id); cbn; lia.
  - destruct w as [c u m], (Hw) as [[_ Hv] _]; cbn in Hv. unfold cached_conversation; mrun.
    assert (∀ c', (c ≤ c')%nat → wp mem_ok c' (obind (await_answer (R := Reply) (get_conversation_threshold id) (mkWorld c' u m))
       (λ r w', match r with inl e => fin (inl e) w' | inr a => lift (settle_conversation id a) w' end)) h
       (λ r w' h', mem_ok w' h' ∧ ∃ o, r = inr o ∧ override_ok (mkWorld c u m) h w' h' id o)) as Hask.
    { intros c' Hc. apply wp_obind, wp_answer; [cbn; lia|by eapply mem_ok_ticked|]. intros a w' h' Hl Hw'.
      assert (Hnew : newly h (h' ++ [entry (w_clock w') (get_conversation_threshold id) a]) (get_conversation_threshold id) a)
        by by eapply newly_last'.
      destruct (settle_conversation_ok id a w' (h' ++ [entry (w_clock w') (get_conversation_threshold id) a])) as (w2 & E2 & ? & ?);
        [by apply mem_ok_app|set_solver|].
      apply wp_lift; rewrite E2; cbn; [done|]. split; [done|]. eexists. split; [done|].
      destruct (decide (a = reply_failed)) as [->|Ha]; [by right|]. left. exists a. by split; [left|]. }
    destruct (rd_conversationThresholdCache (mm_reader m) !! id) as [ct|] eqn:Ect; cbn; [|apply Hask; lia].
    destruct (Z.ltb_spec (date_now c - ct_timestamp ct) CONVERSATION_CACHE_TTL_MS) as [Hlt|]; [|apply Hask; lia].
    apply wp_ret; [cbn; lia|]. split; [by eapply mem_ok_ticked; [|exact Hw]; lia|].
    destruct (Hv id ct Ect) as (j & a & Hj & Ets & Hta & Hna & Eth). eexists. split; [done|]. left. exists a.
    split_and!; [|done|by rewrite Eth, override_of_cached]. right. exists j, c. rewrite <- Ets. cbn. split_and!; [done|lia|lia|done].
Qed.

Lemma ask_global_ok (w0 : World Mem) h0 w h : later w0 h0 w h → mem_ok w h →
  wp mem_ok (w_clock w0) (ask_global w) h
    (λ r w' h', mem_ok w' h' ∧ match r with
       | inr g => newly h0 h' get_global_thresholds (Some g) | inl _ => newly h0 h' get_global_thresholds None end).
Proof.
  intros [Hc [m0 ->]] Hw. apply wp_bind, wp_answer; [done|done|]. intros a w' h' Hl Hw'.
  assert (Hnew : newly h0 (h' ++ [entry (w_clock w') get_global_thresholds a]) get_global_thresholds a).
  { destruct Hl as [_ [m1 ->]]. exists (w_clock w'), (m0 ++ m1 ++ [entry (w_clock w') get_global_thresholds a]).
    split; [by rewrite !app_assoc|set_solver]. }
  assert (Hok := mem_ok_app w' h' [entry (w_clock w') get_global_thresholds a] Hw'). destruct a as [g|].
  - destruct (take_global_ok g w' _ Hok) as (w2 & E2 & ? & ?); [set_solver|]. by apply wp_lift; rewrite E2.
  - by apply wp_lift; cbn.
Qed.

Lemma fetchGlobalThresholds_ok w h : mem_ok w h →
  wp mem_ok (w_clock w) (fetchGlobalThresholds w) h (λ r w' h', mem_ok w' h' ∧ match r with
    | inr g => recently GLOBAL_CACHE_TTL_MS w h w' h' get_global_thresholds (Some g)
    | inl _ => newly h h' get_global_thresholds None end).
Proof.
  intros Hw. destruct w as [c u m], (Hw) as [[Hg _] _]; cbn in Hg. apply wp_bind, wp_lift; mrun; [lia|].
  assert (wp mem_ok (S c) (ask_global (mkWorld (S c) u m)) h
    (λ r w' h', mem_ok w' h' ∧ match r with
    | inr g => recently GLOBAL_CACHE_TTL_MS (mkWorld c u m) h w' h' get_global_thresholds (Some g)
    | inl _ => newly h h' get_global_thresholds None end)) as Hask.
  { eapply wp_mono; [|apply (ask_global_ok (mkWorld (S c) u m) h); [apply later_refl|by eapply mem_ok_ticked; [|exact Hw]; lia]].
    intros r w' h' [? Hr]. split; [done|]. destruct r; [done|by left]. }
  destruct (rd_cachedGlobalThresholds (mm_reader m)) as [g|]; [|exact Hask].
  destruct (Z.ltb_spec (date_now c - rd_cachedGlobalTimestamp (mm_reader m)) GLOBAL_CACHE_TTL_MS) as [Hlt|]; [|exact Hask].
  apply wp_ret; [cbn; lia|]. split; [by eapply mem_ok_ticked; [|exact Hw]; lia|].
  destruct (Hg g eq_refl) as (j & Hj & Ets & Hta). right. exists j, c. rewrite <- Ets. cbn. split_and!; [done|lia|lia|done].
Qed.

Lemma global_threshold_ok ctx w h : mem_ok w h →
  wp mem_ok (w_clock w) (global_threshold ctx w) h (λ r w' h', mem_ok w' h' ∧ ∃ t, r = inr t ∧ global_ok w h w' h' ctx t).
Proof.
  intros Hw. apply wp_try, wp_bind. eapply wp_mono; [|apply wp_await; [apply fetched_stable|apply fetchGlobalThresholds_ok, Hw]].
  intros [e|g] w1 h1 (Hl & Hw1 & Hr).
  - apply wp_quiet; [apply noteFailure_quiet|lia|done|]. intros w2 ? ?. split; [done|]. eexists. split; [done|]. by right.
  - assert (∀ w2 t, (w_clock w1 ≤ w_clock w2)%nat → t = default up_to_none (valid_threshold (mapExecutionContextToField ctx g)) →
      global_ok w h w2 h1 ctx t) as Hok.
    { intros w2 t Hc ->. eapply (global_ok_later w h w h w1 h1); [apply later_refl|done|split; [done|by exists []; rewrite app_nil_r]|].
      left. by exists g. }
    cbv zeta. destruct (valid_threshold _) as [t|] eqn:Ev.
    + apply wp_ret; [lia|]. split; [done|]. eexists. split; [done|]. by apply Hok.
    + apply wp_quiet; [apply log_line_quiet|lia|done|]. intros w2 ? ?. split; [done|]. eexists. split; [done|]. by apply Hok.
Qed.

Theorem getAutoApproveThreshold_ok cid ectx w h : mem_ok w h →
  wp mem_ok (w_clock w) (getAutoApproveThreshold cid ectx w) h
    (λ r w' h', mem_ok w' h' ∧ ∃ t, r = inr t ∧ threshold_ok cid ectx w h t w' h').
Proof.
  intros Hw. unfold getAutoApproveThreshold, threshold_ok. set (ctx := default in_conversation ectx). apply wp_bind.
  destruct (overridable ctx cid) as [id|].
  - eapply wp_mono; [|apply wp_from, conversation_override_ok, Hw]. intros r w1 h1 (Hl & Hw1 & o & -> & Ho).
    destruct o as [t|].
    + apply wp_ret; [lia|]. split; [done|]. eexists. split; [done|]. by left.
    + eapply wp_mono; [|apply wp_from, global_threshold_ok, Hw1]. intros r w2 h2 (Hl2 & Hw2 & t & -> & Ht).
      split; [done|]. eexists. split; [done|]. right. split.
      * eapply override_ok_later; [apply later_refl|exact Hl|exact Hl2|done].
      * eapply global_ok_later; [exact Hl|exact Hl2|apply later_refl|done].
  - apply wp_ret; [lia|]. apply global_threshold_ok, Hw.
Qed.

Lemma refresh_global_ok ctx w h : mem_ok w h →
  wp mem_ok (w_clock w) (refresh_global ctx w) h (λ r w' h', mem_ok w' h' ∧ ∃ o, r = inr o ∧
    match o with
    | Some t => ∃ g, newly h h' get_global_thresholds (Some g) ∧ valid_threshold (mapExecutionContextToField ctx g) = Some t
    | None => newly h h' get_global_thresholds None
              ∨ ∃ g, newly h h' get_global_thresholds (Some g) ∧ valid_threshold (mapExecutionContextToField ctx g) = None
    end).
Proof.
  intros Hw. apply wp_try, wp_bind. eapply wp_mono; [|by apply ask_global_ok; [apply later_refl|]].
  intros [e|g] w1 h1 [Hw1 Hr].
  - apply wp_quiet; [apply noteFailure_quiet|lia|done|]. intros w2 ? ?. split; [done|]. eexists. split; [done|]. by left.
  - apply wp_ret; [lia|]. split; [done|]. eexists. split; [done|]. destruct (valid_threshold _) eqn:E; [by exists g|right; by exists g].
Qed.

Theorem refreshAutoApproveThreshold_ok cid ectx w h : mem_ok w h →
  wp mem_ok (w_clock w) (refreshAutoApproveThreshold cid ectx w) h
    (λ r w' h', mem_ok w' h' ∧ ∃ o, r = inr o ∧ refreshed_ok cid ectx h o h').
Proof.
  intros Hw. unfold refreshAutoApproveThreshold, refreshed_ok, fresh_ok, refresh_failed. set (ctx := default in_conversation ectx).
  destruct (overridable ctx cid) as [id|]; last first.
  { eapply wp_mono; [|apply refresh_global_ok, Hw]. intros r w1 h1 (? & o & -> & Ho). split; [done|]. eexists. split; [done|].
    destruct o; naive_solver. }
  apply wp_bind, wp_answer; [done..|]. intros a w1 h1 Hl Hw1. set (h2 := h1 ++ _).
  assert (Hnew : newly h h2 (get_conversation_threshold id) a) by by eapply newly_last'.
  assert (Hok : mem_ok w1 h2) by by apply mem_ok_app.
  case_bool_decide as Ha.
  { subst a. apply wp_quiet; [apply noteFailure_quiet|lia|done|]. intros w2 ? ?. split; [done|]. eexists. split; [done|]. left. by exists id. }
  destruct (take_conversation_ok id a w1 h2 Hok Ha) as (w2 & E & Hc & Hw2); [set_solver|].
  assert (Hl2 : later w h w2 h2).
  { destruct Hl as [? [m ->]]. split; [lia|]. exists (m ++ [entry (w_clock w1) (get_conversation_threshold id) a]). by rewrite app_assoc. }
  apply wp_bind, wp_lift; rewrite E; cbn; [done|]. destruct (override_of a) as [[s t]|] eqn:Eo; cbn.
  - split; [done|]. split; [done|]. eexists. split; [done|]. exists a. by rewrite Eo.
  - eapply wp_mono; [|by apply wp_from, refresh_global_ok].
    intros r w3 h3 (Hl3 & Hw3 & o & -> & Ho). split; [done|]. eexists. split; [done|].
    assert (Hn : ∀ q b, newly h2 h3 q b → newly h h3 q b) by (intros; by eapply newly_later; [exact Hl2|exact Hl3|apply later_refl|]).
    destruct o as [t|]; [|naive_solver]. exists a. rewrite Eo. split_and!; [by eapply newly_grow|done|]. naive_solver.
Qed.

Lemma reset_ok w h : mem_ok w h → mem_ok (resetGatewayThresholdCacheForTenantAssignment w).2 h.
Proof. intros [[Hg Hv] Ho]. split; [|by apply Other_reader]. by split; cbn. Qed.
End thresholds.
