(* ===== verification/Checker.v ===== *)
(** * The permission checker: classification and decision

    src/assistant/src/permissions/checker.ts: [classifyRisk], which asks the gateway for
    the risk of a tool call and keeps the answers, and [check], which puts the risk and
    the threshold to the approval policy. *)
From S2P Require Import Prelude JsText NodePath RuntimeTypes RiskTypes ApprovalPolicy ToolRisk RiskHandlers SkillGraph Async Surroundings AllowlistOptions CheckerTypes Thresholds.

Inductive ManifestRisk := mr_low | mr_medium | mr_high.
Definition manifest_risk_name (r : ManifestRisk) : string :=
  match r with mr_low => "low" | mr_medium => "medium" | mr_high => "high" end.
Record ManifestOverride := mkManifest { mo_risk : ManifestRisk; mo_execution_target : string }.
Definition manifest_json (o : ManifestOverride) : json :=
  JObj [("risk", JStr (manifest_risk_name (mo_risk o))); ("execution_target", JStr (mo_execution_target o))].

Record PolicyContext := mkPolicyContext {
  pc_executionTarget : option string;
  pc_executionContext : option ExecutionContext;
  pc_conversationId : option string;
}.

Record PermissionCheckResult := mkCheckResult {
  pk_decision : Decision3;
  pk_reason : string;
  pk_matchedRule : option TrustRule;
  pk_hasSandboxAutoApprove : bool;
}.

Definition RISK_CACHE_MAX : Z := 256.
Definition NUL : string := String "000" "".
Definition quoted (s : string) : string := String "034" (s +:+ String "034" "").

Section checker.
Context {env : Env} {asst : Assistant} {url : UrlApi}.
Local Abbreviation Input := (list (string * json)).

(** ** The keys of the caches *)

(** The input without its status text. *)
Definition cacheableInput (input : Input) : Input :=
  js_filter (λ kv, negb (eqs kv.1 "reason" || eqs kv.1 "activity")) input.

Definition assessmentCacheKey (toolName : string) (input : Input) : string :=
  toolName +:+ NUL +:+ sha256 (json_stringify (JObj (cacheableInput input))).

Definition risk_key_text (input : Input) (workingDir : option string) (manifestOverride : option ManifestOverride) : string :=
  json_stringify (JObj (cacheableInput input)) +:+ NUL +:+ default "" workingDir +:+ NUL
  +:+ match manifestOverride with Some o => json_stringify (manifest_json o) | None => "" end.
Definition riskCacheKey (toolName : string) (input : Input) (workingDir : option string)
    (manifestOverride : option ManifestOverride) : string :=
  toolName +:+ NUL +:+ sha256 (risk_key_text input workingDir manifestOverride).

Definition clearRiskCache : Sync unit := modify (λ m, on_risk (λ _, []) (on_assessment (λ _, []) m)).

(** ** The request *)

Definition credential_count (input : Input) : option Z :=
  match field "credential_ids" input with
  | Some (JArr ids) =>
      let n := count (λ id, match id with JStr v => truthy v | _ => false end) ids in
      if 0 <? n then Some n else None
  | _ => None
  end.

Definition string_field (input : Input) (key : string) : option string :=
  match field key input with Some (JStr v) => Some v | _ => None end.
Definition or_undefined (v : string) : option string := if truthy v then Some v else None.

Definition registry_default_risk (s : Surroundings) (toolName : string) (manifestOverride : option ManifestOverride) : option string :=
  match getTool s toolName with
  | Some tool => Some (match tl_defaultRiskLevel tool with
                       | ApprovalPolicy.Low => "low" | ApprovalPolicy.High => "high" | ApprovalPolicy.Medium => "medium" end)
  | None => o ← manifestOverride; Some (manifest_risk_name (mo_risk o))
  end.

(** The host's path of a transfer is the one at risk. *)
Definition file_path_of (toolName : string) (input : Input) : string :=
  if eqs toolName "host_file_transfer" then
    if eqs (getStringField input ["direction"]) "to_sandbox" then getStringField input ["source_path"]
    else getStringField input ["dest_path"]
  else getStringField input ["path"; "file_path"].

Definition buildClassifyRiskParams (s : Surroundings) (toolName : string) (input : Input) (workingDir : option string)
    (manifestOverride : option ManifestOverride) : ClassifyRiskParams :=
  if member toolName ["bash"; "host_bash"] then
    mkParams toolName (Some (getStringField input ["command"])) None None None None None workingDir None
      (string_field input "network_mode") (Some getIsContainerized) (Some getWorkspaceDir) None None None (credential_count input)
  else if member toolName FILE_TOOLS then
    mkParams toolName None None (Some (file_path_of toolName input)) None None None
      (Some (if startsWith toolName "host_" then "/" else default process_cwd workingDir)) None None None None
      (Some (buildFileContext s)) None None None
  else if member toolName ["web_fetch"; "network_request"; "web_search"] then
    mkParams toolName None (Some (getStringField input ["url"])) None None None None None
      (Some (match field "allow_private_network" input with Some (JBool true) => true | _ => false end))
      None None None None None None None
  else if member toolName ["skill_load"; "scaffold_managed_skill"; "delete_managed_skill"] then
    let selector := js_trim (getStringField input ["skill"; "skill_id"]) in
    mkParams toolName None None None (Some selector) None None None None None None None None
      (if truthy selector then resolveSkillMetadata s selector else None) None None
  else if member toolName ["schedule_create"; "schedule_update"] then
    mkParams toolName None None None None (or_undefined (getStringField input ["mode"]))
      (or_undefined (getStringField input ["script"])) None None None None None None None None None
  else
    mkParams toolName None None None None None None None None None None None None None
      (registry_default_risk s toolName manifestOverride) None.

(** ** Classification *)

Definition riskStringToLevel (risk : string) : ApprovalPolicy.RiskLevel :=
  if eqs risk "low" then ApprovalPolicy.Low else if eqs risk "medium" then ApprovalPolicy.Medium
  else if eqs risk "high" then ApprovalPolicy.High else ApprovalPolicy.Medium.

Definition classification_of (r : ClassificationResult) : RiskClassification :=
  mkRisk (riskStringToLevel (cr_risk r)) (cr_reason r) (cr_commandCandidates r) (cr_actionKeys r) (cr_sandboxAutoApprove r)
    (cr_allowlistOptions r) (cr_resolvedPaths r).
Definition assessment_of (r : ClassificationResult) : CachedAssessment :=
  mkCachedAssessment (if eqs (cr_risk r) "unknown" then "medium" else cr_risk r) (cr_reason r) (cr_scopeOptions r) (cr_matchType r)
    (cr_allowlistOptions r) (cr_directoryScopeOptions r) (cr_resolvedPaths r).

(** Room for one more: the oldest entry goes. *)
Definition room_for_one {A} (m : jsmap string A) : jsmap string A :=
  if RISK_CACHE_MAX <=? Z.of_nat (length m) then match jkeys m with oldest :: _ => jdel oldest m | [] => m end else m.

Definition throwIfAborted (signal : option nat) : Sync unit :=
  aborted ← gets mm_aborted;
  match signal with
  | Some i => if bool_decide (i ∈ aborted) then throw (error "This operation was aborted") else mret tt
  | None => mret tt
  end.

(** What is cached under the key; it becomes the youngest. *)
Definition cached_risk (key : string) : Sync (option RiskClassification) :=
  cache ← gets mm_riskCache;
  match jget key cache with
  | Some r => modify (on_risk (λ c, jset key r (jdel key c)));; mret (Some r)
  | None => mret None
  end.

Definition store_risk (toolName : string) (input : Input) (key : string) (r : ClassificationResult) : Sync RiskClassification :=
  modify (on_risk (λ c, jset key (classification_of r) (room_for_one c)));;
  modify (on_assessment (λ c, jset (assessmentCacheKey toolName input) (assessment_of r) (room_for_one c)));;
  mret (classification_of r).

Definition classifyRisk (toolName : string) (input : Input) (workingDir : option string)
    (manifestOverride : option ManifestOverride) (signal : option nat) : Async RiskClassification :=
  lift (throwIfAborted signal);;
  let key := riskCacheKey toolName input workingDir manifestOverride in
  cached ← lift (cached_risk key);
  match cached with
  | Some r => mret r
  | None =>
      s ← lift (gets mm_surroundings);
      gatewayResult ← await_answer (R := Reply) (classify_risk (buildClassifyRiskParams s toolName input workingDir manifestOverride));
      match gatewayResult with
      | None =>
          lift (throw (error ("Gateway IPC classify_risk failed for tool " +:+ quoted toolName
                              +:+ " — gateway is unreachable or returned an invalid response")))
      | Some r => lift (store_risk toolName input key r)
      end
  end.

Definition getCachedAssessment (toolName : string) (input : Input) : Sync (option CachedAssessment) :=
  gets (λ m, jget (assessmentCacheKey toolName input) (mm_assessmentCache m)).

(** ** The options of a prompt *)

Definition generateAllowlistOptions (toolName : string) (input : Input) (signal : option nat) : Sync (list AllowlistOption) :=
  throwIfAborted signal;;
  cachedAssessment ← getCachedAssessment toolName input;
  s ← gets mm_surroundings;
  match a ← cachedAssessment; ca_allowlistOptions a with
  | Some (o :: l) => mret (o :: l)
  | _ => match allowlist_strategy s toolName input with Some l => mret l | None => throw (error "ERR_INVALID_ARG_TYPE") end
  end.

(** ** The decision *)

(** The match of a label, in any case, and [ risk] at the start: the label, capitalised,
    and the rest of the line. *)
Fixpoint line_of (s : string) : string :=
  match s with String c s' => if bool_decide (c = "010"%char ∨ c = "013"%char) then "" else String c (line_of s') | "" => "" end.
Definition risk_label (reason : string) : option (string * string) :=
  let starts l := startsWith (toLowerCase reason) (l +:+ " risk") in
  let found l cap := Some (cap, line_of (str_drop (String.length l + 5) reason)) in
  if starts "high" then found "high" "High" else if starts "medium" then found "medium" "Medium"
  else if starts "low" then found "low" "Low" else None.

Definition enrich_reason (riskReason : string) (d : ApprovalDecision) : string :=
  if truthy riskReason && is_null (de_matchedRule d) then
    match risk_label (de_reason d) with
    | Some (label, rest) => label +:+ " risk (" +:+ riskReason +:+ ")" +:+ rest
    | None => de_reason d
    end
  else de_reason d.

Definition SANDBOX_REASON : string := "Workspace filesystem operation (sandbox auto-approve)".

Definition approval_context (s : Surroundings) (tool : option Tool) (toolName : string) (input : Input) (workingDir : string)
    (policy : PolicyContext) (manifestOverride : option ManifestOverride) (c : RiskClassification) (threshold : RiskThreshold) :
    ApprovalContext :=
  mkApprovalContext (rk_level c) toolName None getIsContainerized
    (bool_decide (rk_level c = ApprovalPolicy.Low) && isWorkspaceScopedInvocation s toolName input workingDir)
    (Some (default in_conversation (pc_executionContext policy)))
    (ow_kind <$> getToolOwner s toolName)
    (Some (isToolOwnerSkillBundled s tool))
    (Some (negb (is_null manifestOverride)))
    (Some (default false (rk_sandboxAutoApprove c)))
    (Some (eqs toolName "skill_load"
           && match resolveSkillMetadata s (js_trim (getStringField input ["skill"])) with Some k => sk_isDynamic k | None => false end))
    (Some threshold).

(** A prompt is made on the threshold as it is now. *)
Definition decide_fresh (policy : PolicyContext) (x : ApprovalContext) (threshold : RiskThreshold) : Async ApprovalDecision :=
  let decision := evaluate x in
  if bool_decide (de_decision decision = prompt) then
    fresh ← awaited (refreshAutoApproveThreshold (pc_conversationId policy) (pc_executionContext policy));
    match fresh with
    | Some t => mret (if negb (bool_decide (t = threshold)) then evaluate (with_threshold t x) else decision)
    | None => mret decision
    end
  else mret decision.

Definition check (toolName : string) (input : Input) (workingDir : string) (policy : PolicyContext)
    (manifestOverride : option ManifestOverride) (signal : option nat) : Async PermissionCheckResult :=
  lift (throwIfAborted signal);;
  classification ← awaited (classifyRisk toolName input (Some workingDir) manifestOverride signal);
  tool ← lift (gets (λ m, getTool (mm_surroundings m) toolName));
  threshold ← awaited (getAutoApproveThreshold (pc_conversationId policy) (pc_executionContext policy));
  s ← lift (gets mm_surroundings);
  decision ← decide_fresh policy (approval_context s tool toolName input workingDir policy manifestOverride classification threshold) threshold;
  mret (mkCheckResult (de_decision decision) (enrich_reason (rk_reason classification) decision) (de_matchedRule decision)
    (eqs (de_reason decision) SANDBOX_REASON)).
End checker.
