(* ===== verification/CheckerProps.v ===== *)
(** * What the permission checker guarantees

    The caches hold answers of the gateway, each under the key of the call it was asked
    for; [classifyRisk] and [check] are verified against that and against the thresholds. *)
From S2P Require Import Prelude JsText RuntimeTypes RiskTypes ApprovalPolicy RiskHandlers Async Surroundings AllowlistOptions CheckerTypes Thresholds ThresholdProps Checker.

Section checker.
Context {env : Env} {asst : Assistant} {url : UrlApi}.
Local Abbreviation Hist := (History Reply).
Local Abbreviation Input := (list (string * json)).

(** ** The caches *)

(** The gateway's answer about a tool call, in the surroundings in which it was asked. *)
Definition answered (toolName : string) (input : Input) (workingDir : option string)
    (manifestOverride : option ManifestOverride) (h : Hist) (r : ClassificationResult) : Prop :=
  ∃ s i, mkReceived (R := Reply) i (classify_risk (buildClassifyRiskParams s toolName input workingDir manifestOverride)) (Some r) ∈ h.

(** ... or about one with the same key. *)
Definition classified (toolName : string) (input : Input) (workingDir : option string)
    (manifestOverride : option ManifestOverride) (h : Hist) (c : RiskClassification) : Prop :=
  ∃ toolName' input' workingDir' manifestOverride' r,
    riskCacheKey toolName' input' workingDir' manifestOverride' = riskCacheKey toolName input workingDir manifestOverride
    ∧ answered toolName' input' workingDir' manifestOverride' h r ∧ c = classification_of r.

Definition assessed (toolName : string) (input : Input) (h : Hist) (a : CachedAssessment) : Prop :=
  ∃ toolName' input' workingDir manifestOverride r,
    assessmentCacheKey toolName' input' = assessmentCacheKey toolName input
    ∧ answered toolName' input' workingDir manifestOverride h r ∧ a = assessment_of r.

Definition bounded {A} (m : jsmap string A) : Prop := Z.of_nat (length m) ≤ RISK_CACHE_MAX ∧ NoDup (jkeys m).

Record caches_ok (m : Mem) (h : Hist) : Prop := {
  co_risk : ∀ t i wd mo c, jget (riskCacheKey t i wd mo) (mm_riskCache m) = Some c → classified t i wd mo h c;
  co_assessment : ∀ t i a, jget (assessmentCacheKey t i) (mm_assessmentCache m) = Some a → assessed t i h a;
  co_bounds : bounded (mm_riskCache m) ∧ bounded (mm_assessmentCache m);
}.

Lemma answered_app t i wd mo h more r : answered t i wd mo h r → answered t i wd mo (h ++ more) r.
Proof. intros (s & n & H). exists s, n. apply elem_of_app. by left. Qed.
Lemma classified_app t i wd mo h more c : classified t i wd mo h c → classified t i wd mo (h ++ more) c.
Proof. intros (t' & i' & wd' & mo' & r & ? & ? & ?). exists t', i', wd', mo', r. split_and!; [done|by apply answered_app|done]. Qed.
Lemma assessed_app t i h more a : assessed t i h a → assessed t i (h ++ more) a.
Proof. intros (t' & i' & wd' & mo' & r & ? & ? & ?). exists t', i', wd', mo', r. split_and!; [done|by apply answered_app|done]. Qed.

Lemma caches_reader f m h : caches_ok m h → caches_ok (on_reader f m) h.
Proof. by intros [? ? ?]. Qed.
Lemma caches_app m h more : caches_ok m h → caches_ok m (h ++ more).
Proof. intros [H1 H2 H3]. split; [intros; by apply classified_app, H1|intros; by apply assessed_app, H2|done]. Qed.

(** ** Room in a cache *)

Section room.
Context {A : Type}.
Implicit Types (m : jsmap string A) (v : A).

Lemma room_for_one_get k v m : jget k (room_for_one m) = Some v → jget k m = Some v.
Proof.
  unfold room_for_one. destruct (_ <=? _); [|done]. destruct (jkeys m) as [|k' l]; [done|]. rewrite jget_jdel. by destruct (decide _).
Qed.
Lemma length_jset k v m : (length (jset k v m) ≤ S (length m))%nat.
Proof. induction m as [|[k' v'] m IH]; cbn; [lia|]. destruct (decide _); cbn; lia. Qed.
Lemma length_jdel k m : (length (jdel k m) ≤ length m)%nat.
Proof. induction m as [|[k' v'] m IH]; cbn; [lia|]. destruct (decide _); cbn; lia. Qed.
Lemma length_jdel_present k v m : jget k m = Some v → (length (jdel k m) < length m)%nat.
Proof.
  induction m as [|[k' v'] m IH]; cbn; [done|]. destruct (decide _).
  - intros _. pose proof (length_jdel k m). lia.
  - intros H%IH. cbn. lia.
Qed.

Lemma bounded_set k v m : bounded m → bounded (jset k v (room_for_one m)).
Proof.
  intros [Hl Hn]. unfold room_for_one, bounded in *. destruct (Z.leb_spec RISK_CACHE_MAX (Z.of_nat (length m))).
  - destruct m as [|[k' v'] m]; [cbn in *; unfold RISK_CACHE_MAX in *; lia|]. cbn [jkeys fmap list_fmap].
    pose proof (length_jset k v (jdel k' ((k', v') :: m))). assert (length (jdel k' ((k', v') :: m)) ≤ length m)%nat.
    { cbn. rewrite decide_True by done. apply length_jdel. }
    split; [cbn in *; lia|]. apply jkeys_jset_NoDup, jkeys_jdel_NoDup, Hn.
  - pose proof (length_jset k v m). split; [lia|]. by apply jkeys_jset_NoDup.
Qed.
Lemma bounded_refresh k v m : jget k m = Some v → bounded m → bounded (jset k v (jdel k m)).
Proof.
  intros Hk [Hl Hn]. pose proof (length_jset k v (jdel k m)). pose proof (length_jdel_present _ _ _ Hk).
  split; [lia|]. apply jkeys_jset_NoDup, jkeys_jdel_NoDup, Hn.
Qed.
Lemma bounded_nil : bounded ([] : jsmap string A).
Proof. split; [done|apply NoDup_nil_2]. Qed.
End room.

(** ** Classification *)

Local Abbreviation mem_ok := (ThresholdProps.mem_ok caches_ok).

(** A step that may change the caches but neither the clock nor the reader. *)
Lemma mem_ok_set (w : World Mem) h m : mem_ok w h → mm_reader m = mm_reader (w_st w) → caches_ok m h →
  mem_ok (mkWorld (w_clock w) (w_uuid w) m) h.
Proof. intros [Hr _] E Hc. split; [|done]. cbn. by rewrite E. Qed.

Lemma cached_risk_ok t i wd mo w h : mem_ok w h → ∃ o w',
  cached_risk (riskCacheKey t i wd mo) w = (inr o, w') ∧ w_clock w' = w_clock w ∧ mem_ok w' h
  ∧ ∀ c, o = Some c → classified t i wd mo h c.
Proof.
  intros Hw. unfold cached_risk. mrun. destruct (Hw) as [_ [Hrisk Hass [Hb Hb']]].
  destruct (jget _ (mm_riskCache (w_st w))) as [c|] eqn:E; cbn.
  - do 2 eexists. split_and!; [reflexivity|done| |by intros ? [= <-]; apply Hrisk].
    apply mem_ok_set; [done|done|]. split; cbn; [|exact Hass|by split; [eapply bounded_refresh|]].
    intros t' i' wd' mo' c'. rewrite jget_jset, jget_jdel. destruct (decide (_ = _)) as [Ek|]; [|apply Hrisk].
    intros [= <-]. destruct (Hrisk _ _ _ _ _ E) as (t2 & i2 & wd2 & mo2 & r & Ek2 & ?). exists t2, i2, wd2, mo2, r. by rewrite Ek2.
  - destruct w as [c0 u m]. do 2 eexists. split_and!; [reflexivity|done|exact Hw|by intros ? ?].
Qed.

Lemma store_risk_ok t i wd mo r w h : mem_ok w h → answered t i wd mo h r → ∃ w',
  store_risk t i (riskCacheKey t i wd mo) r w = (inr (classification_of r), w') ∧ w_clock w' = w_clock w ∧ mem_ok w' h.
Proof.
  intros Hw Hr. unfold store_risk. mrun. destruct (Hw) as [_ [Hrisk Hass [Hb Hb']]]. eexists. split_and!; [reflexivity|done|].
  apply mem_ok_set; [done|done|]. split; cbn; [| |by split; apply bounded_set].
  - intros t' i' wd' mo' c'. rewrite jget_jset. destruct (decide (_ = _)) as [Ek|]; [|by intros H%room_for_one_get; apply Hrisk].
    intros [= <-]. by exists t, i, wd, mo, r.
  - intros t' i' a'. rewrite jget_jset. destruct (decide (_ = _)) as [Ek|]; [|by intros H%room_for_one_get; apply Hass].
    intros [= <-]. by exists t, i, wd, mo, r.
Qed.

Definition abort_error : Thrown := error "This operation was aborted".

Lemma throwIfAborted_ok signal (w : World Mem) :
  throwIfAborted signal w = (inr tt, w) ∨ (signal ≠ None ∧ throwIfAborted signal w = (inl abort_error, w)).
Proof. unfold throwIfAborted. mrun. destruct signal; [|by left]. case_bool_decide; [by right|by left]. Qed.

(** What a call of [classifyRisk] ends with. *)
Definition risk_result (t : string) (i : Input) (wd : option string) (mo : option ManifestOverride) (signal : option nat)
    (h0 : Hist) (r : Thrown + RiskClassification) (h : Hist) : Prop :=
  match r with
  | inr c => classified t i wd mo h c
  | inl e => (e = abort_error ∧ signal ≠ None)
             ∨ (th_riskLevel e = None ∧ ∃ s, newly h0 h (classify_risk (buildClassifyRiskParams s t i wd mo)) None)
  end.

Lemma classifyRisk_ok t i wd mo signal w h : mem_ok w h →
  wp mem_ok (w_clock w) (classifyRisk t i wd mo signal w) h (λ r w' h', mem_ok w' h' ∧ risk_result t i wd mo signal h r h').
Proof.
  intros Hw. apply wp_bind, wp_lift.
  { destruct (throwIfAborted_ok signal w) as [-> | [_ ->]]; cbn; lia. }
  destruct (throwIfAborted_ok signal w) as [-> | [? ->]]; cbn [fst snd]; [|split; [done|by left]].
  destruct (cached_risk_ok t i wd mo w h Hw) as (o & w1 & E & Ec & Hw1 & Ho).
  apply wp_bind, wp_lift; rewrite E; cbn [fst snd]; [lia|]. destruct o as [c|]; [apply wp_ret; [lia|]; split; [done|by apply Ho]|].
  apply wp_bind, wp_lift; [done|]. cbn [fst snd gets]. apply wp_bind, wp_answer; [cbn; lia|done|]. intros a w2 h2 Hl Hw2.
  set (q := classify_risk _). assert (Hnew : newly h (h2 ++ [mkReceived (R := Reply) (w_clock w2) q a]) q a) by (eapply newly_last'; exact Hl).
  destruct a as [r|].
  - destruct (store_risk_ok t i wd mo r w2 (h2 ++ [mkReceived (R := Reply) (w_clock w2) q (Some r)])) as (w3 & E3 & Ec3 & Hw3).
    { by apply mem_ok_app; [apply caches_app|]. }
    { exists (mm_surroundings (w_st w1)), (w_clock w2). set_solver. }
    apply wp_lift; rewrite E3; cbn [fst snd]; [lia|]. split; [done|].
    exists t, i, wd, mo, r. split_and!; [done| |done]. exists (mm_surroundings (w_st w1)), (w_clock w2). set_solver.
  - apply wp_lift; cbn; [done|]. split; [by apply mem_ok_app; [apply caches_app|]|]. right. split; [done|]. by eexists.
Qed.

Lemma risk_result_stable t i wd mo signal h0 : stable (λ r _ h, risk_result t i wd mo signal h0 r h).
Proof.
  intros [e|c] w1 h1 w2 h2 Hl; cbn.
  - intros [?|[? [s H]]]; [by left|right; split; [done|]]. exists s. by eapply newly_grow.
  - destruct Hl as [_ [m ->]]. apply classified_app.
Qed.

(** ** The decision *)

(** The decision at the threshold that was read; a prompt is made, or not, at the
    threshold as it is now, where the gateway says. *)
Definition decided (policy : PolicyContext) (h0 : Hist) (x : ApprovalContext) (d : ApprovalDecision) (h : Hist) : Prop :=
  (de_decision (evaluate x) ≠ prompt ∧ d = evaluate x)
  ∨ (de_decision (evaluate x) = prompt ∧ ∃ o, refreshed_ok (pc_conversationId policy) (pc_executionContext policy) h0 o h
       ∧ d = match o with Some t => evaluate (with_threshold t x) | None => evaluate x end).

Definition check_result (toolName : string) (input : Input) (workingDir : string) (policy : PolicyContext)
    (mo : option ManifestOverride) (signal : option nat) (w0 : World Mem) (h0 : Hist)
    (r : Thrown + PermissionCheckResult) (w : World Mem) (h : Hist) : Prop :=
  match r with
  | inr k => ∃ c s tool t d, classified toolName input (Some workingDir) mo h c
      ∧ threshold_ok (pc_conversationId policy) (pc_executionContext policy) w0 h0 t w h
      ∧ decided policy h0 (approval_context s tool toolName input workingDir policy mo c t) d h
      ∧ k = mkCheckResult (de_decision d) (enrich_reason (rk_reason c) d) (de_matchedRule d) (eqs (de_reason d) SANDBOX_REASON)
  | inl e => risk_result toolName input (Some workingDir) mo signal h0 (inl e) h
  end.

Lemma with_same_threshold t x : ax_autoApproveUpTo x = Some t → with_threshold t x = x.
Proof. destruct x. cbn. by intros ->. Qed.

Lemma getAutoApproveThreshold_await cid ectx w h : mem_ok w h →
  wp mem_ok (w_clock w) (awaited (getAutoApproveThreshold cid ectx) w) h
    (λ r w' h', later w h w' h' ∧ mem_ok w' h' ∧ ∃ t, r = inr t ∧ threshold_ok cid ectx w h t w' h').
Proof.
  intros Hw. apply wp_await; [apply caches_app| |by apply getAutoApproveThreshold_ok; [apply caches_reader|apply caches_app|]].
  intros r w1 h1 w2 h2 Hl (t & -> & Ht). exists t. split; [done|]. by eapply threshold_ok_grow.
Qed.
Lemma refreshAutoApproveThreshold_await cid ectx w h : mem_ok w h →
  wp mem_ok (w_clock w) (awaited (refreshAutoApproveThreshold cid ectx) w) h
    (λ r w' h', later w h w' h' ∧ mem_ok w' h' ∧ ∃ o, r = inr o ∧ refreshed_ok cid ectx h o h').
Proof.
  intros Hw. apply (wp_await caches_ok caches_app _ _ _ (λ r _ h', ∃ o, r = inr o ∧ refreshed_ok cid ectx h o h'));
    [|by apply refreshAutoApproveThreshold_ok; [apply caches_reader|apply caches_app|]].
  intros r w1 h1 w2 h2 Hl (o & -> & Ho). exists o. split; [done|]. by eapply refreshed_ok_grow.
Qed.
Lemma classifyRisk_await t i wd mo signal w h : mem_ok w h →
  wp mem_ok (w_clock w) (awaited (classifyRisk t i wd mo signal) w) h
    (λ r w' h', later w h w' h' ∧ mem_ok w' h' ∧ risk_result t i wd mo signal h r h').
Proof.
  intros Hw. apply (wp_await caches_ok caches_app _ _ _ (λ r _ h', risk_result t i wd mo signal h r h')); [apply risk_result_stable|].
  by apply classifyRisk_ok.
Qed.

Lemma decide_fresh_ok policy x t w h : ax_autoApproveUpTo x = Some t → mem_ok w h →
  wp mem_ok (w_clock w) (decide_fresh policy x t w) h
    (λ r w' h', later w h w' h' ∧ mem_ok w' h' ∧ ∃ d, r = inr d ∧ decided policy h x d h').
Proof.
  intros Hx Hw. unfold decide_fresh, decided. cbv zeta. case_bool_decide as Hd.
  - apply wp_bind. eapply wp_mono; [|apply refreshAutoApproveThreshold_await, Hw].
    intros r w1 h1 (Hl & Hw1 & o & -> & Ho). destruct o as [t'|]; (apply wp_ret; [lia|]); (split_and!; [done..|]); eexists; (split; [done|]);
      right; (split; [done|]).
    + exists (Some t'). split; [done|]. case_bool_decide as Ht; [|done]. subst t'. by rewrite with_same_threshold.
    + by exists None.
  - apply wp_ret; [lia|]. split_and!; [apply later_refl|done|]. eexists. split; [done|]. by left.
Qed.

Lemma decided_earlier policy (w0 w1 w : World Mem) h0 h1 x d h :
  later w0 h0 w1 h1 → later w1 h1 w h → decided policy h1 x d h → decided policy h0 x d h.
Proof. intros H0 H1 [H|(Hp & o & Ho & ->)]; [by left|right; split; [done|]]. exists o. split; [|done]. by eapply (refreshed_ok_earlier _ _ w0 w1 w). Qed.

Lemma check_ok toolName input workingDir policy mo signal w h : mem_ok w h →
  wp mem_ok (w_clock w) (check toolName input workingDir policy mo signal w) h
    (λ r w' h', mem_ok w' h' ∧ check_result toolName input workingDir policy mo signal w h r w' h').
Proof.
  intros Hw. apply wp_bind, wp_lift.
  { destruct (throwIfAborted_ok signal w) as [-> | [_ ->]]; cbn; lia. }
  destruct (throwIfAborted_ok signal w) as [-> | [? ->]]; cbn [fst snd]; [|split; [done|by left]].
  apply wp_bind. eapply wp_mono; [|apply classifyRisk_await, Hw]. intros [e|c] w1 h1 (Hl1 & Hw1 & Hc); [by split|].
  apply wp_bind, wp_lift; [done|]. cbn [fst snd gets]. apply wp_bind. eapply wp_mono; [|apply getAutoApproveThreshold_await, Hw1].
  intros r w2 h2 (Hl2 & Hw2 & t & -> & Ht). apply wp_bind, wp_lift; [done|]. cbn [fst snd gets]. apply wp_bind.
  eapply wp_mono; [|apply decide_fresh_ok, Hw2; reflexivity]. intros r w3 h3 (Hl3 & Hw3 & d & -> & Hd).
  apply wp_ret; [lia|]. split; [done|]. do 5 eexists. split_and!; [| |exact (decided_earlier _ w w2 w3 _ _ _ _ _ (later_trans _ _ _ _ _ _ Hl1 Hl2) Hl3 Hd)|reflexivity].
  - destruct (later_trans _ _ _ _ _ _ Hl2 Hl3) as [_ [m ->]]. by apply classified_app.
  - eapply threshold_ok_earlier; [exact Hl1|by eapply later_trans|]. by eapply threshold_ok_grow.
Qed.

Lemma classified_grow t i wd mo c (w1 w2 : World Mem) h1 h2 : later w1 h1 w2 h2 → classified t i wd mo h1 c → classified t i wd mo h2 c.
Proof. intros [_ [m ->]]. apply classified_app. Qed.

Lemma check_result_stable t i wd policy mo signal w0 h0 : stable (check_result t i wd policy mo signal w0 h0).
Proof.
  intros [e|k] w1 h1 w2 h2 Hl; [exact (risk_result_stable t i (Some wd) mo signal h0 (inl e) w1 h1 w2 h2 Hl)|]. intros (c & s & tool & th & d & Hc & Ht & Hd & ->).
  exists c, s, tool, th, d. split_and!; [by eapply classified_grow|by eapply threshold_ok_grow| |done].
  destruct Hd as [?|(? & o & ? & ?)]; [by left|right; split; [done|]]. exists o. split; [by eapply refreshed_ok_grow|done].
Qed.
Lemma check_result_earlier t i wd policy mo signal w0 h0 w1 h1 k w h :
  later w0 h0 w1 h1 → later w1 h1 w h → check_result t i wd policy mo signal w1 h1 (inr k) w h →
  check_result t i wd policy mo signal w0 h0 (inr k) w h.
Proof.
  intros H0 H1 (c & s & tool & th & d & Hc & Ht & Hd & ->). exists c, s, tool, th, d.
  split_and!; [done|by eapply threshold_ok_earlier|by eapply (decided_earlier _ w0 w1 w)|done].
Qed.

Lemma check_await t i wd policy mo signal w h : mem_ok w h →
  wp mem_ok (w_clock w) (awaited (check t i wd policy mo signal) w) h
    (λ r w' h', later w h w' h' ∧ mem_ok w' h' ∧ check_result t i wd policy mo signal w h r w' h').
Proof. intros Hw. apply (wp_await caches_ok caches_app); [apply check_result_stable|by apply check_ok]. Qed.
End checker.
