(* ===== verification/CacheKeys.v ===== *)
(** * The keys of the classification caches

    A key is a hash of texts separated by NUL.  JSON text has no NUL, so that calls with
    the same key are the same call up to their status text, if SHA-256 has no collisions. *)
From stdpp Require Import pretty.
From S2P Require Import Prelude JsText ScopeKeys RuntimeTypes Surroundings Checker.

(** What the code relies on of SHA-256: no collisions, and a digest in hexadecimal. *)
Class Sha256Ok (asst : Assistant) : Prop := {
  sha256_inj : Inj (=) (=) sha256;
  sha256_no_nul : ∀ text, has_char "000" (sha256 text) = false;
}.

Local Abbreviation no_nul s := (has_char "000" s = false).

Lemma no_nul_app s t : no_nul (s +:+ t) ↔ no_nul s ∧ no_nul t.
Proof. by rewrite has_char_app, orb_false_iff. Qed.

Lemma pretty_no_nul n : no_nul (pretty (n : Z)).
Proof.
  assert (HN : ∀ (x : N) s, no_nul s → no_nul (pretty_N_go x s)).
  { intros x. induction (N.lt_wf_0 x) as [x _ IH]. intros s Hs. destruct (decide (0 < x)%N) as [Hx|Hx].
    - rewrite pretty_N_go_step by done. apply IH; [apply N.div_lt; lia|]. cbn. rewrite Hs, orb_false_r.
      apply bool_decide_eq_false. unfold pretty_N_char. by repeat case_match.
    - by assert (x = 0%N) as -> by lia. }
  assert (HN' : ∀ x : N, no_nul (pretty x)).
  { intros x. unfold pretty, pretty_N. destruct (decide _); [done|by apply HN]. }
  destruct n as [|p|p]; [done|apply (HN' (N.pos p))|]. cbn. apply (HN' (N.pos p)).
Qed.

Lemma json_quote_no_nul s : no_nul (json_quote s).
Proof.
  unfold json_quote. cbn [has_char]. rewrite bool_decide_false by done. cbn [orb]. apply no_nul_app. split; [|done].
  induction s as [|c s IH]; [done|]. cbn [json_body]. apply no_nul_app. split; [|done].
  destruct c as [[] [] [] [] [] [] [] []]; reflexivity.
Qed.

Lemma json_no_nul : ∀ v, no_nul (json_stringify v).
Proof.
  fix IH 1. intros [|b|n|s|l|l].
  - reflexivity.
  - destruct b; reflexivity.
  - apply pretty_no_nul.
  - apply json_quote_no_nul.
  - cbn [json_stringify]. apply no_nul_app. split; [reflexivity|].
    match goal with |- has_char _ (?f true l) = _ => cut (∀ first, no_nul (f first l)); [by intros H|] end.
    induction l as [|v l IHl]; intros first; [reflexivity|].
    apply no_nul_app. split; [destruct first; reflexivity|]. apply no_nul_app. split; [apply IH|apply IHl].
  - cbn [json_stringify]. apply no_nul_app. split; [reflexivity|].
    match goal with |- has_char _ (?f true l) = _ => cut (∀ first, no_nul (f first l)); [by intros H|] end.
    induction l as [|[k v] l IHl]; intros first; [reflexivity|].
    apply no_nul_app. split; [destruct first; reflexivity|]. apply no_nul_app. split; [apply json_quote_no_nul|].
    apply no_nul_app. split; [reflexivity|]. apply no_nul_app. split; [apply IH|apply IHl].
Qed.

(** Text up to the first separator. *)
Lemma first_sep c a b x y : has_char c a = false → has_char c b = false → a +:+ String c x = b +:+ String c y → a = b ∧ x = y.
Proof.
  revert b. induction a as [|d a IH]; intros [|e b] Ha Hb E.
  - by injection E.
  - injection E as <- _. cbn in Hb. by rewrite bool_decide_true in Hb.
  - injection E as -> _. cbn in Ha. by rewrite bool_decide_true in Ha.
  - injection E as <- E. cbn in Ha, Hb. apply orb_false_iff in Ha as [_ Ha], Hb as [_ Hb]. by destruct (IH b Ha Hb E) as [-> ->].
Qed.

Lemma last_nul a b x y : no_nul x → no_nul y → a +:+ String "000" x = b +:+ String "000" y → a = b ∧ x = y.
Proof.
  intros Hx Hy. revert b. induction a as [|c a IH]; intros [|d b] E.
  - by injection E.
  - injection E as _ ->. apply no_nul_app in Hx as [_ Hx]. done.
  - injection E as _ <-. apply no_nul_app in Hy as [_ Hy]. done.
  - injection E as <- E. by destruct (IH b E) as [-> ->].
Qed.

Lemma json_prefix_inj c a b r1 r2 : String c (json_quote a +:+ r1) = String c (json_quote b +:+ r2) → a = b ∧ r1 = r2.
Proof. intros E%json_tail_inj. by apply json_quote_inj in E. Qed.

Lemma manifest_text_inj o o' : json_stringify (manifest_json o) = json_stringify (manifest_json o') → o = o'.
Proof.
  destruct o as [r t], o' as [r' t']. intros E.
  assert (H : ∀ r t, json_stringify (manifest_json (mkManifest r t)) =
    String "{" (json_quote "risk" +:+ (":" +:+ (json_quote (manifest_risk_name r) +:+ ("," +:+ (json_quote "execution_target" +:+ (":" +:+ (json_quote t +:+ "}")))))))) by done.
  rewrite !H in E. apply json_prefix_inj in E as [_ E]. apply json_prefix_inj in E as [Er E].
  apply json_prefix_inj in E as [_ E]. apply json_prefix_inj in E as [-> _].
  f_equal. by destruct r, r'.
Qed.

Section keys.
Context {asst : Assistant} `{!Sha256Ok asst}.
Local Abbreviation Input := (list (string * json)).

(** The text of an input, without its status text. *)
Definition input_text (input : Input) : string := json_stringify (JObj (cacheableInput input)).

Lemma risk_key_inj t t' (i i' : Input) wd wd' mo mo' : riskCacheKey t i wd mo = riskCacheKey t' i' wd' mo' →
  t = t' ∧ input_text i = input_text i' ∧ default "" wd = default "" wd' ∧ mo = mo'.
Proof.
  intros E. change (t +:+ String "000" (sha256 (risk_key_text i wd mo)) = t' +:+ String "000" (sha256 (risk_key_text i' wd' mo'))) in E.
  apply last_nul in E as [-> E]; [|apply sha256_no_nul..]. apply sha256_inj in E. split; [done|].
  change (input_text i +:+ String "000" (default "" wd +:+ String "000" (match mo with Some o => json_stringify (manifest_json o) | None => "" end))
    = input_text i' +:+ String "000" (default "" wd' +:+ String "000" (match mo' with Some o => json_stringify (manifest_json o) | None => "" end))) in E.
  apply first_sep in E as [Ei E]; [|apply json_no_nul..]. apply last_nul in E as [Ewd E]; [|destruct mo; [apply json_no_nul|done]|destruct mo'; [apply json_no_nul|done]].
  split_and!; [done|done|]. destruct mo, mo'; [|done|done|done]. f_equal. by apply manifest_text_inj.
Qed.

Lemma assessment_key_inj t t' (i i' : Input) : assessmentCacheKey t i = assessmentCacheKey t' i' → t = t' ∧ input_text i = input_text i'.
Proof.
  intros E. change (t +:+ String "000" (sha256 (input_text i)) = t' +:+ String "000" (sha256 (input_text i'))) in E.
  apply last_nul in E as [-> E]; [|apply sha256_no_nul..]. by apply sha256_inj in E.
Qed.
End keys.
