(* ===== verification/PermissionChecker.v ===== *)
(** * Permission for a tool call

    [checkPermission] of src/assistant/src/tools/permission-checker.ts, with the policy
    context (tools/policy-context.ts), the tools with side effects
    (tools/side-effects.ts) and the provenance of a decision
    (permissions/approval-provenance.ts). *)
From S2P Require Import Prelude RuntimeTypes RiskTypes ApprovalPolicy Async Surroundings AllowlistOptions CheckerTypes Thresholds Checker.

Inductive TrustClass := trust_guardian | trust_trusted_contact | trust_unknown.
#[export] Instance TrustClass_eq_dec : EqDecision TrustClass.
Proof. solve_decision. Defined.

(** The fields of [ToolContext] that permission depends on; an absent flag is false,
    except that [isInteractive] is tested against [false]. *)
Record ToolContext := mkToolContext {
  tc_workingDir : string;
  tc_conversationId : string;
  tc_signal : option nat;
  tc_isInteractive : option bool;
  tc_forcePromptSideEffects : bool;
  tc_requireFreshApproval : bool;
  tc_trustClass : TrustClass;
  tc_isPlatformHosted : bool;
}.

Inductive ApprovalMode := mode_prompted | mode_auto | mode_blocked | mode_unknown.
Inductive ApprovalReason :=
  | user_approved | user_denied | timed_out | within_threshold | trust_rule_allowed | trust_rule_denied
  | sandbox_auto_approve | platform_auto_approve | no_interactive_client | system_cancelled | reason_unknown.

Record ProvenanceOpts := mkProvenance {
  pr_hasSandboxAutoApprove : bool;
  pr_matchedTrustRuleId : option string;
  pr_wasPrompted : bool;
  pr_wasTimeout : bool;
  pr_wasSystemCancel : bool;
  pr_wasAbort : bool;
}.
Definition no_opts : ProvenanceOpts := mkProvenance false None false false false false.

Definition mapApprovalProvenance (decision : string) (opts : ProvenanceOpts) : ApprovalMode * ApprovalReason :=
  if eqs decision "platform_auto_approve" then (mode_auto, platform_auto_approve)
  else if eqs decision "guardian_auto_approve" then (mode_auto, within_threshold)
  else if eqs decision "allow" then
    if pr_wasPrompted opts then (mode_prompted, user_approved)
    else if pr_hasSandboxAutoApprove opts then (mode_auto, sandbox_auto_approve)
    else if truthy_opt (pr_matchedTrustRuleId opts) then (mode_auto, trust_rule_allowed)
    else (mode_auto, within_threshold)
  else if eqs decision "deny" then
    if pr_wasSystemCancel opts then (mode_prompted, system_cancelled)
    else if pr_wasAbort opts then (mode_prompted, system_cancelled)
    else if pr_wasTimeout opts then (mode_prompted, timed_out)
    else (mode_prompted, user_denied)
  else if eqs decision "denied" then
    if truthy_opt (pr_matchedTrustRuleId opts) then (mode_blocked, trust_rule_denied) else (mode_blocked, no_interactive_client)
  else (mode_unknown, reason_unknown).

Definition SIDE_EFFECT_TOOLS : list string :=
  ["file_write"; "file_edit"; "host_file_write"; "host_file_edit"; "bash"; "host_bash"; "web_fetch"; "document_create";
   "document_update"; "document_delete"; "schedule_create"; "schedule_update"; "schedule_delete"; "manage_secure_command_tool"].
Definition isSideEffectTool (toolName : string) (input : list (string * json)) : bool :=
  member toolName SIDE_EFFECT_TOOLS
  || (eqs toolName "credential_store"
      && match field "action" input with Some (JStr a) => member a ["store"; "delete"; "prompt"] | _ => false end).

(** The fields of the assessment that go with a decision. *)
Record RiskMeta := mkRiskMeta {
  rm_riskLevel : string;
  rm_riskReason : string;
  rm_riskScopeOptions : list ScopeOption;
  rm_riskAllowlistOptions : option (list AllowlistOption);
  rm_riskDirectoryScopeOptions : option (list DirectoryScopeOption);
  rm_isContainerized : bool;
}.

Record PermissionDecision := mkPermission {
  pd_allowed : bool;
  pd_decision : string;
  pd_riskLevel : RiskLevel;
  pd_content : option string;
  pd_wasPrompted : bool;
  pd_matchedTrustRuleId : option string;
  pd_riskMeta : option RiskMeta;
  pd_provenance : ApprovalMode * ApprovalReason;
  pd_riskThreshold : RiskThreshold;
}.

Section permission.
Context {env : Env} {asst : Assistant} {url : UrlApi}.
Local Abbreviation Input := (list (string * json)).

Definition non_interactive_session (context : ToolContext) : bool := bool_decide (tc_isInteractive context = Some false).

Definition deriveExecutionContext (context : ToolContext) : ExecutionContext :=
  if non_interactive_session context && bool_decide (tc_trustClass context = trust_guardian) then in_background
  else if non_interactive_session context then in_headless
  else in_conversation.

Definition buildPolicyContext (s : Surroundings) (tool : Tool) (context : ToolContext) : PolicyContext :=
  let target :=
    match ow_kind <$> getToolOwner s (tl_name tool) with
    | Some owner_skill | Some owner_plugin => tl_executionTarget tool
    | _ => None
    end in
  mkPolicyContext target (Some (deriveExecutionContext context)) (Some (tc_conversationId context)).

Definition risk_meta (a : CachedAssessment) : RiskMeta :=
  mkRiskMeta (ca_riskLevel a) (ca_reason a) (ca_scopeOptions a) (ca_allowlistOptions a) (ca_directoryScopeOptions a) getIsContainerized.

(** The promotions of an allowed call to a prompt. *)
Definition promote (name : string) (input : Input) (context : ToolContext) (r : PermissionCheckResult) : Decision3 * string :=
  let '(d, reason) :=
    if tc_forcePromptSideEffects context && bool_decide (pk_decision r = allow) && isSideEffectTool name input
    then (prompt, "Side-effect tool requires explicit approval") else (pk_decision r, pk_reason r) in
  if tc_requireFreshApproval context && bool_decide (d = allow)
  then (prompt, "Fresh approval required: per-invocation human review enforced") else (d, reason).

Definition NO_CLIENT_REASON : string := "Non-interactive session: no client to approve prompt".
Definition no_client_message (name : string) : string :=
  "Permission denied: tool " +:+ quoted name +:+ " requires user approval but no interactive client is connected. The tool was not executed. To allow this tool in non-interactive sessions, add a trust rule via permission settings.".
Definition denied_message (name : string) : string :=
  "Permission denied. The " +:+ quoted name +:+ " tool was not allowed. Do NOT retry this tool call immediately. Instead, explain that the action was not performed because permission was denied, and ask whether to try again or take a different approach. Wait for an explicit response before retrying.".

(** [emitLifecycleEvent] of a denial, with the time it took. *)
Definition emit_denied (name : string) (risk : RiskLevel) (reason : string) (startTime : Z) : Sync unit :=
  t ← now; modify (emit (permission_denied name risk reason (t - startTime))).

Section call.
Context (name : string) (input : Input) (tool : Tool) (context : ToolContext) (startTime : Z).
Context (computePreviewDiff : string → Input → string → Thrown + option PreviewDiff).

(** The prompt, and what comes of it. *)
Definition prompt_user (risk : RiskLevel) (reason : string) (cachedAssessment : option CachedAssessment)
    (ruleId : option string) (threshold : RiskThreshold) : Async PermissionDecision :=
  let meta := risk_meta <$> cachedAssessment in
  diff ← lift (match computePreviewDiff name input (tc_workingDir context) with inl e => throw e | inr d => mret d end);
  allowlist ← awaited (lift (generateAllowlistOptions name input (tc_signal context)));
  let options := mkPromptOptions allowlist (generateScopeOptions (tc_workingDir context) name) (negb (tc_requireFreshApproval context)) in
  lift (modify (emit (permission_prompt name risk reason options diff)));;
  answer ← await_answer (R := Reply) (confirm name input risk options diff (cachedAssessment ≫= ca_directoryScopeOptions));
  match answer with
  | inl e => lift (throw e)
  | inr response =>
      match cf_decision response with
      | user_deny =>
          let contextualDenial := js_trim (default "" (cf_decisionContext response)) in
          lift (emit_denied name risk
            (if truthy contextualDenial then "Permission denied (" +:+ name +:+ "): contextual policy" else "Permission denied by user")
            startTime);;
          mret (mkPermission false "deny" risk
            (Some (if truthy contextualDenial then contextualDenial else denied_message name)) false ruleId meta
            (mapApprovalProvenance "deny"
              (mkProvenance false None false (cf_wasTimeout response) (cf_wasSystemCancel response) (cf_wasAbort response)))
            threshold)
      | user_allow =>
          mret (mkPermission true "allow" risk None true ruleId meta
            (mapApprovalProvenance "allow" (mkProvenance false None true false false false)) threshold)
      end
  end.

Definition guardian (context : ToolContext) : bool := bool_decide (tc_trustClass context = trust_guardian).

(** A call that is to be put before the user. *)
Definition without_client (risk : RiskLevel) (meta : option RiskMeta) (ruleId : option string) (threshold : RiskThreshold) :
    Async (option PermissionDecision) :=
  if negb (non_interactive_session context) then mret None else
  bg ← (if guardian context && negb (tc_requireFreshApproval context)
        then t ← awaited (getAutoApproveThreshold (Some (tc_conversationId context)) (Some in_background)); mret (Some t)
        else mret None);
  match bg with
  | Some t =>
      if isRiskWithinThreshold risk (Some t) then
        mret (Some (mkPermission true "guardian_auto_approve" risk None false ruleId meta
          (mapApprovalProvenance "guardian_auto_approve" no_opts) t))
      else
        lift (emit_denied name risk NO_CLIENT_REASON startTime);;
        mret (Some (mkPermission false "denied" risk (Some (no_client_message name)) false ruleId meta
          (mapApprovalProvenance "denied" no_opts) threshold))
  | None =>
      lift (emit_denied name risk NO_CLIENT_REASON startTime);;
      mret (Some (mkPermission false "denied" risk (Some (no_client_message name)) false ruleId meta
        (mapApprovalProvenance "denied" no_opts) threshold))
  end.

(** The part inside [try]. *)
Definition evaluate_permission (risk : RiskLevel) (cachedAssessment : option CachedAssessment) : Async PermissionDecision :=
  let meta := risk_meta <$> cachedAssessment in
  s ← lift (gets mm_surroundings);
  let policy := buildPolicyContext s tool context in
  result ← awaited (check name input (tc_workingDir context) policy None (tc_signal context));
  let ruleId := tr_id <$> pk_matchedRule result in
  threshold ← awaited (getAutoApproveThreshold (pc_conversationId policy) (pc_executionContext policy));
  let '(decision, reason) := promote name input context result in
  match decision with
  | deny =>
      lift (emit_denied name risk reason startTime);;
      mret (mkPermission false "denied" risk (Some reason) false ruleId meta
        (mapApprovalProvenance "denied" (mkProvenance false ruleId false false false false)) threshold)
  | prompt =>
      if tc_isPlatformHosted context && eqs name "bash" && guardian context && negb (tc_requireFreshApproval context) then
        mret (mkPermission true "platform_auto_approve" risk None false ruleId meta
          (mapApprovalProvenance "platform_auto_approve" no_opts) threshold)
      else
        early ← without_client risk meta ruleId threshold;
        match early with
        | Some d => mret d
        | None => prompt_user risk reason cachedAssessment ruleId threshold
        end
  | allow =>
      mret (mkPermission true "allow" risk None false ruleId meta
        (mapApprovalProvenance "allow" (mkProvenance (pk_hasSandboxAutoApprove result) ruleId false false false false)) threshold)
  end.

Definition checkPermission : Async PermissionDecision :=
  classification ← awaited (classifyRisk name input (Some (tc_workingDir context)) None (tc_signal context));
  cachedAssessment ← lift (getCachedAssessment name input);
  let risk := rk_level classification in
  try_catch (evaluate_permission risk cachedAssessment) (λ e, lift (throw (mkThrown (th_message e) (Some risk)))).
End call.
End permission.
