(* ===== verification/PermissionProps.v ===== *)
(** * What a permission guarantees

    [checkPermission] is verified against what [check] decides, the threshold of
    unattended sessions and the user's answer. *)
From S2P Require Import Prelude RuntimeTypes RiskTypes ApprovalPolicy RiskHandlers Async Surroundings AllowlistOptions CheckerTypes Thresholds ThresholdProps Checker CheckerProps PermissionChecker.

Section permission.
Context {env : Env} {asst : Assistant} {url : UrlApi}.
Local Abbreviation Hist := (History Reply).
Local Abbreviation Input := (list (string * json)).
Local Abbreviation mem_ok := (ThresholdProps.mem_ok caches_ok).

Section call.
Context (name : string) (input : Input) (tool : Tool) (context : ToolContext) (startTime : Z).
Context (computePreviewDiff : string → Input → string → Thrown + option PreviewDiff).

(** ** Outcomes *)

(** The user was asked since, and answered. *)
Definition user_answered (risk : RiskLevel) (h0 : Hist) (decision : UserDecision) (h : Hist) : Prop :=
  ∃ options diff dirs response,
    newly h0 h (confirm name input risk options diff dirs) (inr response) ∧ cf_decision response = decision
    ∧ po_persistentDecisionsAllowed options = negb (tc_requireFreshApproval context).

(** A session without a client, whose background threshold is [t]. *)
Definition background_threshold (w0 : World Mem) (h0 : Hist) (t : RiskThreshold) (w : World Mem) (h : Hist) : Prop :=
  threshold_ok (Some (tc_conversationId context)) (Some in_background) w0 h0 t w h.

(** What a call that is to be put before the user may end with. *)
Inductive prompt_outcome (risk : RiskLevel) (w0 : World Mem) (h0 : Hist) (d : PermissionDecision) (w : World Mem) (h : Hist) : Prop :=
  | by_platform : tc_isPlatformHosted context = true → name = "bash" → tc_trustClass context = trust_guardian →
      tc_requireFreshApproval context = false →
      pd_allowed d = true → pd_provenance d = (mode_auto, platform_auto_approve) → prompt_outcome risk w0 h0 d w h
  | by_background t : tc_isInteractive context = Some false → tc_trustClass context = trust_guardian →
      tc_requireFreshApproval context = false → background_threshold w0 h0 t w h → isRiskWithinThreshold risk (Some t) = true →
      pd_allowed d = true → pd_provenance d = (mode_auto, within_threshold) → prompt_outcome risk w0 h0 d w h
  | no_client : tc_isInteractive context = Some false →
      (tc_trustClass context ≠ trust_guardian ∨ tc_requireFreshApproval context = true
       ∨ ∃ t, background_threshold w0 h0 t w h ∧ isRiskWithinThreshold risk (Some t) = false) →
      pd_allowed d = false → pd_provenance d = (mode_blocked, no_interactive_client) → prompt_outcome risk w0 h0 d w h
  | by_user decision : tc_isInteractive context ≠ Some false → user_answered risk h0 decision h →
      pd_allowed d = bool_decide (decision = user_allow) → (pd_provenance d).1 = mode_prompted → prompt_outcome risk w0 h0 d w h.

Definition permission_outcome (w0 : World Mem) (h0 : Hist) (d : PermissionDecision) (w : World Mem) (h : Hist) : Prop :=
  ∃ c s k,
    classified name input (Some (tc_workingDir context)) None h c ∧ pd_riskLevel d = rk_level c
    ∧ check_result name input (tc_workingDir context) (buildPolicyContext s tool context) None (tc_signal context) w0 h0 (inr k) w h
    ∧ match (promote name input context k).1 with
      | allow => pd_allowed d = true ∧ (pd_provenance d).1 = mode_auto
      | deny => pd_allowed d = false
      | prompt => prompt_outcome (rk_level c) w0 h0 d w h
      end.

(** An error comes from classifying, or it has the risk attached. *)
Definition permission_error (h0 : Hist) (e : Thrown) (h : Hist) : Prop :=
  risk_result name input (Some (tc_workingDir context)) None (tc_signal context) h0 (inl e) h
  ∨ ∃ c, classified name input (Some (tc_workingDir context)) None h c ∧ th_riskLevel e = Some (rk_level c).

(** ** Growth *)

Lemma user_answered_earlier risk (w0 w1 w : World Mem) h0 h1 decision h :
  later w0 h0 w1 h1 → later w1 h1 w h → user_answered risk h1 decision h → user_answered risk h0 decision h.
Proof.
  intros H0 H1 (o & d & ds & r & Hn & ?). exists o, d, ds, r. split; [|done]. eapply newly_later; eauto using later_refl.
Qed.

Lemma prompt_outcome_earlier risk w0 w1 w h0 h1 d h :
  later w0 h0 w1 h1 → later w1 h1 w h → prompt_outcome risk w1 h1 d w h → prompt_outcome risk w0 h0 d w h.
Proof.
  intros H0 H1. assert (Hb : ∀ t, background_threshold w1 h1 t w h → background_threshold w0 h0 t w h)
    by (intros; by eapply threshold_ok_earlier).
  intros [?|t|? Hr|decision]; [by apply by_platform|by apply (by_background _ _ _ _ _ _ t); auto|apply no_client; try done; naive_solver|].
  apply (by_user _ _ _ _ _ _ decision); try done. by eapply user_answered_earlier.
Qed.

(** ** Steps that only report *)

Lemma emit_ok e (w : World Mem) h : mem_ok w h → mem_ok (mkWorld (w_clock w) (w_uuid w) (emit e (w_st w))) h.
Proof. intros Hw. apply mem_ok_set; [done|done|]. by destruct Hw as [_ [? ? ?]]. Qed.

Lemma wp_emit_denied {A} risk reason (f : Async A) w h Φ :
  mem_ok w h →
  (∀ w', (w_clock w ≤ w_clock w')%nat → mem_ok w' h → wp mem_ok (w_clock w') (f w') h Φ) →
  wp mem_ok (w_clock w) ((lift (emit_denied name risk reason startTime);; f) w) h Φ.
Proof.
  intros Hw Hf. destruct w as [c u m]. apply wp_bind, wp_lift; unfold emit_denied; mrun; [lia|]. apply (Hf (mkWorld (S c) u _)); [cbn; lia|].
  apply (emit_ok _ (mkWorld (S c) u m)). by eapply mem_ok_ticked; [|exact Hw]; lia.
Qed.

Lemma generateAllowlistOptions_same signal (w : World Mem) : (generateAllowlistOptions name input signal w).2 = w.
Proof.
  unfold generateAllowlistOptions, mbind, M_bind. destruct (throwIfAborted_ok signal w) as [-> | [_ ->]]; [|done].
  unfold getCachedAssessment, gets. repeat case_match; simplify_eq; done.
Qed.

(** ** The prompt *)

Lemma prompt_user_ok risk reason ca ruleId t w h : mem_ok w h →
  wp mem_ok (w_clock w) (prompt_user name input context startTime computePreviewDiff risk reason ca ruleId t w) h
    (λ r w' h', mem_ok w' h' ∧ ∀ d, r = inr d → pd_riskLevel d = risk ∧ ∃ decision, user_answered risk h decision h'
       ∧ pd_allowed d = bool_decide (decision = user_allow) ∧ (pd_provenance d).1 = mode_prompted).
Proof.
  intros Hw. apply wp_bind, wp_lift; destruct (computePreviewDiff _ _ _) as [e|diff]; cbn; try done.
  apply wp_bind. eapply wp_mono; [|apply (wp_await caches_ok caches_app _ _ _ (λ _ _ _, True)); [done|]].
  2: { apply wp_lift; rewrite generateAllowlistOptions_same; done. }
  intros [e|allowlist] w1 h1 (Hl1 & Hw1 & _); [done|]. apply wp_bind, wp_lift; cbn; [done|]. apply wp_bind, wp_answer; [done|by apply emit_ok|].
  intros answer w2 h2 Hl2 Hw2. set (options := mkPromptOptions _ _ _) in *. set (q := confirm _ _ _ _ _ _) in *.
  assert (Hnew : newly h (h2 ++ [mkReceived (R := Reply) (w_clock w2) q answer]) q answer).
  { eapply newly_last', later_trans; [exact Hl1|exact Hl2]. }
  assert (Hw3 : mem_ok w2 (h2 ++ [mkReceived (R := Reply) (w_clock w2) q answer])) by (apply mem_ok_app; [apply caches_app|done]).
  destruct answer as [e|response]; [by apply wp_lift|].
  assert (Ha : user_answered risk h (cf_decision response) (h2 ++ [mkReceived (R := Reply) (w_clock w2) q (inr response)]))
    by (exists options, diff, (ca ≫= ca_directoryScopeOptions), response; done).
  destruct (cf_decision response).
  - apply wp_ret; [done|]. split; [done|]. intros d [= <-]. split; [done|]. by exists user_allow.
  - apply wp_emit_denied; [done|]. intros w' Hc Hw'. apply wp_ret; [done|]. split; [done|]. intros d [= <-]. split; [done|].
    exists user_deny. split_and!; [done|done|]. unfold mapApprovalProvenance. cbn. by repeat case_match.
Qed.
(** ** Sessions without a client *)

Lemma denied_no_client : mapApprovalProvenance "denied" no_opts = (mode_blocked, no_interactive_client).
Proof. reflexivity. Qed.

Lemma refuse_ok risk meta ruleId t (w w0 : World Mem) h h0 : mem_ok w h → tc_isInteractive context = Some false →
  (tc_trustClass context ≠ trust_guardian ∨ tc_requireFreshApproval context = true
   ∨ ∃ t, (∀ w', (w_clock w ≤ w_clock w')%nat → background_threshold w0 h0 t w' h) ∧ isRiskWithinThreshold risk (Some t) = false) →
  wp mem_ok (w_clock w)
    ((lift (emit_denied name risk NO_CLIENT_REASON startTime);;
      mret (Some (mkPermission false "denied" risk (Some (no_client_message name)) false ruleId meta
        (mapApprovalProvenance "denied" no_opts) t)) : Async (option PermissionDecision)) w) h
    (λ r w' h', mem_ok w' h' ∧ ∃ d, r = inr (Some d) ∧ pd_riskLevel d = risk ∧ prompt_outcome risk w0 h0 d w' h').
Proof.
  intros Hw Hi Hwhy. apply wp_emit_denied; [done|]. intros w' Hc Hw'. apply wp_ret; [done|]. split; [done|].
  eexists. split; [done|]. split; [done|]. apply no_client; try done. destruct Hwhy as [?|[?|(t' & Ht & ?)]]; [by left|by right; left|].
  right; right. exists t'. split; [by apply Ht|done].
Qed.

Lemma without_client_ok risk meta ruleId t w h : mem_ok w h →
  wp mem_ok (w_clock w) (without_client name context startTime risk meta ruleId t w) h
    (λ r w' h', mem_ok w' h' ∧ ∃ o, r = inr o ∧ match o with
       | Some d => pd_riskLevel d = risk ∧ prompt_outcome risk w h d w' h'
       | None => tc_isInteractive context ≠ Some false end).
Proof.
  intros Hw. unfold without_client, non_interactive_session. case_bool_decide as Hi; cbn [negb]; last first.
  { apply wp_ret; [done|]. split; [done|]. by exists None. }
  assert (Hrefuse : ∀ w1 h1, mem_ok w1 h1 →
    (tc_trustClass context ≠ trust_guardian ∨ tc_requireFreshApproval context = true
     ∨ ∃ t, (∀ w', (w_clock w1 ≤ w_clock w')%nat → background_threshold w h t w' h1) ∧ isRiskWithinThreshold risk (Some t) = false) →
    wp mem_ok (w_clock w1)
      ((lift (emit_denied name risk NO_CLIENT_REASON startTime);;
        mret (Some (mkPermission false "denied" risk (Some (no_client_message name)) false ruleId meta
          (mapApprovalProvenance "denied" no_opts) t)) : Async (option PermissionDecision)) w1) h1
      (λ r w' h', mem_ok w' h' ∧ ∃ o, r = inr o ∧ match o with
         | Some d => pd_riskLevel d = risk ∧ prompt_outcome risk w h d w' h'
         | None => tc_isInteractive context ≠ Some false end)).
  { intros w1 h1 Hw1 Hwhy. eapply wp_mono; [|by apply (refuse_ok risk meta ruleId t w1 w)].
    intros r w' h' (? & d & -> & ? & ?). split; [done|]. by exists (Some d). }
  unfold guardian. destruct (bool_decide_reflect (tc_trustClass context = trust_guardian)) as [Hg|Hg]; cbn [andb].
  2: { apply wp_bind, wp_ret; [done|]. apply Hrefuse; [done|by left]. }
  destruct (tc_requireFreshApproval context) eqn:Hf; cbn [negb].
  { apply wp_bind, wp_ret; [done|]. apply Hrefuse; [done|by right; left]. }
  apply wp_bind, wp_bind. eapply wp_mono; [|apply getAutoApproveThreshold_await, Hw]. intros r w1 h1 (Hl & Hw1 & bg & -> & Hbg).
  apply wp_ret; [lia|]. destruct (isRiskWithinThreshold risk (Some bg)) eqn:Er.
  - apply wp_ret; [lia|]. split; [done|]. eexists. split; [done|]. split; [done|]. by apply (by_background _ _ _ _ _ _ bg).
  - apply Hrefuse; [done|]. right; right. exists bg. split; [|done]. intros w' Hc. eapply threshold_ok_grow, Hbg. split; [done|].
    exists []. by rewrite app_nil_r.
Qed.

(** ** The whole call *)

Lemma auto_provenance sandbox ruleId :
  (mapApprovalProvenance "allow" (mkProvenance sandbox ruleId false false false false)).1 = mode_auto.
Proof. unfold mapApprovalProvenance. cbn. by repeat case_match. Qed.

Lemma evaluate_permission_ok c ca w h : mem_ok w h → classified name input (Some (tc_workingDir context)) None h c →
  wp mem_ok (w_clock w) (evaluate_permission name input tool context startTime computePreviewDiff (rk_level c) ca w) h
    (λ r w' h', mem_ok w' h' ∧ ∀ d, r = inr d → permission_outcome w h d w' h').
Proof.
  intros Hw Hc. apply wp_bind, wp_lift; cbn [fst snd gets]; [done|]. set (s := mm_surroundings (w_st w)).
  apply wp_bind. eapply wp_mono; [|apply check_await, Hw]. intros [e|k] w1 h1 (Hl1 & Hw1 & Hk); [done|].
  apply wp_bind. eapply wp_mono; [|apply getAutoApproveThreshold_await, Hw1]. intros r w2 h2 (Hl2 & Hw2 & t & -> & _).
  set (ruleId := tr_id <$> pk_matchedRule k). assert (Hl := later_trans _ _ _ _ _ _ Hl1 Hl2).
  assert (Hout : ∀ d w3 h3, later w2 h2 w3 h3 → pd_riskLevel d = rk_level c →
    match (promote name input context k).1 with
    | allow => pd_allowed d = true ∧ (pd_provenance d).1 = mode_auto
    | deny => pd_allowed d = false
    | prompt => prompt_outcome (rk_level c) w h d w3 h3
    end → permission_outcome w h d w3 h3).
  { intros d w3 h3 Hl3 Hr Hd. assert (Hl' := later_trans _ _ _ _ _ _ Hl Hl3). exists c, s, k.
    split_and!; [by eapply classified_grow|done| |done]. eapply check_result_stable; [|exact Hk]. by eapply later_trans. }
  destruct (promote name input context k) as [decision reason]. cbn [fst] in Hout. destruct decision.
  - apply wp_ret; [lia|]. split; [done|]. intros d [= <-]. apply Hout; [apply later_refl|done|]. split; [done|apply auto_provenance].
  - destruct (tc_isPlatformHosted context && eqs name "bash" && guardian context && negb (tc_requireFreshApproval context)) eqn:Ep.
    + apply andb_true_iff in Ep as [[[Ep Eb]%andb_true_iff Eg]%andb_true_iff Ef]. unfold eqs, guardian in *. apply bool_decide_eq_true in Eb, Eg.
      apply negb_true_iff in Ef. apply wp_ret; [lia|]. split; [done|]. intros d [= <-]. apply Hout; [apply later_refl|done|]. by apply by_platform.
    + apply wp_bind. eapply wp_mono; [|apply wp_from, without_client_ok, Hw2]. intros r w3 h3 (Hl3 & Hw3 & o & -> & Ho).
      destruct o as [d|].
      * apply wp_ret; [lia|]. split; [done|]. intros ? [= <-]. destruct Ho as [Hr Ho]. apply Hout; [done|done|].
        by eapply prompt_outcome_earlier.
      * eapply wp_mono; [|apply wp_from, prompt_user_ok, Hw3]. intros r w4 h4 (Hl4 & Hw4 & Hd).
        split; [done|]. intros d ->. destruct (Hd d eq_refl) as (Hr & decision & Ha & ? & ?).
        apply Hout; [by eapply later_trans|done|]. apply (by_user _ _ _ _ _ _ decision); try done.
        eapply (user_answered_earlier _ w w3 w4); [by eapply later_trans|done|done].
  - apply wp_emit_denied; [done|]. intros w' Hc' Hw'. apply wp_ret; [done|]. split; [done|]. intros d [= <-].
    apply Hout; [|done|done]. split; [done|]. exists []. by rewrite app_nil_r.
Qed.

Definition permission_result (w0 : World Mem) (h0 : Hist) (r : Thrown + PermissionDecision) (w : World Mem) (h : Hist) : Prop :=
  match r with inr d => permission_outcome w0 h0 d w h | inl e => permission_error h0 e h end.

Lemma permission_outcome_earlier w0 h0 w1 h1 d w h :
  later w0 h0 w1 h1 → later w1 h1 w h → permission_outcome w1 h1 d w h → permission_outcome w0 h0 d w h.
Proof.
  intros H0 H1 (c & s & k & ? & ? & ? & Hp). exists c, s, k. split_and!; [done|done|by eapply check_result_earlier|].
  destruct (promote _ _ _ _).1; [done| |done]. by eapply prompt_outcome_earlier.
Qed.

Lemma checkPermission_ok w h : mem_ok w h →
  wp mem_ok (w_clock w) (checkPermission name input tool context startTime computePreviewDiff w) h
    (λ r w' h', mem_ok w' h' ∧ permission_result w h r w' h').
Proof.
  intros Hw. apply wp_bind. eapply wp_mono; [|apply classifyRisk_await, Hw]. intros [e|c] w1 h1 (Hl1 & Hw1 & Hc); [split; [done|by left]|].
  apply wp_bind, wp_lift; cbn [fst snd gets]; [done|]. set (ca := jget (assessmentCacheKey name input) (mm_assessmentCache (w_st w1))).
  apply wp_try. eapply wp_mono; [|apply wp_from, (evaluate_permission_ok c ca w1 h1 Hw1 Hc)].
  intros [e|d] w2 h2 (Hl2 & Hw2 & Hd).
  - apply wp_lift; cbn; [done|]. split; [done|]. right. exists c. split; [by eapply classified_grow|done].
  - split; [done|]. eapply permission_outcome_earlier; [exact Hl1|exact Hl2|by apply Hd].
Qed.
End call.
End permission.
