(* ===== verification/PermissionSystem.v ===== *)
(** * Permission checks under way at the same time

    Every function of the permission checker, with the resets, as calls of one system
    that interleave at their [await]s (Async.v): whatever the gateway and the users
    answer and in whatever order, each call that ends keeps its promise. *)
From S2P Require Import Prelude RuntimeTypes RiskTypes ApprovalPolicy RiskHandlers Async Surroundings AllowlistOptions CheckerTypes Thresholds ThresholdProps Checker CheckerProps CacheKeys PermissionChecker PermissionProps.

Section system.
Context {env : Env} {asst : Assistant} {url : UrlApi}.
Local Abbreviation Hist := (History Reply).
Local Abbreviation Input := (list (string * json)).

Inductive Call :=
  | call_threshold (conversationId : option string) (executionContext : option ExecutionContext)
  | call_refresh (conversationId : option string) (executionContext : option ExecutionContext)
  | call_classify (toolName : string) (input : Input) (workingDir : option string) (mo : option ManifestOverride) (signal : option nat)
  | call_check (toolName : string) (input : Input) (workingDir : string) (policy : PolicyContext)
      (mo : option ManifestOverride) (signal : option nat)
  | call_permission (name : string) (input : Input) (tool : Tool) (context : ToolContext) (startTime : Z)
      (computePreviewDiff : string → Input → string → Thrown + option PreviewDiff)
  | call_options (toolName : string) (input : Input) (signal : option nat)
  | call_reset
  | call_clear
  | call_abort (signal : nat)
  | call_change (s : Surroundings).

Inductive Value :=
  | v_threshold (t : RiskThreshold) | v_refreshed (o : option RiskThreshold) | v_risk (c : RiskClassification)
  | v_check (k : PermissionCheckResult) | v_permission (d : PermissionDecision) | v_options (l : list AllowlistOption) | v_done.

Definition run (call : Call) : Async Value :=
  match call with
  | call_threshold cid ectx => t ← getAutoApproveThreshold cid ectx; mret (v_threshold t)
  | call_refresh cid ectx => o ← refreshAutoApproveThreshold cid ectx; mret (v_refreshed o)
  | call_classify t i wd mo signal => c ← classifyRisk t i wd mo signal; mret (v_risk c)
  | call_check t i wd policy mo signal => k ← check t i wd policy mo signal; mret (v_check k)
  | call_permission name input tool context start preview =>
      d ← checkPermission name input tool context start preview; mret (v_permission d)
  | call_options t i signal => l ← lift (generateAllowlistOptions t i signal); mret (v_options l)
  | call_reset => lift resetGatewayThresholdCacheForTenantAssignment;; mret v_done
  | call_clear => lift clearRiskCache;; mret v_done
  | call_abort i => lift (modify (set_aborted i));; mret v_done
  | call_change s => lift (modify (set_surroundings s));; mret v_done
  end.

Local Abbreviation mem_ok := (ThresholdProps.mem_ok caches_ok).

Definition promise (call : Call) (w0 : World Mem) (h0 : Hist) (r : Thrown + Value) (w : World Mem) (h : Hist) : Prop :=
  match call with
  | call_threshold cid ectx => ∃ t, r = inr (v_threshold t) ∧ threshold_ok cid ectx w0 h0 t w h
  | call_refresh cid ectx => ∃ o, r = inr (v_refreshed o) ∧ refreshed_ok cid ectx h0 o h
  | call_classify t i wd mo signal =>
      ∃ r', risk_result t i wd mo signal h0 r' h ∧ r = match r' with inl e => inl e | inr c => inr (v_risk c) end
  | call_check t i wd policy mo signal =>
      ∃ r', check_result t i wd policy mo signal w0 h0 r' w h ∧ r = match r' with inl e => inl e | inr k => inr (v_check k) end
  | call_permission name input tool context _ _ =>
      ∃ r', permission_result name input tool context w0 h0 r' w h
        ∧ r = match r' with inl e => inl e | inr d => inr (v_permission d) end
  | _ => True
  end.

(** A function verified on its own, with its value wrapped. *)
Lemma wp_value {A} (p : Async A) (f : A → Value) w h (Φ : Thrown + A → World Mem → Hist → Prop) Ψ :
  wp mem_ok (w_clock w) (p w) h (λ r w' h', mem_ok w' h' ∧ Φ r w' h') →
  (∀ r w' h', Φ r w' h' → Ψ (match r with inl e => inl e | inr a => inr (f a) end) w' h') →
  wp mem_ok (w_clock w) ((a ← p; mret (f a)) w) h (λ r w' h', mem_ok w' h' ∧ Ψ r w' h').
Proof.
  intros Hp HΦ. apply wp_bind. eapply wp_mono; [|exact Hp]. intros [e|a] w' h' [Hw H].
  - split; [done|]. exact (HΦ (inl e) w' h' H).
  - apply wp_ret; [done|]. split; [done|]. exact (HΦ (inr a) w' h' H).
Qed.

(** A step of the memory that keeps the invariant. *)
Lemma wp_modify (f : Mem → Mem) w h (Ψ : Thrown + Value → World Mem → Hist → Prop) :
  mem_ok (mkWorld (w_clock w) (w_uuid w) (f (w_st w))) h → (∀ r w' h', Ψ r w' h') →
  wp mem_ok (w_clock w) ((lift (modify f);; mret v_done : Async Value) w) h (λ r w' h', mem_ok w' h' ∧ Ψ r w' h').
Proof. intros Hw HΨ. by apply wp_bind, wp_lift; cbn. Qed.

Lemma calls_verified : call_verified run mem_ok promise.
Proof.
  intros [cid ectx|cid ectx|t i wd mo signal|t i wd policy mo signal|name input tool context start preview|t i signal| | |i|s] w h Hw; cbn [run promise].
  - eapply wp_value; [by apply getAutoApproveThreshold_ok; [apply caches_reader|apply caches_app|]|].
    intros r w' h' (o & -> & Ho). by eexists.
  - eapply (wp_value _ _ _ _ (λ r _ h', ∃ o, r = inr o ∧ refreshed_ok cid ectx h o h'));
      [by apply refreshAutoApproveThreshold_ok; [apply caches_reader|apply caches_app|]|].
    intros r w' h' (o & -> & Ho). by eexists.
  - eapply (wp_value _ _ _ _ (λ r _ h', risk_result t i wd mo signal h r h')); [by apply classifyRisk_ok|]. intros r w' h' Hr. by eexists.
  - eapply wp_value; [by apply check_ok|]. intros r w' h' Hr. by eexists.
  - eapply wp_value; [by apply checkPermission_ok|]. intros r w' h' Hr. by eexists.
  - eapply (wp_value _ _ _ _ (λ _ _ _, True)); [|done]. apply wp_lift; by rewrite generateAllowlistOptions_same.
  - apply wp_modify; [|done]. by apply (reset_ok caches_ok caches_reader).
  - apply wp_modify; [|done]. apply mem_ok_set; [done|done|]. split; cbn; [done|done|]. split; apply bounded_nil.
  - apply wp_modify; [|done]. apply mem_ok_set; [done|done|]. by destruct Hw as [_ [? ? ?]].
  - apply wp_modify; [|done]. apply mem_ok_set; [done|done|]. by destruct Hw as [_ [? ? ?]].
Qed.

Definition start_world (s : Surroundings) : World Mem := mkWorld 0 0 (empty_mem s).

Lemma start_mem_ok s : mem_ok (start_world s) [].
Proof. split; [by split|]. split; cbn; [done|done|]. split; apply bounded_nil. Qed.

(** A call that has ended in a state the system reaches. *)
Definition has_ended (s0 : Surroundings) (sys : System) (x : Running) (r : Thrown + Value) (w : World Mem) : Prop :=
  sys_reachable run (start_world s0) sys ∧ x ∈ sy_running sys ∧ rn_outcome x = fin r w.

Lemma ended_promise s0 sys x r w : has_ended s0 sys x r w →
  promise (rn_call x) (rn_start x) (rn_before x) r w (rn_history x).
Proof. intros (Hs & Hx & Ho). eapply ended_ok; [apply calls_verified|apply start_mem_ok|exact Hs|exact Hx|exact Ho]. Qed.

Lemma system_mem_ok s0 sys : sys_reachable run (start_world s0) sys → mem_ok (sy_world sys) (sy_history sys).
Proof. intros H. by destruct (system_reachable_ok run mem_ok promise _ _ calls_verified (start_mem_ok s0) H). Qed.
End system.
