(* ===== verification/PermissionDemo.v ===== *)
(** * A permission check with concrete answers

    An assistant, a gateway and a user for the witnesses of the claims. *)
From S2P Require Import Prelude JsText NodePath RuntimeTypes RiskTypes ApprovalPolicy RiskHandlers Async Surroundings AllowlistOptions CheckerTypes Checker CheckerProps CacheKeys PermissionChecker PermissionSystem.

Definition tick_env : Env := {| date_now := λ n, 1000 * Z.of_nat n; random_uuid := λ n, "" |}.

(** A hash without collisions: the text in hexadecimal. *)
Fixpoint hex_text (s : string) : string :=
  match s with
  | "" => ""
  | String c s' => let n := Z.of_nat (nat_of_ascii c) in String (hex_upper (n / 16)) (String (hex_upper (n mod 16)) (hex_text s'))
  end.

Definition desk_host : Host :=
  {| homedir := "/home/me"; process_cwd := "/work"; existsSync := λ _, true; is_directory := λ _, false |}.
Definition demo_asst : Assistant :=
  {| as_host := desk_host; getIsContainerized := false; getWorkspaceDirOverride := Some "/work"; getBundledSkillsDir := "/app/skills";
     sha256 := hex_text |}.
Definition demo_url : UrlApi :=
  {| Url := string; new_URL := λ _, None; protocol := λ _, "https:"; hostname := λ u, u; pathname := λ _, "/"; href := λ u, u;
     origin := λ u, u; set_hash := λ _ u, u; set_username := λ _ u, u; set_password := λ _ u, u; set_hostname := λ _ u, u;
     set_pathname := λ _ u, u |}.

Lemma hex_upper_inj m n : 0 ≤ m < 16 → 0 ≤ n < 16 → hex_upper m = hex_upper n → m = n.
Proof.
  intros Hm Hn E%(f_equal nat_of_ascii). unfold hex_upper in E.
  destruct (Z.ltb_spec m 10), (Z.ltb_spec n 10); rewrite !nat_ascii_embedding in E by lia; lia.
Qed.
Lemma hex_text_inj : Inj (=) (=) hex_text.
Proof.
  intros s t. revert t. induction s as [|c s IH]; intros [|d t] E; [done..|]. cbn [hex_text] in E. injection E as E1 E2 E3.
  rewrite (IH t E3). f_equal. pose proof (nat_ascii_bounded c). pose proof (nat_ascii_bounded d).
  apply hex_upper_inj in E1; [|split; [apply Z.div_pos; lia|apply Z.div_lt_upper_bound; lia]..].
  apply hex_upper_inj in E2; [|apply Z.mod_pos_bound; lia..].
  rewrite <- (ascii_nat_embedding c), <- (ascii_nat_embedding d). f_equal. apply Nat2Z.inj.
  rewrite (Z.div_mod (Z.of_nat (nat_of_ascii c)) 16), (Z.div_mod (Z.of_nat (nat_of_ascii d)) 16) by lia. congruence.
Qed.
Lemma hex_text_no_nul s : has_char "000" (hex_text s) = false.
Proof.
  induction s as [|c s IH]; [done|]. cbn [hex_text has_char]. rewrite IH, orb_false_r.
  destruct c as [[] [] [] [] [] [] [] []]; reflexivity.
Qed.
#[export] Instance demo_asst_ok : Sha256Ok demo_asst.
Proof. split; [exact hex_text_inj|exact hex_text_no_nul]. Qed.

Definition demo_surroundings : Surroundings :=
  {| getTool := λ n, Some (mkTool n ApprovalPolicy.Low None); getToolOwner := λ _, None; loadSkillCatalog := [];
     disk := mkDisk (λ _, None) (λ _, None) (λ _, None) (λ _, None) []; skills_load_extraDirs := []; realpathSync := λ p, Some p |}.

(** The gateway: medium risk, prompts above a low risk; the user agrees or not. *)
Definition demo_classification (p : ClassifyRiskParams) : ClassificationResult :=
  mkClassification "medium" "Writes a file" [] None None None None None None None
    (Some [mkDirScope (default "" (cp_workingDir p)) "this directory"]) None registry_match.
Definition demo_oracle (agrees : bool) (q : Query) : Reply q :=
  match q return Reply q with
  | turn => tt
  | get_conversation_threshold _ => reply_threshold "low"
  | get_global_thresholds => Some (mkThresholds "low" "medium" "none")
  | classify_risk p => Some (demo_classification p)
  | confirm _ _ _ _ _ _ => inr (mkConfirm (if agrees then user_allow else user_deny) None false false false)
  end.

#[local] Existing Instances tick_env demo_asst demo_url.

Definition demo_input : list (string * json) := [("path", JStr "notes.txt"); ("activity", JStr "saving")].
Definition demo_context (workingDir : string) (interactive : option bool) (trust : TrustClass) : ToolContext :=
  mkToolContext workingDir "conversation-1" None interactive false false trust false.
Definition demo_permission (workingDir : string) (interactive : option bool) (trust : TrustClass) : Call :=
  call_permission "file_write" demo_input (mkTool "file_write" ApprovalPolicy.Low None) (demo_context workingDir interactive trust) 0
    (λ _ _ _, inr None).

(** The call alone, with the answers above. *)
Definition demo_system (agrees : bool) (call : Call) : System := alone run (demo_oracle agrees) 100 call (start_world demo_surroundings).
Definition demo_running (agrees : bool) (call : Call) : Running :=
  let '(o, h) := run_with (demo_oracle agrees) 100 (run call (start_world demo_surroundings)) [] in
  mkRunning call (start_world demo_surroundings) [] o h.
Definition demo_world (agrees : bool) (call : Call) : World Mem := world_of (rn_outcome (demo_running agrees call)).

Definition demo_decision (agrees : bool) (call : Call) : PermissionDecision :=
  match rn_outcome (demo_running agrees call) with
  | fin (inr (v_permission d)) _ => d
  | _ => mkPermission false "" High None false None None (mode_unknown, reason_unknown) up_to_none
  end.

Lemma demo_ended agrees call r : rn_outcome (demo_running agrees call) = fin r (demo_world agrees call) →
  has_ended demo_surroundings (demo_system agrees call) (demo_running agrees call) r (demo_world agrees call).
Proof.
  intros E. split_and!; [apply alone_reachable| |exact E]. unfold demo_system, demo_running, alone, alone_from.
  destruct (run_with _ _ _ _) as [o h]. cbn. by left.
Qed.
