(* ===== verification/PermissionClaims.v ===== *)
(** * Permission checks: claims

    What a call of the permission checker that has ended says, in every interleaving.
    At the end, concrete runs worth knowing. *)
From S2P Require Import Prelude JsText NodePath RuntimeTypes RiskTypes ApprovalPolicy RiskHandlers SkillGraph Async Surroundings AllowlistOptions CheckerTypes Thresholds ThresholdProps Checker CheckerProps CacheKeys PermissionChecker PermissionProps PermissionSystem PermissionDemo.

Section claims.
Context {env : Env} {asst : Assistant} {url : UrlApi}.
Local Abbreviation Hist := (History Reply).
Local Abbreviation Input := (list (string * json)).

Lemma no_rule_no_deny x : ax_matchedRule x = None → reference_decision x ≠ deny.
Proof. intros E. unfold reference_decision. rewrite E. cbn. by destruct (_ || _). Qed.


(** C30. A classification, from the cache or not, is the one the gateway gave when it was
    asked about the same tool, working directory and manifest and about an input that
    differs at most in its reason and activity, whatever was cached in between; and neither
    cache outgrows its bound. *)
Theorem risk_from_gateway `{!Sha256Ok asst} s0 sys x c w toolName input workingDir mo signal :
  has_ended s0 sys x (inr (v_risk c)) w → rn_call x = call_classify toolName input workingDir mo signal →
  (∃ input' workingDir' r, input_text input' = input_text input ∧ default "" workingDir' = default "" workingDir
     ∧ answered toolName input' workingDir' mo (rn_history x) r ∧ c = classification_of r)
  ∧ Z.of_nat (length (mm_riskCache (w_st (sy_world sys)))) ≤ RISK_CACHE_MAX
  ∧ Z.of_nat (length (mm_assessmentCache (w_st (sy_world sys)))) ≤ RISK_CACHE_MAX.
Proof.
  intros H E. assert (Hs := proj1 H). apply ended_promise in H. rewrite E in H. split.
  - destruct H as ([e|c'] & Hr & Ec); [done|]. injection Ec as ->. destruct Hr as (t & i & wd & mo' & r & Ek & Ha & ->).
    apply risk_key_inj in Ek as (-> & ? & ? & ->). by exists i, wd, r.
  - apply system_mem_ok in Hs as [_ [_ _ [[? _] [? _]]]]. done.
Qed.

(** A check that puts a call before the user rests on a threshold the gateway gave
    during the call, unless the gateway failed when asked again; a check that allows rests
    on a cached threshold that is recent or on one given during the call; no check denies.
    Each is the decision of the reference policy at that threshold for the classified
    risk. *)
Theorem prompts_are_current s0 sys x k w toolName input workingDir policy mo signal :
  has_ended s0 sys x (inr (v_check k)) w → rn_call x = call_check toolName input workingDir policy mo signal →
  ∃ c s tool, classified toolName input (Some workingDir) mo (rn_history x) c ∧
    let at_threshold := approval_context s tool toolName input workingDir policy mo c in
    let cached t := threshold_ok (pc_conversationId policy) (pc_executionContext policy) (rn_start x) (rn_before x) t w (rn_history x) in
    let fresh t := fresh_ok (pc_conversationId policy) (pc_executionContext policy) (rn_before x) t (rn_history x) in
    match pk_decision k with
    | prompt => ∃ t, reference_decision (at_threshold t) = prompt ∧
        (fresh t ∨ (cached t ∧ refresh_failed (pc_conversationId policy) (pc_executionContext policy) (rn_before x) (rn_history x)))
    | allow => ∃ t, reference_decision (at_threshold t) = allow ∧ (cached t ∨ fresh t)
    | deny => False
    end.
Proof.
  intros H E. apply ended_promise in H. rewrite E in H. destruct H as ([e|k'] & Hr & Ek); [done|]. injection Ek as <-.
  destruct Hr as (c & s & tool & t & d & Hc & Ht & Hd & ->). exists c, s, tool. split; [done|]. cbn [pk_decision]. cbv zeta.
  set (at_threshold := approval_context s tool toolName input workingDir policy mo c) in *.
  assert (Hnd : ∀ u, reference_decision (at_threshold u) ≠ deny) by (intros; by apply no_rule_no_deny).
  destruct Hd as [[Hp ->]|(Hp & o & Ho & ->)]; rewrite ?evaluate_reference in *.
  - destruct (reference_decision (at_threshold t)) eqn:Er; [exists t; auto|done|by eapply Hnd].
  - destruct o as [u|]; cbn [refreshed_ok] in Ho; rewrite evaluate_reference.
    + change (with_threshold u (at_threshold t)) with (at_threshold u).
      destruct (reference_decision (at_threshold u)) eqn:Er; [exists u; auto|exists u; auto|by eapply Hnd].
    + rewrite Hp. exists t. auto.
Qed.

(** ** Permissions *)

(** What the policy says of the call, classified anew, at a threshold read for it. *)
Definition policy_says (name : string) (input : Input) (tool : Tool) (context : ToolContext)
    (w0 : World Mem) (h0 : Hist) (d : Decision3) (w : World Mem) (h : Hist) : Prop :=
  ∃ c s s' tool' t, classified name input (Some (tc_workingDir context)) None h c
    ∧ reference_decision (approval_context s tool' name input (tc_workingDir context) (buildPolicyContext s' tool context) None c t) = d
    ∧ let ctx := Some (deriveExecutionContext context) in
      let cid := Some (tc_conversationId context) in
      (threshold_ok cid ctx w0 h0 t w h ∨ fresh_ok cid ctx h0 t h).

Lemma check_says name input tool context s w0 h0 k w h :
  check_result name input (tc_workingDir context) (buildPolicyContext s tool context) None (tc_signal context) w0 h0 (inr k) w h →
  policy_says name input tool context w0 h0 (pk_decision k) w h ∧ pk_decision k ≠ deny.
Proof.
  intros (c & s2 & tool' & t & d & Hc & Ht & Hd & ->). cbn [pk_decision].
  set (x := λ u, approval_context s2 tool' name input (tc_workingDir context) (buildPolicyContext s tool context) None c u) in *.
  assert (Hnd : ∀ u, reference_decision (x u) ≠ deny) by (intros; by apply no_rule_no_deny).
  assert (∃ u, d = evaluate (x u) ∧ (threshold_ok (Some (tc_conversationId context)) (Some (deriveExecutionContext context)) w0 h0 u w h
     ∨ fresh_ok (Some (tc_conversationId context)) (Some (deriveExecutionContext context)) h0 u h)) as (u & -> & Hu).
  { destruct Hd as [[Hp ->]|(Hp & [u|] & Ho & ->)]; [exists t; auto|exists u; auto|exists t; auto]. }
  rewrite evaluate_reference. split; [|done]. exists c, s2, s, tool', u. done.
Qed.

Lemma promote_cases name input context k :
  match (promote name input context k).1 with
  | allow => pk_decision k = allow ∧ tc_requireFreshApproval context = false
             ∧ (tc_forcePromptSideEffects context && isSideEffectTool name input = false)
  | prompt => pk_decision k = prompt ∨ tc_requireFreshApproval context = true
             ∨ tc_forcePromptSideEffects context && isSideEffectTool name input = true
  | deny => pk_decision k = deny
  end.
Proof.
  unfold promote. destruct (tc_forcePromptSideEffects context), (pk_decision k), (isSideEffectTool name input), (tc_requireFreshApproval context);
    cbn; naive_solver.
Qed.

(** C27. A tool call is permitted, with the risk it was classified with, only in four ways:
    the user allowed it when asked about that tool and input; the policy allows it at a
    threshold read during the call or recent, and it needs no explicit approval; it is bash
    of a guardian on the hosted platform; or it is of a guardian's session without a client
    and its risk is within a background threshold that is recent. Where a fresh approval is
    required, the user has allowed it during the call. *)
Theorem permission_granted s0 sys x d w name input tool context startTime preview :
  has_ended s0 sys x (inr (v_permission d)) w → rn_call x = call_permission name input tool context startTime preview →
  pd_allowed d = true →
  ∃ c, classified name input (Some (tc_workingDir context)) None (rn_history x) c ∧ pd_riskLevel d = rk_level c ∧
    (user_answered name input context (rk_level c) (rn_before x) user_allow (rn_history x)
     ∨ (tc_requireFreshApproval context = false
        ∧ ((policy_says name input tool context (rn_start x) (rn_before x) allow w (rn_history x)
            ∧ (tc_forcePromptSideEffects context && isSideEffectTool name input) = false)
           ∨ (tc_isPlatformHosted context = true ∧ name = "bash" ∧ tc_trustClass context = trust_guardian)
           ∨ (tc_isInteractive context = Some false ∧ tc_trustClass context = trust_guardian
              ∧ ∃ t, background_threshold context (rn_start x) (rn_before x) t w (rn_history x)
                     ∧ isRiskWithinThreshold (rk_level c) (Some t) = true)))).
Proof.
  intros H E Ha. apply ended_promise in H. rewrite E in H. destruct H as ([e|d'] & Hr & Ed); [done|]. injection Ed as <-.
  destruct Hr as (c & s & k & Hc & Hrisk & Hk & Hp). exists c. split_and!; [done|done|].
  apply check_says in Hk as [Hsays Hnd]. pose proof (promote_cases name input context k) as Hprom.
  destruct (promote name input context k).1; [|destruct Hp as [? ? Ht Hf|t ? ? Hf ? ?| |decision Hi Hu Hd]|].
  - destruct Hprom as (Hpk & Hf & Hs). rewrite Hpk in Hsays. right. split; [done|]. by left.
  - right. split; [done|]. right; left. done.
  - right. split; [done|]. right; right. split_and!; [done|done|]. by exists t.
  - congruence.
  - rewrite Ha in Hd. symmetry in Hd. apply bool_decide_eq_true in Hd as ->. by left.
  - congruence.
Qed.

(** C28. A tool call is refused only when the policy, or a flag of the context, put it before
    the user: with a client, the user denied it when asked; without one, it is blocked for
    that reason, and the session is not the guardian's, or needs a fresh approval, or the
    risk is above the background threshold. A call that throws has failed to classify or
    carries the risk. *)
Theorem permission_refused s0 sys x r w name input tool context startTime preview :
  has_ended s0 sys x r w → rn_call x = call_permission name input tool context startTime preview →
  match r with
  | inl e => permission_error name input context (rn_before x) e (rn_history x)
  | inr (v_permission d) => pd_allowed d = false →
      ∃ c, classified name input (Some (tc_workingDir context)) None (rn_history x) c ∧ pd_riskLevel d = rk_level c
      ∧ (policy_says name input tool context (rn_start x) (rn_before x) prompt w (rn_history x)
         ∨ tc_requireFreshApproval context = true ∨ tc_forcePromptSideEffects context && isSideEffectTool name input = true)
      ∧ (if non_interactive_session context
         then pd_provenance d = (mode_blocked, no_interactive_client)
              ∧ (tc_trustClass context ≠ trust_guardian ∨ tc_requireFreshApproval context = true
                 ∨ ∃ t, background_threshold context (rn_start x) (rn_before x) t w (rn_history x)
                        ∧ isRiskWithinThreshold (rk_level c) (Some t) = false)
         else user_answered name input context (rk_level c) (rn_before x) user_deny (rn_history x) ∧ (pd_provenance d).1 = mode_prompted)
  | _ => False
  end.
Proof.
  intros H E. apply ended_promise in H. rewrite E in H. destruct H as ([e|d] & Hr & ->); [done|]. intros Ha.
  destruct Hr as (c & s & k & Hc & Hrisk & Hk & Hp). exists c. split_and!; [done|done| |].
  all: apply check_says in Hk as [Hsays Hnd]; pose proof (promote_cases name input context k) as Hprom.
  - destruct (promote name input context k).1; [|destruct Hprom as [Hpk|?]; [left; by rewrite <- Hpk|by right]|congruence].
    destruct Hp as [? _]. congruence.
  - unfold non_interactive_session. destruct (promote name input context k).1; [destruct Hp; congruence| |congruence].
    destruct Hp as [| |Hi Hwhy ? ?|decision Hi Hu Hd ?]; [congruence|congruence| |].
    + rewrite bool_decide_true by done. done.
    + rewrite bool_decide_false by done. rewrite Ha in Hd. symmetry in Hd. apply bool_decide_eq_false in Hd.
      destruct decision; [done|]. done.
Qed.
End claims.

(** * Instances *)
#[local] Existing Instances tick_env demo_asst demo_url.


(** Witness of C30. *)
Lemma risk_from_gateway_witness :
  let call := call_classify "file_write" demo_input (Some "/work") None None in
  ∃ input' workingDir' r, input_text input' = input_text demo_input ∧ default "" workingDir' = "/work"
    ∧ answered "file_write" input' workingDir' None (rn_history (demo_running true call)) r ∧ rk_level (classification_of r) = Medium.
Proof.
  intros call. set (c := classification_of (demo_classification (buildClassifyRiskParams demo_surroundings "file_write" demo_input (Some "/work") None))).
  destruct (risk_from_gateway demo_surroundings (demo_system true call) (demo_running true call) c (demo_world true call)
    "file_write" demo_input (Some "/work") None None) as [(i & wd & r & Hi & Hwd & Ha & Hc) _];
    [apply demo_ended; vm_compute; reflexivity|reflexivity|].
  exists i, wd, r. split; [exact Hi|]. split; [exact Hwd|]. split; [exact Ha|]. rewrite <- Hc. reflexivity.
Defined.

(** An instance. *)
Lemma prompts_are_current_witness :
  let call := call_check "file_write" demo_input "/work" (mkPolicyContext None None (Some "conversation-1")) None None in
  ∃ k c s tool, classified "file_write" demo_input (Some "/work") None (rn_history (demo_running true call)) c ∧ pk_decision k = prompt ∧
    ∃ t, reference_decision (approval_context s tool "file_write" demo_input "/work" (mkPolicyContext None None (Some "conversation-1")) None c t) = prompt.
Proof.
  intros call. set (k := mkCheckResult prompt "Medium risk (Writes a file): above auto-approve threshold" None false).
  destruct (prompts_are_current demo_surroundings (demo_system true call) (demo_running true call) k (demo_world true call)
    "file_write" demo_input "/work" (mkPolicyContext None None (Some "conversation-1")) None None) as (c & s & tool & Hc & t & Ht & _);
    [apply demo_ended; vm_compute; reflexivity|reflexivity|].
  exists k, c, s, tool. split; [exact Hc|]. split; [reflexivity|]. exists t. exact Ht.
Defined.

(** Witness of C27: the user agrees. *)
Lemma permission_granted_witness :
  let call := demo_permission "/work" None trust_guardian in
  pd_provenance (demo_decision true call) = (mode_prompted, user_approved) ∧
  ∃ c, classified "file_write" demo_input (Some "/work") None (rn_history (demo_running true call)) c ∧ rk_level c = Medium.
Proof.
  intros call. split; [vm_compute; reflexivity|].
  destruct (permission_granted demo_surroundings (demo_system true call) (demo_running true call) (demo_decision true call)
    (demo_world true call) "file_write" demo_input (mkTool "file_write" ApprovalPolicy.Low None)
    (demo_context "/work" None trust_guardian) 0 (λ _ _ _, inr None)) as (c & Hc & Hr & _);
    [apply demo_ended; vm_compute; reflexivity|reflexivity|vm_compute; reflexivity|].
  exists c. split; [exact Hc|]. rewrite <- Hr. vm_compute. reflexivity.
Defined.

(** Witness of C28: nobody is there, and the session is not the guardian's. *)
Lemma permission_refused_witness :
  let call := demo_permission "/work" (Some false) trust_unknown in
  pd_allowed (demo_decision true call) = false ∧ pd_provenance (demo_decision true call) = (mode_blocked, no_interactive_client).
Proof.
  intros call. assert (Ha : pd_allowed (demo_decision true call) = false) by (vm_compute; reflexivity). split; [exact Ha|].
  pose proof (permission_refused demo_surroundings (demo_system true call) (demo_running true call)
    (inr (v_permission (demo_decision true call))) (demo_world true call) "file_write" demo_input
    (mkTool "file_write" ApprovalPolicy.Low None) (demo_context "/work" (Some false) trust_unknown) 0 (λ _ _ _, inr None)) as H.
  destruct H as (c & _ & _ & _ & Hp & _); [apply demo_ended; vm_compute; reflexivity|reflexivity|exact Ha|]. exact Hp.
Defined.

From S2P Require Import Prelude JsText RuntimeTypes RiskTypes ApprovalPolicy RiskHandlers Async Surroundings AllowlistOptions CheckerTypes Checker PermissionChecker PermissionSystem PermissionDemo.

#[local] Existing Instances tick_env demo_asst demo_url.

(** Calls one after the other, each to its end, with the values they end with. *)
Fixpoint in_turn (calls : list Call) (w : World Mem) : list (Thrown + Value) * World Mem :=
  match calls with
  | [] => ([], w)
  | call :: rest =>
      let '(o, _) := run_with (demo_oracle true) 100 (run call w) [] in
      let '(rs, w') := in_turn rest (world_of o) in
      (match o with fin r _ => [r] | ask _ _ _ => [] end ++ rs, w')
  end.

Definition scopes_of (r : Thrown + Value) : option (list string) :=
  match r with
  | inr (v_permission d) => m ← pd_riskMeta d; l ← rm_riskDirectoryScopeOptions m; Some (map ds_scope l)
  | _ => None
  end.

(** The assessment is kept by tool and input, the classification by working directory as
    well. When the same call is made in one directory, in another and in the first again,
    the third finds its classification in the cache and with it the assessment of the
    second: the options put before the user are those of the other directory. *)
Example scopes_of_another_directory :
  map scopes_of (in_turn [demo_permission "/work" None trust_guardian; demo_permission "/other" None trust_guardian;
                          demo_permission "/work" None trust_guardian] (start_world demo_surroundings)).1
  = [Some ["/work"]; Some ["/other"]; Some ["/other"]].
Proof. vm_compute. reflexivity. Qed.

(** A classification stays when the answer would change: nothing but the size of the cache
    and [clearRiskCache] removes it. *)
Fixpoint questions {A} (o : Outcome Mem Thrown Reply A) (fuel : nat) : list string :=
  match fuel, o with
  | S fuel', ask q _ k =>
      match q with classify_risk p => [cp_tool p] | _ => [] end ++ questions (k (demo_oracle true q) (world_of o)) fuel'
  | _, _ => []
  end.

Example classification_asked_once :
  let call := call_classify "file_write" demo_input (Some "/work") None None in
  let w := start_world demo_surroundings in
  questions (run call w) 100 = ["file_write"]
  ∧ questions (run call (in_turn [call] w).2) 100 = []
  ∧ questions (run call (in_turn [call; call_clear] w).2) 100 = ["file_write"].
Proof. vm_compute. done. Qed.

(** When the gateway cannot say whether the conversation has a threshold of its own, the
    threshold of the context is taken, which may be wider. *)
Definition lost_override (q : Query) : Reply q :=
  match q return Reply q with get_conversation_threshold _ => reply_failed | q => demo_oracle true q end.

Example override_lost_widens :
  let call := call_threshold (Some "conversation-1") None in
  let wide q := match q return Reply q with get_global_thresholds => Some (mkThresholds "high" "medium" "none") | q => lost_override q end in
  match (run_with wide 100 (run call (start_world demo_surroundings)) []).1 with
  | fin r _ => r = inr (v_threshold up_to_high)
  | ask _ _ _ => False
  end.
Proof. vm_compute. reflexivity. Qed.
