(* ===== verification/SkillPinning.v ===== *)
(** * Pinned versions of skills

    An approval of a skill with inline commands is for its transitive version hash.  The
    hash pins the skill with everything it includes: two graphs with the same hash list
    the same skills, and these have the same files with the same bytes. *)
From stdpp Require Import pretty.
From S2P Require Import Prelude JsText NodePath RuntimeTypes RiskTypes SkillGraph Surroundings Checker CacheKeys PermissionDemo.

(** ** Paths without NUL *)

Section chars.
Context (c : ascii) (Hslash : c ≠ "/"%char) (Hdot : c ≠ "."%char).
Local Abbreviation free s := (has_char c s = false).

Lemma split_free d s : free s → Forall (λ x, free x) (js_split d s).
Proof.
  induction s as [|e s IH]; cbn; [by repeat constructor|]. intros [He Hs]%orb_false_iff. specialize (IH Hs).
  destruct (bool_decide (e = d)); [by constructor|]. destruct (js_split d s) as [|x l]; [by repeat constructor; cbn; rewrite He|].
  apply Forall_cons in IH as [Hx Hl]. constructor; [cbn; by rewrite He|done].
Qed.
Lemma join_free d l : c ≠ d → Forall (λ x, free x) l → free (js_join d l).
Proof.
  intros Hd H. induction H as [|x l Hx _ IH]; [done|]. destruct l as [|y l]; [done|].
  change (free (x +:+ String d (js_join d (y :: l)))). rewrite has_char_app, Hx. cbn [has_char]. rewrite bool_decide_false by done. exact IH.
Qed.
Lemma dots_free : free "..".
Proof. cbn. by rewrite !bool_decide_false. Qed.
Lemma normalize_onto_free b acc segs : Forall (λ x, free x) acc → Forall (λ x, free x) segs → Forall (λ x, free x) (normalize_onto b acc segs).
Proof.
  pose proof dots_free as Hd. revert acc. induction segs as [|x segs IH]; intros acc Ha; cbn; [intros _; by apply Forall_rev|].
  intros [Hx Hs]%Forall_cons. destruct (_ || _); [by apply IH|]. destruct (eqs x ".."); [|apply IH; [by constructor|done]].
  destruct acc as [|a acc]; [apply IH; [destruct b; by repeat constructor|done]|].
  pose proof Ha as [Ha1 Ha2]%Forall_cons. destruct (eqs a ".."); apply IH; try done. by constructor.
Qed.
Lemma normalizeString_free p b : free p → free (normalizeString p b).
Proof. intros H. unfold normalizeString. apply join_free; [done|]. apply normalize_onto_free; [done|by apply split_free]. Qed.
Lemma slash_free : free "/".
Proof. cbn. by rewrite bool_decide_false. Qed.
Lemma path_join_free ps : Forall (λ x, free x) ps → free (path_join ps).
Proof.
  intros H. unfold path_join. assert (Hf : Forall (λ x, free x) (js_filter truthy ps)).
  { rewrite Forall_forall in H |- *. intros x Hx. apply H. unfold js_filter in Hx. by apply elem_of_bool_filter in Hx as [? _]. }
  destruct (js_filter truthy ps) as [|x l]; [cbn; by rewrite bool_decide_false|]. unfold normalize.
  assert (Hn : ∀ b, free (normalizeString (js_join "/" (x :: l)) b)) by (intros b; apply normalizeString_free, join_free; [done|done]).
  pose proof slash_free. pose proof dots_free. assert (free "." ∧ free "./") as [? ?] by (cbn; by rewrite !bool_decide_false).
  repeat case_match; rewrite ?has_char_app; repeat (rewrite ?Hn; cbn [orb]); try done; rewrite ?H1; rewrite ?H0; done.
Qed.
Lemma resolve_free `{!Host} p : free process_cwd → free p → free (resolve [p]).
Proof.
  intros Hc Hp. unfold resolve. rewrite has_char_app, slash_free. cbn [orb]. apply normalizeString_free. cbn.
  pose proof slash_free as Hs. repeat case_match; rewrite ?has_char_app; cbn [orb]; rewrite ?Hp, ?Hc, ?Hs; try done; rewrite ?has_char_app, ?Hp, ?Hc, ?Hs; done.
Qed.
Lemma relative_free {asst : Assistant} from to : free process_cwd → free from → free to → free (relative from to).
Proof.
  intros Hc Hf Ht. unfold relative. apply join_free; [done|].
  assert (Hs : ∀ p, free p → Forall (λ x, free x) (segments_of (resolve [p]))).
  { intros p Hp. unfold segments_of. rewrite Forall_forall. intros x Hx. unfold js_filter in Hx. apply elem_of_bool_filter in Hx as [Hx _].
    pose proof (split_free "/" (resolve [p]) (resolve_free p Hc Hp)) as Hall. rewrite Forall_forall in Hall. by apply Hall. }
  pose proof (Hs to Ht) as Hto. generalize dependent (segments_of (resolve [to])). generalize (segments_of (resolve [from])). clear Hs.
  pose proof dots_free as Hd. assert (Hr : ∀ n, Forall (λ x, free x) (replicate n "..")) by (intros n; by apply Forall_replicate).
  induction l as [|x l IH]; intros l' Hl'; [exact Hl'|]. destruct l' as [|y l']; cbn [relative_segments]; [apply Forall_app; by split|].
  destruct (eqs x y); [apply IH; by apply Forall_cons in Hl' as [_ ?]|]. apply Forall_app. by split.
Qed.
End chars.

(** ** The files of a skill *)

Local Abbreviation no_nul s := (has_char "000" s = false).

(** What is found under a name, a link counting for what it leads to. *)
Definition is_a (s : Surroundings) (full : string) (k : FileKind) : Prop :=
  (lstatSync (disk s) full = Some k ∧ k ≠ kind_link)
  ∨ (lstatSync (disk s) full = Some kind_link ∧ ∃ target, realpathSync s full = Some target ∧ statSync (disk s) target = Some k).

(** The files below a directory, but for what is transient; [above] are the real directories
    on the way, which a link does not enter again. *)
Inductive below (s : Surroundings) : gset string → string → string → Prop :=
  | below_here above dir real items name :
      realpathSync s dir = Some real → real ∉ above → readdirSync (disk s) dir = Some items →
      name ∈ items → name ∉ EXCLUDED_NAMES → is_a s (path_join [dir; name]) kind_file →
      below s above dir (path_join [dir; name])
  | below_deeper above dir real items name file :
      realpathSync s dir = Some real → real ∉ above → readdirSync (disk s) dir = Some items →
      name ∈ items → name ∉ EXCLUDED_NAMES → is_a s (path_join [dir; name]) kind_directory →
      below s ({[real]} ∪ above) (path_join [dir; name]) file → below s above dir file.

Section skill.
Context {asst : Assistant} (s : Surroundings) (index : gmap string SkillSummary).

(** The file of a skill at a path from its directory, and what reading it gives. *)
Definition has_file (id rel : string) (content : option string) : Prop :=
  ∃ skill file, index !! id = Some skill ∧ below s ∅ (ss_directoryPath skill) file
    ∧ rel = relative (ss_directoryPath skill) file ∧ content = readFileSync (disk s) (path_join [ss_directoryPath skill; rel]).
(** The file of that name, up to the direction of slashes, with these bytes. *)
Definition holds (id path content : string) : Prop := ∃ rel, has_file id rel (Some content) ∧ path = forward_slashes rel.
Definition readable (id : string) : Prop := ∀ rel content, has_file id rel content → is_Some content.

(** What the code relies on of the file system, whose paths have no NUL and which has
    finitely many directories, and of the digest, which is one line. *)
Record Pinnable : Prop := {
  pn_ids : ∀ id skill, index !! id = Some skill → no_nul id ∧ no_nul (ss_directoryPath skill);
  pn_names : ∀ dir items, readdirSync (disk s) dir = Some items → Forall (λ x, no_nul x) items;
  pn_cwd : no_nul process_cwd;
  pn_disk : ∀ p q, realpathSync s p = Some q → q ∈ realpaths (disk s);
  pn_digest : ∀ text, has_char "010" (sha256 text) = false;
}.
End skill.

Section files.
Context {asst : Assistant} (s : Surroundings).
Hypothesis names : ∀ dir items, readdirSync (disk s) dir = Some items → Forall (λ x, no_nul x) items.
Hypothesis cwd : no_nul process_cwd.

Lemma entry_kind_is full k : entry_kind s full = Some k → k ≠ kind_link → is_a s full k.
Proof.
  unfold entry_kind, is_a. destruct (lstatSync _ _) as [[]|]; try (intros [= <-]; by left).
  destruct (realpathSync s full) as [t|]; [|done]. intros H _. right. split; [done|by exists t].
Qed.
Lemma is_entry_kind full k : is_a s full k → entry_kind s full = Some k.
Proof. unfold entry_kind. intros [[-> Hk]|[-> (t & -> & H)]]; [by destruct k|done]. Qed.

(** The list has exactly the files below the directory. *)
Lemma collectFiles_elem fuel dir base anc files rel : collectFiles s fuel dir base anc = Some files →
  rel ∈ files ↔ ∃ file, below s anc dir file ∧ rel = relative base file.
Proof.
  revert dir anc files. induction fuel as [|fuel IH]; intros dir anc files; [done|]. cbn [collectFiles].
  assert (Hnone : (∀ file, ¬ below s anc dir file) → rel ∈ [] ↔ ∃ file, below s anc dir file ∧ rel = relative base file).
  { intros Hn. split; [by intros ?%elem_of_nil|]. intros (file & Hf & _). by destruct (Hn file). }
  destruct (realpathSync s dir) as [real|] eqn:Hr; [|intros [= <-]; apply Hnone; intros file H; inversion H; congruence].
  case_bool_decide as Ha; [intros [= <-]; apply Hnone; intros file H; inversion H; congruence|].
  destruct (readdirSync (disk s) dir) as [items|] eqn:Hi; [|intros [= <-]; apply Hnone; intros file H; inversion H; congruence].
  clear Hnone. intros Hfiles. trans (∃ name file, name ∈ js_sort string_order items ∧ name ∉ EXCLUDED_NAMES ∧ rel = relative base file ∧
    (is_a s (path_join [dir; name]) kind_file ∧ file = path_join [dir; name]
     ∨ is_a s (path_join [dir; name]) kind_directory ∧ below s ({[real]} ∪ anc) (path_join [dir; name]) file)).
  2: { split.
    - intros (name & file & Hn & Hx & -> & [[Hk ->]|[Hk Hb]]); rewrite js_sort_Permutation in Hn; (eexists; split; [|done]).
      + by eapply below_here.
      + by eapply below_deeper.
    - intros (file & Hfile & ->). inversion Hfile as [? ? real' items' name Hr' _ Hi' Hn Hx Hk|? ? real' items' name ? Hr' _ Hi' Hn Hx Hk Hb]; subst;
        assert (real' = real) as -> by congruence; assert (items' = items) as -> by congruence;
        eexists name, _; rewrite js_sort_Permutation; split_and!; try done; [by left|by right]. }
  revert files Hfiles. induction (js_sort string_order items) as [|name l IHl]; intros files; cbn [foldr].
  { intros [= <-]. split; [by intros ?%elem_of_nil|]. intros (? & ? & []%elem_of_nil & _). }
  match goal with |- (found ← ?f; more ← ?m; _) = _ → _ => destruct f as [found|] eqn:Ef; [|done]; destruct m as [more|] eqn:Em; [|done] end.
  cbn. intros [= <-]. rewrite elem_of_app, (IHl more eq_refl). clear IHl Em.
  assert (Hfound : (rel ∈ found) ↔ ∃ file, name ∉ EXCLUDED_NAMES ∧ rel = relative base file ∧
    (is_a s (path_join [dir; name]) kind_file ∧ file = path_join [dir; name]
     ∨ is_a s (path_join [dir; name]) kind_directory ∧ below s ({[real]} ∪ anc) (path_join [dir; name]) file)).
  { unfold ApprovalPolicy.member in Ef. case_bool_decide as Hx.
    - injection Ef as <-. split; [by intros ?%elem_of_nil|]. by intros (? & ? & _).
    - destruct (entry_kind s (path_join [dir; name])) as [k|] eqn:Ek.
      + destruct k; [| |injection Ef as <-|].
        * injection Ef as <-. split; [by intros ?%elem_of_nil|]. intros (? & _ & _ & [[?%is_entry_kind _]|[?%is_entry_kind _]]); congruence.
        * rewrite (IH _ _ _ Ef). apply entry_kind_is in Ek as Hk; [|done]. split.
          -- intros (file & Hb & ->). exists file. split_and!; [done|done|by right].
          -- intros (file & _ & -> & [[?%is_entry_kind _]|[_ Hb]]); [congruence|by exists file].
        * apply entry_kind_is in Ek as Hk; [|done]. rewrite list_elem_of_singleton. split.
          -- intros ->. eexists. split_and!; [done|done|by left].
          -- by intros (file & _ & -> & [[_ ->]|[?%is_entry_kind _]]); [|congruence].
        * injection Ef as <-. split; [by intros ?%elem_of_nil|]. intros (? & _ & _ & [[?%is_entry_kind _]|[?%is_entry_kind _]]); congruence.
      + injection Ef as <-. split; [by intros ?%elem_of_nil|]. intros (? & _ & _ & [[?%is_entry_kind _]|[?%is_entry_kind _]]); congruence. }
  rewrite Hfound. split.
  - intros [(file & ? & ? & ?)|(name' & file & ? & ? & ? & ?)]; [exists name, file; split; [by left|done]|].
    exists name', file. split; [by right|done].
  - intros (name' & file & [->|Hn]%elem_of_cons & ? & ? & ?); [left; by exists file|right]. by exists name', file.
Qed.

Lemma below_free anc dir file : no_nul dir → below s anc dir file → no_nul file.
Proof.
  intros Hd H. induction H as [anc dir real items name ? ? Hi Hn|anc dir real items name file ? ? Hi Hn ? ? _ IH];
    (assert (no_nul (path_join [dir; name])) by (apply path_join_free; [done|done|];
      apply names in Hi; rewrite Forall_forall in Hi; specialize (Hi name Hn); by repeat constructor)); [done|by apply IH].
Qed.

(** A disk has finitely many real paths: the fuel is enough. *)
Lemma collectFiles_enough fuel dir base anc : (∀ p q, realpathSync s p = Some q → q ∈ realpaths (disk s)) →
  (length (js_filter (λ p, negb (bool_decide (p ∈ anc))) (realpaths (disk s))) < fuel)%nat → is_Some (collectFiles s fuel dir base anc).
Proof.
  intros Hreal. revert dir anc. induction fuel as [|fuel IH]; intros dir anc Hf; [lia|]. cbn [collectFiles].
  destruct (realpathSync s dir) as [real|] eqn:Hr; [|by eexists]. case_bool_decide as Ha; [by eexists|].
  destruct (readdirSync (disk s) dir) as [items|]; [|by eexists].
  assert (Hbelow : ∀ full, is_Some (collectFiles s fuel full base ({[real]} ∪ anc))).
  { intros full. apply IH. eapply Nat.lt_le_trans; [|apply (proj1 (Nat.lt_succ_r _ _) Hf)].
    apply Hreal in Hr. clear -Hr Ha. unfold js_filter. induction (realpaths (disk s)) as [|p l IHl]; [by apply elem_of_nil in Hr|]. cbn.
    assert (Hle : (length (List.filter (λ p, negb (bool_decide (p ∈ {[real]} ∪ anc))) l) ≤ length (List.filter (λ p, negb (bool_decide (p ∈ anc))) l))%nat).
    { clear. induction l as [|q l IHl]; [done|]. cbn. repeat case_bool_decide; cbn; try lia; set_solver. }
    destruct (decide (p = real)) as [->|Hne].
    - rewrite (bool_decide_true (real ∈ {[real]} ∪ anc)), (bool_decide_false (real ∈ anc)) by set_solver. cbn. lia.
    - apply elem_of_cons in Hr as [?|Hr]; [done|]. specialize (IHl Hr). repeat case_bool_decide; cbn; try lia; set_solver. }
  induction (js_sort string_order items) as [|name l [more Hmore]]; [by eexists|]. cbn [foldr]. rewrite Hmore.
  match goal with |- is_Some (found ← ?f; _) => assert (Hfound : is_Some f) end.
  { destruct (ApprovalPolicy.member _ _); [by eexists|]. destruct (entry_kind _ _) as [[]|]; try (by eexists); apply Hbelow. }
  destruct Hfound as [found ->]. by eexists.
Qed.
Lemma collectSkillFiles_total dir : (∀ p q, realpathSync s p = Some q → q ∈ realpaths (disk s)) → is_Some (collectSkillFiles s dir).
Proof. intros H. apply collectFiles_enough; [done|]. apply Nat.lt_succ_r, filter_length_le. Qed.

Lemma forward_slashes_free p : no_nul p → no_nul (forward_slashes p).
Proof. induction p as [|c p IH]; [done|]. cbn. intros [Hc Hp]%orb_false_iff. rewrite IH, orb_false_r by done. by destruct (bool_decide (c = "\"%char)). Qed.
Lemma read_files_elem dir files l path content : read_files s dir files = Some l →
  (path, content) ∈ l ↔ ∃ rel, rel ∈ files ∧ path = forward_slashes rel ∧ readFileSync (disk s) (path_join [dir; rel]) = Some content.
Proof.
  revert l. induction files as [|rel files IH]; intros l; cbn [read_files].
  { intros [= <-]. split; [by intros ?%elem_of_nil|by intros (? & ?%elem_of_nil & _)]. }
  destruct (readFileSync _ _) as [c|] eqn:Ec; [|done]. cbn. destruct (read_files s dir files) as [rest|]; [|done]. cbn. intros [= <-].
  rewrite elem_of_cons, (IH rest eq_refl). split.
  - intros [[= -> ->]|(r & ? & ? & ?)]; [exists rel|exists r]; split_and!; try done; by constructor.
  - intros (r & [->|Hr]%elem_of_cons & -> & Hc); [left; congruence|right; by exists r].
Qed.
Lemma read_files_some dir files : (∀ rel, rel ∈ files → is_Some (readFileSync (disk s) (path_join [dir; rel]))) ↔ is_Some (read_files s dir files).
Proof.
  induction files as [|rel files IH]; cbn [read_files]; [split; [by eexists|by intros _ ? ?%elem_of_nil]|].
  destruct (readFileSync _ _) as [c|] eqn:Ec; cbn; [|split; [intros H; specialize (H rel ltac:(by left)); rewrite Ec in H; by destruct H|by intros [? ?]]].
  trans (is_Some (read_files s dir files)); [rewrite <- IH|destruct (read_files s dir files); by split; intros [? ?]; [eexists|]].
  split; intros H r; [intros Hr; apply H; by right|intros [->|?]%elem_of_cons; [by rewrite Ec|by apply H]].
Qed.
End files.

#[local] Arguments collectSkillFiles : simpl never.

Section version.
Context {asst : Assistant} (s : Surroundings) (index : gmap string SkillSummary).
Hypothesis ok : Pinnable s index.

Definition contents (id : string) : option (list (string * string)) := skill ← index !! id; skill_files s (ss_directoryPath skill).
Definition version (id : string) : option string := skill ← index !! id; computeSkillVersionHash s (ss_directoryPath skill).

Lemma collected id skill : index !! id = Some skill → ∃ files, collectSkillFiles s (ss_directoryPath skill) = Some files
  ∧ ∀ rel content, has_file s index id rel content ↔ rel ∈ files ∧ content = readFileSync (disk s) (path_join [ss_directoryPath skill; rel]).
Proof.
  intros Hid. destruct (collectSkillFiles_total s (ss_directoryPath skill) (pn_disk _ _ ok)) as [files E]. exists files. split; [done|].
  intros rel content. rewrite (collectFiles_elem s _ _ _ _ _ rel E). split.
  - intros (skill' & file & Hid' & Hb & Hrel & Hc). assert (skill' = skill) as -> by congruence. split; [by exists file|done].
  - intros [(file & Hb & Hrel) Hc]. by exists skill, file.
Qed.
(** A skill has contents if its files can be read, and they are what it holds. *)
Lemma contents_some id : is_Some (index !! id) → is_Some (contents id) ↔ readable s index id.
Proof.
  intros [skill Hid]. unfold contents, skill_files, readable. rewrite Hid. cbn. destruct (collected id skill Hid) as (files & -> & Hf). cbn.
  rewrite <- read_files_some. split.
  - intros H rel content [Hr ->]%Hf. by apply H.
  - intros H rel Hr. apply (H rel). by apply Hf.
Qed.
Lemma contents_holds id l : contents id = Some l → ∀ path content, holds s index id path content ↔ (path, content) ∈ l.
Proof.
  unfold contents, skill_files, holds. destruct (index !! id) as [skill|] eqn:Hid; [|done]. cbn.
  destruct (collected id skill Hid) as (files & -> & Hf). cbn. intros Hl path content. rewrite (read_files_elem _ _ _ _ _ _ Hl). split.
  - intros (rel & [Hr Hc]%Hf & ->). by exists rel.
  - intros (rel & Hr & -> & Hc). exists rel. split; [|done]. by apply Hf.
Qed.
Lemma contents_free id l : contents id = Some l → Forall (λ x, no_nul x.1) l.
Proof.
  intros Hl. rewrite Forall_forall. intros [path content] Hx. apply (contents_holds id l Hl) in Hx as (rel & (skill & file & Hid & Hb & -> & _) & ->).
  destruct (pn_ids _ _ ok id skill Hid) as [_ Hd]. apply forward_slashes_free, relative_free; try done; [apply (pn_cwd _ _ ok)|].
  eapply below_free; [apply (pn_names _ _ ok)|done..].
Qed.
Lemma version_text id : version id = (λ l, "v1:" +:+ sha256 (files_text l)) <$> contents id.
Proof. unfold version, contents, computeSkillVersionHash. destruct (index !! id); [|done]. cbn. by destruct (skill_files _ _). Qed.
Lemma version_line id hash : version id = Some hash → has_char "010" hash = false.
Proof. rewrite version_text. destruct (contents id); [|done]. intros [= <-]. exact (pn_digest _ _ ok _). Qed.
Lemma transitive_text_some visited : is_Some (transitive_text s index visited) ↔ Forall (λ id, is_Some (contents id)) visited.
Proof.
  induction visited as [|id rest IH]; [split; [constructor|by eexists]|]. rewrite Forall_cons, <- IH. cbn [transitive_text]. pose proof (version_text id) as Hv.
  unfold version in Hv. destruct (index !! id) as [skill|] eqn:Hid; cbn in Hv |- *; [|unfold contents; rewrite Hid; split; [by intros [? ?]|by intros [[? ?] _]]].
  rewrite Hv. destruct (contents id) as [l|]; cbn; [|split; [by intros [? ?]|by intros [[? ?] _]]].
  destruct (transitive_text s index rest); cbn; [split; [split|]; by eexists|split; [by intros [? ?]|by intros [_ [? ?]]]].
Qed.
Lemma transitive_text_cons id rest text : transitive_text s index (id :: rest) = Some text →
  ∃ hash text', is_Some (index !! id) ∧ version id = Some hash ∧ transitive_text s index rest = Some text'
    ∧ text = id +:+ String "000" (hash +:+ String "010" text').
Proof.
  cbn. unfold version. destruct (index !! id) as [skill|]; cbn; [|done]. destruct (computeSkillVersionHash _ _) as [hash|]; cbn; [|done].
  destruct (transitive_text s index rest) as [text'|]; cbn; [|done]. intros [= <-]. by exists hash, text'.
Qed.
End version.

Lemma same_length_inj a b x y : String.length a = String.length b → a +:+ x = b +:+ y → a = b ∧ x = y.
Proof.
  revert b. induction a as [|c a IH]; intros [|d b]; cbn; try done. intros [= Hl] [= -> E]. by destruct (IH b Hl E) as [-> ->].
Qed.
Lemma files_text_inj l l' : Forall (λ x, no_nul x.1) l → Forall (λ x, no_nul x.1) l' → files_text l = files_text l' → l = l'.
Proof.
  intros H. revert l'. induction H as [|[p content] l Hp _ IH]; intros [|[p' content'] l'] Hl'; [done|intros E; by destruct p'|intros E; by destruct p|].
  apply Forall_cons in Hl' as [Hp' Hl']. cbn [files_text]. intros [-> E]%first_sep; [|done..].
  apply first_sep in E as [El E]; [|apply pretty_no_nul..]. apply (inj pretty), Nat2Z.inj in El.
  apply same_length_inj in E as [-> [= E]]; [|done]. f_equal. by apply IH.
Qed.

Lemma version_contents {asst : Assistant} `{!Sha256Ok asst} s s' index index' id hash : Pinnable s index → Pinnable s' index' →
  version s index id = Some hash → version s' index' id = Some hash → contents s index id = contents s' index' id ∧ is_Some (contents s index id).
Proof.
  intros H H'. rewrite !version_text. destruct (contents s index id) as [l|] eqn:El; [|done]. destruct (contents s' index' id) as [l'|] eqn:El'; [|done].
  cbn [fmap option_fmap option_map]. intros [= <-] [= E%sha256_inj]. apply files_text_inj in E as ->; [by split|exact (contents_free _ _ H' _ _ El')|exact (contents_free _ _ H _ _ El)].
Qed.

Lemma transitive_text_inj {asst : Assistant} `{!Sha256Ok asst} s s' index index' visited visited' text : Pinnable s index → Pinnable s' index' →
  transitive_text s index visited = Some text → transitive_text s' index' visited' = Some text →
  visited = visited' ∧ Forall (λ id, contents s index id = contents s' index' id ∧ is_Some (contents s index id)) visited.
Proof.
  intros H H'. revert visited' text. induction visited as [|id rest IH]; intros [|id' rest'] text.
  - done.
  - intros [= <-] (hash & text' & _ & _ & _ & E)%transitive_text_cons. by destruct id'.
  - intros (hash & text' & _ & _ & _ & ->)%transitive_text_cons [= E]. by destruct id.
  - intros (hash & t & [k Hk] & Hv & Ht & ->)%transitive_text_cons (hash' & t' & [k' Hk'] & Hv' & Ht' & E)%transitive_text_cons.
    apply first_sep in E as [-> E]; [|exact (proj1 (pn_ids _ _ H _ _ Hk))|exact (proj1 (pn_ids _ _ H' _ _ Hk'))].
    apply first_sep in E as [-> ->]; [|exact (version_line _ _ H _ _ Hv)|exact (version_line _ _ H' _ _ Hv')].
    destruct (IH rest' t' Ht Ht') as [-> Hr]. split; [done|]. constructor; [|done]. by eapply version_contents.
Qed.

(** A skill that includes another. *)
Definition demo_catalog : list SkillSummary :=
  [mkSkill "report" "Report" "Report" "/skills/report" None (Some ["tables"]) (Some ["date"]);
   mkSkill "tables" "Tables" "Tables" "/skills/tables" None None None].
Definition demo_skills : Surroundings :=
  {| getTool := λ _, None; getToolOwner := λ _, None; loadSkillCatalog := demo_catalog;
     disk := {|
       readdirSync dir := if eqs dir "/skills/report" then Some ["run.sh"; "SKILL.md"; ".git"] else if eqs dir "/skills/tables" then Some ["more"]
         else if eqs dir "/skills/tables/more" then Some ["again"; "one.csv"] else None;
       lstatSync p := if eqs p "/skills/tables/more/again" then Some kind_link else if eqs p "/skills/tables/more" then Some kind_directory else Some kind_file;
       statSync p := Some kind_directory;
       readFileSync p := Some (p +:+ " as it is");
       realpaths := ["/skills/report"; "/skills/tables"; "/skills/tables/more"] |};
     skills_load_extraDirs := [];
     realpathSync := λ p, if eqs p "/skills/tables/more/again" then Some "/skills/tables/more"
       else if bool_decide (p ∈ ["/skills/report"; "/skills/tables"; "/skills/tables/more"]) then Some p else None |}.
Definition demo_index : gmap string SkillSummary := indexCatalogById demo_catalog.

#[local] Instance demo_asst_here : Assistant := demo_asst.
Lemma demo_pinnable : Pinnable demo_skills demo_index.
Proof.
  split.
  - intros id skill. unfold demo_index, indexCatalogById, demo_catalog. cbn [foldl ss_id].
    intros [[<- <-]|[_ [[<- <-]|[_ H]]%lookup_insert_Some]]%lookup_insert_Some; [by split..|]. by rewrite lookup_empty in H.
  - intros dir items. cbn. repeat case_match; intros [= <-]; by repeat constructor.
  - done.
  - intros p q. cbn. destruct (eqs _ _); [intros [= <-]; by repeat constructor|]. case_bool_decide; [by intros [= <-]|done].
  - intros text. induction text as [|c text IH]; [done|]. cbn [sha256 demo_asst_here demo_asst hex_text has_char]. change (sha256 text) with (hex_text text) in IH.
    rewrite IH, orb_false_r. destruct c as [[] [] [] [] [] [] [] []]; reflexivity.
Qed.

(** * Claims *)

(** C32. A transitive version hash pins a skill. It is given exactly where the include graph
    of the skill has no cycle and no missing skill and every file of the skills reached can
    be read. Where two are equal, whatever changed on disk or in the catalog in between, the
    skills reached are the same in the same order, and each holds the same files, by their
    paths from its directory (with forward slashes), with the same bytes: all that is below
    the directory, behind links too, but for what is excluded as transient. *)
Theorem transitive_hash_pins {asst : Assistant} `{!Sha256Ok asst} s index root : Pinnable s index →
  let hash := computeTransitiveSkillVersionHash s root index in
  (is_Some hash ↔ ∃ visited, validateIncludes index root = Some (inr visited)
     ∧ Forall (λ id, is_Some (index !! id) ∧ readable s index id) visited)
  ∧ ∀ s' index' root', Pinnable s' index' → is_Some hash → computeTransitiveSkillVersionHash s' root' index' = hash →
      ∃ visited, validateIncludes index root = Some (inr visited) ∧ validateIncludes index' root' = Some (inr visited)
        ∧ Forall (λ id, ∀ path content, holds s index id path content ↔ holds s' index' id path content) visited.
Proof.
  intros Hp hash. split.
  - unfold hash, computeTransitiveSkillVersionHash. destruct (validateIncludes index root) as [[e|visited]|];
      [split; [by intros [? ?]|by intros (? & ? & _)]| |split; [by intros [? ?]|by intros (? & ? & _)]].
    trans (is_Some (transitive_text s index visited)); [by destruct (transitive_text s index visited); split; intros [? ?]; try eexists|].
    rewrite transitive_text_some by done. split.
    + intros H. exists visited. split; [done|]. eapply Forall_impl; [exact H|]. intros id Hid.
      assert (is_Some (index !! id)) by (unfold contents in Hid; destruct (index !! id); [done|by destruct Hid]). split; [done|by apply contents_some].
    + intros (v & [= <-] & H). eapply Forall_impl; [exact H|]. intros id [? ?]. by apply contents_some.
  - intros s' index' root' Hp' [h Eh] E. rewrite Eh in E. unfold hash, computeTransitiveSkillVersionHash in E, Eh.
    destruct (validateIncludes index root) as [[e|visited]|]; [done| |done].
    destruct (validateIncludes index' root') as [[e|visited']|]; [done| |done].
    destruct (transitive_text s index visited) as [text|] eqn:Et; cbn in Eh; [|done].
    destruct (transitive_text s' index' visited') as [text'|] eqn:Et'; cbn in E; [|done].
    assert (sha256 text = sha256 text') as ->%sha256_inj by (rewrite <- E in Eh; by injection Eh).
    destruct (transitive_text_inj _ _ _ _ _ _ _ Hp Hp' Et Et') as [-> Hv]. exists visited'. split_and!; [done..|].
    eapply Forall_impl; [exact Hv|]. intros id [Ec [l El]] path content. rewrite (contents_holds s index Hp id l El).
    rewrite El in Ec. by rewrite (contents_holds s' index' Hp' id l (eq_sym Ec)).
Qed.

(** Witness of C32. *)
Lemma transitive_hash_pins_witness :
  let hash := computeTransitiveSkillVersionHash demo_skills "report" demo_index in
  is_Some hash ∧ ∃ visited, validateIncludes demo_index "report" = Some (inr visited) ∧ visited = ["report"; "tables"]
    ∧ ∀ id, id ∈ visited → readable demo_skills demo_index id.
Proof.
  assert (E : validateIncludes demo_index "report" = Some (inr ["report"; "tables"])) by (vm_compute; reflexivity).
  destruct (transitive_hash_pins (asst := demo_asst) demo_skills demo_index "report" demo_pinnable) as [[H _] _].
  assert (Hh : is_Some (computeTransitiveSkillVersionHash demo_skills "report" demo_index)) by (vm_compute; by eexists).
  split; [exact Hh|]. destruct (H Hh) as (visited & Hv & Hr). exists visited. split; [exact Hv|]. rewrite E in Hv. injection Hv as <-.
  split; [reflexivity|]. rewrite Forall_forall in Hr. intros id Hid. by apply Hr.
Defined.
