(* ===== verification/StreamState.v ===== *)
(** * Sequence numbers and replay of the event stream

    src/assistant/src/runtime/assistant-stream-state.ts: the counter that numbers the
    events of every conversation, the block of numbers reserved on disk so that a
    restarted process continues above every number given out before, the ring of recent
    events that a reconnecting client is replayed from, and the numbers up to which a
    conversation has been persisted.

    The reservation file is part of the state, as the JSON value it holds; a write takes
    effect where the file is writable, which the environment may change.  The clock
    readings are arguments. *)
From S2P Require Import Prelude RuntimeTypes RiskTypes.

Definition RING_COUNT_LIMIT : Z := 200.
Definition RING_SIZE_LIMIT_BYTES : Z := 262144.
Definition RING_AGE_LIMIT_MS : Z := 30000.
Definition PERSISTED_SEQ_CONVERSATION_LIMIT : Z := 1024.
Definition SEQ_RESERVATION_BLOCK : Z := 1024.

Inductive HostProxyCapability := cap_bash | cap_file | cap_cu | cap_browser | cap_app_control.
#[export] Instance HostProxyCapability_eq_dec : EqDecision HostProxyCapability.
Proof. solve_decision. Defined.

(** An outbound message: its fields, the type among them. *)
Definition ServerMessage : Type := list (string * json).
Definition text_field (k : string) (m : ServerMessage) : option string :=
  match field k m with Some (JStr s) => Some s | _ => None end.
Definition message_type (m : ServerMessage) : string := default "" (text_field "type" m).

Record AssistantEvent := mkEvent {
  ae_id : string;
  ae_conversationId : option string;
  ae_seq : option Z;
  ae_emittedAt : Z;
  ae_message : ServerMessage;
}.
Definition set_seq (n : Z) (e : AssistantEvent) : AssistantEvent :=
  mkEvent (ae_id e) (ae_conversationId e) (Some n) (ae_emittedAt e) (ae_message e).

(** [JSON.stringify(event)]; [seq] is assigned to an object that has the other fields, so
    it comes last.  [iso] is [toISOString]. *)
Definition event_json (iso : Z → string) (e : AssistantEvent) : json :=
  JObj ([("id", JStr (ae_id e))]
    ++ match ae_conversationId e with Some c => [("conversationId", JStr c)] | None => [] end
    ++ [("emittedAt", JStr (iso (ae_emittedAt e))); ("message", JObj (ae_message e))]
    ++ match ae_seq e with Some n => [("seq", JNum n)] | None => [] end).

Record EventTargeting := mkTargeting {
  tg_capability : option HostProxyCapability;
  tg_clientId : option string;
  tg_interfaceId : option string;
  tg_excludeClientId : option string;
}.

(** An interface, or a member that every object inherits where one was looked up by name. *)
Definition InterfaceId : Type := Member string.
Definition is_interface (i : string) (id : InterfaceId) : bool := match id with own j => eqs j i | inherited => false end.

Record ReplayClient := mkReplayClient {
  rc_clientId : string;
  rc_interfaceId : InterfaceId;
  rc_capabilities : list HostProxyCapability;
}.
(** A subscriber of type [process] is [None]. *)
Definition ReplaySubscriber : Type := option ReplayClient.

Record RingEntry := mkRingEntry {
  re_seq : Z;
  re_event : AssistantEvent;
  re_emittedAt : Z;
  re_sizeBytes : Z;
  re_targeting : option EventTargeting;
}.

Record Stream := mkStream {
  sm_nextSeq : Z;
  sm_reservedSeqCeiling : Z;
  sm_seqReservationLoaded : bool;
  sm_firstStampedSeq : Z;
  sm_ring : list RingEntry;
  sm_totalSizeBytes : Z;
  sm_persistedSeq : jsmap string Z;
  sm_file : option json;
  sm_writable : bool;
}.

Definition empty_stream (file : option json) (writable : bool) : Stream :=
  mkStream 1 0 false 0 [] 0 [] file writable.

(** ** Numbers *)

Definition readReservedCeiling (file : option json) : Z :=
  match file with
  | Some (JObj o) => match field "reservedSeqCeiling" o with Some (JNum n) => if 0 <? n then n else 0 | _ => 0 end
  | _ => 0
  end.

Definition load_reservation (s : Stream) : Stream :=
  if sm_seqReservationLoaded s then s
  else
    let ceiling := readReservedCeiling (sm_file s) in
    let next := if sm_nextSeq s <=? ceiling then ceiling + 1 else sm_nextSeq s in
    mkStream next ceiling true (sm_firstStampedSeq s) (sm_ring s) (sm_totalSizeBytes s) (sm_persistedSeq s) (sm_file s) (sm_writable s).

Definition reserveSeqCapacity (s0 : Stream) : Stream :=
  let s := load_reservation s0 in
  if sm_nextSeq s <=? sm_reservedSeqCeiling s then s
  else
    let ceiling := sm_nextSeq s + SEQ_RESERVATION_BLOCK - 1 in
    let file := if sm_writable s then Some (JObj [("reservedSeqCeiling", JNum ceiling)]) else sm_file s in
    mkStream (sm_nextSeq s) ceiling (sm_seqReservationLoaded s) (sm_firstStampedSeq s) (sm_ring s) (sm_totalSizeBytes s)
      (sm_persistedSeq s) file (sm_writable s).

(** ** The ring *)

Definition with_ring (ring : list RingEntry) (total : Z) (s : Stream) : Stream :=
  mkStream (sm_nextSeq s) (sm_reservedSeqCeiling s) (sm_seqReservationLoaded s) (sm_firstStampedSeq s) ring total
    (sm_persistedSeq s) (sm_file s) (sm_writable s).

Fixpoint evict_from (now : Z) (ring : list RingEntry) (total : Z) : list RingEntry * Z :=
  match ring with
  | [] => ([], total)
  | head :: rest =>
      let overCount := RING_COUNT_LIMIT <? Z.of_nat (length ring) in
      let overSize := RING_SIZE_LIMIT_BYTES <? total in
      let overAge := RING_AGE_LIMIT_MS <? now - re_emittedAt head in
      if negb overCount && negb overSize && negb overAge then (ring, total)
      else evict_from now rest (total - re_sizeBytes head)
  end.
Definition evict (now : Z) (s : Stream) : Stream :=
  let '(ring, total) := evict_from now (sm_ring s) (sm_totalSizeBytes s) in with_ring ring total s.

(** Gives a conversation's event its number and puts it in the ring; [iso] is what the
    size of the event depends on. *)
Definition stampAndBuffer (iso : Z → string) (event : AssistantEvent) (targeting : option EventTargeting)
    (emittedAt now : Z) (s0 : Stream) : AssistantEvent * Stream :=
  match ae_conversationId event with
  | None => (event, s0)
  | Some _ =>
      let s := reserveSeqCapacity s0 in
      let n := sm_nextSeq s in
      let event' := set_seq n event in
      let first := if sm_firstStampedSeq s =? 0 then n else sm_firstStampedSeq s in
      let size := Z.of_nat (String.length (json_stringify (event_json iso event'))) in
      let s1 := mkStream (n + 1) (sm_reservedSeqCeiling s) (sm_seqReservationLoaded s) first
        (sm_ring s ++ [mkRingEntry n event' emittedAt size targeting]) (sm_totalSizeBytes s + size)
        (sm_persistedSeq s) (sm_file s) (sm_writable s) in
      (event', evict now s1)
  end.

(** [matchesSubscriber]; the first test of a target that does not hold decides. *)
Definition matchesSubscriber (targeting : option EventTargeting) (subscriber : ReplaySubscriber) : bool :=
  match targeting with
  | None => true
  | Some t =>
      let is_client id := match subscriber with Some c => eqs (rc_clientId c) id | None => false end in
      let capable cap := match subscriber with Some c => bool_decide (cap ∈ rc_capabilities c) | None => false end in
      if match tg_excludeClientId t with Some id => is_client id | None => false end then false
      else if match tg_interfaceId t with
              | Some i => negb match subscriber with Some c => is_interface i (rc_interfaceId c) | None => false end
              | None => false
              end then false
      else match tg_clientId t with
           | Some id =>
               if negb (is_client id) then false
               else match tg_capability t with Some cap => capable cap | None => true end
           | None => match tg_capability t with Some cap => capable cap | None => true end
           end
  end.

(** [subscriber = None] of the source is not used by any caller. *)
Definition replayable (lastSeenSeq : Z) (subscriber : ReplaySubscriber) (conversationId : option string) (e : RingEntry) : bool :=
  (lastSeenSeq <? re_seq e)
  && match conversationId with Some c => eqos (ae_conversationId (re_event e)) (Some c) | None => true end
  && matchesSubscriber (re_targeting e) subscriber.

Definition getReplayWindow (lastSeenSeq : Z) (subscriber : ReplaySubscriber) (conversationId : option string)
    (now : Z) (s0 : Stream) : option (list AssistantEvent) * Stream :=
  let s := evict now s0 in
  match sm_ring s with
  | [] => (Some [], s)
  | oldest :: _ =>
      let coversRestartGap := (lastSeenSeq <? sm_firstStampedSeq s) && (re_seq oldest =? sm_firstStampedSeq s) in
      if (lastSeenSeq <? re_seq oldest - 1) && negb coversRestartGap then (None, s)
      else (Some (re_event <$> js_filter (replayable lastSeenSeq subscriber conversationId) (sm_ring s)), s)
  end.

Definition getCurrentSeq (s : Stream) : Z := sm_nextSeq s - 1.

(** ** Persisted numbers *)

Definition set_persisted (m : jsmap string Z) (s : Stream) : Stream :=
  mkStream (sm_nextSeq s) (sm_reservedSeqCeiling s) (sm_seqReservationLoaded s) (sm_firstStampedSeq s) (sm_ring s)
    (sm_totalSizeBytes s) m (sm_file s) (sm_writable s).

Definition recordPersistedSeq (conversationId : string) (seq : Z) (s : Stream) : Stream :=
  if seq <=? 0 then s
  else
    let m := sm_persistedSeq s in
    match jget conversationId m with
    | Some prev => set_persisted (jset conversationId (Z.max prev seq) (jdel conversationId m)) s
    | None =>
        let m' := jset conversationId seq m in
        set_persisted
          (if PERSISTED_SEQ_CONVERSATION_LIMIT <? Z.of_nat (length m') then
             match jkeys m' with oldestKey :: _ => jdel oldestKey m' | [] => m' end
           else m') s
    end.
Definition getPersistedSeq (conversationId : string) (s : Stream) : option Z := jget conversationId (sm_persistedSeq s).

(** A new assignment of the process, and a restart: the same for this module. *)
Definition resetAssistantStreamStateForTenantAssignment (s : Stream) : Stream := empty_stream (sm_file s) (sm_writable s).
