(* ===== verification/StreamProps.v ===== *)
(** * What the event stream guarantees

    Numbers grow for ever, across restarts, as long as the reservation can be written;
    and a replay answers with everything the process has stamped since it started that
    passes its filter, or says that it cannot.  HubProps.v compares the filter with what
    a client would have been sent live. *)
From S2P Require Import Prelude RuntimeTypes RiskTypes StreamState.
From Stdlib Require Import Sorted.

(** ** Calls *)
Inductive StreamCall :=
  | stream_stamp (event : AssistantEvent) (targeting : option EventTargeting) (emittedAt now : Z)
  | stream_replay (lastSeenSeq : Z) (subscriber : ReplaySubscriber) (conversationId : option string) (now : Z)
  | stream_persisted (conversationId : string) (seq : Z)
  | stream_restart.

(** The process has stamped these entries since it started, oldest first. *)
Record Journal := mkJournal { jn_stream : Stream; jn_stamped : list RingEntry; jn_numbers : list Z }.

Section stream.
Context (iso : Z → string).

Definition stamped_entry (event : AssistantEvent) (targeting : option EventTargeting) (emittedAt : Z) (s : Stream) : RingEntry :=
  let n := sm_nextSeq (reserveSeqCapacity s) in
  mkRingEntry n (set_seq n event) emittedAt (Z.of_nat (String.length (json_stringify (event_json iso (set_seq n event))))) targeting.

Definition stream_step (c : StreamCall) (j : Journal) : Journal :=
  let s := jn_stream j in
  match c with
  | stream_stamp event targeting emittedAt now =>
      let '(event', s') := stampAndBuffer iso event targeting emittedAt now s in
      match ae_seq event' with
      | Some n => if is_null (ae_conversationId event) then mkJournal s' (jn_stamped j) (jn_numbers j)
                  else mkJournal s' (jn_stamped j ++ [stamped_entry event targeting emittedAt s]) (jn_numbers j ++ [n])
      | None => mkJournal s' (jn_stamped j) (jn_numbers j)
      end
  | stream_replay last subscriber conversationId now =>
      mkJournal (getReplayWindow last subscriber conversationId now s).2 (jn_stamped j) (jn_numbers j)
  | stream_persisted conversationId seq => mkJournal (recordPersistedSeq conversationId seq s) (jn_stamped j) (jn_numbers j)
  | stream_restart => mkJournal (resetAssistantStreamStateForTenantAssignment s) [] (jn_numbers j)
  end.
Definition stream_run (calls : list StreamCall) (j : Journal) : Journal := foldl (λ j c, stream_step c j) j calls.

Definition journal_of (file : option json) : Journal := mkJournal (empty_stream file true) [] [].

(** ** The invariant *)

(** Consecutive numbers up to [n]. *)
Fixpoint up_to (n : Z) (l : list RingEntry) : Prop :=
  match l with
  | [] => True
  | e :: rest => re_seq e = n - Z.of_nat (length l) ∧ up_to n rest
  end.

(** What is kept is the end of what was stamped; its numbers are consecutive. *)
Record ring_ok (s : Stream) (stamped : list RingEntry) : Prop := {
  ro_suffix : sm_ring s `suffix_of` stamped;
  ro_numbers : up_to (sm_nextSeq s) stamped;
  ro_first : sm_firstStampedSeq s = match stamped with e :: _ => re_seq e | [] => 0 end;
  ro_next : 0 < sm_nextSeq s - Z.of_nat (length stamped);
}.

(** Everything given out is covered by the file, and by the counter once it is loaded. *)
Record numbers_ok (s : Stream) (stamped : list RingEntry) (numbers : list Z) : Prop := {
  no_sorted : StronglySorted Z.lt numbers;
  no_file : sm_writable s = true ∧ ∀ n, n ∈ numbers → n ≤ readReservedCeiling (sm_file s);
  no_fresh : sm_seqReservationLoaded s = false → sm_nextSeq s = 1 ∧ sm_reservedSeqCeiling s = 0 ∧ stamped = [];
  no_loaded : sm_seqReservationLoaded s = true →
    sm_reservedSeqCeiling s = readReservedCeiling (sm_file s) ∧ sm_nextSeq s ≤ sm_reservedSeqCeiling s + 1
    ∧ ∀ n, n ∈ numbers → n < sm_nextSeq s;
}.
Definition journal_ok (j : Journal) : Prop :=
  ring_ok (jn_stream j) (jn_stamped j) ∧ numbers_ok (jn_stream j) (jn_stamped j) (jn_numbers j).

Lemma up_to_app n l k : up_to n (l ++ k) ↔ up_to (n - Z.of_nat (length k)) l ∧ up_to n k.
Proof. induction l as [|e l IH]; cbn; [tauto|]. rewrite IH, length_app.
  assert (n - Z.of_nat (S (length l + length k)) = n - Z.of_nat (length k) - Z.of_nat (S (length l))) as -> by lia. tauto.
Qed.

Lemma up_to_range n l e : up_to n l → e ∈ l → n - Z.of_nat (length l) ≤ re_seq e < n.
Proof.
  induction l as [|e' l IH]; [by intros _ ?%elem_of_nil|]. cbn. intros [H1 H2] [->|H]%elem_of_cons; [lia|]. specialize (IH H2 H). lia.
Qed.

Lemma evict_from_suffix now ring total : (evict_from now ring total).1 `suffix_of` ring.
Proof.
  revert total. induction ring as [|e ring IH]; intros total; [done|]. cbn.
  destruct (negb _ && _ && _); [done|]. etrans; [apply IH|]. by apply suffix_cons_r.
Qed.
Lemma evict_ring now s : sm_ring (evict now s) `suffix_of` sm_ring s.
Proof. unfold evict. pose proof (evict_from_suffix now (sm_ring s) (sm_totalSizeBytes s)). by destruct (evict_from _ _ _). Qed.

(** The fields that [evict] leaves alone. *)
Definition counters (s : Stream) :=
  (sm_nextSeq s, sm_reservedSeqCeiling s, sm_seqReservationLoaded s, sm_firstStampedSeq s, sm_file s, sm_writable s).
Lemma evict_counters now s : counters (evict now s) = counters s.
Proof. unfold evict. by destruct (evict_from _ _ _). Qed.

Lemma journal_ok_counters s s' stamped numbers : counters s' = counters s → sm_ring s' `suffix_of` sm_ring s →
  journal_ok (mkJournal s stamped numbers) → journal_ok (mkJournal s' stamped numbers).
Proof.
  intros Hc Hr [[A B C D] [E F G I]]; unfold counters in Hc; injection Hc as H1 H2 H3 H4 H5 H6; cbn in *. split; split; cbn; rewrite ?H1, ?H2, ?H3, ?H4, ?H5, ?H6; try done.
  by etrans.
Qed.

Lemma readReservedCeiling_nonneg file : 0 ≤ readReservedCeiling file.
Proof. unfold readReservedCeiling. repeat case_match; lia. Qed.

Lemma reserve_ok s stamped numbers : journal_ok (mkJournal s stamped numbers) →
  journal_ok (mkJournal (reserveSeqCapacity s) stamped numbers) ∧ sm_seqReservationLoaded (reserveSeqCapacity s) = true
  ∧ sm_nextSeq (reserveSeqCapacity s) ≤ sm_reservedSeqCeiling (reserveSeqCapacity s).
Proof.
  intros H. assert (H1 : journal_ok (mkJournal (load_reservation s) stamped numbers) ∧ sm_seqReservationLoaded (load_reservation s) = true).
  { unfold load_reservation. destruct (sm_seqReservationLoaded s) eqn:El; [done|]. split; [|done].
    destruct H as [[A B C D] [E [W F] G _]]; cbn in *. destruct (G El) as (En & _ & ->). clear G.
    pose proof (readReservedCeiling_nonneg (sm_file s)) as Hc.
    split; split; cbn; try done.
    - destruct (Z.leb_spec (sm_nextSeq s) (readReservedCeiling (sm_file s))); lia.
    - intros _. split; [done|]. destruct (Z.leb_spec (sm_nextSeq s) (readReservedCeiling (sm_file s))); (split; [lia|]);
        intros n Hn; specialize (F n Hn); lia. }
  clear H. revert H1. unfold reserveSeqCapacity. generalize (load_reservation s) as s1. intros s1 [H El].
  destruct (Z.leb_spec (sm_nextSeq s1) (sm_reservedSeqCeiling s1)); [done|]. cbn. split; [|split; [done|unfold SEQ_RESERVATION_BLOCK; lia]].
  destruct H as [[A B C D] [E [W F] G I]]; cbn in *. destruct (I El) as (Ec & Hle & Hn). rewrite W.
  set (ceiling := sm_nextSeq s1 + SEQ_RESERVATION_BLOCK - 1).
  assert (Hr : readReservedCeiling (Some (JObj [("reservedSeqCeiling", JNum ceiling)])) = ceiling).
  { change ((if 0 <? ceiling then ceiling else 0) = ceiling). pose proof (readReservedCeiling_nonneg (sm_file s1)).
    rewrite (proj2 (Z.ltb_lt 0 ceiling)); [done|]. unfold ceiling, SEQ_RESERVATION_BLOCK. lia. }
  split; split; cbn -[readReservedCeiling]; rewrite ?Hr; try done.
  - split; [done|]. intros n H'. specialize (Hn n H'). unfold ceiling, SEQ_RESERVATION_BLOCK. lia.
  - intros ?. congruence.
  - intros _. split; [done|]. unfold ceiling, SEQ_RESERVATION_BLOCK. split; [lia|done].
Qed.

Lemma numbers_snoc (l : list Z) n : StronglySorted Z.lt l → (∀ m, m ∈ l → m < n) → StronglySorted Z.lt (l ++ [n]).
Proof.
  induction 1 as [|m l Hs IH Hm]; intros H; [repeat constructor|]. cbn. constructor.
  - apply IH. intros m' ?. apply H. by right.
  - rewrite Forall_forall in *. intros m' [?|[->|[]%elem_of_nil]%elem_of_cons]%elem_of_app; [by apply Hm|]. apply H. by left.
Qed.

Lemma stamp_ok event targeting emittedAt now j : journal_ok j → journal_ok (stream_step (stream_stamp event targeting emittedAt now) j).
Proof.
  intros H. destruct j as [s stamped numbers]. unfold stream_step, jn_stream, jn_stamped, jn_numbers, stampAndBuffer.
  destruct (ae_conversationId event) as [c|] eqn:Ec; cbn [is_null]; [|destruct (ae_seq event); exact H].
  cbn [ae_seq set_seq]. eapply journal_ok_counters; [apply evict_counters|apply evict_ring|].
  destruct (reserve_ok _ _ _ H) as ([[A B C D] [E [W F] G I]] & El & Hle). unfold stamped_entry.
  set (s1 := reserveSeqCapacity s) in *. cbn in *. destruct (I El) as (Er & _ & Hn).
  split; split; cbn.
  - destruct A as [gone ->]. exists gone. by rewrite app_assoc.
  - rewrite up_to_app. cbn. split; [|split; [lia|done]]. by replace (sm_nextSeq s1 + 1 - Z.of_nat 1) with (sm_nextSeq s1) by lia.
  - destruct stamped as [|e rest]; cbn; [by rewrite C|]. rewrite C.
    cbn in B, D. destruct (Z.eqb_spec (re_seq e) 0); [lia|done].
  - rewrite length_app. cbn. lia.
  - by apply numbers_snoc.
  - split; [done|]. intros n [H'|[->|[]%elem_of_nil]%elem_of_cons]%elem_of_app; [by apply F|]. rewrite <- Er. done.
  - congruence.
  - intros _. split; [done|]. split; [lia|]. intros n [H'|[->|[]%elem_of_nil]%elem_of_cons]%elem_of_app; [specialize (Hn n H')|]; lia.
Qed.

Lemma step_ok c j : journal_ok j → journal_ok (stream_step c j).
Proof.
  intros H. destruct c as [event targeting t now|last sub c now|c n|]; [by apply stamp_ok| | |].
  - destruct j as [s stamped numbers]. cbn. eapply journal_ok_counters; [..|exact H]; unfold getReplayWindow.
    + destruct (sm_ring (evict now s)); [apply evict_counters|]. destruct (_ && _); apply evict_counters.
    + destruct (sm_ring (evict now s)) eqn:E; [apply evict_ring|]. destruct (_ && _); apply evict_ring.
  - destruct j as [s stamped numbers]. cbn. eapply journal_ok_counters; [..|exact H]; unfold recordPersistedSeq.
    + destruct (n <=? 0); [done|]. by destruct (jget _ _).
    + destruct (n <=? 0); [done|]. by destruct (jget _ _).
  - destruct j as [s stamped numbers], H as [[A B C D] [E [W F] G I]]; cbn in *. split; split; cbn; try done.
Qed.

Lemma run_ok calls j : journal_ok j → journal_ok (stream_run calls j).
Proof. revert j. induction calls as [|c calls IH]; intros j H; [done|]. apply IH, step_ok, H. Qed.

Lemma journal_of_ok file : journal_ok (journal_of file).
Proof. split; split; cbn; try done; [constructor|split; [done|]; by intros n ?%elem_of_nil]. Qed.

Lemma filter_none {A} (p : A → bool) l k : (∀ x, x ∈ l → p x = false) → js_filter p (l ++ k) = js_filter p k.
Proof.
  intros H. unfold js_filter. induction l as [|x l IH]; [done|]. cbn. rewrite (H x) by by left. apply IH. intros y ?. apply H. by right.
Qed.

(** ** Replay *)

(** Everything stamped belongs to a conversation. *)
Lemma stamped_scoped file calls e : e ∈ jn_stamped (stream_run calls (journal_of file)) → is_Some (ae_conversationId (re_event e)).
Proof.
  unfold stream_run. revert e. induction calls as [|c calls IH] using rev_ind; intros e; [by intros ?%elem_of_nil|].
  rewrite foldl_app. cbn [foldl]. set (j := foldl _ _ calls) in *. destruct c as [event targeting t now|last sub c now|c n|]; cbn.
  - unfold stampAndBuffer. destruct (ae_conversationId event) as [c|] eqn:Ec; cbn [is_null]; [|destruct (ae_seq event); apply IH].
    cbn. intros [He|He%list_elem_of_singleton]%elem_of_app; [by apply IH|subst e]. cbn. by rewrite Ec.
  - apply IH.
  - apply IH.
  - by intros ?%elem_of_nil.
Qed.

(** What a replay answers: what was stamped and passes its filter, unless the ring is empty. *)
Lemma replay_answer file calls last subscriber conversationId now :
  let j := stream_run calls (journal_of file) in
  StronglySorted Z.lt (jn_numbers j) ∧
  let '(answer, s') := getReplayWindow last subscriber conversationId now (jn_stream j) in
  match answer with
  | Some events => sm_ring s' = [] ∧ events = []
      ∨ events = re_event <$> js_filter (replayable last subscriber conversationId) (jn_stamped j)
  | None => ∃ e, e ∈ jn_stamped j ∧ last < re_seq e ∧ e ∉ sm_ring s'
  end.
Proof.
  intros j. pose proof (run_ok calls _ (journal_of_ok file)) as Hj. fold j in Hj. destruct Hj as [[A B C D] [E _ _ _]]. split; [done|].
  unfold getReplayWindow. pose proof (evict_ring now (jn_stream j)) as Hev. pose proof (evict_counters now (jn_stream j)) as Hc. unfold counters in Hc. injection Hc as Hn _ _ Hf _ _.
  set (s := evict now (jn_stream j)) in *. destruct (sm_ring s) as [|oldest ring] eqn:Er; [by left|].
  assert (oldest :: ring `suffix_of` jn_stamped j) as [gone Hg] by by etrans.
  rewrite Hg in B, C. apply up_to_app in B as [Bg Bk]. pose proof Bk as [Bo _]. rewrite Hf, C.
  assert (Hold : ∀ e, e ∈ gone → re_seq e < re_seq oldest).
  { intros e He. pose proof (up_to_range _ _ _ Bg He). rewrite Bo. lia. }
  assert (Hkept : ∀ e, e ∈ oldest :: ring → re_seq oldest ≤ re_seq e).
  { intros e He. pose proof (up_to_range _ _ _ Bk He). rewrite Bo. lia. }
  assert (Hfirst : match gone ++ oldest :: ring with e :: _ => re_seq e | [] => 0 end = re_seq oldest ↔ gone = []).
  { destruct gone as [|e gone]; [done|]. cbn. split; [|done]. specialize (Hold e (list_elem_of_here _ _)). lia. }
  destruct (Z.ltb_spec last (re_seq oldest - 1)) as [Hl|Hl]; cbn [andb].
  - destruct (decide (gone = [])) as [->|Hne].
    + cbn [app] in *. rewrite Z.eqb_refl, (proj2 (Z.ltb_lt last (re_seq oldest))) by lia. cbn. right. by rewrite Hg.
    + rewrite (proj2 (Z.eqb_neq _ _)) by (intros Heq; by apply Hne, Hfirst). rewrite andb_false_r. cbn [negb].
      destruct gone as [|e gone _] using rev_ind; [done|]. exists e. rewrite Hg, Er.
      apply up_to_app in Bg as [_ [He _]]. cbn in He. split; [set_solver|]. split; [cbn in Bo; cbn; lia|].
      intros He'%Hkept. specialize (Hold e ltac:(set_solver)). lia.
  - right. rewrite ?Er, Hg. symmetry. f_equal. apply filter_none. intros e He. unfold replayable.
    specialize (Hold e He). by rewrite (proj2 (Z.ltb_ge last (re_seq e))) by lia.
Qed.
End stream.
