(* ===== verification/EventHub.v ===== *)
(** * The event hub

    [AssistantEventHub] and [broadcastMessage] of
    src/assistant/src/runtime/assistant-event-hub.ts, the subscription of a client's event
    stream (runtime/routes/events-routes.ts) with its replay, and the interfaces a client
    may be (channels/types.ts).

    A publication waits in the promise chain and is then given to the subscribers of a
    snapshot one at a time; in between, subscribers may come and go.  What was written to
    a connection is kept in a log.  The readings of the clock and the identifiers of
    events are arguments; callbacks of in-process subscribers do not throw. *)
From S2P Require Import Prelude JsText RuntimeTypes RiskTypes StreamState.

(** ** Interfaces *)

Definition INTERFACE_IDS : list string :=
  ["macos"; "ios"; "cli"; "telegram"; "phone"; "web"; "whatsapp"; "slack"; "email"; "chrome-extension"; "a2a"].
Definition one_of_texts (s : string) (l : list string) : bool := bool_decide (s ∈ l).

Definition LEGACY_INTERFACE_ALIASES : list (string * string) := [("vellum", "web")].

(** The aliases are an object: a name that every object has is found in it. *)
Definition parseInterfaceId (value : option string) : option InterfaceId :=
  v ← value;
  if one_of_texts v INTERFACE_IDS then Some (own v) else js_member LEGACY_INTERFACE_ALIASES v.

Definition supportsHostProxy (id : InterfaceId) (capability : HostProxyCapability) : bool :=
  is_interface "macos" id || (is_interface "chrome-extension" id && bool_decide (capability = cap_browser)).

Definition ALL_CAPABILITIES : list HostProxyCapability := [cap_bash; cap_file; cap_cu; cap_app_control; cap_browser].

(** [type.replace(/_(request|cancel)$/, "")] looked up in the table; the types are those
    of the protocol, none of which is the name of a property every object has. *)
Definition strip_suffix (suffix s : string) : option string :=
  if endsWith s suffix then Some (str_take (String.length s - String.length suffix) s) else None.
Definition capabilityForMessageType (type : string) : option HostProxyCapability :=
  let stem := match strip_suffix "_request" type with
              | Some s => s
              | None => match strip_suffix "_cancel" type with Some s => s | None => type end
              end in
  if eqs stem "host_bash" then Some cap_bash else if eqs stem "host_file" then Some cap_file
  else if eqs stem "host_transfer" then Some cap_file else if eqs stem "host_cu" then Some cap_cu
  else if eqs stem "host_browser" then Some cap_browser else if eqs stem "host_app_control" then Some cap_app_control
  else None.

(** ** State *)

Record HubClient := mkHubClient {
  hc_clientId : string;
  hc_interfaceId : InterfaceId;
  hc_capabilities : list HostProxyCapability;
  hc_actorPrincipalId : option string;
}.
(** [highWaterReplaySeq] belongs to the callback of an event stream. *)
Record Subscriber := mkSubscriber {
  sb_connection : Z;
  sb_client : option HubClient;
  sb_filter : option string;
  sb_lastActiveAt : Z;
  sb_highWaterReplaySeq : Z;
}.
Record Publication := mkPublication { pb_event : AssistantEvent; pb_options : option EventTargeting }.
(** Something written to a connection. *)
Record Sent := mkSent {
  sn_connection : Z;
  sn_client : option HubClient;
  sn_filter : option string;
  sn_event : AssistantEvent;
  sn_targeting : option EventTargeting;
}.
Record Hub := mkHub {
  hb_subscribers : list Subscriber;
  hb_connectionCounter : Z;
  hb_stream : Stream;
  hb_chain : list Publication;
  hb_current : option (Publication * list Z);
  hb_sent : list Sent;
}.
Definition empty_hub (stream : Stream) : Hub := mkHub [] 0 stream [] None [].

Definition MAX_SUBSCRIBERS : Z := 100.

Definition set_subscribers (l : list Subscriber) (h : Hub) : Hub :=
  mkHub l (hb_connectionCounter h) (hb_stream h) (hb_chain h) (hb_current h) (hb_sent h).
Definition set_stream (s : Stream) (h : Hub) : Hub :=
  mkHub (hb_subscribers h) (hb_connectionCounter h) s (hb_chain h) (hb_current h) (hb_sent h).
Definition set_publishing (chain : list Publication) (current : option (Publication * list Z)) (h : Hub) : Hub :=
  mkHub (hb_subscribers h) (hb_connectionCounter h) (hb_stream h) chain current (hb_sent h).
Definition write_to (s : Subscriber) (e : AssistantEvent) (t : option EventTargeting) (h : Hub) : Hub :=
  mkHub (hb_subscribers h) (hb_connectionCounter h) (hb_stream h) (hb_chain h) (hb_current h)
    (hb_sent h ++ [mkSent (sb_connection s) (sb_client s) (sb_filter s) e t]).

(** ** Subscribers *)

Definition has_client_id (id : string) (s : Subscriber) : bool :=
  match sb_client s with Some c => eqs (hc_clientId c) id | None => false end.
Definition is_connection (n : Z) (s : Subscriber) : bool := sb_connection s =? n.

(** [dispose] of a subscription; nothing once it is gone. *)
Definition dispose_connection (n : Z) (h : Hub) : Hub := set_subscribers (delete_where (is_connection n) (hb_subscribers h)) h.
Definition disposeClient (clientId : string) (h : Hub) : Hub := set_subscribers (delete_where (has_client_id clientId) (hb_subscribers h)) h.
Definition disposeAllSubscribers (h : Hub) : Hub := set_subscribers [] h.

(** Stale connections of the client go, then the oldest one when the hub is full. *)
Definition subscribe (client : option HubClient) (filter : option string) (now : Z) (h : Hub) : Subscriber * Hub :=
  let fresh := match client with
               | Some c => delete_where (has_client_id (hc_clientId c)) (hb_subscribers h)
               | None => hb_subscribers h
               end in
  let room := if MAX_SUBSCRIBERS <=? Z.of_nat (length fresh) then tail fresh else fresh in
  let n := hb_connectionCounter h + 1 in
  let s := mkSubscriber n client filter now (-1) in
  (s, mkHub (room ++ [s]) n (hb_stream h) (hb_chain h) (hb_current h) (hb_sent h)).

Definition touchClient (clientId : string) (now : Z) (h : Hub) : Hub :=
  set_subscribers (update_where (has_client_id clientId)
    (λ s, mkSubscriber (sb_connection s) (sb_client s) (sb_filter s) now (sb_highWaterReplaySeq s)) (hb_subscribers h)) h.

(** ** Queries *)

Definition getClientById (clientId : string) (h : Hub) : option HubClient :=
  s ← js_find (has_client_id clientId) (hb_subscribers h); sb_client s.
Definition getActorPrincipalIdForClient (clientId : string) (h : Hub) : option string :=
  c ← getClientById clientId h; hc_actorPrincipalId c.
(** Most recently active first. *)
Definition clientEntries (h : Hub) : list HubClient :=
  omap sb_client (js_sort (λ a b, sb_lastActiveAt b - sb_lastActiveAt a)
    (js_filter (λ s, negb (is_null (sb_client s))) (hb_subscribers h))).
Definition listClientsByCapability (capability : HostProxyCapability) (h : Hub) : list HubClient :=
  js_filter (λ c, bool_decide (capability ∈ hc_capabilities c)) (clientEntries h).
Definition listClientsByInterface (interfaceId : string) (h : Hub) : list HubClient :=
  js_filter (λ c, is_interface interfaceId (hc_interfaceId c)) (clientEntries h).
Definition getMostRecentClientByCapability (capability : HostProxyCapability) (h : Hub) : option HubClient :=
  head (listClientsByCapability capability h).

(** ** Publishing *)

Definition replay_identity (s : option HubClient) : ReplaySubscriber :=
  c ← s; Some (mkReplayClient (hc_clientId c) (hc_interfaceId c) (hc_capabilities c)).

(** The rules of [publish] for one subscriber, in their order. *)
Definition delivers (event : AssistantEvent) (options : option EventTargeting) (client : option HubClient) (filter : option string) : bool :=
  let option_of {A} (f : EventTargeting → option A) : option A := options ≫= f in
  let is_client id := match client with Some c => eqs (hc_clientId c) id | None => false end in
  let capable := match option_of tg_capability with
                 | Some cap => match client with Some c => bool_decide (cap ∈ hc_capabilities c) | None => false end
                 | None => true
                 end in
  if match option_of tg_excludeClientId with Some id => is_client id | None => false end then false
  else if match option_of tg_interfaceId with
          | Some i => negb match client with Some c => is_interface i (hc_interfaceId c) | None => false end
          | None => false
          end then false
  else match option_of tg_clientId with
       | Some id => if negb (is_client id) then false else capable
       | None =>
           if match ae_conversationId event, filter with Some c, Some f => negb (eqs f c) | _, _ => false end then false
           else capable
       end.

(** The callback of an event stream: an event already replayed is skipped; a connection
    whose reader has fallen behind is closed. *)
Definition callback (congested : bool) (s : Subscriber) (p : Publication) (h : Hub) : Hub :=
  if match ae_seq (pb_event p) with
     | Some n => (0 <=? sb_highWaterReplaySeq s) && (n <=? sb_highWaterReplaySeq s)
     | None => false
     end then h
  else if congested then dispose_connection (sb_connection s) h
  else write_to s (pb_event p) (pb_options p) h.

(** One step of the promise chain; [id] and [now] make the event that follows a change of
    title. *)
Definition publish_step (congested : bool) (id : string) (now : Z) (h : Hub) : Hub :=
  match hb_current h with
  | None =>
      match hb_chain h with
      | p :: rest => set_publishing rest (Some (p, sb_connection <$> hb_subscribers h)) h
      | [] => h
      end
  | Some (p, n :: more) =>
      let h' := set_publishing (hb_chain h) (Some (p, more)) h in
      match js_find (is_connection n) (hb_subscribers h) with
      | Some s => if delivers (pb_event p) (pb_options p) (sb_client s) (sb_filter s) then callback congested s p h' else h'
      | None => h'
      end
  | Some (p, []) =>
      if eqs (message_type (ae_message (pb_event p))) "conversation_title_updated" then
        let renamed := mkEvent id None None now [("type", JStr "conversation_list_invalidated"); ("reason", JStr "renamed")] in
        set_publishing (hb_chain h) (Some (mkPublication renamed (Some (mkTargeting None None (Some "macos") None)),
                                           sb_connection <$> hb_subscribers h)) h
      else set_publishing (hb_chain h) None h
  end.

Definition extractConversationId (m : ServerMessage) : option string := text_field "conversationId" m.

Record BroadcastOptions := mkBroadcastOptions { bo_targetClientId : option string; bo_targetInterfaceId : option string }.
Definition no_target : BroadcastOptions := mkBroadcastOptions None None.

Definition publish_options (msg : ServerMessage) (options : BroadcastOptions) : option EventTargeting :=
  let capability := capabilityForMessageType (message_type msg) in
  let exclude := if eqs (message_type msg) "sync_changed"
                 then match text_field "originClientId" msg with Some c => if truthy c then Some c else None | None => None end
                 else None in
  if is_null capability && is_null (bo_targetClientId options) && is_null (bo_targetInterfaceId options) && is_null exclude then None
  else Some (mkTargeting capability (bo_targetClientId options) (bo_targetInterfaceId options) exclude).

(** The event is numbered and buffered at once, and published through the chain. *)
Definition broadcast (iso : Z → string) (id : string) (msg : ServerMessage) (conversationId : option string)
    (options : BroadcastOptions) (t_event t_ring t_evict : Z) (h : Hub) : Hub :=
  let resolved := match conversationId with Some c => Some c | None => extractConversationId msg end in
  let scoped := if eqs (message_type msg) "conversation_list_invalidated" then None else resolved in
  let targeting := publish_options msg options in
  let '(event, s) := stampAndBuffer iso (mkEvent id scoped None t_event msg) targeting t_ring t_evict (hb_stream h) in
  let h' := set_stream s h in
  set_publishing (hb_chain h' ++ [mkPublication event targeting]) (hb_current h') h'.

(** ** Event streams *)

Inductive StreamError := interface_required | client_aborted.

Definition set_high_water (n seq : Z) (h : Hub) : Hub :=
  set_subscribers (update_where (is_connection n)
    (λ s, mkSubscriber (sb_connection s) (sb_client s) (sb_filter s) (sb_lastActiveAt s) (Z.max seq (sb_highWaterReplaySeq s)))
    (hb_subscribers h)) h.

(** The targeting of a replayed event is that of its entry. *)
Definition entry_targeting (s : Stream) (e : AssistantEvent) : option EventTargeting :=
  en ← js_find (λ en, bool_decide (ae_seq e = Some (re_seq en))) (sm_ring s); re_targeting en.
Definition replay_one (s : Subscriber) (h : Hub) (e : AssistantEvent) : Hub :=
  set_high_water (sb_connection s) (default (-1) (ae_seq e)) (write_to s e (entry_targeting (hb_stream h) e) h).

(** The identity of a client in the headers. *)
Definition header_text (raw : option string) : option string :=
  v ← raw; if truthy (js_trim v) then Some (js_trim v) else None.

(** The local guardian, and whether authentication is off. *)
Record LocalIdentity := mkLocalIdentity { li_isHttpAuthDisabled : bool; li_guardianPrincipalId : option string }.
Definition resolveActorPrincipalIdForLocalGuardian (id : LocalIdentity) (rawHeader : option string) : option string :=
  if negb (eqos rawHeader (Some "dev-bypass")) || negb (li_isHttpAuthDisabled id) then rawHeader
  else match li_guardianPrincipalId id with Some p => if truthy p then Some p else None | None => None end.

(** [handleSubscribeAssistantEvents], the scope and the cursor of the query read. *)
Definition handleSubscribeAssistantEvents (identity : LocalIdentity) (rawClientId rawInterfaceId rawActorPrincipalId : option string)
    (scope : option string) (lastSeenSeq : option Z) (aborted : bool) (t_now t_evict : Z) (h : Hub) : (StreamError + Z) * Hub :=
  let clientId := header_text rawClientId in
  let interfaceId := clientId ≫= λ _, parseInterfaceId (js_trim <$> rawInterfaceId) in
  let actor := resolveActorPrincipalIdForLocalGuardian identity (header_text rawActorPrincipalId) in
  if negb (is_null clientId) && is_null interfaceId then (inl interface_required, h)
  else
    let client := match clientId, interfaceId with
                  | Some c, Some i => Some (mkHubClient c i (js_filter (supportsHostProxy i) ALL_CAPABILITIES) actor)
                  | _, _ => None
                  end in
    let '(s, h1) := subscribe client scope t_now h in
    if aborted then (inl client_aborted, dispose_connection (sb_connection s) h1)
    else
      match lastSeenSeq with
      | None => (inr (sb_connection s), h1)
      | Some last =>
          let '(window, stream) := getReplayWindow last (replay_identity client) scope t_evict (hb_stream h1) in
          let h2 := set_stream stream h1 in
          (inr (sb_connection s), match window with Some events => foldl (replay_one s) h2 events | None => h2 end)
      end.
