(* ===== verification/HubProps.v ===== *)
(** * What an event stream delivers

    Every event written to a connection was meant for its client, live or replayed, and
    the numbered events of a connection come in order and without repetition. *)
From S2P Require Import Prelude JsText RuntimeTypes RiskTypes StreamState StreamProps EventHub.
From Stdlib Require Import Sorted.

(** ** Calls *)
Inductive HubCall :=
  | hub_connect (identity : LocalIdentity) (rawClientId rawInterfaceId rawActorPrincipalId scope : option string)
      (lastSeenSeq : option Z) (aborted : bool) (t_now t_evict : Z)
  | hub_dispose (connection : Z)
  | hub_dispose_client (clientId : string)
  | hub_dispose_all
  | hub_touch (clientId : string) (now : Z)
  | hub_broadcast (id : string) (msg : ServerMessage) (conversationId : option string) (options : BroadcastOptions)
      (t_event t_ring t_evict : Z)
  | hub_publish (congested : bool) (id : string) (now : Z).

Section hub.
Context (iso : Z → string).

Definition hub_step (c : HubCall) (h : Hub) : Hub :=
  match c with
  | hub_connect identity client interface actor scope last aborted t1 t2 =>
      (handleSubscribeAssistantEvents identity client interface actor scope last aborted t1 t2 h).2
  | hub_dispose n => dispose_connection n h
  | hub_dispose_client id => disposeClient id h
  | hub_dispose_all => disposeAllSubscribers h
  | hub_touch id t => touchClient id t h
  | hub_broadcast id msg conversationId options t1 t2 t3 => broadcast iso id msg conversationId options t1 t2 t3 h
  | hub_publish congested id t => publish_step congested id t h
  end.
Definition hub_run (calls : list HubCall) (h : Hub) : Hub := foldl (λ h c, hub_step c h) h calls.

(** ** Statements *)

(** What was written to a connection was meant for it. *)
Definition meant_for (x : Sent) : Prop :=
  let is_client id := ∃ c, sn_client x = Some c ∧ hc_clientId c = id in
  match sn_targeting x with
  | None => True
  | Some t =>
      (∀ id, tg_excludeClientId t = Some id → ¬ is_client id)
      ∧ (∀ i, tg_interfaceId t = Some i → ∃ c, sn_client x = Some c ∧ hc_interfaceId c = own i)
      ∧ (∀ cap, tg_capability t = Some cap → ∃ c, sn_client x = Some c ∧ cap ∈ hc_capabilities c)
      ∧ (∀ id, tg_clientId t = Some id → is_client id)
  end
  ∧ (sn_targeting x ≫= tg_clientId = None → ∀ c f, ae_conversationId (sn_event x) = Some c → sn_filter x = Some f → f = c).

Definition numbers_sent (connection : Z) (h : Hub) : list Z :=
  omap (λ x, if sn_connection x =? connection then ae_seq (sn_event x) else None) (hb_sent h).

Lemma delivers_meant n e t client filter : delivers e t client filter = true → meant_for (mkSent n client filter e t).
Proof.
  unfold delivers, meant_for. cbn -[eqs]. destruct t as [[cap id i ex]|]; cbn -[eqs].
  - destruct (match ex with Some id' => _ | None => _ end) eqn:Eex; [done|].
    destruct (match i with Some i' => _ | None => _ end) eqn:Ei; [done|]. intros H.
    assert ((∀ c, id = Some c → ∃ k, client = Some k ∧ hc_clientId k = c)
      ∧ match cap with Some cap' => match client with Some c => bool_decide (cap' ∈ hc_capabilities c) | None => false end | None => true end = true
      ∧ (id = None → ∀ c f, ae_conversationId e = Some c → filter = Some f → f = c)) as (Hid & Hcap & Hf).
    { destruct id as [id'|].
      - destruct client as [k|]; [|done]. destruct (eqs (hc_clientId k) id') eqn:Ek; [|done]. cbn in H.
        split_and!; [|done|done]. intros c [= <-]. exists k. by apply bool_decide_eq_true in Ek.
      - split; [done|]. destruct (match ae_conversationId e with Some c => _ | None => _ end) eqn:Ec; [done|]. split; [done|].
        intros _ c f Hc ->. rewrite Hc in Ec. by apply negb_false_iff, bool_decide_eq_true in Ec. }
    split; [|exact Hf]. split_and!; [| | |exact Hid].
    + intros id' -> (c & -> & Hc). by apply bool_decide_eq_false in Eex.
    + intros i' ->. apply negb_false_iff in Ei. destruct client as [c|]; [|done]. exists c.
      unfold is_interface in Ei. destruct (hc_interfaceId c) as [j|]; [|done]. by apply bool_decide_eq_true in Ei as ->.
    + intros cap' ->. destruct client as [c|]; [|done]. exists c. by apply bool_decide_eq_true in Hcap.
  - destruct (match ae_conversationId e with Some c => _ | None => _ end) eqn:Ec; [done|]. intros _. split; [done|].
    intros _ c f Hc ->. rewrite Hc in Ec. by apply negb_false_iff, bool_decide_eq_true in Ec.
Qed.

(** A replay follows the same rules. *)
Lemma replayable_delivers last client scope en : replayable last (replay_identity client) scope en = true →
  delivers (re_event en) (re_targeting en) client scope = true.
Proof.
  unfold replayable, delivers, matchesSubscriber. intros [[_ Hc]%andb_true_iff H]%andb_true_iff.
  assert (Hf : match ae_conversationId (re_event en), scope with Some c, Some f => negb (eqs f c) | _, _ => false end = false).
  { destruct scope as [f|]; [|by destruct (ae_conversationId _)]. apply bool_decide_eq_true in Hc as ->.
    by unfold eqs; rewrite bool_decide_true. }
  destruct (re_targeting en) as [[cap id i ex]|]; cbn -[eqs] in *; rewrite ?Hf; [|done].
  destruct client as [k|]; cbn -[eqs] in *; [|by rewrite ?Hf].
  destruct (match ex with Some id' => _ | None => _ end); [done|]. destruct (match i with Some i' => _ | None => _ end); [done|].
  destruct id as [id'|]; [by destruct (eqs _ _)|]. by rewrite ?Hf.
Qed.

(** An event for one client, by its identifier, of another conversation than the one a
    connection is for: sent live it reaches the connection all the same. *)
Definition sent_across (scope : option string) (en : RingEntry) : Prop :=
  is_Some (re_targeting en ≫= tg_clientId) ∧ ∃ f, scope = Some f ∧ ae_conversationId (re_event en) ≠ Some f.

(** Any other event of a conversation that is newer and meant for the client is replayed. *)
Lemma meant_replayable n last client scope en : is_Some (ae_conversationId (re_event en)) → ¬ sent_across scope en →
  last < re_seq en → meant_for (mkSent n client scope (re_event en) (re_targeting en)) →
  replayable last (replay_identity client) scope en = true.
Proof.
  intros [c Hc] Hna Hlt [Ht Hf]. cbn in Ht, Hf. unfold replayable. rewrite (proj2 (Z.ltb_lt _ _) Hlt), Hc. cbn [andb].
  assert (match scope with Some f => eqos (Some c) (Some f) | None => true end = true) as ->.
  { destruct scope as [f|]; [|done]. apply bool_decide_eq_true. destruct (re_targeting en ≫= tg_clientId) eqn:Eid.
    - destruct (decide (Some c = Some f)) as [|Hne]; [done|]. exfalso. apply Hna. unfold sent_across. rewrite Eid, Hc. split; [done|by exists f].
    - by rewrite (Hf eq_refl c f Hc eq_refl). }
  clear Hna Hf. unfold matchesSubscriber. destruct (re_targeting en) as [[cap id i ex]|]; [|done]. cbn -[eqs] in *.
  destruct Ht as (Hx & Hi & Hcap & Hid).
  assert (match ex with Some x => match replay_identity client with Some k => eqs (rc_clientId k) x | None => false end | None => false end = false) as ->.
  { destruct ex as [x|]; [|done]. destruct client as [k|]; [|done]. cbn. apply bool_decide_eq_false. intros E. apply (Hx x eq_refl). by exists k. }
  assert (match i with Some x => negb match replay_identity client with Some k => is_interface x (rc_interfaceId k) | None => false end | None => false end = false) as ->.
  { destruct i as [x|]; [|done]. destruct (Hi x eq_refl) as (k & -> & Ek). cbn. rewrite Ek. cbn. by unfold eqs; rewrite bool_decide_true. }
  assert (match cap with Some x => match replay_identity client with Some k => bool_decide (x ∈ rc_capabilities k) | None => false end | None => true end = true) as Ecap.
  { destruct cap as [x|]; [|done]. destruct (Hcap x eq_refl) as (k & -> & Hk). by apply bool_decide_eq_true. }
  destruct id as [x|]; [|done]. destruct (Hid x eq_refl) as (k & -> & Ek). cbn -[eqs] in *. unfold eqs at 1. by rewrite bool_decide_true.
Qed.

(** ** The invariant *)

Definition pub_seq (p : Publication) : option Z := ae_seq (pb_event p).
Definition ring_sorted (s : Stream) : Prop :=
  StronglySorted Z.lt (re_seq <$> sm_ring s)
  ∧ Forall (λ e, ae_seq (re_event e) = Some (re_seq e) ∧ 0 < re_seq e < sm_nextSeq s) (sm_ring s) ∧ 0 < sm_nextSeq s.
Definition current_pub (h : Hub) : list Publication := match hb_current h with Some (p, _) => [p] | None => [] end.
Definition queue (h : Hub) : list Z := omap pub_seq (current_pub h ++ hb_chain h).

(** A number already written comes before what is still to be written: it was replayed,
    or it is below everything that waits. *)
Definition behind (h : Hub) (s : Subscriber) (m : Z) : Prop :=
  m ≤ sb_highWaterReplaySeq s
  ∨ ((∀ k, k ∈ omap pub_seq (hb_chain h) → m < k)
     ∧ match hb_current h with Some (p, more) => sb_connection s ∈ more → ∀ k, pub_seq p = Some k → m < k | None => True end).

Record hub_ok (h : Hub) : Prop := {
  ho_ring : ring_sorted (hb_stream h);
  ho_queue : StronglySorted Z.lt (queue h) ∧ ∀ k, k ∈ queue h → 0 < k < sm_nextSeq (hb_stream h);
  ho_connections : NoDup (sb_connection <$> hb_subscribers h) ∧ ∀ s, s ∈ hb_subscribers h → sb_connection s ≤ hb_connectionCounter h;
  ho_current : match hb_current h with Some (_, more) => NoDup more ∧ ∀ n, n ∈ more → n ≤ hb_connectionCounter h | None => True end;
  ho_sent : ∀ x, x ∈ hb_sent h → sn_connection x ≤ hb_connectionCounter h ∧ meant_for x
    ∧ ∀ k, ae_seq (sn_event x) = Some k → 0 < k < sm_nextSeq (hb_stream h);
  ho_sorted : ∀ n, StronglySorted Z.lt (numbers_sent n h);
  ho_behind : ∀ s, s ∈ hb_subscribers h → ∀ m, m ∈ numbers_sent (sb_connection s) h → behind h s m;
}.

Lemma numbers_sent_elem n h k : k ∈ numbers_sent n h ↔ ∃ x, x ∈ hb_sent h ∧ sn_connection x = n ∧ ae_seq (sn_event x) = Some k.
Proof.
  unfold numbers_sent. rewrite list_elem_of_omap. split; intros (x & Hx & H); exists x; [|destruct H as [-> ->]; by rewrite Z.eqb_refl].
  destruct (Z.eqb_spec (sn_connection x) n); done.
Qed.
Lemma numbers_sent_fresh n h : hub_ok h → hb_connectionCounter h < n → numbers_sent n h = [].
Proof.
  intros H Hn. destruct (numbers_sent n h) as [|k l] eqn:E; [done|]. assert (k ∈ numbers_sent n h) as (x & Hx & Hc & _)%numbers_sent_elem
    by (rewrite E; by left). destruct (ho_sent h H x Hx) as [? _]. lia.
Qed.
Lemma numbers_sent_write n s e t h : numbers_sent n (write_to s e t h)
  = numbers_sent n h ++ (if sb_connection s =? n then match ae_seq e with Some k => [k] | None => [] end else []).
Proof. unfold numbers_sent. cbn. rewrite omap_app. cbn. destruct (_ =? n); [|done]. by destruct (ae_seq e). Qed.

#[local] Arguments numbers_sent : simpl never.

(** Subscribers only go away. *)
Lemma subscribers_sub h l : l `sublist_of` hb_subscribers h → hub_ok h → hub_ok (set_subscribers l h).
Proof.
  intros Hl [A B [C1 C2] D E F G]. split; cbn; try done.
  - split; [|intros s Hs; apply C2; by eapply elem_of_sublist]. eapply sublist_NoDup; [exact C1|]. by apply fmap_sublist.
  - intros s Hs. apply G. by eapply elem_of_sublist.
Qed.
Lemma delete_where_sublist {A} (p : A → bool) l : delete_where p l `sublist_of` l.
Proof. unfold delete_where. induction l as [|x l IH]; [done|]. cbn. destruct (p x); [by apply sublist_cons|by apply sublist_skip]. Qed.
Lemma subscribers_go h p : hub_ok h → hub_ok (set_subscribers (delete_where p (hb_subscribers h)) h).
Proof. apply subscribers_sub, delete_where_sublist. Qed.

(** Subscribers only change in what the invariant does not look at, or learn that more has
    been replayed. *)
Lemma subscribers_updated h p f : (∀ s, sb_connection (f s) = sb_connection s) →
  (∀ s, sb_highWaterReplaySeq s ≤ sb_highWaterReplaySeq (f s)) →
  hub_ok h → hub_ok (set_subscribers (update_where p f (hb_subscribers h)) h).
Proof.
  intros Hc Hw [A B [C1 C2] D E F G].
  assert (Hu : ∀ s, s ∈ update_where p f (hb_subscribers h) → ∃ s0, s0 ∈ hb_subscribers h ∧ sb_connection s = sb_connection s0
    ∧ sb_highWaterReplaySeq s0 ≤ sb_highWaterReplaySeq s).
  { intros s (s0 & ? & ->)%elem_of_update_where. exists s0. destruct (p s0); naive_solver lia. }
  split; cbn; try done.
  - split; [|intros s (s0 & ? & -> & _)%Hu; by apply C2]. unfold update_where. rewrite <- list_fmap_compose.
    erewrite list_fmap_ext; [exact C1|]. intros i s _. cbn. by destruct (p s).
  - intros s (s0 & Hs & Hn & Hle)%Hu m Hm. unfold numbers_sent in Hm. cbn in Hm. rewrite Hn in Hm.
    destruct (G s0 Hs m Hm) as [?|[? Hcur]]; [left; lia|right]. split; [done|]. cbn. by rewrite Hn.
Qed.

Lemma ring_sorted_evict now s : ring_sorted s → ring_sorted (evict now s).
Proof.
  intros (H1 & H2 & H3). pose proof (evict_ring now s) as [gone Hg]. pose proof (evict_counters now s) as Hc. unfold counters in Hc. injection Hc as Hn _ _ _ _ _.
  rewrite Hg in H1, H2. unfold ring_sorted. rewrite Hn. rewrite fmap_app in H1. apply Forall_app in H2 as [_ H2].
  split; [|done]. clear - H1. induction gone as [|e gone IH]; [done|]. cbn in H1. apply StronglySorted_inv in H1 as [H1 _]. by apply IH.
Qed.
Lemma reserve_grows s : sm_nextSeq s ≤ sm_nextSeq (reserveSeqCapacity s) ∧ sm_ring (reserveSeqCapacity s) = sm_ring s.
Proof.
  assert (H : sm_nextSeq s ≤ sm_nextSeq (load_reservation s) ∧ sm_ring (load_reservation s) = sm_ring s).
  { unfold load_reservation. destruct (sm_seqReservationLoaded s); [done|]. cbn. split; [|done].
    destruct (Z.leb_spec (sm_nextSeq s) (readReservedCeiling (sm_file s))); lia. }
  unfold reserveSeqCapacity. by destruct (_ <=? _).
Qed.

(** Stamping an event that has no number yet. *)
Lemma stamp_sorted event targeting t1 t2 s : ring_sorted s → ae_seq event = None →
  let '(event', s') := stampAndBuffer iso event targeting t1 t2 s in
  ring_sorted s' ∧ sm_nextSeq s ≤ sm_nextSeq s' ∧ ∀ k, ae_seq event' = Some k → sm_nextSeq s ≤ k < sm_nextSeq s'.
Proof.
  intros (H1 & H2 & H3) He. unfold stampAndBuffer. destruct (ae_conversationId event); [|rewrite He; done].
  pose proof (reserve_grows s) as [Hg Hr]. set (s1 := reserveSeqCapacity s) in *.
  match goal with |- context[evict t2 ?x] => set (s2 := x) end.
  pose proof (evict_counters t2 s2) as Hc. unfold counters in Hc. injection Hc as Hn _ _ _ _ _. rewrite Hn. cbn [s2 sm_nextSeq ae_seq set_seq].
  split; [|split; [lia|intros k [= <-]; lia]]. apply ring_sorted_evict. unfold ring_sorted, s2. cbn -[json_stringify event_json]. rewrite Hr, fmap_app. split_and!.
  - apply numbers_snoc; [done|]. intros m (e & -> & He')%list_elem_of_fmap. rewrite Forall_forall in H2. destruct (H2 e He') as [_ ?]. cbn [re_seq]. lia.
  - apply Forall_app. split; [|apply Forall_singleton; cbn; split; [done|lia]]. eapply Forall_impl; [exact H2|]. cbn. intros e [? ?]. split; [done|lia].
  - lia.
Qed.

Lemma sorted_app_r l k : StronglySorted Z.lt (l ++ k) → StronglySorted Z.lt k.
Proof. induction l as [|x l IH]; [done|]. cbn. intros [H _]%StronglySorted_inv. by apply IH. Qed.
Lemma sorted_head x l : StronglySorted Z.lt (x :: l) → ∀ y, y ∈ l → x < y.
Proof. intros [_ H]%StronglySorted_inv. by apply Forall_forall. Qed.

Lemma broadcast_ok id msg conversationId options t1 t2 t3 h : hub_ok h → hub_ok (broadcast iso id msg conversationId options t1 t2 t3 h).
Proof.
  intros [A [B1 B2] C D E F G]. unfold broadcast. set (event0 := mkEvent id _ None t1 msg). set (targeting := publish_options _ _).
  pose proof (stamp_sorted event0 targeting t2 t3 (hb_stream h) A eq_refl) as Hs.
  destruct (stampAndBuffer _ _ _ _ _ _) as [event s]. destruct Hs as (Hr & Hn & Hk). destruct A as (_ & _ & Hpos).
  assert (Hq : queue (set_publishing (hb_chain h ++ [mkPublication event targeting]) (hb_current h) (set_stream s h))
    = queue h ++ match ae_seq event with Some k => [k] | None => [] end).
  { unfold queue, current_pub. cbn. rewrite app_assoc, omap_app. cbn. unfold pub_seq at 2. cbn. by destruct (ae_seq event). }
  split; cbn; try done.
  - rewrite Hq. destruct (ae_seq event) as [k|]; [|rewrite app_nil_r; split; [done|]; intros k Hk'; specialize (B2 k Hk'); lia].
    specialize (Hk k eq_refl). split.
    + apply numbers_snoc; [done|]. intros m Hm. specialize (B2 m Hm). lia.
    + intros m [Hm|[->|[]%elem_of_nil]%elem_of_cons]%elem_of_app; [specialize (B2 m Hm)|]; lia.
  - intros x Hx. destruct (E x Hx) as (? & ? & Hp). split_and!; [done..|]. intros k' Hk'. specialize (Hp k' Hk'). lia.
  - intros y Hy m Hm. destruct (G y Hy m Hm) as [?|[Hc Hcur]]; [by left|right]. cbn. split; [|done].
    intros k Hk'. rewrite omap_app in Hk'. apply elem_of_app in Hk' as [?|Hk']; [by apply Hc|]. cbn in Hk'. unfold pub_seq in Hk'. cbn in Hk'.
    destruct (ae_seq event) as [k'|]; [|by apply elem_of_nil in Hk']. apply list_elem_of_singleton in Hk' as ->. specialize (Hk k' eq_refl).
    apply numbers_sent_elem in Hm as (x & Hx & _ & Hxk). destruct (E x Hx) as (_ & _ & Hp). specialize (Hp m Hxk). lia.
Qed.

(** One subscriber less to give the current event to. *)
Lemma next_subscriber h p n more : hb_current h = Some (p, n :: more) → hub_ok h →
  hub_ok (set_publishing (hb_chain h) (Some (p, more)) h).
Proof.
  intros Hcur [A [B1 B2] C D E F G]. unfold queue, current_pub in *. rewrite Hcur in *. split; cbn; try done.
  - destruct D as [D1 D2]. split; [by apply NoDup_cons in D1 as [_ ?]|]. intros k Hk. apply D2. by right.
  - intros s Hs m Hm. destruct (G s Hs m Hm) as [?|[H1 H2]]; [by left|right]. cbn. rewrite Hcur in H2. split; [done|].
    intros Hin. apply H2. by right.
Qed.

(** The current event is over: what waits is below nothing that was written. *)
Lemma next_publication h p current : hb_current h = Some (p, []) →
  match current with Some (p', more) => pub_seq p' = None ∧ more = sb_connection <$> hb_subscribers h | None => True end →
  hub_ok h → hub_ok (set_publishing (hb_chain h) current h).
Proof.
  intros Hcur Hnew [A [B1 B2] [C1 C2] D E F G]. unfold queue, current_pub in *. rewrite Hcur in *.
  assert (Hq : omap pub_seq (match current with Some (p', _) => [p'] | None => [] end ++ hb_chain h) = omap pub_seq (hb_chain h)).
  { destruct current as [[p' more]|]; [|done]. cbn. by destruct Hnew as [-> _]. }
  assert (Hsub : StronglySorted Z.lt (omap pub_seq (hb_chain h)) ∧ ∀ k, k ∈ omap pub_seq (hb_chain h) → 0 < k < sm_nextSeq (hb_stream h)).
  { rewrite omap_app in B1, B2. split; [by eapply sorted_app_r|]. intros k Hk. apply B2, elem_of_app. by right. }
  split; cbn; try done.
  - unfold queue, current_pub. cbn. by rewrite Hq.
  - destruct current as [[p' more]|]; [|done]. destruct Hnew as [_ ->]. split; [done|]. intros n (s & -> & Hs)%list_elem_of_fmap. by apply C2.
  - intros s Hs m Hm. destruct (G s Hs m Hm) as [?|[H1 _]]; [by left|right]. cbn. split; [done|].
    destruct current as [[p' more]|]; [|done]. destruct Hnew as [-> _]. done.
Qed.

(** The next publication starts. *)
Lemma start_publication h p rest : hb_current h = None → hb_chain h = p :: rest → hub_ok h →
  hub_ok (set_publishing rest (Some (p, sb_connection <$> hb_subscribers h)) h).
Proof.
  intros Hcur Hch [A B [C1 C2] D E F G]. unfold queue, current_pub in *. rewrite Hcur, Hch in *. split; cbn; try done.
  - split; [done|]. intros n (s & -> & Hs)%list_elem_of_fmap. by apply C2.
  - intros s Hs m Hm. destruct (G s Hs m Hm) as [?|[H1 _]]; [by left|right]. rewrite Hch in H1. cbn in *. split.
    + intros k Hk. apply H1. destruct (pub_seq p); [by right|done].
    + intros _ k Hk. apply H1. rewrite Hk. by left.
Qed.

(** Writing the current event to a connection that has seen nothing as new. *)
Lemma write_current h p n more s : hb_current h = Some (p, n :: more) → s ∈ hb_subscribers h → sb_connection s = n →
  delivers (pb_event p) (pb_options p) (sb_client s) (sb_filter s) = true →
  (∀ k, pub_seq p = Some k → 0 ≤ sb_highWaterReplaySeq s → sb_highWaterReplaySeq s < k) →
  hub_ok h → hub_ok (write_to s (pb_event p) (pb_options p) (set_publishing (hb_chain h) (Some (p, more)) h)).
Proof.
  intros Hcur Hs Hn Hd Hw Hok. pose proof (next_subscriber _ _ _ _ Hcur Hok) as [A' B' _ D' _ _ G'].
  destruct Hok as [A [B1 B2] C D E F G]. rewrite Hcur in D. destruct D as [[Hnot _]%NoDup_cons _].
  unfold queue, current_pub in B1, B2. rewrite Hcur in B1, B2. cbn in B1, B2.
  assert (Hnew : ∀ m k, pub_seq p = Some k → m ∈ numbers_sent n h → m < k).
  { intros m k Hk Hm. pose proof Hm as (x & Hx & _ & Hxm)%numbers_sent_elem. destruct (E x Hx) as (_ & _ & Hp). specialize (Hp m Hxm).
    rewrite <- Hn in Hm. destruct (G s Hs m Hm) as [Hle|[_ H2]]; [specialize (Hw k Hk ltac:(lia)); lia|].
    rewrite Hcur in H2. apply H2; [rewrite Hn; by left|done]. }
  assert (Hsent : ∀ n', numbers_sent n' (write_to s (pb_event p) (pb_options p) (set_publishing (hb_chain h) (Some (p, more)) h))
    = numbers_sent n' h ++ (if n =? n' then match pub_seq p with Some k => [k] | None => [] end else [])).
  { intros n'. rewrite numbers_sent_write, Hn. done. }
  split; cbn; try done.
  - intros x [Hx|[->|[]%elem_of_nil]%elem_of_cons]%elem_of_app; [by apply E|]. cbn. split_and!; [by apply C|by apply delivers_meant|].
    intros k Hk. apply B2. change (ae_seq (pb_event p)) with (pub_seq p) in Hk. rewrite Hk. by left.
  - intros n'. rewrite Hsent. destruct (Z.eqb_spec n n') as [<-|_]; [|rewrite app_nil_r; apply F].
    destruct (pub_seq p) as [k|] eqn:Hk; [|rewrite app_nil_r; apply F]. apply numbers_snoc; [apply F|]. intros m Hm. by apply (Hnew m k).
  - intros s' Hs' m Hm. rewrite Hsent in Hm. apply elem_of_app in Hm as [Hm|Hm]; [destruct (G' s' Hs' m Hm); [by left|by right]|].
    destruct (Z.eqb_spec n (sb_connection s')) as [Hs'n|]; [|by apply elem_of_nil in Hm].
    destruct (pub_seq p) as [k|] eqn:Hk; [|by apply elem_of_nil in Hm]. apply list_elem_of_singleton in Hm as ->. right. cbn. split.
    + by apply sorted_head.
    + intros Hin. exfalso. apply Hnot. by rewrite Hs'n.
Qed.

Lemma publish_step_ok congested id now h : hub_ok h → hub_ok (publish_step congested id now h).
Proof.
  intros Hok. unfold publish_step. destruct (hb_current h) as [[p [|n more]]|] eqn:Hcur.
  - destruct (eqs _ _); by eapply next_publication.
  - pose proof (next_subscriber _ _ _ _ Hcur Hok) as Hnext. destruct (js_find _ _) as [s|] eqn:Hs; [|done].
    apply js_find_elem in Hs as [Hs Hn%Z.eqb_eq]. destruct (delivers _ _ _ _) eqn:Hd; [|done]. unfold callback.
    destruct (match ae_seq (pb_event p) with Some n' => _ | None => _ end) eqn:Hw; [done|].
    destruct congested; [by apply subscribers_go|]. eapply write_current; try done.
    intros k Hk Hpos. unfold pub_seq in Hk. rewrite Hk, (proj2 (Z.leb_le 0 _) Hpos) in Hw. by apply Z.leb_gt in Hw.
  - destruct (hb_chain h) as [|p rest] eqn:Hch; [done|]. by apply start_publication.
Qed.

(** ** Connecting *)

Lemma entry_targeting_ok s en : ring_sorted s → en ∈ sm_ring s → entry_targeting s (re_event en) = re_targeting en.
Proof.
  intros (H1 & H2 & _) Hen. rewrite Forall_forall in H2. unfold entry_targeting. destruct (H2 en Hen) as [He _]. rewrite He.
  rewrite (js_find_unique _ _ en Hen); [done|by apply bool_decide_eq_true|]. intros y Hy [= Hyen]%bool_decide_eq_true.
  clear He H2. induction (sm_ring s) as [|e ring IH]; [by apply elem_of_nil in Hen|]. cbn in H1. apply StronglySorted_inv in H1 as [H1 Hall].
  rewrite Forall_forall in Hall.
  apply elem_of_cons in Hen as [->|Hen], Hy as [->|Hy]; [done| | |by apply IH].
  - specialize (Hall (re_seq y) (list_elem_of_fmap_2 _ _ _ Hy)). lia.
  - specialize (Hall (re_seq en) (list_elem_of_fmap_2 _ _ _ Hen)). lia.
Qed.

Lemma replay_one_ok h s e k : hub_ok h → ae_seq e = Some k → 0 < k < sm_nextSeq (hb_stream h) → sb_connection s ≤ hb_connectionCounter h →
  meant_for (mkSent (sb_connection s) (sb_client s) (sb_filter s) e (entry_targeting (hb_stream h) e)) →
  (∀ m, m ∈ numbers_sent (sb_connection s) h → m < k) →
  hub_ok (replay_one s h e) ∧ numbers_sent (sb_connection s) (replay_one s h e) = numbers_sent (sb_connection s) h ++ [k].
Proof.
  intros [A B [C1 C2] D E F G] Hk Hr Hc Hmeant Hnew.
  assert (Hsent : ∀ n, numbers_sent n (replay_one s h e) = numbers_sent n h ++ if sb_connection s =? n then [k] else []).
  { intros n. change (numbers_sent n (write_to s e (entry_targeting (hb_stream h) e) h) = numbers_sent n h ++ if sb_connection s =? n then [k] else []).
    by rewrite numbers_sent_write, Hk. }
  split; [|by rewrite Hsent, Z.eqb_refl].
  split; [done|done| |done| | |].
  - cbn. split.
    + unfold update_where. rewrite <- list_fmap_compose. erewrite list_fmap_ext; [exact C1|]. intros i x _. cbn. by destruct (is_connection _ _).
    + intros x (y & Hy & ->)%elem_of_update_where. specialize (C2 y Hy). by destruct (is_connection _ _).
  - cbn. intros x [Hx|[->|[]%elem_of_nil]%elem_of_cons]%elem_of_app; [by apply E|]. cbn. split_and!; [done..|]. intros k'. rewrite Hk. by intros [= <-].
  - intros n. rewrite Hsent. destruct (Z.eqb_spec (sb_connection s) n) as [<-|_]; [|rewrite app_nil_r; apply F]. by apply numbers_snoc.
  - intros x Hx m. rewrite Hsent. cbn in Hx. apply elem_of_update_where in Hx as (y & Hy & ->). unfold is_connection.
    destruct (Z.eqb_spec (sb_connection y) (sb_connection s)) as [Hys|Hne].
    + cbn. rewrite Hys, Z.eqb_refl. intros Hm. left. cbn. rewrite Hk. cbn.
      apply elem_of_app in Hm as [Hm|Hm%list_elem_of_singleton]; [specialize (Hnew m Hm)|]; lia.
    + rewrite (proj2 (Z.eqb_neq _ _)) by done. rewrite app_nil_r. intros Hm. destruct (G y Hy m Hm); [by left|by right].
Qed.

Lemma replay_ok s events h : hub_ok h → sb_connection s ≤ hb_connectionCounter h → StronglySorted Z.lt (re_seq <$> events) →
  (∀ e, e ∈ events → e ∈ sm_ring (hb_stream h)
    ∧ meant_for (mkSent (sb_connection s) (sb_client s) (sb_filter s) (re_event e) (re_targeting e))
    ∧ ∀ m, m ∈ numbers_sent (sb_connection s) h → m < re_seq e) →
  hub_ok (foldl (replay_one s) h (re_event <$> events)).
Proof.
  revert h. induction events as [|e events IH]; intros h Hok Hc Hs He; [done|]. cbn.
  destruct (He e (list_elem_of_here _ _)) as (Hin & Hm & Hn). pose proof (ho_ring _ Hok) as Hring. pose proof Hring as (_ & H2 & _).
  rewrite Forall_forall in H2. destruct (H2 e Hin) as [Hseq Hr].
  destruct (replay_one_ok h s (re_event e) (re_seq e)) as [Hok' Hsent]; try done; [by rewrite entry_targeting_ok|].
  cbn in Hs. pose proof (StronglySorted_inv Hs) as [Hs' Hhead]. rewrite Forall_forall in Hhead. apply IH; [done..|].
  intros e' He'. destruct (He e') as (? & ? & Hlt); [by right|]. split_and!; [done..|]. intros m. rewrite Hsent.
  intros [Hm'|Hm'%list_elem_of_singleton]%elem_of_app; [by apply Hlt|subst m]. by apply Hhead, list_elem_of_fmap_2.
Qed.

Lemma set_stream_ok h s : ring_sorted s → sm_nextSeq s = sm_nextSeq (hb_stream h) → hub_ok h → hub_ok (set_stream s h).
Proof. intros Hr Hn [A B C D E F G]. split; cbn; rewrite ?Hn; done. Qed.

Lemma subscribe_ok client filter now h : hub_ok h →
  let '(s, h') := subscribe client filter now h in
  hub_ok h' ∧ sb_connection s = hb_connectionCounter h' ∧ sb_client s = client ∧ sb_filter s = filter
  ∧ hb_stream h' = hb_stream h ∧ numbers_sent (sb_connection s) h' = [].
Proof.
  intros Hok. unfold subscribe. set (fresh := match client with Some c => delete_where (has_client_id (hc_clientId c)) (hb_subscribers h) | None => hb_subscribers h end).
  set (room := if MAX_SUBSCRIBERS <=? Z.of_nat (length fresh) then tail fresh else fresh).
  set (n := hb_connectionCounter h + 1).
  assert (Hroom : room `sublist_of` hb_subscribers h).
  { trans fresh; [unfold room; destruct (_ <=? _); [|done]; destruct fresh; [done|by apply sublist_cons]|].
    unfold fresh. destruct client; [apply delete_where_sublist|done]. }
  pose proof (numbers_sent_fresh n h Hok ltac:(unfold n; lia)) as Hfresh.
  destruct (subscribers_sub h room Hroom Hok) as [A B [C1 C2] D E F G]. cbn in *. split; [|done]. split; cbn; try done.
  - split.
    + rewrite fmap_app. apply NoDup_app. split_and!; [done| |by apply NoDup_singleton]. intros c (s & -> & Hs)%list_elem_of_fmap Hc.
      specialize (C2 s Hs). apply list_elem_of_singleton in Hc. cbn in Hc. unfold n in Hc. lia.
    + intros s [Hs|Hs%list_elem_of_singleton]%elem_of_app; [specialize (C2 s Hs); unfold n; lia|subst s; cbn; lia].
  - destruct (hb_current h) as [[p more]|]; [|done]. destruct D as [D1 D2]. split; [done|]. intros c Hc. specialize (D2 c Hc). unfold n. lia.
  - intros x Hx. destruct (E x Hx) as (? & ? & ?). split_and!; [unfold n; lia|done..].
  - intros s [Hs|Hs%list_elem_of_singleton]%elem_of_app m Hm; [by apply G|]. subst s. cbn in Hm. change (m ∈ numbers_sent n h) in Hm.
    rewrite Hfresh in Hm. by apply elem_of_nil in Hm.
Qed.

Lemma filter_sublist {A} (p : A → bool) l : js_filter p l `sublist_of` l.
Proof. unfold js_filter. induction l as [|x l IH]; [done|]. cbn. destruct (p x); [by apply sublist_skip|by apply sublist_cons]. Qed.
Lemma sorted_sublist l k : l `sublist_of` k → StronglySorted Z.lt k → StronglySorted Z.lt l.
Proof.
  intros Hl. induction Hl as [|x l k Hl IH|x l k Hl IH]; [done| |]; intros [Hs Hx]%StronglySorted_inv; [|by apply IH].
  constructor; [by apply IH|]. rewrite Forall_forall in *. intros y Hy. apply Hx. by eapply elem_of_sublist.
Qed.

Lemma connect_ok identity client interface actor scope last aborted t1 t2 h : hub_ok h →
  hub_ok (handleSubscribeAssistantEvents identity client interface actor scope last aborted t1 t2 h).2.
Proof.
  intros Hok. unfold handleSubscribeAssistantEvents. destruct (negb _ && _); [done|].
  set (c := match header_text client with Some c => _ | None => _ end).
  pose proof (subscribe_ok c scope t1 h Hok) as Hs. destruct (subscribe _ _ _ _) as [s h1]. destruct Hs as (Hok1 & Hn & Hc & Hf & Hst & Hnone).
  destruct aborted; [by apply subscribers_go|]. destruct last as [last|]; [|done]. unfold getReplayWindow.
  pose proof (evict_counters t2 (hb_stream h1)) as He. unfold counters in He. injection He as Hnext _ _ _ _ _.
  pose proof (ring_sorted_evict t2 _ (ho_ring _ Hok1)) as Hring.
  pose proof (set_stream_ok h1 _ Hring Hnext Hok1) as Hok2. set (st := evict t2 (hb_stream h1)) in *.
  destruct (sm_ring st) as [|oldest ring] eqn:Er; [done|]. destruct (_ && _); [done|]. rewrite <- Er. cbn.
  apply replay_ok; [done|cbn; lia| |].
  - eapply sorted_sublist; [apply fmap_sublist, filter_sublist|apply Hring].
  - intros e [He Hr]%elem_of_bool_filter. split_and!; [done| |].
    + apply delivers_meant. rewrite Hc, Hf. by eapply replayable_delivers.
    + intros m Hm. change (m ∈ numbers_sent (sb_connection s) h1) in Hm. rewrite Hnone in Hm. by apply elem_of_nil in Hm.
Qed.

Lemma hub_step_ok c h : hub_ok h → hub_ok (hub_step c h).
Proof.
  intros Hok. destruct c; cbn; [by apply connect_ok|by apply subscribers_go..| | |by apply broadcast_ok|by apply publish_step_ok].
  - apply subscribers_sub; [apply sublist_nil_l|done].
  - by apply subscribers_updated.
Qed.
Lemma hub_run_ok calls h : hub_ok h → hub_ok (hub_run calls h).
Proof. revert h. induction calls as [|c calls IH]; intros h H; [done|]. apply IH, hub_step_ok, H. Qed.

Lemma empty_hub_ok file writable : hub_ok (empty_hub (empty_stream file writable)).
Proof.
  split; cbn; try done; try (by intros ? ?%elem_of_nil); try (split; [constructor|by intros ? ?%elem_of_nil]).
  - unfold ring_sorted. cbn. split_and!; [constructor|done|lia].
  - intros n. constructor.
Qed.

(** * Claims *)

(** C33. The numbers a stream gives to events grow strictly, whatever else it is asked and
    however often the process restarts in between, if the reservation file can be
    written.  A replay that is answered holds, in order and once each, events the process
    has numbered since it started, newer than the client's cursor and meant for the
    client by the rules of live delivery; and it holds every such event, but for those
    addressed to the client by its identifier in another conversation than the
    connection's, unless the whole ring has been dropped.  A replay that is not answered
    has lost an event the client has not seen. *)
Theorem numbers_grow_replay_complete file calls last n client scope now :
  let j := stream_run iso calls (journal_of file) in
  StronglySorted Z.lt (jn_numbers j) ∧
  let '(answer, s') := getReplayWindow last (replay_identity client) scope now (jn_stream j) in
  match answer with
  | Some events => sm_ring s' = [] ∧ events = []
      ∨ ∃ kept, events = re_event <$> kept ∧ kept `sublist_of` jn_stamped j ∧
          ∀ e, e ∈ jn_stamped j →
            let owed := last < re_seq e ∧ meant_for (mkSent n client scope (re_event e) (re_targeting e)) in
            (e ∈ kept → owed) ∧ (¬ sent_across scope e → owed → e ∈ kept)
  | None => ∃ e, e ∈ jn_stamped j ∧ last < re_seq e ∧ e ∉ sm_ring s'
  end.
Proof.
  intros j. destruct (replay_answer iso file calls last (replay_identity client) scope now) as [Hs H]. fold j in Hs, H. split; [done|].
  destruct (getReplayWindow _ _ _ _ _) as [[events|] s']; [|done]. destruct H as [?| ->]; [by left|right].
  exists (js_filter (replayable last (replay_identity client) scope) (jn_stamped j)). split_and!; [done|apply filter_sublist|].
  intros e He owed. split.
  - intros [_ Hr]%elem_of_bool_filter. split; [|apply delivers_meant; by eapply replayable_delivers].
    unfold replayable in Hr. apply andb_true_iff in Hr as [[Hlt _]%andb_true_iff _]. by apply Z.ltb_lt.
  - intros Hna [Hlt Hm]. apply elem_of_bool_filter. split; [done|]. eapply meant_replayable; try done. by eapply stamped_scoped.
Qed.

(** C34. Whatever clients connect, reconnect with a cursor, fall behind and leave, and
    whatever is broadcast meanwhile, everything written to a connection was meant for
    its client, and the numbered events of a connection come in strictly growing order:
    nothing is written twice, live after a replay included. *)
Theorem deliveries_meant_in_order file writable calls :
  let h := hub_run calls (empty_hub (empty_stream file writable)) in
  (∀ x, x ∈ hb_sent h → meant_for x) ∧ ∀ n, StronglySorted Z.lt (numbers_sent n h).
Proof.
  intros h. destruct (hub_run_ok calls _ (empty_hub_ok file writable)) as [_ _ _ _ E F _]. split; [|done]. intros x Hx. by apply E.
Qed.
End hub.

(** ** Where replay falls short *)

Section shortcomings.
Definition request_for (clientId : string) : option EventTargeting := Some (mkTargeting (Some cap_bash) (Some clientId) None None).
Definition bash_request : AssistantEvent := mkEvent "e1" (Some "conv-web") (Some 1) 0 [("type", JStr "host_bash_request")].
Definition desktop : HubClient := mkHubClient "mac-1" (own "macos") ALL_CAPABILITIES (Some "user-1").

(** A request for a client reaches its scoped connection live, and is left out of the
    replay of the same connection. *)
Example targeted_request_not_replayed :
  delivers bash_request (request_for "mac-1") (Some desktop) (Some "conv-mac") = true
  ∧ replayable 0 (replay_identity (Some desktop)) (Some "conv-mac") (mkRingEntry 1 bash_request 0 10 (request_for "mac-1")) = false.
Proof. done. Qed.

(** A client with the name of a member of every object for its interface is let in. *)
Example inherited_interface_accepted :
  parseInterfaceId (Some "constructor") = Some inherited
  ∧ (handleSubscribeAssistantEvents (mkLocalIdentity false None) (Some "c") (Some "constructor") None None None false 0 0
       (empty_hub (empty_stream None true))).1 = inr 1
  ∧ (handleSubscribeAssistantEvents (mkLocalIdentity false None) (Some "c") (Some "desktop") None None None false 0 0
       (empty_hub (empty_stream None true))).1 = inl interface_required.
Proof. vm_compute. split_and!; reflexivity. Qed.
End shortcomings.
