(* ===== verification/Redaction.v ===== *)
(** * Redaction of tool inputs

    src/assistant/src/security/redaction.ts: the values of sensitive keys in a tool's
    input are replaced before the input is stored, logged or shown.  An input is a JSON
    object; no key is [__proto__]. *)
From S2P Require Import Prelude JsText RuntimeTypes.

Definition REDACTION_PLACEHOLDER : string := "<redacted />".

Fixpoint strip_chars (p : ascii → bool) (s : string) : string :=
  match s with
  | "" => ""
  | String c s' => if p c then strip_chars p s' else String c (strip_chars p s')
  end.

Definition SENSITIVE_STEMS : list string :=
  strip_chars (Ascii.eqb ".") <$>
  ["value"; "password"; "passwd"; "token"; "access.token"; "refresh.token"; "bearer.token"; "id.token"; "api.key";
   "authorization"; "secret"; "client.secret"; "credentials"; "private.key"; "cookie"; "session.id"; "ssn";
   "credit.card"; "card.number"].

Definition normalizeKey (key : string) : string := toLowerCase (strip_chars (λ c, Ascii.eqb "-" c || Ascii.eqb "_" c) key).
Definition isSensitiveKey (key : string) : bool := bool_decide (normalizeKey key ∈ SENSITIVE_STEMS).

Definition is_jnull (v : json) : bool := match v with JNull => true | _ => false end.

(** What a value that is not itself replaced becomes. *)
Fixpoint redact (v : json) : json :=
  match v with
  | JObj o =>
      JObj ((fix fields (o : list (string * json)) : list (string * json) :=
               match o with
               | [] => []
               | (key, val) :: o' =>
                   (key, if isSensitiveKey key && negb (is_jnull val) then JStr REDACTION_PLACEHOLDER else redact val) :: fields o'
               end) o)
  | JArr l =>
      JArr ((fix items (l : list json) : list json :=
               match l with
               | [] => []
               | item :: l' => match item with JObj _ => redact item | _ => item end :: items l'
               end) l)
  | _ => v
  end.
Definition redactSensitiveFields (o : list (string * json)) : list (string * json) :=
  match redact (JObj o) with JObj o' => o' | _ => o end.

(** ** What there is to redact *)

(** The values of sensitive keys, at any depth. *)
Fixpoint secrets (v : json) : list json :=
  match v with
  | JObj o =>
      (fix fields (o : list (string * json)) : list json :=
         match o with
         | [] => []
         | (key, val) :: o' => (if isSensitiveKey key && negb (is_jnull val) then [val] else secrets val) ++ fields o'
         end) o
  | JArr l => (fix items (l : list json) : list json := match l with [] => [] | item :: l' => secrets item ++ items l' end) l
  | _ => []
  end.

(** No array is an element of an array. *)
Fixpoint flat_arrays (v : json) : bool :=
  match v with
  | JObj o =>
      (fix fields (o : list (string * json)) : bool := match o with [] => true | (_, val) :: o' => flat_arrays val && fields o' end) o
  | JArr l =>
      (fix items (l : list json) : bool :=
         match l with [] => true | item :: l' => negb match item with JArr _ => true | _ => false end && flat_arrays item && items l' end) l
  | _ => true
  end.

Section json_rect.
Context (P : json → Prop).
Hypothesis (Hscalar : ∀ v, match v with JArr _ | JObj _ => False | _ => True end → P v).
Hypothesis (Harr : ∀ l, Forall P l → P (JArr l)).
Hypothesis (Hobj : ∀ o, Forall (λ kv, P kv.2) o → P (JObj o)).
Fixpoint json_nested_ind (v : json) : P v :=
  match v with
  | JArr l => Harr l ((fix go (l : list json) : Forall P l :=
                         match l with [] => Forall_nil_2 _ | x :: l' => Forall_cons_2 _ _ _ (json_nested_ind x) (go l') end) l)
  | JObj o => Hobj o ((fix go (o : list (string * json)) : Forall (λ kv, P kv.2) o :=
                         match o with [] => Forall_nil_2 _ | kv :: o' => Forall_cons_2 _ kv o' (json_nested_ind kv.2) (go o') end) o)
  | v' => Hscalar v' I
  end.
End json_rect.

Lemma secrets_redacted v : flat_arrays v = true → Forall (λ x, x = JStr REDACTION_PLACEHOLDER) (secrets (redact v)).
Proof.
  induction v as [v Hv|l IH|o IH] using json_nested_ind.
  - by destruct v.
  - induction IH as [|item l Hi _ IHl]; [constructor|]. intros [[Hna Hf]%andb_true_iff Hl]%andb_true_iff. cbn.
    apply Forall_app. split; [|by apply IHl]. destruct item; try done; [constructor..|by apply Hi].
  - induction IH as [|[key val] o Hi _ IHo]; [constructor|]. intros [Hf Ho]%andb_true_iff. cbn. apply Forall_app. split; [|by apply IHo].
    destruct (isSensitiveKey key && negb (is_jnull val)) eqn:E.
    + apply andb_true_iff in E as [-> _]. cbn. by constructor.
    + destruct (isSensitiveKey key && negb (is_jnull (redact val))) eqn:E'; [|by apply Hi].
      apply andb_true_iff in E' as [Hk Hn]. rewrite Hk in E. destruct val; try done.
Qed.

Lemma redact_nothing v : secrets v = [] → redact v = v.
Proof.
  induction v as [v Hv|l IH|o IH] using json_nested_ind.
  - by destruct v.
  - intros H. cbn. f_equal. revert H. induction IH as [|item l Hi _ IHl]; [done|]. cbn. intros [H1 H2]%app_eq_nil. rewrite IHl by done.
    f_equal. destruct item; try done. by apply Hi.
  - intros H. cbn. f_equal. revert H. induction IH as [|[key val] o Hi _ IHo]; [done|]. cbn. intros [H1 H2]%app_eq_nil. rewrite IHo by done.
    cbn in Hi. destruct (_ && _); [done|]. by rewrite Hi.
Qed.

Lemma redact_field o k : field k (redactSensitiveFields o)
  = (λ v, if isSensitiveKey k && negb (is_jnull v) then JStr REDACTION_PLACEHOLDER else redact v) <$> field k o.
Proof. unfold redactSensitiveFields. cbn. induction o as [|[key val] o IH]; [done|]. cbn. case_decide as Hk; [by subst|done]. Qed.

(** * Claims *)

(** C40. In an input without arrays inside arrays, redaction leaves no value of a
    sensitive key, however deep; every field keeps its key and its place, and an input
    with nothing to redact is left as it is. *)
Theorem redaction_complete o : flat_arrays (JObj o) = true →
  Forall (λ x, x = JStr REDACTION_PLACEHOLDER) (secrets (JObj (redactSensitiveFields o)))
  ∧ (redactSensitiveFields o).*1 = o.*1
  ∧ (∀ k v, field k o = Some v → isSensitiveKey k = true → v ≠ JNull → field k (redactSensitiveFields o) = Some (JStr REDACTION_PLACEHOLDER))
  ∧ (secrets (JObj o) = [] → redactSensitiveFields o = o).
Proof.
  intros H. split_and!.
  - by apply secrets_redacted in H.
  - clear H. unfold redactSensitiveFields. cbn. induction o as [|[key val] o IH]; [done|]. cbn. by rewrite IH.
  - intros k v Hk Hs Hv. rewrite redact_field, Hk, Hs. cbn. by destruct v.
  - intros Hn%redact_nothing. unfold redactSensitiveFields. by rewrite Hn.
Qed.

Definition sample_input : list (string * json) :=
  [("Api-Key", JStr "k1"); ("headers", JArr [JObj [("Authorization", JStr "Bearer k2"); ("accept", JStr "text/html")]])].

(** Witness of C40: a key and the headers of a request. *)
Lemma redaction_complete_witness :
  redactSensitiveFields sample_input
  = [("Api-Key", JStr "<redacted />");
     ("headers", JArr [JObj [("Authorization", JStr "<redacted />"); ("accept", JStr "text/html")]])]
  ∧ Forall (λ x, x = JStr REDACTION_PLACEHOLDER) (secrets (JObj (redactSensitiveFields sample_input))).
Proof. split; [vm_compute; reflexivity|]. apply (redaction_complete sample_input). vm_compute. reflexivity. Defined.

(** Redaction does not look into an array inside an array. *)
Example nested_array_not_redacted :
  redactSensitiveFields [("rows", JArr [JArr [JObj [("password", JStr "hunter2")]]])]
  = [("rows", JArr [JArr [JObj [("password", JStr "hunter2")]]])].
Proof. reflexivity. Qed.
