(* ===== verification/Interactions.v ===== *)
(** * Pending interactions

    The registry of src/assistant/src/runtime/pending-interactions.ts, with what its
    entries point to: promises, timers and abort listeners.

    Every request makes one promise, one timer and at most one abort listener, so each of
    them is named by the identifier of its request; the callbacks of an entry are closures
    over that request, and what they do is determined by who made it ([Owner]).  What
    clients are told is kept in a log.  [uuid n] is the [n]th identifier drawn. *)
From S2P Require Import Prelude JsText RuntimeTypes RiskTypes Surroundings CheckerTypes StreamState EventHub.

(** ** Interactions *)

Inductive InteractionKind :=
  | kind_confirmation | kind_secret | kind_question | kind_host_bash | kind_host_file | kind_host_cu | kind_host_browser
  | kind_host_app_control | kind_host_transfer | kind_acp_confirmation.
#[export] Instance InteractionKind_eq_dec : EqDecision InteractionKind.
Proof. solve_decision. Defined.

Inductive InteractionResolutionState := approved | rejected | answered | cancelled | superseded.
#[export] Instance InteractionResolutionState_eq_dec : EqDecision InteractionResolutionState.
Proof. solve_decision. Defined.

Record ConfirmationDetails := mkDetails {
  cd_toolName : string;
  cd_input : list (string * json);
  cd_riskLevel : string;
  cd_executionTarget : option string;
  cd_allowlistOptions : list AllowlistOption;
  cd_scopeOptions : list DirectoryScopeOption;
  cd_directoryScopeOptions : option (list DirectoryScopeOption);
  cd_persistentDecisionsAllowed : option bool;
}.

(** What a request keeps with its entry: the questions of a batch with the identifiers of
    their options, or the operation on a file. *)
Inductive Metadata :=
  | no_metadata
  | batch_metadata (orderedIds : list string) (optionsById : jsmap string (list string))
  | file_metadata (operation path : string).

Record PendingInteraction := mkInteraction {
  in_conversationId : option string;
  in_kind : InteractionKind;
  in_confirmationDetails : option ConfirmationDetails;
  in_directResolve : bool;
  in_targetClientId : option string;
  in_targetActorPrincipalId : option string;
  in_rpcResolve : bool;
  in_rpcReject : bool;
  in_timer : bool;
  in_detachAbort : bool;
  in_metadata : Metadata;
  in_toolUseId : option string;
}.

(** ** What a promise is settled with *)

Inductive SecretDelivery := store | transient_send.
Inductive EntryDecision := by_option (optionId : string) | by_free_text (text : string) | skipped | entry_timed_out | entry_aborted.
Record QuestionEntry := mkEntry { qe_questionId : string; qe_decision : EntryDecision }.
Inductive BatchOverall := completed | closed | batch_timed_out | batch_aborted.
Inductive FileResult :=
  | file_content (content : string) (isError : bool)
  | file_image (imageData path : string)
  | file_audio (audioData path mimeType : string).
Record ToolResult := mkToolResult { tr_content : string; tr_isError : bool; tr_screenshot : option string }.
Inductive HostProxyRejectionReason := reason_timeout | reason_aborted | reason_disposed.

Inductive Outcome :=
  | confirmed (r : ConfirmResult) (selectedPattern selectedScope : option string)
  | secret_result (value : option string) (delivery : SecretDelivery)
  | batch_result (entries : list QuestionEntry) (overall : BatchOverall)
  | route_decision (decision : UserDecision)
  | prompter_disposed
  | bash_payload (stdout stderr : string) (exitCode : option Z) (timedOut : bool)
  | host_rejected (reason : HostProxyRejectionReason)
  | file_result (r : FileResult)
  | tool_result (r : ToolResult)
  | host_failed (r : ToolResult).

(** Who made a request, with what its callbacks close over. *)
Inductive Owner :=
  | by_prompter (n : nat) (toolName : string) (toolUseId : option string)
  | by_secret_prompter (n : nat)
  | by_question_prompter (orderedIds : list string)
  | by_standalone_secret
  | by_route
  | by_bash_proxy (conversationId : string) (targetClientId : option string)
  | by_file_proxy (conversationId : string) (targetClientId : option string)
  | by_cu_proxy (n : nat) (conversationId : string) (targetClientId : option string).

(** ** What clients are told *)

Inductive ConfirmationState := state_pending | state_approved | state_denied | state_timed_out | state_resolved_stale.
Inductive AnswerSource := src_button | src_inline_nl | src_auto_deny | src_timeout | src_system.
Inductive Event :=
  | ev_resolved (requestId conversationId : string) (kind : InteractionKind) (state : InteractionResolutionState)
  | ev_request (requestId : string) (kind : InteractionKind) (targetClientId : option string)
  | ev_cancel (requestId : string) (kind : InteractionKind) (targetClientId : option string)
  | ev_confirmation_state (conversationId requestId : string) (state : ConfirmationState) (source : AnswerSource)
      (toolUseId : option string).

(** ** Conversations *)

(** Where the messages of a conversation go: to every client, nowhere, or to a voice turn,
    on the user's own device or on the phone, of the guardian or of somebody else. *)
Inductive Sender := sender_clients | sender_none | sender_voice (local guardian : bool).

Record ActionRecord := mkAction { ac_step : Z; ac_toolName : string; ac_input : list (string * json); ac_reasoning : option string }.
Record CuProxy := mkCu {
  cu_stepCount : Z;
  cu_maxSteps : Z;
  cu_previousAXTree : option string;
  cu_consecutiveUnchangedSteps : Z;
  cu_actionHistory : list ActionRecord;
  cu_ownedRequests : list string;
}.
(** A [Conversation] object: the requests its two prompters own, and its proxy for
    computer use. *)
Record Conversation := mkConversation {
  cv_id : string;
  cv_sender : Sender;
  cv_confirmations : list string;
  cv_secrets : list string;
  cv_hostCuProxy : option CuProxy;
}.

Record World := mkWorld {
  wd_drawn : nat;
  wd_pending : jsmap string PendingInteraction;
  wd_owners : gmap string Owner;
  wd_timers : gset string;
  wd_listeners : list (nat * string);
  wd_aborted : gset nat;
  wd_finished : gset string;
  wd_outcomes : gmap string Outcome;
  wd_objects : gmap nat Conversation;
  wd_registry : jsmap string nat;
  wd_bash : jsmap string (string * option string);
  wd_grants : list (nat * string);
  wd_hub : Hub;
  wd_events : list Event;
}.
Definition empty_world (hub : Hub) : World := mkWorld 0 [] ∅ ∅ [] ∅ ∅ ∅ ∅ [] [] [] hub [].

Definition set_pending (x : jsmap string PendingInteraction) (w : World) : World :=
  mkWorld (wd_drawn w) x (wd_owners w) (wd_timers w) (wd_listeners w) (wd_aborted w) (wd_finished w) (wd_outcomes w)
    (wd_objects w) (wd_registry w) (wd_bash w) (wd_grants w) (wd_hub w) (wd_events w).
Definition set_timers (x : gset string) (w : World) : World :=
  mkWorld (wd_drawn w) (wd_pending w) (wd_owners w) x (wd_listeners w) (wd_aborted w) (wd_finished w) (wd_outcomes w)
    (wd_objects w) (wd_registry w) (wd_bash w) (wd_grants w) (wd_hub w) (wd_events w).
Definition set_listeners (x : list (nat * string)) (w : World) : World :=
  mkWorld (wd_drawn w) (wd_pending w) (wd_owners w) (wd_timers w) x (wd_aborted w) (wd_finished w) (wd_outcomes w)
    (wd_objects w) (wd_registry w) (wd_bash w) (wd_grants w) (wd_hub w) (wd_events w).
Definition mark_aborted (s : nat) (w : World) : World :=
  mkWorld (wd_drawn w) (wd_pending w) (wd_owners w) (wd_timers w) (wd_listeners w) ({[s]} ∪ wd_aborted w) (wd_finished w) (wd_outcomes w)
    (wd_objects w) (wd_registry w) (wd_bash w) (wd_grants w) (wd_hub w) (wd_events w).
Definition mark_finished (id : string) (w : World) : World :=
  mkWorld (wd_drawn w) (wd_pending w) (wd_owners w) (wd_timers w) (wd_listeners w) (wd_aborted w) ({[id]} ∪ wd_finished w) (wd_outcomes w)
    (wd_objects w) (wd_registry w) (wd_bash w) (wd_grants w) (wd_hub w) (wd_events w).
Definition set_outcomes (x : gmap string Outcome) (w : World) : World :=
  mkWorld (wd_drawn w) (wd_pending w) (wd_owners w) (wd_timers w) (wd_listeners w) (wd_aborted w) (wd_finished w) x
    (wd_objects w) (wd_registry w) (wd_bash w) (wd_grants w) (wd_hub w) (wd_events w).
Definition set_objects (x : gmap nat Conversation) (w : World) : World :=
  mkWorld (wd_drawn w) (wd_pending w) (wd_owners w) (wd_timers w) (wd_listeners w) (wd_aborted w) (wd_finished w) (wd_outcomes w)
    x (wd_registry w) (wd_bash w) (wd_grants w) (wd_hub w) (wd_events w).
Definition set_registry (x : jsmap string nat) (w : World) : World :=
  mkWorld (wd_drawn w) (wd_pending w) (wd_owners w) (wd_timers w) (wd_listeners w) (wd_aborted w) (wd_finished w) (wd_outcomes w)
    (wd_objects w) x (wd_bash w) (wd_grants w) (wd_hub w) (wd_events w).
Definition set_bash (x : jsmap string (string * option string)) (w : World) : World :=
  mkWorld (wd_drawn w) (wd_pending w) (wd_owners w) (wd_timers w) (wd_listeners w) (wd_aborted w) (wd_finished w) (wd_outcomes w)
    (wd_objects w) (wd_registry w) x (wd_grants w) (wd_hub w) (wd_events w).
Definition set_grants (x : list (nat * string)) (w : World) : World :=
  mkWorld (wd_drawn w) (wd_pending w) (wd_owners w) (wd_timers w) (wd_listeners w) (wd_aborted w) (wd_finished w) (wd_outcomes w)
    (wd_objects w) (wd_registry w) (wd_bash w) x (wd_hub w) (wd_events w).
Definition set_hub (x : Hub) (w : World) : World :=
  mkWorld (wd_drawn w) (wd_pending w) (wd_owners w) (wd_timers w) (wd_listeners w) (wd_aborted w) (wd_finished w) (wd_outcomes w)
    (wd_objects w) (wd_registry w) (wd_bash w) (wd_grants w) x (wd_events w).
Definition tell (e : Event) (w : World) : World :=
  mkWorld (wd_drawn w) (wd_pending w) (wd_owners w) (wd_timers w) (wd_listeners w) (wd_aborted w) (wd_finished w) (wd_outcomes w)
    (wd_objects w) (wd_registry w) (wd_bash w) (wd_grants w) (wd_hub w) (wd_events w ++ [e]).

(** ** Promises, timers, listeners *)

(** A promise keeps what it is settled with first. *)
Definition settle (id : string) (o : Outcome) (w : World) : World :=
  match wd_outcomes w !! id with Some _ => w | None => set_outcomes (<[id := o]> (wd_outcomes w)) w end.
Definition setTimer (id : string) (w : World) : World := set_timers ({[id]} ∪ wd_timers w) w.
Definition clearTimer (id : string) (w : World) : World := set_timers (wd_timers w ∖ {[id]}) w.
Definition listen (signal : option nat) (id : string) (w : World) : World :=
  match signal with Some s => set_listeners (wd_listeners w ++ [(s, id)]) w | None => w end.
Definition unlisten (id : string) (w : World) : World := set_listeners (delete_where (λ l, eqs l.2 id) (wd_listeners w)) w.
Definition is_aborted (signal : option nat) (w : World) : bool :=
  match signal with Some s => bool_decide (s ∈ wd_aborted w) | None => false end.

(** A new request: its identifier, and who makes it. *)
Definition draw (uuid : nat → string) (owner : Owner) (w : World) : string * World :=
  let id := uuid (wd_drawn w) in
  (id, mkWorld (S (wd_drawn w)) (wd_pending w) (<[id := owner]> (wd_owners w)) (wd_timers w) (wd_listeners w) (wd_aborted w)
         (wd_finished w) (wd_outcomes w) (wd_objects w) (wd_registry w) (wd_bash w) (wd_grants w) (wd_hub w) (wd_events w)).

(** ** The registry *)

Definition register (id : string) (i : PendingInteraction) (w : World) : World := set_pending (jset id i (wd_pending w)) w.

Definition emitResolved (id : string) (i : PendingInteraction) (state : InteractionResolutionState) (w : World) : World :=
  match in_conversationId i with Some c => tell (ev_resolved id c (in_kind i) state) w | None => w end.

Definition resolve (id : string) (state : InteractionResolutionState) (w : World) : option PendingInteraction * World :=
  match jget id (wd_pending w) with
  | None => (None, w)
  | Some i =>
      let w1 := set_pending (jdel id (wd_pending w)) w in
      let w2 := if in_timer i then clearTimer id w1 else w1 in
      let w3 := if in_detachAbort i then unlisten id w2 else w2 in
      (Some i, emitResolved id i state w3)
  end.

Definition get (id : string) (w : World) : option PendingInteraction := jget id (wd_pending w).
Definition getByConversation (conversationId : string) (w : World) : jsmap string PendingInteraction :=
  js_filter (λ e, eqos (in_conversationId e.2) (Some conversationId)) (wd_pending w).
Definition getByKind (kind : InteractionKind) (w : World) : jsmap string PendingInteraction :=
  js_filter (λ e, bool_decide (in_kind e.2 = kind)) (wd_pending w).
Definition getAll (w : World) : jsmap string PendingInteraction := wd_pending w.

(** [finish] of the question prompter and [settle] of a route: once per request. *)
Definition finish (id : string) (state : InteractionResolutionState) (o : Outcome) (w : World) : World :=
  if bool_decide (id ∈ wd_finished w) then w
  else settle id o (resolve id state (unlisten id (clearTimer id (mark_finished id w)))).2.

(** [rpcResolve] and [rpcReject] of an entry. *)
Definition rpc_settle (id : string) (o : Outcome) (w : World) : World :=
  match wd_owners w !! id with
  | Some (by_question_prompter _) => finish id cancelled o w
  | _ => settle id o w
  end.
Definition rpcResolve (id : string) (i : option PendingInteraction) (o : Outcome) (w : World) : World :=
  match i with Some i => if in_rpcResolve i then rpc_settle id o w else w | None => w end.
Definition rpcReject (id : string) (i : option PendingInteraction) (o : Outcome) (w : World) : World :=
  match i with Some i => if in_rpcReject i then rpc_settle id o w else w | None => w end.

(** [directResolve] of a route's entry. *)
Definition directResolve (id : string) (decision : UserDecision) (w : World) : World :=
  finish id (match decision with user_allow => approved | user_deny => rejected end) (route_decision decision) w.

Definition removable (kind : InteractionKind) : bool :=
  match kind with
  | kind_host_bash | kind_host_file | kind_host_cu | kind_host_browser | kind_host_app_control | kind_host_transfer
  | kind_acp_confirmation => false
  | _ => true
  end.
Definition remove_one (state : InteractionResolutionState) (w : World) (e : string * PendingInteraction) : World :=
  let w' := (resolve e.1 state w).2 in
  if bool_decide (in_kind e.2 = kind_secret) then rpcResolve e.1 (Some e.2) (secret_result None store) w' else w'.
Definition removeByConversation (conversationId : string) (state : InteractionResolutionState) (w : World) : World :=
  foldl (remove_one state) w
    (js_filter (λ e, eqos (in_conversationId e.2) (Some conversationId) && removable (in_kind e.2)) (wd_pending w)).

(** ** Conversation objects *)

Definition alter_object (n : nat) (f : Conversation → Conversation) (w : World) : World := set_objects (alter f n (wd_objects w)) w.
Definition set_sender (s : Sender) (cv : Conversation) : Conversation :=
  mkConversation (cv_id cv) s (cv_confirmations cv) (cv_secrets cv) (cv_hostCuProxy cv).
Definition set_confirmations (l : list string) (cv : Conversation) : Conversation :=
  mkConversation (cv_id cv) (cv_sender cv) l (cv_secrets cv) (cv_hostCuProxy cv).
Definition set_secrets (l : list string) (cv : Conversation) : Conversation :=
  mkConversation (cv_id cv) (cv_sender cv) (cv_confirmations cv) l (cv_hostCuProxy cv).
Definition set_cu (p : option CuProxy) (cv : Conversation) : Conversation :=
  mkConversation (cv_id cv) (cv_sender cv) (cv_confirmations cv) (cv_secrets cv) p.
Definition findConversation (conversationId : option string) (w : World) : option nat :=
  c ← conversationId; if truthy c then jget c (wd_registry w) else None.

Definition without (id : string) (l : list string) : list string := delete_where (λ x, eqs x id) l.
