(* ===== verification/Prompters.v ===== *)
(** * Prompters

    Asking the user: [PermissionPrompter] (permissions/prompter.ts), [SecretPrompter]
    (secret-prompter.ts), [QuestionPrompter] (question-prompter.ts),
    [requestSecretStandalone] (daemon/handlers/shared.ts) and [awaitRouteApproval]
    (runtime/routes/acp-routes.ts), with the answers a conversation takes
    (daemon/conversation.ts), the sender of a voice turn (calls/voice-session-bridge.ts)
    and what a new message or an abort does to questions that are open
    (runtime/routes/conversation-routes.ts, daemon/conversation-lifecycle.ts).

    An operation that makes a request returns its identifier, or the answer it has
    without asking. *)
From stdpp Require Import pretty.
From S2P Require Import Prelude JsText RuntimeTypes RiskTypes Surroundings CheckerTypes Checker StreamState EventHub Interactions Redaction.

Section prompters.
Context (uuid : nat → string).

(** ** Telling the client *)

(** [emitConfirmationStateChanged] of a conversation. *)
Definition emit_state (n : nat) (id : string) (state : ConfirmationState) (source : AnswerSource) (toolUseId : option string)
    (w : World) : World :=
  match wd_objects w !! n with
  | Some cv => match cv_sender cv with
               | sender_none => w
               | _ => tell (ev_confirmation_state (cv_id cv) id state source toolUseId) w
               end
  | None => w
  end.

Definition confirm_result (decision : UserDecision) (context : option string) (wasTimeout wasSystemCancel wasAbort : bool) : Outcome :=
  confirmed (mkConfirm decision context wasTimeout wasSystemCancel wasAbort) None None.

(** ** Confirmations *)

Definition owns_confirmation (n : nat) (id : string) (w : World) : bool :=
  match wd_objects w !! n with Some cv => bool_decide (id ∈ cv_confirmations cv) | None => false end.
Definition disown_confirmation (n : nat) (id : string) (w : World) : World :=
  alter_object n (λ cv, set_confirmations (without id (cv_confirmations cv)) cv) w.

Definition hasPending (n : nat) (w : World) : bool :=
  match wd_objects w !! n with Some cv => match cv_confirmations cv with [] => false | _ :: _ => true end | None => false end.
Definition getToolUseId (id : string) (w : World) : option string := i ← get id w; in_toolUseId i.

Record AnswerOptions := mkAnswer { an_selectedPattern : option string; an_selectedScope : option string; an_decisionContext : option string }.
Definition no_options : AnswerOptions := mkAnswer None None None.

Definition answer_state (decision : UserDecision) : InteractionResolutionState :=
  match decision with user_allow => approved | user_deny => rejected end.

Definition resolveConfirmation (n : nat) (id : string) (decision : UserDecision) (options : AnswerOptions) (w : World) : World :=
  if negb (owns_confirmation n id w) then w
  else
    let '(interaction, w1) := resolve id (answer_state decision) w in
    rpcResolve id interaction
      (confirmed (mkConfirm decision (an_decisionContext options) false false false) (an_selectedPattern options) (an_selectedScope options))
      (disown_confirmation n id w1).

(** [handleConfirmationResponse] of a conversation. *)
Definition handleConfirmationResponse (n : nat) (id : string) (decision : UserDecision) (options : AnswerOptions)
    (source : AnswerSource) (w : World) : World :=
  if negb (owns_confirmation n id w) then w
  else
    let toolUseId := getToolUseId id w in
    emit_state n id (match decision with user_deny => state_denied | user_allow => state_approved end) source toolUseId
      (resolveConfirmation n id decision options w).

Definition superseded_context : string :=
  "The user sent a new message instead of responding to this permission prompt. Stop what you are doing and respond to the user's new message. Do NOT retry this tool or request permission again until the user asks you to.".
Definition deny_one (n : nat) (w : World) (id : string) : World :=
  let '(interaction, w1) := resolve id superseded w in
  rpcResolve id interaction (confirm_result user_deny (Some superseded_context) false true false) (disown_confirmation n id w1).
Definition denyAllPending (n : nat) (w : World) : World :=
  match wd_objects w !! n with Some cv => foldl (deny_one n) w (cv_confirmations cv) | None => w end.

Definition dispose_one (n : nat) (w : World) (id : string) : World :=
  let '(interaction, w1) := resolve id cancelled w in rpcReject id interaction prompter_disposed (disown_confirmation n id w1).
Definition dispose_prompter (n : nat) (w : World) : World :=
  match wd_objects w !! n with Some cv => foldl (dispose_one n) w (cv_confirmations cv) | None => w end.

Definition without_directories (d : ConfirmationDetails) : ConfirmationDetails :=
  mkDetails (cd_toolName d) (cd_input d) (cd_riskLevel d) (cd_executionTarget d) (cd_allowlistOptions d) (cd_scopeOptions d) None
    (cd_persistentDecisionsAllowed d).

(** What [sendToClient] does with a [confirmation_request]: a voice turn on the phone
    answers for the guardian at once, and looks for a grant for anybody else. *)
Definition send_confirmation_request (n : nat) (id : string) (details : ConfirmationDetails) (w : World) : World :=
  match wd_objects w !! n with
  | None => w
  | Some cv =>
      match cv_sender cv with
      | sender_clients => tell (ev_request id kind_confirmation None) w
      | sender_none => w
      | sender_voice true _ =>
          tell (ev_request id kind_confirmation None)
            (register id (mkInteraction (Some (cv_id cv)) kind_confirmation (Some (without_directories details)) false None None
               false false false false no_metadata None) w)
      | sender_voice false false => set_grants (wd_grants w ++ [(n, id)]) w
      | sender_voice false true =>
          tell (ev_request id kind_confirmation None)
            (handleConfirmationResponse n id user_allow
               (mkAnswer None None (Some ("Permission approved for " +:+ quoted (cd_toolName details) +:+ ": this is a verified guardian voice call.")))
               src_button w)
      end
  end.

(** The grant of a voice turn has been looked for; its tool is named in the message. *)
Definition voice_grant_answered (n : nat) (id toolName : string) (consumed : bool) (w : World) : World :=
  if bool_decide ((n, id) ∈ wd_grants w) then
    let w1 := set_grants (delete_where (λ g, eqs g.2 id) (wd_grants w)) w in
    let context :=
      if consumed then "Permission approved for " +:+ quoted toolName +:+ ": guardian pre-approved via scoped grant."
      else "Permission denied for " +:+ quoted toolName +:+ ": this voice call does not have interactive approval capabilities. Side-effect tools are only available to the verified account owner. In your next assistant reply, explain briefly that the action cannot be performed during this call." in
    tell (ev_request id kind_confirmation None)
      (handleConfirmationResponse n id (if consumed then user_allow else user_deny) (mkAnswer None None (Some context)) src_button w1)
  else w.

(** [prompt] of the permission prompter. *)
Definition prompt (n : nat) (toolName : string) (input : list (string * json)) (riskLevel : string)
    (allowlistOptions : list AllowlistOption) (scopeOptions : list DirectoryScopeOption) (conversationId executionTarget : option string)
    (persistentDecisionsAllowed : option bool) (signal : option nat) (toolUseId : option string)
    (directoryScopeOptions : option (list DirectoryScopeOption)) (w : World) : (Outcome + string) * World :=
  if is_aborted signal w then (inl (confirm_result user_deny None false false true), w)
  else
    let '(id, w0) := draw uuid (by_prompter n toolName toolUseId) w in
    let details := mkDetails toolName (redactSensitiveFields input) riskLevel executionTarget allowlistOptions scopeOptions
                     directoryScopeOptions (Some (default true persistentDecisionsAllowed)) in
    let w1 := register id (mkInteraction (Some (default "" conversationId)) kind_confirmation (Some details) false None None
                             true true true false no_metadata toolUseId) (setTimer id w0) in
    let w2 := alter_object n (λ cv, set_confirmations (cv_confirmations cv ++ [id]) cv) w1 in
    let w3 := send_confirmation_request n id details (listen signal id w2) in
    (inr id, emit_state n id state_pending src_system toolUseId w3).

Definition timeout_context (toolName : string) : string :=
  "The permission prompt for the " +:+ quoted toolName +:+ " tool timed out. The user did not explicitly deny this request — they may have been away or busy. You may retry this tool call if it is still needed for the current task.".
Definition confirmation_timeout (n : nat) (id toolName : string) (toolUseId : option string) (w : World) : World :=
  let '(interaction, w1) := resolve id cancelled w in
  let w2 := emit_state n id state_timed_out src_timeout toolUseId (disown_confirmation n id w1) in
  rpcResolve id interaction (confirm_result user_deny (Some (timeout_context toolName)) true false false) w2.
Definition confirmation_abort (n : nat) (id : string) (w : World) : World :=
  if owns_confirmation n id w then
    settle id (confirm_result user_deny None false false true) (disown_confirmation n id (resolve id cancelled w).2)
  else w.

(** ** Secrets *)

Definition owns_secret (n : nat) (id : string) (w : World) : bool :=
  match wd_objects w !! n with Some cv => bool_decide (id ∈ cv_secrets cv) | None => false end.
Definition disown_secret (n : nat) (id : string) (w : World) : World :=
  alter_object n (λ cv, set_secrets (without id (cv_secrets cv)) cv) w.
Definition plain_secret (conversationId : option string) (rejectable : bool) : PendingInteraction :=
  mkInteraction conversationId kind_secret None false None None true rejectable true false no_metadata None.

Definition prompt_secret (n : nat) (conversationId : option string) (w : World) : string * World :=
  let '(id, w0) := draw uuid (by_secret_prompter n) w in
  let w1 := register id (plain_secret (Some (default "unknown" conversationId)) true) (setTimer id w0) in
  (id, tell (ev_request id kind_secret None) (alter_object n (λ cv, set_secrets (cv_secrets cv ++ [id]) cv) w1)).

Definition secret_answer_state (value : option string) : InteractionResolutionState :=
  match value with Some _ => answered | None => cancelled end.
Definition resolveSecret (n : nat) (id : string) (value : option string) (delivery : option SecretDelivery) (w : World) : World :=
  if negb (owns_secret n id w) then w
  else
    let '(interaction, w1) := resolve id (secret_answer_state value) w in
    rpcResolve id interaction (secret_result value (default store delivery)) (disown_secret n id w1).

Definition dispose_secret_one (n : nat) (w : World) (id : string) : World :=
  let '(interaction, w1) := resolve id cancelled w in rpcReject id interaction prompter_disposed (disown_secret n id w1).
Definition dispose_secret_prompter (n : nat) (w : World) : World :=
  match wd_objects w !! n with Some cv => foldl (dispose_secret_one n) w (cv_secrets cv) | None => w end.

Definition secret_timeout (n : nat) (id : string) (w : World) : World :=
  settle id (secret_result None store) (disown_secret n id (resolve id cancelled w).2).

Definition requestSecretStandalone (conversationId : option string) (w : World) : string * World :=
  let '(id, w0) := draw uuid by_standalone_secret w in
  (id, tell (ev_request id kind_secret None) (register id (plain_secret conversationId false) (setTimer id w0))).
Definition standalone_timeout (id : string) (w : World) : World := settle id (secret_result None store) (resolve id cancelled w).2.

(** ** Questions *)

Inductive Submission :=
  | submit_option (questionId optionId : string)
  | submit_free_text (questionId text : string)
  | submit_skip (questionId : string).
Definition submission_questionId (s : Submission) : string :=
  match s with submit_option q _ | submit_free_text q _ | submit_skip q => q end.
Inductive BatchError :=
  | unknown_question (questionId : string) | duplicate_question (questionId : string)
  | unknown_option (questionId optionId : string) | missing_response (questionId : string)
  | legacy_empty | legacy_many | no_registered_questions.

Fixpoint check_submissions (isKnownOption : string → string → bool) (known : list string) (seen : list string)
    (submissions : list Submission) : BatchError + list string :=
  match submissions with
  | [] => inr seen
  | s :: rest =>
      let q := submission_questionId s in
      if negb (bool_decide (q ∈ known)) then inl (unknown_question q)
      else if bool_decide (q ∈ seen) then inl (duplicate_question q)
      else match s with
           | submit_option _ o => if negb (isKnownOption q o) then inl (unknown_option q o)
                                  else check_submissions isKnownOption known (q :: seen) rest
           | _ => check_submissions isKnownOption known (q :: seen) rest
           end
  end.
(** [byId.get(id)]: the map is filled in order. *)
Definition submission_for (id : string) (submissions : list Submission) : option Submission :=
  js_find (λ s, eqs (submission_questionId s) id) (rev submissions).
Definition entry_of (id : string) (s : option Submission) : QuestionEntry :=
  mkEntry id match s with
             | Some (submit_option _ o) => by_option o
             | Some (submit_free_text _ t) => by_free_text t
             | _ => skipped
             end.

Definition buildBatchEntries (orderedIds : list string) (isKnownOption : string → string → bool) (knownQuestionIds : list string)
    (submissions : list Submission) : BatchError + list QuestionEntry :=
  match check_submissions isKnownOption knownQuestionIds [] submissions with
  | inl e => inl e
  | inr submitted =>
      match js_find (λ id, negb (bool_decide (id ∈ submitted))) orderedIds with
      | Some id => inl (missing_response id)
      | None => inr ((λ id, entry_of id (submission_for id submissions)) <$> orderedIds)
      end
  end.

(** The questions of a batch, as the identifiers of their options. *)
Definition question_id (i : nat) : string := "q" +:+ pretty (Z.of_nat i + 1).
Definition orderedIds_of (questions : list (list string)) : list string := imap (λ i _, question_id i) questions.
Definition optionsById_of (questions : list (list string)) : jsmap string (list string) := imap (λ i options, (question_id i, options)) questions.

Definition batch_of (d : EntryDecision) (overall : BatchOverall) (orderedIds : list string) : Outcome :=
  batch_result ((λ id, mkEntry id d) <$> orderedIds) overall.

Definition prompt_questions (conversationId : string) (questions : list (list string)) (toolUseId : option string) (signal : option nat)
    (w : World) : option (Outcome + string) * World :=
  if bool_decide (questions = []) then (None, w)
  else
    let orderedIds := orderedIds_of questions in
    if is_aborted signal w then (Some (inl (batch_of entry_aborted batch_aborted orderedIds)), w)
    else
      let '(id, w0) := draw uuid (by_question_prompter orderedIds) w in
      let w1 := listen signal id (setTimer id w0) in
      let w2 := register id (mkInteraction (Some conversationId) kind_question None false None None true true true false
                               (batch_metadata orderedIds (optionsById_of questions)) toolUseId) w1 in
      (Some (inr id), tell (ev_request id kind_question None) w2).

(** ** Approval of a route *)

Definition awaitRouteApproval (toolName : string) (input : list (string * json)) (conversationId : string) (signal : option nat)
    (w : World) : (Outcome + string) * World :=
  if is_aborted signal w then (inl (route_decision user_deny), w)
  else
    let '(id, w0) := draw uuid by_route w in
    let details := mkDetails toolName input "high" (Some "host") [] [] None (Some false) in
    let w1 := register id (mkInteraction (Some conversationId) kind_confirmation (Some details) true None None false false false false
                             no_metadata None) (listen signal id (setTimer id w0)) in
    (inr id, tell (ev_request id kind_confirmation None) w1).

(** ** Conversations *)

(** A message arrives while confirmations are open: they are denied, and everything else
    the conversation asks is dropped. *)
Definition tell_denied (n : nat) (w : World) (e : string * PendingInteraction) : World :=
  if bool_decide (in_kind e.2 = kind_confirmation) then emit_state n e.1 state_denied src_auto_deny None w else w.
Definition auto_deny (n : nat) (conversationId : string) (w : World) : World :=
  if hasPending n w then
    let w1 := foldl (tell_denied n) w (getByConversation conversationId w) in
    removeByConversation conversationId superseded (denyAllPending n w1)
  else w.
End prompters.
