(* ===== verification/HostProxies.v ===== *)
(** * Requests to the user's machines

    The proxies for shell commands, files and computer use (daemon/host-proxy-base.ts,
    host-bash-proxy.ts, host-file-proxy.ts, host-cu-proxy.ts, the computer-use tools of
    conversation-surfaces.ts) and the routes their results come back on
    (runtime/routes/host-bash-routes.ts, host-file-routes.ts, host-cu-routes.ts), with the
    rule that both ends belong to the same user (runtime/auth/same-actor.ts).

    Refusals and errors of routes are named, their texts are not modelled.  Numbers of
    pixels are integers. *)
From stdpp Require Import pretty.
From S2P Require Import Prelude JsText RuntimeTypes RiskTypes Surroundings CheckerTypes StreamState EventHub Interactions.

(** ** The same user at both ends *)

Inductive RejectionReason := missing_source | missing_target | mismatch.
Definition detectRejection (sourceActorPrincipalId targetActorPrincipalId : option string) : option RejectionReason :=
  match sourceActorPrincipalId, targetActorPrincipalId with
  | None, _ => Some missing_source
  | _, None => Some missing_target
  | Some s, Some t => if eqs s t then None else Some mismatch
  end.

Inductive AutoResolveResult := auto_match (clientId : string) | auto_none | auto_ambiguous.
Definition pickSameUserAutoResolve (capability : HostProxyCapability) (sourceActorPrincipalId : option string) (h : Hub) : AutoResolveResult :=
  match sourceActorPrincipalId with
  | None => auto_none
  | Some s =>
      match js_filter (λ c, eqos (hc_actorPrincipalId c) (Some s)) (listClientsByCapability capability h) with
      | [] => auto_none
      | [c] => auto_match (hc_clientId c)
      | _ => auto_ambiguous
      end
  end.

Inductive HostRefusal := host_aborted | not_connected | not_capable | ambiguous_user | cross_user | other_users_only | step_limit | no_proxy.

Definition capable (capability : HostProxyCapability) (c : HubClient) : bool := bool_decide (capability ∈ hc_capabilities c).

(** The client a request goes to: the one asked for, or the only one of the user. *)
Definition resolve_target (capability : HostProxyCapability) (asked : option string) (sourceActorPrincipalId : option string) (h : Hub)
    : HostRefusal + option string :=
  match asked with
  | Some id =>
      match getClientById id h with
      | None => inl not_connected
      | Some c => if capable capability c then inr (Some id) else inl not_capable
      end
  | None =>
      match pickSameUserAutoResolve capability sourceActorPrincipalId h with
      | auto_ambiguous => inl ambiguous_user
      | auto_match id => inr (Some id)
      | auto_none => inr None
      end
  end.
Definition enforceSameActor (target : option string) (sourceActorPrincipalId : option string) (h : Hub) : option HostRefusal :=
  t ← target; match detectRejection sourceActorPrincipalId (getActorPrincipalIdForClient t h) with Some _ => Some cross_user | None => None end.
Definition target_actor (target : option string) (h : Hub) : option string := t ← target; getActorPrincipalIdForClient t h.

(** ** The client that answers *)

Inductive RouteError := bad_request | not_found | conflict | forbidden.

(** Who submits a result, by its headers. *)
Record Submitter := mkSubmitter { sm_clientId : option string; sm_actorPrincipalId : option string }.
Definition submitter (identity : LocalIdentity) (rawClientId rawActorPrincipalId : option string) : Submitter :=
  mkSubmitter (header_text rawClientId) (resolveActorPrincipalIdForLocalGuardian identity (header_text rawActorPrincipalId)).

Definition check_submitter (s : Submitter) (targetClientId targetActorPrincipalId : option string) : option RouteError :=
  match targetClientId with
  | None => None
  | Some t =>
      match sm_clientId s with
      | None => Some bad_request
      | Some c => if negb (eqs c t) then Some forbidden
                  else match detectRejection (sm_actorPrincipalId s) targetActorPrincipalId with Some _ => Some forbidden | None => None end
      end
  end.

(** The entry a result is for. *)
Definition peek (kind : InteractionKind) (requestId : option string) (w : World) : RouteError + (string * PendingInteraction) :=
  match requestId with
  | None => inl bad_request
  | Some id =>
      if negb (truthy id) then inl bad_request
      else match get id w with
           | None => inl not_found
           | Some i => if bool_decide (in_kind i = kind) then inr (id, i) else inl conflict
           end
  end.

Definition not_empty (s : option string) : option string := t ← s; if truthy t then Some t else None.

Section proxies.
Context (uuid : nat → string).

Definition host_entry (conversationId : string) (kind : InteractionKind) (target : option string) (resolvable : bool) (meta : Metadata)
    (w : World) : PendingInteraction :=
  mkInteraction (Some conversationId) kind None false target (target_actor target (wd_hub w)) resolvable resolvable resolvable resolvable
    meta None.

(** ** Shell commands *)

(** [dispatchRequest]: the entry carries no callback; the proxy keeps the request in a map
    of its own. *)
Definition dispatchRequest (conversationId : string) (target : option string) (signal : option nat) (w : World) : string * World :=
  let '(id, w0) := draw uuid (by_bash_proxy conversationId target) w in
  let w1 := listen signal id (setTimer id w0) in
  let w2 := set_bash (jset id (conversationId, target) (wd_bash w1)) w1 in
  (id, tell (ev_request id kind_host_bash target) (register id (host_entry conversationId kind_host_bash target false no_metadata w2) w2)).

Definition bash_request (targetClientId : option string) (conversationId : string) (signal : option nat)
    (sourceActorPrincipalId : option string) (w : World) : (HostRefusal + string) * World :=
  if is_aborted signal w then (inl host_aborted, w)
  else
    match resolve_target cap_bash (not_empty targetClientId) sourceActorPrincipalId (wd_hub w) with
    | inl e => (inl e, w)
    | inr target =>
        match enforceSameActor target sourceActorPrincipalId (wd_hub w) with
        | Some e => (inl e, w)
        | None => let '(id, w') := dispatchRequest conversationId target signal w in (inr id, w')
        end
    end.

Definition bash_forget (id : string) (w : World) : World := set_bash (jdel id (wd_bash w)) w.
Definition bash_timeout (id : string) (w : World) : World :=
  settle id (host_rejected reason_timeout) (resolve id cancelled (unlisten id (bash_forget id w))).2.
Definition bash_abort (id : string) (target : option string) (w : World) : World :=
  if jhas id (wd_bash w) then
    settle id (host_rejected reason_aborted)
      (tell (ev_cancel id kind_host_bash target) (resolve id cancelled (unlisten id (bash_forget id (clearTimer id w)))).2)
  else w.
Definition bash_resolve (id : string) (o : Outcome) (w : World) : World :=
  if jhas id (wd_bash w) then settle id o (bash_forget id (unlisten id (clearTimer id w))) else w.
Definition bash_resolveResult (id : string) (o : Outcome) (w : World) : World := bash_resolve id o (resolve id answered w).2.
Definition bash_dispose_one (w : World) (e : string * (string * option string)) : World :=
  settle e.1 (host_rejected reason_disposed)
    (tell (ev_cancel e.1 kind_host_bash e.2.2) (resolve e.1 cancelled (unlisten e.1 (clearTimer e.1 w))).2).
Definition bash_dispose (w : World) : World := set_bash [] (foldl bash_dispose_one w (wd_bash w)).

Record BashResponse := mkBashResponse { br_stdout : option string; br_stderr : option string; br_exitCode : option Z; br_timedOut : option bool }.
Definition handleHostBashResult (requestId : option string) (s : Submitter) (r : BashResponse) (w : World) : (RouteError + unit) * World :=
  match peek kind_host_bash requestId w with
  | inl e => (inl e, w)
  | inr (id, i) =>
      match check_submitter s (not_empty (in_targetClientId i)) (in_targetActorPrincipalId i) with
      | Some e => (inl e, w)
      | None =>
          (inr tt, bash_resolveResult id (bash_payload (default "" (br_stdout r)) (default "" (br_stderr r)) (br_exitCode r)
                                            (default false (br_timedOut r))) w)
      end
  end.

(** ** Files *)

Definition file_request (operation path : string) (targetClientId : option string) (conversationId : string) (signal : option nat)
    (sourceActorPrincipalId : option string) (w : World) : (HostRefusal + string) * World :=
  if is_aborted signal w then (inl host_aborted, w)
  else
    match resolve_target cap_file targetClientId sourceActorPrincipalId (wd_hub w) with
    | inl e => (inl e, w)
    | inr target =>
        match enforceSameActor target sourceActorPrincipalId (wd_hub w) with
        | Some e => (inl e, w)
        | None =>
            let '(id, w0) := draw uuid (by_file_proxy conversationId target) w in
            let w1 := listen signal id (setTimer id w0) in
            (inr id, tell (ev_request id kind_host_file target)
                       (register id (host_entry conversationId kind_host_file target true (file_metadata operation path) w1) w1))
        end
    end.

Definition file_timeout (id : string) (target : option string) (w : World) : World :=
  let content := match not_empty target with
                 | Some t => "Host file proxy timed out waiting for response from client '" +:+ t +:+ "'"
                 | None => "Host file proxy timed out waiting for client response"
                 end in
  settle id (host_failed (mkToolResult content true None)) (resolve id cancelled w).2.
Definition file_abort (id : string) (target : option string) (w : World) : World :=
  if negb (is_null (get id w)) then
    settle id (host_failed (mkToolResult "Aborted" true None)) (tell (ev_cancel id kind_host_file target) (resolve id cancelled w).2)
  else w.

Record FileResponse := mkFileResponse {
  fr_content : string;
  fr_isError : bool;
  fr_imageData : option string;
  fr_audioData : option string;
  fr_audioMimeType : option string;
}.
Definition file_outcome (meta : Metadata) (r : FileResponse) : Outcome :=
  let plain := file_result (file_content (fr_content r) (fr_isError r)) in
  match meta with
  | file_metadata operation path =>
      if eqs operation "read" && negb (fr_isError r) then
        match not_empty (fr_imageData r) with
        | Some image => file_result (file_image image path)
        | None =>
            match not_empty (fr_audioData r), not_empty (fr_audioMimeType r) with
            | Some audio, Some mime => file_result (file_audio audio path mime)
            | _, _ => plain
            end
        end
      else plain
  | _ => plain
  end.
Definition file_resolve (id : string) (r : FileResponse) (w : World) : World :=
  let '(interaction, w') := resolve id answered w in
  match interaction with
  | Some i => rpcResolve id interaction (file_outcome (in_metadata i) r) w'
  | None => w'
  end.
Definition file_dispose_one (w : World) (e : string * PendingInteraction) : World :=
  let w' := (resolve e.1 cancelled w).2 in
  rpcReject e.1 (Some e.2) (host_rejected reason_disposed)
    (if is_null (in_conversationId e.2) then w' else tell (ev_cancel e.1 kind_host_file (in_targetClientId e.2)) w').
Definition file_dispose (w : World) : World := foldl file_dispose_one w (getByKind kind_host_file w).

Definition handleHostFileResult (requestId : option string) (s : Submitter) (r : FileResponse) (w : World) : (RouteError + unit) * World :=
  match peek kind_host_file requestId w with
  | inl e => (inl e, w)
  | inr (id, i) =>
      match check_submitter s (in_targetClientId i) (in_targetActorPrincipalId i) with
      | Some e => (inl e, w)
      | None => (inr tt, file_resolve id r w)
      end
  end.

(** ** Computer use *)

Definition MAX_HISTORY_ENTRIES : nat := 10.
Definition LOOP_DETECTION_WINDOW : nat := 3.
Definition CONSECUTIVE_UNCHANGED_WARNING_THRESHOLD : Z := 2.

Definition new_cu (maxSteps : Z) : CuProxy := mkCu 0 maxSteps None 0 [] [].
Definition cu_of (n : nat) (w : World) : option CuProxy := cv ← wd_objects w !! n; cv_hostCuProxy cv.
Definition alter_cu (n : nat) (f : CuProxy → CuProxy) (w : World) : World :=
  alter_object n (λ cv, set_cu (f <$> cv_hostCuProxy cv) cv) w.
Definition set_owned (l : list string) (p : CuProxy) : CuProxy :=
  mkCu (cu_stepCount p) (cu_maxSteps p) (cu_previousAXTree p) (cu_consecutiveUnchangedSteps p) (cu_actionHistory p) l.
Definition cu_disown (n : nat) (id : string) (w : World) : World :=
  alter_cu n (λ p, set_owned (without id (cu_ownedRequests p)) p) w.

(** The last entries, at most [k]. *)
Definition keep_last {A} (k : nat) (l : list A) : list A := drop (length l - k) l.
Definition recordAction (toolName : string) (input : list (string * json)) (reasoning : option string) (p : CuProxy) : CuProxy :=
  let step := cu_stepCount p + 1 in
  mkCu step (cu_maxSteps p) (cu_previousAXTree p) (cu_consecutiveUnchangedSteps p)
    (keep_last MAX_HISTORY_ENTRIES (cu_actionHistory p ++ [mkAction step toolName input reasoning])) (cu_ownedRequests p).
Definition reset (p : CuProxy) : CuProxy := mkCu 0 (cu_maxSteps p) None 0 [] (cu_ownedRequests p).

(** [request] of the proxy of a conversation object. *)
Definition cu_request (n : nat) (conversationId : string) (signal : option nat) (targetClientId : option string)
    (sourceActorPrincipalId : option string) (w : World) : (HostRefusal + string) * World :=
  match cu_of n w with
  | None => (inl no_proxy, w)
  | Some p =>
      if is_aborted signal w then (inl host_aborted, w)
      else if cu_maxSteps p <? cu_stepCount p then (inl step_limit, w)
      else
        let chosen :=
          match targetClientId with
          | Some t => inr (Some t)
          | None =>
              match pickSameUserAutoResolve cap_cu sourceActorPrincipalId (wd_hub w) with
              | auto_ambiguous => inl ambiguous_user
              | auto_match t => inr (Some t)
              | auto_none => match listClientsByCapability cap_cu (wd_hub w) with [] => inr None | _ => inl other_users_only end
              end
          end in
        match chosen with
        | inl e => (inl e, w)
        | inr target =>
            match (match target with Some t => resolve_target cap_cu (Some t) sourceActorPrincipalId (wd_hub w) | None => inr None end) with
            | inl e => (inl e, w)
            | inr _ =>
                match enforceSameActor target sourceActorPrincipalId (wd_hub w) with
                | Some e => (inl e, w)
                | None =>
                    let '(id, w0) := draw uuid (by_cu_proxy n conversationId target) w in
                    let w1 := alter_cu n (λ p, set_owned (cu_ownedRequests p ++ [id]) p) (listen signal id (setTimer id w0)) in
                    (inr id, tell (ev_request id kind_host_cu target)
                               (register id (host_entry conversationId kind_host_cu target true no_metadata w1) w1))
                end
            end
        end
  end.

(** The computer-use branch of [surfaceProxyResolver] for a tool that acts: the target is
    checked before the action is counted. *)
Definition cu_tool (n : nat) (toolName : string) (input : list (string * json)) (reasoning targetClientId : option string)
    (conversationId : string) (signal : option nat) (sourceActorPrincipalId : option string) (w : World) : (HostRefusal + string) * World :=
  match cu_of n w, getMostRecentClientByCapability cap_cu (wd_hub w) with
  | Some _, Some _ =>
      let chosen :=
        match resolve_target cap_cu (not_empty targetClientId) sourceActorPrincipalId (wd_hub w) with
        | inl e => inl e
        | inr target =>
            match (if is_null (not_empty targetClientId) then None else enforceSameActor target sourceActorPrincipalId (wd_hub w)) with
            | Some e => inl e
            | None =>
                match target with
                | None => match listClientsByCapability cap_cu (wd_hub w) with [] => inr None | _ => inl other_users_only end
                | Some t => inr (Some t)
                end
            end
        end in
      match chosen with
      | inl e => (inl e, w)
      | inr target => cu_request n conversationId signal target sourceActorPrincipalId (alter_cu n (recordAction toolName input reasoning) w)
      end
  | _, _ => (inl no_proxy, w)
  end.

Definition cu_timeout (n : nat) (id : string) (w : World) : World :=
  settle id (host_failed (mkToolResult "Host CU proxy timed out waiting for client response" true None))
    (resolve id cancelled (cu_disown n id w)).2.
Definition cu_abort (n : nat) (id : string) (target : option string) (w : World) : World :=
  if negb (is_null (get id w)) then
    settle id (host_failed (mkToolResult "Aborted" true None))
      (tell (ev_cancel id kind_host_cu target) (resolve id cancelled (cu_disown n id w)).2)
  else w.

Record CuObservation := mkObservation {
  ob_axTree : option string;
  ob_axDiff : option string;
  ob_secondaryWindows : option string;
  ob_screenshot : option string;
  ob_screenshotPx : option (Z * Z);
  ob_screenPt : option (Z * Z);
  ob_executionResult : option string;
  ob_executionError : option string;
  ob_userGuidance : option string;
}.

Definition updateStateFromObservation (ob : CuObservation) (p : CuProxy) : CuProxy :=
  let unchanged :=
    if 0 <? cu_stepCount p then
      if is_null (ob_axDiff ob) && negb (is_null (cu_previousAXTree p)) && negb (is_null (ob_axTree ob))
      then cu_consecutiveUnchangedSteps p + 1
      else if negb (is_null (ob_axDiff ob)) then 0 else cu_consecutiveUnchangedSteps p
    else cu_consecutiveUnchangedSteps p in
  mkCu (cu_stepCount p) (cu_maxSteps p) (match ob_axTree ob with Some t => Some t | None => cu_previousAXTree p end) unchanged
    (cu_actionHistory p) (cu_ownedRequests p).

(** [replace(/<\/ax-tree>/gi, "&lt;/ax-tree&gt;")] *)
Fixpoint escape_from (fuel : nat) (s : string) : string :=
  match fuel, s with
  | Datatypes.S fuel', String c s' =>
      if startsWith (toLowerCase s) "</ax-tree>" then "&lt;/ax-tree&gt;" +:+ escape_from fuel' (str_drop 10 s)
      else String c (escape_from fuel' s')
  | _, _ => ""
  end.
Definition escapeAxTreeContent (s : string) : string := escape_from (String.length s) s.

Definition formatScreenshotMetadata (ob : CuObservation) : list string :=
  if is_null (not_empty (ob_screenshot ob)) then []
  else match ob_screenshotPx ob with Some (x, y) => ["Screenshot metadata: " +:+ pretty x +:+ "x" +:+ pretty y +:+ " px"] | None => [] end
       ++ match ob_screenPt ob with Some (x, y) => ["Screen metadata: " +:+ pretty x +:+ "x" +:+ pretty y +:+ " pt"] | None => [] end.

Definition effect_warning (previous : option string) (ob : CuObservation) (p : CuProxy) : list string :=
  match not_empty (ob_axDiff ob) with
  | Some d => [d; ""]
  | None =>
      let waits := match last (cu_actionHistory p) with Some a => eqs (ac_toolName a) "computer_use_wait" | None => false end in
      if negb (is_null previous) && negb (is_null (ob_axTree ob)) && negb waits then
        [if CONSECUTIVE_UNCHANGED_WARNING_THRESHOLD <=? cu_consecutiveUnchangedSteps p
         then "WARNING: " +:+ pretty (cu_consecutiveUnchangedSteps p) +:+ " consecutive actions had NO VISIBLE EFFECT on the UI. You MUST try a completely different approach."
         else "Your last action had NO VISIBLE EFFECT on the UI. Try something different."; ""]
      else []
  end.
Definition loop_warning (p : CuProxy) : list string :=
  match keep_last LOOP_DETECTION_WINDOW (cu_actionHistory p) with
  | r0 :: rest =>
      if bool_decide (length (r0 :: rest) = LOOP_DETECTION_WINDOW)
         && forallb (λ r, eqs (ac_toolName r) (ac_toolName r0)
                          && eqs (json_stringify (JObj (ac_input r))) (json_stringify (JObj (ac_input r0)))) (r0 :: rest)
      then ["WARNING: You've repeated the same action (" +:+ ac_toolName r0 +:+ ") 3 times. Try something different."; ""]
      else []
  | [] => []
  end.

Definition NEWLINE : ascii := "010".
(** [formatObservation]; the proxy has been updated with the observation. *)
Definition formatObservation (ob : CuObservation) (previousAXTree : option string) (p : CuProxy) : ToolResult :=
  let text (s : option string) (f : string → list string) := match not_empty s with Some t => f t | None => [] end in
  let metadata := formatScreenshotMetadata ob in
  let parts :=
    text (ob_userGuidance ob) (λ g, ["USER GUIDANCE: " +:+ g; ""])
    ++ text (ob_executionResult ob) (λ r, [r; ""])
    ++ effect_warning previousAXTree ob p ++ loop_warning p
    ++ text (ob_axTree ob) (λ t, ["<ax-tree>"; "CURRENT SCREEN STATE:"; escapeAxTreeContent t; "</ax-tree>"])
    ++ text (ob_secondaryWindows ob) (λ s, [""; s; "";
         "Note: The element [ID]s above are from other windows — you can reference them for context but can only interact with the focused window's elements."])
    ++ match metadata with [] => [] | _ => "" :: metadata end in
  let joined := js_trim (js_join NEWLINE parts) in
  let content := if truthy joined then joined else "Action executed" in
  match ob_executionError ob with
  | Some e => mkToolResult ("Action failed: " +:+ e +:+ String NEWLINE (String NEWLINE content)) true (not_empty (ob_screenshot ob))
  | None => mkToolResult content false (not_empty (ob_screenshot ob))
  end.

Definition processObservation (n : nat) (id : string) (ob : CuObservation) (w : World) : World :=
  let '(interaction, w1) := resolve id answered (cu_disown n id w) in
  match interaction, cu_of n w1 with
  | Some i, Some p =>
      if in_rpcResolve i then
        let w2 := alter_cu n (updateStateFromObservation ob) w1 in
        rpcResolve id interaction (tool_result (formatObservation ob (cu_previousAXTree p) (updateStateFromObservation ob p))) w2
      else w1
  | _, _ => w1
  end.

Definition cu_dispose_one (w : World) (id : string) : World :=
  let '(interaction, w1) := resolve id cancelled w in
  match interaction with
  | None => w1
  | Some i =>
      rpcReject id interaction (host_rejected reason_disposed)
        (if is_null (in_conversationId i) then w1 else tell (ev_cancel id kind_host_cu (in_targetClientId i)) w1)
  end.
Definition cu_dispose (n : nat) (w : World) : World :=
  match cu_of n w with
  | Some p => alter_cu n (set_owned []) (foldl cu_dispose_one w (cu_ownedRequests p))
  | None => w
  end.
(** [setHostCuProxy]: the proxy that goes is disposed. *)
Definition setHostCuProxy (n : nat) (p : option CuProxy) (w : World) : World := alter_object n (set_cu p) (cu_dispose n w).

Definition handleHostCuResult (requestId : option string) (s : Submitter) (ob : CuObservation) (w : World) : (RouteError + unit) * World :=
  match peek kind_host_cu requestId w with
  | inl e => (inl e, w)
  | inr (id, i) =>
      match check_submitter s (in_targetClientId i) (in_targetActorPrincipalId i) with
      | Some e => (inl e, w)
      | None =>
          match (n ← findConversation (in_conversationId i) w; p ← cu_of n w; Some n) with
          | Some n => (inr tt, processObservation n id ob w)
          | None => (inl not_found, (resolve id cancelled w).2)
          end
      end
  end.
End proxies.
