(* ===== verification/InteractionRoutes.v ===== *)
(** * Answers to pending interactions

    The routes on which users answer (runtime/routes/approval-routes.ts,
    question-routes.ts), the other ways a confirmation is answered
    (daemon/handlers/conversations.ts, runtime/channel-approvals.ts,
    approvals/guardian-request-resolvers.ts, runtime/routes/guardian-expiry-sweep.ts), what
    a timer and an abort do, and the system of all of it: prompters, proxies, routes,
    timers, signals and conversations in any order. *)
From S2P Require Import Prelude JsText RuntimeTypes RiskTypes Surroundings CheckerTypes StreamState EventHub HubProps Interactions Prompters HostProxies.

Section routes.
Context (iso : Z → string) (uuid : nat → string).

(** ** Confirmations *)

Definition canonicalizeConfirmDecision (decision : option string) : option UserDecision :=
  d ← decision; if eqs d "allow" then Some user_allow else if eqs d "deny" then Some user_deny else None.

(** [POST /v1/confirm] *)
Definition handleConfirm (requestId decision selectedPattern selectedScope : option string) (w : World) : (RouteError + unit) * World :=
  match requestId with
  | None => (inl bad_request, w)
  | Some id =>
      if negb (truthy id) then (inl bad_request, w)
      else
        match get id w with
        | None => (inl not_found, w)
        | Some i =>
            match canonicalizeConfirmDecision decision with
            | None => (inl bad_request, w)
            | Some d =>
                if in_directResolve i then (inr tt, directResolve id d (resolve id (answer_state d) w).2)
                else
                  match findConversation (in_conversationId i) w with
                  | None => (inl not_found, w)
                  | Some n => (inr tt, handleConfirmationResponse n id d (mkAnswer selectedPattern selectedScope None) src_button w)
                  end
            end
        end
  end.

(** The daemon's handler finds the conversation that asked. *)
Definition daemon_confirmation (id : string) (decision : UserDecision) (selectedPattern selectedScope : option string) (w : World) : World :=
  match js_find (λ c, owns_confirmation c.2 id w) (wd_registry w) with
  | Some (_, n) => handleConfirmationResponse n id decision (mkAnswer selectedPattern selectedScope None) src_button w
  | None => w
  end.

Inductive ApprovalAction := approve_once | reject.
Definition mapApprovalActionToUserDecision (a : ApprovalAction) : UserDecision := match a with reject => user_deny | approve_once => user_allow end.

Definition getApprovalInfoByConversation (conversationId : string) (w : World) : jsmap string PendingInteraction :=
  js_filter (λ e, bool_decide (in_kind e.2 = kind_confirmation) && negb (is_null (in_confirmationDetails e.2))) (getByConversation conversationId w).

(** [handleChannelDecision]; returns the request it was applied to. *)
Definition handleChannelDecision (conversationId : string) (requestId : option string) (action : ApprovalAction)
    (decisionContext : option string) (w : World) : option string * World :=
  let pending := getApprovalInfoByConversation conversationId w in
  let info := match not_empty requestId with
              | Some id => js_find (λ e, eqs e.1 id) pending
              | None => head pending
              end in
  match info with
  | None => (None, w)
  | Some (id, i) =>
      match findConversation (in_conversationId i) w with
      | None => (None, w)
      | Some n => (Some id, handleConfirmationResponse n id (mapApprovalActionToUserDecision action) (mkAnswer None None decisionContext) src_button w)
      end
  end.
(** An approval asked of a guardian has expired. *)
Definition expire_approval (conversationId : string) (w : World) : World := (handleChannelDecision conversationId None reject None w).2.

Inductive ResolverFailure := missing_conversation | pending_interaction_not_found | conversation_not_found.
(** The resolver of [tool_approval] requests. *)
Definition resolve_tool_approval (id : string) (conversationId : option string) (action : ApprovalAction) (source : option AnswerSource)
    (w : World) : (ResolverFailure + unit) * World :=
  if is_null (not_empty conversationId) then (inl missing_conversation, w)
  else
    match get id w with
    | None => (inl pending_interaction_not_found, w)
    | Some i =>
        let d := mapApprovalActionToUserDecision action in
        if in_directResolve i then (inr tt, directResolve id d (resolve id (answer_state d) w).2)
        else
          match findConversation (in_conversationId i) w with
          | None => (inl conversation_not_found, w)
          | Some n => (inr tt, handleConfirmationResponse n id d no_options (default src_button source) w)
          end
    end.

(** ** Secrets *)

Definition parse_delivery (delivery : option string) : RouteError + option SecretDelivery :=
  match delivery with
  | None => inr None
  | Some d => if eqs d "store" then inr (Some store) else if eqs d "transient_send" then inr (Some transient_send) else inl bad_request
  end.

(** [POST /v1/secret] *)
Definition handleSecret (requestId value delivery : option string) (w : World) : (RouteError + unit) * World :=
  match requestId with
  | None => (inl bad_request, w)
  | Some id =>
      if negb (truthy id) then (inl bad_request, w)
      else
        match parse_delivery delivery with
        | inl e => (inl e, w)
        | inr d =>
            match get id w with
            | None => (inl not_found, w)
            | Some i =>
                if negb (bool_decide (in_kind i = kind_secret)) then (inl not_found, w)
                else
                  match (n ← findConversation (in_conversationId i) w; if owns_secret n id w then Some n else None) with
                  | Some n => (inr tt, resolveSecret n id value d w)
                  | None =>
                      let '(resolved, w') := resolve id (secret_answer_state value) w in
                      (inr tt, rpcResolve id resolved (secret_result value (default store d)) w')
                  end
            end
        end
  end.

(** ** Questions *)

(** The bodies that pass the schema. *)
Inductive QuestionBody :=
  | body_submit (responses : list Submission)
  | body_close
  | body_option (optionId : string)
  | body_free_text (text : string).

Definition readBatchMetadata (i : PendingInteraction) : list string * jsmap string (list string) :=
  match in_metadata i with batch_metadata orderedIds optionsById => (orderedIds, optionsById) | _ => ([], []) end.

Definition buildSubmissions (body : QuestionBody) (i : PendingInteraction) : BatchError + list Submission :=
  let legacy (f : string → Submission) :=
    match (readBatchMetadata i).1 with
    | [] => inl legacy_empty
    | [questionId] => inr [f questionId]
    | _ => inl legacy_many
    end in
  match body with
  | body_submit responses => inr responses
  | body_close => inr []
  | body_option o => legacy (λ q, submit_option q o)
  | body_free_text t => legacy (λ q, submit_free_text q t)
  end.
Definition known_option (optionsById : jsmap string (list string)) (q o : string) : bool :=
  match jget q optionsById with Some options => bool_decide (o ∈ options) | None => false end.
Definition buildCompletedResult (submissions : list Submission) (i : PendingInteraction) : BatchError + Outcome :=
  let '(orderedIds, optionsById) := readBatchMetadata i in
  match orderedIds with
  | [] => inl no_registered_questions
  | _ :: _ =>
      match buildBatchEntries orderedIds (known_option optionsById) (jkeys optionsById) submissions with
      | inl e => inl e
      | inr entries => inr (batch_result entries completed)
      end
  end.
Definition question_result (body : QuestionBody) (i : PendingInteraction) : BatchError + Outcome :=
  match body with
  | body_close => inr (batch_of skipped closed (readBatchMetadata i).1)
  | _ => match buildSubmissions body i with inl e => inl e | inr submissions => buildCompletedResult submissions i end
  end.

(** [POST /v1/question-response] *)
Definition handleQuestionResponse (id : string) (body : QuestionBody) (w : World) : (RouteError + unit) * World :=
  match get id w with
  | None => (inl not_found, w)
  | Some i =>
      if negb (bool_decide (in_kind i = kind_question)) then (inl not_found, w)
      else
        match question_result body i with
        | inl _ => (inl bad_request, w)
        | inr result =>
            let state := match body with body_close => cancelled | _ => answered end in
            (inr tt, rpcResolve id (Some i) result (resolve id state w).2)
        end
  end.

(** ** Timers and signals *)

Definition on_timeout (id : string) (owner : Owner) (w : World) : World :=
  match owner with
  | by_prompter n toolName toolUseId => confirmation_timeout n id toolName toolUseId w
  | by_secret_prompter n => secret_timeout n id w
  | by_question_prompter orderedIds => finish id cancelled (batch_of entry_timed_out batch_timed_out orderedIds) w
  | by_standalone_secret => standalone_timeout id w
  | by_route => finish id cancelled (route_decision user_deny) w
  | by_bash_proxy _ _ => bash_timeout id w
  | by_file_proxy _ target => file_timeout id target w
  | by_cu_proxy n _ _ => cu_timeout n id w
  end.
Definition fire (id : string) (w : World) : World :=
  if bool_decide (id ∈ wd_timers w) then
    match wd_owners w !! id with Some owner => on_timeout id owner (clearTimer id w) | None => w end
  else w.

Definition on_abort (id : string) (owner : Owner) (w : World) : World :=
  match owner with
  | by_prompter n _ _ => confirmation_abort n id w
  | by_question_prompter orderedIds => finish id cancelled (batch_of entry_aborted batch_aborted orderedIds) w
  | by_route => finish id cancelled (route_decision user_deny) w
  | by_bash_proxy _ target => bash_abort id target w
  | by_file_proxy _ target => file_abort id target w
  | by_cu_proxy n _ target => cu_abort n id target w
  | by_secret_prompter _ | by_standalone_secret => w
  end.
(** A listener that is removed before its turn does not run. *)
Definition abort_one (s : nat) (w : World) (id : string) : World :=
  if bool_decide ((s, id) ∈ wd_listeners w) then
    match wd_owners w !! id with
    | Some owner => on_abort id owner (unlisten id w)
    | None => w
    end
  else w.
Definition abort_signal (s : nat) (w : World) : World :=
  if bool_decide (s ∈ wd_aborted w) then w
  else foldl (abort_one s) (mark_aborted s w) ((List.filter (λ l, Nat.eqb l.1 s) (wd_listeners w)).*2).

(** [abortConversation] while a turn is under way: its signal, then both prompters. *)
Definition abortConversation (n s : nat) (w : World) : World := dispose_secret_prompter n (dispose_prompter n (abort_signal s w)).

(** ** The system *)

Inductive Step :=
  | new_conversation (n : nat) (conversationId : string) (sender : Sender)
  | forget_conversation (conversationId : string)
  | update_client (n : nat) (sender : Sender)
  | ask_confirmation (n : nat) (toolName : string) (input : list (string * json)) (riskLevel : string)
      (allowlistOptions : list AllowlistOption) (scopeOptions : list DirectoryScopeOption) (conversationId executionTarget : option string)
      (persistentDecisionsAllowed : option bool) (signal : option nat) (toolUseId : option string)
      (directoryScopeOptions : option (list DirectoryScopeOption))
  | ask_secret (n : nat) (conversationId : option string)
  | ask_secret_standalone (conversationId : option string)
  | ask_questions (conversationId : string) (questions : list (list string)) (toolUseId : option string) (signal : option nat)
  | ask_route (toolName : string) (input : list (string * json)) (conversationId : string) (signal : option nat)
  | ask_bash (targetClientId : option string) (conversationId : string) (signal : option nat) (sourceActorPrincipalId : option string)
  | ask_file (operation path : string) (targetClientId : option string) (conversationId : string) (signal : option nat)
      (sourceActorPrincipalId : option string)
  | ask_cu (n : nat) (toolName : string) (input : list (string * json)) (reasoning targetClientId : option string) (conversationId : string)
      (signal : option nat) (sourceActorPrincipalId : option string)
  | set_cu_proxy (n : nat) (maxSteps : option Z)
  | reset_cu (n : nat)
  | route_confirm (requestId decision selectedPattern selectedScope : option string)
  | daemon_confirm (id : string) (decision : UserDecision) (selectedPattern selectedScope : option string)
  | channel_decision (conversationId : string) (requestId : option string) (action : ApprovalAction) (decisionContext : option string)
  | approval_expired (conversationId : string)
  | guardian_decision (id : string) (conversationId : option string) (action : ApprovalAction) (source : option AnswerSource)
  | voice_grant (n : nat) (id toolName : string) (consumed : bool)
  | route_secret (requestId value delivery : option string)
  | route_question (id : string) (body : QuestionBody)
  | route_bash (requestId : option string) (s : Submitter) (r : BashResponse)
  | route_file (requestId : option string) (s : Submitter) (r : FileResponse)
  | route_cu (requestId : option string) (s : Submitter) (ob : CuObservation)
  | message_arrives (n : nat) (conversationId : string)
  | steer (n : nat)
  | abort_turn (n s : nat)
  | abort_event (s : nat)
  | timer_fires (id : string)
  | dispose_bash
  | dispose_file
  | clients_change (c : HubCall).

Definition step (c : Step) (w : World) : World :=
  match c with
  | new_conversation n conversationId sender =>
      match wd_objects w !! n with
      | Some _ => w
      | None => set_registry (jset conversationId n (wd_registry w))
                  (set_objects (<[n := mkConversation conversationId sender [] [] None]> (wd_objects w)) w)
      end
  | forget_conversation conversationId => set_registry (jdel conversationId (wd_registry w)) w
  | update_client n sender => alter_object n (set_sender sender) w
  | ask_confirmation n toolName input riskLevel allow scopes conversationId target persistent signal toolUseId directories =>
      if is_null (wd_objects w !! n) then w
      else (prompt uuid n toolName input riskLevel allow scopes conversationId target persistent signal toolUseId directories w).2
  | ask_secret n conversationId => if is_null (wd_objects w !! n) then w else (prompt_secret uuid n conversationId w).2
  | ask_secret_standalone conversationId => (requestSecretStandalone uuid conversationId w).2
  | ask_questions conversationId questions toolUseId signal => (prompt_questions uuid conversationId questions toolUseId signal w).2
  | ask_route toolName input conversationId signal => (awaitRouteApproval uuid toolName input conversationId signal w).2
  | ask_bash target conversationId signal source => (bash_request uuid target conversationId signal source w).2
  | ask_file operation path target conversationId signal source => (file_request uuid operation path target conversationId signal source w).2
  | ask_cu n toolName input reasoning target conversationId signal source =>
      (cu_tool uuid n toolName input reasoning target conversationId signal source w).2
  | set_cu_proxy n maxSteps => setHostCuProxy n (new_cu <$> maxSteps) w
  | reset_cu n => alter_cu n reset w
  | route_confirm requestId decision pattern scope => (handleConfirm requestId decision pattern scope w).2
  | daemon_confirm id decision pattern scope => daemon_confirmation id decision pattern scope w
  | channel_decision conversationId requestId action context => (handleChannelDecision conversationId requestId action context w).2
  | approval_expired conversationId => expire_approval conversationId w
  | guardian_decision id conversationId action source => (resolve_tool_approval id conversationId action source w).2
  | voice_grant n id toolName consumed => voice_grant_answered n id toolName consumed w
  | route_secret requestId value delivery => (handleSecret requestId value delivery w).2
  | route_question id body => (handleQuestionResponse id body w).2
  | route_bash requestId s r => (handleHostBashResult requestId s r w).2
  | route_file requestId s r => (handleHostFileResult requestId s r w).2
  | route_cu requestId s ob => (handleHostCuResult requestId s ob w).2
  | message_arrives n conversationId => auto_deny n conversationId w
  | steer n => denyAllPending n w
  | abort_turn n s => abortConversation n s w
  | abort_event s => abort_signal s w
  | timer_fires id => fire id w
  | dispose_bash => bash_dispose w
  | dispose_file => file_dispose w
  | clients_change c => set_hub (hub_step iso c (wd_hub w)) w
  end.
Definition run (steps : list Step) (w : World) : World := foldl (λ w c, step c w) w steps.
End routes.
