(* ===== verification/InteractionProps.v ===== *)
(** * What becomes of a request

    First the promise, timer, entry and announcements of a single request ([View]), what
    each operation does to them, and that an operation on one request leaves every other
    request as it was.  Then the invariant: along every run a request is either open, with
    an entry and an armed timer, or settled, or dropped by a known path; and clients are
    told once.  Last, that each step of the system of InteractionRoutes.v preserves the
    invariant: requests to the user's machines, answers on the routes, timers, signals,
    conversations and clients that come and go. *)
From S2P Require Import Prelude JsText RuntimeTypes RiskTypes Surroundings CheckerTypes StreamState EventHub HubProps Interactions Prompters HostProxies InteractionRoutes.

(** ** Views *)

Record View := mkView {
  v_entry : option PendingInteraction;
  v_timer : bool;
  v_outcome : option Outcome;
  v_finished : bool;
  v_told : list (InteractionKind * InteractionResolutionState);
  v_bash : bool;
}.
Definition empty_view : View := mkView None false None false [] false.

(** The notices (interaction_resolved) that clients got of a request being over. *)
Definition told_of (id : string) (e : Event) : option (InteractionKind * InteractionResolutionState) :=
  match e with ev_resolved id' _ k st => if eqs id' id then Some (k, st) else None | _ => None end.
Definition told (id : string) (w : World) : list (InteractionKind * InteractionResolutionState) := omap (told_of id) (wd_events w).
Definition view (w : World) (id : string) : View :=
  mkView (get id w) (bool_decide (id ∈ wd_timers w)) (wd_outcomes w !! id) (bool_decide (id ∈ wd_finished w)) (told id w)
    (jhas id (wd_bash w)).

Definition vresolve (st : InteractionResolutionState) (v : View) : View :=
  match v_entry v with
  | None => v
  | Some i => mkView None (if in_timer i then false else v_timer v) (v_outcome v) (v_finished v)
                (v_told v ++ match in_conversationId i with Some _ => [(in_kind i, st)] | None => [] end) (v_bash v)
  end.
Definition vsettle (o : Outcome) (v : View) : View :=
  mkView (v_entry v) (v_timer v) (match v_outcome v with Some o' => Some o' | None => Some o end) (v_finished v) (v_told v) (v_bash v).
Definition vclear (v : View) : View := mkView (v_entry v) false (v_outcome v) (v_finished v) (v_told v) (v_bash v).
Definition vmark (v : View) : View := mkView (v_entry v) (v_timer v) (v_outcome v) true (v_told v) (v_bash v).
Definition vforget (v : View) : View := mkView (v_entry v) (v_timer v) (v_outcome v) (v_finished v) (v_told v) false.
Definition vfinish (st : InteractionResolutionState) (o : Outcome) (v : View) : View :=
  if v_finished v then v else vsettle o (vresolve st (vclear (vmark v))).
Definition vrpc (owner : option Owner) (o : Outcome) (v : View) : View :=
  match owner with Some (by_question_prompter _) => vfinish cancelled o v | _ => vsettle o v end.
(** An entry is taken and its promise is settled with what its callback is given. *)
Definition vanswer (owner : option Owner) (st : InteractionResolutionState) (o : Outcome) (v : View) : View :=
  match v_entry v with
  | Some i => if in_rpcResolve i then vrpc owner o (vresolve st v) else vresolve st v
  | None => v
  end.
Definition vreject (owner : option Owner) (st : InteractionResolutionState) (o : Outcome) (v : View) : View :=
  match v_entry v with
  | Some i => if in_rpcReject i then vrpc owner o (vresolve st v) else vresolve st v
  | None => v
  end.

(** ** What an operation leaves alone *)

Definition cu_owned (cv : Conversation) : list string := match cv_hostCuProxy cv with Some p => cu_ownedRequests p | None => [] end.
(** The same objects, that own no more. *)
Definition objects_shrink (w w' : World) : Prop :=
  ∀ n cv', wd_objects w' !! n = Some cv' → ∃ cv, wd_objects w !! n = Some cv ∧ cv_sender cv' = cv_sender cv
    ∧ cv_confirmations cv' ⊆ cv_confirmations cv ∧ cv_secrets cv' ⊆ cv_secrets cv ∧ cu_owned cv' ⊆ cu_owned cv.
Record shrinks (w w' : World) : Prop := {
  sh_drawn : wd_drawn w' = wd_drawn w;
  sh_hub : wd_hub w' = wd_hub w;
  sh_owners : wd_owners w' = wd_owners w;
  sh_pending : ∀ e, e ∈ wd_pending w' → e ∈ wd_pending w;
  sh_objects : objects_shrink w w';
  sh_bash : ∀ id, jhas id (wd_bash w') = true → jhas id (wd_bash w) = true;
}.
(** Nothing but request [id] changes, which changes by [f]. *)
Definition acts (id : string) (f : View → View) (w w' : World) : Prop :=
  shrinks w w' ∧ ∀ x, view w' x = if decide (x = id) then f (view w x) else view w x.

Lemma same_objects w w' : wd_objects w' = wd_objects w → objects_shrink w w'.
Proof. intros E n cv H. rewrite E in H. by exists cv. Qed.
Lemma shrinks_refl w : shrinks w w.
Proof. split; try done. by apply same_objects. Qed.
Lemma shrinks_trans w1 w2 w3 : shrinks w1 w2 → shrinks w2 w3 → shrinks w1 w3.
Proof.
  intros [A1 H1 B1 C1 D1 E1] [A2 H2 B2 C2 D2 E2]. split; try congruence; auto.
  intros n cv3 L3. destruct (D2 n cv3 L3) as (cv2 & L2 & -> & ? & ? & ?). destruct (D1 n cv2 L2) as (cv1 & L1 & -> & ? & ? & ?).
  exists cv1. split_and!; [done|done|by etrans..].
Qed.
#[export] Instance shrinks_preorder : PreOrder shrinks.
Proof. split; [exact shrinks_refl|exact shrinks_trans]. Qed.

Lemma acts_refl id w : acts id (λ v, v) w w.
Proof. split; [reflexivity|]. intros x. by case_decide. Qed.
Lemma acts_trans id f g w1 w2 w3 : acts id f w1 w2 → acts id g w2 w3 → acts id (λ v, g (f v)) w1 w3.
Proof. intros [A1 B1] [A2 B2]. split; [by etrans|]. intros x. rewrite B2, B1. by case_decide. Qed.
Lemma acts_ext id f g w w' : acts id f w w' → f (view w id) = g (view w id) → acts id g w w'.
Proof. intros [A B] H. split; [done|]. intros x. rewrite B. case_decide; [by subst|done]. Qed.

(** Operations that no request notices. *)
Definition quiet (w w' : World) : Prop := shrinks w w' ∧ ∀ x, view w' x = view w x.
Lemma quiet_acts id w w' : quiet w w' → acts id (λ v, v) w w'.
Proof. intros [A B]. split; [done|]. intros x. rewrite B. by case_decide. Qed.
Lemma quiet_trans w1 w2 w3 : quiet w1 w2 → quiet w2 w3 → quiet w1 w3.
Proof. intros [A1 B1] [A2 B2]. split; [by etrans|]. intros x. by rewrite B2, B1. Qed.
Lemma acts_quiet id f w1 w2 w3 : acts id f w1 w2 → quiet w2 w3 → acts id f w1 w3.
Proof. intros H1 H2%(quiet_acts id). eapply acts_ext; [exact (acts_trans _ _ _ _ _ _ H1 H2)|done]. Qed.
Lemma quiet_then id f w1 w2 w3 : quiet w1 w2 → acts id f w2 w3 → acts id f w1 w3.
Proof. intros H1%(quiet_acts id) H2. eapply acts_ext; [exact (acts_trans _ _ _ _ _ _ H1 H2)|done]. Qed.

Lemma quiet_refl w : quiet w w.
Proof. split; [reflexivity|done]. Qed.
Lemma unlisten_quiet id w : quiet w (unlisten id w).
Proof. split; [|done]. split; cbn; try done. by apply same_objects. Qed.
Lemma mark_aborted_quiet s w : quiet w (mark_aborted s w).
Proof. split; [|done]. split; cbn; try done. by apply same_objects. Qed.
Lemma set_registry_quiet x w : quiet w (set_registry x w).
Proof. split; [|done]. split; cbn; try done. by apply same_objects. Qed.
Lemma listen_quiet signal id w : quiet w (listen signal id w).
Proof. destruct signal as [s|]; [|apply quiet_refl]. split; [|done]. split; cbn; try done. by apply same_objects. Qed.
Lemma set_grants_quiet x w : quiet w (set_grants x w).
Proof. split; [|done]. split; cbn; try done. by apply same_objects. Qed.
Lemma tell_quiet e w : (∀ id, told_of id e = None) → quiet w (tell e w).
Proof.
  intros H. split; [split; cbn; try done; by apply same_objects|]. intros x. unfold view, told. cbn. rewrite omap_app. cbn.
  by rewrite H, app_nil_r.
Qed.
Lemma alter_object_quiet n f w :
  (∀ cv, cv_sender (f cv) = cv_sender cv ∧ cv_confirmations (f cv) ⊆ cv_confirmations cv ∧ cv_secrets (f cv) ⊆ cv_secrets cv
     ∧ cu_owned (f cv) ⊆ cu_owned cv) → quiet w (alter_object n f w).
Proof.
  intros Hf. split; [|done]. split; cbn; try done. intros m cv'. cbn. destruct (decide (m = n)) as [->|Hne].
  - rewrite lookup_alter_eq. intros (cv & Hcv & ->)%fmap_Some. exists cv. split; [done|]. apply Hf.
  - rewrite lookup_alter_ne by done. intros H. by exists cv'.
Qed.

Lemma without_sub id l : without id l ⊆ l.
Proof. intros x [? _]%elem_of_delete_where. done. Qed.
Lemma disown_confirmation_quiet n id w : quiet w (disown_confirmation n id w).
Proof. apply alter_object_quiet. intros cv. split_and!; try done. apply without_sub. Qed.
Lemma disown_secret_quiet n id w : quiet w (disown_secret n id w).
Proof. apply alter_object_quiet. intros cv. split_and!; try done. apply without_sub. Qed.
Lemma alter_cu_quiet n f w : (∀ p, cu_ownedRequests (f p) ⊆ cu_ownedRequests p) → quiet w (alter_cu n f w).
Proof.
  intros Hf. apply alter_object_quiet. intros cv. split_and!; try done. unfold cu_owned. cbn. destruct (cv_hostCuProxy cv) as [p|]; [apply Hf|done].
Qed.
Lemma cu_disown_quiet n id w : quiet w (cu_disown n id w).
Proof. apply alter_cu_quiet. intros p. apply without_sub. Qed.
Lemma emit_state_quiet n id st src t w : quiet w (emit_state n id st src t w).
Proof.
  unfold emit_state. destruct (_ !! n) as [cv|]; [|apply quiet_refl]. destruct (cv_sender cv); try apply quiet_refl; by apply tell_quiet.
Qed.
Create HintDb quiet.
#[export] Hint Resolve quiet_refl unlisten_quiet mark_aborted_quiet set_registry_quiet listen_quiet set_grants_quiet
  disown_confirmation_quiet disown_secret_quiet cu_disown_quiet emit_state_quiet : quiet.
#[export] Hint Extern 2 (quiet _ (tell _ _)) => (apply tell_quiet; done) : quiet.

(** ** What changes one request *)

Lemma get_jdel {V} id x (m : jsmap string V) : jget x (jdel id m) = if decide (x = id) then None else jget x m.
Proof. rewrite jget_jdel. destruct (decide (id = x)), (decide (x = id)); congruence. Qed.
Lemma jhas_jdel id x (m : jsmap string (string * option string)) : jhas x (jdel id m) = if decide (x = id) then false else jhas x m.
Proof. unfold jhas. rewrite jget_jdel. destruct (decide (id = x)), (decide (x = id)); congruence. Qed.
Lemma jdel_elem {V} id (m : jsmap string V) e : e ∈ jdel id m → e ∈ m.
Proof.
  induction m as [|[k v] m IH]; [done|]. cbn. case_decide; [intros ?; right; by apply IH|].
  intros [->|?]%elem_of_cons; [by left|right; by apply IH].
Qed.

Lemma resolve_acts id st w : acts id (vresolve st) w (resolve id st w).2.
Proof.
  unfold resolve. destruct (jget id (wd_pending w)) as [i|] eqn:E.
  - set (w1 := set_pending _ w). set (w2 := if in_timer i then _ else _). set (w3 := if in_detachAbort i then _ else _). cbn.
    assert (H3 : ∀ x, view w3 x = view w2 x) by (intros x; unfold w3; by destruct (in_detachAbort i)).
    assert (Hs : shrinks w w3).
    { trans w2; [|unfold w3; destruct (in_detachAbort i); [apply unlisten_quiet|reflexivity]].
      unfold w2, w1. destruct (in_timer i); (split; cbn; try done; [intros e; apply jdel_elem|by apply same_objects]). }
    assert (Hv : ∀ x, view w2 x = if decide (x = id) then mkView None (if in_timer i then false else v_timer (view w x)) (v_outcome (view w x))
      (v_finished (view w x)) (v_told (view w x)) (v_bash (view w x)) else view w x).
    { intros x. unfold w2, view, get, told. destruct (in_timer i); cbn; rewrite get_jdel;
        case_decide; f_equal; first [done|apply bool_decide_eq_false; set_solver|apply bool_decide_ext; set_solver]. }
    split.
    + trans w3; [done|]. unfold emitResolved. destruct (in_conversationId i); [|reflexivity]. split; cbn; try done. by apply same_objects.
    + assert (Hent : v_entry (view w id) = Some i) by exact E.
      assert (Hfin : ∀ x, view (emitResolved id i st w3) x = if decide (x = id) then mkView (v_entry (view w3 x)) (v_timer (view w3 x))
        (v_outcome (view w3 x)) (v_finished (view w3 x)) (v_told (view w3 x) ++ match in_conversationId i with Some _ => [(in_kind i, st)] | None => [] end)
        (v_bash (view w3 x)) else view w3 x).
      { intros x. unfold emitResolved. destruct (in_conversationId i) as [c|].
        - unfold view, told. cbn. rewrite omap_app. cbn. unfold eqs. case_decide as Hx; [subst x; rewrite (bool_decide_true (id = id)) by done; reflexivity|].
          rewrite (bool_decide_false (id = x)) by congruence. by rewrite app_nil_r.
        - case_decide; [|done]. rewrite app_nil_r. by destruct (view w3 x). }
      intros x. rewrite Hfin, H3, Hv. case_decide as Hx; [|done]. subst x. unfold vresolve. by rewrite Hent.
  - split; [reflexivity|]. intros x. cbn. case_decide as Hx; [|done]. subst x. unfold vresolve, view, v_entry, get. by rewrite E.
Qed.
Lemma resolve_entry id st w : (resolve id st w).1 = v_entry (view w id).
Proof. unfold resolve, view, v_entry, get. by destruct (jget id (wd_pending w)). Qed.

Lemma settle_acts id o w : acts id (vsettle o) w (settle id o w).
Proof.
  unfold settle. destruct (wd_outcomes w !! id) as [o'|] eqn:E; (split; [|intros x]).
  - reflexivity.
  - case_decide as Hx; [|done]. subst x. unfold vsettle, view. cbn. by rewrite E.
  - split; cbn; try done. by apply same_objects.
  - unfold vsettle, view, told. cbn. case_decide as Hx; [subst x; by rewrite lookup_insert_eq, E|]. by rewrite lookup_insert_ne.
Qed.
Lemma clearTimer_acts id w : acts id vclear w (clearTimer id w).
Proof.
  split; [split; cbn; try done; by apply same_objects|]. intros x. unfold vclear, view, told. cbn. case_decide; f_equal.
  - apply bool_decide_eq_false. set_solver.
  - apply bool_decide_ext. set_solver.
Qed.
Lemma mark_finished_acts id w : acts id vmark w (mark_finished id w).
Proof.
  split; [split; cbn; try done; by apply same_objects|]. intros x. unfold vmark, view, told. cbn. case_decide; f_equal.
  - apply bool_decide_eq_true. set_solver.
  - apply bool_decide_ext. set_solver.
Qed.
Lemma bash_forget_acts id w : acts id vforget w (bash_forget id w).
Proof.
  split; [split; cbn; try done; [by apply same_objects|]; intros x; rewrite jhas_jdel; by case_decide|].
  intros x. unfold vforget, view, told. cbn. rewrite jhas_jdel. by case_decide.
Qed.
Lemma finish_acts id st o w : acts id (vfinish st o) w (finish id st o w).
Proof.
  unfold finish. destruct (bool_decide (id ∈ wd_finished w)) eqn:E.
  - eapply acts_ext; [apply acts_refl|]. unfold vfinish, view, v_finished. by rewrite E.
  - eapply acts_ext; [eapply acts_trans; [|apply settle_acts]; eapply acts_trans; [|apply resolve_acts];
      eapply acts_quiet; [|apply unlisten_quiet]; eapply acts_trans; [apply mark_finished_acts|apply clearTimer_acts]|].
    unfold vfinish, view, v_finished. by rewrite E.
Qed.
Lemma rpc_settle_acts id o w : acts id (vrpc (wd_owners w !! id) o) w (rpc_settle id o w).
Proof. unfold rpc_settle, vrpc. destruct (wd_owners w !! id) as [[]|]; first [apply settle_acts|apply finish_acts]. Qed.

Lemma quiet_owners w w' : quiet w w' → wd_owners w' = wd_owners w.
Proof. intros [[] _]. done. Qed.
Lemma acts_owners id f w w' : acts id f w w' → wd_owners w' = wd_owners w.
Proof. intros [[] _]. done. Qed.

(** Taking an entry, then something quiet, then its callback. *)
Lemma answer_acts id st o w w1 : quiet (resolve id st w).2 w1 →
  acts id (vanswer (wd_owners w !! id) st o) w (rpcResolve id (resolve id st w).1 o w1).
Proof.
  intros Hq. pose proof (acts_quiet _ _ _ _ _ (resolve_acts id st w) Hq) as H1. pose proof (acts_owners _ _ _ _ H1) as Ho. rewrite resolve_entry.
  unfold rpcResolve. destruct (v_entry (view w id)) as [i|] eqn:E; [|eapply acts_ext; [exact H1|unfold vanswer, vresolve; by rewrite E]].
  destruct (in_rpcResolve i) eqn:Ei; [|eapply acts_ext; [exact H1|unfold vanswer; by rewrite E, Ei]].
  rewrite <- Ho. eapply acts_ext; [exact (acts_trans _ _ _ _ _ _ H1 (rpc_settle_acts id o w1))|]. unfold vanswer. by rewrite E, Ei.
Qed.
Lemma answer_let id st o w (h : World → World) : (∀ w1, quiet w1 (h w1)) →
  acts id (vanswer (wd_owners w !! id) st o) w (let '(i, w1) := resolve id st w in rpcResolve id i o (h w1)).
Proof. intros Hq. pose proof (answer_acts id st o w _ (Hq (resolve id st w).2)) as H. by destruct (resolve id st w) as [i w1]. Qed.
Lemma reject_acts id st o w w1 : quiet (resolve id st w).2 w1 →
  acts id (vreject (wd_owners w !! id) st o) w (rpcReject id (resolve id st w).1 o w1).
Proof.
  intros Hq. pose proof (acts_quiet _ _ _ _ _ (resolve_acts id st w) Hq) as H1. pose proof (acts_owners _ _ _ _ H1) as Ho. rewrite resolve_entry.
  unfold rpcReject. destruct (v_entry (view w id)) as [i|] eqn:E; [|eapply acts_ext; [exact H1|unfold vreject, vresolve; by rewrite E]].
  destruct (in_rpcReject i) eqn:Ei; [|eapply acts_ext; [exact H1|unfold vreject; by rewrite E, Ei]].
  rewrite <- Ho. eapply acts_ext; [exact (acts_trans _ _ _ _ _ _ H1 (rpc_settle_acts id o w1))|]. unfold vreject. by rewrite E, Ei.
Qed.
Lemma reject_let id st o w (h : World → World) : (∀ w1, quiet w1 (h w1)) →
  acts id (vreject (wd_owners w !! id) st o) w (let '(i, w1) := resolve id st w in rpcReject id i o (h w1)).
Proof. intros Hq. pose proof (reject_acts id st o w _ (Hq (resolve id st w).2)) as H. by destruct (resolve id st w) as [i w1]. Qed.
Lemma take_settle_acts id st o w w1 : quiet (resolve id st w).2 w1 → acts id (λ v, vsettle o (vresolve st v)) w (settle id o w1).
Proof. intros Hq. eapply acts_trans; [exact (acts_quiet _ _ _ _ _ (resolve_acts id st w) Hq)|apply settle_acts]. Qed.

(** ** The status of a request *)

Definition allows (o : Outcome) : bool :=
  match o with
  | confirmed r _ _ => bool_decide (cf_decision r = user_allow)
  | route_decision d => bool_decide (d = user_allow)
  | _ => false
  end.

Definition kind_of (owner : Owner) : InteractionKind :=
  match owner with
  | by_prompter _ _ _ | by_route => kind_confirmation
  | by_secret_prompter _ | by_standalone_secret => kind_secret
  | by_question_prompter _ => kind_question
  | by_bash_proxy _ _ => kind_host_bash
  | by_file_proxy _ _ => kind_host_file
  | by_cu_proxy _ _ _ => kind_host_cu
  end.
(** What the callbacks of an entry do. *)
Definition rpc_owner (owner : Owner) : bool := match owner with by_route | by_bash_proxy _ _ => false | _ => true end.
Definition reject_owner (owner : Owner) : bool := match owner with by_route | by_bash_proxy _ _ | by_standalone_secret => false | _ => true end.
Definition is_standalone (owner : Owner) : bool := match owner with by_standalone_secret => true | _ => false end.
Definition host_target (owner : Owner) : option (string * option string) :=
  match owner with by_bash_proxy c t | by_file_proxy c t | by_cu_proxy _ c t => Some (c, t) | _ => None end.

Record entry_ok (owner : Owner) (i : PendingInteraction) : Prop := {
  eo_kind : in_kind i = kind_of owner;
  eo_rpc : in_rpcResolve i = rpc_owner owner;
  eo_reject : in_rpcReject i = reject_owner owner;
  eo_direct : in_directResolve i = match owner with by_route => true | _ => false end;
  eo_conversation : is_standalone owner = false → is_Some (in_conversationId i);
  eo_target : match host_target owner with
              | Some (_, t) => in_targetClientId i = t ∧ (∀ id, t = Some id → truthy id = true ∧ is_Some (in_targetActorPrincipalId i))
              | None => in_targetClientId i = None
              end;
}.

(** How a request can be taken away without an answer. *)
Definition dropped (owner : Owner) (st : InteractionResolutionState) : Prop :=
  match owner with
  | by_prompter _ _ _ | by_question_prompter _ | by_route => st = superseded
  | by_cu_proxy _ _ _ => st = cancelled
  | _ => False
  end.

Definition is_bash (owner : Owner) : bool := match owner with by_bash_proxy _ _ => true | _ => false end.

Definition open_view (owner : Owner) (i : PendingInteraction) (v : View) : Prop :=
  entry_ok owner i ∧ v_told v = [].
Definition settled_view (owner : Owner) (o : Outcome) (v : View) : Prop :=
  (is_standalone owner = true ∧ v_told v = [] ∧ allows o = false)
  ∨ ∃ st, v_told v = [(kind_of owner, st)] ∧ (st = approved ↔ allows o = true).
Definition dropped_view (owner : Owner) (v : View) : Prop := ∃ st, v_told v = [(kind_of owner, st)] ∧ dropped owner st.
Definition gone_view (owner : Owner) (v : View) : Prop :=
  match v_outcome v with Some o => settled_view owner o v | None => dropped_view owner v end.

(** The timer, the mark and the proxy's map apart. *)
Definition status0 (owner : Owner) (v : View) : Prop :=
  match v_entry v with Some i => v_outcome v = None ∧ open_view owner i v | None => gone_view owner v end.
Definition status (owner : Owner) (v : View) : Prop :=
  status0 owner v ∧ match v_entry v with Some _ => v_timer v = true ∧ v_finished v = false ∧ (is_bash owner = true → v_bash v = true) | None => True end.

Lemma gone_status owner v : v_entry v = None → gone_view owner v → status owner v.
Proof. intros H. unfold status, status0. by rewrite H. Qed.

(** ** Operations and statuses *)

(** What clients are told when an entry is taken. *)
Definition announced (owner : Owner) (st : InteractionResolutionState) (l : list (InteractionKind * InteractionResolutionState)) : Prop :=
  l = [(kind_of owner, st)] ∨ is_standalone owner = true ∧ l = [].
Lemma vresolve_open owner i st v : v_entry v = Some i → open_view owner i v →
  v_entry (vresolve st v) = None ∧ v_outcome (vresolve st v) = v_outcome v ∧ v_finished (vresolve st v) = v_finished v
  ∧ announced owner st (v_told (vresolve st v)) ∧ v_bash (vresolve st v) = v_bash v.
Proof.
  intros He ([Hk _ _ _ Hc _] & Ht). unfold vresolve. rewrite He. cbn. rewrite Ht, Hk. split_and!; [done..| |done]. cbn. unfold announced.
  destruct (in_conversationId i); [by left|]. right. destruct (is_standalone owner); [done|]. by destruct (Hc eq_refl).
Qed.
Lemma vresolve_gone st v : v_entry v = None → vresolve st v = v.
Proof. intros H. unfold vresolve. by rewrite H. Qed.

(** A promise may be settled with [o] where clients are told [st]. *)
Definition fits (owner : Owner) (st : InteractionResolutionState) (o : Outcome) : Prop :=
  (st = approved ↔ allows o = true) ∧ (is_standalone owner = true → allows o = false).
Lemma fits_settled owner st o v : fits owner st o → announced owner st (v_told v) → settled_view owner o v.
Proof. intros [H1 H2] [E|[Hs E]]; [right; by exists st|left; auto]. Qed.

Lemma settle_gone owner o v : v_entry v = None → gone_view owner v → allows o = false → status owner (vsettle o v).
Proof.
  intros He Hg Ho. apply gone_status; [done|]. unfold gone_view, vsettle in *. cbn. destruct (v_outcome v) as [o'|]; [done|].
  destruct Hg as (st & Ht & Hd). right. cbn. exists st. split; [done|]. rewrite Ho. split; [|done]. intros ->. by destruct owner.
Qed.

(** An entry is taken, and the promise is settled whether there was one or not. *)
Lemma take_settle owner st o v : fits owner st o → allows o = false → status0 owner v → status owner (vsettle o (vresolve st v)).
Proof.
  intros Hf Ho Hs. unfold status0 in Hs. destruct (v_entry v) as [i|] eqn:He.
  - destruct Hs as [Hn Hop]. destruct (vresolve_open owner i st v He Hop) as (E1 & E2 & E3 & E4 & _).
    apply gone_status; [done|]. unfold gone_view, vsettle. cbn. rewrite E2, Hn. by eapply fits_settled.
  - rewrite vresolve_gone by done. by apply settle_gone.
Qed.

Lemma vfinish_ok owner st o v : fits owner st o → allows o = false → status0 owner v → (v_entry v ≠ None → v_finished v = false) →
  status owner (vfinish st o v).
Proof.
  intros Hf Ho Hs Hfin. unfold vfinish. destruct (v_finished v) eqn:Ef.
  - unfold status0 in Hs. destruct (v_entry v) eqn:He; [by specialize (Hfin ltac:(done))|]. by apply gone_status.
  - by apply take_settle.
Qed.

(** The entry was open: the promise may also be settled with a permission. *)
Lemma open_take_settle owner i st o v : v_entry v = Some i → fits owner st o → status0 owner v → status owner (vsettle o (vresolve st v)).
Proof.
  intros He Hf Hs. unfold status0 in Hs. rewrite He in Hs. destruct Hs as [Hn Hop].
  destruct (vresolve_open owner i st v He Hop) as (E1 & E2 & E3 & E4 & _). apply gone_status; [done|]. unfold gone_view, vsettle. cbn.
  rewrite E2, Hn. by eapply fits_settled.
Qed.
Lemma open_take_finish owner i st st' o v : v_entry v = Some i → v_finished v = false → fits owner st o → status0 owner v →
  status owner (vfinish st' o (vresolve st v)).
Proof.
  intros He Hfin Hf Hs. pose proof (open_take_settle owner i st o v He Hf Hs) as Hok. unfold status0 in Hs. rewrite He in Hs. destruct Hs as [Hn Hop].
  destruct (vresolve_open owner i st v He Hop) as (E1 & E2 & E3 & _ & _). unfold vfinish. rewrite E3, Hfin. rewrite vresolve_gone by done.
  destruct Hok as [Hok _]. unfold status0 in Hok. cbn in Hok. rewrite E1 in Hok. by apply gone_status.
Qed.

Lemma vanswer_ok owner st o v : rpc_owner owner = true → fits owner st o → status0 owner v → (v_entry v ≠ None → v_finished v = false) →
  status owner (vanswer (Some owner) st o v).
Proof.
  intros Hrpc Hf Hs Hfin. unfold vanswer. destruct (v_entry v) as [i|] eqn:He; [|apply gone_status; [done|]; unfold status0 in Hs; by rewrite He in Hs].
  pose proof Hs as Hs'. unfold status0 in Hs'. rewrite He in Hs'. destruct Hs' as [_ [[_ Hr _ _ _ _] _]]. rewrite Hr, Hrpc. unfold vrpc.
  destruct owner; try (by eapply open_take_settle). eapply open_take_finish; [done| |done..]. by apply Hfin.
Qed.
Lemma vreject_ok owner st o v : reject_owner owner = true → fits owner st o → status0 owner v → (v_entry v ≠ None → v_finished v = false) →
  status owner (vreject (Some owner) st o v).
Proof.
  intros Hrpc Hf Hs Hfin. unfold vreject. destruct (v_entry v) as [i|] eqn:He; [|apply gone_status; [done|]; unfold status0 in Hs; by rewrite He in Hs].
  pose proof Hs as Hs'. unfold status0 in Hs'. rewrite He in Hs'. destruct Hs' as [_ [[_ _ Hr _ _ _] _]]. rewrite Hr, Hrpc. unfold vrpc.
  destruct owner; try (by eapply open_take_settle). eapply open_take_finish; [done| |done..]. by apply Hfin.
Qed.

(** An entry is taken without an answer. *)
Lemma drop_ok owner st v : dropped owner st → status0 owner v → status owner (vresolve st v).
Proof.
  intros Hd Hs. unfold status0 in Hs. destruct (v_entry v) as [i|] eqn:He.
  - destruct Hs as [Hn Hop]. destruct (vresolve_open owner i st v He Hop) as (E1 & E2 & E3 & [E4|[E4 _]] & _); [|by destruct owner].
    apply gone_status; [done|]. unfold gone_view. rewrite E2, Hn. by exists st.
  - rewrite vresolve_gone by done. by apply gone_status.
Qed.

Lemma status_status0 owner v : status owner v → status0 owner v.
Proof. by intros [? _]. Qed.
Lemma status_finished owner v : status owner v → v_entry v ≠ None → v_finished v = false.
Proof. intros [_ H]. destruct (v_entry v); [by destruct H as (_ & ? & _)|done]. Qed.
Lemma status_clear owner v : status owner v → status0 owner (vclear v).
Proof. by intros [? _]. Qed.
#[export] Hint Resolve status_status0 status_finished status_clear : quiet.

(** ** The invariant *)

Section system.
Context (iso : Z → string) (uuid : nat → string).

Definition ids_truthy (h : Hub) : Prop :=
  ∀ s c, s ∈ hb_subscribers h → sb_client s = Some c → truthy (hc_clientId c) = true.
Definition is_local (s : Sender) : bool := match s with sender_voice true _ => true | _ => false end.

Record keys_ok (w : World) : Prop := {
  ko_drawn : ∀ id owner, wd_owners w !! id = Some owner → ∃ k, (k < wd_drawn w)%nat ∧ id = uuid k;
  ko_pending : ∀ e, e ∈ wd_pending w → ∃ owner, wd_owners w !! e.1 = Some owner ∧ entry_ok owner e.2;
  ko_confirmations : ∀ n cv id, wd_objects w !! n = Some cv → id ∈ cv_confirmations cv → ∃ t u, wd_owners w !! id = Some (by_prompter n t u);
  ko_secrets : ∀ n cv id, wd_objects w !! n = Some cv → id ∈ cv_secrets cv → wd_owners w !! id = Some (by_secret_prompter n);
  ko_cu : ∀ n cv id, wd_objects w !! n = Some cv → id ∈ cu_owned cv → ∃ c t, wd_owners w !! id = Some (by_cu_proxy n c t);
  ko_bash : ∀ id, jhas id (wd_bash w) = true → ∃ c t, wd_owners w !! id = Some (by_bash_proxy c t);
  ko_senders : ∀ n cv, wd_objects w !! n = Some cv → is_local (cv_sender cv) = false;
  ko_hub : ids_truthy (wd_hub w);
}.
Definition views_ok (w : World) : Prop :=
  ∀ id, match wd_owners w !! id with Some owner => status owner (view w id) | None => view w id = empty_view end.
Definition world_ok (w : World) : Prop := keys_ok w ∧ views_ok w.

Lemma shrinks_keys w w' : shrinks w w' → keys_ok w → keys_ok w'.
Proof.
  intros [A H B C D E] [K1 K2 K3 K4 K5 K6 K7 K8]. split; rewrite ?A, ?B, ?H; auto.
  - intros n cv' id Hcv Hid. destruct (D n cv' Hcv) as (cv & ? & _ & Hsub & _ & _). eapply K3; [done|]. by apply Hsub.
  - intros n cv' id Hcv Hid. destruct (D n cv' Hcv) as (cv & ? & _ & _ & Hsub & _). eapply K4; [done|]. by apply Hsub.
  - intros n cv' id Hcv Hid. destruct (D n cv' Hcv) as (cv & ? & _ & _ & _ & Hsub). eapply K5; [done|]. by apply Hsub.
  - intros n cv' Hcv. destruct (D n cv' Hcv) as (cv & ? & -> & _). by eapply K7.
Qed.

Lemma acts_ok id f owner w w' : world_ok w → wd_owners w !! id = Some owner → acts id f w w' →
  (status owner (view w id) → status owner (f (view w id))) → world_ok w'.
Proof.
  intros [Hk Hv] Ho [Hs Hx] Hf. split; [by eapply shrinks_keys|]. intros x. rewrite (sh_owners _ _ Hs), Hx. case_decide as E; [|by apply Hv].
  subst x. rewrite Ho. apply Hf. specialize (Hv id). by rewrite Ho in Hv.
Qed.
Lemma quiet_ok w w' : world_ok w → quiet w w' → world_ok w'.
Proof. intros [Hk Hv] [Hs Hx]. split; [by eapply shrinks_keys|]. intros x. rewrite (sh_owners _ _ Hs), Hx. apply Hv. Qed.

Lemma get_owner w id i : world_ok w → get id w = Some i → ∃ owner, wd_owners w !! id = Some owner ∧ entry_ok owner i ∧ status owner (view w id).
Proof.
  intros [Hk Hv] Hi. specialize (Hv id). destruct (wd_owners w !! id) as [owner|] eqn:E.
  - exists owner. split_and!; [done| |done]. destruct Hv as [Hs _]. unfold status0 in Hs. change (v_entry (view w id)) with (get id w) in Hs.
    rewrite Hi in Hs. by destruct Hs as [_ [? _]].
  - unfold view, empty_view in Hv. injection Hv as Hg. by rewrite Hg in Hi.
Qed.

Lemma fits_deny owner st o : st ≠ approved → allows o = false → fits owner st o.
Proof. intros H1 H2. split; [rewrite H2; done|done]. Qed.
Lemma fits_answer n t u d c a b e p s : fits (by_prompter n t u) (answer_state d) (confirmed (mkConfirm d c a b e) p s).
Proof. split; [|done]. destruct d; cbn; by rewrite ?bool_decide_true, ?bool_decide_false by done. Qed.
Hint Resolve fits_deny fits_answer : quiet.

(** A sequence of operations, each on a request of a known owner. *)
Lemma fold_ok {A} (g : World → A → World) (key : A → string) (P : Owner → A → Prop) l w : world_ok w →
  (∀ a, a ∈ l → ∃ owner, wd_owners w !! key a = Some owner ∧ P owner a) →
  (∀ w a owner, world_ok w → wd_owners w !! key a = Some owner → P owner a → world_ok (g w a) ∧ wd_owners (g w a) = wd_owners w) →
  world_ok (foldl g w l).
Proof.
  revert w. induction l as [|a l IH]; intros w Hw Hl Hg; [done|]. cbn. destruct (Hl a (list_elem_of_here _ _)) as (owner & Ho & HP).
  destruct (Hg w a owner Hw Ho HP) as [Hw' Ho']. apply IH; [done| |done]. intros b Hb. rewrite Ho'. apply Hl. by right.
Qed.

(** ** Prompters *)

Lemma owns_owner n id w : world_ok w → owns_confirmation n id w = true → ∃ t u, wd_owners w !! id = Some (by_prompter n t u).
Proof.
  intros [Hk _]. unfold owns_confirmation. destruct (wd_objects w !! n) as [cv|] eqn:E; [|done]. intros H%bool_decide_eq_true. by eapply ko_confirmations.
Qed.
Lemma resolveConfirmation_ok n id d options w : world_ok w → world_ok (resolveConfirmation n id d options w).
Proof.
  intros Hw. unfold resolveConfirmation. destruct (owns_confirmation n id w) eqn:E; [|done]. destruct (owns_owner _ _ _ Hw E) as (t & u & Ho). cbn.
  eapply (acts_ok id); [exact Hw|exact Ho|apply (answer_let id _ _ w (disown_confirmation n id)); eauto with quiet|].
  intros Hs. rewrite Ho. apply vanswer_ok; eauto with quiet.
Qed.
Lemma handleConfirmationResponse_ok n id d options src w : world_ok w → world_ok (handleConfirmationResponse n id d options src w).
Proof.
  intros Hw. unfold handleConfirmationResponse. destruct (negb _); [done|]. eapply quiet_ok; [by apply resolveConfirmation_ok|apply emit_state_quiet].
Qed.
Lemma deny_all_ok n w : world_ok w → world_ok (denyAllPending n w).
Proof.
  intros Hw. unfold denyAllPending. destruct (wd_objects w !! n) as [cv|] eqn:E; [|done].
  apply (fold_ok _ (λ id, id) (λ owner _, ∃ t u, owner = by_prompter n t u)); [done| |].
  - intros id Hid. destruct Hw as [Hk _]. destruct (ko_confirmations _ Hk n cv id E Hid) as (t & u & ->). eauto.
  - intros w1 id owner Hw1 Ho (t & u & ->). unfold deny_one.
    pose proof (answer_let id superseded (confirm_result user_deny (Some superseded_context) false true false) w1 (disown_confirmation n id) ltac:(eauto with quiet)) as Ha.
    split; [|by eapply acts_owners]. eapply (acts_ok id); [done..|]. intros Hs. rewrite Ho. apply vanswer_ok; eauto with quiet.
Qed.
Lemma dispose_prompter_ok n w : world_ok w → world_ok (dispose_prompter n w).
Proof.
  intros Hw. unfold dispose_prompter. destruct (wd_objects w !! n) as [cv|] eqn:E; [|done].
  apply (fold_ok _ (λ id, id) (λ owner _, ∃ t u, owner = by_prompter n t u)); [done| |].
  - intros id Hid. destruct Hw as [Hk _]. destruct (ko_confirmations _ Hk n cv id E Hid) as (t & u & ->). eauto.
  - intros w1 id owner Hw1 Ho (t & u & ->). unfold dispose_one.
    pose proof (reject_let id cancelled prompter_disposed w1 (disown_confirmation n id) ltac:(eauto with quiet)) as Ha.
    split; [|by eapply acts_owners]. eapply (acts_ok id); [done..|]. intros Hs. rewrite Ho. apply vreject_ok; eauto with quiet.
Qed.
Lemma dispose_secret_prompter_ok n w : world_ok w → world_ok (dispose_secret_prompter n w).
Proof.
  intros Hw. unfold dispose_secret_prompter. destruct (wd_objects w !! n) as [cv|] eqn:E; [|done].
  apply (fold_ok _ (λ id, id) (λ owner _, owner = by_secret_prompter n)); [done| |].
  - intros id Hid. destruct Hw as [Hk _]. rewrite (ko_secrets _ Hk n cv id E Hid). eauto.
  - intros w1 id owner Hw1 Ho ->. unfold dispose_secret_one.
    pose proof (reject_let id cancelled prompter_disposed w1 (disown_secret n id) ltac:(eauto with quiet)) as Ha.
    split; [|by eapply acts_owners]. eapply (acts_ok id); [done..|]. intros Hs. rewrite Ho. apply vreject_ok; eauto with quiet.
Qed.
Lemma resolveSecret_ok n id value delivery w : world_ok w → world_ok (resolveSecret n id value delivery w).
Proof.
  intros Hw. unfold resolveSecret, owns_secret. destruct (wd_objects w !! n) as [cv|] eqn:E; [|done].
  destruct (bool_decide (id ∈ cv_secrets cv)) eqn:Eid; [|done]. apply bool_decide_eq_true in Eid. cbn.
  pose proof Hw as [Hk _]. pose proof (ko_secrets _ Hk n cv id E Eid) as Ho.
  eapply (acts_ok id); [exact Hw|exact Ho|apply (answer_let id _ _ w (disown_secret n id)); eauto with quiet|].
  intros Hs. rewrite Ho. apply vanswer_ok; eauto with quiet. apply fits_deny; [by destruct value|done].
Qed.

(** Removing what a conversation asks. *)
Lemma removeByConversation_ok c w : world_ok w → world_ok (removeByConversation c superseded w).
Proof.
  intros Hw. unfold removeByConversation. apply (fold_ok _ fst (λ owner e, entry_ok owner e.2 ∧ removable (in_kind e.2) = true)); [done| |].
  - intros e [He [_ Hr]%andb_true_iff]%elem_of_bool_filter. destruct Hw as [Hk _]. destruct (ko_pending _ Hk e He) as (owner & ? & ?). eauto.
  - intros w1 [id i] owner Hw1 Ho [Hi Hr]. cbn in *. unfold remove_one. cbn. rewrite (eo_kind _ _ Hi) in *.
    destruct (bool_decide (kind_of owner = kind_secret)) eqn:Ek.
    + assert (Hrpc : rpc_owner owner = true) by by destruct owner. unfold rpcResolve. rewrite (eo_rpc _ _ Hi), Hrpc.
      assert (Ha : acts id (λ v, vsettle (secret_result None store) (vresolve superseded v)) w1
        (rpc_settle id (secret_result None store) (resolve id superseded w1).2)).
      { unfold rpc_settle. rewrite (acts_owners _ _ _ _ (resolve_acts id superseded w1)), Ho.
        destruct owner; try done; apply take_settle_acts, quiet_refl. }
      split; [|by eapply acts_owners]. eapply (acts_ok id); [done..|]. intros Hs. apply take_settle; eauto with quiet.
    + pose proof (resolve_acts id superseded w1) as Ha. split; [|by eapply acts_owners].
      eapply (acts_ok id); [done..|]. intros Hs. apply drop_ok; [|eauto with quiet]. by destruct owner.
Qed.
Lemma auto_deny_ok n c w : world_ok w → world_ok (auto_deny n c w).
Proof.
  intros Hw. unfold auto_deny. destruct (hasPending n w); [|done]. apply removeByConversation_ok, deny_all_ok. revert w Hw.
  generalize (getByConversation c). intros l w Hw. generalize dependent w. intros w. generalize (l w). clear l. intros l. revert w.
  induction l as [|e l IH]; intros w Hw; [done|]. cbn. apply IH. unfold tell_denied. destruct (bool_decide _); [|done].
  eapply quiet_ok; [done|apply emit_state_quiet].
Qed.

(** ** Making a request *)

Context `{!Inj (=) (=) uuid}.

Lemma fresh_id w : world_ok w → wd_owners w !! uuid (wd_drawn w) = None ∧ view w (uuid (wd_drawn w)) = empty_view.
Proof.
  intros [Hk Hv]. assert (H : wd_owners w !! uuid (wd_drawn w) = None).
  { destruct (wd_owners w !! _) as [owner|] eqn:E; [|done]. destruct (ko_drawn _ Hk _ _ E) as (k & Hlt & Hk'%(inj uuid)). lia. }
  split; [done|]. specialize (Hv (uuid (wd_drawn w))). by rewrite H in Hv.
Qed.

(** The request is entered, its timer runs, its maker owns it. *)
Record asks (owner : Owner) (i : PendingInteraction) (w w' : World) : Prop := {
  as_drawn : wd_drawn w' = S (wd_drawn w);
  as_owners : wd_owners w' = <[uuid (wd_drawn w) := owner]> (wd_owners w);
  as_pending : wd_pending w' = jset (uuid (wd_drawn w)) i (wd_pending w);
  as_timers : wd_timers w' = {[uuid (wd_drawn w)]} ∪ wd_timers w;
  as_rest : wd_outcomes w' = wd_outcomes w ∧ wd_finished w' = wd_finished w ∧ wd_hub w' = wd_hub w;
  as_told : ∀ x, told x w' = told x w;
  as_bash : wd_bash w' = wd_bash w ∧ is_bash owner = false
    ∨ is_bash owner = true ∧ ∃ b, wd_bash w' = jset (uuid (wd_drawn w)) b (wd_bash w);
  as_objects : ∀ n cv', wd_objects w' !! n = Some cv' → ∃ cv, wd_objects w !! n = Some cv ∧ cv_sender cv' = cv_sender cv
    ∧ (∀ x, x ∈ cv_confirmations cv' → x ∈ cv_confirmations cv ∨ x = uuid (wd_drawn w) ∧ ∃ t u, owner = by_prompter n t u)
    ∧ (∀ x, x ∈ cv_secrets cv' → x ∈ cv_secrets cv ∨ x = uuid (wd_drawn w) ∧ owner = by_secret_prompter n)
    ∧ (∀ x, x ∈ cu_owned cv' → x ∈ cu_owned cv ∨ x = uuid (wd_drawn w) ∧ ∃ c t, owner = by_cu_proxy n c t);
}.
Lemma asks_ok owner i w w' : world_ok w → asks owner i w w' → entry_ok owner i → world_ok w'.
Proof.
  intros Hw [A B C D (E1 & E2 & E3) F G O] Hi. destruct (fresh_id w Hw) as [Hnone Hempty]. destruct Hw as [Hk Hv]. set (id := uuid (wd_drawn w)) in *.
  assert (Hold : ∀ x o, wd_owners w !! x = Some o → x ≠ id ∧ wd_owners w' !! x = Some o).
  { intros x o Hx. assert (x ≠ id) by congruence. by rewrite B, lookup_insert_ne by done. }
  assert (Hbash : ∀ x, jhas x (wd_bash w') = if decide (x = id) then is_bash owner else jhas x (wd_bash w)).
  { intros x. assert (Hno : jhas id (wd_bash w) = false) by (unfold view, empty_view in Hempty; congruence).
    destruct G as [[-> Gb]|[Gb [b ->]]]; rewrite Gb; [case_decide; by subst|]. unfold jhas. rewrite jget_jset.
    destruct (decide (id = x)), (decide (x = id)); congruence. }
  split.
  - destruct Hk as [K1 K2 K3 K4 K5 K6 K7 K8]. split.
    + intros x o. rewrite A, B. intros [[<- _]|[_ Hx]]%lookup_insert_Some; [exists (wd_drawn w); split; [lia|done]|].
      destruct (K1 x o Hx) as (k & ? & ?). exists k. split; [lia|done].
    + intros e. rewrite C. intros [He| ->]%jset_elem.
      * destruct (K2 e He) as (o & Ho & ?). exists o. split; [by apply Hold|done].
      * exists owner. split; [by rewrite B, lookup_insert_eq|done].
    + intros n cv' x Hcv Hx. destruct (O n cv' Hcv) as (cv & Hcv0 & _ & H1 & _ & _). destruct (H1 x Hx) as [Hx'|[-> (t & u & ->)]].
      * destruct (K3 n cv x Hcv0 Hx') as (t & u & Ho). exists t, u. by apply Hold.
      * exists t, u. by rewrite B, lookup_insert_eq.
    + intros n cv' x Hcv Hx. destruct (O n cv' Hcv) as (cv & Hcv0 & _ & _ & H1 & _). destruct (H1 x Hx) as [Hx'|[-> ->]].
      * apply Hold. by eapply K4.
      * by rewrite B, lookup_insert_eq.
    + intros n cv' x Hcv Hx. destruct (O n cv' Hcv) as (cv & Hcv0 & _ & _ & _ & H1). destruct (H1 x Hx) as [Hx'|[-> (c & t & ->)]].
      * destruct (K5 n cv x Hcv0 Hx') as (c & t & Ho). exists c, t. by apply Hold.
      * exists c, t. by rewrite B, lookup_insert_eq.
    + intros x. rewrite Hbash. case_decide as Hx.
      * subst x. destruct owner; try done. intros _. rewrite B, lookup_insert_eq. eauto.
      * intros H. destruct (K6 x H) as (c & t & Ho). exists c, t. by apply Hold.
    + intros n cv' Hcv. destruct (O n cv' Hcv) as (cv & Hcv0 & -> & _). by eapply K7.
    + by rewrite E3.
  - intros x. rewrite B. assert (Hview : view w' x = mkView (if decide (x = id) then Some i else get x w)
      (if decide (x = id) then true else bool_decide (x ∈ wd_timers w)) (wd_outcomes w !! x) (bool_decide (x ∈ wd_finished w)) (told x w)
      (if decide (x = id) then is_bash owner else jhas x (wd_bash w))).
    { unfold view. rewrite E1, E2, F, Hbash, D. unfold get. rewrite C, jget_jset. f_equal.
      - destruct (decide (id = x)), (decide (x = id)); congruence.
      - case_decide; [apply bool_decide_eq_true|apply bool_decide_ext]; set_solver. }
    destruct (decide (x = id)) as [->|Hx].
    + rewrite lookup_insert_eq, Hview. destruct (decide (id = id)) as [_|]; [|done]. unfold view, empty_view in Hempty. injection Hempty as _ _ Ho Hf Ht _. rewrite Ho, Hf, Ht.
      split; cbn; [split_and!; done|split_and!; done].
    + rewrite lookup_insert_ne by done. rewrite Hview. destruct (decide (x = id)) as [|_]; [done|]. apply Hv.
Qed.

Lemma same_cvs id owner w w' : wd_objects w' = wd_objects w → ∀ n cv', wd_objects w' !! n = Some cv' → ∃ cv, wd_objects w !! n = Some cv ∧ cv_sender cv' = cv_sender cv
    ∧ (∀ x, x ∈ cv_confirmations cv' → x ∈ cv_confirmations cv ∨ x = id ∧ ∃ t u, owner = by_prompter n t u)
    ∧ (∀ x, x ∈ cv_secrets cv' → x ∈ cv_secrets cv ∨ x = id ∧ owner = by_secret_prompter n)
    ∧ (∀ x, x ∈ cu_owned cv' → x ∈ cu_owned cv ∨ x = id ∧ ∃ c t, owner = by_cu_proxy n c t).
Proof. intros -> n cv' H. exists cv'. split_and!; auto. Qed.

Lemma prompt_ok n toolName input risk allow scopes c target persistent signal toolUseId dirs w : world_ok w → is_Some (wd_objects w !! n) →
  world_ok (prompt uuid n toolName input risk allow scopes c target persistent signal toolUseId dirs w).2.
Proof.
  intros Hw [cv Hcv]. unfold prompt. destruct (is_aborted signal w); [done|]. cbn [fst snd draw].
  eapply quiet_ok; [|apply emit_state_quiet].
  match goal with |- world_ok (send_confirmation_request n ?id0 ?d0 (listen signal _ ?x)) => set (w2 := x); set (details := d0); set (id := id0) end.
  assert (Hw2 : world_ok w2).
  { eapply (asks_ok (by_prompter n toolName toolUseId)); [exact Hw| |].
    - split; cbn; try done; [by left|]. intros m cv' Hm. destruct (decide (m = n)) as [->|Hne].
      + rewrite lookup_alter_eq in Hm. apply fmap_Some in Hm as (cv0 & Hcv0 & ->). exists cv0. cbn. split_and!; try done; [|by left..].
        intros x [Hx|Hx%list_elem_of_singleton]%elem_of_app; [by left|right]. eauto.
      + rewrite lookup_alter_ne in Hm by done. exists cv'. split_and!; auto.
    - split; cbn; done. }
  assert (Hw3 : world_ok (listen signal id w2)) by (eapply quiet_ok; [exact Hw2|apply listen_quiet]). clearbody w2.
  unfold send_confirmation_request. destruct (wd_objects (listen signal id w2) !! n) as [cv2|] eqn:E; [|done].
  pose proof (ko_senders _ (proj1 Hw3) n cv2 E) as Hl. destruct (cv_sender cv2) as [| |[] []]; try done.
  - eapply quiet_ok; [exact Hw3|by apply tell_quiet].
  - eapply quiet_ok; [by apply handleConfirmationResponse_ok|by apply tell_quiet].
  - eapply quiet_ok; [exact Hw3|apply set_grants_quiet].
Qed.
Lemma prompt_secret_ok n c w : world_ok w → is_Some (wd_objects w !! n) → world_ok (prompt_secret uuid n c w).2.
Proof.
  intros Hw [cv Hcv]. unfold prompt_secret. cbn [fst snd draw]. eapply quiet_ok; [|by apply tell_quiet].
  eapply (asks_ok (by_secret_prompter n)); [exact Hw| |].
  - split; cbn; try done; [by left|]. intros m cv' Hm. destruct (decide (m = n)) as [->|Hne].
    + rewrite lookup_alter_eq in Hm. apply fmap_Some in Hm as (cv0 & Hcv0 & ->). exists cv0. cbn. split_and!; try done; [by left| |by left].
      intros x [Hx|Hx%list_elem_of_singleton]%elem_of_app; [by left|right]. eauto.
    + rewrite lookup_alter_ne in Hm by done. exists cv'. split_and!; auto.
  - split; cbn; done.
Qed.
Lemma standalone_ok c w : world_ok w → world_ok (requestSecretStandalone uuid c w).2.
Proof.
  intros Hw. unfold requestSecretStandalone. cbn [fst snd draw]. eapply quiet_ok; [|by apply tell_quiet].
  eapply (asks_ok by_standalone_secret); [exact Hw|split; cbn; try done; [by left|by apply same_cvs]|split; cbn; done].
Qed.
Lemma questions_ok c qs t signal w : world_ok w → world_ok (prompt_questions uuid c qs t signal w).2.
Proof.
  intros Hw. unfold prompt_questions. destruct (bool_decide _); [done|]. destruct (is_aborted signal w); [done|]. cbn [fst snd draw].
  eapply quiet_ok; [|by apply tell_quiet].
  eapply (asks_ok (by_question_prompter (orderedIds_of qs))); [exact Hw|destruct signal; (split; cbn; try done; [by left|by apply same_cvs])|split; cbn; done].
Qed.
Lemma route_approval_ok t input c signal w : world_ok w → world_ok (awaitRouteApproval uuid t input c signal w).2.
Proof.
  intros Hw. unfold awaitRouteApproval. destruct (is_aborted signal w); [done|]. cbn [fst snd draw].
  eapply quiet_ok; [|by apply tell_quiet]. eapply (asks_ok by_route); [exact Hw|destruct signal; (split; cbn; try done; [by left|by apply same_cvs])|split; cbn; done].
Qed.
End system.

(** ** Clients *)

Lemma ids_truthy_sub l h : (∀ s, s ∈ l → ∃ s0, s0 ∈ hb_subscribers h ∧ sb_client s = sb_client s0) → ids_truthy h → ids_truthy (set_subscribers l h).
Proof. intros Hl H s c Hs Hc. destruct (Hl s Hs) as (s0 & ? & E). rewrite E in Hc. by eapply H. Qed.
Lemma ids_truthy_delete p h : ids_truthy h → ids_truthy (set_subscribers (delete_where p (hb_subscribers h)) h).
Proof. apply ids_truthy_sub. intros s [? _]%elem_of_delete_where. by exists s. Qed.
Lemma ids_truthy_update p f h : (∀ s, sb_client (f s) = sb_client s) → ids_truthy h → ids_truthy (set_subscribers (update_where p f (hb_subscribers h)) h).
Proof. intros Hf. apply ids_truthy_sub. intros s (s0 & ? & ->)%elem_of_update_where. exists s0. destruct (p s0); by rewrite ?Hf. Qed.

Lemma replay_truthy s l h : ids_truthy h → ids_truthy (foldl (replay_one s) h l).
Proof.
  revert h. induction l as [|e l IH]; intros h H; [done|]. cbn. apply IH.
  change (ids_truthy (set_high_water (sb_connection s) (default (-1) (ae_seq e)) (write_to s e (entry_targeting (hb_stream h) e) h))).
  by apply ids_truthy_update.
Qed.
Lemma header_text_truthy raw c : header_text raw = Some c → truthy c = true.
Proof. unfold header_text. destruct raw as [v|]; [|done]. cbn. destruct (truthy (js_trim v)) eqn:E; [|done]. by intros [= <-]. Qed.

Lemma connect_truthy identity client interface actor scope last aborted t1 t2 h : ids_truthy h →
  ids_truthy (handleSubscribeAssistantEvents identity client interface actor scope last aborted t1 t2 h).2.
Proof.
  intros H. unfold handleSubscribeAssistantEvents. destruct (negb _ && _); [done|].
  set (c := match header_text client with Some c => _ | None => _ end).
  assert (Hc : ∀ k, c = Some k → truthy (hc_clientId k) = true).
  { unfold c. destruct (header_text client) eqn:E; [|done]. destruct (_ ≫= _); [|done]. intros k [= <-]. by eapply header_text_truthy. }
  assert (Hsub : ids_truthy (subscribe c scope t1 h).2).
  { unfold subscribe. cbn. set (fresh := match c with Some c => delete_where (has_client_id (hc_clientId c)) (hb_subscribers h) | None => hb_subscribers h end).
    assert (Hfresh : fresh ⊆ hb_subscribers h) by (unfold fresh; destruct c; [intros s [? _]%elem_of_delete_where|]; done).
    intros s k. cbn. intros [Hs|Hs%list_elem_of_singleton]%elem_of_app; [|subst s; apply Hc]. apply H, Hfresh. destruct (_ <=? _); [|done].
    destruct fresh; [done|by right]. }
  destruct (subscribe _ _ _ _) as [s h1]. cbn in Hsub. destruct aborted; [by apply ids_truthy_delete|]. destruct last as [last|]; [|done].
  destruct (getReplayWindow _ _ _ _ _) as [[events|] st]; cbn; [|exact Hsub]. by apply replay_truthy.
Qed.
Lemma hub_truthy iso c h : ids_truthy h → ids_truthy (hub_step iso c h).
Proof.
  intros H. destruct c; cbn; [by apply connect_truthy|by apply ids_truthy_delete..|by intros ? ? ?%elem_of_nil|by apply ids_truthy_update| |].
  - unfold broadcast. destruct (stampAndBuffer _ _ _ _ _ _). exact H.
  - unfold publish_step. destruct (hb_current h) as [[p [|n more]]|].
    + destruct (eqs _ _); exact H.
    + destruct (js_find _ _) as [s|]; [|exact H]. destruct (delivers _ _ _ _); [|exact H]. unfold callback.
      destruct (match ae_seq _ with Some _ => _ | None => _ end); [exact H|]. destruct congested; [|exact H].
      by apply (ids_truthy_delete _ (set_publishing _ _ h)).
    + destruct (hb_chain h); exact H.
Qed.

Lemma getClientById_id id h c : getClientById id h = Some c → hc_clientId c = id ∧ ∃ s, s ∈ hb_subscribers h ∧ sb_client s = Some c.
Proof.
  unfold getClientById. destruct (js_find _ _) as [s|] eqn:E; [|done]. cbn. intros Hc. apply js_find_elem in E as [Hs Hid].
  unfold has_client_id in Hid. rewrite Hc in Hid. apply bool_decide_eq_true in Hid. eauto.
Qed.
Lemma listed_subscriber cap c h : c ∈ listClientsByCapability cap h → ∃ s, s ∈ hb_subscribers h ∧ sb_client s = Some c.
Proof.
  unfold listClientsByCapability, clientEntries. intros [Hc _]%elem_of_bool_filter. apply list_elem_of_omap in Hc as (s & Hs & Hc).
  rewrite js_sort_Permutation in Hs. apply elem_of_bool_filter in Hs as [Hs _]. eauto.
Qed.

(** The client chosen belongs to the user, and is known by a proper identifier. *)
Definition target_checked (target source : option string) (h : Hub) : Prop :=
  ∀ id, target = Some id → truthy id = true ∧ ∃ a, source = Some a ∧ getActorPrincipalIdForClient id h = Some a.
Lemma enforce_checked target source h : (∀ id, target = Some id → truthy id = true) → enforceSameActor target source h = None →
  target_checked target source h.
Proof.
  unfold enforceSameActor, detectRejection. intros Ht H id ->. split; [by apply Ht|]. cbn in H. destruct source as [a|]; [|done].
  destruct (getActorPrincipalIdForClient id h) as [b|]; [|done]. destruct (eqs a b) eqn:E; [|done]. apply bool_decide_eq_true in E as ->. eauto.
Qed.
Lemma auto_truthy cap source h id : ids_truthy h → pickSameUserAutoResolve cap source h = auto_match id → truthy id = true.
Proof.
  unfold pickSameUserAutoResolve. intros H. destruct source as [a|]; [|done]. destruct (js_filter _ _) as [|c [|]] eqn:E; [done| |done]. intros [= <-].
  assert (c ∈ listClientsByCapability cap h) as Hc.
  { assert (c ∈ [c]) as Hin by by left. rewrite <- E in Hin. by apply elem_of_bool_filter in Hin as [? _]. }
  apply listed_subscriber in Hc as (s & ? & ?). by eapply H.
Qed.
Lemma resolve_truthy cap asked source h target : ids_truthy h → resolve_target cap asked source h = inr target →
  ∀ id, target = Some id → truthy id = true.
Proof.
  unfold resolve_target. intros H. destruct asked as [id|].
  - destruct (getClientById id h) as [c|] eqn:E; [|done]. destruct (capable cap c); [|done]. intros [= <-] ? [= <-].
    apply getClientById_id in E as (<- & s & ? & ?). by eapply H.
  - destruct (pickSameUserAutoResolve _ _ _) eqn:E; [|by intros [= <-]|done]. intros [= <-] ? [= <-]. by eapply auto_truthy.
Qed.

Section system.
Context (iso : Z → string) (uuid : nat → string) `{!Inj (=) (=) uuid}.
Notation world_ok := (world_ok uuid).

(** ** Requests to machines *)

Lemma host_entry_ok owner c t source resolvable meta w : host_target owner = Some (c, t) → rpc_owner owner = resolvable → reject_owner owner = resolvable →
  target_checked t source (wd_hub w) → entry_ok owner (host_entry c (kind_of owner) t resolvable meta w).
Proof.
  intros Ht Hr Hj Hc. split; cbn; try done; [by destruct owner|]. rewrite Ht. split; [done|]. intros id ->. destruct (Hc id eq_refl) as (? & a & _ & Ha).
  split; [done|]. by exists a.
Qed.

Lemma dispatch_ok c t signal source w : world_ok w → target_checked t source (wd_hub w) → world_ok (dispatchRequest uuid c t signal w).2.
Proof.
  intros Hw Hc. unfold dispatchRequest. cbn [fst snd draw]. eapply quiet_ok; [|by apply tell_quiet].
  eapply (asks_ok uuid (by_bash_proxy c t)); [exact Hw| |by eapply (host_entry_ok (by_bash_proxy c t))].
  destruct signal; (split; cbn; try done; [right; by eauto|by apply same_cvs]).
Qed.
Lemma bash_request_ok t c signal source w : world_ok w → world_ok (bash_request uuid t c signal source w).2.
Proof.
  intros Hw. unfold bash_request. destruct (is_aborted signal w); [done|]. destruct (resolve_target _ _ _ _) as [|target] eqn:E; [done|].
  destruct (enforceSameActor _ _ _) eqn:Ee; [done|]. pose proof (dispatch_ok c target signal source w Hw) as H.
  destruct (dispatchRequest _ _ _ _ _). apply H, enforce_checked; [|done]. eapply resolve_truthy; [|done]. apply Hw.
Qed.
Lemma file_request_ok o p t c signal source w : world_ok w → world_ok (file_request uuid o p t c signal source w).2.
Proof.
  intros Hw. unfold file_request. destruct (is_aborted signal w); [done|]. destruct (resolve_target _ _ _ _) as [|target] eqn:E; [done|].
  destruct (enforceSameActor _ _ _) eqn:Ee; [done|]. cbn [fst snd draw]. eapply quiet_ok; [|by apply tell_quiet].
  apply enforce_checked in Ee; [|eapply resolve_truthy; [|done]; apply Hw].
  eapply (asks_ok uuid (by_file_proxy c target) (host_entry c kind_host_file target true (file_metadata o p) w));
    [exact Hw| |by eapply (host_entry_ok (by_file_proxy c target))].
  destruct signal; (split; cbn; try done; [by left|by apply same_cvs]).
Qed.
Lemma cu_request_ok n c signal t source w : world_ok w → world_ok (cu_request uuid n c signal t source w).2.
Proof.
  intros Hw. unfold cu_request. destruct (cu_of n w) as [p|] eqn:Ep; [|done]. destruct (is_aborted signal w); [done|]. destruct (_ <? _); [done|].
  destruct (match t with Some t => _ | None => _ end) as [|target] eqn:E; [done|].
  destruct (match target with Some t => _ | None => _ end) as [|target'] eqn:E'; [done|].
  destruct (enforceSameActor _ _ _) eqn:Ee; [done|]. cbn [fst snd draw]. eapply quiet_ok; [|by apply tell_quiet].
  assert (Ht : ∀ id, target = Some id → truthy id = true).
  { intros id ->. eapply (resolve_truthy cap_cu (Some id)); [apply Hw|exact E'|].
    unfold resolve_target in E'. destruct (getClientById id (wd_hub w)); [|done]. destruct (capable _ _); [|done]. by injection E' as <-. }
  apply enforce_checked in Ee; [|done].
  eapply (asks_ok uuid (by_cu_proxy n c target) (host_entry c kind_host_cu target true no_metadata w));
    [exact Hw| |by eapply (host_entry_ok (by_cu_proxy n c target))].
  assert (Ho : ∀ w1, wd_objects w1 = wd_objects w → ∀ m cv', wd_objects (alter_cu n (λ p, set_owned (cu_ownedRequests p ++ [uuid (wd_drawn w)]) p) w1) !! m = Some cv' →
    ∃ cv, wd_objects w !! m = Some cv ∧ cv_sender cv' = cv_sender cv
    ∧ (∀ x, x ∈ cv_confirmations cv' → x ∈ cv_confirmations cv ∨ x = uuid (wd_drawn w) ∧ ∃ t u, by_cu_proxy n c target = by_prompter m t u)
    ∧ (∀ x, x ∈ cv_secrets cv' → x ∈ cv_secrets cv ∨ x = uuid (wd_drawn w) ∧ by_cu_proxy n c target = by_secret_prompter m)
    ∧ (∀ x, x ∈ cu_owned cv' → x ∈ cu_owned cv ∨ x = uuid (wd_drawn w) ∧ ∃ c' t, by_cu_proxy n c target = by_cu_proxy m c' t)).
  { intros w1 Hw1 m cv' Hm. cbn in Hm. rewrite Hw1 in Hm. destruct (decide (m = n)) as [->|Hne].
    - rewrite lookup_alter_eq in Hm. apply fmap_Some in Hm as (cv0 & Hcv0 & ->). exists cv0. cbn. split_and!; try done; [by left..|].
      unfold cu_owned. cbn. destruct (cv_hostCuProxy cv0) as [q|]; cbn; [|by left].
      intros x [Hx|Hx%list_elem_of_singleton]%elem_of_app; [by left|right]. eauto.
    - rewrite lookup_alter_ne in Hm by done. exists cv'. split_and!; auto. }
  destruct signal; (split; cbn; try done; [by left|by apply Ho]).
Qed.
Lemma cu_tool_ok n tool input r t c signal source w : world_ok w → world_ok (cu_tool uuid n tool input r t c signal source w).2.
Proof.
  intros Hw. unfold cu_tool. destruct (cu_of n w); [|done]. destruct (getMostRecentClientByCapability _ _); [|done].
  match goal with |- context[match ?x with inl e => (inl e, w) | inr _ => _ end] => destruct x as [|target] end; [done|].
  apply cu_request_ok. eapply quiet_ok; [exact Hw|]. by apply alter_cu_quiet.
Qed.

(** ** Timers *)

(** What is done to a request settles it. *)
Definition settles (owner : Owner) (g : View → View) : Prop :=
  ∀ v, status0 owner v → (v_entry v ≠ None → v_finished v = false) →
    status owner (g v) ∧ (is_Some (v_entry v) → is_Some (v_outcome (g v))).
Lemma vsettle_settled o v : is_Some (v_outcome (vsettle o v)).
Proof. unfold vsettle. cbn. by destruct (v_outcome v). Qed.
Lemma settles_take owner st o f : st ≠ approved → allows o = false →
  (∀ v, v_entry (f v) = v_entry v ∧ v_outcome (f v) = v_outcome v ∧ v_told (f v) = v_told v) →
  settles owner (λ v, vsettle o (vresolve st (f v))).
Proof.
  intros Hst Ho Hf v Hs _. split; [|intros _; apply vsettle_settled]. apply take_settle; [by apply fits_deny|done|].
  destruct (Hf v) as (E1 & E2 & E3). unfold status0, gone_view, open_view, settled_view, dropped_view in *. by rewrite E1, E2, E3.
Qed.
Lemma settles_finish owner st o : st ≠ approved → allows o = false → settles owner (vfinish st o).
Proof.
  intros Hst Ho v Hs Hf. split; [apply vfinish_ok; [by apply fits_deny|done..]|]. intros Hi. unfold vfinish.
  rewrite Hf by (by apply not_eq_None_Some). apply vsettle_settled.
Qed.
Lemma settles_answer n t u st o : st ≠ approved → allows o = false →
  settles (by_prompter n t u) (vanswer (Some (by_prompter n t u)) st o).
Proof.
  intros Hst Ho v Hs Hf. split; [apply vanswer_ok; [done|by apply fits_deny|done..]|]. intros [i Hi]. unfold status0 in Hs. rewrite Hi in Hs.
  destruct Hs as [_ [[_ Hr _ _ _ _] _]]. unfold vanswer. rewrite Hi, Hr. apply vsettle_settled.
Qed.

Lemma confirmation_timeout_acts n id t u w : wd_owners w !! id = Some (by_prompter n t u) →
  acts id (vanswer (Some (by_prompter n t u)) cancelled (confirm_result user_deny (Some (timeout_context t)) true false false)) w
    (confirmation_timeout n id t u w).
Proof.
  intros Ho. rewrite <- Ho. unfold confirmation_timeout.
  apply (answer_let id _ _ w (λ w1, emit_state n id state_timed_out src_timeout u (disown_confirmation n id w1))).
  intros w1. eapply quiet_trans; [apply disown_confirmation_quiet|apply emit_state_quiet].
Qed.
Lemma on_timeout_acts w id owner : wd_owners w !! id = Some owner → ∃ g, acts id g w (on_timeout id owner w) ∧ settles owner g.
Proof.
  intros Ho. destruct owner; cbn.
  - eexists. split; [by apply confirmation_timeout_acts|by apply settles_answer].
  - eexists. split; [apply take_settle_acts; eauto with quiet|by apply (settles_take _ _ _ (λ v, v))].
  - eexists. split; [apply finish_acts|by apply settles_finish].
  - eexists. split; [apply take_settle_acts; eauto with quiet|by apply (settles_take _ _ _ (λ v, v))].
  - eexists. split; [apply finish_acts|by apply settles_finish].
  - eexists. split; [eapply acts_trans; [|apply take_settle_acts; eauto with quiet]; eapply acts_quiet; [apply bash_forget_acts|eauto with quiet]|].
    by apply settles_take.
  - eexists. split; [apply take_settle_acts; eauto with quiet|by apply (settles_take _ _ _ (λ v, v))].
  - eexists. split; [eapply quiet_then; [apply cu_disown_quiet|apply take_settle_acts; eauto with quiet]|by apply (settles_take _ _ _ (λ v, v))].
Qed.
Lemma fire_acts id w owner : wd_owners w !! id = Some owner → id ∈ wd_timers w →
  ∃ g, acts id g w (fire id w) ∧ ∀ v, status owner v → status owner (g v) ∧ (is_Some (v_entry v) → is_Some (v_outcome (g v))).
Proof.
  intros Ho Ht. unfold fire. rewrite bool_decide_true, Ho by done. destruct (on_timeout_acts (clearTimer id w) id owner Ho) as (g & Hg & Hs).
  eexists. split; [exact (acts_trans _ _ _ _ _ _ (clearTimer_acts id w) Hg)|]. intros v Hv. cbn. apply (Hs (vclear v)); [by apply status_clear|by apply (status_finished owner v)].
Qed.
Lemma fire_ok id w : world_ok w → world_ok (fire id w).
Proof.
  intros Hw. destruct (decide (id ∈ wd_timers w)) as [Ht|Ht]; [|unfold fire; by rewrite bool_decide_false by done].
  destruct (wd_owners w !! id) as [owner|] eqn:Ho; [|unfold fire; rewrite Ho; by case_bool_decide].
  destruct (fire_acts id w owner Ho Ht) as (g & Hg & Hs). eapply (acts_ok uuid id); [done..|]. intros Hv. by apply Hs.
Qed.

(** ** Signals *)

Lemma settles_status owner g v : settles owner g → status owner v → status owner (g v).
Proof. intros Hs Hv. apply Hs; [by apply status_status0|by apply (status_finished owner)]. Qed.
Lemma on_abort_acts w id owner : wd_owners w !! id = Some owner →
  ∃ g, acts id g w (on_abort id owner w) ∧ ∀ v, status owner v → status owner (g v).
Proof.
  intros Ho. destruct owner; cbn.
  - unfold confirmation_abort. destruct (owns_confirmation _ _ _); [|eexists; split; [apply acts_refl|done]].
    eexists. split; [apply take_settle_acts; eauto with quiet|]. intros v. by apply settles_status, (settles_take _ _ _ (λ v, v)).
  - eexists. split; [apply acts_refl|done].
  - eexists. split; [apply finish_acts|]. intros v. by apply settles_status, settles_finish.
  - eexists. split; [apply acts_refl|done].
  - eexists. split; [apply finish_acts|]. intros v. by apply settles_status, settles_finish.
  - unfold bash_abort. destruct (jhas id (wd_bash w)); [|eexists; split; [apply acts_refl|done]].
    eexists. split; [eapply acts_trans; [|apply take_settle_acts; eauto with quiet]; eapply acts_quiet; [|apply unlisten_quiet];
      eapply acts_trans; [apply clearTimer_acts|apply bash_forget_acts]|]. intros v. by apply settles_status, (settles_take _ _ _ (λ v, vforget (vclear v))).
  - unfold file_abort. destruct (negb _); [|eexists; split; [apply acts_refl|done]].
    eexists. split; [apply take_settle_acts; eauto with quiet|]. intros v. by apply settles_status, (settles_take _ _ _ (λ v, v)).
  - unfold cu_abort. destruct (negb _); [|eexists; split; [apply acts_refl|done]].
    eexists. split; [eapply quiet_then; [apply cu_disown_quiet|apply take_settle_acts; eauto with quiet]|].
    intros v. by apply settles_status, (settles_take _ _ _ (λ v, v)).
Qed.
Lemma foldl_world_ok {A} (g : World → A → World) l w : (∀ w a, world_ok w → world_ok (g w a)) → world_ok w → world_ok (foldl g w l).
Proof. intros Hg. revert w. induction l as [|a l IH]; intros w Hw; [done|]. cbn. by apply IH, Hg. Qed.
Lemma abort_signal_ok s w : world_ok w → world_ok (abort_signal s w).
Proof.
  intros Hw. unfold abort_signal. destruct (bool_decide _); [done|]. apply foldl_world_ok; [|eapply quiet_ok; [done|apply mark_aborted_quiet]].
  clear w Hw. intros w id Hw. unfold abort_one. destruct (bool_decide _); [|done]. destruct (wd_owners w !! id) as [owner|] eqn:Ho; [|done].
  destruct (on_abort_acts (unlisten id w) id owner Ho) as (g & Hg & Hs).
  eapply (acts_ok uuid id); [eapply quiet_ok; [done|apply unlisten_quiet]|exact Ho|exact Hg|apply Hs].
Qed.
Lemma abort_turn_ok n s w : world_ok w → world_ok (abortConversation n s w).
Proof. intros Hw. by apply dispose_secret_prompter_ok, dispose_prompter_ok, abort_signal_ok. Qed.

(** ** What machines answer *)

Lemma peek_owner kind requestId w id i : world_ok w → peek kind requestId w = inr (id, i) →
  get id w = Some i ∧ ∃ owner, wd_owners w !! id = Some owner ∧ kind_of owner = kind ∧ entry_ok owner i ∧ status owner (view w id).
Proof.
  intros Hw. unfold peek. destruct requestId as [r|]; [|done]. destruct (negb _); [done|]. destruct (get r w) as [j|] eqn:E; [|done].
  destruct (bool_decide _) eqn:Ek; [|done]. intros [= -> ->]. split; [done|]. destruct (get_owner _ _ _ _ Hw E) as (owner & Ho & Hi & Hs).
  exists owner. apply bool_decide_eq_true in Ek. rewrite <- Ek. split_and!; [done| |done..]. symmetry. apply Hi.
Qed.
Lemma bash_resolveResult_ok id i c t o w : world_ok w → get id w = Some i → wd_owners w !! id = Some (by_bash_proxy c t) → allows o = false →
  world_ok (bash_resolveResult id o w).
Proof.
  intros Hw Hi Ho Hal. unfold bash_resolveResult, bash_resolve. pose proof (resolve_acts id answered w) as Ha.
  assert (Hb : jhas id (wd_bash (resolve id answered w).2) = true).
  { destruct Hw as [_ Hv]. specialize (Hv id). rewrite Ho in Hv. destruct Hv as [_ Hv]. change (v_entry (view w id)) with (get id w) in Hv. rewrite Hi in Hv.
    change (v_bash (view (resolve id answered w).2 id) = true). rewrite (proj2 Ha), decide_True by done. unfold vresolve.
    change (v_entry (view w id)) with (get id w). rewrite Hi. by apply Hv. }
  rewrite Hb. eapply (acts_ok uuid id); [exact Hw|exact Ho| |].
  - eapply acts_trans; [|apply settle_acts]. eapply acts_trans; [|apply bash_forget_acts]. eapply acts_quiet; [|apply unlisten_quiet].
    eapply acts_trans; [exact Ha|apply clearTimer_acts].
  - intros Hs. pose proof (open_take_settle _ i answered o (view w id) Hi ltac:(by apply fits_deny) (status_status0 _ _ Hs)) as [H _]. apply gone_status.
    + unfold vresolve. change (v_entry (view w id)) with (get id w). by rewrite Hi.
    + unfold status0 in H. unfold vresolve in *. change (v_entry (view w id)) with (get id w) in *. rewrite Hi in *. exact H.
Qed.
Lemma bash_result_ok requestId s r w : world_ok w → world_ok (handleHostBashResult requestId s r w).2.
Proof.
  intros Hw. unfold handleHostBashResult. destruct (peek _ _ _) as [|[id i]] eqn:E; [done|]. destruct (check_submitter _ _ _); [done|].
  destruct (peek_owner _ _ _ _ _ Hw E) as (Hi & owner & Ho & Hk & _). destruct owner; try done. by eapply bash_resolveResult_ok.
Qed.
Lemma file_result_ok requestId s r w : world_ok w → world_ok (handleHostFileResult requestId s r w).2.
Proof.
  intros Hw. unfold handleHostFileResult. destruct (peek _ _ _) as [|[id i]] eqn:E; [done|]. destruct (check_submitter _ _ _); [done|].
  destruct (peek_owner _ _ _ _ _ Hw E) as (Hi & owner & Ho & Hk & _ & _). destruct owner; try done. cbn. unfold file_resolve.
  pose proof (resolve_entry id answered w) as He. change (v_entry (view w id)) with (get id w) in He. rewrite Hi in He.
  pose proof (answer_acts id answered (file_outcome (in_metadata i) r) w _ (quiet_refl _)) as Ha.
  destruct (resolve id answered w) as [e w1]. cbn in He, Ha. subst e. eapply (acts_ok uuid id); [exact Hw|exact Ho|exact Ha|].
  intros Hs. rewrite Ho. assert (allows (file_outcome (in_metadata i) r) = false).
  { unfold file_outcome. destruct (in_metadata i); try done. destruct (_ && _); [|done]. destruct (not_empty _); [done|]. by repeat destruct (not_empty _). }
  apply vanswer_ok; [done|by apply fits_deny|by apply status_status0|by apply (status_finished (by_file_proxy conversationId targetClientId))].
Qed.

Lemma resolve_objects id st w : wd_objects (resolve id st w).2 = wd_objects w.
Proof.
  unfold resolve, emitResolved. destruct (jget id _) as [i|]; [|done]. cbn. destruct (in_conversationId i), (in_timer i), (in_detachAbort i); done.
Qed.
Lemma cu_of_disown m n id w : is_Some (cu_of n w) → is_Some (cu_of n (cu_disown m id w)).
Proof.
  unfold cu_of, cu_disown, alter_cu, alter_object. cbn. destruct (decide (m = n)) as [->|Hne].
  - rewrite lookup_alter_eq. destruct (wd_objects w !! n) as [cv|]; [|done]. cbn. by destruct (cv_hostCuProxy cv).
  - by rewrite lookup_alter_ne.
Qed.
Lemma cu_result_ok requestId s ob w : world_ok w → world_ok (handleHostCuResult requestId s ob w).2.
Proof.
  intros Hw. unfold handleHostCuResult. destruct (peek _ _ _) as [|[id i]] eqn:E; [done|]. destruct (check_submitter _ _ _); [done|].
  destruct (peek_owner _ _ _ _ _ Hw E) as (Hi & owner & Ho & Hk & Hent & _). destruct owner as [| | | | | | |m c t]; try done.
  destruct (findConversation _ _ ≫= _) as [n|] eqn:En; cbn.
  - assert (Hcu : is_Some (cu_of n w)).
    { apply bind_Some in En as (k & _ & En). apply bind_Some in En as (p & Hp & [= ->]). eauto. }
    unfold processObservation. pose proof (resolve_entry id answered (cu_disown n id w)) as He. change (v_entry (view (cu_disown n id w) id)) with (get id w) in He.
    rewrite Hi in He. pose proof (resolve_objects id answered (cu_disown n id w)) as Hobj. pose proof (cu_of_disown n n id w Hcu) as [p Hp].
    pose proof (λ o (h : World → World) (Hq : ∀ w1, quiet w1 (h w1)), answer_acts id answered o (cu_disown n id w) (h (resolve id answered (cu_disown n id w)).2) (Hq _)) as Ha.
    destruct (resolve id answered (cu_disown n id w)) as [e w1]. cbn in He, Hobj, Ha. subst e. assert (Hp1 : cu_of n w1 = Some p) by (unfold cu_of in *; by rewrite Hobj).
    rewrite Hp1.    rewrite (eo_rpc _ _ Hent). cbn [rpc_owner].
    eapply (acts_ok uuid id); [eapply quiet_ok; [exact Hw|apply (cu_disown_quiet n id)]|exact Ho|apply (Ha _ (alter_cu n (updateStateFromObservation ob)))|].
    + intros w2. by apply alter_cu_quiet.
    + intros Hs. change (wd_owners (cu_disown n id w)) with (wd_owners w). rewrite Ho.
      apply vanswer_ok; [done| |by apply status_status0|by apply (status_finished (by_cu_proxy m c t))]. apply fits_deny; done.
  - eapply (acts_ok uuid id); [exact Hw|exact Ho|apply resolve_acts|]. intros Hs. apply drop_ok; [done|by apply status_status0].
Qed.

(** ** Proxies go away *)

Lemma bash_dispose_one_acts e w :
  acts e.1 (λ v, vsettle (host_rejected reason_disposed) (vresolve cancelled (vclear v))) w (bash_dispose_one w e).
Proof.
  unfold bash_dispose_one.
  apply (acts_trans _ vclear (λ v, vsettle (host_rejected reason_disposed) (vresolve cancelled v)) _ (unlisten e.1 (clearTimer e.1 w)));
    [|apply take_settle_acts; eauto with quiet]. eapply acts_quiet; [apply clearTimer_acts|apply unlisten_quiet].
Qed.
Lemma bash_dispose_gone l w x : x ∈ jkeys l ∨ v_entry (view w x) = None → v_entry (view (foldl bash_dispose_one w l) x) = None.
Proof.
  revert w. induction l as [|e l IH]; intros w; [by intros [Hn%elem_of_nil|H]|]. intros H. cbn. apply IH.
  rewrite (proj2 (bash_dispose_one_acts e w)). case_decide as Hx.
  - right. unfold vsettle, vresolve, vclear. cbn. by destruct (get x w) eqn:E.
  - destruct H as [[?|H]%elem_of_cons|H]; [done|by left|by right].
Qed.
Lemma jhas_jkeys {V} k (m : jsmap string V) : jhas k m = true ↔ k ∈ jkeys m.
Proof.
  unfold jhas. destruct (jget k m) as [v|] eqn:E; [|apply jget_None in E; done]. split; [|done]. intros _. by eapply jget_Some_key.
Qed.
Lemma bash_dispose_ok w : world_ok w → world_ok (bash_dispose w).
Proof.
  intros Hw. unfold bash_dispose.
  assert (Hw' : world_ok (foldl bash_dispose_one w (wd_bash w))).
  { apply (fold_ok uuid _ fst (λ _ _, True)); [done| |].
    - intros e He. destruct (ko_bash _ _ (proj1 Hw) e.1) as (c & t & ->); [|by eexists]. apply jhas_jkeys. by apply list_elem_of_fmap_2.
    - intros w1 e owner Hw1 Ho _. pose proof (bash_dispose_one_acts e w1) as Ha. split; [|by eapply acts_owners].
      eapply (acts_ok uuid e.1); [done..|]. intros Hs. by apply settles_status, Hs; apply (settles_take _ _ _ vclear). }
  assert (Hgone : ∀ x c t, wd_owners (foldl bash_dispose_one w (wd_bash w)) !! x = Some (by_bash_proxy c t) →
    v_entry (view (foldl bash_dispose_one w (wd_bash w)) x) = None).
  { intros x c t Ho. apply bash_dispose_gone. destruct (v_entry (view w x)) eqn:E; [|by right]. left. apply jhas_jkeys.
    assert (Ho' : wd_owners w !! x = Some (by_bash_proxy c t)).
    { rewrite <- Ho. clear. generalize (wd_bash w). intros l. revert w. induction l as [|e l IH]; intros w; [done|]. cbn. rewrite <- IH.
      by rewrite (acts_owners _ _ _ _ (bash_dispose_one_acts e w)). }
    destruct Hw as [_ Hv]. specialize (Hv x). rewrite Ho' in Hv. destruct Hv as [_ Hv]. rewrite E in Hv. by apply Hv. }
  set (w' := foldl _ _ _) in *. clearbody w'. destruct Hw' as [Hk Hv]. split.
  - eapply shrinks_keys; [|exact Hk]. split; cbn; try done. by apply same_objects.
  - intros x. specialize (Hv x). specialize (Hgone x). cbn. destruct (wd_owners w' !! x) as [owner|] eqn:E.
    + destruct Hv as [Hs Ho]. split; [exact Hs|]. change (v_entry (view (set_bash [] w') x)) with (v_entry (view w' x)).
      destruct (v_entry (view w' x)) eqn:Ee; [|done]. destruct Ho as (Ho1 & Ho2 & _). split_and!; [exact Ho1|exact Ho2|].
      destruct owner; try done. by specialize (Hgone _ _ eq_refl).
    + unfold view, empty_view in *. injection Hv as H1 H2 H3 H4 H5 _. by f_equal.
Qed.

Lemma file_dispose_ok w : world_ok w → world_ok (file_dispose w).
Proof.
  intros Hw. unfold file_dispose. apply (fold_ok uuid _ fst (λ owner e, entry_ok owner e.2 ∧ in_kind e.2 = kind_host_file)); [done| |].
  - intros e [He Hk]%elem_of_bool_filter. apply bool_decide_eq_true in Hk. destruct (ko_pending _ _ (proj1 Hw) e He) as (owner & ? & ?). eauto.
  - intros w1 [id i] owner Hw1 Ho [Hi Hk]. cbn [fst snd] in *. rewrite (eo_kind _ _ Hi) in Hk. unfold file_dispose_one. cbn [fst snd].
    unfold rpcReject. rewrite (eo_reject _ _ Hi). destruct owner as [| | | | | |c t|]; try done. cbn [reject_owner]. unfold rpc_settle.
    set (w2 := if is_null _ then _ else _). assert (Hq : quiet (resolve id cancelled w1).2 w2).
    { unfold w2. destruct (is_null _); eauto with quiet. }
    assert (Ho2 : wd_owners w2 !! id = Some (by_file_proxy c t)).
    { by rewrite (quiet_owners _ _ Hq), (acts_owners _ _ _ _ (resolve_acts id cancelled w1)). }
    rewrite Ho2. pose proof (take_settle_acts id cancelled (host_rejected reason_disposed) w1 w2 Hq) as Ha. split; [|by eapply acts_owners].
    eapply (acts_ok uuid id); [done..|]. intros Hs. by apply settles_status, Hs; apply (settles_take _ _ _ (λ v, v)).
Qed.

Lemma cu_dispose_one_acts id w : ∃ g, acts id g w (cu_dispose_one w id) ∧
  (g = (λ v, v) ∨ g = vreject (wd_owners w !! id) cancelled (host_rejected reason_disposed)).
Proof.
  unfold cu_dispose_one. pose proof (λ h Hq, reject_acts id cancelled (host_rejected reason_disposed) w h Hq) as Ha.
  destruct (resolve id cancelled w) as [[i|] w1] eqn:E.
  - eexists. split; [|by right]. apply Ha. destruct (is_null _); eauto with quiet.
  - exists (λ v, v). split; [|by left]. unfold resolve in E. destruct (jget id (wd_pending w)); [done|]. injection E as <-. apply acts_refl.
Qed.
Lemma cu_dispose_ok n w : world_ok w → world_ok (cu_dispose n w).
Proof.
  intros Hw. unfold cu_dispose. destruct (cu_of n w) as [p|] eqn:Ep; [|done]. eapply quiet_ok; [|apply alter_cu_quiet; intros q x Hx%elem_of_nil; done].
  apply (fold_ok uuid _ (λ id, id) (λ owner _, ∃ c t, owner = by_cu_proxy n c t)); [done| |].
  - intros id Hid. unfold cu_of in Ep. destruct (wd_objects w !! n) as [cv|] eqn:E; [|done]. cbn in Ep.
    destruct (ko_cu _ _ (proj1 Hw) n cv id E) as (c & t & ->); [unfold cu_owned; by rewrite Ep|]. eauto.
  - intros w1 id owner Hw1 Ho (c & t & ->). destruct (cu_dispose_one_acts id w1) as (g & Ha & Hg). split; [|by eapply acts_owners].
    eapply (acts_ok uuid id); [done..|]. intros Hs. destruct Hg as [->| ->]; [done|]. rewrite Ho.
    apply vreject_ok; [done|by apply fits_deny|by apply status_status0|by apply (status_finished (by_cu_proxy n c t))].
Qed.
Lemma setHostCuProxy_ok n m w : world_ok w → world_ok (setHostCuProxy n (new_cu <$> m) w).
Proof.
  intros Hw. unfold setHostCuProxy. eapply quiet_ok; [by apply cu_dispose_ok|]. apply alter_object_quiet. intros cv. split_and!; try done.
  unfold cu_owned. cbn. destruct m as [m|]; cbn; by intros x Hx%elem_of_nil.
Qed.

(** ** What users answer *)

Lemma directResolve_ok id i d w : world_ok w → get id w = Some i → in_directResolve i = true →
  world_ok (directResolve id d (resolve id (answer_state d) w).2).
Proof.
  intros Hw Hi Hd. destruct (get_owner _ _ _ _ Hw Hi) as (owner & Ho & He & Hv). rewrite (eo_direct _ _ He) in Hd. destruct owner; try done.
  eapply (acts_ok uuid id); [done..|unfold directResolve; eapply acts_trans; [apply resolve_acts|apply finish_acts]|]. intros Hs. cbn.
  eapply open_take_finish; [exact Hi|by apply (status_finished by_route), not_eq_None_Some; eauto| |by apply status_status0].
  split; [|done]. by destruct d.
Qed.
Lemma handleConfirm_ok requestId d p sc w : world_ok w → world_ok (handleConfirm requestId d p sc w).2.
Proof.
  intros Hw. unfold handleConfirm. destruct requestId as [id|]; [|done]. destruct (negb _); [done|]. destruct (get id w) as [i|] eqn:Ei; [|done].
  destruct (canonicalizeConfirmDecision d) as [u|]; [|done]. destruct (in_directResolve i) eqn:Ed; [by eapply directResolve_ok|].
  destruct (findConversation _ _); [|done]. by apply handleConfirmationResponse_ok.
Qed.
Lemma daemon_confirmation_ok id d p sc w : world_ok w → world_ok (daemon_confirmation id d p sc w).
Proof. intros Hw. unfold daemon_confirmation. destruct (js_find _ _) as [[? n]|]; [|done]. by apply handleConfirmationResponse_ok. Qed.
Lemma channel_ok c r a x w : world_ok w → world_ok (handleChannelDecision c r a x w).2.
Proof.
  intros Hw. unfold handleChannelDecision. destruct (match not_empty r with Some _ => _ | None => _ end) as [[id i]|]; [|done].
  destruct (findConversation _ _); [|done]. by apply handleConfirmationResponse_ok.
Qed.
Lemma guardian_ok id c a src w : world_ok w → world_ok (resolve_tool_approval id c a src w).2.
Proof.
  intros Hw. unfold resolve_tool_approval. destruct (is_null _); [done|]. destruct (get id w) as [i|] eqn:Ei; [|done].
  destruct (in_directResolve i) eqn:Ed; [by eapply directResolve_ok|]. destruct (findConversation _ _); [|done]. by apply handleConfirmationResponse_ok.
Qed.
Lemma voice_grant_ok n id t consumed w : world_ok w → world_ok (voice_grant_answered n id t consumed w).
Proof.
  intros Hw. unfold voice_grant_answered. destruct (bool_decide _); [|done]. eapply quiet_ok; [|by apply tell_quiet].
  apply handleConfirmationResponse_ok. eapply quiet_ok; [done|apply set_grants_quiet].
Qed.
Lemma secret_ok r v d w : world_ok w → world_ok (handleSecret r v d w).2.
Proof.
  intros Hw. unfold handleSecret. destruct r as [id|]; [|done]. destruct (negb _); [done|]. destruct (parse_delivery d) as [|dv]; [done|].
  destruct (get id w) as [i|] eqn:Ei; [|done]. destruct (negb (bool_decide (in_kind i = kind_secret))) eqn:Ek; [done|].
  apply negb_false_iff, bool_decide_eq_true in Ek. destruct (findConversation _ _ ≫= _) as [n|]; [by apply resolveSecret_ok|].
  destruct (get_owner _ _ _ _ Hw Ei) as (owner & Ho & He & _). rewrite (eo_kind _ _ He) in Ek.
  pose proof (answer_acts id (secret_answer_state v) (secret_result v (default store dv)) w _ (quiet_refl _)) as Ha.
  destruct (resolve _ _ w) as [e w1]. eapply (acts_ok uuid id); [exact Hw|exact Ho|exact Ha|]. intros Hs. rewrite Ho.
  assert (Hrpc : rpc_owner owner = true) by by destruct owner.
  apply vanswer_ok; [done| |by apply status_status0|by apply (status_finished owner)]. apply fits_deny; [by destruct v|done].
Qed.
Lemma question_result_denies body i o : question_result body i = inr o → allows o = false.
Proof.
  unfold question_result, buildCompletedResult. assert (H : ∀ x,
    match x with inl e => inl e | inr l => let '(orderedIds, optionsById) := readBatchMetadata i in
      match orderedIds with [] => inl no_registered_questions | _ :: _ =>
        match buildBatchEntries orderedIds (known_option optionsById) (jkeys optionsById) l with inl e => inl e | inr es => inr (batch_result es completed) end end end
      = inr o → allows o = false).
  { intros [|l]; [done|]. destruct (readBatchMetadata i) as [[|q qs] ?]; [done|]. destruct (buildBatchEntries _ _ _ _); [done|]. by intros [= <-]. }
  destruct body; first [apply H|by intros [= <-]].
Qed.
Lemma question_ok id body w : world_ok w → world_ok (handleQuestionResponse id body w).2.
Proof.
  intros Hw. unfold handleQuestionResponse. destruct (get id w) as [i|] eqn:Ei; [|done].
  destruct (negb (bool_decide (in_kind i = kind_question))) eqn:Ek; [done|]. apply negb_false_iff, bool_decide_eq_true in Ek.
  destruct (question_result body i) as [|o] eqn:Eo; [done|]. apply question_result_denies in Eo.
  destruct (get_owner _ _ _ _ Hw Ei) as (owner & Ho & He & _). rewrite (eo_kind _ _ He) in Ek.
  set (st := match body with body_close => cancelled | _ => answered end). assert (Hst : st ≠ approved) by by destruct body.
  pose proof (answer_acts id st o w _ (quiet_refl _)) as Ha. rewrite resolve_entry in Ha. change (v_entry (view w id)) with (get id w) in Ha. rewrite Ei in Ha.
  eapply (acts_ok uuid id); [exact Hw|exact Ho|exact Ha|]. intros Hs. rewrite Ho. assert (Hrpc : rpc_owner owner = true) by by destruct owner.
  apply vanswer_ok; [done|by apply fits_deny|by apply status_status0|by apply (status_finished owner)].
Qed.

(** ** Conversations and clients *)

Lemma objects_ok f w : world_ok w →
  (∀ n cv', f (wd_objects w) !! n = Some cv' → is_local (cv_sender cv') = false ∧
     (cv_confirmations cv' = [] ∧ cv_secrets cv' = [] ∧ cu_owned cv' = []
      ∨ ∃ cv, wd_objects w !! n = Some cv ∧ cv_confirmations cv' = cv_confirmations cv ∧ cv_secrets cv' = cv_secrets cv ∧ cu_owned cv' = cu_owned cv)) →
  world_ok (set_objects (f (wd_objects w)) w).
Proof.
  intros [[K1 K2 K3 K4 K5 K6 K7 K8] Hv] Hf. split; [|exact Hv]. split; cbn; try done; [..|by intros n cv' [? _]%Hf];
    intros n cv' id [_ [(E1 & E2 & E3)|(cv & Hcv & E1 & E2 & E3)]]%Hf; rewrite ?E1, ?E2, ?E3; intros Hid; try by apply elem_of_nil in Hid; eauto.
  all: eauto.
Qed.
Lemma set_hub_ok h w : world_ok w → ids_truthy h → world_ok (set_hub h w).
Proof. intros [[K1 K2 K3 K4 K5 K6 K7 K8] Hv] Hh. split; [|exact Hv]. by split. Qed.

(** Voice turns on the user's own device register their requests a second time, without
    what answers them; here conversations have none. *)
Definition no_local_voice (c : Step) : bool :=
  match c with new_conversation _ _ sender | update_client _ sender => negb (is_local sender) | _ => true end.

Lemma step_world_ok c w : no_local_voice c = true → world_ok w → world_ok (step iso uuid c w).
Proof.
  intros Hc Hw. destruct c; cbn.
  - destruct (wd_objects w !! n) eqn:E; [done|]. eapply quiet_ok; [|apply set_registry_quiet].
    apply (objects_ok (insert n _)); [done|]. intros m cv' [[<- <-]|[Hne Hm]]%lookup_insert_Some.
    + cbn in *. split; [by apply negb_true_iff|by left].
    + split; [by eapply (ko_senders _ _ (proj1 Hw))|right; by exists cv'].
  - eapply quiet_ok; [done|apply set_registry_quiet].
  - apply (objects_ok (alter (set_sender sender) n)); [done|]. intros m cv'. destruct (decide (m = n)) as [->|Hne].
    + rewrite lookup_alter_eq. intros (cv & Hcv & ->)%fmap_Some. cbn in *. split; [by apply negb_true_iff|right; by exists cv].
    + rewrite lookup_alter_ne by done. intros Hm. split; [by eapply (ko_senders _ _ (proj1 Hw))|right; by exists cv'].
  - destruct (wd_objects w !! n) eqn:E; [|done]. apply prompt_ok; [done..|]. by rewrite E.
  - destruct (wd_objects w !! n) eqn:E; [|done]. apply prompt_secret_ok; [done..|]. by rewrite E.
  - by apply standalone_ok.
  - by apply questions_ok.
  - by apply route_approval_ok.
  - by apply bash_request_ok.
  - by apply file_request_ok.
  - by apply cu_tool_ok.
  - by apply setHostCuProxy_ok.
  - eapply quiet_ok; [done|by apply alter_cu_quiet].
  - by apply handleConfirm_ok.
  - by apply daemon_confirmation_ok.
  - by apply channel_ok.
  - by apply channel_ok.
  - by apply guardian_ok.
  - by apply voice_grant_ok.
  - by apply secret_ok.
  - by apply question_ok.
  - by apply bash_result_ok.
  - by apply file_result_ok.
  - by apply cu_result_ok.
  - by apply auto_deny_ok.
  - by apply deny_all_ok.
  - by apply abort_turn_ok.
  - by apply abort_signal_ok.
  - by apply fire_ok.
  - by apply bash_dispose_ok.
  - by apply file_dispose_ok.
  - apply set_hub_ok; [done|]. apply hub_truthy, Hw.
Qed.
Lemma run_world_ok steps w : forallb no_local_voice steps = true → world_ok w → world_ok (run iso uuid steps w).
Proof.
  revert w. induction steps as [|c steps IH]; intros w; [done|]. cbn. intros [Hc Hs]%andb_true_iff Hw. by apply IH, step_world_ok.
Qed.
Lemma empty_ok h : ids_truthy h → world_ok (empty_world h).
Proof. intros Hh. split; [|done]. split; cbn; try done; by intros ? ?%elem_of_nil. Qed.
End system.
