(* ===== verification/InteractionOrigins.v ===== *)
(** * Where answers come from

    What each step of the system may settle a request with, and which entries it may make:
    a permission takes a step that approves, a result from the user's machine takes a
    submission that passed the checks of its route.  And which batches of answers to
    questions are accepted. *)
From stdpp Require Import pretty.
From S2P Require Import Prelude JsText RuntimeTypes RiskTypes Surroundings CheckerTypes StreamState EventHub HubProps Interactions Prompters HostProxies InteractionRoutes InteractionProps.

(** A result of a command, a file operation or an action on the screen. *)
Definition payload (o : Outcome) : bool :=
  match o with bash_payload _ _ _ _ | file_result _ | tool_result _ => true | _ => false end.
Definition plain (o : Outcome) : bool := negb (allows o) && negb (payload o).

(** A step that says yes to request [id]. *)
Definition approves (uuid : nat → string) (id : string) (c : Step) (w : World) : Prop :=
  match c with
  | route_confirm r d _ _ => r = Some id ∧ d = Some "allow"
  | daemon_confirm r d _ _ => r = id ∧ d = user_allow
  | channel_decision cid r a _ => a = approve_once ∧ (∀ r', not_empty r = Some r' → r' = id)
      ∧ ∃ i, (id, i) ∈ wd_pending w ∧ in_kind i = kind_confirmation ∧ in_conversationId i = Some cid
  | guardian_decision r _ a _ => r = id ∧ a = approve_once
  | voice_grant _ r _ consumed => r = id ∧ consumed = true
  | ask_confirmation n _ _ _ _ _ _ _ _ _ _ _ =>
      id = uuid (wd_drawn w) ∧ ∃ cv, wd_objects w !! n = Some cv ∧ cv_sender cv = sender_voice false true
  | _ => False
  end.
(** A submission for request [id], which names its request and its sender. *)
Definition submission (c : Step) : option (option string * Submitter) :=
  match c with route_bash r s _ => Some (r, s) | route_file r s _ => Some (r, s) | route_cu r s _ => Some (r, s) | _ => None end.
Definition submits (id : string) (c : Step) (w : World) : Prop :=
  ∃ s i, submission c = Some (Some id, s) ∧ get id w = Some i
    ∧ (check_submitter s (in_targetClientId i) (in_targetActorPrincipalId i) = None
       ∨ check_submitter s (not_empty (in_targetClientId i)) (in_targetActorPrincipalId i) = None).
(** On whose behalf a step asks. *)
Definition asked_by (c : Step) : option string :=
  match c with ask_bash _ _ _ source | ask_file _ _ _ _ _ source | ask_cu _ _ _ _ _ _ _ source => source | _ => None end.

Definition origin (uuid : nat → string) (c : Step) (w : World) (id : string) (o : Outcome) : Prop :=
  plain o = true ∨ allows o = true ∧ approves uuid id c w ∨ payload o = true ∧ submits id c w.
Definition entered (uuid : nat → string) (c : Step) (w : World) (id : string) (i : PendingInteraction) : Prop :=
  in_targetClientId i = None ∨ id = uuid (wd_drawn w) ∧ ∃ a, asked_by c = Some a ∧ in_targetActorPrincipalId i = Some a.

(** ** What an operation brings *)

Record brings (Q : string → Outcome → Prop) (R : string → PendingInteraction → Prop) (w w' : World) : Prop := {
  br_outcomes : ∀ id o, wd_outcomes w' !! id = Some o → wd_outcomes w !! id = Some o ∨ Q id o;
  br_entries : ∀ id i, get id w' = Some i → get id w = Some i ∨ R id i;
}.

Section brings.
Context (Q : string → Outcome → Prop) (R : string → PendingInteraction → Prop).
Notation brings := (brings Q R).

Lemma brings_refl w : brings w w.
Proof. split; auto. Qed.
Lemma brings_trans w1 w2 w3 : brings w1 w2 → brings w2 w3 → brings w1 w3.
Proof.
  intros [A1 B1] [A2 B2]. split.
  - intros id o [?|?]%A2; [by apply A1|by right].
  - intros id i [?|?]%B2; [by apply B1|by right].
Qed.
Lemma brings_frame w w1 w2 : wd_outcomes w2 = wd_outcomes w1 → wd_pending w2 = wd_pending w1 → brings w w1 → brings w w2.
Proof. intros E1 E2 [A B]. split; [by rewrite E1|]. unfold get. by rewrite E2. Qed.

Lemma brings_settle w w1 id o : Q id o → brings w w1 → brings w (settle id o w1).
Proof.
  intros H [A B]. unfold settle. destruct (wd_outcomes w1 !! id) eqn:E; [by split|]. split; [|exact B]. cbn.
  intros x o' [[<- <-]|[_ ?]]%lookup_insert_Some; [by right|by apply A].
Qed.
Lemma brings_register w w1 id i : R id i → brings w w1 → brings w (register id i w1).
Proof.
  intros H [A B]. split; [exact A|]. intros x j. unfold get, register. cbn. rewrite jget_jset. case_decide as Hx; [subst x; intros [= <-]; by right|]. apply B.
Qed.
Lemma brings_resolve w w1 id st : brings w w1 → brings w (resolve id st w1).2.
Proof.
  intros H. unfold resolve. destruct (jget id (wd_pending w1)) as [i|] eqn:E; [|done]. cbn. unfold emitResolved.
  assert (H1 : brings w (set_pending (jdel id (wd_pending w1)) w1)).
  { destruct H as [A B]. split; [exact A|]. intros x j. unfold get. cbn. rewrite jget_jdel. case_decide; [done|apply B]. }
  destruct (in_conversationId i), (in_timer i), (in_detachAbort i); by eapply brings_frame; [..|exact H1].
Qed.
Lemma brings_resolve_eq w w1 id st i w2 : resolve id st w1 = (i, w2) → brings w w1 → brings w w2.
Proof. intros E H. pose proof (brings_resolve w w1 id st H) as H2. by rewrite E in H2. Qed.
Lemma brings_finish w w1 id st o : Q id o → brings w w1 → brings w (finish id st o w1).
Proof.
  intros HQ H. unfold finish. destruct (bool_decide _); [done|]. apply brings_settle; [done|]. apply brings_resolve. by eapply brings_frame; [..|exact H].
Qed.
Lemma brings_rpc_settle w w1 id o : Q id o → brings w w1 → brings w (rpc_settle id o w1).
Proof. intros HQ H. unfold rpc_settle. destruct (wd_owners w1 !! id) as [[]|]; by first [apply brings_finish|apply brings_settle]. Qed.
Lemma brings_rpcResolve w w1 id i o : (i ≠ None → Q id o) → brings w w1 → brings w (rpcResolve id i o w1).
Proof. intros HQ H. unfold rpcResolve. destruct i as [i|]; [|done]. destruct (in_rpcResolve i); [|done]. apply brings_rpc_settle; [by apply HQ|done]. Qed.
Lemma brings_rpcReject w w1 id i o : Q id o → brings w w1 → brings w (rpcReject id i o w1).
Proof. intros HQ H. unfold rpcReject. destruct i as [i|]; [|done]. destruct (in_rpcReject i); [|done]. by apply brings_rpc_settle. Qed.
Lemma brings_foldl {A} (g : World → A → World) l w w1 : (∀ w1 a, brings w w1 → brings w (g w1 a)) → brings w w1 → brings w (foldl g w1 l).
Proof. intros Hg. revert w1. induction l as [|a l IH]; intros w1 H; [done|]. cbn. by apply IH, Hg. Qed.

(** What changes neither promises nor entries. *)
Lemma brings_tell w w1 e : brings w w1 → brings w (tell e w1).
Proof. by apply brings_frame. Qed.
Lemma brings_emit w w1 n id st src t : brings w w1 → brings w (emit_state n id st src t w1).
Proof. apply brings_frame; unfold emit_state; destruct (_ !! _) as [cv|]; try done; by destruct (cv_sender cv). Qed.
Lemma brings_unlisten w w1 id : brings w w1 → brings w (unlisten id w1).
Proof. by apply brings_frame. Qed.
Lemma brings_listen w w1 signal id : brings w w1 → brings w (listen signal id w1).
Proof. by apply brings_frame; destruct signal. Qed.
Lemma brings_clearTimer w w1 id : brings w w1 → brings w (clearTimer id w1).
Proof. by apply brings_frame. Qed.
Lemma brings_setTimer w w1 id : brings w w1 → brings w (setTimer id w1).
Proof. by apply brings_frame. Qed.
Lemma brings_alter w w1 n f : brings w w1 → brings w (alter_object n f w1).
Proof. by apply brings_frame. Qed.
Lemma brings_alter_cu w w1 n f : brings w w1 → brings w (alter_cu n f w1).
Proof. by apply brings_frame. Qed.
Lemma brings_cu_disown w w1 n id : brings w w1 → brings w (cu_disown n id w1).
Proof. by apply brings_frame. Qed.
Lemma brings_disown_confirmation w w1 n id : brings w w1 → brings w (disown_confirmation n id w1).
Proof. by apply brings_frame. Qed.
Lemma brings_disown_secret w w1 n id : brings w w1 → brings w (disown_secret n id w1).
Proof. by apply brings_frame. Qed.
Lemma brings_bash_forget w w1 id : brings w w1 → brings w (bash_forget id w1).
Proof. by apply brings_frame. Qed.
Lemma brings_set_bash w w1 x : brings w w1 → brings w (set_bash x w1).
Proof. by apply brings_frame. Qed.
Lemma brings_mark_aborted w w1 s : brings w w1 → brings w (mark_aborted s w1).
Proof. by apply brings_frame. Qed.
Lemma brings_set_grants w w1 x : brings w w1 → brings w (set_grants x w1).
Proof. by apply brings_frame. Qed.
Lemma brings_set_objects w w1 x : brings w w1 → brings w (set_objects x w1).
Proof. by apply brings_frame. Qed.
Lemma brings_set_registry w w1 x : brings w w1 → brings w (set_registry x w1).
Proof. by apply brings_frame. Qed.
Lemma brings_set_hub w w1 x : brings w w1 → brings w (set_hub x w1).
Proof. by apply brings_frame. Qed.
End brings.

Create HintDb brings.
#[export] Hint Resolve brings_refl brings_settle brings_resolve brings_finish brings_rpcReject brings_tell brings_emit brings_unlisten brings_listen
  brings_clearTimer brings_setTimer brings_alter brings_alter_cu brings_cu_disown brings_disown_confirmation brings_disown_secret
  brings_bash_forget brings_set_bash brings_mark_aborted brings_set_grants brings_set_objects brings_set_registry brings_set_hub : brings.

(** ** Operations that answer with nothing but a refusal *)

Section operations.
Context (Q : string → Outcome → Prop) (R : string → PendingInteraction → Prop).
Context (Hplain : ∀ id o, plain o = true → Q id o).
Notation brings := (brings Q R).
Hint Extern 1 (Q _ _) => (apply Hplain; reflexivity) : brings.

(** Taking an entry and running its callback. *)
Lemma brings_answer w w1 id st o (h : World → World) : Q id o → (∀ w2, brings w w2 → brings w (h w2)) → brings w w1 →
  brings w (let '(i, w2) := resolve id st w1 in rpcResolve id i o (h w2)).
Proof.
  intros HQ Hh H. pose proof (brings_resolve _ _ w w1 id st H) as H1. destruct (resolve id st w1) as [i w2]. by apply brings_rpcResolve, Hh.
Qed.
Lemma brings_reject w w1 id st o (h : World → World) : Q id o → (∀ w2, brings w w2 → brings w (h w2)) → brings w w1 →
  brings w (let '(i, w2) := resolve id st w1 in rpcReject id i o (h w2)).
Proof.
  intros HQ Hh H. pose proof (brings_resolve _ _ w w1 id st H) as H1. destruct (resolve id st w1) as [i w2]. by apply brings_rpcReject, Hh.
Qed.

(** An answer to a confirmation is what its operation is given. *)
Definition confirms (id : string) (d : UserDecision) : Prop := ∀ r p s, cf_decision r = d → Q id (confirmed r p s).
Lemma confirms_deny id : confirms id user_deny.
Proof. intros r p s Hr. apply Hplain. unfold plain. cbn. by rewrite Hr. Qed.
Lemma brings_confirmation w w1 n id d options : confirms id d → brings w w1 → brings w (resolveConfirmation n id d options w1).
Proof.
  intros HQ H. unfold resolveConfirmation. destruct (negb _); [done|]. apply (brings_answer _ _ _ _ _ (disown_confirmation n id)); [by apply HQ|eauto with brings|done].
Qed.
Lemma brings_response w w1 n id d options src : confirms id d → brings w w1 → brings w (handleConfirmationResponse n id d options src w1).
Proof. intros HQ H. unfold handleConfirmationResponse. destruct (negb _); [done|]. apply brings_emit. by apply brings_confirmation. Qed.

Lemma brings_deny_all w w1 n : brings w w1 → brings w (denyAllPending n w1).
Proof.
  intros H. unfold denyAllPending. destruct (_ !! n); [|done]. apply brings_foldl; [|done]. intros w2 id H2.
  apply (brings_answer _ _ _ _ _ (disown_confirmation n id)); eauto with brings.
Qed.
Lemma brings_dispose_prompter w w1 n : brings w w1 → brings w (dispose_prompter n w1).
Proof.
  intros H. unfold dispose_prompter. destruct (_ !! n); [|done]. apply brings_foldl; [|done]. intros w2 id H2.
  apply (brings_reject _ _ _ _ _ (disown_confirmation n id)); eauto with brings.
Qed.
Lemma brings_dispose_secrets w w1 n : brings w w1 → brings w (dispose_secret_prompter n w1).
Proof.
  intros H. unfold dispose_secret_prompter. destruct (_ !! n); [|done]. apply brings_foldl; [|done]. intros w2 id H2.
  apply (brings_reject _ _ _ _ _ (disown_secret n id)); eauto with brings.
Qed.
Lemma brings_resolve_secret w w1 n id value d : brings w w1 → brings w (resolveSecret n id value d w1).
Proof.
  intros H. unfold resolveSecret. destruct (negb _); [done|]. apply (brings_answer _ _ _ _ _ (disown_secret n id)); eauto with brings.
Qed.
Lemma brings_remove w w1 c st : brings w w1 → brings w (removeByConversation c st w1).
Proof.
  intros H. apply brings_foldl; [|done]. intros w2 e H2. unfold remove_one. destruct (bool_decide _); [|eauto with brings].
  apply brings_rpcResolve; eauto with brings.
Qed.
Lemma brings_auto_deny w w1 n c : brings w w1 → brings w (auto_deny n c w1).
Proof.
  intros H. unfold auto_deny. destruct (hasPending n w1); [|done]. apply brings_remove, brings_deny_all, brings_foldl; [|done].
  intros w2 e H2. unfold tell_denied. destruct (bool_decide _); eauto with brings.
Qed.

(** ** Timers, signals, proxies that go away *)

Lemma brings_timeout w w1 id owner : brings w w1 → brings w (on_timeout id owner w1).
Proof.
  intros H. destruct owner; cbn; unfold secret_timeout, standalone_timeout, bash_timeout, file_timeout, cu_timeout; try by eauto 6 with brings.
  apply (brings_answer _ _ _ _ _ (λ w2, emit_state n id state_timed_out src_timeout toolUseId (disown_confirmation n id w2))); eauto with brings.
Qed.
Lemma brings_fire w w1 id : brings w w1 → brings w (fire id w1).
Proof. intros H. unfold fire. destruct (bool_decide _); [|done]. destruct (_ !! id); [|done]. by apply brings_timeout, brings_clearTimer. Qed.
Lemma brings_abort w w1 id owner : brings w w1 → brings w (on_abort id owner w1).
Proof.
  intros H. destruct owner; cbn; try by eauto with brings.
  - unfold confirmation_abort. destruct (owns_confirmation _ _ _); eauto with brings.
  - unfold bash_abort. destruct (jhas _ _); eauto 8 with brings.
  - unfold file_abort. destruct (negb _); eauto with brings.
  - unfold cu_abort. destruct (negb _); eauto 6 with brings.
Qed.
Lemma brings_abort_signal w w1 s : brings w w1 → brings w (abort_signal s w1).
Proof.
  intros H. unfold abort_signal. destruct (bool_decide _); [done|]. apply brings_foldl; [|by apply brings_mark_aborted]. intros w2 id H2.
  unfold abort_one. destruct (bool_decide _); [|done]. destruct (_ !! id); [|done]. by apply brings_abort, brings_unlisten.
Qed.
Lemma brings_bash_dispose w w1 : brings w w1 → brings w (bash_dispose w1).
Proof.
  intros H. unfold bash_dispose. apply brings_set_bash, brings_foldl; [|done]. intros w2 e H2. unfold bash_dispose_one. eauto 7 with brings.
Qed.
Lemma brings_file_dispose w w1 : brings w w1 → brings w (file_dispose w1).
Proof.
  intros H. apply brings_foldl; [|done]. intros w2 e H2. unfold file_dispose_one. apply brings_rpcReject; [eauto with brings|].
  destruct (is_null _); eauto with brings.
Qed.
Lemma brings_cu_dispose w w1 n : brings w w1 → brings w (cu_dispose n w1).
Proof.
  intros H. unfold cu_dispose. destruct (cu_of n w1); [|done]. apply brings_alter_cu, brings_foldl; [|done]. intros w2 id H2. unfold cu_dispose_one.
  pose proof (brings_resolve _ _ w w2 id cancelled H2) as H3. destruct (resolve id cancelled w2) as [[i|] w3]; [|done].
  apply brings_rpcReject; [eauto with brings|]. destruct (is_null _); eauto with brings.
Qed.
End operations.

(** ** Steps *)

Section steps.
Context (iso : Z → string) (uuid : nat → string).

Lemma origin_plain c w id o : plain o = true → origin uuid c w id o.
Proof. by left. Qed.
Hint Resolve origin_plain : brings.
Lemma origin_confirms c w id d : (d = user_allow → approves uuid id c w) → confirms (origin uuid c w) id d.
Proof.
  intros H r p s Hr. destruct d; [|by apply confirms_deny; [apply origin_plain|]]. right. left. split; [|by apply H]. cbn. by apply bool_decide_eq_true.
Qed.

Lemma same_actor_entered target source h : enforceSameActor target source h = None → target = None ∨ ∃ a, source = Some a ∧ target_actor target h = Some a.
Proof.
  unfold enforceSameActor, target_actor, detectRejection. destruct target as [t|]; [|by left]. cbn. intros H. right. destruct source as [a|]; [|done].
  destruct (getActorPrincipalIdForClient t h) as [b|]; [|done]. destruct (eqs a b) eqn:E; [|done]. apply bool_decide_eq_true in E as ->. eauto.
Qed.
Lemma entered_host c w d cid k target r meta w1 h : wd_drawn w = d → wd_hub w1 = h → enforceSameActor target (asked_by c) h = None →
  entered uuid c w (uuid d) (host_entry cid k target r meta w1).
Proof. intros <- <- He%same_actor_entered. unfold entered, host_entry. cbn. destruct He as [->|(a & -> & ?)]; [by left|right]. eauto. Qed.

Lemma brings_draw Q R w w1 owner : brings Q R w w1 → brings Q R w (draw uuid owner w1).2.
Proof. by apply brings_frame. Qed.
Hint Resolve brings_draw : brings.

Lemma prompt_brings n t input risk al sc cid tgt pers sig u dirs w :
  let c := ask_confirmation n t input risk al sc cid tgt pers sig u dirs in
  brings (origin uuid c w) (entered uuid c w) w (prompt uuid n t input risk al sc cid tgt pers sig u dirs w).2.
Proof.
  intros c. unfold prompt. destruct (is_aborted sig w); [apply brings_refl|]. cbn [fst snd draw]. apply brings_emit.
  set (id := uuid (wd_drawn w)). match goal with |- brings _ _ _ (send_confirmation_request _ _ ?d0 (listen _ _ ?x)) => set (w2 := x); set (d := d0) end.
  assert (H2 : brings (origin uuid c w) (entered uuid c w) w w2).
  { apply brings_alter, brings_register; [by left|]. by apply brings_frame with w; [..|apply brings_refl]. }
  assert (Hobj : wd_objects (listen sig id w2) = alter (λ cv, set_confirmations (cv_confirmations cv ++ [id]) cv) n (wd_objects w)) by by destruct sig.
  apply (brings_listen _ _ w w2 sig id) in H2. revert H2 Hobj. generalize (listen sig id w2). clear w2. intros w2 H2 Hobj.
  unfold send_confirmation_request. rewrite Hobj, lookup_alter_eq. destruct (wd_objects w !! n) as [cv|] eqn:E; [|done]. cbn.
  destruct (cv_sender cv) as [| |[] []] eqn:Es; eauto with brings.
  1,2: apply brings_tell, brings_register; [by left|done].
  apply brings_tell, brings_response; [|done]. apply origin_confirms. intros _. split; [done|]. by exists cv.
Qed.
Lemma bash_brings t cid sig source w :
  brings (origin uuid (ask_bash t cid sig source) w) (entered uuid (ask_bash t cid sig source) w) w (bash_request uuid t cid sig source w).2.
Proof.
  unfold bash_request. destruct (is_aborted sig w); [apply brings_refl|]. destruct (resolve_target _ _ _ _) as [|target]; [apply brings_refl|].
  destruct (enforceSameActor _ _ _) eqn:Ee; [apply brings_refl|]. unfold dispatchRequest. cbn [fst snd draw].
  apply brings_tell, brings_register; [eapply entered_host; [|  |exact Ee]; by destruct sig|].
  apply brings_set_bash, brings_listen, brings_setTimer. by apply brings_frame with w; [..|apply brings_refl].
Qed.
Lemma file_brings op p t cid sig source w :
  brings (origin uuid (ask_file op p t cid sig source) w) (entered uuid (ask_file op p t cid sig source) w) w (file_request uuid op p t cid sig source w).2.
Proof.
  unfold file_request. destruct (is_aborted sig w); [apply brings_refl|]. destruct (resolve_target _ _ _ _) as [|target]; [apply brings_refl|].
  destruct (enforceSameActor _ _ _) eqn:Ee; [apply brings_refl|]. cbn [fst snd draw].
  apply brings_tell, brings_register; [eapply entered_host; [|  |exact Ee]; by destruct sig|].
  apply brings_listen, brings_setTimer. by apply brings_frame with w; [..|apply brings_refl].
Qed.
Lemma cu_brings c n cid sig t w w1 : wd_drawn w = wd_drawn w1 → brings (origin uuid c w) (entered uuid c w) w w1 →
  brings (origin uuid c w) (entered uuid c w) w (cu_request uuid n cid sig t (asked_by c) w1).2.
Proof.
  intros Hd H. unfold cu_request. destruct (cu_of n w1); [|done]. destruct (is_aborted sig w1); [done|]. destruct (_ <? _); [done|].
  destruct (match t with Some t => _ | None => _ end) as [|target]; [done|].
  destruct (match target with Some t => _ | None => _ end) as [|target']; [done|].
  destruct (enforceSameActor _ _ _) eqn:Ee; [done|]. cbn [fst snd draw].
  apply brings_tell, brings_register; [eapply entered_host; [|  |exact Ee]; by destruct sig|].
  apply brings_alter_cu, brings_listen, brings_setTimer. by apply brings_frame with w1.
Qed.
Lemma cu_tool_brings n t input r tc cid sig source w :
  brings (origin uuid (ask_cu n t input r tc cid sig source) w) (entered uuid (ask_cu n t input r tc cid sig source) w) w
    (cu_tool uuid n t input r tc cid sig source w).2.
Proof.
  unfold cu_tool. destruct (cu_of n w); [|apply brings_refl]. destruct (getMostRecentClientByCapability _ _); [|apply brings_refl].
  match goal with |- context[match ?x with inl e => (inl e, w) | inr _ => _ end] => destruct x as [|target] end; [apply brings_refl|].
  apply (cu_brings (ask_cu n t input r tc cid sig source)); [done|]. by apply brings_frame with w; [..|apply brings_refl].
Qed.

Lemma confirm_brings r d p sc w :
  brings (origin uuid (route_confirm r d p sc) w) (entered uuid (route_confirm r d p sc) w) w (handleConfirm r d p sc w).2.
Proof.
  unfold handleConfirm. destruct r as [id|]; [|apply brings_refl]. destruct (negb _); [apply brings_refl|]. destruct (get id w) as [i|]; [|apply brings_refl].
  destruct (canonicalizeConfirmDecision d) as [u|] eqn:Ed; [|apply brings_refl].
  assert (Ha : u = user_allow → approves uuid id (route_confirm (Some id) d p sc) w).
  { intros ->. split; [done|]. unfold canonicalizeConfirmDecision in Ed. destruct d as [d|]; [|done]. cbn in Ed. destruct (eqs d "allow") eqn:E.
    - by apply bool_decide_eq_true in E as ->.
    - by destruct (eqs d "deny"). }
  destruct (in_directResolve i).
  - apply brings_finish; [|apply brings_resolve, brings_refl]. destruct u; [|by apply origin_plain]. right. left. split; [done|by apply Ha].
  - destruct (findConversation _ _); [|apply brings_refl]. apply brings_response; [by apply origin_confirms|apply brings_refl].
Qed.
Lemma daemon_brings id d p sc w :
  brings (origin uuid (daemon_confirm id d p sc) w) (entered uuid (daemon_confirm id d p sc) w) w (daemon_confirmation id d p sc w).
Proof.
  unfold daemon_confirmation. destruct (js_find _ _) as [[? n]|]; [|apply brings_refl]. apply brings_response; [by apply origin_confirms|apply brings_refl].
Qed.
Lemma channel_brings Q c r a x w : (∀ id o, plain o = true → Q id o) →
  (∀ id i, (∀ r', not_empty r = Some r' → r' = id) → (id, i) ∈ wd_pending w → in_kind i = kind_confirmation → in_conversationId i = Some c →
     confirms Q id (mapApprovalActionToUserDecision a)) →
  ∀ R, brings Q R w (handleChannelDecision c r a x w).2.
Proof.
  intros HQ Ha R. unfold handleChannelDecision. set (pending := getApprovalInfoByConversation c w).
  assert (Hp : ∀ e, e ∈ pending → e ∈ wd_pending w ∧ in_kind e.2 = kind_confirmation ∧ in_conversationId e.2 = Some c).
  { intros e [He [Hk _]%andb_true_iff]%elem_of_bool_filter. apply elem_of_bool_filter in He as [He Hc]. apply bool_decide_eq_true in Hk, Hc. done. }
  destruct (match not_empty r with Some _ => _ | None => _ end) as [[id i]|] eqn:E; [|apply brings_refl].
  destruct (findConversation _ _); [|apply brings_refl]. apply brings_response; [|apply brings_refl].
  assert (Hid : (id, i) ∈ pending ∧ ∀ r', not_empty r = Some r' → r' = id).
  { destruct (not_empty r) as [r'|].
    - apply js_find_elem in E as [He Hid]. apply bool_decide_eq_true in Hid. cbn in Hid. split; [done|]. intros ? [= <-]. done.
    - split; [|done]. destruct pending; [done|]. injection E as ->. by left. }
  destruct Hid as [(Hin & Hk & Hc)%Hp Hr]. by eapply Ha.
Qed.
Lemma guardian_brings id c a src w :
  brings (origin uuid (guardian_decision id c a src) w) (entered uuid (guardian_decision id c a src) w) w (resolve_tool_approval id c a src w).2.
Proof.
  unfold resolve_tool_approval. destruct (is_null _); [apply brings_refl|]. destruct (get id w) as [i|]; [|apply brings_refl].
  assert (Ha : mapApprovalActionToUserDecision a = user_allow → approves uuid id (guardian_decision id c a src) w) by by destruct a.
  destruct (in_directResolve i).
  - apply brings_finish; [|apply brings_resolve, brings_refl]. destruct (mapApprovalActionToUserDecision a); [|by apply origin_plain]. right. left.
    split; [done|by apply Ha].
  - destruct (findConversation _ _); [|apply brings_refl]. apply brings_response; [by apply origin_confirms|apply brings_refl].
Qed.
Lemma grant_brings n id t consumed w :
  brings (origin uuid (voice_grant n id t consumed) w) (entered uuid (voice_grant n id t consumed) w) w (voice_grant_answered n id t consumed w).
Proof.
  unfold voice_grant_answered. destruct (bool_decide _); [|apply brings_refl]. apply brings_tell, brings_response; [|apply brings_set_grants, brings_refl].
  apply origin_confirms. by destruct consumed.
Qed.
Lemma secret_brings r v d w : brings (origin uuid (route_secret r v d) w) (entered uuid (route_secret r v d) w) w (handleSecret r v d w).2.
Proof.
  unfold handleSecret. destruct r as [id|]; [|apply brings_refl]. destruct (negb _); [apply brings_refl|].
  destruct (parse_delivery d) as [|dv]; [apply brings_refl|]. destruct (get id w) as [i|]; [|apply brings_refl]. destruct (negb _); [apply brings_refl|].
  destruct (findConversation _ _ ≫= _); [apply brings_resolve_secret; [apply origin_plain|apply brings_refl]|].
  pose proof (brings_resolve (origin uuid (route_secret (Some id) v d) w) (entered uuid (route_secret (Some id) v d) w) w w id (secret_answer_state v)
    (brings_refl _ _ _)) as H. destruct (resolve _ _ w) as [e w1]. apply brings_rpcResolve; [|done]. by intros; apply origin_plain.
Qed.
Lemma question_result_plain body i o : question_result body i = inr o → plain o = true.
Proof.
  unfold question_result, buildCompletedResult. assert (H : ∀ x,
    match x with inl e => inl e | inr l => let '(orderedIds, optionsById) := readBatchMetadata i in
      match orderedIds with [] => inl no_registered_questions | _ :: _ =>
        match buildBatchEntries orderedIds (known_option optionsById) (jkeys optionsById) l with inl e => inl e | inr es => inr (batch_result es completed) end end end
      = inr o → plain o = true).
  { intros [|l]; [done|]. destruct (readBatchMetadata i) as [[|q qs] ?]; [done|]. destruct (buildBatchEntries _ _ _ _); [done|]. by intros [= <-]. }
  destruct body; first [apply H|by intros [= <-]].
Qed.
Lemma question_brings id body w : brings (origin uuid (route_question id body) w) (entered uuid (route_question id body) w) w (handleQuestionResponse id body w).2.
Proof.
  unfold handleQuestionResponse. destruct (get id w) as [i|]; [|apply brings_refl]. destruct (negb _); [apply brings_refl|].
  destruct (question_result body i) as [|o] eqn:Eo; [apply brings_refl|]. apply brings_rpcResolve; [|apply brings_resolve, brings_refl].
  intros _. by apply origin_plain, (question_result_plain body i).
Qed.

(** A result is settled only after the checks of its route. *)
Lemma peek_found kind r w id i : peek kind r w = inr (id, i) → r = Some id ∧ get id w = Some i.
Proof.
  unfold peek. destruct r as [r|]; [|done]. destruct (negb _); [done|]. destruct (get r w) as [j|] eqn:E; [|done].
  destruct (bool_decide _); [|done]. by intros [= -> ->].
Qed.
Lemma bash_result_brings r s b w : brings (origin uuid (route_bash r s b) w) (entered uuid (route_bash r s b) w) w (handleHostBashResult r s b w).2.
Proof.
  unfold handleHostBashResult. destruct (peek _ _ _) as [|[id i]] eqn:E; [apply brings_refl|].
  destruct (check_submitter _ _ _) eqn:Ec; [apply brings_refl|]. apply peek_found in E as [-> Hi]. cbn. unfold bash_resolveResult, bash_resolve.
  set (w1 := (resolve id answered w).2). assert (H1 : brings (origin uuid (route_bash (Some id) s b) w) (entered uuid (route_bash (Some id) s b) w) w w1)
    by apply brings_resolve, brings_refl.
  destruct (jhas _ _); [|done]. apply brings_settle; [|by apply brings_bash_forget, brings_unlisten, brings_clearTimer]. right. right. split; [done|].
  exists s, i. split_and!; [done|done|by right].
Qed.
Lemma file_result_brings r s b w : brings (origin uuid (route_file r s b) w) (entered uuid (route_file r s b) w) w (handleHostFileResult r s b w).2.
Proof.
  unfold handleHostFileResult. destruct (peek _ _ _) as [|[id i]] eqn:E; [apply brings_refl|].
  destruct (check_submitter _ _ _) eqn:Ec; [apply brings_refl|]. apply peek_found in E as [-> Hi]. cbn. unfold file_resolve.
  pose proof (brings_resolve (origin uuid (route_file (Some id) s b) w) (entered uuid (route_file (Some id) s b) w) w w id answered (brings_refl _ _ _)) as H.
  destruct (resolve id answered w) as [[j|] w1]; [|done]. apply brings_rpcResolve; [|done]. intros _.
  assert (payload (file_outcome (in_metadata j) b) = true).
  { unfold file_outcome. destruct (in_metadata j); try done. destruct (_ && _); [|done]. destruct (not_empty _); [done|]. by repeat destruct (not_empty _). }
  right. right. split; [done|]. exists s, i. split_and!; [done|done|by left].
Qed.
Lemma cu_result_brings r s ob w : brings (origin uuid (route_cu r s ob) w) (entered uuid (route_cu r s ob) w) w (handleHostCuResult r s ob w).2.
Proof.
  unfold handleHostCuResult. destruct (peek _ _ _) as [|[id i]] eqn:E; [apply brings_refl|].
  destruct (check_submitter _ _ _) eqn:Ec; [apply brings_refl|]. apply peek_found in E as [-> Hi].
  destruct (findConversation _ _ ≫= _) as [n|]; [|apply brings_resolve, brings_refl]. cbn. unfold processObservation.
  pose proof (brings_resolve (origin uuid (route_cu (Some id) s ob) w) (entered uuid (route_cu (Some id) s ob) w) w (cu_disown n id w) id answered
    (brings_cu_disown _ _ _ _ _ _ (brings_refl _ _ _))) as H.
  destruct (resolve id answered _) as [[j|] w1]; [|done]. destruct (cu_of n w1); [|done]. destruct (in_rpcResolve j) eqn:Er; [|done].
  apply brings_rpcResolve; [|by apply brings_alter_cu]. intros _. right. right. split; [done|]. exists s, i. split_and!; [done|done|by left].
Qed.

(** Every step. *)
Lemma step_brings c w : brings (origin uuid c w) (entered uuid c w) w (step iso uuid c w).
Proof.
  destruct c; cbn [step].
  - destruct (wd_objects w !! n); eauto with brings.
  - eauto with brings.
  - eauto with brings.
  - destruct (wd_objects w !! n); [|apply brings_refl]. apply prompt_brings.
  - destruct (wd_objects w !! n); [|apply brings_refl]. unfold prompt_secret. cbn [fst snd draw].
    apply brings_tell, brings_alter, brings_register; [by left|]. by apply brings_frame with w; [..|apply brings_refl].
  - apply brings_tell, brings_register; [by left|]. by apply brings_frame with w; [..|apply brings_refl].
  - unfold prompt_questions. destruct (bool_decide _); [apply brings_refl|]. destruct (is_aborted _ _); [apply brings_refl|]. cbn [fst snd draw].
    apply brings_tell, brings_register; [by left|]. apply brings_listen, brings_setTimer. by apply brings_frame with w; [..|apply brings_refl].
  - unfold awaitRouteApproval. destruct (is_aborted _ _); [apply brings_refl|]. cbn [fst snd draw].
    apply brings_tell, brings_register; [by left|]. apply brings_listen, brings_setTimer. by apply brings_frame with w; [..|apply brings_refl].
  - apply bash_brings.
  - apply file_brings.
  - apply cu_tool_brings.
  - apply brings_alter, brings_cu_dispose; [apply origin_plain|apply brings_refl].
  - eauto with brings.
  - apply confirm_brings.
  - apply daemon_brings.
  - apply channel_brings; [apply origin_plain|]. intros id i Hr Hi Hk Hc. apply origin_confirms. destruct action; [|done]. intros _.
    split_and!; [done|done|by exists i].
  - apply channel_brings; [apply origin_plain|]. intros id i _ _ _ _. by apply origin_confirms.
  - apply guardian_brings.
  - apply grant_brings.
  - apply secret_brings.
  - apply question_brings.
  - apply bash_result_brings.
  - apply file_result_brings.
  - apply cu_result_brings.
  - apply brings_auto_deny; [apply origin_plain|apply brings_refl].
  - apply brings_deny_all; [apply origin_plain|apply brings_refl].
  - apply brings_dispose_secrets; [apply origin_plain|]. apply brings_dispose_prompter; [apply origin_plain|].
    apply brings_abort_signal; [apply origin_plain|apply brings_refl].
  - apply brings_abort_signal; [apply origin_plain|apply brings_refl].
  - apply brings_fire; [apply origin_plain|apply brings_refl].
  - apply brings_bash_dispose; [apply origin_plain|apply brings_refl].
  - apply brings_file_dispose; [apply origin_plain|apply brings_refl].
  - eauto with brings.
Qed.
End steps.

(** ** The identifiers of a batch *)

Lemma question_id_inj i j : question_id i = question_id j → i = j.
Proof. unfold question_id. intros H%(inj (String.append "q"))%(inj pretty). lia. Qed.
Lemma keys_of_options questions : jkeys (optionsById_of questions) = orderedIds_of questions.
Proof. unfold jkeys, optionsById_of, orderedIds_of. by rewrite fmap_imap. Qed.
Lemma orderedIds_NoDup questions : NoDup (orderedIds_of questions).
Proof.
  apply NoDup_alt. intros i j x. unfold orderedIds_of. rewrite !list_lookup_imap. intros (a & _ & H1)%fmap_Some (b & _ & H2)%fmap_Some.
  apply question_id_inj. congruence.
Qed.

(** ** What passes the checks *)

Definition option_known (isKnownOption : string → string → bool) (s : Submission) : Prop :=
  match s with submit_option q o => isKnownOption q o = true | _ => True end.
Lemma check_submissions_spec isKnown known seen l seen' : check_submissions isKnown known seen l = inr seen' ↔
  seen' = rev (submission_questionId <$> l) ++ seen ∧ Forall (λ s, submission_questionId s ∈ known ∧ option_known isKnown s) l
  ∧ NoDup (submission_questionId <$> l) ∧ (∀ s, s ∈ l → submission_questionId s ∉ seen).
Proof.
  revert seen. induction l as [|s l IH]; intros seen; cbn [check_submissions].
  - split; [intros [= <-]; split_and!; [done|constructor|constructor|by intros s Hs%elem_of_nil]|]. by intros [-> _].
  - assert (Hrec : check_submissions isKnown known (submission_questionId s :: seen) l = inr seen' ↔
      seen' = rev (submission_questionId <$> (s :: l)) ++ seen ∧ Forall (λ s, submission_questionId s ∈ known ∧ option_known isKnown s) l
      ∧ NoDup (submission_questionId <$> (s :: l)) ∧ (∀ x, x ∈ l → submission_questionId x ∉ seen)).
    { rewrite IH. cbn [rev fmap list_fmap]. rewrite <- (assoc_L (++)). cbn. rewrite NoDup_cons, list_elem_of_fmap. set_solver. }
    rewrite Forall_cons. destruct (bool_decide_reflect (submission_questionId s ∈ known)) as [Hk|Hk]; cbn [negb]; [|split; [done|naive_solver]].
    destruct (bool_decide_reflect (submission_questionId s ∈ seen)) as [Hs|Hs]; cbn [negb].
    { split; [done|]. intros (_ & _ & _ & H). by destruct (H s (list_elem_of_here _ _)). }
    assert (Hall : (∀ x, x ∈ l → submission_questionId x ∉ seen) ↔ (∀ x, x ∈ s :: l → submission_questionId x ∉ seen)) by set_solver.
    destruct s as [q o|q t|q]; cbn [submission_questionId option_known] in *; [destruct (isKnown q o) eqn:E; cbn [negb]; [|split; [done|naive_solver]]|..]; rewrite Hrec, Hall; clear -Hk; naive_solver.
Qed.
Lemma submission_for_spec l s : NoDup (submission_questionId <$> l) → s ∈ l → submission_for (submission_questionId s) l = Some s.
Proof.
  intros Hnd Hs. unfold submission_for. destruct (js_find _ _) as [s'|] eqn:E.
  - apply js_find_elem in E as [Hs' He%bool_decide_eq_true]. apply list_elem_of_In in Hs'. rewrite <- in_rev in Hs'. apply list_elem_of_In in Hs'. f_equal.
    apply list_elem_of_lookup in Hs as [i Hi], Hs' as [j Hj]. assert (i = j) as ->; [|congruence].
    eapply (NoDup_lookup _ i j (submission_questionId s)); [exact Hnd|by rewrite list_lookup_fmap, Hi|by rewrite list_lookup_fmap, Hj; cbn; f_equal].
  - assert (Hs' : s ∈ rev l) by (apply list_elem_of_In; rewrite <- in_rev; by apply list_elem_of_In). apply (js_find_none _ _ E) in Hs'. clear Hs. rename Hs' into Hs. by apply bool_decide_eq_false in Hs.
Qed.

(** An answer for every question of the batch, in its order, taken from the submission for it. *)
Definition answers (submissions : list Submission) (id : string) (e : QuestionEntry) : Prop :=
  ∃ s, s ∈ submissions ∧ submission_questionId s = id ∧ e = entry_of id (Some s).

Lemma jget_pair {V} k (v : V) (m : jsmap string V) : NoDup (jkeys m) → jget k m = Some v ↔ (k, v) ∈ m.
Proof.
  induction m as [|[k' v'] m IH]; cbn; [intros _; split; [done|by intros ?%elem_of_nil]|]. rewrite NoDup_cons. intros [Hn Hnd]. rewrite elem_of_cons.
  case_decide as Hk; [|rewrite IH by done; naive_solver]. subst k'. split; [intros [= ->]; by left|]. intros [[= ->]|Hin]; [done|].
  destruct Hn. by apply (list_elem_of_fmap_2 fst) in Hin.
Qed.
Lemma known_option_spec questions q o :
  known_option (optionsById_of questions) q o = true ↔ ∃ options, (q, options) ∈ optionsById_of questions ∧ o ∈ options.
Proof.
  assert (Hnd : NoDup (jkeys (optionsById_of questions))) by (rewrite keys_of_options; apply orderedIds_NoDup).
  unfold known_option. destruct (jget q _) as [options|] eqn:E.
  - rewrite bool_decide_eq_true. pose proof (proj1 (jget_pair _ _ _ Hnd) E). split; [eauto|]. intros (l & Hl & Ho).
    apply (jget_pair _ _ _ Hnd) in Hl. congruence.
  - split; [done|]. intros (l & Hl & _). apply (jget_pair _ _ _ Hnd) in Hl. congruence.
Qed.
Lemma options_known questions l :
  Forall (option_known (known_option (optionsById_of questions))) l
  ↔ ∀ q o, submit_option q o ∈ l → ∃ options, (q, options) ∈ optionsById_of questions ∧ o ∈ options.
Proof.
  rewrite Forall_forall. split.
  - intros H q o Hin. by apply known_option_spec, (H _ Hin).
  - intros H [q o|q t|q] Hin; [|done..]. by apply known_option_spec, H.
Qed.
Lemma answers_entries l ids entries : NoDup (submission_questionId <$> l) → (∀ id, id ∈ ids → id ∈ submission_questionId <$> l) →
  Forall2 (answers l) ids entries ↔ entries = (λ id, entry_of id (submission_for id l)) <$> ids.
Proof.
  intros Hnd. revert entries. induction ids as [|id ids IH]; intros entries Hin.
  - split; [by intros ->%Forall2_nil_inv_l|]. by intros ->.
  - assert (Hone : ∀ e, answers l id e ↔ e = entry_of id (submission_for id l)).
    { intros e. destruct (proj1 (list_elem_of_fmap _ _ _) (Hin id (list_elem_of_here _ _))) as (s & -> & Hs). rewrite (submission_for_spec l s Hnd Hs).
      split; [|intros ->; by exists s]. intros (s' & Hs' & He & ->). pose proof (submission_for_spec l s' Hnd Hs') as Hf.
      rewrite He, (submission_for_spec l s Hnd Hs) in Hf. by injection Hf as ->. }
    cbn. split.
    + intros (e & es & He & Hes & ->)%Forall2_cons_inv_l. apply Hone in He as ->. f_equal. apply IH; [|done]. intros x Hx. apply Hin. by right.
    + intros ->. constructor; [by apply Hone|]. apply IH; [|done]. intros x Hx. apply Hin. by right.
Qed.

(** C39. The prompter accepts exactly the submissions that answer every question of the batch once, in any order, with options that were
    offered; and the answers are those submissions, in the order of the questions. *)
Theorem batch_accepted (questions : list (list string)) (submissions : list Submission) (entries : list QuestionEntry) :
  buildBatchEntries (orderedIds_of questions) (known_option (optionsById_of questions)) (jkeys (optionsById_of questions)) submissions
    = inr entries
  ↔ (submission_questionId <$> submissions) ≡ₚ orderedIds_of questions
    ∧ (∀ q o, submit_option q o ∈ submissions → ∃ options, (q, options) ∈ optionsById_of questions ∧ o ∈ options)
    ∧ Forall2 (answers submissions) (orderedIds_of questions) entries.
Proof.
  unfold buildBatchEntries. rewrite keys_of_options. pose proof (orderedIds_NoDup questions) as Hord. set (ids := orderedIds_of questions) in *.
  destruct (check_submissions _ ids [] submissions) as [e|submitted] eqn:E.
  - split; [done|]. intros (Hp & Hopt & _). exfalso. assert (check_submissions (known_option (optionsById_of questions)) ids [] submissions
      = inr (rev (submission_questionId <$> submissions) ++ [])) as H; [|congruence].
    apply check_submissions_spec. split_and!; [done| |by rewrite Hp|by intros s _ ?%elem_of_nil]. apply options_known in Hopt.
    rewrite Forall_forall in *. intros s Hs. split; [|by apply Hopt]. rewrite <- Hp. by apply list_elem_of_fmap_2.
  - apply check_submissions_spec in E as (-> & Hall & Hnd & _). rewrite app_nil_r, Forall_and in *. destruct Hall as [Hk Ho].
    assert (Hsub : submission_questionId <$> submissions ⊆ ids).
    { intros x (s & -> & Hs)%list_elem_of_fmap. rewrite Forall_forall in Hk. by apply Hk. }
    rewrite options_known in Ho. destruct (js_find _ ids) as [id|] eqn:Ef.
    + split; [done|]. intros (Hp & _). apply js_find_elem in Ef as [Hin Hn]. apply negb_true_iff, bool_decide_eq_false in Hn. destruct Hn.
      apply list_elem_of_In. rewrite <- in_rev. apply list_elem_of_In. by rewrite Hp.
    + assert (Hin : ∀ id, id ∈ ids → id ∈ submission_questionId <$> submissions).
      { intros id Hid. apply (js_find_none _ _ Ef) in Hid. apply negb_false_iff, bool_decide_eq_true, list_elem_of_In in Hid.
        rewrite <- in_rev in Hid. by apply list_elem_of_In. }
      rewrite (answers_entries submissions ids entries Hnd Hin). split; [|by intros (_ & _ & ->)]. intros [= <-]. split_and!; [|done|done].
      apply NoDup_Permutation; [done..|]. intros x. split; [apply Hsub|apply Hin].
Qed.
