(* ===== verification/InteractionClaims.v ===== *)
(** * What users and machines are asked: the properties

    Every request comes to an end or is still open with its timer running; clients get one
    notice that it is over, and a truthful one; a permission takes a step that approves; a
    result from a machine takes a submission of the client and the user the request was
    for.  All but the third are about runs without voice turns on the user's own device,
    which register a request a second time.  The examples at the end are runs the program
    does not mean to have. *)
From stdpp Require Import pretty.
From S2P Require Import Prelude JsText RuntimeTypes RiskTypes Surroundings CheckerTypes StreamState EventHub HubProps Interactions Prompters HostProxies InteractionRoutes InteractionProps InteractionOrigins.

(** Nothing is asked yet, nobody is connected. *)
Definition start (file : option json) (writable : bool) : World := empty_world (empty_hub (empty_stream file writable)).

(** ** Runs *)

Section runs.
Context (iso : Z → string) (uuid : nat → string).
Notation world steps file writable := (run iso uuid steps (start file writable)).

Lemma start_world_ok file writable : world_ok uuid (start file writable).
Proof. apply empty_ok. by intros s c Hs%elem_of_nil. Qed.
Lemma run_snoc steps c w : run iso uuid (steps ++ [c]) w = step iso uuid c (run iso uuid steps w).
Proof. unfold run. by rewrite foldl_app. Qed.

(** The step that settled a request. *)
Lemma outcome_origin steps file writable id o : wd_outcomes (world steps file writable) !! id = Some o →
  ∃ before c after, steps = before ++ c :: after ∧ origin uuid c (world before file writable) id o.
Proof.
  induction steps as [|c steps IH] using rev_ind; [cbn; by rewrite lookup_empty|]. rewrite run_snoc. intros H.
  destruct (br_outcomes _ _ _ _ (step_brings iso uuid c (world steps file writable)) id o H) as [Hold|Hnew].
  - destruct (IH Hold) as (before & c' & after & -> & Ho). exists before, c', (after ++ [c]). split; [by rewrite <- (assoc_L (++))|done].
  - exists steps, c, []. done.
Qed.
(** The step that made an entry for a client. *)
Lemma entry_origin steps file writable id i t : get id (world steps file writable) = Some i → in_targetClientId i = Some t →
  ∃ before c after a, steps = before ++ c :: after ∧ id = uuid (wd_drawn (world before file writable)) ∧ asked_by c = Some a
    ∧ in_targetActorPrincipalId i = Some a.
Proof.
  intros H Ht. revert H. induction steps as [|c steps IH] using rev_ind; [done|]. rewrite run_snoc. intros H.
  destruct (br_entries _ _ _ _ (step_brings iso uuid c (world steps file writable)) id i H) as [Hold|[Hnone|(Hid & a & Ha & Hi)]].
  - destruct (IH Hold) as (before & c' & after & a & -> & Ho). exists before, c', (after ++ [c]), a. split; [by rewrite <- (assoc_L (++))|done].
  - congruence.
  - by exists steps, c, [], a.
Qed.
Lemma submitter_of_target s t a : check_submitter s (Some t) (Some a) = None → sm_clientId s = Some t ∧ sm_actorPrincipalId s = Some a.
Proof.
  unfold check_submitter. destruct (sm_clientId s) as [c|]; [|done]. destruct (eqs c t) eqn:E; [|done]. apply bool_decide_eq_true in E as ->. cbn.
  unfold detectRejection. destruct (sm_actorPrincipalId s) as [b|]; [|done]. destruct (eqs b a) eqn:E; [|done]. by apply bool_decide_eq_true in E as ->.
Qed.
End runs.

(** ** The properties *)

(** C35. No request is lost: whatever happens, in whatever order, a request that was made is settled, or it is open and its timer is
    running and settles it when it fires, or it was taken away and clients were told so: a confirmation or a question superseded by a
    message, or an action on the screen cancelled. *)
Theorem no_request_is_lost (iso : Z → string) (uuid : nat → string) `{!Inj (=) (=) uuid} file writable steps id owner :
  forallb no_local_voice steps = true →
  let w := run iso uuid steps (start file writable) in
  wd_owners w !! id = Some owner →
  is_Some (wd_outcomes w !! id)
  ∨ (is_Some (get id w) ∧ id ∈ wd_timers w ∧ is_Some (wd_outcomes (step iso uuid (timer_fires id) w) !! id))
  ∨ ∃ st, told id w = [(kind_of owner, st)] ∧ dropped owner st.
Proof.
  intros Hsteps w Ho. assert (Hw : world_ok uuid w) by (apply run_world_ok; [done|done|apply start_world_ok]).
  pose proof (proj2 Hw id) as Hs. rewrite Ho in Hs. pose proof Hs as [Hs0 Htimer]. unfold status0 in Hs0.
  change (v_entry (view w id)) with (get id w) in *. destruct (get id w) as [i|] eqn:Ei.
  - right. left. destruct Htimer as (Ht%bool_decide_eq_true & _). split_and!; [by eexists|done|].
    destruct (fire_acts id w owner Ho Ht) as (g & Hg & Hsettles). change (is_Some (v_outcome (view (fire id w) id))).
    rewrite (proj2 Hg), decide_True by done. apply Hsettles; [done|]. change (is_Some (get id w)). by rewrite Ei.
  - unfold gone_view in Hs0. change (v_outcome (view w id)) with (wd_outcomes w !! id) in Hs0. destruct (wd_outcomes w !! id); [by left; eexists|].
    right. by right.
Qed.

(** C36. In every run without voice turns on the user's own device, clients get the notice that a request is over (interaction_resolved)
    once and truthfully: none while it is open; afterwards one, with its kind and a state that is "approved" exactly when the request was
    settled with a permission, but for a secret asked for outside a conversation, which is settled without a notice.  The separate
    confirmation_state_changed events are not notices in this sense: see asked_after_approval below. *)
Theorem resolution_noticed_once (iso : Z → string) (uuid : nat → string) `{!Inj (=) (=) uuid} file writable steps id owner :
  forallb no_local_voice steps = true →
  let w := run iso uuid steps (start file writable) in
  wd_owners w !! id = Some owner →
  match get id w with
  | Some _ => told id w = [] ∧ wd_outcomes w !! id = None
  | None => owner = by_standalone_secret ∧ told id w = [] ∧ is_Some (wd_outcomes w !! id)
      ∨ ∃ st, told id w = [(kind_of owner, st)] ∧ (st = approved ↔ ∃ o, wd_outcomes w !! id = Some o ∧ allows o = true)
  end.
Proof.
  intros Hsteps w Ho. assert (Hw : world_ok uuid w) by (apply run_world_ok; [done|done|apply start_world_ok]).
  pose proof (proj2 Hw id) as Hs. rewrite Ho in Hs. destruct Hs as [Hs _]. unfold status0 in Hs. change (v_entry (view w id)) with (get id w) in Hs.
  destruct (get id w) as [i|]; [by destruct Hs as [? [_ ?]]|]. unfold gone_view in Hs. change (v_outcome (view w id)) with (wd_outcomes w !! id) in Hs.
  destruct (wd_outcomes w !! id) as [o|].
  - destruct Hs as [(Hst & Ht & _)|(st & Ht & Hst)]; [left|right].
    + split_and!; [by destruct owner|exact Ht|by eexists].
    + exists st. split; [exact Ht|]. rewrite Hst. naive_solver.
  - destruct Hs as (st & Ht & Hd). right. exists st. split; [exact Ht|]. split; [intros ->; by destruct owner|by intros (? & ? & _)].
Qed.

(** C37. Nothing is permitted by itself: a request that was settled with a permission was settled by a step that said yes to it: the
    confirm route with "allow", the daemon, a channel or the guardian with an approval, a grant of a voice turn, or the guardian's own
    voice turn on the phone at the moment of asking.  No timeout, abort, disposal, message or expiry permits anything. *)
Theorem permission_takes_approval (iso : Z → string) (uuid : nat → string) file writable steps id o :
  wd_outcomes (run iso uuid steps (start file writable)) !! id = Some o → allows o = true →
  ∃ before c after, steps = before ++ c :: after ∧ approves uuid id c (run iso uuid before (start file writable)).
Proof.
  intros H Ho. destruct (outcome_origin iso uuid _ _ _ _ _ H) as (before & c & after & -> & Horig). exists before, c, after. split; [done|].
  destruct Horig as [Hp|[[_ Ha]|[Hp _]]]; [|done|by destruct o]. unfold plain in Hp. by rewrite Ho in Hp.
Qed.

(** C38. In every run without voice turns on the user's own device, what comes back from a machine comes from the user who asked: a
    request is settled with a result only by a submission for it while it is open, and when it was sent to a particular client, the
    submission names that client and the user on whose behalf the step that made the request had asked. *)
Theorem results_come_from_the_asker (iso : Z → string) (uuid : nat → string) `{!Inj (=) (=) uuid} file writable steps id o :
  forallb no_local_voice steps = true →
  wd_outcomes (run iso uuid steps (start file writable)) !! id = Some o → payload o = true →
  ∃ before answer after s i,
    steps = before ++ answer :: after ∧ submission answer = Some (Some id, s)
    ∧ get id (run iso uuid before (start file writable)) = Some i
    ∧ ∀ t, in_targetClientId i = Some t → sm_clientId s = Some t
        ∧ ∃ before' ask after' a, before = before' ++ ask :: after' ∧ id = uuid (wd_drawn (run iso uuid before' (start file writable)))
            ∧ asked_by ask = Some a ∧ sm_actorPrincipalId s = Some a.
Proof.
  intros Hsteps H Ho. destruct (outcome_origin iso uuid _ _ _ _ _ H) as (before & c & after & -> & Horig).
  destruct Horig as [Hp|[[Ha _]|[_ (s & i & Hsub & Hi & Hc)]]];
    [unfold plain in Hp; by rewrite Ho, andb_false_r in Hp|by destruct o|].
  exists before, c, after, s, i. split_and!; [done..|]. intros t Ht.
  rewrite forallb_app in Hsteps. apply andb_true_iff in Hsteps as [Hbefore _].
  assert (Hw : world_ok uuid (run iso uuid before (start file writable))) by (apply run_world_ok; [done|done|apply start_world_ok]).
  destruct (entry_origin iso uuid _ _ _ _ _ _ Hi Ht) as (before' & ask & after' & a & -> & Hid & Hask & Hact).
  assert (Hc' : check_submitter s (Some t) (Some a) = None).
  { rewrite <- Ht, <- Hact. destruct Hc as [Hc|Hc]; [done|]. destruct (get_owner _ _ _ _ Hw Hi) as (owner & _ & He & _).
    assert (truthy t = true) as Htr; [|by unfold not_empty in Hc; rewrite Ht in Hc |- *; cbn in Hc; rewrite Htr in Hc].
    pose proof (eo_target _ _ He) as Htg. destruct (host_target owner) as [[cid t']|]; [|congruence].
    destruct Htg as [Hti Htt]. apply Htt. congruence. }
  apply submitter_of_target in Hc' as [Hcl Hac]. split; [done|]. by exists before', ask, after', a.
Qed.

(** ** Runs of the properties *)

Definition ids (n : nat) : string := "r" +:+ pretty n.
#[export] Instance ids_inj : Inj (=) (=) ids.
Proof. intros m n H. by apply (inj (String.append "r")), (inj pretty) in H. Qed.
Definition when (t : Z) : string := pretty t.

Definition alice_mac : Step :=
  clients_change (hub_connect (mkLocalIdentity false None) (Some "mac-a") (Some "macos") (Some "alice") None None false 0 0).
Definition bob_mac : Step :=
  clients_change (hub_connect (mkLocalIdentity false None) (Some "mac-b") (Some "macos") (Some "bob") None None false 0 0).
Definition ask (n : nat) (toolName conversationId : string) : Step :=
  ask_confirmation n toolName [] "high" [] [] (Some conversationId) None None None None None.
Definition opened : list Step := [new_conversation 0 "c" sender_clients; ask 0 "bash" "c"].
Definition alice : Submitter := mkSubmitter (Some "mac-a") (Some "alice").
Definition output : BashResponse := mkBashResponse (Some "done") None (Some 0) None.
Definition answered_run : list Step :=
  [alice_mac; bob_mac; ask_bash None "c" None (Some "alice"); route_bash (Some "r0") alice output].

(** Witness of C35: a confirmation that is open. *)
Lemma no_request_is_lost_witness :
  forallb no_local_voice opened = true
  ∧ (is_Some (wd_outcomes (run when ids opened (start None true)) !! "r0")
     ∨ (is_Some (get "r0" (run when ids opened (start None true))) ∧ "r0" ∈ wd_timers (run when ids opened (start None true))
        ∧ is_Some (wd_outcomes (step when ids (timer_fires "r0") (run when ids opened (start None true))) !! "r0"))
     ∨ ∃ st, told "r0" (run when ids opened (start None true)) = [(kind_confirmation, st)] ∧ dropped (by_prompter 0 "bash" None) st).
Proof. split; [reflexivity|]. by apply (no_request_is_lost when ids None true opened "r0" (by_prompter 0 "bash" None)). Defined.

(** Witness of C36: it is allowed. *)
Lemma resolution_noticed_once_witness :
  let w := run when ids (opened ++ [route_confirm (Some "r0") (Some "allow") None None]) (start None true) in
  get "r0" w = None ∧
  (by_prompter 0 "bash" None = by_standalone_secret ∧ told "r0" w = [] ∧ is_Some (wd_outcomes w !! "r0")
   ∨ ∃ st, told "r0" w = [(kind_confirmation, st)] ∧ (st = approved ↔ ∃ o, wd_outcomes w !! "r0" = Some o ∧ allows o = true)).
Proof.
  intros w. assert (Hg : get "r0" w = None) by (vm_compute; reflexivity). split; [exact Hg|].
  pose proof (resolution_noticed_once when ids None true (opened ++ [route_confirm (Some "r0") (Some "allow") None None]) "r0"
    (by_prompter 0 "bash" None) eq_refl eq_refl) as H. fold w in H. rewrite Hg in H. exact H.
Defined.

(** Witness of C37. *)
Lemma permission_takes_approval_witness :
  ∃ before c after, opened ++ [route_confirm (Some "r0") (Some "allow") None None] = before ++ c :: after
    ∧ approves ids "r0" c (run when ids before (start None true)).
Proof.
  apply (permission_takes_approval when ids None true (opened ++ [route_confirm (Some "r0") (Some "allow") None None]) "r0"
    (confirmed (mkConfirm user_allow None false false false) None None)); vm_compute; reflexivity.
Defined.

(** Witness of C38: a command on one of two machines. *)
Lemma results_come_from_the_asker_witness :
  ∃ before answer after s i,
    answered_run = before ++ answer :: after ∧ submission answer = Some (Some "r0", s)
    ∧ get "r0" (run when ids before (start None true)) = Some i
    ∧ ∀ t, in_targetClientId i = Some t → sm_clientId s = Some t
        ∧ ∃ before' ask after' a, before = before' ++ ask :: after' ∧ "r0" = ids (wd_drawn (run when ids before' (start None true)))
            ∧ asked_by ask = Some a ∧ sm_actorPrincipalId s = Some a.
Proof.
  apply (results_come_from_the_asker when ids None true answered_run "r0" (bash_payload "done" "" (Some 0) false)); vm_compute; reflexivity.
Defined.

(** ** Runs the program does not mean to have *)

Section shortcomings.
Let ran (steps : list Step) : World := run when ids steps (start None true).
Let allow_r0 : Step := route_confirm (Some "r0") (Some "allow") None None.

(** A voice turn on the user's own device registers the request a second time, without its callback: the user allows it, the timer
    fires, and the tool waits on. *)
Example local_voice_is_never_answered :
  let w := ran [new_conversation 0 "c" (sender_voice true true); ask 0 "bash" "c"; allow_r0; timer_fires "r0"] in
  (wd_outcomes w !! "r0", get "r0" w, bool_decide ("r0" ∈ wd_timers w)) = (None, None, false).
Proof. vm_compute. reflexivity. Qed.

(** The result of an action on the screen comes back after its conversation is gone: the request is dropped, its timer stopped. *)
Example observation_of_forgotten_conversation :
  let w := ran [alice_mac; new_conversation 0 "c" sender_clients; set_cu_proxy 0 (Some 50);
                ask_cu 0 "computer_use_click" [] None None "c" None (Some "alice"); forget_conversation "c";
                route_cu (Some "r0") alice (mkObservation None None None None None None None None None); timer_fires "r0"] in
  (wd_outcomes w !! "r0", get "r0" w, bool_decide ("r0" ∈ wd_timers w), told "r0" w) = (None, None, false, [(kind_host_cu, cancelled)]).
Proof. vm_compute. reflexivity. Qed.

(** A message arrives while a confirmation and a batch of questions are open: the questions are dropped, and who asked them waits on. *)
Example questions_dropped :
  let w := ran (opened ++ [ask_questions "c" [["a"; "b"]] None None; message_arrives 0 "c"; timer_fires "r1"]) in
  (wd_outcomes w !! "r1", get "r1" w, bool_decide ("r1" ∈ wd_timers w), allows <$> wd_outcomes w !! "r0") = (None, None, false, Some false).
Proof. vm_compute. reflexivity. Qed.

(** No machine of the user is connected: a command goes out to whoever is, and anybody answers; an action on the screen is refused. *)
Example command_for_somebody_elses_machine :
  let w := ran [bob_mac; ask_bash None "c" None (Some "alice"); route_bash (Some "r0") (mkSubmitter (Some "mac-b") (Some "bob")) output] in
  (in_targetClientId <$> get "r0" (ran [bob_mac; ask_bash None "c" None (Some "alice")]), wd_outcomes w !! "r0",
   (cu_request ids 0 "c" None None (Some "alice") (ran [bob_mac; new_conversation 0 "c" sender_clients; set_cu_proxy 0 (Some 50)])).1)
  = (Some None, Some (bash_payload "done" "" (Some 0) false), inl other_users_only).
Proof. vm_compute. reflexivity. Qed.

(** The approval for the second request expires: the first one is denied. *)
Example expiry_denies_another_request :
  let w := ran (opened ++ [ask 0 "write" "c"; approval_expired "c"]) in
  (allows <$> wd_outcomes w !! "r0", is_null (get "r1" w)) = (Some false, false).
Proof. vm_compute. reflexivity. Qed.

(** A channel approves what a route asked: it is told that the approval was applied, and nothing happens. *)
Example channel_approval_without_effect :
  let w := ran [new_conversation 0 "c" sender_clients; ask_route "acp_spawn" [] "c" None] in
  (handleChannelDecision "c" (Some "r0") approve_once None w).1 = Some "r0" ∧ (handleChannelDecision "c" (Some "r0") approve_once None w).2 = w.
Proof. vm_compute. split; reflexivity. Qed.

(** On the phone the guardian's request is approved before it is sent: clients are told that it is approved, then asked, then told that
    it is pending. *)
Example asked_after_approval :
  wd_events (ran [new_conversation 0 "c" (sender_voice false true); ask 0 "bash" "c"])
  = [ev_resolved "r0" "c" kind_confirmation approved; ev_confirmation_state "c" "r0" state_approved src_button None;
     ev_request "r0" kind_confirmation None; ev_confirmation_state "c" "r0" state_pending src_system None].
Proof. vm_compute. reflexivity. Qed.
End shortcomings.
